(* ===== verification/_CoqProject ===== *)
-Q . S2P
Prelude.v
GoStrings.v
Version.v
Base64.v
Hashes.v
Crypto.v
Admission.v
Delegation.v
Policy.v
PolicyGate.v
Net.v
FileSys.v
Update.v
UpdateFS.v
UpdateSpecs.v
UpdateSafety.v
UpdateTheorems.v
Revocation.v
DeviceCred.v
Accounting.v
Capacity.v
Quota.v
Estimator.v
Rating.v
GeoIP.v
ASN.v
Stun.v
Coldstart.v
CoordState.v
Challenges.v
Geo.v
Assign.v
Coordinator.v
CoordSafety.v
RelayChain.v
Forward.v
E2E.v
ChainDial.v
Selection.v
Client.v
Pairing.v
Pool.v
Nft.v
NetWire.v
Netd.v
NetdSafety.v
Enforce.v
Tunnel.v
LinuxOS.v
Settings.v
Account.v
AppState.v
Controller.v
Engine.v
Node.v
Reality.v
Rendezvous.v
UDPRelay.v
ShapedLink.v
CoordLink.v
