(* ===== verification/Prelude.v ===== *)
(** * Bacchus: a verification library for a VPN of volunteers

    Bacchus is a VPN whose relays and exits are run by volunteers. A coordinator
    ([cmd/coordinator]) listens on one UDP port: nodes register with it and heartbeat,
    clients ask it for the countries on offer and connect, and it pairs a client with an
    exit, directly or through a relay. It carries no traffic. It trusts nobody: who may
    join is decided by signed credentials, what it must enforce comes from a policy
    signed offline, what a node can carry is measured by client reports, where a node is
    is looked up from the address its packets come from, unless it is configured otherwise
    or the lookup has no answer. A client ([core]) chooses its
    relays itself, builds a chain of them, and trusts only what the nodes prove. On the
    user's machine a privileged helper ([cmd/bacchus-netd]) keeps traffic from leaving
    beside the tunnel, and every program updates itself over a signed channel
    ([core/update]). This development models these decisions and the state they keep.

    ** The files

    Foundations.
    - [Prelude] (this file): Go's error results and early returns ([result], [let?],
      [check!]), machine integers ([wrap64], [wrapi64], saturating time subtraction),
      bytes, sorting of strings, and the tactics and lemmas every file uses.
    - [GoStrings], [Base64], [Net], [Hashes]: the functions of [strings], [strconv],
      [encoding/base64], [encoding/hex], [net], [crypto/sha1], [crypto/sha256],
      [crypto/hmac] and [hash/crc32] that the code calls, written out.
    - [Crypto]: the interfaces to ed25519 and to [encoding/json] as classes ([Ed25519],
      [JSON], [RawJSON]) with their laws ([Ed25519Laws], [JSONLaws], [RawJSONLaws]): a
      signature verifies under the signer's key, decoding inverts encoding (of strings that
      are UTF-8, as every string of these objects is). Nothing is
      assumed of forged signatures: the theorems say what was checked, under which key,
      over which bytes. [Toy] is an executable instance; the witnesses run on it.
    - [FileSys]: a disk, programs as trees of system calls, and runs in which every call
      may fail and the process may die after any of them; [core/atomicfile] on top.

    Signed objects.
    - [Version] ([core/version]): releases and their order.
    - [Admission] ([core/admission]): credentials, authorities, revocation lists, CRLs.
    - [Delegation] ([core/delegation]): root-signed certificates and the tagged message.
    - [Policy] ([core/policy]), [PolicyGate] ([cmd/coordinator/policy.go]): the network
      policy, its verification and cache, and the loop that installs it.
    - [Revocation] ([core/revocation], [cmd/coordinator/revocations.go], the reload loop
      of [admission.go]): signed revocation documents and the loops that install them.
    - [DeviceCred] ([core/devicecred]): issuer certificates, device credentials and the
      assertion a device signs over a challenge.
    - [Accounting] ([core/accounting]): receipts, their co-signing, capacity reports and
      the byte counter.

    The release channel ([core/update]).
    - [Update]: manifests, their verification and signing, the trust anchor.
    - [UpdateFS]: the state file, staging, applying, the watchdog and the updater, as
      programs over [FileSys]; [UpdateSpecs], [UpdateSafety] and [UpdateTheorems]: their
      weakest preconditions, the invariant of an installation, and the theorems.

    Capacity and place.
    - [Capacity], [Quota], [Estimator], [Rating] ([core/capacity]): shares, the monthly
      quota and its checkpoint, the estimator on IEEE 754 doubles, the two-stream ratings
      and their store.
    - [GeoIP] ([core/geoip]), [ASN] ([core/asn], [cmd/coordinator/asn.go]), [Geo]
      ([cmd/coordinator/geo.go]): the range tables and the country of a node.

    Cold start.
    - [Stun] ([core/coldstart/wire.go], [binding.go]): the STUN-shaped messages.
    - [Coldstart] (the rest of [core/coldstart]): the signed directory, invites, the
      bootstrap server and its demultiplexer, the courier, and the client's exchange.

    The coordinator.
    - [CoordState]: the message type [wire], the registries (one [state] record for the
      package-level maps), the configuration [Config], and the [Inputs] of one call:
      clock readings, random identifiers, and the order in which Go walks a map.
    - [Challenges] ([devicecred.go]): the challenge store and the device gate.
    - [Assign] ([assign.go], [tier.go], parts of [capacity_feed.go] and [main.go]): tier
      limits, fences, the choice of an exit and the country map.
    - [Coordinator] ([main.go], [idempotency.go], [capacity_feed.go], [core/handshake]):
      [handle] with one definition per message type, the sweep, the signed directory and
      the loops that refresh it and the bootstrap secrets.
    - [CoordSafety]: the coordinator as a transition system and its invariant.

    - [Rendezvous] ([rendezvous.go], the packet loop and [send] of [main.go]): the socket in
      front of [handle]: STUN, DTLS and bare messages told apart, the table of associations,
      and the shape of a reply.

    Nodes and clients.
    - [RelayChain], [Forward], [ChainDial] ([core/relaychain.go], [forwarder.go]): the
      directory and the choice of hops; what a node does with a circuit; the layers a
      client dials and how it recovers from a broken chain.
    - [E2E] ([core/e2e.go], [exit_admission.go]): the framed, sealed channel over the
      [Noise] interface, and the credential check of its handshake.
    - [Selection] ([core/selection]): the ladder of paths and the memory of what worked.
    - [Client] ([core/client.go], [devicecred_connect.go]): connecting, the verdict of a
      pass over the coordinators, reconnecting, and keeping a relayed path.
    - [Pool] ([core/pool.go], [pool_probe.go], [coordpool.go]): the race of candidate
      dials and the bookkeeping of failures.
    - [Pairing]: a client and a coordinator composed.
    - [Node], [Engine] ([core/engine.go], [forwarder.go], the names of [transport.go]): what
      a node is built from and refuses, how it registers, here with the coordinator's
      handler of it; and the life of an engine, its goroutines interleaved.
    - [ShapedLink], [CoordLink] ([core/rendezvous_client.go], [core/coordpool.go]): a
      client's link to a coordinator and the association inside it, their goroutines
      interleaved, and the association with the table of [Rendezvous].
    - [Reality] ([core/reality_clienthello.go], [reality_auth.go], [transport_reality.go],
      [transport_reality_meter.go]): how an exit that looks like an ordinary web server
      knows its clients, and what everyone else gets.
    - [UDPRelay] ([core/udprelay.go]): datagrams through the tunnel, both ends of a flow.
    - [Account] ([core/devicestore], [core/accountclient], [devicecred_connect.go]): the
      device's key and credential on the disk, over [FileSys], and enrolling, collecting
      and renewing with an account service that may answer anything.

    The user's machine.
    - [Nft] ([cmd/bacchus-netd/nft.go]): the kill switch's ruleset as netlink messages,
      and what the kernel lets out once they are applied.
    - [NetWire] ([netdwire]), [Netd] ([server.go], [dns.go]): the helper's protocol and
      its handlers, over a kernel whose every call may fail; [NetdSafety]: the theorems.
    - [Enforce], [Tunnel], [LinuxOS] ([clients/internal/enforcement]): which addresses stay
      outside the tunnel; bringing the tunnel up and taking it down over any system that
      offers the calls of [osNet]; and the Linux implementation, on top of [Netd].
    - [Settings], [AppState], [Controller] ([clients/fyne/internal/appstate]): the settings
      and the signed directory on the disk; what is shown of an engine and what a connect
      is checked for; and the controller's goroutines, interleaved.

    The coordinator's handlers run under one mutex, so a handler is a function from the
    state, the message, its source and the inputs to the new state and what is sent.
    Loops that share a value with the handlers (policy, revocations, ratings) are steps
    that may come anywhere. Goroutines that race (the dials of a selection, the engine's,
    the controller's) are steps taken in every order.

    ** What is proved

    - The coordinator as a whole: an invariant of every run ([coordinator_wf]); a session
      is opened only through every gate and to live nodes ([session_opened_sound]), and a
      connect that passes them is served ([connect_served]); a retransmission is answered
      again and opens nothing ([retransmitted_connect]); a node joins only through the
      fences, at the address it was heard from ([node_registered_sound]); the sweep ends and announces exactly the sessions
      it should ([sweepTick_exact]). Its table of associations keeps its limit and its
      invariant in every run ([table_is_kept], [sweep_is_exact]); what came in an association
      is answered inside it while the table has it ([answered_in_shape]); but a client that has been silent is
      written to in the clear, and does not listen ([quiet_peer_is_written_to_in_clear]).
      The client's end never runs two associations for one socket ([one_association]), a send
      waits for one handshake at most ([send_waits_for_one_handshake]), and nothing goes out
      before it ([silent_until_sent]); after a long silence it recovers
      ([long_silence_recovers]), after a short one it talks into the void
      ([short_silence_wedges]). A link that is rebuilt leaks no socket and keeps its reader
      ([no_socket_is_left], [reader_survives_relink]).
    - Client and coordinator together: both ends hold the same session
      ([client_and_coordinator_agree]); what a client concludes from the answers
      of its coordinators, all of them, and when it takes one for silent
      ([establish_verdict]); that it neither gives up early nor hammers
      ([reconnect_is_paced]).
    - The release channel: whatever fails and wherever the process dies, an installation
      keeps a binary that was installed or that a release key signed
      ([update_keeps_a_good_binary], [Apply_contract]); the probation of a new release
      refines a three-state machine when no call fails ([probation_refines]); an honest release is applied.
    - Chains: hops are distinct and apart as far as the directory allows, and the exit is of
      the country asked for if that is a country code ([buildChain_sound]); every layer
      proved its credential ([chain_credentials]); recovery ends ([recovery_is_bounded]);
      a relay dials no client's target, but the directory's nodes, within its limits, and,
      unchecked, the exit that the coordinator assigned it ([relay_never_egresses],
      [forwardLimits_refine]); the sealed stream delivers what was sent
      ([stream_roundtrip]).
    - Nodes: a node that is built is what its configuration says ([New_sound]), and what it
      registers is what the coordinator keeps of it ([registered_as_declared]); stopping an
      engine ends, and leaves nothing open ([stop_completes],
      [done_leaves_nothing_served]).
    - The reality transport: the ClientHello parser against the grammar of a ClientHello
      ([parseClientHello_exact]); only who holds a session's token and a fresh seal enters it,
      and who does gets in ([attached_is_authenticated], [honest_client_gets_in]); everyone
      else sees the impersonated site or silence, unless the exit is told to close at once
      ([probe_sees_the_site]), within the declared
      limits ([gate_is_accounted]); a captured ClientHello is taken again only if its
      client's clock was ahead ([replay_needs_a_clock_ahead]).
    - Datagrams: a flow carries what its peer sent to its one destination and nothing else,
      both ways ([flow_is_not_misrouted]); both ends count the same
      ([whole_flow_reconciles]); an idle flow ends in time ([idle_flow_ends]).
    - Accounts: an enrollment spends its code once, and leaves the credential it reports in
      its file, whatever fails and wherever the process dies ([enrollment_spends_once]); the
      device key is never replaced ([key_is_never_replaced]), a credential survives restarts.
    - The desktop client: settings that are saved are read back ([settings_are_kept]); the
      directory in use was signed by the invite's key ([used_directory_is_signed]); what a
      connect goes ahead with was checked ([prepare_sound]); one session is open at a time,
      a run of the controller settles, and what is shown is true
      ([one_session_at_a_time], [every_run_settles], [shown_truthfully],
      [disconnect_releases]).
    - The privileged helper: nothing but the session's client opens the filter
      ([filter_never_opens]), nor is anyone else obeyed, though one whose refusal cannot be
      written ends the session ([token_is_required]); DNS is put back ([dns_roundtrip]).
    - The tunnel: whatever fails, the calls that undo included, what stays behind is what
      a call failed to take back, or did and reported as failed ([tunnel_leaves_nothing]);
      every address dialed beside it whose calls succeed keeps its route and its place in
      the filter, in every interleaving ([underlay_is_excluded]); and client and helper
      together, while the helper is timely and its calls succeed, lock the machine down to
      exactly what the client asked for ([linux_lockdown]).
    - The race of dials: one session survives at most, every other is closed
      ([race_outcome]).
    - Assignment: the choice of an exit against its specification, and the country map
      against the choice ([chooseExit_spec], [countrySnapshot_agrees]).
    - Gates: what an accepted credential, device presentation, policy or revocation
      document had to be ([Verify_sound], [device_Verify_sound], [Verify_chain],
      [refresh_enforces], [admitDevice_sound]), that honest ones are accepted
      ([Verify_Issue], [Verify_present]), that signed messages of different kinds never
      coincide, that a challenge answers one request.
    - Rollback: over any sequence of fetches and restarts neither the policy nor the
      revocations go back, as long as the disk works and what is fetched are single JSON
      values (with bytes after one, the floor on the disk is lost); an expired policy closes
      assignment.
    - Measurement: few autonomous systems cannot inform a rating, unvouched reports never
      give a trusted one, estimates stay within their bounds, windows do not depend on map
      order; honest receipt exchanges agree and dishonest ones cannot bind the other side;
      a quota's count survives crashes up to what was not yet on disk, which failing
      checkpoints make more ([quota_survives_crashes]).
    - Cold start: a prober sees a plain STUN responder ([probe_sees_plain_stun]); clients
      accept only what their coordinator signed, and invited clients are served
      ([bootstrap_correct], [directory_served]); invites and messages survive their
      encodings ([invite_roundtrip], [response_roundtrip]).
    - Place: the binary search finds exactly the containing range; under
      [-geoip-required] no self-report decides a country.

    ** Bounds and fuel

    Recursion is structural, over the data, except in these places. The loops of the
    ClientHello parser have the length of what they read as fuel, and each round takes
    at least four bytes ([each_spec]). The binary search of [GeoIP] has the table's
    length as fuel, and [GeoIP.Lookup_spec] shows the result is that of a full scan. The
    address parser of [Net] takes eight rounds, the number of groups of an IPv6 address.
    [TrimSpace] has the string's length as fuel, and each round drops at least a byte.
    The attribute loops of [Stun] have one round more than there are bytes, and each but
    the last consumes four; [parse_attrs_encode] shows every fuel above the length reads
    all attributes. The backoff loops double at most as often as there are failures and
    stop at their cap. A program of [FileSys] is a finite tree, and a run ends with its
    fates; an update operation makes at most 54 calls, which is proved. A stream of
    [ChainDial] rebuilds its chain at most three times, and the reconnect loop of
    [Client] as often as its configuration allows, or for ever as a relation does.
    Integers keep their width where the code can reach it: rates, byte counts and
    durations wrap or saturate as Go's do.

    ** What is not modelled

    Sockets, files and timers appear as inputs, outputs and steps. Log lines are left out,
    and with them the state that only limits them. The texts of formatted refusals are a
    parameter ([text]); error texts of the privileged helper are left out of its replies.
    [math.Pow] and the conversion of out-of-range floats ([FloatPlatform]) are parameters
    because Go leaves them to the implementation. The [displaced] field of a country claim
    feeds a log line only. The messages of [Nft] are those of a little-endian machine. One
    request to the privileged helper is one step; what two requests that are served at the
    same time do between each other's system calls is not modelled. A step of [Engine] or of
    [Controller] is a critical section or a call that opens or closes something; a stream's
    own goroutine is not one, since nothing waits for it. HTTP and TLS of the account
    service are a responder that has seen every request so far. In [Reality] the bounds-checked
    reader, X25519, AES-GCM, TLS and the token bucket are classes with their laws; in
    [Rendezvous] the DTLS handshake and its reads are steps that may come at any time.

    Not modelled: the copying of traffic, the WebRTC transport and the fingerprints,
    when a leg rebuilds its link, the listener, the borrowed certificate and the session
    teardown of the reality transport, the flags and start-up of the programs, the
    desktop client's windows and its refresh of the country list, routes on Windows and
    macOS, and the vendored libraries. They are system calls and calls into libraries that
    are not part of this code; what they are configured with and what they deliver are the
    inputs of the models above. *)

From stdpp Require Export base tactics option list gmap strings pretty numbers fin_maps sorting.
From Stdlib Require Export ZArith Lia.
From Stdlib Require Export Ascii String.

#[global] Open Scope list_scope.

#[export] Set Default Goal Selector "!".
#[global] Open Scope Z_scope.

(** ** The error results of Go: a value or an error, and the early return *)

Inductive result (E A : Type) : Type :=
| Ok (a : A)
| Err (e : E).
Arguments Ok {E A} a.
Arguments Err {E A} e.

Definition rbind {E A B} (r : result E A) (k : A -> result E B) : result E B :=
  match r with Ok a => k a | Err e => Err e end.

Definition map_err {E F A} (f : E -> F) (r : result E A) : result F A :=
  match r with Ok a => Ok a | Err e => Err (f e) end.

Definition of_option {E A} (e : E) (o : option A) : result E A :=
  match o with Some a => Ok a | None => Err e end.

(** [if cond { return err }] *)
Definition fail_if {E} (cond : bool) (e : E) : result E unit :=
  if cond then Err e else Ok tt.

Declare Scope go_scope.
Delimit Scope go_scope with go.
Notation "'let?' x := c 'in' k" := (rbind c (fun x => k))
  (at level 10, x pattern, c at level 100, k at level 200) : go_scope.
Notation "'check!' c ';' k" := (rbind c (fun _ : unit => k))
  (at level 10, c at level 100, k at level 200) : go_scope.
#[global] Open Scope go_scope.

Definition is_ok {E A} (r : result E A) : bool :=
  match r with Ok _ => true | Err _ => false end.

Lemma rbind_Ok_inv {E A B} (r : result E A) (k : A -> result E B) b :
  rbind r k = Ok b -> exists a, r = Ok a /\ k a = Ok b.
Proof. destruct r as [a|e]; simpl; [eauto | discriminate]. Qed.

Lemma rbind_Err_inv {E A B} (r : result E A) (k : A -> result E B) e :
  rbind r k = Err e -> r = Err e \/ exists a, r = Ok a /\ k a = Err e.
Proof. destruct r as [a|e']; simpl; [eauto | intros [= ->]; eauto]. Qed.

Lemma fail_if_Ok_inv {E} (c : bool) (e : E) u : fail_if c e = Ok u -> c = false.
Proof. by destruct c. Qed.

Lemma map_err_Ok_inv {E F A} (f : E -> F) (r : result E A) a :
  map_err f r = Ok a -> r = Ok a.
Proof. destruct r; simpl; congruence. Qed.

Lemma of_option_Ok_inv {E A} (e : E) (o : option A) a :
  of_option e o = Ok a -> o = Some a.
Proof. destruct o; simpl; congruence. Qed.

(** Take a chain of early returns apart, innermost step last. *)
Ltac inv_result :=
  repeat match goal with
  | H : rbind ?r _ = Ok _ |- _ =>
      let a := fresh "a" in let E := fresh "E" in
      apply rbind_Ok_inv in H as (a & E & H)
  | H : fail_if _ _ = Ok _ |- _ => apply fail_if_Ok_inv in H
  | H : map_err _ _ = Ok _ |- _ => apply map_err_Ok_inv in H
  | H : of_option _ _ = Ok _ |- _ => apply of_option_Ok_inv in H
  | H : Ok _ = Ok _ |- _ => injection H as H; try subst
  | H : Err _ = Ok _ |- _ => discriminate H
  | H : Ok _ = Err _ |- _ => discriminate H
  | u : unit |- _ => destruct u
  end.

(** Boolean guards to propositions. *)
Create HintDb bacchus.

Ltac b2p :=
  repeat match goal with
  | H : (_ && _)%bool = true |- _ => apply andb_prop in H as [? ?]
  | H : (_ || _)%bool = false |- _ => apply orb_false_elim in H as [? ?]
  | H : negb _ = true |- _ => apply negb_true_iff in H
  | H : negb _ = false |- _ => apply negb_false_iff in H
  | H : bool_decide _ = true |- _ => apply bool_decide_eq_true_1 in H
  | H : bool_decide _ = false |- _ => apply bool_decide_eq_false_1 in H
  | H : Z.ltb _ _ = true |- _ => apply Z.ltb_lt in H
  | H : Z.ltb _ _ = false |- _ => apply Z.ltb_ge in H
  | H : Z.leb _ _ = true |- _ => apply Z.leb_le in H
  | H : Z.leb _ _ = false |- _ => apply Z.leb_gt in H
  | H : Z.eqb _ _ = true |- _ => apply Z.eqb_eq in H
  | H : Z.eqb _ _ = false |- _ => apply Z.eqb_neq in H
  | H : String.eqb _ _ = true |- _ => apply String.eqb_eq in H
  | H : String.eqb _ _ = false |- _ => apply String.eqb_neq in H
  end.

Lemma existsb_eqb_r r l : existsb (fun x => String.eqb x r) l = true <-> r ∈ l.
Proof.
  rewrite existsb_exists. split.
  - intros (x & Hx & ->%String.eqb_eq). by apply list_elem_of_In.
  - intros Hr. exists r. rewrite String.eqb_refl. by rewrite <-list_elem_of_In.
Qed.
Lemma existsb_eqb_l r l : existsb (String.eqb r) l = true <-> r ∈ l.
Proof.
  rewrite <-existsb_eqb_r. induction l; simpl; [done|]. by rewrite String.eqb_sym, !orb_true_iff, IHl.
Qed.

(** ** Machine integers *)

Definition u64max : Z := 18446744073709551615.
Definition i64max : Z := 9223372036854775807.
Definition i64min : Z := -9223372036854775808.

(** [uint64] arithmetic wraps. *)
Definition wrap64 (z : Z) : Z := z mod 18446744073709551616.
(** [int64]/[int] arithmetic wraps in two's complement. *)
Definition wrapi64 (z : Z) : Z := (z + 9223372036854775808) mod 18446744073709551616 - 9223372036854775808.

Definition in_u64 (z : Z) : Prop := 0 <= z <= u64max.
Definition in_i64 (z : Z) : Prop := i64min <= z <= i64max.

Lemma wrap64_id z : in_u64 z -> wrap64 z = z.
Proof. unfold in_u64, u64max, wrap64. intros. apply Z.mod_small. lia. Qed.
Lemma wrap64_range z : in_u64 (wrap64 z).
Proof.
  unfold in_u64, u64max, wrap64.
  pose proof (Z.mod_pos_bound z 18446744073709551616). lia.
Qed.
Lemma wrapi64_id z : in_i64 z -> wrapi64 z = z.
Proof. unfold in_i64, i64min, i64max, wrapi64. intros. rewrite Z.mod_small; lia. Qed.
#[export] Hint Resolve wrap64_range : bacchus.

(** ** Time: an instant is the nanoseconds since the Unix epoch, a duration an int64 of them *)

Abbreviation Time := Z (only parsing).
Abbreviation Duration := Z (only parsing).

Definition Second : Duration := 1000000000.
Definition Minute : Duration := 60 * Second.
Definition Hour : Duration := 60 * Minute.

(** The zero [time.Time]: January 1, year 1, 00:00:00 UTC. *)
Definition time_zero : Time := -62135596800 * Second.
Definition IsZero (t : Time) : bool := t =? time_zero.
Definition Before (t u : Time) : bool := t <? u.
Definition After (t u : Time) : bool := u <? t.
(** [time.Time.Sub] saturates at the ends of [int64]. *)
Definition time_Sub (t u : Time) : Duration := Z.max i64min (Z.min i64max (t - u)).
Definition time_Add (t : Time) (d : Duration) : Time := t + d.

Lemma time_Sub_gt t u d : in_i64 d -> d <> i64max -> (d <? time_Sub t u) = (d <? t - u).
Proof.
  unfold time_Sub, in_i64, i64min, i64max. intros ? ?.
  apply eq_iff_eq_true. rewrite !Z.ltb_lt. lia.
Qed.

(** ** Bytes: a Go byte is an octet, [ascii]; a [[]byte] a list of them *)

Abbreviation bytes := (list ascii) (only parsing).

Definition bytes_of (s : string) : bytes := String.list_ascii_of_string s.
Definition string_of (b : bytes) : string := String.string_of_list_ascii b.
Definition octet (c : ascii) : Z := Z.of_N (N_of_ascii c).
Definition byte_of (z : Z) : ascii := ascii_of_N (Z.to_N (z mod 256)).

Lemma string_of_bytes_of s : string_of (bytes_of s) = s.
Proof. apply String.string_of_list_ascii_of_string. Qed.
Lemma bytes_of_string_of b : bytes_of (string_of b) = b.
Proof. apply String.list_ascii_of_string_of_list_ascii. Qed.
Lemma bytes_of_inj s t : bytes_of s = bytes_of t -> s = t.
Proof. intros H. by rewrite <-(string_of_bytes_of s), H, string_of_bytes_of. Qed.
Lemma octet_range c : 0 <= octet c < 256.
Proof. unfold octet. pose proof (N_ascii_bounded c). lia. Qed.
Lemma byte_of_octet c : byte_of (octet c) = c.
Proof.
  unfold byte_of. rewrite Z.mod_small by apply octet_range. unfold octet.
  by rewrite N2Z.id, ascii_N_embedding.
Qed.
Lemma octet_byte_of z : octet (byte_of z) = z mod 256.
Proof.
  unfold octet, byte_of. pose proof (Z.mod_pos_bound z 256).
  rewrite N_ascii_embedding by lia. lia.
Qed.
Lemma octet_inj c d : octet c = octet d -> c = d.
Proof. intros H. by rewrite <-(byte_of_octet c), H, byte_of_octet. Qed.

Lemma bytes_of_app s t : bytes_of (s +:+ t) = bytes_of s ++ bytes_of t.
Proof. induction s as [|c s IH]; simpl; [done|]. by f_equal. Qed.
Lemma length_bytes_of s : List.length (bytes_of s) = String.length s.
Proof. induction s; simpl; lia. Qed.

(** ** Big-endian integers ([encoding/binary]) *)

Fixpoint be_bytes (n : nat) (z : Z) : bytes :=
  match n with
  | O => []
  | S n' => byte_of (z / 256 ^ Z.of_nat n') :: be_bytes n' z
  end.
Definition AppendUint32 (b : bytes) (z : Z) : bytes := b ++ be_bytes 4 z.
Definition AppendUint64 (b : bytes) (z : Z) : bytes := b ++ be_bytes 8 z.

Fixpoint be_value (b : bytes) : Z :=
  match b with
  | [] => 0
  | c :: b' => octet c * 256 ^ Z.of_nat (List.length b') + be_value b'
  end.

Lemma be_bytes_length n z : List.length (be_bytes n z) = n.
Proof. induction n; simpl; congruence. Qed.

Lemma be_value_bytes n z : be_value (be_bytes n z) = z mod 256 ^ Z.of_nat n.
Proof.
  induction n as [|n IH]; [simpl; by rewrite Z.mod_1_r|].
  cbn [be_bytes be_value]. rewrite be_bytes_length, IH, octet_byte_of.
  rewrite Nat2Z.inj_succ, Z.pow_succ_r by lia.
  rewrite (Z.mul_comm 256), Z.rem_mul_r by lia. lia.
Qed.

Lemma be_bytes_inj n x y :
  0 <= x < 256 ^ Z.of_nat n -> 0 <= y < 256 ^ Z.of_nat n ->
  be_bytes n x = be_bytes n y -> x = y.
Proof.
  intros Hx Hy H. apply (f_equal be_value) in H.
  rewrite !be_value_bytes, !Z.mod_small in H; lia.
Qed.

Lemma be_bytes_value b : be_bytes (List.length b) (be_value b) = b.
Proof.
  assert (forall n z k, be_bytes n (z + k * 256 ^ Z.of_nat n) = be_bytes n z) as Hshift.
  { induction n as [|n IH]; intros z k; cbn [be_bytes]; [done|]. rewrite Nat2Z.inj_succ, Z.pow_succ_r by lia.
    assert (0 < 256 ^ Z.of_nat n) by (apply Z.pow_pos_nonneg; lia). f_equal.
    - replace (z + k * (256 * 256 ^ Z.of_nat n)) with (z + (k * 256) * 256 ^ Z.of_nat n) by ring.
      rewrite Z.div_add by lia. unfold byte_of. by rewrite Z.mod_add by lia.
    - replace (z + k * (256 * 256 ^ Z.of_nat n)) with (z + (k * 256) * 256 ^ Z.of_nat n) by ring. apply IH. }
  induction b as [|c b IH]; [done|]. cbn [List.length be_bytes be_value].
  assert (0 < 256 ^ Z.of_nat (List.length b)) by (apply Z.pow_pos_nonneg; lia).
  assert (0 <= be_value b < 256 ^ Z.of_nat (List.length b)) as Hr.
  { pose proof (be_value_bytes (List.length b) (be_value b)) as Hv. rewrite IH in Hv. rewrite Hv. by apply Z.mod_pos_bound. }
  f_equal; [|rewrite Z.add_comm, Hshift; exact IH].
  rewrite Z.add_comm, Z.div_add by lia. rewrite Z.div_small by lia. apply byte_of_octet.
Qed.

Lemma be_value_range b : 0 <= be_value b < 256 ^ Z.of_nat (List.length b).
Proof.
  pose proof (be_value_bytes (List.length b) (be_value b)) as Hv. rewrite be_bytes_value in Hv. rewrite Hv.
  apply Z.mod_pos_bound, Z.pow_pos_nonneg; lia.
Qed.

(** Two concatenations with equally long heads agree on both parts. *)
Lemma app_inj_len {A} (a b c d : list A) :
  List.length a = List.length c -> a ++ b = c ++ d -> a = c /\ b = d.
Proof. intros Hl H. by apply app_inj_1. Qed.

Lemma be_bytes_app_inj n x y a b :
  0 <= x < 256 ^ Z.of_nat n -> 0 <= y < 256 ^ Z.of_nat n ->
  be_bytes n x ++ a = be_bytes n y ++ b -> x = y /\ a = b.
Proof.
  intros Hx Hy Heq. apply app_inj_len in Heq as [Hb ->]; [|by rewrite !be_bytes_length].
  split; [by eapply be_bytes_inj|done].
Qed.

(** ** [sort.Strings]: byte-lexicographic order *)

Definition string_le (s t : string) : Prop := String.leb s t = true.
#[export] Instance string_le_dec : RelDecision string_le.
Proof. intros s t. unfold string_le. solve_decision. Defined.
Definition sort_Strings (l : list string) : list string := merge_sort string_le l.

Lemma string_leb_spec a s b t :
  String.leb (String a s) (String b t) =
    (octet a <? octet b) || ((octet a =? octet b) && String.leb s t).
Proof.
  unfold String.leb. simpl. unfold Ascii.compare, octet.
  destruct (N.compare_spec (N_of_ascii a) (N_of_ascii b)).
  - rewrite H, Z.ltb_irrefl, Z.eqb_refl. done.
  - symmetry. apply orb_true_intro. left. apply Z.ltb_lt. lia.
  - symmetry. apply orb_false_intro; [apply Z.ltb_ge; lia|].
    apply andb_false_intro1, Z.eqb_neq. lia.
Qed.

#[export] Instance string_le_trans : Transitive string_le.
Proof.
  unfold string_le. intros s t u. revert t u.
  induction s as [|a s IH]; intros [|b t] [|c u]; try done.
  rewrite !string_leb_spec. intros H1 H2.
  apply orb_true_iff in H1, H2. apply orb_true_iff.
  rewrite !andb_true_iff, !Z.ltb_lt, !Z.eqb_eq in *.
  destruct H1 as [?|[??]], H2 as [?|[??]]; try (left; lia).
  right. split; [lia|eauto].
Qed.
#[export] Instance string_le_total : Total string_le.
Proof.
  intros s t. unfold string_le. destruct (String.leb_total s t); auto.
Qed.

Lemma sort_Strings_perm l : sort_Strings l ≡ₚ l.
Proof. apply merge_sort_Permutation. Qed.
Lemma sort_Strings_sorted l : StronglySorted string_le (sort_Strings l).
Proof. apply StronglySorted_merge_sort; apply _. Qed.

(** ** Maps filtered and deleted from *)

Lemma map_Forall_filtered {A} (P : string -> A -> Prop) (Q : string * A -> Prop) `{!forall x, Decision (Q x)}
    (m : gmap string A) :
  map_Forall P m -> map_Forall P (filter Q m).
Proof. intros Hm k x [Hk _]%map_lookup_filter_Some. by apply Hm. Qed.

Lemma deletes_lookup {A} (dead : list (string * A)) (m : gmap string A) sid x :
  foldl (fun m kv => delete kv.1 m) m dead !! sid = Some x <-> m !! sid = Some x /\ sid ∉ dead.*1.
Proof.
  revert m. induction dead as [|[k y] dead IH]; intros m; simpl.
  - split; [intros ?; split; [done|apply not_elem_of_nil]|naive_solver].
  - rewrite IH, lookup_delete_Some, not_elem_of_cons. naive_solver.
Qed.

Lemma NoDup_fmap_fst_filter {A} (P : string * A -> Prop) `{!forall x, Decision (P x)} (f : string * A -> string) l :
  (forall x, f x = x.1) -> NoDup l.*1 -> NoDup (f <$> filter P l).
Proof.
  intros Hf Hl. rewrite (list_fmap_ext f fst) by (intros; apply Hf).
  eapply sublist_NoDup; [exact Hl|]. apply fmap_sublist, sublist_filter.
Qed.

Create HintDb coord.
