(* ===== verification/GoStrings.v ===== *)
(** * The parts of Go's [strings] and [strconv] packages that the modelled sources call

    [strings.Split], [strings.Cut], [strings.HasPrefix], [strings.TrimSpace]
    (with the Unicode white space it knows), [strings.ToUpper] as far as
    [geoip.Canonical] can observe it, [strconv.Atoi], [strconv.ParseUint] and
    decimal printing. *)

From S2P Require Import Prelude.

(** ** [strings] *)

(** [strings.Split(s, sep)] for a one-byte separator. *)
Fixpoint Split (sep : ascii) (s : string) : list string :=
  match s with
  | "" => [""]
  | String c s' =>
      if Ascii.eqb c sep then "" :: Split sep s'
      else match Split sep s' with
           | [] => [String c ""]
           | h :: t => String c h :: t
           end
  end.

(** [strings.Cut(s, sep)] for a one-byte separator. *)
Fixpoint Cut (sep : ascii) (s : string) : option (string * string) :=
  match s with
  | "" => None
  | String c s' =>
      if Ascii.eqb c sep then Some ("", s')
      else match Cut sep s' with
           | None => None
           | Some (a, b) => Some (String c a, b)
           end
  end.

(** [strings.HasPrefix(s, p)] together with the slice [s[len(p):]]. *)
Fixpoint strip_prefix (p s : string) : option string :=
  match p, s with
  | "", _ => Some s
  | String a p', String b s' => if Ascii.eqb a b then strip_prefix p' s' else None
  | _, _ => None
  end.

(** The UTF-8 encodings of the white space of [unicode.IsSpace]. *)
Definition is_ascii_space (c : ascii) : bool :=
  let z := octet c in ((9 <=? z) && (z <=? 13)) || (z =? 32).

Definition utf8_spaces : list bytes :=
  List.map (List.map byte_of)
    ([ [194; 133]; [194; 160]; [225; 154; 128];
       [226; 128; 168]; [226; 128; 169]; [226; 128; 175];
       [226; 129; 159]; [227; 128; 128] ]
     ++ List.map (fun k => [226; 128; 128 + Z.of_nat k]) (seq 0 11)).

Fixpoint strip_list (p b : bytes) : option bytes :=
  match p, b with
  | [], _ => Some b
  | x :: p', y :: b' => if Ascii.eqb x y then strip_list p' b' else None
  | _, _ => None
  end.

(** Drop one space rune from the front; [seqs] are the non-ASCII encodings. *)
Definition strip_space (seqs : list bytes) (b : bytes) : option bytes :=
  match b with
  | [] => None
  | c :: b' =>
      if is_ascii_space c then Some b'
      else if octet c <? 128 then None
      else head (omap (fun p => strip_list p b) seqs)
  end.

Fixpoint trim_front (fuel : nat) (seqs : list bytes) (b : bytes) : bytes :=
  match fuel with
  | O => b
  | S n => match strip_space seqs b with
           | Some b' => trim_front n seqs b'
           | None => b
           end
  end.

(** [strings.TrimSpace]. From the right the encodings are read backwards. A
    space rune takes at least one byte, so the length is fuel enough. *)
Definition TrimSpace (s : string) : string :=
  let b := bytes_of s in
  let l := trim_front (List.length b) utf8_spaces b in
  let r := trim_front (List.length l) (List.map (@rev ascii) utf8_spaces) (rev l) in
  string_of (rev r).

(** [strings.Fields]: the maximal runs of bytes with no white space in them. A field
    that is being read is [cur], backwards; a round takes at least one byte. *)
Fixpoint fields_from (fuel : nat) (b cur : bytes) : list string :=
  let flush (l : list string) := match cur with [] => l | _ => string_of (rev cur) :: l end in
  match fuel, b with
  | O, _ | _, [] => flush []
  | S n, c :: b' => match strip_space utf8_spaces b with
                    | Some r => flush (fields_from n r [])
                    | None => fields_from n b' (c :: cur)
                    end
  end.
Definition Fields (s : string) : list string := fields_from (String.length s) (bytes_of s) [].

(** [bufio.ScanLines]: the lines without their line feed and without one carriage
    return before it; an empty rest after the last line feed is no line. *)
Definition MaxScanTokenSize : Z := 64 * 1024.
Definition dropCR (s : string) : string :=
  match rev (bytes_of s) with
  | "013"%char :: r => string_of (rev r)
  | _ => s
  end.
Definition raw_lines (s : string) : list string :=
  let l := Split "010" s in
  match rev l with
  | "" :: r => rev r
  | _ => l
  end.

(** [strings.ToUpper], up to the identity of non-ASCII runes: ASCII letters
    are raised, the two runes whose upper case is an ASCII letter (U+0131,
    U+017F) become it, and every other non-ASCII rune, whose upper case is
    non-ASCII, keeps its bytes. *)
Definition upper_byte (c : ascii) : ascii :=
  let z := octet c in if (97 <=? z) && (z <=? 122) then byte_of (z - 32) else c.

Fixpoint ToUpper (s : string) : string :=
  match s with
  | "" => ""
  | String a s' =>
      match s' with
      | "" => String (upper_byte a) ""
      | String b s'' =>
          if (octet a =? 196) && (octet b =? 177) then String "I" (ToUpper s'')
          else if (octet a =? 197) && (octet b =? 191) then String "S" (ToUpper s'')
          else String (upper_byte a) (ToUpper s')
      end
  end.

(** ** [strconv] *)

Definition digit (c : ascii) : option Z :=
  let z := octet c - 48 in if (0 <=? z) && (z <=? 9) then Some z else None.

(** The value of a digit string read from the left, starting from [acc]. *)
Fixpoint digits_from (acc : Z) (s : string) : option Z :=
  match s with
  | "" => Some acc
  | String c s' => match digit c with
                   | Some d => digits_from (10 * acc + d) s'
                   | None => None
                   end
  end.

Definition parse_digits (s : string) : option Z :=
  match s with "" => None | _ => digits_from 0 s end.

(** [strconv.Atoi]: an optional sign, at least one digit, a 64-bit result. *)
Definition Atoi (s : string) : option Z :=
  let in_range (z : Z) := if (i64min <=? z) && (z <=? i64max) then Some z else None in
  match s with
  | String "-" s' => match parse_digits s' with Some n => in_range (- n) | None => None end
  | String "+" s' => match parse_digits s' with Some n => in_range n | None => None end
  | _ => match parse_digits s with Some n => in_range n | None => None end
  end.

(** [strconv.ParseUint(s, 10, bits)]. *)
Definition ParseUint (bits : Z) (s : string) : option Z :=
  match parse_digits s with
  | Some n => if n <? 2 ^ bits then Some n else None
  | None => None
  end.

(** [%d] of a non-negative integer. *)
Definition Itoa (z : Z) : string := pretty (Z.to_N z).

(** ** Facts *)

Lemma digit_range c d : digit c = Some d -> 0 <= d <= 9.
Proof. unfold digit. case_match; intros [= <-]; b2p; lia. Qed.

Lemma digits_from_nonneg s acc n : 0 <= acc -> digits_from acc s = Some n -> 0 <= n.
Proof.
  revert acc. induction s as [|c s IH]; simpl; intros acc Ha H; [congruence|].
  destruct (digit c) as [d|] eqn:Hd; [|done].
  eapply IH; [|exact H]. apply digit_range in Hd. lia.
Qed.

Lemma digit_pretty x : (x < 10)%N -> digit (pretty_N_char x) = Some (Z.of_N x).
Proof.
  intros. assert (x = 0 \/ x = 1 \/ x = 2 \/ x = 3 \/ x = 4 \/ x = 5 \/ x = 6
    \/ x = 7 \/ x = 8 \/ x = 9)%N as Hx by lia.
  by repeat (destruct Hx as [-> | Hx]; [reflexivity|]); subst.
Qed.

Lemma digits_from_pretty x s :
  exists k, 0 < k /\ forall a,
    digits_from a (pretty_N_go x s) = digits_from (a * k + Z.of_N x) s.
Proof.
  revert s. induction (N.lt_wf_0 x) as [x _ IH]; intros s.
  destruct (decide (x = 0)%N) as [->|Hx].
  - exists 1. split; [lia|]. intros a. rewrite pretty_N_go_0. f_equal. lia.
  - rewrite pretty_N_go_step by lia.
    destruct (IH (x `div` 10)%N) with (s := String (pretty_N_char (x `mod` 10)) s)
      as (k & Hk & H).
    { apply N.div_lt; lia. }
    exists (10 * k). split; [lia|]. intros a. rewrite H. simpl.
    rewrite digit_pretty by (apply N.mod_lt; lia). f_equal.
    pose proof (N.div_mod x 10). lia.
Qed.

Lemma parse_digits_Itoa z : 0 <= z -> parse_digits (Itoa z) = Some z.
Proof.
  intros Hz. unfold Itoa, pretty, pretty_N. case_decide as H0.
  { assert (z = 0) as -> by lia. reflexivity. }
  destruct (digits_from_pretty (Z.to_N z) "") as (k & Hk & H).
  specialize (H 0). simpl in H. rewrite Z2N.id in H by lia.
  unfold parse_digits. destruct (pretty_N_go (Z.to_N z) ""); [|done].
  simpl in H. injection H as H. lia.
Qed.

Lemma digits_from_first acc c s n :
  digits_from acc (String c s) = Some n -> exists d, digit c = Some d.
Proof. simpl. case_match; eauto; discriminate. Qed.

Lemma Atoi_Itoa z : 0 <= z <= i64max -> Atoi (Itoa z) = Some z.
Proof.
  intros [Hz Hm]. pose proof (parse_digits_Itoa z Hz) as H.
  assert (Hr : ((i64min <=? z) && (z <=? i64max))%bool = true).
  { unfold i64min. apply andb_true_iff; split; apply Z.leb_le; lia. }
  destruct (Itoa z) as [|c s] eqn:Hs; [discriminate H|].
  assert (exists d, digit c = Some d) as [d Hd].
  { unfold parse_digits in H. by eapply digits_from_first. }
  unfold Atoi. rewrite H, Hr.
  repeat (first [ reflexivity | discriminate Hd | case_match; simplify_eq ]).
Qed.

Lemma Atoi_range s z : Atoi s = Some z -> in_i64 z.
Proof. unfold Atoi, in_i64. intros. repeat case_match; simplify_eq; b2p; lia. Qed.

(** Splitting printed numbers at a separator they do not contain. *)
Fixpoint free_of (sep : ascii) (s : string) : bool :=
  match s with
  | "" => true
  | String c s' => negb (Ascii.eqb c sep) && free_of sep s'
  end.

Lemma Split_free sep s : free_of sep s = true -> Split sep s = [s].
Proof.
  induction s as [|c s IH]; simpl; [done|]. intros H. b2p.
  rewrite H, IH; done.
Qed.

Lemma Split_cons_free sep s t :
  free_of sep s = true -> Split sep (s +:+ String sep t) = s :: Split sep t.
Proof.
  induction s as [|c s IH]; simpl; intros H.
  - by rewrite Ascii.eqb_refl.
  - b2p. rewrite H, IH; done.
Qed.

Lemma free_of_pretty sep x s :
  digit sep = None -> free_of sep s = true -> free_of sep (pretty_N_go x s) = true.
Proof.
  intros Hsep. revert s. induction (N.lt_wf_0 x) as [x _ IH]; intros s Hs.
  destruct (decide (x = 0)%N) as [->|Hx]; [by rewrite pretty_N_go_0|].
  rewrite pretty_N_go_step by lia. apply IH; [apply N.div_lt; lia|].
  simpl. rewrite Hs, andb_true_r. apply negb_true_iff, Ascii.eqb_neq.
  intros <-. rewrite digit_pretty in Hsep by (apply N.mod_lt; lia). done.
Qed.

Lemma free_of_Itoa sep z : digit sep = None -> free_of sep (Itoa z) = true.
Proof.
  intros Hsep. unfold Itoa, pretty, pretty_N. case_decide.
  - cbn [free_of]. rewrite andb_true_r. apply negb_true_iff, Ascii.eqb_neq.
    intros <-. done.
  - by apply free_of_pretty.
Qed.

Lemma strip_prefix_app p s : strip_prefix p (p +:+ s) = Some s.
Proof. induction p as [|c p IH]; simpl; [done|]. by rewrite Ascii.eqb_refl. Qed.

Lemma strip_prefix_inv p s t : strip_prefix p s = Some t -> s = p +:+ t.
Proof.
  revert s. induction p as [|c p IH]; intros s.
  { by intros [= ->]. }
  destruct s as [|d s]; simpl; [done|]. destruct (Ascii.eqb_spec c d) as [->|]; [|done].
  intros ->%IH. done.
Qed.

(** [TrimSpace] keeps a string of ASCII characters none of which is a space. *)
Definition visible (c : ascii) : bool := (octet c <? 128) && negb (is_ascii_space c).

Lemma trim_front_visible n seqs b :
  forallb visible b = true -> trim_front n seqs b = b.
Proof.
  intros H. destruct n as [|n]; [done|]. simpl.
  destruct b as [|c b]; [done|]. simpl in *. unfold visible in H. b2p.

  unfold strip_space.
  destruct (is_ascii_space c); [done|].
  destruct (octet c <? 128) eqn:?; [done|]. b2p. lia.
Qed.

Lemma TrimSpace_visible s :
  forallb visible (bytes_of s) = true -> TrimSpace s = s.
Proof.
  intros H. unfold TrimSpace. rewrite (trim_front_visible _ _ _ H).
  rewrite trim_front_visible.
  - by rewrite rev_involutive, string_of_bytes_of.
  - rewrite forallb_forall in *. intros x Hx. apply H. by apply in_rev.
Qed.

(** ** Digits only: [strconv.ParseUint] at 31 bits agrees with [strconv.Atoi] *)

Definition digit_byte (c : ascii) : bool := (48 <=? octet c) && (octet c <=? 57).

Lemma digit_byte_digit c : digit_byte c = true -> exists d, digit c = Some d.
Proof.
  unfold digit_byte, digit. intros Hd. b2p.
  rewrite (proj2 (Z.leb_le _ _)), (proj2 (Z.leb_le _ _)) by lia. eauto.
Qed.

Lemma ParseUint31_Atoi p n :
  forallb digit_byte (bytes_of p) = true -> ParseUint 31 p = Some n -> Atoi p = Some n /\ 0 <= n < 2 ^ 31.
Proof.
  unfold ParseUint. intros Hd Hp.
  destruct (parse_digits p) as [m|] eqn:Hm; [|done].
  destruct (Z.ltb_spec m (2 ^ 31)); [|done]. injection Hp as <-.
  destruct p as [|c p]; [done|].
  assert (0 <= m). { eapply digits_from_nonneg; [|exact Hm]. lia. }
  split; [|done]. simpl in Hd. apply andb_prop in Hd as [Hc _]. apply digit_byte_digit in Hc as [d Hd].
  assert (((i64min <=? m) && (m <=? i64max))%bool = true) as Hr.
  { unfold i64min, i64max. apply andb_true_iff; split; apply Z.leb_le; lia. }
  unfold Atoi. rewrite Hm, Hr.
  repeat (first [ reflexivity | discriminate Hd | case_match; simplify_eq ]).
Qed.
