(* ===== verification/Version.v ===== *)
(** * Release versions: [core/version/version.go]

    The product release a node or client reports, its parser and printer, the
    ordering, and the two policy predicates built on it: the node fence and
    the client's forced update. *)

From S2P Require Import Prelude GoStrings.

Record Version := MkVersion { Major : Z; Minor : Z; Patch : Z }.

#[export] Instance Version_eq_dec : EqDecision Version.
Proof. solve_decision. Defined.

Definition zero_version : Version := MkVersion 0 0 0.

Inductive ParseError :=
| NotTriple (s : string)
| InvalidComponent (s part : string).

(** One component of [Parse]'s loop: [strconv.Atoi] and the sign check. *)
Definition parse_component (s part : string) : result ParseError Z :=
  match Atoi part with
  | Some n => if n <? 0 then Err (InvalidComponent s part) else Ok n
  | None => Err (InvalidComponent s part)
  end.

Definition Parse (s : string) : result ParseError Version :=
  match Split "." s with
  | [p0; p1; p2] =>
      let? a := parse_component s p0 in
      let? b := parse_component s p1 in
      let? c := parse_component s p2 in
      Ok (MkVersion a b c)
  | _ => Err (NotTriple s)
  end.

Definition Version_String (v : Version) : string :=
  Itoa (Major v) +:+ "." +:+ Itoa (Minor v) +:+ "." +:+ Itoa (Patch v).

(** The loop over the three component differences, each an [int] subtraction. *)
Fixpoint compare_diffs (ds : list Z) : Z :=
  match ds with
  | [] => 0
  | d :: ds' => if d <? 0 then -1 else if 0 <? d then 1 else compare_diffs ds'
  end.

Definition Compare (v o : Version) : Z :=
  compare_diffs
    [wrapi64 (Major v - Major o); wrapi64 (Minor v - Minor o); wrapi64 (Patch v - Patch o)].

Definition ServingAllowed (node floor : Version) : bool := 0 <=? Compare node floor.

Definition ClientMustUpdate (client network : Version) : bool := Major client <? Major network.

(** The link-time stamp: empty in an unstamped build. [Current] returns the
    zero version for an unstamped build and panics (here [Err]) on a malformed
    stamp. *)
Definition Stamped (current : string) : bool := negb (String.eqb current "").

Definition Current (current : string) : result ParseError Version :=
  if negb (Stamped current) then Ok zero_version else Parse current.

(** ** Well-formed versions: what [Parse] produces *)

Definition wf (v : Version) : Prop :=
  0 <= Major v <= i64max /\ 0 <= Minor v <= i64max /\ 0 <= Patch v <= i64max.

Lemma parse_component_Ok s part n :
  parse_component s part = Ok n -> 0 <= n <= i64max.
Proof.
  unfold parse_component. destruct (Atoi part) as [m|] eqn:H; [|done].
  apply Atoi_range in H. unfold in_i64 in H. case_match; intros [= <-]; b2p; lia.
Qed.

(** A component of digits only that fits 31 bits. *)
Lemma parse_component_digits s p n :
  forallb digit_byte (bytes_of p) = true -> ParseUint 31 p = Some n ->
  parse_component s p = Ok n /\ 0 <= n < 2 ^ 31.
Proof.
  intros Hd Hn. apply ParseUint31_Atoi in Hn as [Ha Hn]; [|done]. split; [|done].
  unfold parse_component. rewrite Ha. by rewrite (proj2 (Z.ltb_ge n 0)) by lia.
Qed.

Lemma Parse_wf s v : Parse s = Ok v -> wf v.
Proof.
  unfold Parse. intros H. repeat case_match; try discriminate. inv_result.
  split; [|split]; eapply parse_component_Ok; eassumption.
Qed.

Lemma parse_component_Itoa s z : 0 <= z <= i64max -> parse_component s (Itoa z) = Ok z.
Proof.
  intros Hz. unfold parse_component. rewrite Atoi_Itoa by done.
  case_match; b2p; [lia|done].
Qed.

Lemma String_Split v : Split "." (Version_String v) = [Itoa (Major v); Itoa (Minor v); Itoa (Patch v)].
Proof.
  unfold Version_String. repeat change ("." +:+ ?s) with (String.String "." s).
  rewrite !Split_cons_free by by apply free_of_Itoa.
  by rewrite Split_free by by apply free_of_Itoa.
Qed.

(** Printing a well-formed version and parsing it back gives the version. *)
Theorem Parse_String_roundtrip v : wf v -> Parse (Version_String v) = Ok v.
Proof.
  intros (H1 & H2 & H3). unfold Parse. rewrite String_Split.
  rewrite !parse_component_Itoa by done. by destruct v.
Qed.

Lemma Parse_String_roundtrip_witness :
  Parse (Version_String (MkVersion 1 20 300)) = Ok (MkVersion 1 20 300).
Proof. apply Parse_String_roundtrip. unfold wf, i64max; simpl; lia. Defined.

(** ** The ordering *)

Definition lex_lt (v o : Version) : Prop :=
  Major v < Major o \/
  (Major v = Major o /\ (Minor v < Minor o \/ (Minor v = Minor o /\ Patch v < Patch o))).

Lemma wrapi64_diff a b : 0 <= a <= i64max -> 0 <= b <= i64max -> wrapi64 (a - b) = a - b.
Proof. unfold i64max. intros. apply wrapi64_id. unfold in_i64, i64min, i64max. lia. Qed.

Lemma Compare_spec v o : wf v -> wf o ->
  (Compare v o = -1 /\ lex_lt v o) \/ (Compare v o = 0 /\ v = o) \/ (Compare v o = 1 /\ lex_lt o v).
Proof.
  intros (?&?&?) (?&?&?). unfold Compare. rewrite !wrapi64_diff by done.
  destruct v as [a b c], o as [a' b' c']; unfold lex_lt; simpl in *.
  repeat case_match; b2p; try lia.
  right; left. split; [done|]. f_equal; lia.
Qed.

(** On parsed versions the fence is exactly the lexicographic order: a node
    serves iff it is not strictly older than the floor, so a node at the floor
    serves, and lowering the floor never fences a node that served. *)
Theorem ServingAllowed_iff node floor :
  wf node -> wf floor -> (ServingAllowed node floor = true <-> ~ lex_lt node floor).
Proof.
  intros Hn Hf. unfold ServingAllowed. rewrite Z.leb_le.
  destruct (Compare_spec _ _ Hn Hf) as [[-> H]|[[-> ->]|[-> H]]];
    unfold lex_lt in *; split; intros; try lia; naive_solver lia.
Qed.

Lemma ServingAllowed_iff_witness :
  ServingAllowed (MkVersion 0 2 0) (MkVersion 0 1 9) = true <->
  ~ lex_lt (MkVersion 0 2 0) (MkVersion 0 1 9).
Proof. apply ServingAllowed_iff; unfold wf, i64max; simpl; lia. Defined.

(** [Parse] is laxer than the canonical form its comment names: a sign and
    leading zeros are accepted by [strconv.Atoi]. *)
Example Parse_accepts_sign : Parse "+1.02.-0" = Ok (MkVersion 1 2 0).
Proof. reflexivity. Qed.
