(* ===== verification/Base64.v ===== *)
(** * [encoding/base64] and [encoding/hex]: the encodings of the wire envelopes

    [RawURLEncoding] carries every signed object's text form, [StdEncoding]
    the device challenge and assertion, [hex] the serials and attester keys.
    Decoding is Go's: carriage returns and newlines are skipped anywhere, and
    trailing bits of a partial quantum are not required to be zero. *)

From S2P Require Import Prelude GoStrings.

Inductive encoding := RawURLEncoding | StdEncoding.

#[export] Instance encoding_eq_dec : EqDecision encoding.
Proof. solve_decision. Defined.

Definition sextet_char (enc : encoding) (v : Z) : ascii :=
  if v <? 26 then byte_of (65 + v)
  else if v <? 52 then byte_of (97 + (v - 26))
  else if v <? 62 then byte_of (48 + (v - 52))
  else match enc with
       | RawURLEncoding => if v =? 62 then "-"%char else "_"%char
       | StdEncoding => if v =? 62 then "+"%char else "/"%char
       end.

Definition char_sextet (enc : encoding) (c : ascii) : option Z :=
  let z := octet c in
  if (65 <=? z) && (z <=? 90) then Some (z - 65)
  else if (97 <=? z) && (z <=? 122) then Some (z - 97 + 26)
  else if (48 <=? z) && (z <=? 57) then Some (z - 48 + 52)
  else match enc with
       | RawURLEncoding => if z =? 45 then Some 62 else if z =? 95 then Some 63 else None
       | StdEncoding => if z =? 43 then Some 62 else if z =? 47 then Some 63 else None
       end.

Section Encode.
Context (enc : encoding).
Local Abbreviation ch := (sextet_char enc).

(** The padding of a final partial quantum: none in the raw encoding. *)
Definition pad (n : nat) : bytes :=
  match enc with RawURLEncoding => [] | StdEncoding => repeat "="%char n end.

Fixpoint EncodeToBytes (b : bytes) : bytes :=
  match b with
  | [] => []
  | [x] => let n := octet x * 65536 in
           [ch (n / 262144); ch (n / 4096 mod 64)] ++ pad 2
  | [x; y] => let n := octet x * 65536 + octet y * 256 in
              [ch (n / 262144); ch (n / 4096 mod 64); ch (n / 64 mod 64)] ++ pad 1
  | x :: y :: z :: b' =>
      let n := octet x * 65536 + octet y * 256 + octet z in
      ch (n / 262144) :: ch (n / 4096 mod 64) :: ch (n / 64 mod 64) :: ch (n mod 64)
      :: EncodeToBytes b'
  end.

Definition EncodeToString (b : bytes) : string := string_of (EncodeToBytes b).

Definition one_byte (a b : Z) : bytes := [byte_of ((a * 64 + b) / 16)].
Definition two_bytes (a b c : Z) : bytes :=
  let n := (a * 64 + b) * 64 + c in [byte_of (n / 1024); byte_of (n / 4)].
Definition three_bytes (a b c d : Z) : bytes :=
  let n := ((a * 64 + b) * 64 + c) * 64 + d in
  [byte_of (n / 65536); byte_of (n / 256); byte_of n].

(** Four characters at a time; a last quantum may be partial in the raw
    encoding and must be padded in the standard one. *)
Fixpoint decode_quanta (l : bytes) : option bytes :=
  match l with
  | [] => Some []
  | [_] => None
  | [a; b] =>
      match enc with
      | RawURLEncoding => a ← char_sextet enc a; b ← char_sextet enc b; Some (one_byte a b)
      | StdEncoding => None
      end
  | [a; b; c] =>
      match enc with
      | RawURLEncoding =>
          a ← char_sextet enc a; b ← char_sextet enc b; c ← char_sextet enc c;
          Some (two_bytes a b c)
      | StdEncoding => None
      end
  | a :: b :: c :: d :: l' =>
      a ← char_sextet enc a; b ← char_sextet enc b;
      if bool_decide (enc = StdEncoding /\ c = "="%char) then
        if bool_decide (d = "="%char /\ l' = []) then Some (one_byte a b) else None
      else
        c ← char_sextet enc c;
        if bool_decide (enc = StdEncoding /\ d = "="%char) then
          if bool_decide (l' = []) then Some (two_bytes a b c) else None
        else
          d ← char_sextet enc d; rest ← decode_quanta l';
          Some (three_bytes a b c d ++ rest)
  end.

Definition is_newline (c : ascii) : bool := (octet c =? 10) || (octet c =? 13).

Definition DecodeString (s : string) : option bytes :=
  decode_quanta (List.filter (fun c => negb (is_newline c)) (bytes_of s)).
End Encode.

(** ** Round trip *)

Lemma forall_below (n : nat) (P : Z -> bool) :
  forallb (fun k => P (Z.of_nat k)) (seq 0 n) = true ->
  forall v, 0 <= v < Z.of_nat n -> P v = true.
Proof.
  intros H v Hv. rewrite forallb_forall in H.
  specialize (H (Z.to_nat v)). rewrite Z2Nat.id in H by lia.
  apply H. apply in_seq. lia.
Qed.

Lemma char_sextet_char enc v : 0 <= v < 64 -> char_sextet enc (sextet_char enc v) = Some v.
Proof.
  intros Hv.
  apply (bool_decide_eq_true_1 (char_sextet enc (sextet_char enc v) = Some v)).
  revert v Hv. apply (forall_below 64). by destruct enc.
Qed.

(** No character of the alphabet is a newline, a padding mark or a space. *)
Definition alphabet_char (c : ascii) : bool :=
  (octet c <? 128) && negb (octet c =? 61) && (33 <=? octet c).

Lemma sextet_char_alphabet enc v : 0 <= v < 64 -> alphabet_char (sextet_char enc v) = true.
Proof. revert v. apply (forall_below 64). by destruct enc. Qed.

Lemma sextet_char_not_pad enc v : 0 <= v < 64 -> sextet_char enc v <> "="%char.
Proof.
  intros Hv Heq. pose proof (sextet_char_alphabet enc v Hv) as H.
  rewrite Heq in H. discriminate H.
Qed.

(** Induction over a list three elements at a time. *)
Lemma list_ind3 {A} (P : list A -> Prop) :
  P [] -> (forall x, P [x]) -> (forall x y, P [x; y]) ->
  (forall x y z l, P l -> P (x :: y :: z :: l)) -> forall l, P l.
Proof.
  intros H0 H1 H2 H3. fix IH 1. intros [|x [|y [|z l]]]; [exact H0|apply H1|apply H2|].
  apply H3, IH.
Qed.

Lemma byte_of_eq z c : z mod 256 = octet c -> byte_of z = c.
Proof. intros H. apply octet_inj. by rewrite octet_byte_of. Qed.

Lemma decode_encode_quanta enc b : decode_quanta enc (EncodeToBytes enc b) = Some b.
Proof.
  induction b as [|x|x y|x y z b IH] using list_ind3; [done|..].
  - pose proof (octet_range x).
    assert (H1 : 0 <= octet x * 65536 / 262144 < 64) by (Z.div_mod_to_equations; lia).
    assert (H2 : 0 <= octet x * 65536 / 4096 mod 64 < 64) by (apply Z.mod_pos_bound; lia).
    destruct enc; simpl; rewrite !char_sextet_char by done; simpl; unfold one_byte;
      do 2 f_equal; apply byte_of_eq; Z.div_mod_to_equations; lia.
  - pose proof (octet_range x) as Hx. pose proof (octet_range y) as Hy.
    set (n := octet x * 65536 + octet y * 256).
    assert (H1 : 0 <= n / 262144 < 64) by (unfold n; Z.div_mod_to_equations; lia).
    assert (H2 : 0 <= n / 4096 mod 64 < 64) by (apply Z.mod_pos_bound; lia).
    assert (H3 : 0 <= n / 64 mod 64 < 64) by (apply Z.mod_pos_bound; lia).
    assert (two_bytes (n / 262144) (n / 4096 mod 64) (n / 64 mod 64) = [x; y]) as E.
    { unfold two_bytes. f_equal; [|f_equal]; apply byte_of_eq; unfold n;
        Z.div_mod_to_equations; lia. }
    pose proof (sextet_char_not_pad enc _ H3).
    destruct enc; simpl; fold n; rewrite !char_sextet_char by done; simpl.
    { by rewrite E. }
    rewrite bool_decide_eq_false_2 by (intros [_ ?]; done). simpl.
    by rewrite E.
  - pose proof (octet_range x) as Hx. pose proof (octet_range y) as Hy.
    pose proof (octet_range z) as Hz.
    cbn [EncodeToBytes]. set (n := octet x * 65536 + octet y * 256 + octet z).
    assert (H1 : 0 <= n / 262144 < 64) by (unfold n; Z.div_mod_to_equations; lia).
    assert (H2 : 0 <= n / 4096 mod 64 < 64) by (apply Z.mod_pos_bound; lia).
    assert (H3 : 0 <= n / 64 mod 64 < 64) by (apply Z.mod_pos_bound; lia).
    assert (H4 : 0 <= n mod 64 < 64) by (apply Z.mod_pos_bound; lia).
    assert (three_bytes (n / 262144) (n / 4096 mod 64) (n / 64 mod 64) (n mod 64) = [x; y; z]) as E.
    { unfold three_bytes. f_equal; [|f_equal; [|f_equal]]; apply byte_of_eq; unfold n;
        Z.div_mod_to_equations; lia. }
    cbn [decode_quanta]. rewrite !char_sextet_char by done. cbn [mbind option_bind].
    rewrite bool_decide_eq_false_2 by (intros [_ Hc]; revert Hc; by apply sextet_char_not_pad).
    rewrite bool_decide_eq_false_2 by (intros [_ Hc]; revert Hc; by apply sextet_char_not_pad).
    rewrite IH. cbn [mbind option_bind]. by rewrite E.
Qed.

Lemma EncodeToBytes_chars enc b :
  Forall (fun c => alphabet_char c = true \/ c = "="%char) (EncodeToBytes enc b).
Proof.
  induction b as [|x|x y|x y z b IH] using list_ind3.
  all: repeat match goal with c : ascii |- _ =>
         lazymatch goal with H : 0 <= octet c < 256 |- _ => fail
         | _ => pose proof (octet_range c) end end.
  all: cbn [EncodeToBytes app];
    repeat (apply Forall_cons; split;
            [left; apply sextet_char_alphabet; Z.div_mod_to_equations; lia|]);
    try done.
  all: destruct enc; simpl; repeat constructor; by right.
Qed.

Lemma filter_newline_id b :
  Forall (fun c => alphabet_char c = true \/ c = "="%char) b ->
  List.filter (fun c => negb (is_newline c)) b = b.
Proof.
  induction 1 as [|c b Hc _ IH]; simpl; [done|]. rewrite IH.
  assert (is_newline c = false) as ->; [|done].
  unfold is_newline. destruct Hc as [Hc| ->]; [|reflexivity].
  unfold alphabet_char in Hc. b2p.
  apply orb_false_intro; apply Z.eqb_neq; lia.
Qed.

Theorem DecodeString_EncodeToString enc b :
  DecodeString enc (EncodeToString enc b) = Some b.
Proof.
  unfold DecodeString, EncodeToString. rewrite bytes_of_string_of.
  rewrite filter_newline_id by apply EncodeToBytes_chars.
  apply decode_encode_quanta.
Qed.

(** ** [encoding/hex] *)

Definition hex_char (v : Z) : ascii :=
  if v <? 10 then byte_of (48 + v) else byte_of (87 + v).

Definition hex_EncodeToString (b : bytes) : string :=
  string_of (List.concat (List.map (fun c => [hex_char (octet c / 16); hex_char (octet c mod 16)]) b)).

Definition hex_value (c : ascii) : option Z :=
  let z := octet c in
  if (48 <=? z) && (z <=? 57) then Some (z - 48)
  else if (97 <=? z) && (z <=? 102) then Some (z - 87)
  else if (65 <=? z) && (z <=? 70) then Some (z - 55)
  else None.

Fixpoint hex_decode (l : bytes) : option bytes :=
  match l with
  | [] => Some []
  | [_] => None
  | a :: b :: l' =>
      x ← hex_value a; y ← hex_value b; rest ← hex_decode l';
      Some (byte_of (x * 16 + y) :: rest)
  end.

Definition hex_DecodeString (s : string) : option bytes := hex_decode (bytes_of s).

Lemma hex_value_char v : 0 <= v < 16 -> hex_value (hex_char v) = Some v.
Proof.
  intros Hv. apply (bool_decide_eq_true_1 (hex_value (hex_char v) = Some v)).
  revert v Hv. by apply (forall_below 16).
Qed.

Lemma hex_roundtrip b : hex_DecodeString (hex_EncodeToString b) = Some b.
Proof.
  unfold hex_DecodeString, hex_EncodeToString. rewrite bytes_of_string_of.
  induction b as [|c b IH]; [done|]. pose proof (octet_range c). simpl.
  rewrite !hex_value_char by (Z.div_mod_to_equations; lia). simpl.
  rewrite IH. simpl. do 2 f_equal. apply byte_of_eq.
  Z.div_mod_to_equations; lia.
Qed.

Lemma hex_EncodeToString_inj b b' :
  hex_EncodeToString b = hex_EncodeToString b' -> b = b'.
Proof.
  intros H. pose proof (hex_roundtrip b) as Hb. rewrite H, hex_roundtrip in Hb. congruence.
Qed.

(** ** Prefixed envelopes: a visible prefix and the base64 text survive [TrimSpace] *)

Lemma EncodeToBytes_visible enc b : forallb visible (EncodeToBytes enc b) = true.
Proof.
  pose proof (EncodeToBytes_chars enc b) as H. induction H as [|c l Hc _ IH]; simpl; [done|].
  rewrite IH, andb_true_r. destruct Hc as [Hc| ->]; [|done].
  unfold alphabet_char in Hc. b2p. unfold visible, is_ascii_space.
  rewrite (proj2 (Z.ltb_lt _ _)) by lia. simpl. apply negb_true_iff, orb_false_intro.
  - apply andb_false_intro2, Z.leb_gt. lia.
  - apply Z.eqb_neq. lia.
Qed.

Lemma strip_envelope p enc b :
  forallb visible (bytes_of p) = true ->
  strip_prefix p (TrimSpace (p +:+ EncodeToString enc b)) = Some (EncodeToString enc b).
Proof.
  intros Hp. rewrite TrimSpace_visible, strip_prefix_app; [done|].
  rewrite bytes_of_app, forallb_app, Hp. unfold EncodeToString.
  by rewrite bytes_of_string_of, EncodeToBytes_visible.
Qed.
