(* ===== verification/Hashes.v ===== *)
(** * [crypto/sha1], [crypto/sha256], [crypto/hmac] and [hash/crc32]

    SHA-1 and SHA-256 (FIPS 180-4), HMAC (RFC 2104) and the IEEE CRC-32, executable on byte lists.
    Words are Z below [2^32]. *)

From S2P Require Import Prelude.
Local Open Scope Z_scope.

Definition w32 (z : Z) : Z := z mod 4294967296.
Definition rotl (n x : Z) : Z := w32 (Z.lor (Z.shiftl x n) (Z.shiftr x (32 - n))).

(** Go's [a ^ b] on bytes. *)
Definition xor_byte (a b : ascii) : ascii := byte_of (Z.lxor (octet a) (octet b)).

Lemma lxor_mod_pow2 a b n :
  0 <= n -> Z.lxor a b mod 2 ^ n = Z.lxor (a mod 2 ^ n) (b mod 2 ^ n).
Proof.
  intros Hn. apply Z.bits_inj'. intros k Hk. rewrite Z.lxor_spec. destruct (Z.ltb_spec k n).
  - by rewrite !Z.mod_pow2_bits_low, Z.lxor_spec by lia.
  - by rewrite !Z.mod_pow2_bits_high by lia.
Qed.

Lemma lxor_below a b n : 0 <= n -> 0 <= a < 2 ^ n -> 0 <= b < 2 ^ n -> 0 <= Z.lxor a b < 2 ^ n.
Proof.
  intros Hn Ha Hb. rewrite <-(Z.mod_small a (2 ^ n)), <-(Z.mod_small b (2 ^ n)) by done.
  rewrite <-lxor_mod_pow2 by done. apply Z.mod_pos_bound. lia.
Qed.

Lemma lxor_twice a b : Z.lxor (Z.lxor a b) b = a.
Proof. by rewrite Z.lxor_assoc, Z.lxor_nilpotent, Z.lxor_0_r. Qed.

Lemma xor_byte_twice a b : xor_byte (xor_byte a b) b = a.
Proof.
  apply octet_inj. unfold xor_byte. pose proof (octet_range a). pose proof (octet_range b).
  pose proof (lxor_below (octet a) (octet b) 8). rewrite !octet_byte_of.
  rewrite (Z.mod_small (Z.lxor (octet a) (octet b))) by lia. rewrite lxor_twice. apply Z.mod_small. lia.
Qed.

(** ** SHA-1 *)

Module SHA1.
Record digest := MkDigest { d_a : Z; d_b : Z; d_c : Z; d_d : Z; d_e : Z }.

Definition init : digest := MkDigest 0x67452301 0xEFCDAB89 0x98BADCFE 0x10325476 0xC3D2E1F0.

(** The message, a one bit, zeros, and the length in bits. *)
Definition padded (msg : bytes) : bytes :=
  let n := List.length msg in
  msg ++ byte_of 128 :: repeat Ascii.zero ((119 - n mod 64) mod 64) ++ be_bytes 8 (8 * Z.of_nat n).

Fixpoint words (n : nat) (b : bytes) : list Z :=
  match n with O => [] | S n' => be_value (firstn 4 b) :: words n' (skipn 4 b) end.

(** The schedule, last word first. *)
Fixpoint expand (n : nat) (ws : list Z) : list Z :=
  match n with
  | O => ws
  | S n' =>
      let at_ k := nth k ws 0 in
      expand n' (rotl 1 (Z.lxor (Z.lxor (at_ 2%nat) (at_ 7%nat)) (Z.lxor (at_ 13%nat) (at_ 15%nat))) :: ws)
  end.

Definition round (t : nat) (b c d : Z) : Z * Z :=
  if (t <? 20)%nat then (Z.lor (Z.land b c) (Z.land (w32 (Z.lnot b)) d), 0x5A827999)
  else if (t <? 40)%nat then (Z.lxor (Z.lxor b c) d, 0x6ED9EBA1)
  else if (t <? 60)%nat then (Z.lor (Z.lor (Z.land b c) (Z.land b d)) (Z.land c d), 0x8F1BBCDC)
  else (Z.lxor (Z.lxor b c) d, 0xCA62C1D6).

Fixpoint rounds (t : nat) (ws : list Z) (h : digest) : digest :=
  match ws with
  | [] => h
  | w :: ws' =>
      let '(f, k) := round t (d_b h) (d_c h) (d_d h) in
      rounds (S t) ws'
        (MkDigest (w32 (rotl 5 (d_a h) + f + d_e h + k + w)) (d_a h) (rotl 30 (d_b h)) (d_c h) (d_d h))
  end.

Definition block (h : digest) (b : bytes) : digest :=
  let r := rounds 0 (rev (expand 64 (rev (words 16 b)))) h in
  MkDigest (w32 (d_a h + d_a r)) (w32 (d_b h + d_b r)) (w32 (d_c h + d_c r)) (w32 (d_d h + d_d r))
    (w32 (d_e h + d_e r)).

Fixpoint blocks (n : nat) (b : bytes) (h : digest) : digest :=
  match n with O => h | S n' => blocks n' (skipn 64 b) (block h (firstn 64 b)) end.

Definition output (h : digest) : bytes :=
  be_bytes 4 (d_a h) ++ be_bytes 4 (d_b h) ++ be_bytes 4 (d_c h) ++ be_bytes 4 (d_d h) ++ be_bytes 4 (d_e h).

Definition sum (msg : bytes) : bytes :=
  let p := padded msg in output (blocks (List.length p / 64) p init).
End SHA1.

(** ** SHA-256 *)

Module SHA256.
(** The constants of FIPS 180-4: the first 32 bits of the fractional parts of the cube
    roots of the first 64 primes, and of the square roots of the first eight. *)
Definition is_prime (n : nat) : bool := forallb (fun d => negb (n mod d =? 0)%nat) (seq 2 (n - 2)).
Definition primes : list Z := Eval vm_compute in map Z.of_nat (List.filter is_prime (seq 2 310)).
Definition cube_root (bits : nat) (x : Z) : Z :=
  foldl (fun r b => let r' := r + Z.shiftl 1 (Z.of_nat b) in if r' * r' * r' <=? x then r' else r) 0 (rev (seq 0 bits)).
Definition K : list Z := Eval vm_compute in map (fun p => cube_root 36 (p * 2 ^ 96) mod 2 ^ 32) primes.
Definition init : list Z := Eval vm_compute in map (fun p => Z.sqrt (p * 2 ^ 64) mod 2 ^ 32) (firstn 8 primes).

Definition rotr (n x : Z) : Z := rotl (32 - n) x.
Definition xor3 (a b c : Z) : Z := Z.lxor (Z.lxor a b) c.
Definition small0 (x : Z) : Z := xor3 (rotr 7 x) (rotr 18 x) (Z.shiftr x 3).
Definition small1 (x : Z) : Z := xor3 (rotr 17 x) (rotr 19 x) (Z.shiftr x 10).
Definition big0 (x : Z) : Z := xor3 (rotr 2 x) (rotr 13 x) (rotr 22 x).
Definition big1 (x : Z) : Z := xor3 (rotr 6 x) (rotr 11 x) (rotr 25 x).
Definition ch (x y z : Z) : Z := Z.lxor (Z.land x y) (Z.land (w32 (Z.lnot x)) z).
Definition maj (x y z : Z) : Z := xor3 (Z.land x y) (Z.land x z) (Z.land y z).

(** The schedule, last word first. *)
Fixpoint expand (n : nat) (ws : list Z) : list Z :=
  match n with
  | O => ws
  | S n' =>
      let at_ k := nth k ws 0 in
      expand n' (w32 (small1 (at_ 1%nat) + at_ 6%nat + small0 (at_ 14%nat) + at_ 15%nat) :: ws)
  end.

Definition round (h : list Z) (kw : Z * Z) : list Z :=
  match h with
  | [a; b; c; d; e; f; g; x] =>
      let t1 := x + big1 e + ch e f g + kw.1 + kw.2 in
      let t2 := big0 a + maj a b c in
      [w32 (t1 + t2); a; b; c; w32 (d + t1); e; f; g]
  | _ => h
  end.

Definition block (h : list Z) (b : bytes) : list Z :=
  let ws := rev (expand 48 (rev (SHA1.words 16 b))) in
  zip_with (fun x y => w32 (x + y)) h (foldl round h (zip K ws)).

Fixpoint blocks (n : nat) (b : bytes) (h : list Z) : list Z :=
  match n with O => h | S n' => blocks n' (skipn 64 b) (block h (firstn 64 b)) end.

Definition sum (msg : bytes) : bytes :=
  let p := SHA1.padded msg in
  List.concat (be_bytes 4 <$> blocks (List.length p / 64) p init).

Lemma round_length h kw : List.length (round h kw) = List.length h.
Proof. unfold round. do 9 (destruct h as [|? h]; [done|]). done. Qed.

Lemma block_length h b : List.length (block h b) = List.length h.
Proof.
  unfold block. rewrite length_zip_with. set (l := zip _ _). clearbody l.
  enough (List.length (foldl round h l) = List.length h) by lia.
  revert h. induction l as [|kw l IH]; intros h; simpl; [done|]. by rewrite IH, round_length.
Qed.

Lemma sum_length msg : List.length (sum msg) = 32%nat.
Proof.
  unfold sum. set (n := (_ / 64)%nat). generalize (SHA1.padded msg). clearbody n. clear msg. intros b.
  assert (Hb : List.length (blocks n b init) = 8%nat).
  { assert (List.length init = 8%nat) as Hi by done. revert Hi. generalize init. revert b.
    induction n as [|n IH]; intros b h Hh; simpl; [done|]. apply IH. by rewrite block_length. }
  revert Hb. generalize (blocks n b init). intros h Hh.
  do 8 (destruct h as [|? h]; [done|]). destruct h; [|done].
  cbn [fmap list_fmap List.concat]. by rewrite !length_app, !be_bytes_length.
Qed.
End SHA256.

(** ** HMAC-SHA1 *)

Definition hmac_key (key : bytes) : bytes :=
  let k := if (64 <? List.length key)%nat then SHA1.sum key else key in
  k ++ repeat Ascii.zero (64 - List.length k).

Definition hmac_sha1 (key msg : bytes) : bytes :=
  let k := hmac_key key in
  let ipad := xor_byte (byte_of 0x36) <$> k in
  let opad := xor_byte (byte_of 0x5c) <$> k in
  SHA1.sum (opad ++ SHA1.sum (ipad ++ msg)).

Lemma hmac_sha1_length key msg : List.length (hmac_sha1 key msg) = 20%nat.
Proof. unfold hmac_sha1, SHA1.sum, SHA1.output. by rewrite !length_app, !be_bytes_length. Qed.

(** ** CRC-32 *)

Fixpoint crc_shift (n : nat) (crc : Z) : Z :=
  match n with
  | O => crc
  | S n' => crc_shift n' (if Z.odd crc then Z.lxor (Z.shiftr crc 1) 0xEDB88320 else Z.shiftr crc 1)
  end.

Definition ChecksumIEEE (b : bytes) : Z :=
  Z.lxor (foldl (fun crc c => crc_shift 8 (Z.lxor crc (octet c))) 0xFFFFFFFF b) 0xFFFFFFFF.

(** ** Published test vectors *)

Example sha1_abc : be_value (SHA1.sum (bytes_of "abc")) = 0xa9993e364706816aba3e25717850c26c9cd0d89d.
Proof. vm_compute. reflexivity. Qed.

Example sha256_abc :
  be_value (SHA256.sum (bytes_of "abc")) = 0xba7816bf8f01cfea414140de5dae2223b00361a396177a9cb410ff61f20015ad.
Proof. vm_compute. reflexivity. Qed.

Example sha256_two_blocks :
  be_value (SHA256.sum (bytes_of "abcdbcdecdefdefgefghfghighijhijkijkljklmklmnlmnomnopnopq")) =
    0x248d6a61d20638b8e5c026930c3e6039a33ce45964ff2167f6ecedd419db06c1.
Proof. vm_compute. reflexivity. Qed.

Example hmac_fox :
  be_value (hmac_sha1 (bytes_of "key") (bytes_of "The quick brown fox jumps over the lazy dog")) =
    0xde7c9b85b8b78aa6bc8a7a36f70a90701c9db4d9.
Proof. vm_compute. reflexivity. Qed.

Example crc_digits : ChecksumIEEE (bytes_of "123456789") = 0xCBF43926.
Proof. vm_compute. reflexivity. Qed.
