(* ===== verification/Crypto.v ===== *)
(** * The interfaces to Go's [crypto/ed25519] and [encoding/json]

    The signature scheme and the JSON codec are what the modelled code calls
    and does not define. Each is a class of operations with a class of the laws
    the code relies on: a signature made with a private key verifies under its
    public key, keys and signatures have ed25519's sizes, and unmarshalling a
    marshalled value gives the value back. The [Toy] module gives both an
    executable instance that satisfies the laws, so that statements that rest on
    them can be run. *)

From S2P Require Import Prelude.

Definition PublicKeySize : nat := 32.
Definition SignatureSize : nat := 64.

Class Ed25519 := {
  PrivateKey : Type;
  Public : PrivateKey -> bytes;
  ed_Sign : PrivateKey -> bytes -> bytes;
  ed_Verify : bytes -> bytes -> bytes -> bool;
}.

Class Ed25519Laws `{Ed25519} := {
  Public_length : forall k, List.length (Public k) = PublicKeySize;
  Sign_length : forall k m, List.length (ed_Sign k m) = SignatureSize;
  Verify_Sign : forall k m, ed_Verify (Public k) m (ed_Sign k m) = true;
}.

(** [Unmarshal] wants exactly one JSON value; [Decode] is [Decoder.Decode] on a
    fresh decoder, which reads the first value and leaves what follows it. *)
Class JSON (A : Type) := {
  Marshal : A -> bytes;
  Unmarshal : bytes -> option A;
  Decode : bytes -> option A;
}.

Class JSONLaws (A : Type) `{JSON A} := {
  Unmarshal_Marshal : forall a : A, Unmarshal (Marshal a) = Some a;
  Marshal_nonempty : forall a : A, Marshal a <> [];
  Decode_Unmarshal : forall b (a : A), Unmarshal b = Some a -> Decode b = Some a;
}.

(** A [json.RawMessage] written by [MarshalIndent] and read back: the bytes are
    re-indented, and bytes that are not exactly one JSON value are an error. What
    they decode to does not change. *)
Class RawJSON := { reindent : bytes -> option bytes }.
Class RawJSONLaws (A : Type) `{JSON A} `{RawJSON} := {
  Decode_reindent : forall raw raw', reindent raw = Some raw' -> Decode raw' = @Decode A _ raw;
}.

(** The field is [omitempty]: no bytes are no field. *)
Definition raw_field `{RawJSON} (raw : bytes) : option bytes :=
  if bool_decide (raw = []) then Some [] else reindent raw.

Lemma raw_field_Decode {A} `{RawJSONLaws A} raw raw' :
  raw_field raw = Some raw' -> Decode raw' = @Decode A _ raw.
Proof.
  unfold raw_field. case_bool_decide as Hr; [|apply Decode_reindent]. intros [= <-]. by rewrite Hr.
Qed.

(** [len(key) != ed25519.PublicKeySize] *)
Definition bad_key_length (pub : bytes) : bool :=
  negb (List.length pub =? PublicKeySize)%nat.

Lemma bad_key_length_false pub :
  bad_key_length pub = false -> List.length pub = PublicKeySize.
Proof. unfold bad_key_length. intros H. b2p. by apply Nat.eqb_eq. Qed.

Lemma bad_key_length_Public `{Ed25519Laws} k : bad_key_length (Public k) = false.
Proof. unfold bad_key_length. by rewrite Public_length. Qed.

(** ** A signed blob is the body followed by a fixed-length signature *)

(** [signed[:len(signed)-64]] and [signed[len(signed)-64:]], when
    [len(signed) > 64]. *)
Definition split_signed (signed : bytes) : option (bytes * bytes) :=
  if (List.length signed <=? SignatureSize)%nat then None
  else let n := (List.length signed - SignatureSize)%nat in
       Some (firstn n signed, skipn n signed).

Lemma split_signed_app body sig :
  List.length sig = SignatureSize -> body <> [] ->
  split_signed (body ++ sig) = Some (body, sig).
Proof.
  intros Hs Hb. unfold split_signed. rewrite length_app, Hs.
  destruct (Nat.leb_spec (List.length body + SignatureSize) SignatureSize) as [Hle|_].
  { destruct body; [done|simpl in Hle; lia]. }
  rewrite Nat.add_sub.
  by rewrite firstn_app, firstn_all, Nat.sub_diag, skipn_app, skipn_all, Nat.sub_diag,
    app_nil_r.
Qed.

Lemma split_signed_inv signed body sig :
  split_signed signed = Some (body, sig) -> signed = body ++ sig /\ List.length sig = SignatureSize.
Proof.
  unfold split_signed. case_match eqn:H; [done|]. intros [= <- <-].
  apply Nat.leb_gt in H. rewrite firstn_skipn, length_skipn. split; [done|lia].
Qed.

(** ** Executable instances *)

Module Toy.
Definition toy_sign (k : ascii) (m : bytes) : bytes :=
  firstn 64 (k :: m ++ repeat k 64).

#[export] Instance toy_ed25519 : Ed25519 := {
  PrivateKey := ascii;
  Public k := repeat k 32;
  ed_Sign := toy_sign;
  ed_Verify pub m s :=
    match pub with k :: _ => bool_decide (s = toy_sign k m) | [] => false end;
}.

#[export] Instance toy_ed25519_laws : Ed25519Laws.
Proof.
  split.
  - intros k. apply repeat_length.
  - intros k m. unfold ed_Sign, toy_ed25519, toy_sign, SignatureSize.
    rewrite length_firstn. cbn [List.length]. rewrite length_app, repeat_length. lia.
  - intros k m. simpl. by apply bool_decide_eq_true_2.
Qed.

Fixpoint pos_bits (p : positive) : bytes :=
  match p with
  | xH => ["."%char]
  | xO p => "0"%char :: pos_bits p
  | xI p => "1"%char :: pos_bits p
  end.

(** The code at the head of the bytes, and what follows it. *)
Fixpoint bits_pos (b : bytes) : option (positive * bytes) :=
  match b with
  | [] => None
  | c :: b' =>
      if Ascii.eqb c "0" then '(p, r) ← bits_pos b'; Some (xO p, r)
      else if Ascii.eqb c "1" then '(p, r) ← bits_pos b'; Some (xI p, r)
      else if Ascii.eqb c "." then Some (xH, b')
      else None
  end.

Lemma bits_pos_bits p r : bits_pos (pos_bits p ++ r) = Some (p, r).
Proof. induction p as [p IH|p IH|]; simpl; by rewrite ?IH. Qed.

(** Any countable type has a codec: the bits of its code. *)
Definition toy_json {A} `{Countable A} : JSON A := {|
  Marshal a := pos_bits (encode a);
  Unmarshal b := '(p, r) ← bits_pos b; match r with [] => decode p | _ => None end;
  Decode b := '(p, _) ← bits_pos b; decode p;
|}.

Lemma toy_json_laws {A} `{Countable A} : @JSONLaws A toy_json.
Proof.
  split; simpl.
  - intros a. rewrite <-(app_nil_r (pos_bits _)), bits_pos_bits. apply decode_encode.
  - intros a. by destruct (encode a).
  - intros b a. destruct (bits_pos b) as [[p [|]]|]; simpl; congruence.
Qed.

#[export] Instance toy_raw : RawJSON := {
  reindent b := match bits_pos b with Some (_, []) => Some b | _ => None end;
}.
Lemma toy_raw_laws {A} `{JSON A} : RawJSONLaws A.
Proof. split. intros b b'. simpl. repeat case_match; congruence. Qed.
End Toy.

(** Codes of record fields are opaque to [simpl]. *)
#[global] Arguments encode : simpl never.
#[global] Arguments decode : simpl never.
