(* ===== verification/Admission.v ===== *)
(** * Admission credentials: [core/admission]

    A credential is a JSON body signed by an admission authority, carried as
    text. A coordinator anchors a set of authorities, each trusted for some
    roles, and admits a node or client when an authority anchored for the role
    it asks for signed its credential and the credential's own terms hold.
    Revocation is by serial: a set the operator edits, or a signed list (CRL)
    a client caches. *)

From S2P Require Import Prelude GoStrings Base64 Crypto.

(** ** [credential.go] *)

Abbreviation Role := string (only parsing).
Definition RoleClient : Role := "client".
Definition RoleRelay : Role := "relay".
Definition RoleExit : Role := "exit".

Definition AllRoles : list Role := [RoleClient; RoleRelay; RoleExit].
Definition Role_Known (r : Role) : bool := existsb (String.eqb r) AllRoles.

Definition CredentialVersion : Z := 1.
Definition serialLen : nat := 8.

Record Credential := MkCredential {
  Version : Z;
  Serial : string;
  Subject : string;
  Roles : list Role;
  NotBefore : Time;
  NotAfter : Time;
  Note : string;
  Vouched : bool;
  Trust : string;
  Plan : string;
}.

Definition IsVouched (c : Credential) : bool := Vouched c.

Inductive Error :=
| ErrMalformed | ErrBadSignature | ErrUnsupportedVersion | ErrNotYetValid | ErrExpired
| ErrRoleNotAuthorized | ErrSubjectMismatch | ErrRevoked | ErrNoAuthorityForRole.

#[export] Instance Error_eq_dec : EqDecision Error.
Proof. solve_decision. Defined.

Definition HasRole (c : Credential) (want : Role) : bool :=
  existsb (fun r => String.eqb r want) (Roles c).

Definition credPrefix : string := "bacchusc1:".

Definition Encode (signed : bytes) : string := credPrefix +:+ EncodeToString RawURLEncoding signed.

Definition Decode (s : string) : result Error bytes :=
  match strip_prefix credPrefix (TrimSpace s) with
  | None => Err ErrMalformed
  | Some t => of_option ErrMalformed (DecodeString RawURLEncoding t)
  end.

(** [newSerial]: the argument is what [rand.Read] filled the buffer with. *)
Definition newSerial (random : option bytes) : option string := hex_EncodeToString <$> random.

Section Signing.
Context `{Ed25519} `{JSON Credential}.

Definition Sign (priv : PrivateKey) (c : Credential) : bytes :=
  let body := Marshal c in body ++ ed_Sign priv body.

Definition parse (pub signed : bytes) : result Error Credential :=
  check! fail_if (bad_key_length pub) ErrMalformed;
  match split_signed signed with
  | None => Err ErrMalformed
  | Some (body, sig) =>
      check! fail_if (negb (ed_Verify pub body sig)) ErrBadSignature;
      let? c := of_option ErrMalformed (Unmarshal body) in
      check! fail_if (negb (Version c =? CredentialVersion)) ErrUnsupportedVersion;
      Ok c
  end.

Definition Issue (priv : PrivateKey) (subject : string) (roles : list Role)
    (notBefore notAfter : Time) (note : string) (random : option bytes)
    : option (Credential * string) :=
  match roles with
  | [] => None
  | _ =>
      serial ← newSerial random;
      let c := {| Version := CredentialVersion; Serial := serial; Subject := subject;
                  Roles := roles; NotBefore := notBefore; NotAfter := notAfter;
                  Note := note; Vouched := false; Trust := ""; Plan := "" |} in
      Some (c, Encode (Sign priv c))
  end.
End Signing.

(** ** [verify.go]: the verifier and its anchored authorities *)

Definition ClockSkew : Duration := 2 * Minute.

Record Authority := MkAuthority { Pub : bytes; AuthRoles : list Role }.

Definition admits (a : Authority) (want : Role) : bool :=
  existsb (fun r => String.eqb r want) (AuthRoles a).

Record Verifier := MkVerifier {
  authorities : list Authority;
  revoked : string -> bool;
}.

Definition revokedOrNothing (revoked : option (string -> bool)) : string -> bool :=
  match revoked with Some f => f | None => fun _ => false end.

Definition NewVerifier (pub : bytes) (revoked : option (string -> bool)) : Verifier :=
  {| authorities := [MkAuthority pub AllRoles]; revoked := revokedOrNothing revoked |}.

Inductive AuthorityError :=
| NoAuthorities
| BadKeyLength (i : nat)
| NoRoles (i : nat)
| UnknownRole (i : nat) (r : Role)
| DuplicateKey (i first : nat).

(** The loop of [NewAuthoritySetVerifier]: [seen] maps a key to the index it
    was first anchored at. *)
Fixpoint anchor_all (i : nat) (seen : gmap bytes nat) (auths : list Authority)
    : result AuthorityError (list Authority) :=
  match auths with
  | [] => Ok []
  | a :: rest =>
      check! fail_if (bad_key_length (Pub a)) (BadKeyLength i);
      check! fail_if (bool_decide (AuthRoles a = [])) (NoRoles i);
      check! (match List.find (fun r => negb (Role_Known r)) (AuthRoles a) with
              | Some r => Err (UnknownRole i r)
              | None => Ok tt
              end);
      check! (match seen !! Pub a with
              | Some first => Err (DuplicateKey i first)
              | None => Ok tt
              end);
      let? anchored := anchor_all (S i) (<[Pub a := i]> seen) rest in
      Ok (MkAuthority (Pub a) (AuthRoles a) :: anchored)
  end.

Definition NewAuthoritySetVerifier (auths : list Authority)
    (revoked : option (string -> bool)) : result AuthorityError Verifier :=
  check! fail_if (bool_decide (auths = [])) NoAuthorities;
  let? anchored := anchor_all 0 ∅ auths in
  Ok {| authorities := anchored; revoked := revokedOrNothing revoked |}.

Definition accept (c : Credential) (now : Time) (want : Role) (subject : string)
    (revoked : string -> bool) : result Error unit :=
  check! fail_if (revoked (Serial c)) ErrRevoked;
  check! fail_if (Before now (time_Add (NotBefore c) (- ClockSkew))) ErrNotYetValid;
  check! fail_if (negb (Before now (NotAfter c))) ErrExpired;
  check! fail_if (negb (HasRole c want)) ErrRoleNotAuthorized;
  check! fail_if (negb (String.eqb subject "") && negb (String.eqb subject (Subject c)))
           ErrSubjectMismatch;
  Ok tt.

Section Verifying.
Context `{Ed25519} `{JSON Credential}.

(** The loop of [Verify] over the anchored authorities, with the count of
    candidates that admit the role. *)
Fixpoint try_authorities (v : Verifier) (signed : bytes) (now : Time) (want : Role)
    (subject : string) (candidates : nat) (auths : list Authority)
    : result Error Credential :=
  match auths with
  | [] => if (candidates =? 0)%nat then Err ErrNoAuthorityForRole else Err ErrBadSignature
  | a :: rest =>
      if negb (admits a want) then try_authorities v signed now want subject candidates rest
      else match parse (Pub a) signed with
           | Err e =>
               if bool_decide (e = ErrBadSignature)
               then try_authorities v signed now want subject (S candidates) rest
               else Err e
           | Ok c => check! accept c now want subject (revoked v); Ok c
           end
  end.

Definition Verify (v : Verifier) (encoded : string) (now : Time) (want : Role)
    (subject : string) : result Error Credential :=
  let? signed := Decode encoded in
  try_authorities v signed now want subject 0 (authorities v).
End Verifying.

(** ** [verify.go]: the revocation list *)

Definition RevocationList := gset string.
Definition NewRevocationList : RevocationList := ∅.

Record revocationFile := MkRevocationFile { rf_Version : Z; rf_Revoked : list string }.
Definition revocationFileVersion : Z := 1.

Inductive LoadError := ReadFailed | ParseFailed | BadFileVersion.

(** The file's content is the argument; [None] when it cannot be read. *)
Definition LoadRevocationList `{JSON revocationFile} (content : option bytes)
    : result LoadError RevocationList :=
  let? b := of_option ReadFailed content in
  let? f := of_option ParseFailed (Unmarshal b) in
  check! fail_if (negb (rf_Version f =? revocationFileVersion)) BadFileVersion;
  Ok (list_to_set (rf_Revoked f)).

Definition RevocationList_Revoked (r : RevocationList) (serial : string) : bool :=
  bool_decide (serial ∈ r).
Definition Revoke (r : RevocationList) (serial : string) : RevocationList := {[serial]} ∪ r.
Definition Serials (r : RevocationList) : list string := sort_Strings (elements r).

(** [SaveFile]: the bytes it hands to the atomic writer. *)
Definition SaveFile `{JSON revocationFile} (r : RevocationList) : bytes :=
  Marshal {| rf_Version := revocationFileVersion; rf_Revoked := Serials r |}.

(** ** [crl.go]: the signed list a client caches *)

Record CRL := MkCRL {
  crl_Version : Z;
  IssuedAt : Time;
  ExpiresAt : Time;
  crl_Serials : list string;
}.

Definition CRLVersion : Z := 1.
Definition crlPrefix : string := "bacchusr1:".

Inductive CRLError := ErrCRLMalformed | ErrCRLBadSignature | ErrCRLUnsupportedVersion | ErrCRLExpired.

Section Crl.
Context `{Ed25519} `{JSON CRL}.

Definition SignCRL (priv : PrivateKey) (revoked : list string) (now : Time) (ttl : Duration)
    : string :=
  let c := {| crl_Version := CRLVersion; IssuedAt := now; ExpiresAt := time_Add now ttl;
              crl_Serials := sort_Strings revoked |} in
  let body := Marshal c in
  crlPrefix +:+ EncodeToString RawURLEncoding (body ++ ed_Sign priv body).

Definition ParseCRL (pub : bytes) (encoded : string) : result CRLError CRL :=
  let? t := of_option ErrCRLMalformed (strip_prefix crlPrefix (TrimSpace encoded)) in
  check! fail_if (bad_key_length pub) ErrCRLMalformed;
  let? signed := of_option ErrCRLMalformed (DecodeString RawURLEncoding t) in
  match split_signed signed with
  | None => Err ErrCRLMalformed
  | Some (body, sig) =>
      check! fail_if (negb (ed_Verify pub body sig)) ErrCRLBadSignature;
      let? c := of_option ErrCRLMalformed (Unmarshal body) in
      check! fail_if (negb (crl_Version c =? CRLVersion)) ErrCRLUnsupportedVersion;
      Ok c
  end.

Definition VerifyCRL (pub : bytes) (encoded : string) (now : Time) : result CRLError CRL :=
  let? c := ParseCRL pub encoded in
  check! fail_if (negb (Before now (ExpiresAt c))) ErrCRLExpired;
  Ok c.

Definition CRL_Revoked (c : CRL) (serial : string) : bool :=
  existsb (fun s => String.eqb s serial) (crl_Serials c).

Record ClientCRL := MkClientCRL { crl_pub : bytes; cur : option CRL }.
Definition NewClientCRL (pub : bytes) : ClientCRL := MkClientCRL pub None.

Definition ClientCRL_Set (c : ClientCRL) (encoded : string) (now : Time)
    : ClientCRL * option CRLError :=
  match VerifyCRL (crl_pub c) encoded now with
  | Err e => (c, Some e)
  | Ok crl => (MkClientCRL (crl_pub c) (Some crl), None)
  end.

Definition ClientCRL_Revoked (c : ClientCRL) (serial : string) : bool :=
  match cur c with Some p => CRL_Revoked p serial | None => false end.
End Crl.

(** ** The verifier is sound *)

Section Facts.
Context `{Ed25519} `{JSON Credential}.

Lemma HasRole_iff c r : HasRole c r = true <-> r ∈ Roles c.
Proof. apply existsb_eqb_r. Qed.

Lemma admits_iff a r : admits a r = true <-> r ∈ AuthRoles a.
Proof. apply existsb_eqb_r. Qed.

(** What a parsed credential says of the bytes it came from. *)
Definition signed_by (pub signed : bytes) (c : Credential) : Prop :=
  List.length pub = PublicKeySize /\
  exists body sig, signed = body ++ sig /\ List.length sig = SignatureSize /\
    ed_Verify pub body sig = true /\ Unmarshal body = Some c /\ Version c = CredentialVersion.

Lemma parse_Ok pub signed c : parse pub signed = Ok c -> signed_by pub signed c.
Proof.
  unfold parse, signed_by. intros Hp. inv_result.
  destruct (split_signed signed) as [[body sig]|] eqn:Hs; [|done]. inv_result. b2p.
  apply split_signed_inv in Hs as [-> Hl].
  split; [by apply bad_key_length_false|]. eauto 8.
Qed.

(** The terms a credential must meet, as [accept] checks them. *)
Definition acceptable (c : Credential) (now : Time) (want : Role) (subject : string)
    (revoked : string -> bool) : Prop :=
  revoked (Serial c) = false /\
  NotBefore c - ClockSkew <= now < NotAfter c /\
  want ∈ Roles c /\
  (subject = "" \/ subject = Subject c).

Lemma accept_Ok c now want subject rev u :
  accept c now want subject rev = Ok u <-> acceptable c now want subject rev.
Proof.
  destruct u. unfold accept, acceptable, Before, time_Add. split.
  - intros Ha. inv_result. b2p. rewrite <-HasRole_iff.
    repeat split; try done; try lia.
    apply andb_false_iff in E3 as [?|?]; b2p; auto.
  - intros (Hr & Hw & HR & Hs). apply HasRole_iff in HR. rewrite Hr, HR. simpl.
    rewrite (proj2 (Z.ltb_ge now _)) by lia.
    rewrite (proj2 (Z.ltb_lt now _)) by lia. simpl.
    destruct Hs as [-> | ->]; [done|]. by rewrite String.eqb_refl, andb_false_r.
Qed.

Lemma try_authorities_Ok v signed now want subject n auths c :
  try_authorities v signed now want subject n auths = Ok c ->
  exists a, a ∈ auths /\ admits a want = true /\ signed_by (Pub a) signed c /\
    acceptable c now want subject (revoked v).
Proof.
  revert n. induction auths as [|a auths IH]; intros n; simpl; [by case_match|].
  destruct (admits a want) eqn:Ha; simpl.
  - destruct (parse (Pub a) signed) as [c'|e] eqn:Hp; [|case_match; [|done]].
    + intros Hx. inv_result. apply accept_Ok in E. apply parse_Ok in Hp.
      exists a. split; [left|done].
    + intros (a' & ? & ?)%IH. exists a'. split; [by right|done].
  - intros (a' & ? & ?)%IH. exists a'. split; [by right|done].
Qed.

(** A credential the verifier returns was signed by an authority anchored
    for the role being taken, is a version-1 credential, is not revoked, is in
    its validity window (with the skew allowance at the start only), names the
    role itself, and names the subject when one is asked for. *)
Theorem Verify_sound v encoded now want subject c :
  Verify v encoded now want subject = Ok c ->
  exists signed a, Decode encoded = Ok signed /\ a ∈ authorities v /\ want ∈ AuthRoles a /\
    signed_by (Pub a) signed c /\ acceptable c now want subject (revoked v).
Proof.
  unfold Verify. intros Hv. inv_result.
  apply try_authorities_Ok in Hv as (a' & ? & ?%admits_iff & ? & ?). eauto 8.
Qed.

Definition restrict (v : Verifier) (want : Role) : Verifier :=
  {| authorities := List.filter (fun a => admits a want) (authorities v); revoked := revoked v |}.

Lemma try_authorities_restrict v signed now want subject n auths :
  try_authorities v signed now want subject n auths =
  try_authorities (restrict v want) signed now want subject n
    (List.filter (fun a => admits a want) auths).
Proof.
  revert n. induction auths as [|a auths IH]; intros n; simpl; [done|].
  destruct (admits a want) eqn:Ha; simpl; rewrite ?Ha; simpl; [|done].
  destruct (parse (Pub a) signed); [done|]. by rewrite IH.
Qed.

(** Authorities that are not anchored for the role have no influence on the
    verdict, errors included: verification for a role is verification by the
    authorities anchored for it alone. *)
Theorem Verify_role_scoped v encoded now want subject :
  Verify v encoded now want subject = Verify (restrict v want) encoded now want subject.
Proof.
  unfold Verify. destruct (Decode encoded) as [signed|e]; [|done]. simpl.
  apply try_authorities_restrict.
Qed.
End Facts.

(** ** Issue and verify *)

Section RoundTrip.
Context `{Ed25519Laws} `{JSONLaws Credential}.

Lemma Decode_Encode signed : Decode (Encode signed) = Ok signed.
Proof.
  unfold Decode, Encode. rewrite strip_envelope by reflexivity.
  by rewrite DecodeString_EncodeToString.
Qed.

Lemma parse_Sign priv c :
  Version c = CredentialVersion -> parse (Public priv) (Sign priv c) = Ok c.
Proof.
  intros Hv. unfold parse, Sign. rewrite bad_key_length_Public. simpl.
  rewrite split_signed_app by (apply Sign_length || apply Marshal_nonempty).
  rewrite Verify_Sign. simpl. rewrite Unmarshal_Marshal. simpl. by rewrite Hv.
Qed.

Lemma parse_bad_signature pub priv c :
  List.length pub = PublicKeySize ->
  ed_Verify pub (Marshal c) (ed_Sign priv (Marshal c)) = false ->
  parse pub (Sign priv c) = Err ErrBadSignature.
Proof.
  intros Hl Hv. unfold parse, Sign, bad_key_length. rewrite Hl. simpl.
  rewrite split_signed_app by (apply Sign_length || apply Marshal_nonempty).
  by rewrite Hv.
Qed.

(** A freshly issued credential is verified by every verifier that anchors
    the issuer's key for one of its roles, at any instant of its window, for
    that role and subject, as long as its serial is not revoked and no other
    anchored key that is tried before it verifies the issuer's signature. *)
Theorem Verify_Issue v priv subject roles nbf naf note random c encoded before a after now want :
  Issue priv subject roles nbf naf note random = Some (c, encoded) ->
  authorities v = before ++ a :: after ->
  Pub a = Public priv -> want ∈ AuthRoles a -> want ∈ roles ->
  (forall b, b ∈ before -> List.length (Pub b) = PublicKeySize /\
     ed_Verify (Pub b) (Marshal c) (ed_Sign priv (Marshal c)) = false) ->
  nbf - ClockSkew <= now < naf ->
  revoked v (Serial c) = false ->
  Verify v encoded now want subject = Ok c.
Proof.
  intros Hi Ha Hpub Hwa Hwr Hb Hw Hr.
  unfold Issue in Hi. destruct roles as [|r0 roles]; [by apply elem_of_nil in Hwr|].
  destruct (newSerial random) as [serial|]; [|done]. simpl in Hi. injection Hi as <- <-.
  unfold Verify. rewrite Decode_Encode. simpl. rewrite Ha. clear Ha.
  generalize 0%nat. induction before as [|b before IH]; intros n; simpl.
  - apply admits_iff in Hwa. rewrite Hwa, Hpub, parse_Sign by done. simpl.
    assert (forall c, acceptable c now want subject (revoked v) ->
      accept c now want subject (revoked v) = Ok tt) as Hacc by (intros; by apply accept_Ok).
    rewrite Hacc; [done|]. unfold acceptable; simpl in *. auto.
  - destruct (Hb b) as [Hl Hf]; [left|].
    destruct (admits b want); simpl.
    + rewrite parse_bad_signature by done. rewrite bool_decide_eq_true_2 by done.
      apply IH. intros b' Hb'. apply Hb. by right.
    + apply IH. intros b' Hb'. apply Hb. by right.
Qed.
End RoundTrip.

(** ** The anchored set *)

Definition anchored_ok (auths : list Authority) : Prop :=
  Forall (fun a => List.length (Pub a) = PublicKeySize /\ AuthRoles a <> [] /\
                   Forall (fun r => r ∈ AllRoles) (AuthRoles a)) auths /\
  NoDup (Pub <$> auths).

Lemma Role_Known_iff r : Role_Known r = true <-> r ∈ AllRoles.
Proof. apply existsb_eqb_l. Qed.

Lemma find_none_Known rs :
  List.find (fun r => negb (Role_Known r)) rs = None -> Forall (fun r => r ∈ AllRoles) rs.
Proof.
  intros Hf. apply Forall_forall. intros r Hr%list_elem_of_In.
  apply Role_Known_iff, negb_false_iff. exact (find_none _ _ Hf _ Hr).
Qed.

Lemma anchor_all_Ok i seen auths anchored :
  anchor_all i seen auths = Ok anchored ->
  anchored = auths /\ anchored_ok auths /\ forall a, a ∈ auths -> seen !! Pub a = None.
Proof.
  revert i seen anchored. induction auths as [|a auths IH]; intros i seen anchored; simpl.
  - intros [= <-]. repeat split; [constructor|constructor|]. by intros ? ?%elem_of_nil.
  - intros Hx. inv_result. destruct a as [pub roles]; simpl in *.
    destruct (List.find _ roles) eqn:Hf; [done|].
    destruct (seen !! pub) eqn:Hseen; [done|].
    apply IH in E3 as (-> & [Hall Hnd] & Hfresh). b2p.
    apply find_none_Known in Hf. apply bad_key_length_false in E.
    split; [done|]. split; [split|].
    + constructor; [done|exact Hall].
    + simpl. constructor; [|done]. intros (b & Hb & Hbin)%list_elem_of_fmap. simpl in Hb.
      specialize (Hfresh b Hbin). rewrite Hb, lookup_insert_eq in Hfresh. done.
    + intros b [->|Hb]%elem_of_cons; [exact Hseen|]. specialize (Hfresh b Hb).
      by apply lookup_insert_None in Hfresh as [? _].
Qed.

(** A verifier the constructor returns anchors exactly the authorities it was
    given, and they are well-formed: 32-byte keys, at least one role each, only
    known roles, and no key anchored twice. *)
Theorem NewAuthoritySetVerifier_wf auths rev v :
  NewAuthoritySetVerifier auths rev = Ok v ->
  authorities v = auths /\ auths <> [] /\ anchored_ok auths /\ revoked v = revokedOrNothing rev.
Proof.
  unfold NewAuthoritySetVerifier. intros Hv. inv_result. b2p.
  by apply anchor_all_Ok in E0 as (-> & ? & _).
Qed.

(** ** Revocation lists *)

Lemma Serials_elem r s : s ∈ Serials r <-> s ∈ r.
Proof. unfold Serials. by rewrite sort_Strings_perm, elem_of_elements. Qed.

(** The serials are written sorted and without duplicates, and loading a
    saved list gives the list back. *)
Theorem Load_SaveFile `{JSONLaws revocationFile} (r : RevocationList) :
  StronglySorted string_le (Serials r) /\ NoDup (Serials r) /\
  LoadRevocationList (Some (SaveFile r)) = Ok r.
Proof.
  split; [apply sort_Strings_sorted|]. split.
  { unfold Serials. rewrite sort_Strings_perm. apply NoDup_elements. }
  unfold LoadRevocationList, SaveFile. simpl. rewrite Unmarshal_Marshal. simpl.
  f_equal. apply set_eq. intros s. by rewrite elem_of_list_to_set, Serials_elem.
Qed.

Section CrlFacts.
Context `{Ed25519Laws} `{JSONLaws CRL}.

Lemma VerifyCRL_SignCRL priv revoked iat ttl now :
  now < iat + ttl ->
  VerifyCRL (Public priv) (SignCRL priv revoked iat ttl) now =
    Ok {| crl_Version := CRLVersion; IssuedAt := iat; ExpiresAt := iat + ttl;
          crl_Serials := sort_Strings revoked |}.
Proof.
  intros Hn. unfold VerifyCRL, ParseCRL, SignCRL. rewrite strip_envelope by reflexivity.
  simpl. rewrite bad_key_length_Public, DecodeString_EncodeToString. simpl.
  rewrite split_signed_app by (apply Sign_length || apply Marshal_nonempty).
  rewrite Verify_Sign. simpl. rewrite Unmarshal_Marshal. simpl.
  unfold Before, time_Add. by rewrite (proj2 (Z.ltb_lt _ _) Hn).
Qed.

(** A list the authority signed and the client installs before it expires
    answers exactly: a serial is revoked for the client iff it was in the list;
    and an installation that fails leaves what the client enforced before. *)
Theorem ClientCRL_enforces priv revoked iat ttl now c :
  now < iat + ttl -> crl_pub c = Public priv ->
  let '(c', err) := ClientCRL_Set c (SignCRL priv revoked iat ttl) now in
  err = None /\ crl_pub c' = crl_pub c /\
  (forall s, ClientCRL_Revoked c' s = true <-> s ∈ revoked) /\
  (forall bad now', (ClientCRL_Set c' bad now').2 <> None ->
     forall s, ClientCRL_Revoked (ClientCRL_Set c' bad now').1 s = true <-> s ∈ revoked).
Proof.
  intros Hn Hp. unfold ClientCRL_Set at 1. rewrite Hp, VerifyCRL_SignCRL by done.
  assert (forall s, ClientCRL_Revoked (MkClientCRL (Public priv) (Some
    {| crl_Version := CRLVersion; IssuedAt := iat; ExpiresAt := iat + ttl;
       crl_Serials := sort_Strings revoked |})) s = true <-> s ∈ revoked) as Hrev.
  { intros s. unfold ClientCRL_Revoked, CRL_Revoked. simpl.
    by rewrite existsb_eqb_r, sort_Strings_perm. }
  split_and!; [done..|exact Hrev|].
  intros bad now'. unfold ClientCRL_Set. simpl.
  destruct (VerifyCRL (Public priv) bad now'); [done|]. intros _. exact Hrev.
Qed.
End CrlFacts.

(** ** Witnesses *)

#[export] Instance Credential_eq_dec : EqDecision Credential.
Proof. solve_decision. Defined.
#[export] Instance Credential_countable : Countable Credential.
Proof.
  refine (inj_countable
    (fun r => [encode (Version r); encode (Serial r); encode (Subject r); encode (Roles r); encode (NotBefore r); encode (NotAfter r); encode (Note r); encode (Vouched r); encode (Trust r); encode (Plan r)])
    (fun l => match l with
              | [x0; x1; x2; x3; x4; x5; x6; x7; x8; x9] => x0 ← decode x0; x1 ← decode x1; x2 ← decode x2; x3 ← decode x3; x4 ← decode x4; x5 ← decode x5; x6 ← decode x6; x7 ← decode x7; x8 ← decode x8; x9 ← decode x9;
                  Some (MkCredential x0 x1 x2 x3 x4 x5 x6 x7 x8 x9)
              | _ => None
              end) _).
  intros []. cbv beta iota. by rewrite !decode_encode.
Defined.
#[export] Instance revocationFile_eq_dec : EqDecision revocationFile.
Proof. solve_decision. Defined.
#[export] Instance revocationFile_countable : Countable revocationFile.
Proof.
  refine (inj_countable
    (fun r => [encode (rf_Version r); encode (rf_Revoked r)])
    (fun l => match l with
              | [x0; x1] => x0 ← decode x0; x1 ← decode x1;
                  Some (MkRevocationFile x0 x1)
              | _ => None
              end) _).
  intros []. cbv beta iota. by rewrite !decode_encode.
Defined.
#[export] Instance CRL_eq_dec : EqDecision CRL.
Proof. solve_decision. Defined.
#[export] Instance CRL_countable : Countable CRL.
Proof.
  refine (inj_countable
    (fun r => [encode (crl_Version r); encode (IssuedAt r); encode (ExpiresAt r); encode (crl_Serials r)])
    (fun l => match l with
              | [x0; x1; x2; x3] => x0 ← decode x0; x1 ← decode x1; x2 ← decode x2; x3 ← decode x3;
                  Some (MkCRL x0 x1 x2 x3)
              | _ => None
              end) _).
  intros []. cbv beta iota. by rewrite !decode_encode.
Defined.

Module Demo.
Import Toy.
#[export] Existing Instance toy_json.
#[export] Existing Instance toy_json_laws.

Definition operator_key : PrivateKey := "o"%char.
Definition account_key : PrivateKey := "a"%char.
Definition verifier : Verifier :=
  {| authorities := [MkAuthority (Public operator_key) [RoleRelay; RoleExit];
                     MkAuthority (Public account_key) [RoleClient]];
     revoked := fun s => String.eqb s "dead" |}.
Definition issued : option (Credential * string) :=
  Issue account_key "u1" [RoleClient] (10 * Minute) (60 * Minute) "" (Some (bytes_of "12345678")).
Definition issued_cred : Credential :=
  match issued with Some (c, _) => c | None => MkCredential 0 "" "" [] 0 0 "" false "" "" end.
Definition issued_text : string := match issued with Some (_, t) => t | None => "" end.
End Demo.
Import Toy Demo.

Lemma Verify_Issue_witness :
  Verify Demo.verifier Demo.issued_text (9 * Minute) RoleClient "u1" = Ok Demo.issued_cred.
Proof.
  refine (Verify_Issue Demo.verifier Demo.account_key "u1" [RoleClient] (10 * Minute)
            (60 * Minute) "" (Some (bytes_of "12345678")) _ _
            [MkAuthority (Public Demo.operator_key) [RoleRelay; RoleExit]]
            (MkAuthority (Public Demo.account_key) [RoleClient]) [] _ _ _ _ _ _ _ _ _ _).
  - vm_compute. reflexivity.
  - reflexivity.
  - reflexivity.
  - simpl. apply elem_of_cons. by left.
  - apply elem_of_cons. by left.
  - intros b Hb. apply list_elem_of_singleton in Hb as ->. vm_compute. done.
  - unfold ClockSkew, Minute, Second. lia.
  - vm_compute. reflexivity.
Defined.

Lemma Verify_sound_witness :
  exists signed a, Decode Demo.issued_text = Ok signed /\ a ∈ authorities Demo.verifier /\
    RoleClient ∈ AuthRoles a /\ signed_by (Pub a) signed Demo.issued_cred /\
    acceptable Demo.issued_cred (9 * Minute) RoleClient "u1" (revoked Demo.verifier).
Proof.
  apply (Verify_sound Demo.verifier Demo.issued_text (9 * Minute) RoleClient "u1").
  vm_compute. reflexivity.
Defined.

Lemma NewAuthoritySetVerifier_wf_witness :
  authorities Demo.verifier = authorities Demo.verifier /\
  authorities Demo.verifier <> [] /\ anchored_ok (authorities Demo.verifier) /\
  revoked Demo.verifier = revokedOrNothing (Some (revoked Demo.verifier)).
Proof.
  apply (NewAuthoritySetVerifier_wf (authorities Demo.verifier) (Some (revoked Demo.verifier))).
  vm_compute. reflexivity.
Defined.

Lemma ClientCRL_enforces_witness :
  let c := NewClientCRL (Public Demo.operator_key) in
  let '(c', err) :=
    ClientCRL_Set c (SignCRL Demo.operator_key ["b"; "a"] 0 (10 * Minute)) (5 * Minute) in
  err = None /\ crl_pub c' = crl_pub c /\
  (forall s, ClientCRL_Revoked c' s = true <-> s ∈ ["b"; "a"]) /\
  (forall bad now', (ClientCRL_Set c' bad now').2 <> None ->
     forall s, ClientCRL_Revoked (ClientCRL_Set c' bad now').1 s = true <-> s ∈ ["b"; "a"]).
Proof.
  apply (ClientCRL_enforces Demo.operator_key ["b"; "a"] 0 (10 * Minute) (5 * Minute));
    [unfold Minute, Second; lia | reflexivity].
Defined.

Lemma Load_SaveFile_witness :
  let r : RevocationList := {["b"; "a"; "c"]} in
  StronglySorted string_le (Serials r) /\ NoDup (Serials r) /\
  LoadRevocationList (Some (SaveFile r)) = Ok r.
Proof. apply Load_SaveFile. Defined.
