(* ===== verification/Delegation.v ===== *)
(** * Root-signed delegation: [core/delegation/delegation.go]

    The offline root signs certificates that name a key and the one role it may
    sign for. Every signed object is [body || signature] over
    [tag || 0x00 || body], where the tag separates the kinds of object. *)

From S2P Require Import Prelude GoStrings Base64 Crypto.

Definition Version : Z := 1.

Definition TagDelegationCert : string := "bacchus/delegation/v1".
Definition TagPolicyDoc : string := "bacchus/policy/v1".
Definition TagIssuerCert : string := "bacchus/issuer-cert/v1".
Definition TagDeviceCred : string := "bacchus/device-cred/v1".
Definition TagRevocationsDoc : string := "bacchus/revocations/v1".
Definition TagUpdateManifest : string := "bacchus/update-manifest/v1".

Definition all_tags : list string :=
  [TagDelegationCert; TagPolicyDoc; TagIssuerCert; TagDeviceCred; TagRevocationsDoc;
   TagUpdateManifest].

Definition ClockSkew : Duration := 2 * Minute.

Abbreviation Role := string (only parsing).
Definition RolePolicy : Role := "policy".
Definition RoleUpdate : Role := "update".
Definition RoleRevocations : Role := "revocations".

Definition Role_Known (r : Role) : bool :=
  existsb (String.eqb r) [RolePolicy; RoleUpdate; RoleRevocations].

Record Cert := MkCert {
  cert_Version : Z;
  cert_Serial : string;
  cert_Role : Role;
  cert_Pub : bytes;
  cert_NotBefore : Time;
  cert_NotAfter : Time;
  cert_Note : string;
}.

Inductive Error :=
| ErrMalformed | ErrUnsupportedVersion | ErrBadSignature | ErrNotYetValid | ErrExpired
| ErrRevoked | ErrWrongRole | ErrNoRoot.

#[export] Instance Error_eq_dec : EqDecision Error.
Proof. solve_decision. Defined.

Definition NUL : ascii := Ascii.zero.

Definition signingMessage (tag : string) (body : bytes) : bytes :=
  bytes_of tag ++ NUL :: body.

Definition certPrefix : string := "bacchusg1:".
Definition EncodeCert (signed : bytes) : string :=
  certPrefix +:+ EncodeToString RawURLEncoding signed.
Definition DecodeCert (s : string) : result Error bytes :=
  match strip_prefix certPrefix (TrimSpace s) with
  | None => Err ErrMalformed
  | Some t => of_option ErrMalformed (DecodeString RawURLEncoding t)
  end.

Section Delegation.
Context `{Ed25519} `{JSON Cert}.

Definition OpenSigned (pub : bytes) (tag : string) (signed : bytes) : result Error bytes :=
  check! fail_if (bad_key_length pub) ErrMalformed;
  match split_signed signed with
  | None => Err ErrMalformed
  | Some (body, sig) =>
      check! fail_if (negb (ed_Verify pub (signingMessage tag body) sig)) ErrBadSignature;
      Ok body
  end.

Definition ParseCert (rootPub signed : bytes) : result Error Cert :=
  let? body := OpenSigned rootPub TagDelegationCert signed in
  let? c := of_option ErrMalformed (Unmarshal body) in
  check! fail_if (negb (cert_Version c =? Version)) ErrUnsupportedVersion;
  check! fail_if (bad_key_length (cert_Pub c)) ErrMalformed;
  Ok c.

Definition VerifyDelegationCert (rootPub signed : bytes) (expect : Role) (now : Time)
    (revoked : option (string -> bool)) : result Error Cert :=
  check! fail_if (bad_key_length rootPub) ErrNoRoot;
  let? c := ParseCert rootPub signed in
  check! fail_if (negb (String.eqb (cert_Role c) expect)) ErrWrongRole;
  check! fail_if (match revoked with Some f => f (cert_Serial c) | None => false end) ErrRevoked;
  check! fail_if (Before now (time_Add (cert_NotBefore c) (- ClockSkew))) ErrNotYetValid;
  check! fail_if (negb (Before now (cert_NotAfter c))) ErrExpired;
  Ok c.

(** The signer's side of [OpenSigned], as the conformance vectors build it. *)
Definition seal (priv : PrivateKey) (tag : string) (body : bytes) : bytes :=
  body ++ ed_Sign priv (signingMessage tag body).

(** ** What an accepted object says *)

(** [signed] is [body] followed by a signature of it under [tag]. *)
Definition sealed_by (pub : bytes) (tag : string) (signed body : bytes) : Prop :=
  List.length pub = PublicKeySize /\
  exists sig, signed = body ++ sig /\ List.length sig = SignatureSize /\
    ed_Verify pub (signingMessage tag body) sig = true.

Lemma OpenSigned_Ok pub tag signed body :
  OpenSigned pub tag signed = Ok body -> sealed_by pub tag signed body.
Proof.
  unfold OpenSigned, sealed_by. intros Ho. inv_result.
  destruct (split_signed signed) as [[b sig]|] eqn:Hs; [|done]. inv_result. b2p.
  apply split_signed_inv in Hs as [-> Hl].
  split; [by apply bad_key_length_false|]. eauto.
Qed.

Record delegated (rootPub signed : bytes) (role : Role) (now : Time)
    (rev : option (string -> bool)) (c : Cert) : Prop := {
  del_sealed : exists body, sealed_by rootPub TagDelegationCert signed body /\ Unmarshal body = Some c;
  del_version : cert_Version c = Version;
  del_key : List.length (cert_Pub c) = PublicKeySize;
  del_role : cert_Role c = role;
  del_unrevoked : forall f, rev = Some f -> f (cert_Serial c) = false;
  del_window : cert_NotBefore c - ClockSkew <= now < cert_NotAfter c;
}.

Lemma VerifyDelegationCert_Ok rootPub signed role now rev c :
  VerifyDelegationCert rootPub signed role now rev = Ok c ->
  delegated rootPub signed role now rev c.
Proof.
  unfold VerifyDelegationCert, ParseCert, Before, time_Add. intros Hv. inv_result. b2p.
  match goal with Ho : OpenSigned _ _ _ = Ok _ |- _ => apply OpenSigned_Ok in Ho end.
  split; eauto using bad_key_length_false. by intros f ->.
Qed.
End Delegation.

(** ** Domain separation *)

Lemma app_sep_inj (c : ascii) (a b x y : bytes) :
  c ∉ a -> c ∉ b -> a ++ c :: x = b ++ c :: y -> a = b /\ x = y.
Proof.
  revert b. induction a as [|d a IH]; intros [|e b] Ha Hb Heq; simplify_eq/=.
  - done.
  - exfalso. apply Hb. left.
  - exfalso. apply Ha. left.
  - destruct (IH b) as [-> ->]; [..|done|done].
    + intros ?. apply Ha. by right.
    + intros ?. apply Hb. by right.
Qed.

Definition nul_free (s : string) : Prop := NUL ∉ bytes_of s.

#[export] Instance nul_free_dec s : Decision (nul_free s).
Proof. unfold nul_free. apply _. Defined.

Lemma signingMessage_inj t u b c :
  nul_free t -> nul_free u -> signingMessage t b = signingMessage u c -> t = u /\ b = c.
Proof.
  unfold signingMessage. intros Ht Hu Heq.
  apply app_sep_inj in Heq as [?%bytes_of_inj ->]; done.
Qed.

Lemma all_tags_nul_free : Forall nul_free all_tags.
Proof. apply (bool_decide_unpack _). vm_compute. exact I. Qed.

(** A signature over one kind of object is over a different message than any
    signature over another kind: the signed message determines both the tag and
    the body, for every two of the six tags. *)
Theorem signingMessage_separates t u b c :
  t ∈ all_tags -> u ∈ all_tags -> signingMessage t b = signingMessage u c -> t = u /\ b = c.
Proof.
  intros Ht Hu. pose proof all_tags_nul_free as Hf. rewrite Forall_forall in Hf.
  apply signingMessage_inj; eauto.
Qed.

Lemma signingMessage_separates_witness : TagPolicyDoc = TagPolicyDoc /\ bytes_of "x" = bytes_of "x".
Proof.
  apply (signingMessage_separates TagPolicyDoc TagPolicyDoc (bytes_of "x") (bytes_of "x"));
    [right; left | right; left | reflexivity].
Defined.

(** ** Certificates the root issues verify *)

Section Complete.
Context `{Ed25519Laws} `{JSONLaws Cert}.

Lemma OpenSigned_seal priv tag body :
  body <> [] -> OpenSigned (Public priv) tag (seal priv tag body) = Ok body.
Proof.
  intros Hb. unfold OpenSigned, seal. rewrite bad_key_length_Public. simpl.
  rewrite split_signed_app by (apply Sign_length || done).
  by rewrite Verify_Sign.
Qed.

Lemma VerifyDelegationCert_seal root c now rev :
  cert_Version c = Version -> List.length (cert_Pub c) = PublicKeySize ->
  (forall f, rev = Some f -> f (cert_Serial c) = false) ->
  cert_NotBefore c - ClockSkew <= now < cert_NotAfter c ->
  VerifyDelegationCert (Public root) (seal root TagDelegationCert (Marshal c))
    (cert_Role c) now rev = Ok c.
Proof.
  intros Hv Hk Hr Hw. unfold VerifyDelegationCert, ParseCert, bad_key_length, Before, time_Add.
  rewrite Public_length. simpl. rewrite OpenSigned_seal by apply Marshal_nonempty.
  simpl. rewrite Unmarshal_Marshal. simpl. rewrite Hv, Hk. simpl.
  rewrite String.eqb_refl. simpl.
  replace (match rev with Some f => f (cert_Serial c) | None => false end) with false
    by (destruct rev; [symmetry; auto|done]). simpl.
  rewrite (proj2 (Z.ltb_ge now _)) by lia. simpl.
  by rewrite (proj2 (Z.ltb_lt now _)) by lia.
Qed.
End Complete.

#[export] Instance Cert_eq_dec : EqDecision Cert.
Proof. solve_decision. Defined.
#[export] Instance Cert_countable : Countable Cert.
Proof.
  refine (inj_countable
    (fun r => [encode (cert_Version r); encode (cert_Serial r); encode (cert_Role r); encode (cert_Pub r); encode (cert_NotBefore r); encode (cert_NotAfter r); encode (cert_Note r)])
    (fun l => match l with
              | [x0; x1; x2; x3; x4; x5; x6] => x0 ← decode x0; x1 ← decode x1; x2 ← decode x2; x3 ← decode x3; x4 ← decode x4; x5 ← decode x5; x6 ← decode x6;
                  Some (MkCert x0 x1 x2 x3 x4 x5 x6)
              | _ => None
              end) _).
  intros []. cbv beta iota. by rewrite !decode_encode.
Defined.

