(* ===== verification/Policy.v ===== *)
(** * The signed network policy: [core/policy]

    The document a coordinator enforces (serve floors, back-pressure, vouching,
    per-tier limits), its validation, the verifier of a policy bundle (root ->
    delegated signer -> document) with its rollback floor, and the cache that
    carries the floor over a restart. *)

From S2P Require Import Prelude GoStrings Crypto Version Delegation.

(** ** [policy.go] *)

Definition Version : Z := 1.

Abbreviation Trust := string (only parsing).
Definition TrustEphemeral : Trust := "ephemeral".
Definition TrustStable : Trust := "stable".
Definition Trust_valid (t : Trust) : bool :=
  String.eqb t TrustEphemeral || String.eqb t TrustStable.

Record ServeFloor := MkServeFloor {
  MinMeasuredBps : Z;
  MinDeclaredQuotaBytes : Z;
  MinServingVersion : string;
}.

Record Backpressure := MkBackpressure {
  MinCountryHeadroomBps : Z;
  MinNodeHeadroomBps : Z;
}.

Record Vouch := MkVouch {
  K : Z;
  Budget : Z;
  Period : Duration;
  Tenure : Duration;
  AdmitCapPerPeriod : Z;
}.

Record TierLimit := MkTierLimit {
  tl_Trust : Trust;
  tl_Plan : string;
  SpeedCapBps : Z;
  Priority : Z;
  EndpointQuality : Z;
}.

Definition TierKey : Type := Trust * string.

Record Policy := MkPolicy {
  p_Version : Z;
  Seq : Z;
  Issued : Time;
  Expires : Time;
  Grace : Duration;
  p_Note : string;
  p_ServeFloor : ServeFloor;
  p_Backpressure : Backpressure;
  p_Vouch : Vouch;
  Tiers : list TierLimit;
}.

Inductive Error :=
| ErrUnsupportedVersion | ErrMalformed | ErrInvalid | ErrNotYetIssued | ErrStale | ErrRollback
| ErrUnknownTier
| ErrDelegation (e : Delegation.Error).

Definition zero_TierLimit : TierLimit := MkTierLimit "" "" 0 0 0.

(** The loop of [Limits]: the first row for the pair. *)
Definition Limits (p : Policy) (trust : Trust) (plan : string) : result Error TierLimit :=
  of_option ErrUnknownTier
    (List.find (fun t => String.eqb (tl_Trust t) trust && String.eqb (tl_Plan t) plan) (Tiers p)).

Definition clockSkew : Duration := Delegation.ClockSkew.

Definition Fresh (p : Policy) (now : Time) : bool :=
  negb (Before now (time_Add (Issued p) (- clockSkew))) && Before now (Expires p).

Definition Deadline (p : Policy) : Time := time_Add (Expires p) (Grace p).

Definition all_digits (s : string) : bool :=
  forallb digit_byte (bytes_of s).

(** One component of [checkServingVersion]. *)
Definition checkComponent (p : string) : result Error unit :=
  check! fail_if (String.eqb p "") ErrInvalid;
  check! fail_if ((1 <? Z.of_nat (String.length p)) &&
                  match p with String "0" _ => true | _ => false end) ErrInvalid;
  check! fail_if (negb (all_digits p)) ErrInvalid;
  fail_if (match ParseUint 31 p with Some _ => false | None => true end) ErrInvalid.

Fixpoint checkComponents (ps : list string) : result Error unit :=
  match ps with
  | [] => Ok tt
  | p :: ps' => check! checkComponent p; checkComponents ps'
  end.

Definition checkServingVersion (s : string) : result Error unit :=
  check! fail_if (String.eqb s "") ErrInvalid;
  let parts := Split "." s in
  check! fail_if (negb (List.length parts =? 3)%nat) ErrInvalid;
  checkComponents parts.

(** The tier loop of [Validate], with the set of pairs seen. *)
Fixpoint checkTiers (seen : gset TierKey) (ts : list TierLimit) : result Error unit :=
  match ts with
  | [] => Ok tt
  | t :: ts' =>
      check! fail_if (negb (Trust_valid (tl_Trust t))) ErrInvalid;
      check! fail_if (Priority t <? 0) ErrInvalid;
      check! fail_if (EndpointQuality t <? 0) ErrInvalid;
      check! fail_if (bool_decide ((tl_Trust t, tl_Plan t) ∈ seen)) ErrInvalid;
      checkTiers ({[(tl_Trust t, tl_Plan t)]} ∪ seen) ts'
  end.

Definition Validate (p : Policy) : result Error unit :=
  check! fail_if (negb (p_Version p =? Version)) ErrUnsupportedVersion;
  check! fail_if (Seq p =? 0) ErrInvalid;
  check! fail_if (IsZero (Issued p) || IsZero (Expires p)) ErrInvalid;
  check! fail_if (negb (Before (Issued p) (Expires p))) ErrInvalid;
  check! fail_if (Grace p <? 0) ErrInvalid;
  check! checkServingVersion (MinServingVersion (p_ServeFloor p));
  check! fail_if (K (p_Vouch p) <? 1) ErrInvalid;
  check! fail_if (Budget (p_Vouch p) <? 0) ErrInvalid;
  check! fail_if (Period (p_Vouch p) <=? 0) ErrInvalid;
  check! fail_if (Tenure (p_Vouch p) <? 0) ErrInvalid;
  check! fail_if (AdmitCapPerPeriod (p_Vouch p) <? 0) ErrInvalid;
  check! fail_if (bool_decide (List.length (Tiers p) = 0%nat)) ErrInvalid;
  checkTiers ∅ (Tiers p).

(** ** [verify.go] *)

Record Bundle := MkBundle { Doc : bytes; b_Cert : bytes }.

Record Verifier := MkVerifier { rootPub : bytes; revoked : string -> bool }.

Definition NewVerifier (root : bytes) (rev : option (string -> bool))
    : result Delegation.Error Verifier :=
  check! fail_if (bad_key_length root) ErrNoRoot;
  Ok {| rootPub := root;
        revoked := match rev with Some f => f | None => fun _ => false end |}.

Section Verifying.
Context `{Ed25519} `{JSON Delegation.Cert} `{JSON Policy} `{JSON Bundle}.

Definition ParseBundle (data : bytes) : result Error Bundle :=
  let? b := of_option ErrMalformed (Decode data) in
  check! fail_if (bool_decide (Doc b = []) || bool_decide (b_Cert b = [])) ErrMalformed;
  Ok b.

(** [errors.Is(err, delegation.ErrMalformed)] turns into this package's own. *)
Definition document_error (e : Delegation.Error) : Error :=
  if bool_decide (e = Delegation.ErrMalformed) then ErrMalformed else ErrDelegation e.

Definition Verify (v : Verifier) (b : Bundle) (now : Time) (minSeq : Z) : result Error Policy :=
  let? cert := map_err ErrDelegation
    (VerifyDelegationCert (rootPub v) (b_Cert b) RolePolicy now (Some (revoked v))) in
  let? body := map_err document_error (OpenSigned (cert_Pub cert) TagPolicyDoc (Doc b)) in
  let? p := of_option ErrMalformed (Unmarshal body) in
  check! Validate p;
  check! fail_if (Before now (time_Add (Issued p) (- clockSkew))) ErrNotYetIssued;
  check! fail_if (negb (Before now (Deadline p))) ErrStale;
  check! fail_if (Seq p <? minSeq) ErrRollback;
  Ok p.
End Verifying.

(** ** [cache.go]: the file holds the floor and the last bundle

    The content of the file is modelled as what [json.Unmarshal] makes of it. *)

Definition cacheVersion : Z := 1.
Record cacheFile := MkCacheFile { cf_Version : Z; MinSeq : Z; cf_Bundle : bytes }.
Definition zero_cacheFile : cacheFile := MkCacheFile 0 0 [].

Inductive DiskState :=
| Absent            (** [os.ErrNotExist] *)
| Unreadable        (** any other read error *)
| Garbage           (** content that does not unmarshal *)
| Parsed (f : cacheFile).

Inductive CacheError := CacheRead | CacheParse | CacheVersion | CacheBundle (e : Error)
| CacheMarshal | CacheWrite.

Section Caching.
Context `{Ed25519} `{JSON Delegation.Cert} `{JSON Policy} `{JSON Bundle} `{RawJSON}.

(** [Load]: the floor, the policy when one verifies, and the error. *)
Definition Load (d : DiskState) (v : Verifier) (now : Time)
    : Z * option Policy * option CacheError :=
  match d with
  | Absent => (0, None, None)
  | Unreadable => (0, None, Some CacheRead)
  | Garbage => (0, None, Some CacheParse)
  | Parsed f =>
      if negb (cf_Version f =? cacheVersion) then (MinSeq f, None, Some CacheVersion)
      else if bool_decide (cf_Bundle f = []) then (MinSeq f, None, None)
      else match ParseBundle (cf_Bundle f) with
           | Err e => (MinSeq f, None, Some (CacheBundle e))
           | Ok b => match Verify v b now (MinSeq f) with
                     | Err e => (MinSeq f, None, Some (CacheBundle e))
                     | Ok p => (MinSeq f, Some p, None)
                     end
           end
  end.

Definition peek (d : DiskState) : Z * cacheFile :=
  match d with
  | Parsed f => if negb (cf_Version f =? cacheVersion) then (MinSeq f, zero_cacheFile)
                else (MinSeq f, f)
  | _ => (0, zero_cacheFile)
  end.

(** [writeAtomic]: on failure the old content stays; the flag is the durable
    variant, chosen when the floor is raised. *)
Definition writeAtomic (d : DiskState) (f : cacheFile) (raisesFloor : bool)
    (write_ok : bool -> bool) : DiskState * option CacheError :=
  if write_ok raisesFloor then (Parsed f, None) else (d, Some CacheWrite).

Definition Store (d : DiskState) (raw : bytes) (seq : Z) (write_ok : bool -> bool)
    : DiskState * option CacheError :=
  let '(prev, _) := peek d in
  let raises := prev <? seq in
  let seq := if seq <? prev then prev else seq in
  match raw_field raw with
  | None => (d, Some CacheMarshal)
  | Some raw => writeAtomic d (MkCacheFile cacheVersion seq raw) raises write_ok
  end.

Definition StoreFloor (d : DiskState) (seq : Z) (write_ok : bool -> bool)
    : DiskState * option CacheError :=
  let '(prev, f) := peek d in
  let raises := prev <? seq in
  let seq := if seq <? prev then prev else seq in
  match raw_field (cf_Bundle f) with
  | None => (d, Some CacheMarshal)
  | Some raw => writeAtomic d (MkCacheFile cacheVersion seq raw) raises write_ok
  end.
End Caching.

(** ** Validation *)

Lemma checkComponent_Ok s p :
  checkComponent p = Ok tt -> exists n, parse_component s p = Ok n /\ 0 <= n < 2 ^ 31.
Proof.
  unfold checkComponent. intros Hc. inv_result. b2p.
  destruct (ParseUint 31 p) as [n|] eqn:Hn; [|done]. exists n. by apply parse_component_digits.
Qed.

(** A serving floor that passes policy validation always parses as a release
    version, with every component below 2^31; the coordinator's fallback for a
    floor that does not parse cannot be reached from a validated policy. *)
Theorem checkServingVersion_parses s :
  checkServingVersion s = Ok tt ->
  exists v, Version.Parse s = Ok v /\
    0 <= Major v < 2 ^ 31 /\ 0 <= Minor v < 2 ^ 31 /\ 0 <= Patch v < 2 ^ 31.
Proof.
  unfold checkServingVersion, Parse. intros Hc. inv_result. b2p.
  apply Nat.eqb_eq in E0.
  destruct (Split "." s) as [|p0 [|p1 [|p2 [|]]]]; try discriminate E0.
  simpl in Hc. inv_result.
  apply (checkComponent_Ok s) in E1 as (n0 & Hn0 & ?).
  apply (checkComponent_Ok s) in E2 as (n1 & Hn1 & ?).
  apply (checkComponent_Ok s) in E3 as (n2 & Hn2 & ?).
  exists (MkVersion n0 n1 n2). by rewrite Hn0, Hn1, Hn2.
Qed.

Lemma checkServingVersion_parses_witness :
  exists v, Version.Parse "0.12.3" = Ok v /\
    0 <= Major v < 2 ^ 31 /\ 0 <= Minor v < 2 ^ 31 /\ 0 <= Patch v < 2 ^ 31.
Proof. apply checkServingVersion_parses. vm_compute. reflexivity. Defined.

Definition row_ok (t : TierLimit) : Prop :=
  Trust_valid (tl_Trust t) = true /\ 0 <= Priority t /\ 0 <= EndpointQuality t.

Lemma checkTiers_Ok seen ts :
  checkTiers seen ts = Ok tt ->
  Forall row_ok ts /\ NoDup ((fun t => (tl_Trust t, tl_Plan t)) <$> ts) /\
  forall t, t ∈ ts -> (tl_Trust t, tl_Plan t) ∉ seen.
Proof.
  revert seen. induction ts as [|t ts IH]; intros seen; simpl.
  - intros _. repeat split; [constructor..|]. by intros ? ?%elem_of_nil.
  - intros Hc. inv_result. b2p. apply IH in Hc as (Hall & Hnd & Hfresh).
    split_and!.
    + constructor; [|done]. by split_and!.
    + constructor; [|done]. intros (u & Hu & Hin)%list_elem_of_fmap.
      apply (Hfresh u Hin). rewrite <-Hu. set_solver.
    + intros u [->|Hin]%elem_of_cons; [done|]. specialize (Hfresh u Hin). set_solver.
Qed.

Lemma Validate_tiers p : Validate p = Ok tt -> Tiers p <> [] /\ checkTiers ∅ (Tiers p) = Ok tt.
Proof. unfold Validate. intros Hv. inv_result. b2p. split; [|done]. intros Heq. by rewrite Heq in *. Qed.

Lemma Validate_window p :
  Validate p = Ok tt -> Issued p < Expires p /\ 0 <= Grace p /\ Seq p <> 0 /\
    checkServingVersion (MinServingVersion (p_ServeFloor p)) = Ok tt.
Proof. unfold Validate, Before. intros Hv. inv_result. b2p. done. Qed.

Lemma find_tier_row p t :
  NoDup ((fun t => (tl_Trust t, tl_Plan t)) <$> Tiers p) -> t ∈ Tiers p ->
  Limits p (tl_Trust t) (tl_Plan t) = Ok t.
Proof.
  unfold Limits. induction (Tiers p) as [|u ts IH]; [by intros _ ?%elem_of_nil|].
  simpl. intros [Hni Hnd]%NoDup_cons Hin.
  destruct (String.eqb (tl_Trust u) (tl_Trust t) && String.eqb (tl_Plan u) (tl_Plan t))%bool
    eqn:Heq.
  - b2p. apply elem_of_cons in Hin as [->|Hin]; [done|]. exfalso. apply Hni.
    apply list_elem_of_fmap. exists t. split; [congruence|done].
  - apply elem_of_cons in Hin as [->|Hin]; [|by apply IH].
    by rewrite !String.eqb_refl in Heq.
Qed.

(** The tier table of a validated policy is a function: it has a row, every
    row is found under its own (trust, plan) pair, a lookup that succeeds returns
    a row of the table for exactly that pair, and every row has a known trust and
    non-negative priority and quality. *)
Theorem Validate_Limits_functional p :
  Validate p = Ok tt ->
  Tiers p <> [] /\ Forall row_ok (Tiers p) /\
  (forall t, t ∈ Tiers p -> Limits p (tl_Trust t) (tl_Plan t) = Ok t) /\
  (forall trust plan t, Limits p trust plan = Ok t ->
     t ∈ Tiers p /\ tl_Trust t = trust /\ tl_Plan t = plan).
Proof.
  intros Hv. apply Validate_tiers in Hv as [Hne (Hrow & Hnd & _)%checkTiers_Ok].
  split_and!; [done..| |].
  - intros t Ht. by apply find_tier_row.
  - intros trust plan t Hl. unfold Limits in Hl. inv_result.
    apply find_some in Hl as [Hin Heq]. apply list_elem_of_In in Hin. by b2p.
Qed.

(** ** The verifier *)

Section Sound.
Context `{Ed25519} `{JSON Delegation.Cert} `{JSON Policy} `{JSON Bundle}.

(** A policy the verifier returns is the document of the bundle, signed under
    the policy tag by a key the root delegated for exactly the policy role with a
    certificate that is in its window and unrevoked; it validates, is issued, is
    not past expiry plus grace, and does not go below the sequence floor. *)
Theorem Verify_chain v b now minSeq p :
  Verify v b now minSeq = Ok p ->
  exists cert body,
    delegated (rootPub v) (b_Cert b) RolePolicy now (Some (revoked v)) cert /\
    sealed_by (cert_Pub cert) TagPolicyDoc (Doc b) body /\ Unmarshal body = Some p /\
    Validate p = Ok tt /\ Issued p - clockSkew <= now < Deadline p /\ minSeq <= Seq p.
Proof.
  unfold Verify, Before, time_Add. intros Hv. inv_result. b2p.
  match goal with Hd : VerifyDelegationCert _ _ _ _ _ = Ok _ |- _ =>
    apply VerifyDelegationCert_Ok in Hd end.
  match goal with Ho : OpenSigned _ _ _ = Ok _ |- _ => apply OpenSigned_Ok in Ho end.
  do 2 eexists. split_and!; try eassumption; lia.
Qed.

Lemma Verify_Ok_facts v b now minSeq p :
  Verify v b now minSeq = Ok p ->
  Validate p = Ok tt /\ Issued p - clockSkew <= now < Deadline p /\ minSeq <= Seq p.
Proof. unfold Verify, Before, time_Add. intros Hv. inv_result. b2p. split_and!; [done|lia..]. Qed.
End Sound.

Section Complete.
Context `{Ed25519Laws} `{JSONLaws Delegation.Cert} `{JSONLaws Policy} `{JSON Bundle}.

(** The bundle a signer publishes: the delegation and the sealed document. *)
Definition publish (root signer : PrivateKey) (cert : Cert) (p : Policy) : Bundle :=
  {| Doc := seal signer TagPolicyDoc (Marshal p);
     b_Cert := seal root TagDelegationCert (Marshal cert) |}.

Lemma Verify_publish root signer cert p v now minSeq :
  rootPub v = Public root -> cert_Version cert = Delegation.Version ->
  cert_Role cert = RolePolicy -> cert_Pub cert = Public signer ->
  revoked v (cert_Serial cert) = false ->
  cert_NotBefore cert - Delegation.ClockSkew <= now < cert_NotAfter cert ->
  Validate p = Ok tt -> Issued p - clockSkew <= now < Deadline p -> minSeq <= Seq p ->
  Verify v (publish root signer cert p) now minSeq = Ok p.
Proof.
  intros Hroot Hver Hrole Hpub Hrev Hw Hval Hnow Hseq.
  unfold Verify, publish. simpl. rewrite Hroot, <-Hrole.
  rewrite VerifyDelegationCert_seal; [|done| |by intros f [= <-]|done].
  2: { rewrite Hpub. apply Public_length. }
  simpl. rewrite Hpub, OpenSigned_seal by apply Marshal_nonempty. simpl.
  rewrite Unmarshal_Marshal. simpl. rewrite Hval. simpl.
  unfold Before, time_Add. rewrite (proj2 (Z.ltb_ge now _)) by lia. simpl.
  rewrite (proj2 (Z.ltb_lt now _)) by lia. simpl.
  by rewrite (proj2 (Z.ltb_ge (Seq p) _)) by lia.
Qed.
End Complete.

(** ** The cache keeps the rollback floor *)

Section Floor.
Context `{RawJSON}.

Inductive CacheOp :=
| OpStore (raw : bytes) (seq : Z)
| OpStoreFloor (seq : Z).

Definition run_op (d : DiskState) (op : CacheOp) (write_ok : bool -> bool) : DiskState :=
  match op with
  | OpStore raw seq => (Store d raw seq write_ok).1
  | OpStoreFloor seq => (StoreFloor d seq write_ok).1
  end.

Definition op_seq (op : CacheOp) : Z :=
  match op with OpStore _ s => s | OpStoreFloor s => s end.

(** What the operation hands to [json.MarshalIndent] as the bundle. *)
Definition op_raw (d : DiskState) (op : CacheOp) : bytes :=
  match op with OpStore raw _ => raw | OpStoreFloor _ => cf_Bundle (peek d).2 end.

Definition floor_of (d : DiskState) : Z := (peek d).1.

Lemma run_op_floor d op w :
  let raises := floor_of d <? op_seq op in
  floor_of (run_op d op w) =
    if w raises && bool_decide (is_Some (raw_field (op_raw d op)))
    then Z.max (floor_of d) (op_seq op) else floor_of d.
Proof.
  unfold floor_of. destruct op as [raw seq|seq]; simpl; unfold Store, StoreFloor, writeAtomic;
    destruct (peek d) as [prev f] eqn:Hd; simpl; destruct (raw_field _); simpl;
    destruct (w (prev <? seq)); simpl; rewrite ?Hd; simpl; try done;
    destruct (Z.ltb_spec seq prev); simpl; lia.
Qed.

(** No sequence of cache writes, whichever of them fail, lowers the recorded
    floor; a store whose bytes are one JSON value and whose write succeeds leaves
    the larger of the old floor and its own sequence number, and the durable writer
    is the one asked exactly when that raises the floor. *)
Theorem cache_floor_monotone d (ops : list (CacheOp * (bool -> bool))) raw seq w :
  let run := foldl (fun d '(op, w) => run_op d op w) d in
  floor_of d <= floor_of (run ops) /\
  floor_of (run_op (run ops) (OpStore raw seq) w) =
    (if w (floor_of (run ops) <? seq) && bool_decide (is_Some (raw_field raw))
     then Z.max (floor_of (run ops)) seq else floor_of (run ops)).
Proof.
  simpl. split.
  - revert d. induction ops as [|[op w'] ops IH]; intros d; simpl; [done|].
    etrans; [|apply IH]. pose proof (run_op_floor d op w') as Hf. simpl in Hf.
    destruct (_ && _); lia.
  - apply (run_op_floor _ (OpStore raw seq)).
Qed.
End Floor.

(** ** Witnesses *)

#[export] Instance ServeFloor_eq_dec : EqDecision ServeFloor.
Proof. solve_decision. Defined.
#[export] Instance ServeFloor_countable : Countable ServeFloor.
Proof.
  refine (inj_countable
    (fun r => [encode (MinMeasuredBps r); encode (MinDeclaredQuotaBytes r); encode (MinServingVersion r)])
    (fun l => match l with
              | [x0; x1; x2] => x0 ← decode x0; x1 ← decode x1; x2 ← decode x2;
                  Some (MkServeFloor x0 x1 x2)
              | _ => None
              end) _).
  intros []. cbv beta iota. by rewrite !decode_encode.
Defined.

#[export] Instance Backpressure_eq_dec : EqDecision Backpressure.
Proof. solve_decision. Defined.
#[export] Instance Backpressure_countable : Countable Backpressure.
Proof.
  refine (inj_countable
    (fun r => [encode (MinCountryHeadroomBps r); encode (MinNodeHeadroomBps r)])
    (fun l => match l with
              | [x0; x1] => x0 ← decode x0; x1 ← decode x1;
                  Some (MkBackpressure x0 x1)
              | _ => None
              end) _).
  intros []. cbv beta iota. by rewrite !decode_encode.
Defined.

#[export] Instance Vouch_eq_dec : EqDecision Vouch.
Proof. solve_decision. Defined.
#[export] Instance Vouch_countable : Countable Vouch.
Proof.
  refine (inj_countable
    (fun r => [encode (K r); encode (Budget r); encode (Period r); encode (Tenure r); encode (AdmitCapPerPeriod r)])
    (fun l => match l with
              | [x0; x1; x2; x3; x4] => x0 ← decode x0; x1 ← decode x1; x2 ← decode x2; x3 ← decode x3; x4 ← decode x4;
                  Some (MkVouch x0 x1 x2 x3 x4)
              | _ => None
              end) _).
  intros []. cbv beta iota. by rewrite !decode_encode.
Defined.

#[export] Instance TierLimit_eq_dec : EqDecision TierLimit.
Proof. solve_decision. Defined.
#[export] Instance TierLimit_countable : Countable TierLimit.
Proof.
  refine (inj_countable
    (fun r => [encode (tl_Trust r); encode (tl_Plan r); encode (SpeedCapBps r); encode (Priority r); encode (EndpointQuality r)])
    (fun l => match l with
              | [x0; x1; x2; x3; x4] => x0 ← decode x0; x1 ← decode x1; x2 ← decode x2; x3 ← decode x3; x4 ← decode x4;
                  Some (MkTierLimit x0 x1 x2 x3 x4)
              | _ => None
              end) _).
  intros []. cbv beta iota. by rewrite !decode_encode.
Defined.

#[export] Instance Policy_eq_dec : EqDecision Policy.
Proof. solve_decision. Defined.
#[export] Instance Policy_countable : Countable Policy.
Proof.
  refine (inj_countable
    (fun r => [encode (p_Version r); encode (Seq r); encode (Issued r); encode (Expires r); encode (Grace r); encode (p_Note r); encode (p_ServeFloor r); encode (p_Backpressure r); encode (p_Vouch r); encode (Tiers r)])
    (fun l => match l with
              | [x0; x1; x2; x3; x4; x5; x6; x7; x8; x9] => x0 ← decode x0; x1 ← decode x1; x2 ← decode x2; x3 ← decode x3; x4 ← decode x4; x5 ← decode x5; x6 ← decode x6; x7 ← decode x7; x8 ← decode x8; x9 ← decode x9;
                  Some (MkPolicy x0 x1 x2 x3 x4 x5 x6 x7 x8 x9)
              | _ => None
              end) _).
  intros []. cbv beta iota. by rewrite !decode_encode.
Defined.

#[export] Instance Bundle_eq_dec : EqDecision Bundle.
Proof. solve_decision. Defined.
#[export] Instance Bundle_countable : Countable Bundle.
Proof.
  refine (inj_countable
    (fun r => [encode (Doc r); encode (b_Cert r)])
    (fun l => match l with
              | [x0; x1] => x0 ← decode x0; x1 ← decode x1;
                  Some (MkBundle x0 x1)
              | _ => None
              end) _).
  intros []. cbv beta iota. by rewrite !decode_encode.
Defined.

Module Demo.
Import Toy.
#[export] Existing Instance toy_json.
#[export] Existing Instance toy_json_laws.

Definition root_key : PrivateKey := "r"%char.
Definition signer_key : PrivateKey := "s"%char.
Definition cert : Cert :=
  MkCert 1 "c1" RolePolicy (Public signer_key) 0 (100 * Hour) "".
Definition policy : Policy :=
  {| p_Version := 1; Seq := 7; Issued := Hour; Expires := 20 * Hour; Grace := Hour; p_Note := "";
     p_ServeFloor := MkServeFloor 1000000 0 "0.2.0";
     p_Backpressure := MkBackpressure 0 0;
     p_Vouch := MkVouch 1 3 (24 * Hour) 0 10;
     Tiers := [MkTierLimit TrustEphemeral "free" 5000000 1 0;
               MkTierLimit TrustStable "paid" 0 4 2] |}.
Definition verifier : Verifier := MkVerifier (Public root_key) (fun _ => false).
Definition bundle : Bundle := publish root_key signer_key cert policy.

Lemma policy_valid : Validate policy = Ok tt.
Proof. vm_compute. reflexivity. Qed.
Lemma bundle_verifies : Verify verifier bundle (2 * Hour) 7 = Ok policy.
Proof. vm_compute. reflexivity. Qed.
End Demo.
Import Toy Demo.

Lemma Validate_Limits_functional_witness :
  Tiers Demo.policy <> [] /\ Forall row_ok (Tiers Demo.policy) /\
  (forall t, t ∈ Tiers Demo.policy -> Limits Demo.policy (tl_Trust t) (tl_Plan t) = Ok t) /\
  (forall trust plan t, Limits Demo.policy trust plan = Ok t ->
     t ∈ Tiers Demo.policy /\ tl_Trust t = trust /\ tl_Plan t = plan).
Proof. apply Validate_Limits_functional. vm_compute. reflexivity. Defined.

Lemma Verify_chain_witness :
  exists cert body,
    delegated (rootPub Demo.verifier) (b_Cert Demo.bundle) RolePolicy (2 * Hour)
      (Some (revoked Demo.verifier)) cert /\
    sealed_by (cert_Pub cert) TagPolicyDoc (Doc Demo.bundle) body /\
    Unmarshal body = Some Demo.policy /\
    Validate Demo.policy = Ok tt /\
    Issued Demo.policy - clockSkew <= 2 * Hour < Deadline Demo.policy /\ 7 <= Seq Demo.policy.
Proof.
  apply (Verify_chain Demo.verifier Demo.bundle (2 * Hour) 7 Demo.policy).
  vm_compute. reflexivity.
Defined.
