(* ===== verification/PolicyGate.v ===== *)
(** * The coordinator's signed-policy loop: [cmd/coordinator/policy.go]

    The gate that decides whether this coordinator may assign new work, the
    fetch-verify-install cycle that feeds it, the retry backoff, and start-up
    from the cached state. *)

From stdpp Require Import relations.
From S2P Require Import Prelude GoStrings Base64 Crypto Version Delegation Policy.
Local Open Scope Z_scope.

Definition policyRefresh : Duration := 10 * Second.
Definition policyBackoffMax : Duration := 2 * Minute.

(** [held] and [ok] of the Go struct: [Some p] is [ok = true] with [held = p]. *)
Record policyGate := MkGate { configured : bool; held : option Policy }.

Definition policyEnabled (g : policyGate) : bool := configured g.
Definition currentPolicy (g : policyGate) : option Policy := held g.
Definition installPolicy (g : policyGate) (p : Policy) : policyGate := MkGate (configured g) (Some p).
Definition clearPolicy (g : policyGate) : policyGate := MkGate (configured g) None.

Definition policyAllowsAssignment (g : policyGate) : bool :=
  if negb (configured g) then true else bool_decide (is_Some (held g)).

(** [servingFloor] is the value of the -min-serving-version flag. *)
Definition policyServingFloor (g : policyGate) (servingFloor : Version.Version) : Version.Version :=
  match currentPolicy g with
  | None => servingFloor
  | Some p => match Version.Parse (MinServingVersion (p_ServeFloor p)) with
              | Ok f => f
              | Err _ => servingFloor
              end
  end.

Definition policyMeasuredFloor (g : policyGate) : Z :=
  match currentPolicy g with
  | None => 0
  | Some p => MinMeasuredBps (p_ServeFloor p)
  end.

Definition policyDeclaredQuotaFloor (g : policyGate) : Z :=
  match currentPolicy g with
  | None => 0
  | Some p => MinDeclaredQuotaBytes (p_ServeFloor p)
  end.

(** [meetsDeclaredQuotaFloor]; the reason text is not modelled. *)
Definition meetsDeclaredQuotaFloor (g : policyGate) (declared : Z) : bool :=
  let floor := policyDeclaredQuotaFloor g in
  if floor =? 0 then true else if declared =? 0 then true else negb (declared <? floor).

(** The doubling loop of [policyBackoffFor]. *)
Fixpoint backoff_loop (d : Duration) (fails : nat) : Duration :=
  match fails with
  | O => d
  | S n => if d <? policyBackoffMax then backoff_loop (wrapi64 (d * 2)) n else d
  end.

Definition policyBackoffFor (fails : Z) : Duration :=
  if fails <=? 0 then policyRefresh
  else Z.min (backoff_loop policyRefresh (Z.to_nat fails)) policyBackoffMax.

Inductive policySource := httpPolicySource (url : string) | filePolicySource (path : string).

Definition newPolicySource (s : string) : policySource :=
  match strip_prefix "http://" s, strip_prefix "https://" s with
  | None, None => filePolicySource s
  | _, _ => httpPolicySource s
  end.

(** ** The process: the gate, the loop's floor and the cache file *)

Record proc := MkProc { gate : policyGate; minSeq : Z; disk : DiskState }.

Inductive StartError := BadRootHex | BadRootLength | NoSource | BadVerifier (e : Delegation.Error).

Section Loop.
Context `{Ed25519} `{JSON Delegation.Cert} `{JSON Policy} `{JSON Bundle} `{RawJSON}.

(** [refreshPolicyOnce]: [fetched] is what the source returned, [None] when the
    fetch failed; [write_ok] says whether a cache write of each kind succeeds. *)
Definition refreshPolicyOnce (v : Verifier) (s : proc) (fetched : option bytes) (now : Time)
    (write_ok : bool -> bool) : proc * bool :=
  let g := match currentPolicy (gate s) with
           | Some h => if negb (Before now (Deadline h)) then clearPolicy (gate s) else gate s
           | None => gate s
           end in
  match fetched with
  | None => (MkProc g (minSeq s) (disk s), false)
  | Some raw =>
      match ParseBundle raw with
      | Err _ => (MkProc g (minSeq s) (disk s), false)
      | Ok bundle =>
          match Verify v bundle now (minSeq s) with
          | Err _ => (MkProc g (minSeq s) (disk s), false)
          | Ok p =>
              let g := installPolicy g p in
              let m := if minSeq s <? Seq p then Seq p else minSeq s in
              let '(d, _) := Store (disk s) raw m write_ok in
              (MkProc g m d, true)
          end
      end
  end.

(** [startPolicy] up to the start of the refresh loop; [None] is the disabled
    coordinator. *)
Definition startPolicy (rootHex source : string) (d : DiskState) (now : Time)
    : result StartError (option (Verifier * policySource * proc)) :=
  if String.eqb rootHex "" then Ok None
  else
    let? root := of_option BadRootHex (hex_DecodeString (TrimSpace rootHex)) in
    check! fail_if (bad_key_length root) BadRootLength;
    check! fail_if (String.eqb source "") NoSource;
    let? v := map_err BadVerifier (NewVerifier root None) in
    let '(m, cached, _) := Load d v now in
    Ok (Some (v, newPolicySource source, MkProc (MkGate true cached) m d)).

(** ** Failing closed *)

(** A refresh leaves no stale policy in force, and tells the truth about
    assignment: after a refresh at [now] of a configured coordinator, work is
    assigned exactly when a policy is held, a held policy is before its deadline at
    [now] and validates, and the refresh reported success exactly when it installed
    a policy that verified against the floor it started with. *)
Theorem refresh_fails_closed v s fetched now w :
  configured (gate s) = true ->
  (forall h, held (gate s) = Some h -> Validate h = Ok tt) ->
  let '(s', ok) := refreshPolicyOnce v s fetched now w in
  configured (gate s') = true /\
  policyAllowsAssignment (gate s') = bool_decide (is_Some (held (gate s'))) /\
  (forall p, held (gate s') = Some p -> Validate p = Ok tt /\ now < Deadline p) /\
  (ok = true <-> exists raw b p, fetched = Some raw /\ ParseBundle raw = Ok b /\
     Verify v b now (minSeq s) = Ok p /\ held (gate s') = Some p).
Proof.
  intros Hc Hval. unfold refreshPolicyOnce, policyAllowsAssignment, currentPolicy, Before.
  set (g := match held (gate s) with Some _ => _ | None => _ end).
  assert (configured g = true /\ forall p, held g = Some p -> Validate p = Ok tt /\ now < Deadline p)
    as [Hg Hh].
  { subst g. destruct (held (gate s)) as [h|] eqn:Hh; [|split; [done|by rewrite Hh]].
    destruct (Z.ltb_spec now (Deadline h)); simpl; [|done].
    split; [done|]. rewrite Hh. intros p [= <-]. auto. }
  destruct fetched as [raw|]; [|simpl; rewrite Hg; split_and!; [done..|split; [done|]];
    intros (? & ? & ? & ? & ? & ? & _); congruence].
  destruct (ParseBundle raw) as [b|e] eqn:Hb; [|simpl; rewrite Hg; split_and!; [done..|split; [done|]];
    intros (? & ? & ? & ? & ? & ? & _); congruence].
  destruct (Verify v b now (minSeq s)) as [p|e] eqn:Hp; [|simpl; rewrite Hg; split_and!; [done..|split; [done|]];
    intros (? & ? & ? & ? & ? & ? & _); congruence].
  destruct (Store _ _ _ _) as [d ?]. simpl. rewrite Hg. apply Verify_Ok_facts in Hp as Hf.
  split_and!; [done|done| |split; [intros _; eauto 8|done]].
  intros q [= <-]. split; [apply Hf|lia].
Qed.
End Loop.

(** ** Backoff *)

Lemma backoff_loop_spec n d :
  0 < d <= 2 * policyBackoffMax ->
  Z.min (backoff_loop d n) policyBackoffMax = Z.min (d * 2 ^ Z.of_nat n) policyBackoffMax.
Proof.
  unfold policyBackoffMax, Minute, Second. revert d.
  induction n as [|n IH]; intros d Hd; cbn [backoff_loop].
  { simpl. lia. }
  rewrite Nat2Z.inj_succ, Z.pow_succ_r by lia.
  assert (0 < 2 ^ Z.of_nat n) by (apply Z.pow_pos_nonneg; lia).
  unfold policyBackoffMax, Minute, Second.
  destruct (Z.ltb_spec d (2 * (60 * 1000000000))).
  - rewrite wrapi64_id by (unfold in_i64, i64min, i64max; lia).
    rewrite IH by lia. f_equal. lia.
  - nia.
Qed.

(** The wait after [n] consecutive failures is the refresh period doubled [n]
    times, capped at two minutes: it never overflows, never shrinks as failures
    accumulate, and never exceeds the cap. *)
Theorem policyBackoffFor_spec (fails : Z) :
  policyBackoffFor fails = Z.min (policyRefresh * 2 ^ Z.max 0 fails) policyBackoffMax.
Proof.
  unfold policyBackoffFor. destruct (Z.leb_spec fails 0).
  - rewrite Z.max_l by done. reflexivity.
  - rewrite backoff_loop_spec by (unfold policyRefresh, policyBackoffMax, Minute, Second; lia).
    by rewrite Z2Nat.id, Z.max_r by lia.
Qed.

(** ** No rollback, across refreshes and restarts *)

Section NoRollback.
Context `{Ed25519} `{JSON Delegation.Cert} `{JSON Policy} `{RawJSONLaws Bundle}.
Context (v : Verifier).

(** A restart rebuilds the gate from the cache file, as [startPolicy] does. *)
Definition restart (s : proc) (now : Time) : proc :=
  let '(m, cached, _) := Load (disk s) v now in MkProc (MkGate true cached) m (disk s).

(** The cache can write these bytes: they are one JSON value and nothing else. *)
Definition storable (fetched : option bytes) : Prop :=
  forall raw, fetched = Some raw -> is_Some (raw_field raw).

Lemma storable_Some raw : bool_decide (is_Some (raw_field raw)) = true -> storable (Some raw).
Proof. intros Hr raw' Heq. injection Heq as <-. by apply bool_decide_eq_true in Hr. Qed.

(** A coordinator's life while its disk works and its source serves JSON values:
    fetches of any such bytes at any time, and restarts at any time. *)
Inductive step : proc -> proc -> Prop :=
| step_refresh s fetched now : storable fetched -> step s (refreshPolicyOnce v s fetched now (fun _ => true)).1
| step_restart s now : step s (restart s now).

Lemma Verify_deterministic b now m p now' m' p' :
  Verify v b now m = Ok p -> Verify v b now' m' = Ok p' -> p = p'.
Proof.
  unfold Verify, VerifyDelegationCert. intros Hp Hp'. inv_result. congruence.
Qed.

(** The cached bundle never carries a sequence number above the cached floor. *)
Definition disk_ok (d : DiskState) : Prop :=
  forall f b now m p, d = Parsed f -> ParseBundle (cf_Bundle f) = Ok b ->
    Verify v b now m = Ok p -> Seq p <= MinSeq f.

Definition consistent (s : proc) : Prop :=
  floor_of (disk s) = minSeq s /\ disk_ok (disk s) /\
  forall p, held (gate s) = Some p -> Seq p <= minSeq s.

Lemma Load_floor d now : (Load d v now).1.1 = floor_of d.
Proof. unfold Load, floor_of, peek. by repeat case_match. Qed.

Lemma Load_cached d now p :
  (Load d v now).1.2 = Some p ->
  exists f b, d = Parsed f /\ ParseBundle (cf_Bundle f) = Ok b /\ Verify v b now (MinSeq f) = Ok p.
Proof.
  unfold Load. destruct d as [| | |f]; try done.
  repeat case_match; try done. simpl. intros [= <-]. eauto 6.
Qed.

Lemma restart_consistent s now :
  disk_ok (disk s) ->
  consistent (restart s now) /\ disk (restart s now) = disk s /\
  minSeq (restart s now) = floor_of (disk s) /\
  forall p, held (gate (restart s now)) = Some p -> floor_of (disk s) <= Seq p.
Proof.
  intros Hd. unfold restart.
  pose proof (Load_floor (disk s) now) as Hf. pose proof (Load_cached (disk s) now) as Hc.
  destruct (Load (disk s) v now) as [[m cached] e]; simpl in *. subst m.
  split_and!; simpl; [|done..|].
  - split_and!; simpl; [done..|].
    intros p (f & b & Hp & Hb & Hv)%Hc. unfold floor_of, peek. rewrite Hp.
    pose proof (Hd f b now (MinSeq f) p Hp Hb Hv). by case_match.
  - intros p (f & b & Hp & Hb & Hv)%Hc. unfold floor_of, peek. rewrite Hp.
    apply Verify_Ok_facts in Hv as (_ & _ & ?). by case_match.
Qed.

Lemma refresh_consistent s fetched now :
  storable fetched -> consistent s ->
  let s' := (refreshPolicyOnce v s fetched now (fun _ => true)).1 in
  consistent s' /\ minSeq s <= minSeq s' /\
  forall p, held (gate s') = Some p -> held (gate s) = Some p \/ minSeq s <= Seq p.
Proof.
  intros Hst (Hf & Hd & Hh). unfold refreshPolicyOnce, currentPolicy.
  set (g := match held (gate s) with Some _ => _ | None => _ end).
  assert (forall p, held g = Some p -> held (gate s) = Some p) as Hg.
  { subst g. destruct (held (gate s)) eqn:Hs; [case_match|]; simpl; congruence. }
  assert (consistent (MkProc g (minSeq s) (disk s))) as Hsame.
  { split_and!; simpl; eauto. }
  destruct fetched as [raw|]; [|simpl; auto 6 with lia].
  destruct (ParseBundle raw) as [b|e] eqn:Hb; [|simpl; auto 6 with lia].
  destruct (Verify v b now (minSeq s)) as [p|e] eqn:Hp; [|simpl; auto 6 with lia].
  pose proof (Verify_Ok_facts _ _ _ _ _ Hp) as (_ & _ & Hseq).
  assert ((if minSeq s <? Seq p then Seq p else minSeq s) = Seq p) as ->.
  { case_match; b2p; lia. }
  unfold Store, writeAtomic. change (peek (disk s)).1 with (floor_of (disk s)).
  destruct (peek (disk s)) as [prev f] eqn:Hpk.
  assert (prev = minSeq s) as -> by (unfold floor_of in Hf; by rewrite Hpk in Hf).
  rewrite (proj2 (Z.ltb_ge (Seq p) _)) by lia.
  destruct (Hst raw eq_refl) as [raw' Hraw]. rewrite Hraw. simpl. split_and!; [|lia|].
  - split_and!; simpl; [done| |intros ? [= <-]; lia].
    intros f' b' n m p' [= <-] Hb' Hp'. simpl in *. unfold ParseBundle in Hb, Hb'.
    rewrite (raw_field_Decode _ _ Hraw), Hb in Hb'. injection Hb' as <-.
    by rewrite (Verify_deterministic _ _ _ _ _ _ _ Hp' Hp).
  - intros ? [= <-]. auto.
Qed.

Lemma step_bound k s s' :
  step s s' -> consistent s -> k <= minSeq s -> (forall p, held (gate s) = Some p -> k <= Seq p) ->
  consistent s' /\ k <= minSeq s' /\ forall p, held (gate s') = Some p -> k <= Seq p.
Proof.
  intros [s0 fetched now Hst|s0 now] Hc Hk Hp.
  - destruct (refresh_consistent s0 fetched now Hst Hc) as (Hc' & Hm & Hi).
    split_and!; [done|lia|]. intros p [?|?]%Hi; [auto|lia].
  - destruct Hc as (Hf & Hd & _). destruct (restart_consistent s0 now Hd) as (Hc' & _ & Hm & Hi).
    split_and!; [done|lia|]. intros p ?%Hi. lia.
Qed.

(** C34: while its disk works and its source serves JSON values, a coordinator never
    goes back to an older policy: over any sequence of fetches (of any such bytes,
    at any times) and restarts, a policy it holds later has a sequence number at least that of every policy it held
    before. *)
Theorem policy_never_rolls_back s s' p p' :
  consistent s -> rtc step s s' ->
  held (gate s) = Some p -> held (gate s') = Some p' -> Seq p <= Seq p'.
Proof.
  intros Hc Hs Hp Hp'.
  assert (forall a b, rtc step a b -> forall k, consistent a -> k <= minSeq a ->
    (forall q, held (gate a) = Some q -> k <= Seq q) ->
    forall q, held (gate b) = Some q -> k <= Seq q) as Hgo.
  { induction 1 as [a|a b c Hab _ IH]; [auto|]. intros k Ha Hk Hq.
    destruct (step_bound k _ _ Hab Ha Hk Hq) as (? & ? & ?). eauto. }
  apply (Hgo s s' Hs (Seq p) Hc); [apply Hc, Hp | congruence || intros q Hq; rewrite Hp in Hq; by injection Hq as -> | done].
Qed.
End NoRollback.

(** ** Witnesses *)

Module GateDemo.
Import Toy Policy.Demo.

Definition newer : Policy :=
  {| p_Version := 1; Seq := 9; Issued := 2 * Hour; Expires := 30 * Hour; Grace := Hour; p_Note := "";
     p_ServeFloor := p_ServeFloor policy; p_Backpressure := p_Backpressure policy;
     p_Vouch := p_Vouch policy; Tiers := Tiers policy |}.
Definition raw7 : bytes := Marshal bundle.
Definition raw9 : bytes := Marshal (publish root_key signer_key cert newer).
Definition fresh : proc := MkProc (MkGate true None) 0 Absent.
Definition s7 : proc := (refreshPolicyOnce verifier fresh (Some raw7) (3 * Hour) (fun _ => true)).1.
Definition s9 : proc := (refreshPolicyOnce verifier s7 (Some raw9) (4 * Hour) (fun _ => true)).1.
Definition s_back : proc := (refreshPolicyOnce verifier s9 (Some raw7) (5 * Hour) (fun _ => true)).1.

Lemma fresh_consistent : consistent verifier fresh.
Proof. by split_and!. Qed.
Lemma raw7_storable : storable (Some raw7).
Proof. apply storable_Some. vm_compute. reflexivity. Qed.
Lemma raw9_storable : storable (Some raw9).
Proof. apply storable_Some. vm_compute. reflexivity. Qed.
#[export] Existing Instance toy_raw_laws.
Lemma s7_consistent : consistent verifier s7.
Proof.
  exact (proj1 (refresh_consistent verifier fresh (Some raw7) (3 * Hour) raw7_storable fresh_consistent)).
Qed.

(** A valid bundle followed by one stray byte: [ParseBundle] reads it, the cache
    cannot write it. *)
Definition raw9_trailing : bytes := raw9 ++ ["x"%char].
Definition s9_unsaved : proc :=
  (refreshPolicyOnce verifier s7 (Some raw9_trailing) (4 * Hour) (fun _ => true)).1.
Definition s_rolled_back : proc :=
  (refreshPolicyOnce verifier (restart verifier s9_unsaved (5 * Hour)) (Some raw7) (5 * Hour)
     (fun _ => true)).1.
End GateDemo.
Import Toy Policy.Demo GateDemo.

Lemma refresh_fails_closed_witness :
  let '(s', ok) := refreshPolicyOnce verifier fresh (Some raw7) (3 * Hour) (fun _ => true) in
  configured (gate s') = true /\
  policyAllowsAssignment (gate s') = bool_decide (is_Some (held (gate s'))) /\
  (forall p, held (gate s') = Some p -> Validate p = Ok tt /\ 3 * Hour < Deadline p) /\
  (ok = true <-> exists raw b p, Some raw7 = Some raw /\ ParseBundle raw = Ok b /\
     Verify verifier b (3 * Hour) (minSeq fresh) = Ok p /\ held (gate s') = Some p).
Proof. apply refresh_fails_closed; [reflexivity | intros h Hh; discriminate Hh]. Defined.

Lemma policy_never_rolls_back_witness :
  held (gate s7) = Some policy /\ held (gate (restart verifier s_back (6 * Hour))) = Some newer /\
  Seq policy <= Seq newer.
Proof.
  assert (held (gate s7) = Some policy) as Hp by (vm_compute; reflexivity).
  assert (held (gate (restart verifier s_back (6 * Hour))) = Some newer) as Hn
    by (vm_compute; reflexivity).
  split_and!; [exact Hp | exact Hn |].
  apply (policy_never_rolls_back verifier s7 (restart verifier s_back (6 * Hour))); [|..|exact Hp|exact Hn].
  - exact s7_consistent.
  - refine (rtc_l _ s7 s9 _ (step_refresh verifier s7 (Some raw9) (4 * Hour) raw9_storable) _).
    refine (rtc_l _ s9 s_back _ (step_refresh verifier s9 (Some raw7) (5 * Hour) raw7_storable) _).
    exact (rtc_once _ _ (step_restart verifier s_back (6 * Hour))).
Defined.

(** Without the restriction to single JSON values the floor can be lost: a source
    that appends one byte to a valid bundle gets the new policy enforced and its
    floor not recorded, and after a restart the older policy is accepted again. *)
Example trailing_bytes_lose_floor :
  held (gate s9_unsaved) = Some newer /\ held (gate s_rolled_back) = Some policy /\
  Seq policy < Seq newer.
Proof. vm_compute. split_and!; reflexivity. Qed.
