(* ===== verification/Net.v ===== *)
(** * Addresses: what the coordinator uses of Go's [net]

    [net.IP] is a byte slice of length 0, 4 or 16; [net.UDPAddr] prints itself as
    [host:port]. [ParseIP] and [SplitHostPort] follow the Standard Library's parsers. *)

From S2P Require Import Prelude GoStrings Base64.

Abbreviation IP := (list ascii) (only parsing).

Definition v4InV6Prefix : bytes := repeat Ascii.zero 10 ++ [byte_of 255; byte_of 255].

(** [IP.To4] *)
Definition To4 (ip : IP) : option IP :=
  if (List.length ip =? 4)%nat then Some ip
  else if (List.length ip =? 16)%nat && bool_decide (firstn 12 ip = v4InV6Prefix)
  then Some (skipn 12 ip) else None.

(** [IP.Equal]: an IPv4 address and its mapped form are equal. *)
Definition IP_Equal (ip x : IP) : bool :=
  if (List.length ip =? List.length x)%nat then bool_decide (ip = x)
  else if (List.length ip =? 4)%nat && (List.length x =? 16)%nat
  then bool_decide (firstn 12 x = v4InV6Prefix) && bool_decide (ip = skipn 12 x)
  else if (List.length ip =? 16)%nat && (List.length x =? 4)%nat
  then bool_decide (firstn 12 ip = v4InV6Prefix) && bool_decide (skipn 12 ip = x)
  else false.

(** ** Printing *)

Definition hex_digit (z : Z) : ascii := byte_of (if z <? 10 then 48 + z else 87 + z).

(** A 16-bit group without leading zeros. *)
Definition appendHex (x : Z) : bytes :=
  (if 4096 <=? x then [hex_digit (x / 4096)] else []) ++
  (if 256 <=? x then [hex_digit (x / 256 mod 16)] else []) ++
  (if 16 <=? x then [hex_digit (x / 16 mod 16)] else []) ++
  [hex_digit (x mod 16)].

(** The eight groups of a 16-byte address. *)
Fixpoint groups (ip : IP) : list Z :=
  match ip with
  | a :: b :: ip' => octet a * 256 + octet b :: groups ip'
  | _ => []
  end.

Fixpoint zero_prefix (gs : list Z) : nat :=
  match gs with 0 :: gs' => S (zero_prefix gs') | _ => O end.

(** The first longest run of at least two zero groups: [(start, end)]. *)
Fixpoint zero_run (gs : list Z) (i : nat) (best : option (nat * nat)) : option (nat * nat) :=
  match gs with
  | [] => best
  | _ :: gs' =>
      let l := zero_prefix gs in
      let best' :=
        if (2 <=? l)%nat && (match best with Some (a, b) => b - a | None => 0 end <? l)%nat
        then Some (i, (i + l)%nat) else best in
      zero_run gs' (S i) best'
  end.

Definition colon : ascii := ":".

Fixpoint join_groups (gs : list Z) : bytes :=
  match gs with
  | [] => []
  | [g] => appendHex g
  | g :: gs' => appendHex g ++ colon :: join_groups gs'
  end.

Definition string6 (ip : IP) : bytes :=
  let gs := groups ip in
  match zero_run gs 0 None with
  | None => join_groups gs
  | Some (a, b) => join_groups (firstn a gs) ++ [colon; colon] ++ join_groups (skipn b gs)
  end.

Definition dot : ascii := ".".
Fixpoint string4 (ip : IP) : bytes :=
  match ip with
  | [] => []
  | [a] => bytes_of (Itoa (octet a))
  | a :: ip' => bytes_of (Itoa (octet a)) ++ dot :: string4 ip'
  end.

(** [ipEmptyString], for the lengths an address has: [""] for no address. *)
Definition ip_String (ip : IP) : bytes :=
  match To4 ip with
  | Some v4 => string4 v4
  | None => if (List.length ip =? 16)%nat then string6 ip else []
  end.

Definition JoinHostPort (host port : bytes) : bytes :=
  if bool_decide (colon ∈ host) then "["%char :: host ++ "]"%char :: colon :: port
  else host ++ colon :: port.

Record UDPAddr := MkUDPAddr { addr_IP : IP; addr_Port : Z; addr_Zone : string }.

#[export] Instance UDPAddr_eq_dec : EqDecision UDPAddr.
Proof. solve_decision. Defined.

Definition UDPAddr_String (a : UDPAddr) : string :=
  let ip := ip_String (addr_IP a) in
  let host := if String.eqb (addr_Zone a) "" then ip else ip ++ "%"%char :: bytes_of (addr_Zone a) in
  string_of (JoinHostPort host (bytes_of (Itoa (addr_Port a)))).

(** ** Parsing *)

Definition parse_octet (s : string) : option Z :=
  match s with
  | "" => None
  | String "0" (String _ _) => None
  | _ => z ← parse_digits s; if 255 <? z then None else Some z
  end.

Definition parseIPv4Fields (s : string) : option IP :=
  let parts := Split "." s in
  if negb (List.length parts =? 4)%nat then None
  else mapM (fun p => byte_of <$> parse_octet p) parts.

(** The hex number at the head: its value, its digits and the rest. *)
Fixpoint scan_hex (s : bytes) (acc : Z) (off : nat) : Z * nat * bytes :=
  match s with
  | c :: s' => match hex_value c with
               | Some d => scan_hex s' (acc * 16 + d) (S off)
               | None => (acc, off, s)
               end
  | [] => (acc, off, s)
  end.

(** The loop of [parseIPv6]: [ip] is what is parsed so far and [ellipsis] where a
    double colon was; one round takes a group, so eight rounds are all there are. *)
Fixpoint parse_groups (fuel : nat) (s : bytes) (ip : bytes) (ellipsis : option nat)
    : option (bytes * bytes * option nat) :=
  match fuel with
  | O => Some (s, ip, ellipsis)
  | S fuel =>
      let i := List.length ip in
      let '(acc, off, rest) := scan_hex s 0 0 in
      if (off =? 0)%nat || (4 <? off)%nat then None
      else match rest with
           | "."%char :: _ =>
               if bool_decide (ellipsis = None) && negb (i =? 12)%nat then None
               else if (12 <? i)%nat then None
               else v4 ← parseIPv4Fields (string_of s); Some ([], ip ++ v4, ellipsis)
           | _ =>
               let ip := ip ++ [byte_of (acc / 256); byte_of acc] in
               match rest with
               | [] => Some ([], ip, ellipsis)
               | c :: rest =>
                   if negb (bool_decide (c = colon)) || bool_decide (rest = []) then None
                   else match rest with
                        | ":"%char :: rest =>
                            if bool_decide (is_Some ellipsis) then None
                            else if bool_decide (rest = []) then Some ([], ip, Some (List.length ip))
                            else parse_groups fuel rest ip (Some (List.length ip))
                        | _ => parse_groups fuel rest ip ellipsis
                        end
               end
           end
  end.

Definition parseIPv6 (s : bytes) : option IP :=
  let start := match s with
               | ":"%char :: ":"%char :: s' => (s', Some O)
               | _ => (s, None)
               end in
  match start with
  | ([], Some _) => Some (repeat Ascii.zero 16)
  | (s, ellipsis) =>
      '(s, ip, ellipsis) ← parse_groups 8 s [] ellipsis;
      if negb (bool_decide (s = [])) then None
      else if (List.length ip <? 16)%nat then
        match ellipsis with
        | None => None
        | Some e => Some (firstn e ip ++ repeat Ascii.zero (16 - List.length ip) ++ skipn e ip)
        end
      else if bool_decide (is_Some ellipsis) then None else Some ip
  end.

(** [ParseIP]: an address with a zone is none; IPv4 comes in its mapped form. *)
Definition ParseIP (s : string) : option IP :=
  if bool_decide ("%"%char ∈ bytes_of s) then None
  else match List.find (fun c => bool_decide (c = dot) || bool_decide (c = colon)) (bytes_of s) with
       | Some "."%char => v4 ← parseIPv4Fields s; Some (v4InV6Prefix ++ v4)
       | Some _ => parseIPv6 (bytes_of s)
       | None => None
       end.

(** The position of a byte from the left and from the right. *)
Fixpoint index_byte (c : ascii) (s : bytes) : option nat :=
  match s with
  | [] => None
  | d :: s' => if bool_decide (d = c) then Some O else S <$> index_byte c s'
  end.
Definition last_index_byte (c : ascii) (s : bytes) : option nat :=
  i ← index_byte c (rev s); Some (List.length s - 1 - i)%nat.

(** [SplitHostPort]; only the host is used. *)
Definition SplitHostPort (hostport : string) : option (string * string) :=
  let s := bytes_of hostport in
  i ← last_index_byte colon s;
  '(host, j, k) ←
    (match s with
     | "["%char :: _ =>
         e ← index_byte "]" s;
         if (S e =? List.length s)%nat then None
         else if (S e =? i)%nat then Some (firstn (e - 1) (skipn 1 s), 1%nat, S e)
         else None
     | _ => let host := firstn i s in
            if bool_decide (colon ∈ host) then None else Some (host, O, O)
     end);
  if bool_decide ("["%char ∈ skipn j s) then None
  else if bool_decide ("]"%char ∈ skipn k s) then None
  else Some (string_of host, string_of (skipn (S i) s)).

(** ** The text of an address has no NUL byte *)

Definition no_nul (b : bytes) : Prop := Forall (fun c => c <> Ascii.zero) b.

Lemma no_nul_Itoa z : no_nul (bytes_of (Itoa z)).
Proof.
  pose proof (free_of_Itoa Ascii.zero z eq_refl) as Hf. revert Hf. generalize (Itoa z). intros s.
  induction s as [|d s IH]; simpl; [constructor|]. intros Hf. apply andb_prop in Hf as [Hd Hs].
  constructor; [|by apply IH]. intros ->. by rewrite Ascii.eqb_refl in Hd.
Qed.

Lemma no_nul_hex_digit z : 0 <= z < 16 -> hex_digit z <> Ascii.zero.
Proof.
  intros Hz Heq. apply (f_equal octet) in Heq. unfold hex_digit in Heq. rewrite octet_byte_of in Heq.
  change (octet Ascii.zero) with 0 in Heq. destruct (Z.ltb_spec z 10); rewrite Z.mod_small in Heq; lia.
Qed.

Lemma no_nul_appendHex x : 0 <= x < 65536 -> no_nul (appendHex x).
Proof.
  intros Hx. unfold appendHex, no_nul. rewrite !Forall_app.
  split_and!; repeat case_match; rewrite ?Forall_cons, ?Forall_nil; split_and?; try done;
    apply no_nul_hex_digit; (apply Z.mod_pos_bound; lia) || b2p.
  split; [apply Z.div_pos; lia|apply Z.div_lt_upper_bound; lia].
Qed.

Lemma groups_range ip : Forall (fun g => 0 <= g < 65536) (groups ip).
Proof.
  assert (forall n ip, (List.length ip <= n)%nat -> Forall (fun g => 0 <= g < 65536) (groups ip)) as Hgo;
    [|by eapply Hgo].
  clear ip. induction n as [|n IH]; intros [|a [|b ip]] Hl; simpl in *; try by constructor.
  { lia. }
  constructor; [|apply IH; lia].
  pose proof (octet_range a). pose proof (octet_range b). lia.
Qed.

Lemma no_nul_join gs : Forall (fun g => 0 <= g < 65536) gs -> no_nul (join_groups gs).
Proof.
  induction 1 as [|g gs Hg Hgs IH]; [constructor|]. destruct gs as [|g' gs]; [by apply no_nul_appendHex|].
  unfold no_nul. cbn [join_groups]. rewrite Forall_app, Forall_cons.
  split_and!; [by apply no_nul_appendHex|done|exact IH].
Qed.

Lemma no_nul_string4 ip : no_nul (string4 ip).
Proof.
  induction ip as [|a ip IH]; [constructor|]. destruct ip as [|b ip]; [apply no_nul_Itoa|].
  unfold no_nul. cbn [string4]. rewrite Forall_app, Forall_cons. split_and!; [apply no_nul_Itoa|done|exact IH].
Qed.

Lemma no_nul_ip_String ip : no_nul (ip_String ip).
Proof.
  unfold ip_String. destruct (To4 ip); [apply no_nul_string4|]. case_match; [|constructor].
  unfold string6. pose proof (groups_range ip) as Hg. case_match; [case_match|by apply no_nul_join].
  unfold no_nul. rewrite !Forall_app. split_and!.
  - by apply no_nul_join, Forall_take.
  - by repeat constructor.
  - by apply no_nul_join, Forall_drop.
Qed.

Lemma UDPAddr_String_no_nul a : no_nul (bytes_of (addr_Zone a)) -> no_nul (bytes_of (UDPAddr_String a)).
Proof.
  intros Hz. unfold UDPAddr_String. rewrite bytes_of_string_of. unfold JoinHostPort.
  set (host := if String.eqb _ _ then _ else _).
  assert (no_nul host) as Hh.
  { subst host. pose proof (no_nul_ip_String (addr_IP a)). case_match; [done|].
    unfold no_nul. by rewrite Forall_app, Forall_cons. }
  pose proof (no_nul_Itoa (addr_Port a)). unfold no_nul in *.
  case_match; rewrite ?Forall_cons, Forall_app, ?Forall_cons; by split_and!.
Qed.

(** An IPv4 address parses back from its text, in its mapped form. *)
Lemma parse_octet_Itoa z : 0 <= z <= 255 -> parse_octet (Itoa z) = Some z.
Proof.
  intros Hz. assert (Forall (fun z => parse_octet (Itoa z) = Some z) (seqZ 0 256)) as Hall.
  { apply (bool_decide_unpack _). vm_compute. exact I. }
  rewrite Forall_forall in Hall. apply Hall, elem_of_seqZ. lia.
Qed.
