(* ===== verification/FileSys.v ===== *)
(** * Files, faults and crashes; [core/atomicfile]

    The part of [os] and [path/filepath] the code uses: a disk maps paths to
    contents, and a program is a tree of system calls. A run gives every call a
    fate: reads and writes may fail, a failing write may leave a prefix, and a run
    whose fates end before the program does is a process that was killed there.
    Statements about all lists of fates are therefore about every fault and every
    crash point. File modes, directories as such, and what a power loss does to an
    unsynced one are left out. [Write], [WriteDurable] and [fill] are [core/atomicfile]. *)

From S2P Require Import Prelude GoStrings.

(** ** [path/filepath] on Unix *)

Definition slash : ascii := "/"%char.

Fixpoint join_with (sep : string) (l : list string) : string :=
  match l with
  | [] => ""
  | [x] => x
  | x :: l' => x +:+ sep +:+ join_with sep l'
  end.

(** The components kept so far, last first. *)
Fixpoint clean_components (rooted : bool) (stack : list string) (cs : list string) : list string :=
  match cs with
  | [] => rev stack
  | c :: cs' =>
      if String.eqb c "" || String.eqb c "." then clean_components rooted stack cs'
      else if String.eqb c ".." then
        match stack with
        | top :: rest =>
            if String.eqb top ".." then clean_components rooted (c :: stack) cs'
            else clean_components rooted rest cs'
        | [] => clean_components rooted (if rooted then [] else [c]) cs'
        end
      else clean_components rooted (c :: stack) cs'
  end.

Definition is_rooted (p : string) : bool :=
  match p with String c _ => Ascii.eqb c slash | "" => false end.

Definition Clean (p : string) : string :=
  let body := join_with "/" (clean_components (is_rooted p) [] (Split slash p)) in
  if is_rooted p then "/" +:+ body else if String.eqb body "" then "." else body.

(** [path[:i+1]] for the last slash [i]. *)
Definition up_to_slash (p : string) : string :=
  match rev (Split slash p) with
  | [] | [_] => ""
  | _ :: front => join_with "/" (rev front) +:+ "/"
  end.
Definition Dir (p : string) : string := Clean (up_to_slash p).

Fixpoint drop_empty (l : list string) : list string :=
  match l with "" :: l' => drop_empty l' | _ => l end.

(** Trailing slashes stripped, then what follows the last one. *)
Definition Base (p : string) : string :=
  if String.eqb p "" then "."
  else match drop_empty (rev (Split slash p)) with [] => "/" | c :: _ => c end.

Fixpoint Join (elems : list string) : string :=
  match elems with
  | [] => ""
  | "" :: rest => Join rest
  | _ => Clean (join_with "/" elems)
  end.

(** What follows the last slash. *)
Definition last_component (p : string) : string :=
  match rev (Split slash p) with c :: _ => c | [] => "" end.

(** The names the code gives its scratch files start with a dot. *)
Definition dotted (s : string) : bool :=
  match s with String c _ => Ascii.eqb c "." | "" => false end.
Definition hidden (p : string) : bool := dotted (last_component p).

Fixpoint ends_with_slash (p : string) : bool :=
  match p with
  | "" => false
  | String c "" => Ascii.eqb c slash
  | String _ p' => ends_with_slash p'
  end.

(** [os.CreateTemp(dir, prefix)]: the random number follows the prefix, which may
    not have a separator; a name that exists is not used. *)
Definition temp_name (dir prefix : string) (pick : Z) : string :=
  (if ends_with_slash dir then dir else dir +:+ "/") +:+ prefix +:+ Itoa pick.

(** ** The disk and its calls *)

Abbreviation Disk := (gmap string (list ascii)) (only parsing).

Inductive IOErr := ErrNotExist | EIO.

(** What a reader gives: the bytes, then the end or an error. *)
Record Stream := MkStream { data : bytes; read_err : bool; close_err : bool }.

Inductive op : Type -> Type :=
| ReadFile (p : string) : op (result IOErr bytes)
| Open (p : string) : op (result IOErr Stream)
| Stat (p : string) : op (result IOErr unit)
| Rename (p q : string) : op (result IOErr unit)
| Remove (p : string) : op (result IOErr unit)
| CreateTemp (dir prefix : string) : op (result IOErr string)
| Append (p : string) (b : bytes) : op (result IOErr unit)
| Chmod (p : string) : op (result IOErr unit)
| Sync (p : string) : op (result IOErr unit)
| Close (p : string) : op (result IOErr unit)
| SyncDir (dir : string) : op (result IOErr unit)
| MkdirAll (dir : string) : op (result IOErr unit)
| CreateExcl (p : string) : op (result IOErr unit).

(** [read_fault] fails a reading call (an [Open]ed file after that many bytes),
    [write_fault] any other; [pick] is the random number of [CreateTemp]. *)
Record Fate := MkFate { read_fault : option nat; write_fault : option nat; pick : Z }.

Definition reading {A} (f : Fate) (d : Disk) (p : string) (k : bytes -> A) : result IOErr A :=
  match read_fault f, d !! p with
  | Some _, _ => Err EIO
  | None, None => Err ErrNotExist
  | None, Some b => Ok (k b)
  end.

Definition guarded (f : Fate) : result IOErr unit :=
  match write_fault f with Some _ => Err EIO | None => Ok tt end.

Definition exec {R} (o : op R) (f : Fate) (d : Disk) : Disk * R :=
  match o with
  | ReadFile p => (d, reading f d p id)
  | Open p =>
      (d, match read_fault f, d !! p with
          | Some (S n), Some b => Ok (MkStream (firstn n b) true false)
          | _, _ => reading f d p (fun b => MkStream b false false)
          end)
  | Stat p => (d, reading f d p (fun _ => tt))
  | Rename p q =>
      match write_fault f, d !! p with
      | Some _, _ => (d, Err EIO)
      | None, None => (d, Err ErrNotExist)
      | None, Some b => (<[q := b]> (delete p d), Ok tt)
      end
  | Remove p =>
      match write_fault f, d !! p with
      | Some _, _ => (d, Err EIO)
      | None, None => (d, Err ErrNotExist)
      | None, Some _ => (delete p d, Ok tt)
      end
  | CreateTemp dir prefix =>
      let t := temp_name dir prefix (pick f) in
      match write_fault f, free_of slash prefix, d !! t with
      | None, true, None => (<[t := []]> d, Ok t)
      | _, _, _ => (d, Err EIO)
      end
  | CreateExcl p =>
      match write_fault f, d !! p with
      | None, None => (<[p := []]> d, Ok tt)
      | _, _ => (d, Err EIO)
      end
  | Append p b =>
      match write_fault f, d !! p with
      | Some n, Some old => (<[p := old ++ firstn n b]> d, Err EIO)
      | None, Some old => (<[p := old ++ b]> d, Ok tt)
      | _, None => (d, Err EIO)
      end
  | Chmod _ | Sync _ | Close _ | SyncDir _ | MkdirAll _ => (d, guarded f)
  end.

(** ** Programs *)

Inductive prog (A : Type) : Type :=
| Ret (a : A)
| Vis {R : Type} (o : op R) (k : R -> prog A).
Arguments Ret {A} a.
Arguments Vis {A R} o k.

Fixpoint pbind {A B} (m : prog A) (k : A -> prog B) : prog B :=
  match m with
  | Ret a => k a
  | Vis o g => Vis o (fun r => pbind (g r) k)
  end.

Definition call {R} (o : op R) : prog R := Vis o Ret.

(** The early return of a Go error. *)
Definition ptry {E A B} (m : prog (result E A)) (k : A -> prog (result E B)) : prog (result E B) :=
  pbind m (fun r => match r with Ok a => k a | Err e => Ret (Err e) end).

Declare Scope prog_scope.
Delimit Scope prog_scope with prog.
Notation "'run!' x := m 'in' k" := (pbind m (fun x => k))
  (at level 10, x pattern, m at level 100, k at level 200) : prog_scope.
Notation "'try!' x := m 'in' k" := (ptry m (fun x => k))
  (at level 10, x pattern, m at level 100, k at level 200) : prog_scope.
#[global] Open Scope prog_scope.

Definition fails_as {E F A} (e : E -> F) (m : prog (result E A)) : prog (result F A) :=
  run! r := m in Ret (map_err e r).

(** A run: the disk it ends with, its result unless it was killed, and the fates
    it did not use. *)
Fixpoint run {A} (m : prog A) (fs : list Fate) (d : Disk) : Disk * option A * list Fate :=
  match m with
  | Ret a => (d, Some a, fs)
  | Vis o k =>
      match fs with
      | [] => (d, None, [])
      | f :: fs' => let '(d', r) := exec o f d in run (k r) fs' d'
      end
  end.

Definition disk_after {A} (m : prog A) (fs : list Fate) (d : Disk) : Disk := (run m fs d).1.1.

(** ** [core/atomicfile] *)

Definition fill (f : string) (b : bytes) : prog (result IOErr unit) :=
  try! _ := call (Append f b) in
  try! _ := call (Chmod f) in
  call (Sync f).

Definition Write (path : string) (b : bytes) : prog (result IOErr unit) :=
  try! staged := call (CreateTemp (Dir path) ("." +:+ Base path +:+ ".tmp")) in
  run! res :=
    (run! filled := fill staged b in
     match filled with
     | Err e => run! _ := call (Close staged) in Ret (Err e)
     | Ok _ =>
         try! _ := call (Close staged) in
         call (Rename staged path)
     end) in
  run! _ := call (Remove staged) in
  Ret res.

Definition WriteDurable (path : string) (b : bytes) : prog (result IOErr unit) :=
  try! _ := Write path b in
  call (SyncDir (Dir path)).

(** ** Reasoning about every fate: a weakest precondition with a crash condition

    [ok] says which fates a call may have. [wp ok m C Q d]: started on [d], the
    program returns only into [Q] and every disk at which it may be killed
    satisfies [C]. *)

Definition Env : Type := forall R, op R -> Fate -> Disk -> Prop.

(** Anything may fail; no read fails; nothing fails, and the random names are free. *)
Definition any_fate : Env := fun _ _ _ _ => True.
Definition quiet_reads : Env := fun _ _ f _ => read_fault f = None.
Definition free_name {R} (o : op R) (f : Fate) (d : Disk) : Prop :=
  match o with CreateTemp dir prefix => d !! temp_name dir prefix (pick f) = None | _ => True end.
Definition calm : Env := fun _ o f d => read_fault f = None /\ write_fault f = None /\ free_name o f d.

(** The fates a run uses are all allowed. *)
Fixpoint allowed (ok : Env) {A} (m : prog A) (fs : list Fate) (d : Disk) : Prop :=
  match m, fs with
  | Vis o k, f :: fs' => ok _ o f d /\ allowed ok (k (exec o f d).2) fs' (exec o f d).1
  | _, _ => True
  end.

Lemma allowed_any {A} (m : prog A) fs d : allowed any_fate m fs d.
Proof. revert fs d. induction m as [a|R o k IH]; intros [|f fs] d; simpl; auto. by split. Qed.

Lemma allowed_quiet {A} (m : prog A) fs d :
  Forall (fun f => read_fault f = None) fs -> allowed quiet_reads m fs d.
Proof.
  revert fs d. induction m as [a|R o k IH]; intros [|f fs] d; simpl; auto.
  intros [Hf Hfs]%Forall_cons. split; [done|]. by apply IH.
Qed.

Lemma run_bind {A B} (m : prog A) (k : A -> prog B) fs dk :
  run (pbind m k) fs dk =
    match run m fs dk with
    | (dk', Some a, fs') => run (k a) fs' dk'
    | (dk', None, fs') => (dk', None, fs')
    end.
Proof.
  revert fs dk. induction m as [a|R o g IH]; intros fs dk; simpl; [done|].
  destruct fs as [|f fs]; [done|]. destruct (exec o f dk) as [dk' r]. apply IH.
Qed.

Lemma run_pbind_inv {A B} (m : prog A) (k : A -> prog B) fs d d' b fs' :
  run (pbind m k) fs d = (d', Some b, fs') ->
  exists a d1 fs1, run m fs d = (d1, Some a, fs1) /\ run (k a) fs1 d1 = (d', Some b, fs').
Proof.
  rewrite run_bind. destruct (run m fs d) as [[d1 [a|]] fs1]; [|done]. intros Hk. by exists a, d1, fs1.
Qed.

Lemma run_ptry_inv {E A B} (m : prog (result E A)) (k : A -> prog (result E B)) fs d d' b fs' :
  run (ptry m k) fs d = (d', Some (Ok b), fs') ->
  exists a d1 fs1, run m fs d = (d1, Some (Ok a), fs1) /\ run (k a) fs1 d1 = (d', Some (Ok b), fs').
Proof.
  intros (r & d1 & fs1 & Hm & Hk)%run_pbind_inv. destruct r as [a|e]; [|done]. by exists a, d1, fs1.
Qed.

Lemma run_fails_as_inv {E F A} (g : E -> F) (m : prog (result E A)) fs d d' a fs' :
  run (fails_as g m) fs d = (d', Some (Ok a), fs') -> run m fs d = (d', Some (Ok a), fs').
Proof.
  intros (r & d1 & fs1 & Hm & Hk)%run_pbind_inv. injection Hk as -> Hr ->. rewrite Hm. by destruct r; [injection Hr as ->|].
Qed.

Section WP.
Context (ok : Env).

Definition rfail : Prop := exists R (o : op R) f d, ok R o f d /\ read_fault f <> None.
Definition wfail : Prop :=
  exists R (o : op R) f d, ok R o f d /\ (write_fault f <> None \/ ~ free_name o f d).

Fixpoint wp {A} (m : prog A) (C : Disk -> Prop) (Q : A -> Disk -> Prop) (d : Disk) : Prop :=
  match m with
  | Ret a => Q a d
  | Vis o k => C d /\ forall f, ok _ o f d -> wp (k (exec o f d).2) C Q (exec o f d).1
  end.

Lemma wp_run {A} (m : prog A) C Q d fs :
  wp m C Q d -> allowed ok m fs d ->
  match run m fs d with
  | (d', Some a, _) => Q a d'
  | (d', None, _) => C d'
  end.
Proof.
  revert fs d. induction m as [a|R o k IH]; intros fs d; simpl; [done|].
  intros [HC Hk] Hfs. destruct fs as [|f fs]; simpl; [done|].
  destruct Hfs as [Hf Hfs]. specialize (Hk f Hf).
  destruct (exec o f d) as [d' r] eqn:He. simpl in *. by apply IH.
Qed.

Lemma wp_mono {A} (m : prog A) (C C' : Disk -> Prop) (Q Q' : A -> Disk -> Prop) d :
  wp m C Q d -> (forall d, C d -> C' d) -> (forall a d, Q a d -> Q' a d) -> wp m C' Q' d.
Proof.
  revert d. induction m as [a|R o k IH]; intros d Hw HC HQ; simpl in *; [auto|].
  destruct Hw as [Hd Hk]. split; [auto|]. intros f Hf. by apply IH; [apply Hk| |].
Qed.

Lemma wp_bind {A B} (m : prog A) (k : A -> prog B) C Q d :
  wp m C (fun a d => wp (k a) C Q d) d -> wp (pbind m k) C Q d.
Proof.
  revert d. induction m as [a|R o g IH]; intros d; simpl; [done|].
  intros [HC Hk]. split; [done|]. intros f Hf. by apply IH, Hk.
Qed.

Lemma wp_try {E A B} (m : prog (result E A)) (k : A -> prog (result E B)) C Q d :
  wp m C (fun r d => match r with Ok a => wp (k a) C Q d | Err e => Q (Err e) d end) d ->
  wp (ptry m k) C Q d.
Proof. intros H. apply wp_bind. eapply wp_mono; [exact H|done|]. by intros [a|e] d'. Qed.

Lemma wp_fails_as {E F A} (g : E -> F) (m : prog (result E A)) C Q d :
  wp m C (fun r d => Q (map_err g r) d) d -> wp (fails_as g m) C Q d.
Proof. intros H. by apply wp_bind. Qed.

Lemma wp_call {R} (o : op R) C Q d :
  C d -> (forall f, ok R o f d -> Q (exec o f d).2 (exec o f d).1) -> wp (call o) C Q d.
Proof. by split. Qed.

Lemma rfail_intro {R} (o : op R) f d n : ok R o f d -> read_fault f = Some n -> rfail.
Proof. intros Ho Hf. exists R, o, f, d. by rewrite Hf. Qed.
Lemma wfail_intro {R} (o : op R) f d n : ok R o f d -> write_fault f = Some n -> wfail.
Proof. intros Ho Hf. exists R, o, f, d. rewrite Hf. by split; [|left]. Qed.
Hint Resolve rfail_intro wfail_intro : core.

(** The calls: each error case is there only when the environment has it. *)

Lemma wp_ReadFile p C Q d :
  C d -> (rfail -> Q (Err EIO) d) ->
  (d !! p = None -> Q (Err ErrNotExist) d) -> (forall b, d !! p = Some b -> Q (Ok b) d) ->
  wp (call (ReadFile p)) C Q d.
Proof.
  intros HC H1 H2 H3. apply wp_call; [done|]. intros f Hf. simpl. unfold reading.
  destruct (read_fault f) eqn:Hr; [by eauto|]. destruct (d !! p) eqn:Hp; auto.
Qed.

Lemma wp_Open p C (Q : result IOErr Stream -> Disk -> Prop) d :
  C d -> (rfail \/ d !! p = None -> forall e, Q (Err e) d) ->
  (forall b s, d !! p = Some b ->
     s = MkStream b false false \/ (rfail /\ read_err s = true) -> Q (Ok s) d) ->
  wp (call (Open p)) C Q d.
Proof.
  intros HC H1 H2. apply wp_call; [done|]. intros f Hf. simpl. unfold reading.
  destruct (read_fault f) as [[|n]|] eqn:Hr, (d !! p) as [b|] eqn:Hp; eauto 10.
Qed.

Lemma wp_Stat p C Q d :
  C d -> (rfail -> Q (Err EIO) d) -> (d !! p = None -> Q (Err ErrNotExist) d) ->
  (is_Some (d !! p) -> Q (Ok tt) d) -> wp (call (Stat p)) C Q d.
Proof.
  intros HC H1 H2 H3. apply wp_call; [done|]. intros f Hf. simpl. unfold reading.
  destruct (read_fault f) eqn:Hr; [by eauto|]. destruct (d !! p) eqn:Hp; eauto.
Qed.

Lemma wp_Rename p q C Q d :
  C d -> (wfail -> Q (Err EIO) d) -> (d !! p = None -> Q (Err ErrNotExist) d) ->
  (forall b, d !! p = Some b -> Q (Ok tt) (<[q := b]> (delete p d))) ->
  wp (call (Rename p q)) C Q d.
Proof.
  intros HC H1 H2 H3. apply wp_call; [done|]. intros f Hf. simpl.
  destruct (write_fault f) eqn:Hw; [by eauto|]. destruct (d !! p) eqn:Hp; simpl; auto.
Qed.

Lemma wp_Remove p C Q d :
  C d -> (wfail -> Q (Err EIO) d) -> (d !! p = None -> Q (Err ErrNotExist) d) ->
  (is_Some (d !! p) -> Q (Ok tt) (delete p d)) -> wp (call (Remove p)) C Q d.
Proof.
  intros HC H1 H2 H3. apply wp_call; [done|]. intros f Hf. simpl.
  destruct (write_fault f) eqn:Hw; [by eauto|]. destruct (d !! p) eqn:Hp; simpl; eauto.
Qed.

(** A [Remove] whose result is discarded. *)
Lemma wp_Remove_ignored {A} p (k : prog A) C Q d :
  C d -> (wfail -> wp k C Q d) -> wp k C Q (delete p d) -> wp (run! _ := call (Remove p) in k) C Q d.
Proof.
  intros HC H1 H2. apply wp_bind, wp_Remove; [done|done| |by intros].
  intros Hp. by rewrite delete_id in H2 by done.
Qed.

Lemma wp_CreateTemp dir prefix C (Q : result IOErr string -> Disk -> Prop) d :
  C d -> (wfail \/ free_of slash prefix = false -> Q (Err EIO) d) ->
  (forall n, free_of slash prefix = true -> d !! temp_name dir prefix n = None ->
     Q (Ok (temp_name dir prefix n)) (<[temp_name dir prefix n := []]> d)) ->
  wp (call (CreateTemp dir prefix)) C Q d.
Proof.
  intros HC H1 H2. apply wp_call; [done|]. intros f Hf. simpl.
  destruct (write_fault f) eqn:Hw; [by eauto|]. destruct (free_of slash prefix); [|by auto].
  destruct (d !! _) eqn:Hp; simpl; [|by auto]. apply H1. left.
  exists _, (CreateTemp dir prefix), f, d. split; [done|]. right. simpl. by rewrite Hp.
Qed.

(** [os.OpenFile] with [O_CREATE|O_EXCL]. *)
Lemma wp_CreateExcl p C (Q : result IOErr unit -> Disk -> Prop) d :
  C d -> (wfail \/ d !! p <> None -> Q (Err EIO) d) -> (d !! p = None -> Q (Ok tt) (<[p := []]> d)) ->
  wp (call (CreateExcl p)) C Q d.
Proof.
  intros HC HE HQ. apply wp_call; [done|]. intros f Hf. simpl.
  destruct (write_fault f) eqn:Hw, (d !! p) eqn:Hp; simpl; eauto using wfail_intro.
Qed.

Lemma wp_Append p b C (Q : result IOErr unit -> Disk -> Prop) d old :
  d !! p = Some old -> C d ->
  (wfail -> forall n, Q (Err EIO) (<[p := old ++ firstn n b]> d)) -> Q (Ok tt) (<[p := old ++ b]> d) ->
  wp (call (Append p b)) C Q d.
Proof.
  intros Hp HC H1 H2. apply wp_call; [done|]. intros f Hf. simpl. rewrite Hp.
  destruct (write_fault f) eqn:Hw; simpl; eauto.
Qed.

(** [Chmod], [Sync], [Close], [SyncDir] and [MkdirAll] leave the contents alone. *)
Definition flushes (o : op (result IOErr unit)) : Prop :=
  forall f d, exec o f d = (d, guarded f).

Lemma wp_flush o C Q d :
  flushes o -> C d -> (wfail -> Q (Err EIO) d) -> Q (Ok tt) d -> wp (call o) C Q d.
Proof.
  intros Hd HC HE HQ. apply wp_call; [done|]. intros f Hf. rewrite (Hd f d). simpl. unfold guarded.
  destruct (write_fault f) eqn:Hw; eauto.
Qed.

Lemma wp_flush_ignored {A} o (k : prog A) C Q d :
  flushes o -> C d -> wp k C Q d -> wp (run! _ := call o in k) C Q d.
Proof. intros Hd HC HQ. by apply wp_bind, wp_flush. Qed.
End WP.

Lemma calm_reads : ~ rfail calm.
Proof. by intros (R & o & f & d & (? & _ & _) & ?). Qed.
Lemma calm_writes : ~ wfail calm.
Proof. intros (R & o & f & d & (_ & ? & ?) & [?|?]); done. Qed.
Lemma quiet_no_rfail : ~ rfail quiet_reads.
Proof. by intros (R & o & f & d & ? & ?). Qed.

(** ** How many calls a program makes *)

Fixpoint calls_at_most {A} (n : nat) (m : prog A) : Prop :=
  match m, n with
  | Ret _, _ => True
  | Vis o k, O => False
  | Vis o k, S n' => forall r, calls_at_most n' (k r)
  end.

Lemma calls_mono {A} (m : prog A) n n' : calls_at_most n m -> (n <= n')%nat -> calls_at_most n' m.
Proof.
  revert n n'. induction m as [a|R o k IH]; intros [|n] [|n'] Hm Hn; simpl in *; try done; [lia|].
  intros r. eapply IH; [apply Hm|lia].
Qed.

Lemma calls_bind {A B} (m : prog A) (k : A -> prog B) n n' :
  calls_at_most n m -> (forall a, calls_at_most n' (k a)) -> calls_at_most (n + n') (pbind m k).
Proof.
  revert n. induction m as [a|R o g IH]; intros n Hm Hk; simpl.
  - eapply calls_mono; [apply Hk|lia].
  - destruct n as [|n]; [done|]. simpl. intros r. by apply IH.
Qed.

Lemma calls_try {E A B} (m : prog (result E A)) (k : A -> prog (result E B)) n n' :
  calls_at_most n m -> (forall a, calls_at_most n' (k a)) -> calls_at_most (n + n') (ptry m k).
Proof. intros Hm Hk. apply calls_bind; [done|]. intros [a|e]; [done|]. by destruct n'. Qed.

(** With that many fates the run is not killed. *)
Lemma calls_return {A} (m : prog A) n fs d :
  calls_at_most n m -> (n <= List.length fs)%nat -> exists a, (run m fs d).1.2 = Some a.
Proof.
  revert n fs d. induction m as [a|R o k IH]; intros n fs d Hm Hn; [by exists a|].
  destruct n as [|n]; [done|]. destruct fs as [|f fs]; simpl in *; [lia|].
  destruct (exec o f d) as [d' r]. apply (IH r n); [apply Hm|lia].
Qed.

(** ** Names *)

Lemma Split_nonempty sep s : Split sep s <> [].
Proof.
  destruct s as [|c s]; simpl; [done|]. destruct (Ascii.eqb c sep); [done|]. by destruct (Split sep s).
Qed.

Lemma Split_app_sep sep a b : Split sep (a +:+ String sep b) = Split sep a ++ Split sep b.
Proof.
  induction a as [|c a IH]; simpl; [by rewrite Ascii.eqb_refl|].
  rewrite IH. destruct (Ascii.eqb c sep); [done|].
  pose proof (Split_nonempty sep a). by destruct (Split sep a).
Qed.

Lemma last_component_app x n :
  free_of slash n = true -> last_component (x +:+ "/" +:+ n) = n.
Proof.
  intros Hn. unfold last_component. change ("/" +:+ n) with (String slash n).
  by rewrite Split_app_sep, (Split_free slash n), rev_app_distr.
Qed.

Lemma ends_with_slash_inv p : ends_with_slash p = true -> exists x, p = x +:+ "/".
Proof.
  induction p as [|c p IH]; simpl; [done|]. destruct p as [|c' p].
  - intros ->%Ascii.eqb_eq. by exists "".
  - intros [x Hx]%IH. exists (String c x). simpl. by rewrite Hx.
Qed.

Lemma string_app_cons c a b : String c a +:+ b = String c (a +:+ b).
Proof. done. Qed.
Lemma string_app_assoc a b c : (a +:+ b) +:+ c = a +:+ b +:+ c.
Proof. induction a as [|x a IH]; [done|]. by rewrite !string_app_cons, IH. Qed.
Lemma string_app_nil_r a : a +:+ "" = a.
Proof. induction a as [|x a IH]; [done|]. by rewrite string_app_cons, IH. Qed.
Lemma string_length_app a b : String.length (a +:+ b) = (String.length a + String.length b)%nat.
Proof. induction a as [|x a IH]; [done|]. rewrite string_app_cons. simpl. by rewrite IH. Qed.
Lemma free_of_app c a b : free_of c (a +:+ b) = free_of c a && free_of c b.
Proof. induction a as [|x a IH]; [done|]. rewrite string_app_cons. simpl. by rewrite IH, andb_assoc. Qed.

Lemma temp_last_component dir prefix n :
  free_of slash prefix = true -> last_component (temp_name dir prefix n) = prefix +:+ Itoa n.
Proof.
  intros Hp. unfold temp_name.
  assert (free_of slash (prefix +:+ Itoa n) = true) as Hf.
  { by rewrite free_of_app, Hp, free_of_Itoa. }
  destruct (ends_with_slash dir) eqn:He.
  - apply ends_with_slash_inv in He as [x ->]. rewrite string_app_assoc. by apply last_component_app.
  - rewrite string_app_assoc. by apply last_component_app.
Qed.

Lemma Base_last_component p : last_component p <> "" -> Base p = last_component p.
Proof.
  unfold Base, last_component. destruct p as [|c p]; [done|]. cbn [String.eqb].
  destruct (rev (Split slash (String c p))) as [|[|x y] l]; done.
Qed.

(** The staged copy of a file is never the file. *)
Lemma staged_not_path p n :
  free_of slash ("." +:+ Base p +:+ ".tmp") = true ->
  temp_name (Dir p) ("." +:+ Base p +:+ ".tmp") n <> p.
Proof.
  intros Hf Heq. pose proof (temp_last_component (Dir p) _ n Hf) as Hl. rewrite Heq in Hl.
  assert (last_component p <> "") as Hne by (rewrite Hl; discriminate).
  apply Base_last_component in Hne. apply (f_equal String.length) in Hl.
  rewrite <-Hne in Hl. rewrite !string_length_app in Hl. simpl in Hl. lia.
Qed.

Lemma temp_hidden dir prefix n :
  free_of slash prefix = true -> dotted prefix = true -> hidden (temp_name dir prefix n) = true.
Proof.
  intros Hf Hd. unfold hidden. rewrite temp_last_component by done. by destruct prefix.
Qed.

(** ** Names beside a file *)

Lemma Split_snoc sep a s : free_of sep s = true ->
  exists front l, Split sep a = front ++ [l] /\ Split sep (a +:+ s) = front ++ [l +:+ s].
Proof.
  intros Hs. induction a as [|c a (front & l & Ha & Has)].
  { exists [], "". split; [done|]. by apply Split_free. }
  rewrite string_app_cons. cbn [Split]. rewrite Ha, Has. destruct (Ascii.eqb c sep).
  - by exists ("" :: front), l.
  - destruct front as [|x front]; [by exists [], (String c l)|]. by exists (String c x :: front), l.
Qed.

Lemma last_component_suffix p s :
  free_of slash s = true -> last_component (p +:+ s) = last_component p +:+ s.
Proof.
  intros Hs. unfold last_component. destruct (Split_snoc slash p s Hs) as (front & l & -> & ->).
  by rewrite !rev_app_distr.
Qed.

Lemma hidden_suffix p s :
  free_of slash s = true -> last_component p <> "" -> hidden (p +:+ s) = hidden p.
Proof.
  intros Hs Hp. unfold hidden. rewrite last_component_suffix by done. by destruct (last_component p).
Qed.

Lemma Split_components_free sep s x : x ∈ Split sep s -> free_of sep x = true.
Proof.
  revert x. induction s as [|c s IH]; intros x; cbn [Split].
  { by intros ->%list_elem_of_singleton. }
  destruct (Ascii.eqb c sep) eqn:Hc.
  - intros [->|Hx]%elem_of_cons; [done|by apply IH].
  - destruct (Split sep s) as [|h t] eqn:Hs; [by apply Split_nonempty in Hs|].
    intros [->|Hx]%elem_of_cons; [|by apply IH; right].
    simpl. rewrite Hc. apply IH. left.
Qed.

Lemma last_component_free p : free_of slash (last_component p) = true.
Proof.
  unfold last_component. destruct (rev (Split slash p)) as [|c l] eqn:Hr; [done|].
  apply (Split_components_free slash p). rewrite <-(rev_involutive (Split slash p)), Hr. simpl.
  apply elem_of_app. right. by left.
Qed.

Lemma clean_components_snoc r st cs n :
  n <> "" -> n <> "." -> n <> ".." -> exists front, clean_components r st (cs ++ [n]) = front ++ [n].
Proof.
  intros H0 H1 H2. revert st. induction cs as [|c cs IH]; intros st; cbn [clean_components app].
  - rewrite (proj2 (String.eqb_neq n "")), (proj2 (String.eqb_neq n ".")), (proj2 (String.eqb_neq n "..")) by done.
    cbn [orb clean_components rev]. by exists (rev st).
  - repeat case_match; apply IH.
Qed.

Lemma join_with_snoc front n :
  join_with "/" (front ++ [n]) = n \/ exists x, join_with "/" (front ++ [n]) = x +:+ "/" +:+ n.
Proof.
  induction front as [|a front IH]; [by left|]. right.
  assert (join_with "/" ((a :: front) ++ [n]) = a +:+ "/" +:+ join_with "/" (front ++ [n])) as ->.
  { cbn [app join_with]. by destruct front. }
  destruct IH as [->|[x ->]]; [by exists a|].
  exists (a +:+ "/" +:+ x). by rewrite !string_app_assoc.
Qed.

(** [Join] of a directory and a name ends in the name. *)
Lemma last_component_Join dir n :
  dir <> "" -> free_of slash n = true -> n <> "" -> n <> "." -> n <> ".." ->
  last_component (Join [dir; n]) = n.
Proof.
  intros Hd Hf H0 H1 H2.
  assert (Join [dir; n] = Clean (dir +:+ String slash n)) as -> by (by destruct dir).
  unfold Clean. rewrite Split_app_sep, (Split_free slash n Hf).
  destruct (clean_components_snoc (is_rooted (dir +:+ String slash n)) [] (Split slash dir) n) as [front ->]; [done..|].
  set (body := join_with "/" (front ++ [n])).
  assert (last_component body = n /\ body <> "" /\ last_component ("/" +:+ body) = n) as (Hb & Hne & Hr).
  { subst body. destruct (join_with_snoc front n) as [->|[x ->]].
    - split_and!; [|done|by apply (last_component_app "")].
      unfold last_component. by rewrite Split_free.
    - split_and!; [by apply last_component_app| |].
      + by destruct x.
      + change ("/" +:+ x +:+ "/" +:+ n) with (("/" +:+ x) +:+ "/" +:+ n). by apply last_component_app. }
  destruct (is_rooted _); [done|]. by rewrite (proj2 (String.eqb_neq body "")).
Qed.

Lemma Dir_nonempty p : Dir p <> "".
Proof.
  unfold Dir, Clean. destruct (is_rooted _); [done|]. destruct (String.eqb _ "") eqn:H; [done|].
  by apply String.eqb_neq in H.
Qed.

(** ** Noise: scratch files that were not there before *)

Definition noise (d d' : Disk) : Prop :=
  forall q, d' !! q = d !! q \/ (hidden q = true /\ d !! q = None).

#[export] Instance noise_preorder : PreOrder noise.
Proof.
  split; [by left|]. intros d1 d2 d3 H1 H2 q.
  destruct (H2 q) as [->|[Hh Hn]]; [apply H1|]. destruct (H1 q) as [<-|?]; auto.
Qed.

Lemma noise_plain d d' q : noise d d' -> hidden q = false -> d' !! q = d !! q.
Proof. intros Hn Hq. destruct (Hn q) as [?|[? _]]; congruence. Qed.
Lemma noise_present d d' q b : noise d d' -> d !! q = Some b -> d' !! q = Some b.
Proof. intros Hn Hq. destruct (Hn q) as [?|[_ ?]]; congruence. Qed.

Lemma noise_insert d d' q b : noise d d' -> hidden q = true -> d !! q = None -> noise d (<[q := b]> d').
Proof.
  intros Hn Hq Hd r. destruct (decide (r = q)) as [->|Hr]; [by right|].
  rewrite lookup_insert_ne by done. apply Hn.
Qed.
Lemma noise_delete d d' q : noise d d' -> hidden q = true -> d !! q = None -> noise d (delete q d').
Proof.
  intros Hn Hq Hd r. destruct (decide (r = q)) as [->|Hr]; [by right|].
  rewrite lookup_delete_ne by done. apply Hn.
Qed.
Lemma noise_refl d : noise d d.
Proof. by left. Qed.
#[export] Hint Resolve noise_refl noise_insert noise_delete : bacchus.

(** ** Replacing a file is atomic *)

Section AtomicWrite.
Context (ok : Env).

Lemma wp_fill t b C (Q : result IOErr unit -> Disk -> Prop) d :
  d !! t = Some [] -> C d -> (forall x, C (<[t := x]> d)) ->
  (wfail ok -> forall x e, Q (Err e) (<[t := x]> d)) -> Q (Ok tt) (<[t := b]> d) ->
  wp ok (fill t b) C Q d.
Proof.
  intros Ht HC HCt HE HO. unfold fill. apply wp_try, (wp_Append ok t b C _ d []); [done|done|auto|].
  apply wp_try, wp_flush; [done|done|auto|]. by apply wp_flush; auto.
Qed.

(** Every disk a run of [Write] can be killed at, and every disk it returns with,
    is the old one or the new one up to fresh scratch files. *)
Lemma wp_Write path b C (Q : result IOErr unit -> Disk -> Prop) d :
  (forall d', noise d d' -> C d') ->
  (wfail ok \/ free_of slash (Base path) = false -> forall d' e, noise d d' -> Q (Err e) d') ->
  (forall d', noise (<[path := b]> d) d' -> C d' /\ Q (Ok tt) d') ->
  wp ok (Write path b) C Q d.
Proof.
  intros HC HE Hnew. unfold Write.
  apply wp_try, wp_CreateTemp; [by apply HC| |].
  { intros [Hw|Hf]; apply HE; auto with bacchus. right.
    rewrite !free_of_app in Hf. simpl in Hf. by rewrite andb_true_r in Hf. }
  intros n Hf Hn. pose proof (staged_not_path path n Hf) as Hne.
  pose proof (temp_hidden (Dir path) _ n Hf eq_refl) as Hh.
  set (t := temp_name _ _ n) in *. clearbody t.
  assert (forall x, noise d (<[t := x]> d)) as Hx by eauto with bacchus.
  assert (wfail ok -> forall x e, wp ok (run! _ := call (Remove t) in Ret (Err e)) C Q (<[t := x]> d)) as Herr.
  { intros Hw x e. apply wp_Remove_ignored; [by apply HC|by intros; apply HE; auto|].
    apply HE; [by left|]. eauto with bacchus. }
  apply wp_bind, wp_bind. apply wp_fill; [by rewrite lookup_insert_eq|by apply HC|..].
  - intros x. rewrite insert_insert_eq. by apply HC.
  - intros Hw x e. rewrite insert_insert_eq. apply wp_flush_ignored; [done|by apply HC|]. by apply Herr.
  - rewrite insert_insert_eq. apply wp_try, wp_flush; [done|by apply HC|by auto|].
    apply wp_Rename; [by apply HC|by auto| |].
    + by rewrite lookup_insert_eq.
    + intros x [= <-]%(eq_trans (eq_sym (lookup_insert_eq _ _ _))).
      rewrite delete_insert_id by done. apply wp_Remove_ignored; [by apply Hnew|by intros _; apply Hnew|].
      apply Hnew, noise_delete; [apply noise_refl|done|]. by rewrite lookup_insert_ne.
Qed.

Lemma wp_WriteDurable path b C (Q : result IOErr unit -> Disk -> Prop) d :
  (forall d', noise d d' -> C d') ->
  (wfail ok \/ free_of slash (Base path) = false -> forall d' e, noise d d' -> Q (Err e) d') ->
  (forall d', noise (<[path := b]> d) d' ->
     C d' /\ (wfail ok -> forall e, Q (Err e) d') /\ Q (Ok tt) d') ->
  wp ok (WriteDurable path b) C Q d.
Proof.
  intros HC HE Hnew. apply wp_try, wp_Write; [done|done|]. intros d' Hd'. destruct (Hnew d' Hd') as (?&?&?).
  split; [done|]. apply wp_flush; auto. done.
Qed.
End AtomicWrite.

Lemma calls_Write path b : calls_at_most 7 (Write path b).
Proof. unfold Write. by repeat (intros [] || simpl). Qed.
Lemma calls_WriteDurable path b : calls_at_most 8 (WriteDurable path b).
Proof. apply (calls_try _ _ 7 1); [apply calls_Write|done]. Qed.

(** What a replacement of [path] by [b] may leave: the whole old file or the whole
    new one, and nothing else changed but scratch files. *)
Record replaced (path : string) (b : bytes) (d d' : Disk) : Prop := {
  rep_path : d' !! path = d !! path \/ d' !! path = Some b;
  rep_others : forall q, q <> path -> d' !! q = d !! q \/ (hidden q = true /\ d !! q = None);
}.

Lemma noise_replaced path b d d' :
  hidden path = false -> noise d d' \/ noise (<[path := b]> d) d' -> replaced path b d d'.
Proof.
  intros Hp [Hn|Hn]; split.
  - left. by apply noise_plain.
  - intros q _. apply Hn.
  - right. rewrite (noise_plain _ _ _ Hn Hp). by rewrite lookup_insert_eq.
  - intros q Hq. specialize (Hn q). by rewrite !lookup_insert_ne in Hn by done.
Qed.

(** Whichever calls fail and wherever the process is killed, [Write] and
    [WriteDurable] leave at the path the complete old content or the complete new
    one, and beside it at most a hidden scratch file that was not there before;
    success means the new content, an error of [Write] the old; and at most seven
    calls (eight for the durable form), none of which fails, end in success. *)
Theorem atomic_replace path b d fs :
  hidden path = false ->
  let '(d', r, _) := run (Write path b) fs d in
  let '(e', s, _) := run (WriteDurable path b) fs d in
  replaced path b d d' /\ replaced path b d e' /\
  (r = Some (Ok tt) -> d' !! path = Some b) /\ (s = Some (Ok tt) -> e' !! path = Some b) /\
  (forall x, r = Some (Err x) -> d' !! path = d !! path) /\
  (free_of slash (Base path) = true -> allowed calm (WriteDurable path b) fs d ->
   (8 <= List.length fs)%nat -> s = Some (Ok tt)).
Proof.
  intros Hp.
  pose (C := replaced path b d).
  pose (Q := fun (r : result IOErr unit) d' => replaced path b d d' /\
    match r with Ok _ => d' !! path = Some b | Err _ => d' !! path = d !! path end).
  pose (S := fun (r : result IOErr unit) d' => replaced path b d d' /\
    match r with Ok _ => d' !! path = Some b | Err _ => True end).
  assert (Hold : forall d', noise d d' -> C d' /\ d' !! path = d !! path).
  { intros d' Hn. split; [by apply noise_replaced; auto|by apply noise_plain]. }
  assert (Hnew : forall d', noise (<[path := b]> d) d' -> C d' /\ d' !! path = Some b).
  { intros d' Hn. split; [by apply noise_replaced; auto|].
    rewrite (noise_plain _ _ _ Hn Hp). by rewrite lookup_insert_eq. }
  pose proof (wp_run any_fate (Write path b) C Q d fs) as HW.
  pose proof (wp_run any_fate (WriteDurable path b) C S d fs) as HD.
  pose proof (wp_run calm (WriteDurable path b) (fun _ => True) (fun r _ => r = Ok tt) d fs) as HL.
  pose proof (calls_return _ 8 fs d (calls_WriteDurable path b)) as HR.
  destruct (run (Write path b) fs d) as [[d' r] fs1], (run (WriteDurable path b) fs d) as [[e' s] fs2].
  assert (HW' : match r with Some a => Q a d' | None => C d' end).
  { apply HW; [|apply allowed_any]. apply wp_Write; [by intros; apply Hold|intros _ d1 e H1; by apply Hold in H1|].
    intros d1 [H1 H2]%Hnew. split; [exact H1|by split]. }
  assert (HD' : match s with Some a => S a e' | None => C e' end).
  { apply HD; [|apply allowed_any]. apply wp_WriteDurable; [by intros; apply Hold|intros _ d1 e [H1 _]%Hold; by split|].
    intros d1 [H1 H2]%Hnew. split; [exact H1|split; [intros _ e|]; by split]. }
  split_and!.
  - destruct r; [apply HW'|done].
  - destruct s; [apply HD'|done].
  - intros ->. apply HW'.
  - intros ->. apply HD'.
  - intros x ->. apply HW'.
  - intros Hf Hcalm Hlen. destruct (HR Hlen) as [a Ha]. simpl in Ha. rewrite Ha in HL |- *.
    f_equal. apply HL; [|done]. apply wp_WriteDurable; [done| |].
    + intros [Hw|?]; [by apply calm_writes in Hw|congruence].
    + intros d1 _. split_and!; [done| |done]. by intros Hw%calm_writes.
Qed.

(** ** Witnesses *)

Definition good (n : Z) : Fate := MkFate None None n.
Definition torn (n : nat) : Fate := MkFate None (Some n) 0.
Definition unreadable : Fate := MkFate (Some O) None 0.

Example path_samples :
  Dir "/usr/local/bin/node" = "/usr/local/bin" /\ Base "/usr/local/bin/node" = "node" /\
  Dir "node" = "." /\ Base "a/b//" = "b" /\ Clean "/a/./b/../c//d" = "/a/c/d" /\
  Clean "../x/.." = ".." /\ Clean "" = "." /\ Join ["/usr/local/bin"; ".node-ab.staged"] = "/usr/local/bin/.node-ab.staged" /\
  temp_name "/etc" ".resolv.conf.tmp" 7 = "/etc/.resolv.conf.tmp7".
Proof. vm_compute. tauto. Qed.

Definition demo_disk : Disk := {["/var/state" := bytes_of "old"]}.

Lemma atomic_replace_witness :
  hidden "/var/state" = false /\
  disk_after (Write "/var/state" (bytes_of "new")) [good 1; good 2; good 3] demo_disk !! "/var/state"
    = Some (bytes_of "old") /\
  let '(d', r, _) := run (Write "/var/state" (bytes_of "new")) (replicate 8 (good 1)) demo_disk in
  let '(e', s, _) := run (WriteDurable "/var/state" (bytes_of "new")) (replicate 8 (good 1)) demo_disk in
  replaced "/var/state" (bytes_of "new") demo_disk d' /\
  replaced "/var/state" (bytes_of "new") demo_disk e' /\
  (r = Some (Ok tt) -> d' !! "/var/state" = Some (bytes_of "new")) /\
  (s = Some (Ok tt) -> e' !! "/var/state" = Some (bytes_of "new")) /\
  (forall x, r = Some (Err x) -> d' !! "/var/state" = demo_disk !! "/var/state") /\
  (free_of slash (Base "/var/state") = true ->
   allowed calm (WriteDurable "/var/state" (bytes_of "new")) (replicate 8 (good 1)) demo_disk ->
   (8 <= List.length (replicate 8 (good 1)))%nat -> s = Some (Ok tt)).
Proof.
  split; [reflexivity|]. split; [vm_compute; reflexivity|].
  apply (atomic_replace "/var/state" (bytes_of "new") demo_disk (replicate 8 (good 1))). reflexivity.
Defined.
