(* ===== verification/Update.v ===== *)
(** * The release channel's signed manifest: [core/update]

    What a release is ([manifest.go]): the rows of artifacts, their validation
    and the lookup of this build's row; the verifier of a manifest bundle (root
    -> delegated update key -> manifest) with the rollback floor, and of the
    downloaded artifact ([verify.go]); the signer's side ([sign.go]); the
    compiled-in trust anchor ([anchor.go]). The files an update moves are in
    [UpdateFS]. *)

From S2P Require Import Prelude GoStrings Base64 Crypto Hashes FileSys Version Delegation.

(** ** [manifest.go] *)

Definition Version : Z := 1.
Definition MaxArtifactBytes : Z := Z.shiftl 512 20.

Definition RoleNode : string := "node".
Definition RoleCoordinator : string := "coordinator".
Definition RoleNetd : string := "netd".
Definition RoleClient : string := "client".
(** The [switch] over the roles. *)
Definition known_role (r : string) : bool :=
  existsb (String.eqb r) [RoleNode; RoleCoordinator; RoleNetd; RoleClient].

Inductive Error :=
| ErrUnsupportedVersion | ErrMalformed | ErrInvalid | ErrNotYetIssued | ErrExpired | ErrRollback
| ErrNoArtifact | ErrHashMismatch | ErrSizeMismatch
| ErrReadArtifact
| ErrDelegation (e : Delegation.Error).

#[export] Instance update_Error_eq_dec : EqDecision Error.
Proof. solve_decision. Defined.

Record Artifact := MkArtifact { OS : string; Arch : string; Role : string; Size : Z; SHA256 : bytes }.

#[export] Instance Artifact_eq_dec : EqDecision Artifact.
Proof. solve_decision. Defined.

Definition Artifact_Name (a : Artifact) : string := hex_EncodeToString (SHA256 a).

Definition Matches (a : Artifact) (goos goarch role : string) : bool :=
  String.eqb (OS a) goos && String.eqb (Arch a) goarch && String.eqb (Role a) role.

Record Manifest := MkManifest {
  m_Version : Z;
  Seq : Z;
  Release : string;
  Issued : Time;
  Expires : Time;
  m_Note : string;
  Artifacts : list Artifact;
}.

(** The loop of [Find]: the first row that matches. *)
Definition Find (m : Manifest) (goos goarch role : string) : result Error Artifact :=
  of_option ErrNoArtifact (List.find (fun a => Matches a goos goarch role) (Artifacts m)).

Definition token_byte (c : ascii) : bool :=
  let z := octet c in
  ((97 <=? z) && (z <=? 122)) || ((48 <=? z) && (z <=? 57)) || (z =? 95).

Definition checkToken (s : string) : result Error unit :=
  check! fail_if (String.eqb s "") ErrInvalid;
  check! fail_if (32 <? Z.of_nat (String.length s)) ErrInvalid;
  fail_if (negb (forallb token_byte (bytes_of s))) ErrInvalid.

(** The body of [checkRelease]'s loop. *)
Definition checkReleasePart (p : string) : result Error unit :=
  check! fail_if (String.eqb p "") ErrInvalid;
  check! fail_if ((1 <? Z.of_nat (String.length p)) &&
                  match p with String "0" _ => true | _ => false end) ErrInvalid;
  check! fail_if (negb (forallb digit_byte (bytes_of p))) ErrInvalid;
  fail_if (match ParseUint 31 p with Some _ => false | None => true end) ErrInvalid.

Fixpoint checkReleaseParts (ps : list string) : result Error unit :=
  match ps with
  | [] => Ok tt
  | p :: ps' => check! checkReleasePart p; checkReleaseParts ps'
  end.

Definition checkRelease (s : string) : result Error unit :=
  check! fail_if (String.eqb s "") ErrInvalid;
  let parts := Split "." s in
  check! fail_if (negb (List.length parts =? 3)%nat) ErrInvalid;
  checkReleaseParts parts.

Definition row_key (a : Artifact) : string * string * string := (OS a, Arch a, Role a).

(** The artifact loop of [Validate], with the set of keys seen. *)
Fixpoint checkArtifacts (seen : gset (string * string * string)) (l : list Artifact)
    : result Error unit :=
  match l with
  | [] => Ok tt
  | a :: l' =>
      check! checkToken (OS a);
      check! checkToken (Arch a);
      check! fail_if (negb (known_role (Role a))) ErrInvalid;
      check! fail_if (Size a <=? 0) ErrInvalid;
      check! fail_if (MaxArtifactBytes <? Size a) ErrInvalid;
      check! fail_if (negb (List.length (SHA256 a) =? 32)%nat) ErrInvalid;
      check! fail_if (bool_decide (row_key a ∈ seen)) ErrInvalid;
      checkArtifacts ({[row_key a]} ∪ seen) l'
  end.

Definition Validate (m : Manifest) : result Error unit :=
  check! fail_if (negb (m_Version m =? Version)) ErrUnsupportedVersion;
  check! fail_if (Seq m =? 0) ErrInvalid;
  check! checkRelease (Release m);
  check! fail_if (IsZero (Issued m) || IsZero (Expires m)) ErrInvalid;
  check! fail_if (negb (Before (Issued m) (Expires m))) ErrInvalid;
  check! fail_if (bool_decide (Artifacts m = [])) ErrInvalid;
  checkArtifacts ∅ (Artifacts m).

(** ** [verify.go] *)

Definition clockSkew : Duration := Delegation.ClockSkew.

Record Bundle := MkBundle { b_Manifest : bytes; b_Cert : bytes }.

Record Verifier := MkVerifier { rootPub : bytes; revoked : string -> bool }.

Definition NewVerifier (root : bytes) (rev : option (string -> bool))
    : result Delegation.Error Verifier :=
  check! fail_if (bad_key_length root) ErrNoRoot;
  Ok {| rootPub := root;
        revoked := match rev with Some f => f | None => fun _ => false end |}.

(** A decoder that refuses unknown fields reads no more than one that ignores
    them, and reads what was marshalled. *)
Class StrictJSON (A : Type) := DecodeStrict : bytes -> option A.
Class StrictJSONLaws (A : Type) `{JSON A} `{StrictJSON A} := {
  DecodeStrict_Marshal : forall a : A, DecodeStrict (Marshal a) = Some a;
}.

Section Verifying.
Context `{Ed25519} `{JSON Delegation.Cert} `{JSON Manifest} `{JSON Bundle} `{StrictJSON Manifest}.

Definition ParseBundle (data : bytes) : result Error Bundle :=
  let? b := of_option ErrMalformed (Decode data) in
  check! fail_if (bool_decide (b_Manifest b = []) || bool_decide (b_Cert b = [])) ErrMalformed;
  Ok b.

(** [errors.Is(err, delegation.ErrMalformed)] turns into this package's own. *)
Definition manifest_error (e : Delegation.Error) : Error :=
  if bool_decide (e = Delegation.ErrMalformed) then ErrMalformed else ErrDelegation e.

Definition Verify (v : Verifier) (b : Bundle) (now : Time) (minSeq : Z) : result Error Manifest :=
  let? cert := map_err ErrDelegation
    (VerifyDelegationCert (rootPub v) (b_Cert b) RoleUpdate now (Some (revoked v))) in
  let? body := map_err manifest_error (OpenSigned (cert_Pub cert) TagUpdateManifest (b_Manifest b)) in
  let? m := of_option ErrMalformed (Unmarshal body) in
  check! Validate m;
  check! fail_if (Before now (time_Add (Issued m) (- clockSkew))) ErrNotYetIssued;
  check! fail_if (negb (Before now (Expires m))) ErrExpired;
  check! fail_if (Seq m <? minSeq) ErrRollback;
  Ok m.

(** ** [sign.go]

    A private key of the interface always has ed25519's length, and [Marshal] is
    total (Go's fails on years past 9999). *)

Definition signingMessage (tag : string) (body : bytes) : bytes := bytes_of tag ++ NUL :: body.

Definition checkNoUnknownFields (body : bytes) : result Error unit :=
  fail_if (match DecodeStrict body with Some _ => false | None => true end) ErrInvalid.

Definition Sign (priv : PrivateKey) (m : Manifest) : result Error bytes :=
  check! Validate m;
  let body := Marshal m in
  check! checkNoUnknownFields body;
  Ok (body ++ ed_Sign priv (signingMessage TagUpdateManifest body)).

Definition SignBody (priv : PrivateKey) (body : bytes) : result Error bytes :=
  let? m := of_option ErrMalformed (Unmarshal body) in
  check! Validate m;
  check! checkNoUnknownFields body;
  Ok (body ++ ed_Sign priv (signingMessage TagUpdateManifest body)).
End Verifying.

(** [io.LimitReader(r, n)] read to its end. *)
Definition limit (n : Z) (b : bytes) : bytes :=
  if n <=? 0 then [] else if Z.of_nat (List.length b) <=? n then b else firstn (Z.to_nat n) b.

(** [io.Copy] out of [io.LimitReader(r, n)]: the bytes copied, and whether the
    reader's error was met before the limit. *)
Definition copy_limited (r : Stream) (n : Z) : bytes * bool :=
  (limit n (data r), read_err r && (Z.of_nat (List.length (data r)) <? n)).

(** [VerifyArtifact] over the reader [r]: its count and its error. *)
Definition VerifyArtifact (a : Artifact) (r : Stream) : Z * option Error :=
  let '(got, failed) := copy_limited r (wrapi64 (Size a + 1)) in
  let n := Z.of_nat (List.length got) in
  if failed then (n, Some ErrReadArtifact)
  else if negb (n =? Size a) then (n, Some ErrSizeMismatch)
  else if negb (bool_decide (SHA256.sum got = SHA256 a)) then (n, Some ErrHashMismatch)
  else (n, None).

(** ** [anchor.go] *)

Inductive AnchorError := ErrNoAnchor | AnchorNotHex | AnchorLength.

Definition ParseAnchor (s : string) : result AnchorError bytes :=
  let s := TrimSpace s in
  check! fail_if (String.eqb s "") ErrNoAnchor;
  let? b := of_option AnchorNotHex (hex_DecodeString s) in
  check! fail_if (bad_key_length b) AnchorLength;
  Ok b.

Definition DevRootPubHex : string := "1b7a9efd101a59248e53e34c9795148fdfc4da712bd8f7e0146cdb2fd6878ac6".

Definition IsDevRoot (pub : bytes) : bool :=
  match ParseAnchor DevRootPubHex with Ok want => bool_decide (want = pub) | Err _ => false end.

(** [rootPubHex] is the link-time stamp. *)
Definition Anchor (rootPubHex : string) : result AnchorError bytes := ParseAnchor rootPubHex.
Definition anchor_Stamped (rootPubHex : string) : bool := negb (String.eqb (TrimSpace rootPubHex) "").

Definition AnchorFingerprint (pub : bytes) : string :=
  if bad_key_length pub then "none" else hex_EncodeToString (firstn 4 (SHA256.sum pub)).

(** ** Validation *)

Record row_valid (a : Artifact) : Prop := {
  row_role : known_role (Role a) = true;
  row_size : 0 < Size a <= MaxArtifactBytes;
  row_digest : List.length (SHA256 a) = 32%nat;
}.

Lemma checkArtifacts_Ok seen l :
  checkArtifacts seen l = Ok tt ->
  Forall row_valid l /\ NoDup (row_key <$> l) /\ forall a, a ∈ l -> row_key a ∉ seen.
Proof.
  revert seen. induction l as [|a l IH]; intros seen; cbn [checkArtifacts].
  { intros _. repeat split; [constructor..|]. by intros ? ?%elem_of_nil. }
  intros Hc. inv_result. b2p. apply IH in Hc as (Hall & Hnd & Hfresh). split_and!.
  - constructor; [|done]. split; [done|lia|by apply Nat.eqb_eq].
  - rewrite fmap_cons. constructor; [|done]. intros (b & Hb & Hin)%list_elem_of_fmap.
    specialize (Hfresh b Hin). rewrite <-Hb in Hfresh. set_solver.
  - intros b [->|Hin]%elem_of_cons; [done|]. specialize (Hfresh b Hin). set_solver.
Qed.

Lemma Matches_key a os arch role : Matches a os arch role = true <-> row_key a = (os, arch, role).
Proof.
  unfold Matches, row_key. rewrite !andb_true_iff, !String.eqb_eq. naive_solver.
Qed.

Lemma find_row l a os arch role :
  NoDup (row_key <$> l) ->
  List.find (fun a => Matches a os arch role) l = Some a <-> a ∈ l /\ row_key a = (os, arch, role).
Proof.
  induction l as [|b l IH]; simpl; intros Hnd.
  { split; [done|]. intros [H _]. by apply elem_of_nil in H. }
  apply NoDup_cons in Hnd as [Hb Hnd].
  destruct (Matches b os arch role) eqn:Hm.
  - apply Matches_key in Hm. split; [intros [= <-]; split; [left|done]|].
    intros [[->|Ha]%elem_of_cons Hk]; [done|]. exfalso. apply Hb. rewrite Hm, <-Hk.
    by apply list_elem_of_fmap_2.
  - rewrite IH by done. rewrite elem_of_cons. split; [naive_solver|].
    intros [[->|Ha] Hk]; [|done]. apply Matches_key in Hk. congruence.
Qed.

Lemma checkReleasePart_Ok s p :
  checkReleasePart p = Ok tt -> exists n, parse_component s p = Ok n /\ 0 <= n < 2 ^ 31.
Proof.
  unfold checkReleasePart. intros Hc. inv_result. b2p.
  destruct (ParseUint 31 p) as [n|] eqn:Hn; [|done]. exists n. by apply parse_component_digits.
Qed.

Lemma checkRelease_Parse s : checkRelease s = Ok tt -> exists v, Parse s = Ok v /\ Version.wf v.
Proof.
  unfold checkRelease, Parse. intros Hc. inv_result. b2p. apply Nat.eqb_eq in E0.
  destruct (Split "." s) as [|p0 [|p1 [|p2 [|]]]]; try discriminate E0.
  cbn [checkReleaseParts] in Hc. inv_result.
  apply (checkReleasePart_Ok s) in E1 as (n0 & Hn0 & ?).
  apply (checkReleasePart_Ok s) in E2 as (n1 & Hn1 & ?).
  apply (checkReleasePart_Ok s) in E3 as (n2 & Hn2 & ?).
  exists (MkVersion n0 n1 n2). rewrite Hn0, Hn1, Hn2. split; [done|].
  unfold Version.wf, i64max. simpl. lia.
Qed.

(** What [Validate] establishes. *)
Record manifest_valid (m : Manifest) : Prop := {
  mv_seq : Seq m <> 0;
  mv_window : Issued m < Expires m;
  mv_release : exists v, Parse (Release m) = Ok v /\ Version.wf v;
  mv_rows : Forall row_valid (Artifacts m);
  mv_find : forall os arch role a,
    Find m os arch role = Ok a <-> a ∈ Artifacts m /\ row_key a = (os, arch, role);
}.

Lemma Validate_valid m : Validate m = Ok tt -> manifest_valid m.
Proof.
  unfold Validate, Before. intros Hv. inv_result. b2p.
  apply checkArtifacts_Ok in Hv as (Hrows & Hnd & _).
  split; [done|done|by apply checkRelease_Parse|done|].
  intros os arch role a. rewrite <-(find_row (Artifacts m) a os arch role) by done.
  unfold Find. destruct (List.find _ _); simpl; split; congruence.
Qed.

(** ** The artifact *)

Lemma limit_length n b : 0 <= n ->
  Z.of_nat (List.length (limit n b)) = Z.min n (Z.of_nat (List.length b)).
Proof.
  intros Hn. unfold limit. destruct (Z.leb_spec n 0); simpl; [lia|].
  destruct (Z.leb_spec (Z.of_nat (List.length b)) n); [lia|].
  rewrite length_firstn. lia.
Qed.

Lemma limit_all n b : Z.of_nat (List.length b) < n -> limit n b = b.
Proof.
  intros Hn. unfold limit. rewrite (proj2 (Z.leb_gt n 0)) by lia.
  by rewrite (proj2 (Z.leb_le _ _)) by lia.
Qed.

(** The artifact is exactly these bytes. *)
Definition genuine (a : Artifact) (b : bytes) : Prop :=
  Z.of_nat (List.length b) = Size a /\ SHA256.sum b = SHA256 a.

#[export] Instance genuine_dec a b : Decision (genuine a b).
Proof. unfold genuine. apply _. Defined.

Lemma VerifyArtifact_None a r :
  0 <= Size a < i64max ->
  (VerifyArtifact a r).2 = None <-> genuine a (data r) /\ read_err r = false.
Proof.
  intros Hs. unfold VerifyArtifact, copy_limited, genuine.
  rewrite wrapi64_id by (unfold in_i64, i64min, i64max in *; lia).
  pose proof (limit_length (Size a + 1) (data r) ltac:(lia)) as Hl.
  destruct (decide (Z.of_nat (List.length (data r)) <= Size a)) as [Hle|Hgt].
  - rewrite limit_all in * by lia. rewrite (proj2 (Z.ltb_lt _ _)), andb_true_r by lia.
    destruct (read_err r); [naive_solver|]. destruct (Z.eqb_spec (Z.of_nat (List.length (data r))) (Size a)) as [->|?];
      simpl; [|naive_solver].
    case_bool_decide; naive_solver.
  - rewrite (proj2 (Z.ltb_ge _ _)), andb_false_r by lia. rewrite (proj2 (Z.eqb_neq _ _)) by lia.
    simpl. split; [done|]. intros [[? ?] _]. lia.
Qed.

(** The reader is limited to one byte past the declared size, so what it counts
    never runs past the declared size by more. *)
Lemma VerifyArtifact_count a r :
  0 <= Size a < i64max -> (VerifyArtifact a r).1 <= Size a + 1.
Proof.
  intros Hs. unfold VerifyArtifact, copy_limited.
  rewrite wrapi64_id by (unfold in_i64, i64min, i64max in *; lia).
  pose proof (limit_length (Size a + 1) (data r) ltac:(lia)) as Hl.
  repeat case_match; simpl in *; lia.
Qed.

Lemma row_size_range a : row_valid a -> 0 <= Size a < i64max.
Proof.
  intros [_ Hs _]. unfold i64max. assert (MaxArtifactBytes = 536870912) by reflexivity. lia.
Qed.

(** A whole file, read without an error. *)
Definition whole (b : bytes) : Stream := MkStream b false false.

(** ** The chain *)

Section Sound.
Context `{Ed25519} `{JSON Delegation.Cert} `{JSON Manifest} `{JSON Bundle}.

(** [m] comes from a bundle the verifier accepts at [now] over the floor. *)
Record released (v : Verifier) (b : Bundle) (now : Time) (minSeq : Z) (m : Manifest) : Prop := {
  rel_chain : exists cert body,
    delegated (rootPub v) (b_Cert b) RoleUpdate now (Some (revoked v)) cert /\
    sealed_by (cert_Pub cert) TagUpdateManifest (b_Manifest b) body /\
    Unmarshal body = Some m;
  rel_valid : manifest_valid m;
  rel_window : Issued m - clockSkew <= now < Expires m;
  rel_floor : minSeq <= Seq m;
}.

Lemma Verify_released v b now minSeq m : Verify v b now minSeq = Ok m -> released v b now minSeq m.
Proof.
  unfold Verify, Before, time_Add. intros Hv. inv_result. b2p.
  match goal with Hd : VerifyDelegationCert _ _ _ _ _ = Ok _ |- _ => apply VerifyDelegationCert_Ok in Hd end.
  match goal with Ho : OpenSigned _ _ _ = Ok _ |- _ => apply OpenSigned_Ok in Ho end.
  split; [by eauto|by apply Validate_valid|lia|lia].
Qed.

(** A release manifest the verifier returns was signed under the manifest tag
    with a key the root delegated for updates in an unrevoked certificate in force;
    it is inside its window and not below the rollback floor, its release number
    parses, every row has a known role, a size of at most the cap and a SHA-256
    digest, [Find] returns the one row of a platform and role, and a file passes
    [VerifyArtifact] against a row exactly when it is read whole, has the row's
    length and has the row's SHA-256. *)
Theorem release_chain v b now minSeq m :
  Verify v b now minSeq = Ok m ->
  released v b now minSeq m /\
  forall os arch role a r, Find m os arch role = Ok a ->
    (VerifyArtifact a r).2 = None <-> genuine a (data r) /\ read_err r = false.
Proof.
  intros Hv%Verify_released. split; [done|]. intros os arch role a r Hf.
  apply (mv_find _ (rel_valid _ _ _ _ _ Hv)) in Hf as [Ha _].
  pose proof (proj1 (Forall_forall _ _) (mv_rows _ (rel_valid _ _ _ _ _ Hv)) a Ha) as Hrow.
  apply VerifyArtifact_None. by apply row_size_range.
Qed.
End Sound.

Section Complete.
Context `{Ed25519Laws} `{JSONLaws Delegation.Cert} `{JSONLaws Manifest} `{JSON Bundle} `{StrictJSON Manifest}.

Lemma Verify_sealed root signer cert m body v now minSeq :
  rootPub v = Public root -> cert_Version cert = Delegation.Version ->
  cert_Role cert = RoleUpdate -> cert_Pub cert = Public signer ->
  revoked v (cert_Serial cert) = false ->
  cert_NotBefore cert - Delegation.ClockSkew <= now < cert_NotAfter cert ->
  Unmarshal body = Some m -> body <> [] -> Validate m = Ok tt ->
  Issued m - clockSkew <= now < Expires m -> minSeq <= Seq m ->
  Verify v (MkBundle (seal signer TagUpdateManifest body) (seal root TagDelegationCert (Marshal cert)))
    now minSeq = Ok m.
Proof.
  intros Hroot Hver Hrole Hpub Hrev Hw Hum Hne Hval Hnow Hseq.
  unfold Verify. cbn [b_Cert b_Manifest]. rewrite Hroot, <-Hrole.
  rewrite VerifyDelegationCert_seal; [|done| |by intros f [= <-]|done].
  2: { rewrite Hpub. apply Public_length. }
  cbn [map_err rbind]. rewrite Hpub, OpenSigned_seal by done. cbn [map_err rbind].
  rewrite Hum. cbn [of_option rbind]. rewrite Hval. cbn [rbind].
  unfold Before, time_Add. rewrite (proj2 (Z.ltb_ge now _)) by lia. cbn [fail_if rbind].
  rewrite (proj2 (Z.ltb_lt now _)) by lia. cbn [fail_if rbind negb].
  by rewrite (proj2 (Z.ltb_ge (Seq m) _)) by lia.
Qed.

Lemma SignBody_Ok priv body signed :
  SignBody priv body = Ok signed ->
  signed = seal priv TagUpdateManifest body /\
  exists m, Unmarshal body = Some m /\ Validate m = Ok tt.
Proof. unfold SignBody, seal, signingMessage. intros Hs. inv_result. split; [done|]. eauto. Qed.

(** Whatever the release signer puts its name to is a release: if [SignBody]
    signs the bytes under a key the root delegated for updates, then inside the
    manifest's window and at or above its floor every verifier of that root returns
    exactly the manifest those bytes decode to; and [Sign] on a manifest is
    [SignBody] on its encoding whenever the manifest validates. *)
Theorem signed_release_verifies root signer cert body signed v :
  rootPub v = Public root -> cert_Version cert = Delegation.Version ->
  cert_Role cert = RoleUpdate -> cert_Pub cert = Public signer ->
  revoked v (cert_Serial cert) = false ->
  body <> [] -> SignBody signer body = Ok signed ->
  (exists m, Unmarshal body = Some m /\ manifest_valid m /\
    forall now minSeq,
      cert_NotBefore cert - Delegation.ClockSkew <= now < cert_NotAfter cert ->
      Issued m - clockSkew <= now < Expires m -> minSeq <= Seq m ->
      Verify v (MkBundle signed (seal root TagDelegationCert (Marshal cert))) now minSeq = Ok m) /\
  (forall m, Validate m = Ok tt -> Sign signer m = SignBody signer (Marshal m)).
Proof.
  intros Hroot Hver Hrole Hpub Hrev Hne Hs. split.
  - apply SignBody_Ok in Hs as (-> & m & Hum & Hval). exists m.
    split_and!; [done|by apply Validate_valid|]. intros. by eapply Verify_sealed.
  - intros m Hm. unfold Sign, SignBody. rewrite Unmarshal_Marshal. cbn [of_option rbind].
    by rewrite Hm.
Qed.
End Complete.

(** ** Witnesses *)

#[export] Instance Artifact_countable : Countable Artifact.
Proof.
  refine (inj_countable
    (fun r => [encode (OS r); encode (Arch r); encode (Role r); encode (Size r); encode (SHA256 r)])
    (fun l => match l with
              | [x0; x1; x2; x3; x4] => x0 ← decode x0; x1 ← decode x1; x2 ← decode x2; x3 ← decode x3; x4 ← decode x4;
                  Some (MkArtifact x0 x1 x2 x3 x4)
              | _ => None
              end) _).
  intros []. cbv beta iota. by rewrite !decode_encode.
Defined.

#[export] Instance Manifest_eq_dec : EqDecision Manifest.
Proof. solve_decision. Defined.
#[export] Instance Manifest_countable : Countable Manifest.
Proof.
  refine (inj_countable
    (fun r => [encode (m_Version r); encode (Seq r); encode (Release r); encode (Issued r); encode (Expires r); encode (m_Note r); encode (Artifacts r)])
    (fun l => match l with
              | [x0; x1; x2; x3; x4; x5; x6] => x0 ← decode x0; x1 ← decode x1; x2 ← decode x2; x3 ← decode x3; x4 ← decode x4; x5 ← decode x5; x6 ← decode x6;
                  Some (MkManifest x0 x1 x2 x3 x4 x5 x6)
              | _ => None
              end) _).
  intros []. cbv beta iota. by rewrite !decode_encode.
Defined.

#[export] Instance update_Bundle_eq_dec : EqDecision Bundle.
Proof. solve_decision. Defined.
#[export] Instance update_Bundle_countable : Countable Bundle.
Proof.
  refine (inj_countable
    (fun r => [encode (b_Manifest r); encode (b_Cert r)])
    (fun l => match l with
              | [x0; x1] => x0 ← decode x0; x1 ← decode x1;
                  Some (MkBundle x0 x1)
              | _ => None
              end) _).
  intros []. cbv beta iota. by rewrite !decode_encode.
Defined.


Module Demo.
Import Toy.
#[export] Existing Instance toy_json.
#[export] Existing Instance toy_json_laws.
#[export] Instance toy_strict {A} `{JSON A} : StrictJSON A := Unmarshal.
#[export] Instance toy_strict_laws {A} `{JSONLaws A} : StrictJSONLaws A.
Proof. split. intros a. apply Unmarshal_Marshal. Qed.

Definition root_key : PrivateKey := "r"%char.
Definition signer_key : PrivateKey := "s"%char.
Definition cert : Cert := MkCert 1 "u1" RoleUpdate (Public signer_key) 0 (1000 * Hour) "".
Definition new_binary : bytes := bytes_of "release 1.3.0".
Definition digest : bytes := Eval vm_compute in SHA256.sum (bytes_of "release 1.3.0").
Definition row : Artifact := MkArtifact "linux" "amd64" RoleNode 13 digest.
Definition other_row : Artifact := MkArtifact "linux" "amd64" RoleClient 1 (repeat "a"%char 32).
Definition manifest : Manifest :=
  MkManifest 1 5 "1.3.0" Hour (500 * Hour) "" [other_row; row].
Definition verifier : Verifier := MkVerifier (Public root_key) (fun _ => false).
Definition cert_bytes : bytes := seal root_key TagDelegationCert (Marshal cert).
Definition signed : bytes := seal signer_key TagUpdateManifest (Marshal manifest).
Definition bundle : Bundle := MkBundle signed cert_bytes.
End Demo.
Import Toy Demo.

Example dev_root_is_a_key : IsDevRoot (repeat "a"%char 32) = false /\ is_ok (ParseAnchor DevRootPubHex) = true.
Proof. split; vm_compute; reflexivity. Qed.

Example demo_artifact_checks :
  VerifyArtifact Demo.row (whole Demo.new_binary) = (13, None) /\
  VerifyArtifact Demo.row (whole (bytes_of "release 1.2.9")) = (13, Some ErrHashMismatch) /\
  VerifyArtifact Demo.row (whole (bytes_of "release 1.3.0 and more")) = (14, Some ErrSizeMismatch).
Proof. split_and!; vm_compute; reflexivity. Qed.

Lemma release_chain_witness :
  Find Demo.manifest "linux" "amd64" RoleNode = Ok Demo.row /\
  released Demo.verifier Demo.bundle (2 * Hour) 5 Demo.manifest /\
  forall os arch role a r, Find Demo.manifest os arch role = Ok a ->
    (VerifyArtifact a r).2 = None <-> genuine a (data r) /\ read_err r = false.
Proof.
  split; [vm_compute; reflexivity|].
  apply (release_chain Demo.verifier Demo.bundle (2 * Hour) 5 Demo.manifest).
  vm_compute. reflexivity.
Defined.

Lemma signed_release_verifies_witness :
  (exists m, Unmarshal (Marshal Demo.manifest) = Some m /\ manifest_valid m /\
    forall now minSeq,
      cert_NotBefore Demo.cert - Delegation.ClockSkew <= now < cert_NotAfter Demo.cert ->
      Issued m - clockSkew <= now < Expires m -> minSeq <= Seq m ->
      Verify Demo.verifier (MkBundle Demo.signed (seal Demo.root_key TagDelegationCert (Marshal Demo.cert)))
        now minSeq = Ok m) /\
  (forall m, Validate m = Ok tt -> Sign Demo.signer_key m = SignBody Demo.signer_key (Marshal m)).
Proof.
  apply (signed_release_verifies Demo.root_key Demo.signer_key Demo.cert (Marshal Demo.manifest)
           Demo.signed Demo.verifier);
    [reflexivity..|vm_compute; discriminate|vm_compute; reflexivity].
Defined.
