(* ===== verification/UpdateFS.v ===== *)
(** * Applying a release: [core/update], the files

    The confirmation marker and the persistent state ([state.go]), staging,
    applying, confirming and the start-up watchdog ([apply.go]), the sources
    ([source.go]) and the updater that composes them ([updater.go]), as programs
    over the disk of [FileSys]. Log lines are left out; [context] cancellation is
    an input of the sources. *)

From S2P Require Import Prelude GoStrings Base64 Crypto Hashes Net FileSys Version Delegation Update.

(** ** The data on disk *)

Definition stateVersion : Z := 1.

Record Marker := MkMarker {
  mk_Release : string; mk_Previous : string; mk_Artifact : string; mk_Started : bool;
}.
Definition zero_Marker : Marker := MkMarker "" "" "" false.
Definition start (m : Marker) : Marker :=
  MkMarker (mk_Release m) (mk_Previous m) (mk_Artifact m) true.

Record Pending := MkPending {
  pd_Release : string; pd_Seq : Z; pd_Artifact : Artifact; pd_Staged : string;
}.

Record stateFile := MkStateFile {
  sf_Version : Z; MinSeq : Z; AppliedRelease : string; sf_Pending : option Pending;
}.
Definition zero_stateFile : stateFile := MkStateFile 0 0 "" None.

Inductive SrcErr := SrcCtx | SrcOpen | SrcRead | SrcTooLong | SrcHTTP (code : Z) | SrcNet.

Inductive UpErr :=
| EVerify (e : Error)                (** the manifest or the artifact is refused *)
| EReopen                            (** the staged file cannot be opened *)
| EMarkerRead | EMarkerWrite | EMarkerClear
| EMoveAside | EStat | EPublish | EPublishAndRestore
| ErrDemoted | EDemote
| ErrNoPending
| EStateRead | EStateParse | EStateVersion | EStateWrite
| ECreateStaging | EFetch (e : SrcErr) | EDownload | ECloseSource | EChmod | ESync | EClose | EName
| EFetchManifest (e : SrcErr)
| ECurrentRelease | EUnstamped.

(** ** [source.go] *)

Record Source := MkSource {
  src_Manifest : prog (result SrcErr bytes);
  src_Artifact : Artifact -> prog (result SrcErr Stream);
}.

Definition ManifestName : string := "manifest.json".
Definition BlobDir : string := "blobs".
Definition maxManifestBytes : Z := Z.shiftl 1 20.

Definition readCapped (r : Stream) (max : Z) : result SrcErr bytes :=
  let '(b, failed) := copy_limited r (max + 1) in
  check! fail_if failed SrcRead;
  check! fail_if (max <? Z.of_nat (List.length b)) SrcTooLong;
  Ok b.

Definition opened (p : string) : prog (result SrcErr Stream) :=
  fails_as (fun _ => SrcOpen) (call (Open p)).

(** [cancelled] is [ctx.Err() != nil]. *)
Definition DirSource (dir : string) (cancelled : bool) : Source := {|
  src_Manifest :=
    if cancelled then Ret (Err SrcCtx)
    else try! f := opened (Join [dir; ManifestName]) in Ret (readCapped f maxManifestBytes);
  src_Artifact a :=
    if cancelled then Ret (Err SrcCtx) else opened (Join [dir; BlobDir; Artifact_Name a]);
|}.

(** What a GET of the URL answers is the server's: a status and a body. *)
Section HTTP.
Context (Base_ : string) (GET : string -> option (Z * Stream)).

Definition get (path : string) : result SrcErr Stream :=
  match GET (Base_ +:+ "/" +:+ path) with
  | None => Err SrcNet
  | Some (code, body) => if negb (code =? 200) then Err (SrcHTTP code) else Ok body
  end.

Definition HTTPSource : Source := {|
  src_Manifest := Ret (let? r := get ManifestName in readCapped r maxManifestBytes);
  src_Artifact a := Ret (get (BlobDir +:+ "/" +:+ Artifact_Name a));
|}.
End HTTP.

(** [ip.IsLoopback()]: 127.0.0.0/8 or ::1. *)
Definition IsLoopback (ip : IP) : bool :=
  match To4 ip with
  | Some (c :: _) => octet c =? 127
  | _ => bool_decide (ip = repeat Ascii.zero 15 ++ [byte_of 1])
  end.

(** A parsed URL's scheme and host name. *)
Definition checkSourceURL (scheme hostname : string) : bool :=
  if String.eqb scheme "https" then true
  else if String.eqb scheme "http" then
    String.eqb hostname "localhost" ||
    match ParseIP hostname with Some ip => IsLoopback ip | None => false end
  else false.

(** [defaultHTTPClient.CheckRedirect], with the number of requests made. *)
Definition CheckRedirect (via : nat) (scheme hostname : string) : bool :=
  if (5 <=? via)%nat then false else checkSourceURL scheme hostname.

(** ** [apply.go]: names *)

Definition stagedSuffix : string := ".staged".
Definition prevSuffix : string := ".prev".
Definition pendingSuffix : string := ".pending".

Definition StagedPath (target : string) (a : Artifact) : string :=
  Join [Dir target; "." +:+ Base target +:+ "-" +:+ Artifact_Name a +:+ stagedSuffix].
Definition PreviousPath (target : string) : string := target +:+ prevSuffix.
Definition MarkerPath (target : string) : string := target +:+ pendingSuffix.

(** [os.CreateTemp(dir, ".bacchus-update-*")] *)
Definition stagingPrefix : string := ".bacchus-update-".

Section Files.
Context `{JSON Marker} `{JSON stateFile}.

(** ** [state.go] *)

Definition writeMarker (path : string) (m : Marker) : prog (result UpErr unit) :=
  fails_as (fun _ => EMarkerWrite) (WriteDurable path (Marshal m)).

(** [None] is a missing file; content that does not parse is the zero marker. *)
Definition readMarker (path : string) : prog (result UpErr (option Marker)) :=
  run! r := call (ReadFile path) in
  match r with
  | Err ErrNotExist => Ret (Ok None)
  | Err EIO => Ret (Err EMarkerRead)
  | Ok b => Ret (Ok (Some (match Unmarshal b with Some m => m | None => zero_Marker end)))
  end.

(** What [State.read] makes of the bytes of the file. *)
Definition parse_state (b : bytes) : stateFile * option UpErr :=
  match Unmarshal b with
  | None => (zero_stateFile, Some EStateParse)
  | Some f =>
      if negb (sf_Version f =? stateVersion) then (MkStateFile 0 (MinSeq f) "" None, Some EStateVersion)
      else (f, None)
  end.

Definition state_read (path : string) : prog (stateFile * option UpErr) :=
  run! r := call (ReadFile path) in
  match r with
  | Err ErrNotExist => Ret (zero_stateFile, None)
  | Err EIO => Ret (zero_stateFile, Some EStateRead)
  | Ok b => Ret (parse_state b)
  end.

Definition state_Load (path : string) : prog (Z * option Pending * option UpErr) :=
  run! (f, err) := state_read path in
  match err with
  | Some e => Ret (MinSeq f, None, Some e)
  | None => Ret (MinSeq f, sf_Pending f, None)
  end.

Definition state_write (path : string) (f : stateFile) (raisesFloor : bool) : prog (result UpErr unit) :=
  let b := Marshal (MkStateFile stateVersion (MinSeq f) (AppliedRelease f) (sf_Pending f)) in
  fails_as (fun _ => EStateWrite) (if raisesFloor then WriteDurable path b else Write path b).

Definition RaiseFloor (path : string) (seq : Z) : prog (result UpErr unit) :=
  run! (f, _) := state_read path in
  let raises := MinSeq f <? seq in
  let f := if raises then MkStateFile (sf_Version f) seq (AppliedRelease f) (sf_Pending f) else f in
  state_write path f raises.

Definition SetPending (path : string) (p : Pending) : prog (result UpErr unit) :=
  run! (f, _) := state_read path in
  let raises := MinSeq f <? pd_Seq p in
  let floor := if raises then pd_Seq p else MinSeq f in
  state_write path (MkStateFile (sf_Version f) floor (AppliedRelease f) (Some p)) raises.

Definition ClearPending (path appliedRelease : string) : prog (result UpErr unit) :=
  run! (f, _) := state_read path in
  let applied := if negb (String.eqb appliedRelease "") then appliedRelease else AppliedRelease f in
  state_write path (MkStateFile (sf_Version f) (MinSeq f) applied None) false.

(** ** [apply.go] *)

Definition verifyFile (path : string) (a : Artifact) : prog (result UpErr unit) :=
  run! r := call (Open path) in
  match r with
  | Err _ => Ret (Err EReopen)
  | Ok s => match (VerifyArtifact a s).2 with Some e => Ret (Err (EVerify e)) | None => Ret (Ok tt) end
  end.

(** A failing step on the staging file closes it first. *)
Definition or_close {A} (tmp : string) (e : UpErr) (m : prog (result IOErr unit))
    (k : prog (result UpErr A)) : prog (result UpErr A) :=
  run! r := m in
  match r with
  | Err _ => run! _ := call (Close tmp) in Ret (Err e)
  | Ok _ => k
  end.

Definition close_err_with {A} (tmp : string) (e : UpErr) : prog (result UpErr A) :=
  run! _ := call (Close tmp) in Ret (Err e).

(** [Stage] once the staging file exists. *)
Definition download (src : Source) (a : Artifact) (target tmp : string) : prog (result UpErr string) :=
  run! rc := src_Artifact src a in
  match rc with
  | Err e => close_err_with tmp (EFetch e)
  | Ok r =>
      let '(got, failed) := copy_limited r (wrapi64 (Size a + 1)) in
      or_close tmp EDownload (call (Append tmp got))
      (if failed then close_err_with tmp EDownload
       else if close_err r then close_err_with tmp ECloseSource
       else if negb (Z.of_nat (List.length got) =? Size a) then
         close_err_with tmp (EVerify ErrSizeMismatch)
       else
         or_close tmp EChmod (call (Chmod tmp))
         (or_close tmp ESync (call (Sync tmp))
          (try! _ := fails_as (fun _ => EClose) (call (Close tmp)) in
           try! _ := verifyFile tmp a in
           try! _ := fails_as (fun _ => EName) (call (Rename tmp (StagedPath target a))) in
           run! _ := call (SyncDir (Dir target)) in
           Ret (Ok (StagedPath target a)))))
  end.

Definition Stage (src : Source) (a : Artifact) (target : string) : prog (result UpErr string) :=
  try! tmp := fails_as (fun _ => ECreateStaging) (call (CreateTemp (Dir target) stagingPrefix)) in
  run! res := download src a target tmp in
  run! _ := call (Remove tmp) in
  Ret res.

(** The last step of [Apply]: the staged file onto the target, the previous binary
    back when that fails. *)
Definition install (target staged : string) (movedAside : bool) : prog (result UpErr unit) :=
  run! published := call (Rename staged target) in
  match published with
  | Ok _ => run! _ := call (SyncDir (Dir target)) in Ret (Ok tt)
  | Err _ =>
      run! restored := (if movedAside then call (Rename (PreviousPath target) target) else Ret (Ok tt)) in
      match restored with
      | Err _ => Ret (Err EPublishAndRestore)
      | Ok _ => run! _ := call (Remove (MarkerPath target)) in Ret (Err EPublish)
      end
  end.

Definition Apply (target staged : string) (a : Artifact) (release : string) : prog (result UpErr unit) :=
  try! _ := verifyFile staged a in
  let marker := MkMarker release (PreviousPath target) (Artifact_Name a) false in
  run! marked := writeMarker (MarkerPath target) marker in
  match marked with
  | Err e => run! _ := call (Remove (MarkerPath target)) in Ret (Err e)
  | Ok _ =>
      run! st := call (Stat target) in
      match st with
      | Ok _ =>
          run! moved := call (Rename target (PreviousPath target)) in
          match moved with
          | Err _ => run! _ := call (Remove (MarkerPath target)) in Ret (Err EMoveAside)
          | Ok _ => install target staged true
          end
      | Err ErrNotExist => install target staged false
      | Err EIO => run! _ := call (Remove (MarkerPath target)) in Ret (Err EStat)
      end
  end.

Definition clearMarker (target : string) : prog (result UpErr unit) :=
  run! r := call (Remove (MarkerPath target)) in
  match r with
  | Err EIO => Ret (Err EMarkerClear)
  | _ => Ret (Ok tt)
  end.

Definition Confirm (target : string) : prog (result UpErr unit) :=
  try! m := readMarker (MarkerPath target) in
  match m with
  | None => Ret (Ok tt)
  | Some m => if negb (mk_Started m) then Ret (Ok tt) else clearMarker target
  end.

Definition CheckStartup (target : string) : prog (result UpErr unit) :=
  try! m := readMarker (MarkerPath target) in
  match m with
  | None => Ret (Ok tt)
  | Some m =>
      let prev := PreviousPath target in
      run! st := call (Stat prev) in
      match st with
      | Err _ => clearMarker target
      | Ok _ =>
          if negb (mk_Started m) then writeMarker (MarkerPath target) (start m)
          else
            try! _ := fails_as (fun _ => EDemote) (call (Rename prev target)) in
            run! _ := call (SyncDir (Dir target)) in
            try! _ := clearMarker target in
            Ret (Err ErrDemoted)
      end
  end.

(** ** [updater.go]

    [Gate] and [Now] are asked when a check runs, so their answers are inputs of
    [Check]; [Log] is left out. *)

Record Config := MkConfig {
  Root : bytes;
  Revoked : option (string -> bool);
  cfg_Source : option Source;
  Target : string;
  cfg_Role : string;
  cfg_OS : string;
  cfg_Arch : string;
  StatePath : string;
  Defer : bool;
  CurrentRelease : string;
}.

(** The validated configuration. *)
Record Updater := MkUpdater {
  u_source : Source; u_target : string; u_role : string; u_os : string; u_arch : string;
  u_state : string; u_defer : bool; u_current : string; u_v : Verifier;
}.

Inductive ConfigError := NoSource | NoState | UnknownRole | NoExecutable | BadRoot (e : Delegation.Error).

Definition or_default (s d : string) : string := if String.eqb s "" then d else s.

(** [exe] is [os.Executable()], [goos] and [goarch] the runtime's. *)
Definition NewUpdater (exe : option string) (goos goarch : string) (cfg : Config)
    : result ConfigError Updater :=
  let? src := of_option NoSource (cfg_Source cfg) in
  check! fail_if (String.eqb (StatePath cfg) "") NoState;
  check! fail_if (negb (known_role (cfg_Role cfg))) UnknownRole;
  let? target := if String.eqb (Target cfg) "" then of_option NoExecutable exe else Ok (Target cfg) in
  let? v := map_err BadRoot (NewVerifier (Root cfg) (Revoked cfg)) in
  Ok (MkUpdater src target (cfg_Role cfg) (or_default (cfg_OS cfg) goos) (or_default (cfg_Arch cfg) goarch)
        (StatePath cfg) (Defer cfg) (CurrentRelease cfg) v).

Record Outcome := MkOutcome {
  o_Release : string; UpToDate : bool; NoArtifact : bool; Staged : string;
  Applied : bool; Deferred : bool; Gated : bool;
}.
Definition zero_Outcome : Outcome := MkOutcome "" false false "" false false false.
Definition staged_out (out : Outcome) (staged : string) (deferred : bool) : Outcome :=
  MkOutcome (o_Release out) (UpToDate out) (NoArtifact out) staged (Applied out) deferred (Gated out).

(** [stamp] is core/version's link-time variable; [version.Current] panics on a
    malformed one. *)
Definition self (u : Updater) (stamp : string) : result UpErr Version.Version :=
  if negb (String.eqb (u_current u) "") then map_err (fun _ => ECurrentRelease) (Parse (u_current u))
  else if negb (Stamped stamp) then Err EUnstamped
  else map_err (fun _ => EUnstamped) (Current stamp).

Definition publish (u : Updater) (out : Outcome) (staged : string) (a : Artifact) (release : string)
    : prog (Outcome * option UpErr) :=
  run! applied := Apply (u_target u) staged a release in
  match applied with
  | Err e => Ret (out, Some e)
  | Ok _ =>
      run! _ := ClearPending (u_state u) release in
      Ret (MkOutcome (o_Release out) (UpToDate out) (NoArtifact out) (Staged out) true false (Gated out), None)
  end.

Context `{Ed25519} `{JSON Delegation.Cert} `{JSON Manifest} `{JSON Bundle}.

(** [Check] once there is a row to fetch. *)
Definition fetch (u : Updater) (m : Manifest) (a : Artifact) (out : Outcome)
    : prog (Outcome * option UpErr) :=
  run! staged := Stage (u_source u) a (u_target u) in
  match staged with
  | Err e => Ret (out, Some e)
  | Ok staged =>
      let out := staged_out out staged (Deferred out) in
      run! set := SetPending (u_state u) (MkPending (Release m) (Seq m) a staged) in
      match set with
      | Err e => Ret (out, Some e)
      | Ok _ => if u_defer u then Ret (staged_out out staged true, None)
                else publish u out staged a (Release m)
      end
  end.

(** [pending != nil && pending.Artifact.Name() == a.Name() && pending.Staged == staged] *)
Definition already_staged (pending : option Pending) (a : Artifact) (staged : string) : bool :=
  match pending with
  | Some p => String.eqb (Artifact_Name (pd_Artifact p)) (Artifact_Name a) && String.eqb (pd_Staged p) staged
  | None => false
  end.

(** [Check] on a verified manifest. *)
Definition act_on (u : Updater) (me : Version.Version) (pending : option Pending) (m : Manifest)
    : prog (Outcome * option UpErr) :=
  let out := MkOutcome (Release m) false false "" false false false in
  match Parse (Release m) with
  | Err _ => Ret (out, Some (EVerify ErrInvalid))
  | Ok theirs =>
      if Compare theirs me <=? 0 then Ret (MkOutcome (Release m) true false "" false false false, None)
      else match Find m (u_os u) (u_arch u) (u_role u) with
           | Err _ => Ret (MkOutcome (Release m) false true "" false false false, None)
           | Ok a =>
               let staged := StagedPath (u_target u) a in
               if already_staged pending a staged then
                 run! v := verifyFile staged a in
                 match v with
                 | Ok _ =>
                     let out := staged_out out staged true in
                     if negb (u_defer u) then publish u out staged a (Release m)
                     else Ret (out, None)
                 | Err _ => fetch u m a out
                 end
               else fetch u m a out
           end
  end.

(** [Check] after the gate and the version of this build, with the loaded state. *)
Definition check_manifest (u : Updater) (me : Version.Version) (now : Time) (minSeq : Z)
    (pending : option Pending) : prog (Outcome * option UpErr) :=
  run! raw := src_Manifest (u_source u) in
  match raw with
  | Err e => Ret (zero_Outcome, Some (EFetchManifest e))
  | Ok raw =>
      match (let? b := ParseBundle raw in Verify (u_v u) b now minSeq) with
      | Err e => Ret (zero_Outcome, Some (EVerify e))
      | Ok m =>
          run! _ := RaiseFloor (u_state u) (Seq m) in
          act_on u me pending m
      end
  end.

(** [gated] is the gate's refusal at the time of the call. *)
Definition Check (u : Updater) (stamp : string) (gated : bool) (now : Time)
    : prog (Outcome * option UpErr) :=
  match self u stamp with
  | Err e => Ret (zero_Outcome, Some e)
  | Ok me =>
      if gated then Ret (MkOutcome "" false false "" false false true, None)
      else
        run! (minSeq, pending, _) := state_Load (u_state u) in
        check_manifest u me now minSeq pending
  end.

Definition ApplyPending (u : Updater) : prog (Outcome * option UpErr) :=
  run! (_, pending, err) := state_Load (u_state u) in
  match err, pending with
  | Some e, _ => Ret (zero_Outcome, Some e)
  | None, None => Ret (zero_Outcome, Some ErrNoPending)
  | None, Some p =>
      let out := MkOutcome (pd_Release p) false false (pd_Staged p) false false false in
      run! v := verifyFile (pd_Staged p) (pd_Artifact p) in
      match v with
      | Err e =>
          run! _ := call (Remove (pd_Staged p)) in
          run! _ := ClearPending (u_state u) "" in
          Ret (out, Some e)
      | Ok _ => publish u out (pd_Staged p) (pd_Artifact p) (pd_Release p)
      end
  end.

Definition Updater_Confirm (u : Updater) : prog (result UpErr unit) := Confirm (u_target u).
End Files.
