(* ===== verification/UpdateSpecs.v ===== *)
(** * Specifications of the update programs

    For each program of [UpdateFS] its weakest precondition over all fates the
    environment allows: the names it uses are apart, what [Apply] leaves at each
    point it can be killed at, what reading and rewriting the state file does, and
    what staging an artifact leaves. [UpdateSafety] builds the theorems on them. *)

From S2P Require Import Prelude GoStrings Base64 Crypto Hashes Net FileSys Version Delegation Update UpdateFS.

(** ** The names an update uses *)

Lemma PreviousPath_ne t : t <> PreviousPath t.
Proof.
  unfold PreviousPath. intros H%(f_equal String.length). rewrite string_length_app in H. simpl in H. lia.
Qed.
Lemma MarkerPath_ne t : t <> MarkerPath t.
Proof.
  unfold MarkerPath. intros H%(f_equal String.length). rewrite string_length_app in H. simpl in H. lia.
Qed.
Lemma Previous_Marker_ne t : PreviousPath t <> MarkerPath t.
Proof.
  unfold PreviousPath, MarkerPath. intros H%(f_equal String.length).
  rewrite !string_length_app in H. simpl in H. lia.
Qed.

Lemma hex_free_of_slash b : free_of slash (hex_EncodeToString b) = true.
Proof.
  unfold hex_EncodeToString. induction b as [|c b IH]; [done|]. cbn [list_bind mbind app string_of String.string_of_list_ascii].
  assert (forall v, 0 <= v < 16 -> Ascii.eqb (hex_char v) slash = false) as Hv.
  { intros v Hv. assert (exists n, v = Z.of_nat n /\ (n < 16)%nat) as (n & -> & Hn) by (exists (Z.to_nat v); lia).
    do 16 (destruct n as [|n]; [reflexivity|]). lia. }
  pose proof (octet_range c).
  simpl. rewrite !Hv by (split; [Z.to_euclidean_division_equations; lia|Z.to_euclidean_division_equations; lia]). apply IH.
Qed.

Definition plain (p : string) : Prop := hidden p = false /\ last_component p <> "".

Lemma plain_suffix p s : free_of slash s = true -> plain p -> plain (p +:+ s).
Proof.
  intros Hs [Hh Hl]. split; [by rewrite hidden_suffix|].
  rewrite last_component_suffix by done. by destruct (last_component p).
Qed.

Lemma StagedPath_component t a : plain t ->
  last_component (StagedPath t a) = "." +:+ Base t +:+ "-" +:+ Artifact_Name a +:+ stagedSuffix.
Proof.
  intros [_ Hl]. unfold StagedPath. apply last_component_Join; [apply Dir_nonempty| |..].
  { rewrite !free_of_app, Base_last_component, last_component_free by done. simpl.
    unfold Artifact_Name. by rewrite hex_free_of_slash. }
  all: intros Hn%(f_equal String.length); rewrite !string_length_app in Hn; simpl in Hn; lia.
Qed.

Lemma StagedPath_hidden t a : plain t -> hidden (StagedPath t a) = true.
Proof. intros Ht. unfold hidden. by rewrite StagedPath_component. Qed.

(** The state file is none of the files beside the target. *)
Record names_ok (t sp : string) : Prop := {
  nm_target : plain t;
  nm_state : plain sp;
  nm_apart : sp <> t /\ sp <> PreviousPath t /\ sp <> MarkerPath t;
}.

(** The state path the commands default to. *)
Lemma default_names_ok t : plain t -> names_ok t (t +:+ ".update-state").
Proof.
  intros Ht. split; [done|by apply plain_suffix|].
  unfold PreviousPath, MarkerPath. split_and!; intros H%(f_equal String.length);
    rewrite ?string_length_app in H; simpl in H; lia.
Qed.

(** ** Frames: what lies beside the files an operation may touch *)

Definition frame (ks : list string) (d d' : Disk) : Prop :=
  forall q, q ∉ ks -> d' !! q = d !! q \/ (hidden q = true /\ d !! q = None).

Lemma frame_refl ks d : frame ks d d.
Proof. by left. Qed.
Lemma frame_noise ks d d1 d2 : frame ks d d1 -> noise d1 d2 -> frame ks d d2.
Proof.
  intros H1 H2 q Hq. destruct (H2 q) as [->|[Hh Hn]]; [by apply H1|].
  destruct (H1 q Hq) as [<-|?]; auto.
Qed.
Lemma frame_insert ks d d' q b : q ∈ ks -> frame ks d d' -> frame ks d (<[q := b]> d').
Proof. intros Hq Hf r Hr. rewrite lookup_insert_ne; [by apply Hf|]. by intros ->. Qed.
Lemma frame_delete ks d d' q : q ∈ ks -> frame ks d d' -> frame ks d (delete q d').
Proof. intros Hq Hf r Hr. rewrite lookup_delete_ne; [by apply Hf|]. by intros ->. Qed.
Lemma frame_plain ks d d' q : frame ks d d' -> q ∉ ks -> hidden q = false -> d' !! q = d !! q.
Proof. intros Hf Hq Hh. destruct (Hf q Hq) as [?|[? _]]; congruence. Qed.
Lemma frame_trans ks d1 d2 d3 : frame ks d1 d2 -> frame ks d2 d3 -> frame ks d1 d3.
Proof.
  intros H1 H2 q Hq. destruct (H2 q Hq) as [->|[Hh Hn]]; [by apply H1|].
  destruct (H1 q Hq) as [<-|?]; auto.
Qed.
Lemma noise_frame ks d d' : noise d d' -> frame ks d d'.
Proof. intros Hn q _. apply Hn. Qed.
#[export] Hint Resolve frame_refl frame_insert frame_delete frame_noise noise_frame : bacchus.

Ltac in_list := repeat (rewrite ?elem_of_cons, ?elem_of_nil); tauto.

Section Specs.
Context (ok : Env) `{JSONLaws Marker} `{JSONLaws stateFile} (t : string) (Ht : plain t).
Abbreviation prev := (PreviousPath t).
Abbreviation mk := (MarkerPath t).

Lemma prev_plain : plain prev.
Proof. by apply plain_suffix. Qed.
Lemma mk_plain : plain mk.
Proof. by apply plain_suffix. Qed.

Lemma plain_Base p : plain p -> free_of slash (Base p) = false -> False.
Proof. intros [_ Hl]. by rewrite Base_last_component, last_component_free. Qed.

Lemma wp_verifyFile path a C (Q : result UpErr unit -> Disk -> Prop) d :
  0 <= Size a < i64max -> C d ->
  (forall e, e = EReopen \/ (exists x, e = EVerify x) ->
     rfail ok \/ ~ (exists b, d !! path = Some b /\ genuine a b) -> Q (Err e) d) ->
  (forall b, d !! path = Some b -> genuine a b -> Q (Ok tt) d) ->
  wp ok (verifyFile path a) C Q d.
Proof.
  intros Hs HC HE HO. unfold verifyFile. apply wp_bind, wp_Open; [done| |].
  { intros Hr e. apply HE; [by left|]. destruct Hr as [?|Hn]; [by left|]. right. intros (b & Hb & _). congruence. }
  intros b s Hb Hcase. pose proof (VerifyArtifact_None a s Hs) as Hv.
  destruct ((VerifyArtifact a s).2) as [e|] eqn:He; simpl.
  - apply HE; [by eauto|]. destruct Hcase as [->|[? _]]; [|by left]. right. intros (b' & Hb' & Hg).
    rewrite Hb in Hb'. injection Hb' as <-. assert (Some e = None) by (apply Hv; done). done.
  - destruct (proj1 Hv eq_refl) as [Hg Hr]. destruct Hcase as [->|[_ ?]]; [by apply (HO b)|congruence].
Qed.

Lemma wp_writeMarker path m C (Q : result UpErr unit -> Disk -> Prop) d :
  plain path ->
  (forall d', noise d d' -> C d' /\ (wfail ok -> Q (Err EMarkerWrite) d')) ->
  (forall d', noise (<[path := Marshal m]> d) d' ->
     C d' /\ (wfail ok -> Q (Err EMarkerWrite) d') /\ Q (Ok tt) d') ->
  wp ok (writeMarker path m) C Q d.
Proof.
  intros Hp Hold Hnew. apply wp_fails_as, wp_WriteDurable.
  - apply Hold.
  - intros [Hw|Hf] d' e Hn; [by apply Hold|by apply plain_Base in Hf].
  - intros d' Hn. destruct (Hnew d' Hn) as (?&HE&?). split_and!; [done|intros Hw e; by apply HE|done].
Qed.

(** ** [Apply] *)

Definition kept_after (d : Disk) : option bytes :=
  match d !! t with Some o => Some o | None => d !! prev end.

(** Nothing published; the target moved aside; the new binary published. *)
Definition untouched (d d' : Disk) : Prop :=
  d' !! t = d !! t /\ (d' !! prev = d !! prev \/ (d' !! prev = None /\ is_Some (d !! t))).
Definition aside (d d' : Disk) : Prop :=
  is_Some (d !! t) /\ d' !! t = None /\ d' !! prev = d !! t.
Definition published (staged : string) (a : Artifact) (d d' : Disk) : Prop :=
  (exists new, d !! staged = Some new /\ genuine a new /\ d' !! t = Some new) /\
  d' !! prev = kept_after d /\ d' !! staged = None.

Definition apply_keys (staged : string) : list string := [t; prev; mk; staged].

Definition apply_crash (staged : string) (a : Artifact) (d d' : Disk) : Prop :=
  frame (apply_keys staged) d d' /\ (untouched d d' \/ aside d d' \/ published staged a d d').

Definition apply_returns (staged : string) (a : Artifact) (release : string) (d : Disk)
    (r : result UpErr unit) (d' : Disk) : Prop :=
  frame (apply_keys staged) d d' /\
  match r with
  | Ok _ => published staged a d d' /\
      d' !! mk = Some (Marshal (MkMarker release prev (Artifact_Name a) false))
  | Err e =>
      match e with
      | EPublishAndRestore => aside d d'
      | EReopen | EVerify _ => d' = d
      | _ => untouched d d'
      end /\ (rfail ok \/ wfail ok \/ ~ (exists b, d !! staged = Some b /\ genuine a b))
  end.
Section ApplyProof.
Context (staged : string) (a : Artifact) (release : string) (d : Disk).
Hypothesis Hapart : staged <> t /\ staged <> prev /\ staged <> mk.
Abbreviation M := (Marshal (MkMarker release prev (Artifact_Name a) false)).

(** What [Apply] can see of the disk. *)
Definition sees (d' : Disk) (vt vp vm vs : option bytes) : Prop :=
  frame (apply_keys staged) d d' /\
  d' !! t = vt /\ d' !! prev = vp /\ d' !! mk = vm /\ d' !! staged = vs.

Lemma sees_update q v d' vt vp vm vs : sees d' vt vp vm vs ->
  q ∈ apply_keys staged ->
  sees (partial_alter (fun _ => v) q d')
    (if decide (q = t) then v else vt) (if decide (q = prev) then v else vp)
    (if decide (q = mk) then v else vm) (if decide (q = staged) then v else vs).
Proof.
  intros (Hf & Ht' & Hp & Hm & Hs) Hq. split.
  { intros r Hr. rewrite lookup_partial_alter_ne; [by apply Hf|]. by intros ->. }
  split_and!; case_decide; subst; by rewrite ?lookup_partial_alter_eq, ?lookup_partial_alter_ne.
Qed.

Lemma sees_noise d' d'' vt vp vm vs :
  sees d' vt vp vm (Some vs) -> noise d' d'' -> sees d'' vt vp vm (Some vs).
Proof.
  intros (Hf & Ht' & Hp & Hm & Hs) Hn. split; [by eapply frame_noise|].
  split_and!; [rewrite (noise_plain _ _ _ Hn); [done|]..|by eapply noise_present].
  - apply Ht.
  - apply prev_plain.
  - apply mk_plain.
Qed.
(** The view after setting ([Some]) or removing ([None]) one of the files. *)
Ltac sees_put q v Hv :=
  let Hn := fresh "Hn" in
  pose proof (sees_update q v _ _ _ _ _ Hv ltac:(unfold apply_keys; in_list)) as Hn;
  clear Hv; rename Hn into Hv;
  repeat match type of Hv with
  | context [decide (?x = ?y)] =>
      first [ rewrite (decide_True (P := x = y)) in Hv by done
            | rewrite (decide_False (P := x = y)) in Hv
                by auto using PreviousPath_ne, MarkerPath_ne, Previous_Marker_ne, not_eq_sym ]
  end.

Lemma sees_refl new : d !! staged = Some new -> sees d (d !! t) (d !! prev) (d !! mk) (Some new).
Proof. intros Hs. by split_and!; eauto with bacchus. Qed.

Abbreviation crash := (apply_crash staged a d).
Abbreviation returns := (apply_returns staged a release d).
Abbreviation cause := (rfail ok \/ wfail ok \/ ~ (exists b, d !! staged = Some b /\ genuine a b)).

(** The prev file after a failed attempt: as it was, or consumed by the restore. *)
Definition prev_back (vp : option bytes) : Prop := vp = d !! prev \/ (vp = None /\ is_Some (d !! t)).

Lemma sees_untouched d' vt vp vm vs :
  sees d' vt vp vm vs -> vt = d !! t -> prev_back vp -> untouched d d'.
Proof. intros (_ & Hx & Hy & _) -> Hp. unfold untouched. by rewrite Hx, Hy. Qed.

Definition plain_failure (e : UpErr) : Prop :=
  match e with EPublishAndRestore | EReopen | EVerify _ => False | _ => True end.

Lemma fails_with e d' vt vp vm vs :
  sees d' vt vp vm vs -> vt = d !! t -> prev_back vp -> plain_failure e -> cause -> returns (Err e) d'.
Proof.
  intros Hv Hvt Hp He Hc. split; [apply Hv|]. split; [|done]. eapply sees_untouched in Hv; [|done..].
  by destruct e.
Qed.

Lemma wp_unmark e d' vt vp vm vs :
  sees d' vt vp vm vs -> vt = d !! t -> prev_back vp -> plain_failure e -> cause ->
  wp ok (run! _ := call (Remove mk) in Ret (Err e)) crash returns d'.
Proof.
  intros Hv Hvt Hp He Hc. apply wp_Remove_ignored.
  - split; [apply Hv|]. left. by eapply sees_untouched.
  - intros _. by eapply fails_with.
  - destruct Hapart as (? & ? & ?). sees_put (MarkerPath t) (@None bytes) Hv. by eapply fails_with.
Qed.

Lemma wp_install new d' vm (moved : bool) :
  d !! staged = Some new -> genuine a new ->
  vm = Some M -> moved = bool_decide (is_Some (d !! t)) ->
  sees d' None (kept_after d) vm (Some new) ->
  wp ok (install t staged moved) crash returns d'.
Proof.
  intros Hnew Hg -> -> Hv. destruct Hapart as (Hst & Hsp & Hsm).
  assert (Hcrash : crash d').
  { split; [apply Hv|]. destruct Hv as (_ & Hx & Hy & _). unfold kept_after in Hy.
    destruct (d !! t) as [o|] eqn:Ho.
    - right; left. unfold aside. rewrite Ho. by eauto.
    - left. split; [by rewrite Ho|by left]. }
  unfold install. apply wp_bind, wp_Rename; [done| | |].
  - intros Hw. apply wp_bind. case_bool_decide as Ho.
    + assert (kept_after d = d !! t) as Hk by (unfold kept_after; by destruct Ho as [o ->]).
      rewrite Hk in Hv. apply wp_Rename; [done| | |].
      * intros _. split; [apply Hv|]. split; [|by right; left]. by destruct Hv as (_ & ? & ? & _).
      * intros Hn. destruct Hv as (_ & _ & Hp & _). rewrite Hn in Hp. destruct Ho as [o Ho]. congruence.
      * intros b Hb. assert (Hp : Some b = d !! t) by (destruct Hv as (_ & _ & ? & _); congruence).
        sees_put (PreviousPath t) (@None bytes) Hv. sees_put t (Some b) Hv.
        eapply (wp_unmark EPublish); [exact Hv|done|by right|done|by right; left].
    + assert (kept_after d = d !! prev) as Hk by (unfold kept_after; by destruct (d !! t); [destruct Ho; eauto|]).
      assert (d !! t = None) as Hn by (destruct (d !! t); [destruct Ho; eauto|done]).
      rewrite Hk, <-Hn in Hv. eapply (wp_unmark EPublish); [exact Hv|done|by left|done|by right; left].
  - intros Hn. destruct Hv as (_ & _ & _ & _ & Hs). congruence.
  - intros b Hb. assert (b = new) as -> by (destruct Hv as (_ & _ & _ & _ & Hs); congruence).
    sees_put staged (@None bytes) Hv. sees_put t (Some new) Hv. destruct Hv as (Hf & Hx & Hy & Hz & Hw).
    assert (published staged a d (<[t := new]> (delete staged d'))) as Hpub.
    { split; [by exists new|]. by split. }
    apply wp_flush_ignored; [done|by split; [|right; right]|]. by split.
Qed.

Lemma wp_Apply : 0 <= Size a < i64max -> wp ok (Apply t staged a release) crash returns d.
Proof.
  intros Hs. destruct Hapart as (Hst & Hsp & Hsm).
  assert (crash d) as Hcd by (split; [apply frame_refl|left; split; [done|by left]]).
  unfold Apply. apply wp_try, wp_verifyFile; [done|done| |].
  { intros e He Hc. split; [apply frame_refl|].
    split; [by destruct He as [->|[x ->]]|destruct Hc; auto]. }
  intros new Hnew Hg. pose proof (sees_refl new Hnew) as Hv0.
  apply wp_bind, wp_writeMarker; [apply mk_plain|..].
  { intros d' Hn. pose proof (sees_noise _ _ _ _ _ _ Hv0 Hn) as Hv. split.
    - split; [apply Hv|]. left. eapply sees_untouched; [exact Hv|done|by left].
    - intros Hw. eapply wp_unmark; [exact Hv|done|by left|done|by right; left]. }
  intros d' Hn.
  pose proof Hv0 as Hv. sees_put (MarkerPath t) (Some M) Hv.
  apply (fun H => sees_noise _ _ _ _ _ _ H Hn) in Hv.
  assert (crash d') as Hc'.
  { split; [apply Hv|]. left. eapply sees_untouched; [exact Hv|done|by left]. }
  split_and!; [done| |].
  { intros Hw. eapply wp_unmark; [exact Hv|done|by left|done|by right; left]. }
  apply wp_bind, wp_Stat; [done| | |].
  - intros Hr. eapply wp_unmark; [exact Hv|done|by left|done|by left].
  - intros Hno. destruct (d !! t) as [o|] eqn:Ho; [destruct Hv as (_ & ? & _); congruence|].
    apply (wp_install new _ (Some M)); [done|done|done|by rewrite Ho, bool_decide_false by apply is_Some_None|].
    unfold kept_after. by rewrite Ho.
  - intros [o Ho]. assert (d !! t = Some o) as Hto by (destruct Hv as (_ & ? & _); congruence).
    apply wp_bind, wp_Rename; [done| | |].
    + intros Hw. eapply wp_unmark; [exact Hv|done|by left|done|by right; left].
    + congruence.
    + intros b Hb. assert (b = o) as -> by congruence.
      sees_put t (@None bytes) Hv. sees_put (PreviousPath t) (Some o) Hv.
      apply (wp_install new _ (Some M)); [done|done|done|by rewrite Hto, bool_decide_true by eauto|].
      unfold kept_after. by rewrite Hto.
Qed.
End ApplyProof.
End Specs.

Lemma returns_crash `{JSON Marker} (ok : Env) t staged a release d r d' :
  apply_returns ok t staged a release d r d' -> apply_crash t staged a d d'.
Proof.
  intros [Hf Hr]. split; [done|]. destruct r as [[]|e]; [by right; right; apply Hr|].
  destruct Hr as [Hr _]. assert (d' = d -> untouched t d d') by (intros ->; split; [done|by left]).
  destruct e; auto.
Qed.

(** ** The state file: read, change, write *)

Section StateSpecs.
Context (ok : Env) `{JSONLaws stateFile} (sp : string) (Hsp : plain sp).

Definition state_of (d : Disk) : stateFile * option UpErr :=
  match d !! sp with Some b => parse_state b | None => (zero_stateFile, None) end.

(** What a read may take for the state: the file's, or nothing when the read fails. *)
Definition reads (d : Disk) (r : stateFile * option UpErr) : Prop :=
  r = state_of d \/ (rfail ok /\ r = (zero_stateFile, Some EStateRead)).

Lemma wp_state_read C Q d :
  C d -> (forall r, reads d r -> Q r d) -> wp ok (state_read sp) C Q d.
Proof.
  intros HC HQ. unfold state_read. apply wp_bind, wp_ReadFile; [done|..]; unfold reads, state_of in HQ.
  - intros Hr. apply HQ. by right.
  - intros Hn. apply HQ. left. by rewrite Hn.
  - intros b Hb. apply HQ. left. by rewrite Hb.
Qed.

Lemma wp_state_Load C Q d :
  C d -> (forall f e, reads d (f, e) ->
            Q (MinSeq f, match e with Some _ => None | None => sf_Pending f end, e) d) ->
  wp ok (state_Load sp) C Q d.
Proof.
  intros HC HQ. apply wp_bind, wp_state_read; [done|]. intros [f [e|]] Hr; simpl; by apply HQ in Hr.
Qed.

Definition versioned (f : stateFile) : stateFile :=
  MkStateFile stateVersion (MinSeq f) (AppliedRelease f) (sf_Pending f).

Lemma wp_state_write f raises C (Q : result UpErr unit -> Disk -> Prop) d :
  (forall d', noise d d' -> C d' /\ (wfail ok -> Q (Err EStateWrite) d')) ->
  (forall d', noise (<[sp := Marshal (versioned f)]> d) d' ->
     C d' /\ (wfail ok -> Q (Err EStateWrite) d') /\ Q (Ok tt) d') ->
  wp ok (state_write sp f raises) C Q d.
Proof.
  intros Hold Hnew. apply wp_fails_as. destruct raises; [apply wp_WriteDurable|apply wp_Write].
  - apply Hold.
  - intros [Hw|Hf] d' e Hn; [by apply Hold|by apply plain_Base in Hf].
  - intros d' Hn. destruct (Hnew d' Hn) as (?&HE&?). split_and!; [done|intros Hw e; by apply HE|done].
  - apply Hold.
  - intros [Hw|Hf] d' e Hn; [by apply Hold|by apply plain_Base in Hf].
  - intros d' Hn. by destruct (Hnew d' Hn) as (?&_&?).
Qed.

(** The shape of [RaiseFloor], [SetPending] and [ClearPending]. *)
Lemma wp_rmw (g : stateFile -> stateFile) (raises : stateFile -> bool) C
    (Q : result UpErr unit -> Disk -> Prop) d :
  C d ->
  (forall d', noise d d' -> C d' /\ (wfail ok -> Q (Err EStateWrite) d')) ->
  (forall f e d', reads d (f, e) -> noise (<[sp := Marshal (versioned (g f))]> d) d' ->
     C d' /\ (wfail ok -> Q (Err EStateWrite) d') /\ Q (Ok tt) d') ->
  wp ok (run! (f, _) := state_read sp in state_write sp (g f) (raises f)) C Q d.
Proof.
  intros HC Hold Hnew. apply wp_bind, wp_state_read; [done|]. intros [f e] Hr.
  apply wp_state_write; [done|]. intros d' Hn. by eapply Hnew.
Qed.

Lemma state_of_written f d d' :
  noise (<[sp := Marshal (versioned f)]> d) d' -> state_of d' = (versioned f, None).
Proof.
  intros Hn. unfold state_of. rewrite (noise_plain _ _ _ Hn) by apply Hsp.
  rewrite lookup_insert_eq. unfold parse_state. by rewrite Unmarshal_Marshal.
Qed.
Lemma state_of_noise d d' : noise d d' -> state_of d' = state_of d.
Proof. intros Hn. unfold state_of. by rewrite (noise_plain _ _ _ Hn) by apply Hsp. Qed.
End StateSpecs.

(** ** Staging *)

(** What a source may answer, and that asking it changes no file. *)
Class SourceReads (ok : Env) (src : Source) (manifests : result SrcErr bytes -> Prop)
    (artifacts : Artifact -> result SrcErr Stream -> Prop) : Prop := {
  reads_Manifest : forall (C : Disk -> Prop) d, C d ->
    wp ok (src_Manifest src) C (fun r d' => d' = d /\ manifests r) d;
  reads_Artifact : forall (C : Disk -> Prop) d a, C d ->
    wp ok (src_Artifact src a) C (fun r d' => d' = d /\ artifacts a r) d;
}.

Definition anything {A} (_ : A) : Prop := True.
#[export] Instance DirSource_reads ok dir cancelled :
  SourceReads ok (DirSource dir cancelled) anything (fun _ => anything).
Proof.
  split; intros; simpl; destruct cancelled; try by split.
  apply wp_bind, wp_fails_as, wp_call; [done|]. intros f _. simpl. by destruct (map_err _ _).
Qed.
#[export] Instance HTTPSource_reads ok base GET :
  SourceReads ok (HTTPSource base GET)
    (fun r => r = (let? s := get base GET ManifestName in readCapped s maxManifestBytes))
    (fun a r => r = get base GET (BlobDir +:+ "/" +:+ Artifact_Name a)).
Proof. by split; intros; simpl. Qed.

Lemma free_of_last c s : free_of c s = true -> last (bytes_of s) <> Some c.
Proof.
  induction s as [|x s IH]; [done|]. cbn [free_of]. intros Hf. b2p. change (bytes_of (String x s)) with (x :: bytes_of s).
  rewrite last_cons. destruct (last (bytes_of s)); [by apply IH|]. intros [= ->].
  by rewrite Ascii.eqb_refl in *.
Qed.

(** The staging file is not the file it is renamed to. *)
Lemma staging_ne t a n :
  plain t -> temp_name (Dir t) stagingPrefix n <> StagedPath t a.
Proof.
  intros Ht Heq. apply (f_equal last_component) in Heq.
  rewrite temp_last_component, StagedPath_component in Heq by done.
  apply (f_equal (fun s => last (bytes_of s))) in Heq. revert Heq.
  rewrite !bytes_of_app, !app_assoc, last_app. intros Heq.
  pose proof (free_of_last "d" (Itoa n) (free_of_Itoa "d" n eq_refl)) as Hl.
  rewrite (last_app _ (bytes_of stagedSuffix)) in Heq. simpl in Heq.
  destruct (last (bytes_of (Itoa n))); [congruence|]. discriminate Heq.
Qed.

Section StageSpecs.
Context (ok : Env) (src : Source) (t : string) (Ht : plain t) (a : Artifact).
Context (manifests : result SrcErr bytes -> Prop) (artifacts : Artifact -> result SrcErr Stream -> Prop).
Context `{!SourceReads ok src manifests artifacts}.
Hypothesis Hsize : 0 <= Size a < i64max.

(** An answer that delivers the artifact. *)
Definition delivers (r : result SrcErr Stream) : Prop :=
  exists s, r = Ok s /\ genuine a (data s) /\ read_err s = false /\ close_err s = false.

Definition stage_cause : Prop := rfail ok \/ wfail ok \/ exists r, artifacts a r /\ ~ delivers r.

Lemma delivered_copy s :
  genuine a (data s) -> read_err s = false ->
  copy_limited s (wrapi64 (Size a + 1)) = (data s, false).
Proof.
  intros [Hl _] Hr. unfold copy_limited. rewrite Hr, limit_all; [done|].
  rewrite wrapi64_id; [lia|]. unfold in_i64, i64min, i64max in *. lia.
Qed.

Section Staging.
Context (C : Disk -> Prop) (Q : result UpErr string -> Disk -> Prop) (d : Disk).
Hypothesis HC : forall d', noise d d' -> C d'.
Hypothesis HE : forall e d', stage_cause -> noise d d' -> Q (Err e) d'.
Hypothesis HO : forall b d', genuine a b -> noise (<[StagedPath t a := b]> d) d' ->
  d' !! StagedPath t a = Some b -> C d' /\ Q (Ok (StagedPath t a)) d'.

Section Tmp.
Context (tmp : string) (Hfresh : d !! tmp = None) (Hhid : hidden tmp = true) (Hne : tmp <> StagedPath t a).

Definition remove_after (r : result UpErr string) : prog (result UpErr string) :=
  run! _ := call (Remove tmp) in Ret r.

Lemma wp_give_up e x : stage_cause -> wp ok (remove_after (Err e)) C Q (<[tmp := x]> d).
Proof.
  intros Hc. apply wp_Remove_ignored; [apply HC|intros _; apply HE|apply HE]; eauto with bacchus.
Qed.

Lemma wp_close_give_up e x : stage_cause ->
  wp ok (close_err_with tmp e) C (fun r d' => wp ok (remove_after r) C Q d') (<[tmp := x]> d).
Proof.
  intros Hc. apply wp_flush_ignored; [done|apply HC; eauto with bacchus|]. by apply wp_give_up.
Qed.

Lemma wp_or_close e x o k : flushes o ->
  wp ok k C (fun r d' => wp ok (remove_after r) C Q d') (<[tmp := x]> d) ->
  wp ok (or_close tmp e (call o) k) C (fun r d' => wp ok (remove_after r) C Q d') (<[tmp := x]> d).
Proof.
  intros Ho Hk. apply wp_bind, wp_flush; [done|apply HC; eauto with bacchus| |done].
  intros Hw. apply wp_close_give_up. by right; left.
Qed.

Lemma wp_name b :
  wp ok (try! _ := verifyFile tmp a in
         try! _ := fails_as (fun _ => EName) (call (Rename tmp (StagedPath t a))) in
         run! _ := call (SyncDir (Dir t)) in Ret (Ok (StagedPath t a)))
    C (fun r d' => (~ genuine a b -> stage_cause) -> wp ok (remove_after r) C Q d') (<[tmp := b]> d).
Proof.
  assert (C (<[tmp := b]> d)) as Hc by (apply HC; eauto with bacchus).
  apply wp_try, wp_verifyFile; [done|done| |].
  { intros e _ Hcase Hcause. apply wp_give_up. destruct Hcase as [Hr|Hng]; [by left|].
    apply Hcause. intros Hg. apply Hng. exists b. by rewrite lookup_insert_eq. }
  intros b' Hb' Hg. rewrite lookup_insert_eq in Hb'. injection Hb' as <-.
  apply wp_try, wp_fails_as, wp_Rename; [done| | |].
  - intros Hw _. apply wp_give_up. by right; left.
  - by rewrite lookup_insert_eq.
  - intros b' Hb'. rewrite lookup_insert_eq in Hb'. injection Hb' as <-.
    rewrite delete_insert_id by done. cbn [map_err].
    assert (noise (<[StagedPath t a := b]> d) (delete tmp (<[StagedPath t a := b]> d))) as Hn.
    { apply noise_delete; [apply noise_refl|done|]. by rewrite lookup_insert_ne. }
    apply wp_flush_ignored; [done|eapply HO; [done|apply noise_refl|by rewrite lookup_insert_eq]|].
    intros _. apply wp_Remove_ignored.
    + eapply HO; [done|apply noise_refl|by rewrite lookup_insert_eq].
    + intros _. eapply HO; [done|apply noise_refl|by rewrite lookup_insert_eq].
    + eapply HO; [done|done|]. by rewrite lookup_delete_ne, lookup_insert_eq.
Qed.

Lemma wp_download :
  wp ok (download src a t tmp) C (fun r d' => wp ok (remove_after r) C Q d') (<[tmp := []]> d).
Proof.
  assert (forall x, C (<[tmp := x]> d)) as Hc by (intros; apply HC; eauto with bacchus).
  unfold download. apply wp_bind.
  eapply wp_mono; [apply (reads_Artifact C _ a); auto|done|]. intros r d' [-> Hr].
  destruct r as [s|e]; [|apply wp_close_give_up; right; right; exists (Err e); split; [done|by intros (?&?&_)]].
  assert (forall P, (genuine a (data s) -> read_err s = false -> close_err s = false -> P -> False) ->
          P -> stage_cause) as Hbad.
  { intros P HP Hx. right; right. exists (Ok s). split; [done|].
    intros (s' & [= <-] & Hg & Hre & Hce). by apply HP. }
  pose proof (delivered_copy s) as Hcopy.
  destruct (copy_limited s (wrapi64 (Size a + 1))) as [got failed].
  apply wp_bind, (wp_Append ok tmp got C _ _ []); [by rewrite lookup_insert_eq|done| |].
  { intros Hw n. rewrite insert_insert_eq. apply wp_close_give_up. by right; left. }
  rewrite insert_insert_eq. cbn [app]. destruct failed.
  { apply wp_close_give_up. apply (Hbad True); [|done]. intros Hg Hre _ _. by specialize (Hcopy Hg Hre). }
  destruct (close_err s) eqn:Hce.
  { apply wp_close_give_up. by apply (Hbad True). }
  destruct (Z.eqb_spec (Z.of_nat (List.length got)) (Size a)) as [Hlen|Hlen]; cbn [negb].
  2: { apply wp_close_give_up. apply (Hbad True); [|done]. intros Hg Hre _ _.
       specialize (Hcopy Hg Hre) as [= ->]. by destruct Hg. }
  apply wp_or_close; [done|]. apply wp_or_close; [done|].
  apply wp_try, wp_fails_as, wp_flush; [done|done|intros Hw; apply wp_give_up; by right; left|]. cbn [map_err].
  eapply wp_mono; [apply wp_name|done|]. cbn beta. intros r d' Hr'. apply Hr'. intros Hng.
  apply (Hbad True); [|done]. intros Hg Hre _ _. by specialize (Hcopy Hg Hre) as [= ->].
Qed.
End Tmp.

Lemma wp_Stage : wp ok (Stage src a t) C Q d.
Proof.
  unfold Stage. apply wp_try, wp_fails_as, wp_CreateTemp; [apply HC, noise_refl| |].
  { intros [Hw|?]; [|done]. apply HE; [by right; left|apply noise_refl]. }
  intros n Hf Hn. cbn [map_err]. apply wp_bind. apply wp_download; [done|by apply temp_hidden|by apply staging_ne].
Qed.
End Staging.
End StageSpecs.

(** ** The watchdog *)

Section WatchdogSpecs.
Context (ok : Env) `{JSONLaws Marker} (t : string) (Ht : plain t).
Abbreviation prev := (PreviousPath t).
Abbreviation mk := (MarkerPath t).

(** The marker as a reader takes it. *)
Definition marker_of (d : Disk) : option Marker :=
  match d !! mk with
  | Some b => Some (match Unmarshal b with Some m => m | None => zero_Marker end)
  | None => None
  end.

Lemma wp_readMarker C Q d :
  C d -> (rfail ok -> Q (Err EMarkerRead) d) -> Q (Ok (marker_of d)) d -> wp ok (readMarker mk) C Q d.
Proof.
  intros HC HE HO. unfold readMarker. unfold marker_of in HO.
  apply wp_bind, wp_ReadFile; [done|done|by intros Hn; rewrite Hn in HO|by intros b Hb; rewrite Hb in HO].
Qed.

Lemma wp_clearMarker C Q d :
  C d -> (wfail ok -> Q (Err EMarkerClear) d) -> Q (Ok tt) (delete mk d) -> wp ok (clearMarker t) C Q d.
Proof.
  intros HC HE HO. apply wp_bind, wp_Remove; [done|done| |done].
  intros Hn. by rewrite delete_id in HO.
Qed.

Lemma wp_Confirm C Q d :
  C d -> (rfail ok -> Q (Err EMarkerRead) d) ->
  (match marker_of d with Some m => mk_Started m = false | None => True end -> Q (Ok tt) d) ->
  (forall m, marker_of d = Some m -> mk_Started m = true ->
     (wfail ok -> Q (Err EMarkerClear) d) /\ Q (Ok tt) (delete mk d)) ->
  wp ok (Confirm t) C Q d.
Proof.
  intros HC HE HN HS. apply wp_try, wp_readMarker; [done|done|].
  destruct (marker_of d) as [m|] eqn:Hm; [|by apply HN].
  destruct (mk_Started m) eqn:Hst; cbn [negb]; [|by apply HN].
  destruct (HS m eq_refl Hst). by apply wp_clearMarker.
Qed.

(** The disk after a demotion, before the marker is cleared. *)
Definition demoted (d : Disk) (old : bytes) : Disk := <[t := old]> (delete prev d).

Lemma wp_CheckStartup C (Q : result UpErr unit -> Disk -> Prop) d :
  C d -> (rfail ok -> Q (Err EMarkerRead) d) ->
  (marker_of d = None -> Q (Ok tt) d) ->
  (is_Some (marker_of d) -> d !! prev = None \/ rfail ok ->
     (wfail ok -> Q (Err EMarkerClear) d) /\ Q (Ok tt) (delete mk d)) ->
  (forall m, marker_of d = Some m -> mk_Started m = false -> is_Some (d !! prev) ->
     (forall d', noise d d' -> C d' /\ (wfail ok -> Q (Err EMarkerWrite) d')) /\
     (forall d', noise (<[mk := Marshal (start m)]> d) d' ->
        C d' /\ (wfail ok -> Q (Err EMarkerWrite) d') /\ Q (Ok tt) d')) ->
  (forall m old, marker_of d = Some m -> mk_Started m = true -> d !! prev = Some old ->
     (wfail ok -> Q (Err EDemote) d) /\ C (demoted d old) /\
     (wfail ok -> Q (Err EMarkerClear) (demoted d old)) /\
     Q (Err ErrDemoted) (delete mk (demoted d old))) ->
  wp ok (CheckStartup t) C Q d.
Proof.
  intros HC HE HN Hclear Htrial Hdem. apply wp_try, wp_readMarker; [done|done|].
  destruct (marker_of d) as [m|] eqn:Hm; [|by apply HN].
  assert (Hstat : d !! prev = None \/ rfail ok -> wp ok (clearMarker t) C Q d).
  { intros Hs. destruct (Hclear ltac:(done) Hs). by apply wp_clearMarker. }
  apply wp_bind, wp_Stat; [done|by auto|by auto|]. intros [old Hold].
  destruct (mk_Started m) eqn:Hst; cbn [negb].
  - destruct (Hdem m old eq_refl Hst Hold) as (H1 & H2 & H3 & H4).
    apply wp_try, wp_fails_as, wp_Rename; [done|done|congruence|]. intros b Hb. cbn [map_err].
    assert (b = old) as -> by congruence.
    apply wp_flush_ignored; [done|done|]. by apply wp_try, wp_clearMarker.
  - destruct (Htrial m eq_refl Hst ltac:(by eauto)) as [H1 H2].
    apply wp_writeMarker; [by apply mk_plain|done|done].
Qed.
End WatchdogSpecs.
