(* ===== verification/UpdateSafety.v ===== *)
(** * The release channel keeps a working binary

    Theorems about the programs of [UpdateFS] for every list of fates, so for
    every failing call and every point at which the process is killed: what
    [Apply] leaves, that the target and the kept previous binary only ever hold
    the original bytes or bytes a signed manifest names, that the rollback floor
    only rises, that an honest release is applied, and that the marker is a
    probation of one trial start. *)

From S2P Require Import Prelude GoStrings Base64 Crypto Hashes Net FileSys Version Delegation Update UpdateFS UpdateSpecs.

Section Safety.
Context `{Ed25519} `{JSON Delegation.Cert} `{JSON Manifest} `{JSON Bundle}.
Context `{JSONLaws Marker} `{JSONLaws stateFile}.

(** ** Where an installation lives, and what it may hold *)

Record Install := MkInstall {
  i_target : string; i_state : string; i_os : string; i_arch : string; i_role : string; i_v : Verifier;
}.
Definition install_of (u : Updater) : Install :=
  MkInstall (u_target u) (u_state u) (u_os u) (u_arch u) (u_role u) (u_v u).

Context (I : Install) (original : bytes -> Prop).
Abbreviation t := (i_target I).
Abbreviation sp := (i_state I).
Abbreviation prev := (PreviousPath (i_target I)).
Abbreviation mk := (MarkerPath (i_target I)).

(** The row of this platform in a manifest the verifier accepted. *)
Definition trusted (a : Artifact) : Prop :=
  exists b now minSeq m, Verify (i_v I) b now minSeq = Ok m /\ Find m (i_os I) (i_arch I) (i_role I) = Ok a.

Definition good (b : bytes) : Prop := original b \/ exists a, trusted a /\ genuine a b.

Definition pending_ok (p : Pending) : Prop :=
  trusted (pd_Artifact p) /\ pd_Staged p = StagedPath t (pd_Artifact p).

Record Inv (d : Disk) : Prop := {
  inv_target : forall b, d !! t = Some b -> good b;
  inv_prev : forall b, d !! prev = Some b -> good b;
  inv_kept : is_Some (d !! t) \/ is_Some (d !! prev);
  inv_state : forall p, sf_Pending (state_of sp d).1 = Some p -> pending_ok p;
}.

Lemma trusted_size a : trusted a -> 0 <= Size a < i64max.
Proof.
  intros (b & now & minSeq & m & Hv & Hf). apply Verify_released in Hv.
  apply (mv_find _ (rel_valid _ _ _ _ _ Hv)) in Hf as [Ha _].
  apply row_size_range. by apply (proj1 (Forall_forall _ _) (mv_rows _ (rel_valid _ _ _ _ _ Hv)) a Ha).
Qed.

Context (Hnames : names_ok t sp).

Lemma t_plain : plain t.
Proof. apply Hnames. Qed.
Lemma sp_plain : plain sp.
Proof. apply Hnames. Qed.
Hint Resolve t_plain sp_plain : core.

Lemma plain_ne_hidden p q : plain p -> hidden q = true -> q <> p.
Proof. intros [Hp _] Hq ->. congruence. Qed.

Lemma staged_apart a :
  StagedPath t a <> t /\ StagedPath t a <> prev /\ StagedPath t a <> mk /\ StagedPath t a <> sp.
Proof.
  pose proof (StagedPath_hidden t a t_plain).
  split_and!; apply plain_ne_hidden; auto using prev_plain, mk_plain.
Qed.

(** The invariant looks at three files. *)
Lemma Inv_agree d d' :
  Inv d -> d' !! t = d !! t -> d' !! prev = d !! prev -> d' !! sp = d !! sp -> Inv d'.
Proof.
  intros [Ht Hp Hk Hs] E1 E2 E3. split; [by rewrite E1|by rewrite E2|by rewrite E1, E2|].
  unfold state_of in *. by rewrite E3.
Qed.

Lemma Inv_noise d d' : Inv d -> noise d d' -> Inv d'.
Proof.
  intros HI Hn. apply (Inv_agree d); [done|..]; apply (noise_plain _ _ _ Hn).
  - apply t_plain.
  - by apply prev_plain.
  - apply sp_plain.
Qed.

Definition floor (d : Disk) : Z := MinSeq (state_of sp d).1.

Section Env.
Context (ok : Env).

(** The invariant holds and, unless reads fail, the floor has not dropped. *)
Definition fine (d0 d : Disk) : Prop := Inv d /\ (~ rfail ok -> floor d0 <= floor d).

Lemma fine_refl d : Inv d -> fine d d.
Proof. by split; [|intros _]. Qed.
Lemma fine_trans d0 d1 d2 : fine d0 d1 -> fine d1 d2 -> fine d0 d2.
Proof. intros [_ H1'] [? H2']. split; [done|]. intros Hr. specialize (H1' Hr). specialize (H2' Hr). lia. Qed.
Lemma fine_noise d0 d d' : fine d0 d -> noise d d' -> fine d0 d'.
Proof.
  intros [HI Hf] Hn. split; [by eapply Inv_noise|]. unfold floor. by rewrite (state_of_noise sp sp_plain d d').
Qed.
Lemma fine_agree d0 d d' :
  fine d0 d -> d' !! t = d !! t -> d' !! prev = d !! prev -> d' !! sp = d !! sp -> fine d0 d'.
Proof.
  intros [HI Hf] E1 E2 E3. split; [by eapply Inv_agree|]. unfold floor, state_of in *. by rewrite E3.
Qed.

(** ** The state file *)

Lemma wp_rmw_fine (g : stateFile -> stateFile) raises d :
  (forall f, MinSeq f <= MinSeq (g f)) ->
  (forall f p, sf_Pending (g f) = Some p -> sf_Pending f = Some p \/ pending_ok p) ->
  Inv d ->
  wp ok (run! (f, _) := state_read sp in state_write sp (g f) (raises f)) (fine d)
    (fun r d' => fine d d' /\ frame [sp] d d' /\
       match r with
       | Ok _ => ~ rfail ok -> MinSeq (g (state_of sp d).1) <= floor d'
       | Err _ => wfail ok
       end) d.
Proof.
  intros Hg Hp HI. assert (Hold : forall d', noise d d' -> fine d d').
  { intros d' Hn. eapply fine_noise; [by apply fine_refl|done]. }
  apply wp_rmw; [apply sp_plain|by apply fine_refl|..].
  - intros d' Hn. split; [auto|]. intros Hw. split_and!; [auto|by apply noise_frame|done].
  - intros f e d' Hr Hn.
    pose proof (state_of_written sp sp_plain _ _ _ Hn) as Hs.
    assert (frame [sp] d d') as Hf.
    { eapply frame_noise; [|exact Hn]. apply frame_insert; [by left|apply frame_refl]. }
    assert (Hfloor : ~ rfail ok -> floor d' = MinSeq (g (state_of sp d).1)).
    { intros Hnr. unfold floor. rewrite Hs. destruct Hr as [Hr|[? _]]; [|done].
      unfold versioned. simpl. by rewrite <-Hr. }
    assert (fine d d').
    { destruct (nm_apart _ _ Hnames) as (Hst & Hsp & _). split.
      - destruct HI as [Ht' Hp' Hk' Hs'].
        assert (d' !! t = d !! t) as E1.
        { apply (frame_plain _ _ _ _ Hf); [intros Hx%list_elem_of_singleton; congruence|apply t_plain]. }
        assert (d' !! prev = d !! prev) as E2.
        { apply (frame_plain _ _ _ _ Hf); [intros Hx%list_elem_of_singleton; congruence|by apply prev_plain]. }
        split; [by rewrite E1|by rewrite E2|by rewrite E1, E2|].
        rewrite Hs. simpl. intros p Hpd. apply Hp in Hpd as [Hpd|?]; [|done].
        destruct Hr as [Hr|[_ Hr]]; [apply Hs'; by rewrite <-Hr|]. injection Hr as -> ->. discriminate Hpd.
      - intros Hnr. rewrite Hfloor by done. apply Hg. }
    split_and!; [done|by intros Hw; split_and!|done|done|]. intros Hnr. by rewrite Hfloor.
Qed.

Lemma wp_RaiseFloor seq d : Inv d ->
  wp ok (RaiseFloor sp seq) (fine d)
    (fun r d' => fine d d' /\ frame [sp] d d' /\
       match r with Ok _ => ~ rfail ok -> seq <= floor d' | Err _ => wfail ok end) d.
Proof.
  intros HI. set (g f := if MinSeq f <? seq then MkStateFile (sf_Version f) seq (AppliedRelease f) (sf_Pending f) else f).
  eapply wp_mono; [apply (wp_rmw_fine g (fun f => MinSeq f <? seq) d); [| |done]|done|].
  - intros f. subst g. simpl. destruct (Z.ltb_spec (MinSeq f) seq); simpl; lia.
  - intros f p. subst g. simpl. destruct (MinSeq f <? seq); simpl; auto.
  - intros [[]|e] d' (? & ? & Hr); split_and!; try done. intros Hnr. specialize (Hr Hnr).
    subst g. simpl in Hr. destruct (Z.ltb_spec (MinSeq (state_of sp d).1) seq); simpl in Hr; lia.
Qed.

Lemma wp_SetPending p d : Inv d -> pending_ok p ->
  wp ok (SetPending sp p) (fine d)
    (fun r d' => fine d d' /\ frame [sp] d d' /\
       match r with Ok _ => ~ rfail ok -> pd_Seq p <= floor d' | Err _ => wfail ok end) d.
Proof.
  intros HI Hp.
  set (g f := MkStateFile (sf_Version f) (if MinSeq f <? pd_Seq p then pd_Seq p else MinSeq f) (AppliedRelease f) (Some p)).
  eapply wp_mono; [apply (wp_rmw_fine g (fun f => MinSeq f <? pd_Seq p) d); [| |done]|done|].
  - intros f. subst g. simpl. destruct (Z.ltb_spec (MinSeq f) (pd_Seq p)); lia.
  - intros f q [= <-]. by right.
  - intros [[]|e] d' (? & ? & Hr); split_and!; try done. intros Hnr. specialize (Hr Hnr).
    subst g. simpl in Hr. destruct (Z.ltb_spec (MinSeq (state_of sp d).1) (pd_Seq p)); lia.
Qed.

Lemma wp_ClearPending rel d : Inv d ->
  wp ok (ClearPending sp rel) (fine d) (fun _ d' => fine d d' /\ frame [sp] d d') d.
Proof.
  intros HI.
  set (g f := MkStateFile (sf_Version f) (MinSeq f)
                (if negb (String.eqb rel "") then rel else AppliedRelease f) None).
  eapply wp_mono; [apply (wp_rmw_fine g (fun _ => false) d); [| |done]|done|].
  - intros f. subst g. simpl. lia.
  - intros f p. by subst g.
  - by intros r d' (? & ? & _).
Qed.
(** ** Publishing *)

Lemma crash_fine a d d' :
  trusted a -> Inv d -> apply_crash t (StagedPath t a) a d d' -> fine d d'.
Proof.
  intros Ha HI [Hf Hshape]. destruct (staged_apart a) as (_ & _ & _ & Hss).
  destruct (nm_apart _ _ Hnames) as (H1' & H2' & H3').
  assert (d' !! sp = d !! sp) as Esp.
  { apply (frame_plain _ _ _ _ Hf); [|apply sp_plain]. unfold apply_keys.
    rewrite !elem_of_cons, elem_of_nil. naive_solver. }
  split; [|intros _; unfold floor, state_of; by rewrite Esp].
  assert (forall p, sf_Pending (state_of sp d').1 = Some p -> pending_ok p) as Hst.
  { unfold state_of. rewrite Esp. apply HI. }
  destruct HI as [Ht Hp Hk _].
  destruct Hshape as [[E1 E2]|[(Hi & E1 & E2)|((new & _ & Hg & E1) & E2 & _)]]; split; try done.
  - by rewrite E1.
  - destruct E2 as [->|[-> _]]; [done|by intros].
  - rewrite E1. destruct E2 as [->|[_ ?]]; [done|by left].
  - by rewrite E1.
  - by rewrite E2.
  - rewrite E2. by right.
  - rewrite E1. intros b [= <-]. right. by exists a.
  - rewrite E2. unfold kept_after. destruct (d !! t); [|done]. naive_solver.
  - rewrite E1. by left.
Qed.

Definition applied_to (d : Disk) (a : Artifact) (release : string) (d' : Disk) : Prop :=
  (exists new, genuine a new /\ d !! StagedPath t a = Some new /\ d' !! t = Some new) /\
  d' !! prev = kept_after t d /\
  d' !! mk = Some (Marshal (MkMarker release prev (Artifact_Name a) false)).

Lemma frame_sp_keeps d d' q : frame [sp] d d' -> plain q -> q <> sp -> d' !! q = d !! q.
Proof.
  intros Hf [Hq _] Hne. apply (frame_plain _ _ _ _ Hf); [|done]. by intros ->%list_elem_of_singleton.
Qed.

Lemma u_target_I u : install_of u = I -> u_target u = t.
Proof. intros Hu. by rewrite <-Hu. Qed.
Lemma u_state_I u : install_of u = I -> u_state u = sp.
Proof. intros Hu. by rewrite <-Hu. Qed.

Lemma wp_publish u out a release d :
  install_of u = I -> Inv d -> trusted a -> Applied out = false ->
  wp ok (publish u out (StagedPath t a) a release) (fine d)
    (fun '(out', err) d' => fine d d' /\ o_Release out' = o_Release out /\
       (Applied out' = true -> err = None /\ applied_to d a release d') /\
       (Applied out' = false -> rfail ok \/ wfail ok \/
          ~ (exists b, d !! StagedPath t a = Some b /\ genuine a b))) d.
Proof.
  intros Hu HI Ha Hout. destruct (staged_apart a) as (S1 & S2 & S3 & S4).
  destruct (nm_apart _ _ Hnames) as (N1 & N2 & N3). unfold publish.
  rewrite (u_target_I u Hu), (u_state_I u Hu). apply wp_bind.
  eapply wp_mono; [apply (wp_Apply ok _ t_plain _ a release d); [done|by apply trusted_size]| |].
  { intros d' Hc. by eapply crash_fine. }
  intros [[]|e] d1 Hret; pose proof (crash_fine a d d1 Ha HI (returns_crash _ _ _ _ _ _ _ _ Hret)) as Hfine.
  - destruct Hret as [Hf [((new & Hs & Hg & E1) & E2 & _) E3]]. apply wp_bind.
    eapply wp_mono; [apply (wp_ClearPending release d1), Hfine| |].
    + intros d2 H2'. by eapply fine_trans.
    + intros r d2 [H2' Hf2]. split_and!; [by eapply fine_trans|done| |done].
      intros _. split; [done|]. unfold applied_to.
      rewrite !(frame_sp_keeps _ _ _ Hf2) by auto using prev_plain, mk_plain, not_eq_sym.
      split_and!; [by exists new|done|done].
  - split_and!; [done|done|by rewrite Hout|]. intros _. apply Hret.
Qed.
(** ** One check *)

Section Source.
Context (u : Updater) (Hu : install_of u = I).
Context (manifests : result SrcErr bytes -> Prop) (artifacts : Artifact -> result SrcErr Stream -> Prop).
Context `{!SourceReads ok (u_source u) manifests artifacts}.

(** The artifact is at the target, the binary it replaced is kept, the marker is set. *)
Definition now_installed (d : Disk) (a : Artifact) (release : string) (d' : Disk) : Prop :=
  (exists new, genuine a new /\ d' !! t = Some new) /\
  d' !! prev = kept_after t d /\
  d' !! mk = Some (Marshal (MkMarker release prev (Artifact_Name a) false)).

Lemma applied_installed d d1 a release d' :
  d1 !! t = d !! t -> d1 !! prev = d !! prev ->
  applied_to d1 a release d' -> now_installed d a release d'.
Proof.
  intros E1 E2 ((new & Hg & _ & Ht) & Hp & Hm). split_and!; [by exists new| |done].
  rewrite Hp. unfold kept_after. by rewrite E1, E2.
Qed.

Lemma staged_fine a b d d' : Inv d -> noise (<[StagedPath t a := b]> d) d' ->
  fine d d' /\ d' !! t = d !! t /\ d' !! prev = d !! prev.
Proof.
  intros HI Hn. destruct (staged_apart a) as (S1 & S2 & S3 & S4).
  assert (fine d (<[StagedPath t a := b]> d)) as Hf.
  { eapply fine_agree; [by apply fine_refl|..]; by rewrite lookup_insert_ne. }
  split_and!; [by eapply fine_noise|..].
  - rewrite (noise_plain _ _ _ Hn) by apply t_plain. by rewrite lookup_insert_ne.
  - rewrite (noise_plain _ _ _ Hn) by (by apply prev_plain). by rewrite lookup_insert_ne.
Qed.

Lemma frame_sp_present d d' q b : frame [sp] d d' -> q <> sp -> d !! q = Some b -> d' !! q = Some b.
Proof.
  intros Hf Hq Hb. destruct (Hf q) as [?|[_ ?]]; [by intros Hx%list_elem_of_singleton|congruence..].
Qed.

Definition fetch_result (m : Manifest) (a : Artifact) (out : Outcome) (d : Disk)
    (r : Outcome * option UpErr) (d' : Disk) : Prop :=
  let '(out', err) := r in
  fine d d' /\ o_Release out' = o_Release out /\
  (Applied out' = true ->
     err = None /\ now_installed d a (Release m) d' /\ (~ rfail ok -> ~ wfail ok -> Seq m <= floor d')) /\
  (Applied out' = false -> rfail ok \/ wfail ok \/ u_defer u = true \/ exists r, artifacts a r /\ ~ delivers a r).

Lemma wp_fetch m a out d :
  Inv d -> trusted a -> Applied out = false ->
  wp ok (fetch u m a out) (fine d) (fetch_result m a out d) d.
Proof.
  intros HI Ha Hout. destruct (nm_apart _ _ Hnames) as (N1 & N2 & N3).
  destruct (staged_apart a) as (_ & _ & _ & S4).
  unfold fetch. rewrite (u_target_I u Hu), (u_state_I u Hu). apply wp_bind.
  apply (wp_Stage ok _ t t_plain a manifests artifacts (trusted_size a Ha)).
  - intros d' Hn. eapply fine_noise; [by apply fine_refl|done].
  - intros e d' Hc Hn. split_and!; [eapply fine_noise; [by apply fine_refl|done]|done|by rewrite Hout|].
    intros _. destruct Hc as [?|[?|?]]; auto.
  - intros b d1 Hg Hn Hb. destruct (staged_fine a b d d1 HI Hn) as (Hf1 & E1 & E2). split; [done|].
    apply wp_bind. eapply wp_mono.
    { apply (wp_SetPending (MkPending (Release m) (Seq m) a (StagedPath t a)) d1); [apply Hf1|by split]. }
    { intros d2 Hf2. by eapply fine_trans. }
    intros [[]|e] d2 (Hf2 & Hfr & Hr); [|split_and!; [by eapply fine_trans|done|by cbn; rewrite Hout|by auto]].
    pose proof (fine_trans _ _ _ Hf1 Hf2) as Hf12. simpl in Hr. destruct (u_defer u) eqn:Hdefer.
    { split_and!; [done|done|by cbn; rewrite Hout|by auto]. }
    eapply wp_mono; [apply (wp_publish u _ a (Release m) d2); [done|apply Hf2|done|done]| |].
    { intros d3 Hf3. by eapply fine_trans. }
    intros [out' err] d3 (Hf3 & Hrel & Happ & Hnot). split_and!; [by eapply fine_trans|by rewrite Hrel| |].
    + intros Hap. destruct (Happ Hap) as [-> Hto]. split_and!; [done| |].
      * eapply applied_installed; [..|exact Hto].
        -- rewrite <-E1. apply frame_sp_keeps; [done|apply t_plain|done].
        -- rewrite <-E2. apply frame_sp_keeps; [done|by apply prev_plain|done].
      * intros Hnr _. destruct Hf3 as [_ Hf3]. specialize (Hr Hnr). specialize (Hf3 Hnr). lia.
    + intros Hap. destruct (Hnot Hap) as [?|[?|Hno]]; [auto..|]. destruct Hno. exists b. split; [|done].
      by apply (frame_sp_present d1).
Qed.
(** The manifest every answer carries, with a newer release and the row for here. *)
Definition offers (me : Version.Version) (now : Time) (minSeq : Z) (m : Manifest) (a : Artifact) : Prop :=
  (forall r, manifests r -> exists raw b, r = Ok raw /\ ParseBundle raw = Ok b /\ Verify (i_v I) b now minSeq = Ok m) /\
  (exists th, Parse (Release m) = Ok th /\ 0 < Compare th me) /\
  Find m (i_os I) (i_arch I) (i_role I) = Ok a /\
  forall r, artifacts a r -> delivers a r.

Lemma row_of_u m : Find m (u_os u) (u_arch u) (u_role u) = Find m (i_os I) (i_arch I) (i_role I).
Proof. by rewrite <-Hu. Qed.

(** What acting on the manifest [m] may do, from [d] on. *)
Definition act_result (me : Version.Version) (m : Manifest) (d : Disk)
    (r : Outcome * option UpErr) (d' : Disk) : Prop :=
  let '(out, err) := r in
  fine d d' /\
  (Applied out = true -> err = None /\ exists a th,
     Find m (i_os I) (i_arch I) (i_role I) = Ok a /\
     o_Release out = Release m /\ Parse (Release m) = Ok th /\ 0 < Compare th me /\
     now_installed d a (Release m) d' /\ (~ rfail ok -> ~ wfail ok -> Seq m <= floor d')) /\
  (Applied out = false -> rfail ok \/ wfail ok \/ u_defer u = true \/
     ~ (exists a th, Parse (Release m) = Ok th /\ 0 < Compare th me /\
          Find m (i_os I) (i_arch I) (i_role I) = Ok a /\ forall r, artifacts a r -> delivers a r)).

Lemma wp_act_on me pending m b now minSeq d :
  Verify (i_v I) b now minSeq = Ok m -> Inv d -> (~ rfail ok -> ~ wfail ok -> Seq m <= floor d) ->
  wp ok (act_on u me pending m) (fine d) (act_result me m d) d.
Proof.
  intros Hvf HI Hseq. unfold act_on. rewrite (u_target_I u Hu), row_of_u.
  assert (Hno : forall out err, Applied out = false ->
    ~ (exists a th, Parse (Release m) = Ok th /\ 0 < Compare th me /\
         Find m (i_os I) (i_arch I) (i_role I) = Ok a /\ forall r, artifacts a r -> delivers a r) ->
    act_result me m d (out, err) d).
  { intros out err Ho Hx. split_and!; [by apply fine_refl|by rewrite Ho|by auto]. }
  destruct (Parse (Release m)) as [th|e] eqn:Hth; [|apply Hno; naive_solver].
  destruct (Z.leb_spec (Compare th me) 0) as [Hle|Hgt].
  { apply Hno; [done|]. intros (a & th' & [= <-] & ? & _). lia. }
  destruct (Find m (i_os I) (i_arch I) (i_role I)) as [a|e] eqn:Hfind; [|apply Hno; naive_solver].
  assert (Ha : trusted a) by (exists b, now, minSeq, m; done).
  set (out := MkOutcome (Release m) false false "" false false false).
  assert (Hfetch : wp ok (fetch u m a out) (fine d) (act_result me m d) d).
  { eapply wp_mono; [by apply (wp_fetch m a out d)|done|].
    intros [out' err] d2 (Hf2 & Hrel & Happ & Hnot). split_and!; [done|..].
    - intros Hap. destruct (Happ Hap) as (-> & Hinst & Hfl). split; [done|]. by exists a, th.
    - intros Hap. destruct (Hnot Hap) as [?|[?|[?|(r & Hra & Hnd)]]]; [by auto..|].
      right; right; right. intros (a' & th' & _ & _ & Hx & Hdel).
      assert (a' = a) as -> by congruence. by destruct Hnd; apply Hdel. }
  destruct (already_staged pending a (StagedPath t a)); [|done].
  apply wp_bind, wp_verifyFile; [by apply trusted_size|by apply fine_refl|by intros|].
  intros new Hnew Hg. destruct (u_defer u) eqn:Hdf; cbn [negb].
  { split_and!; [by apply fine_refl|done|by auto]. }
  eapply wp_mono; [by apply (wp_publish u _ a (Release m) d)|done|].
  intros [out' err] d2 (Hf2 & Hrel & Happ & Hnot). split_and!; [done|..].
  - intros Hap. destruct (Happ Hap) as [-> Hto]. split; [done|]. exists a, th.
    split_and!; try done; [by eapply applied_installed|]. intros Hnr Hnw. destruct Hf2 as [_ Hf2].
    specialize (Hf2 Hnr). specialize (Hseq Hnr Hnw). lia.
  - intros Hap. destruct (Hnot Hap) as [?|[?|Hx]]; [by auto..|]. destruct Hx. by exists new.
Qed.

(** What a check of manifests over the floor [minSeq] may do. *)
Definition check_result (me : Version.Version) (now : Time) (minSeq : Z) (d : Disk)
    (r : Outcome * option UpErr) (d' : Disk) : Prop :=
  fine d d' /\
  (Applied r.1 = true -> r.2 = None /\ exists b m a th,
     Verify (i_v I) b now minSeq = Ok m /\ Find m (i_os I) (i_arch I) (i_role I) = Ok a /\
     o_Release r.1 = Release m /\ Parse (Release m) = Ok th /\ 0 < Compare th me /\
     now_installed d a (Release m) d' /\ (~ rfail ok -> ~ wfail ok -> Seq m <= floor d')) /\
  (~ rfail ok -> ~ wfail ok -> u_defer u = false -> forall m a, offers me now minSeq m a ->
     Applied r.1 = true /\ o_Release r.1 = Release m /\
     now_installed d a (Release m) d' /\ Seq m <= floor d').

Lemma act_check me now minSeq m b d d1 r d' :
  Verify (i_v I) b now minSeq = Ok m -> (forall m' a', offers me now minSeq m' a' -> m' = m) ->
  fine d d1 -> d1 !! t = d !! t -> d1 !! prev = d !! prev ->
  act_result me m d1 r d' -> check_result me now minSeq d r d'.
Proof.
  intros Hvf Honly Hf1 E1 E2. destruct r as [out err]. intros (Hf2 & Happ & Hnot).
  assert (Hback : forall a, now_installed d1 a (Release m) d' -> now_installed d a (Release m) d').
  { intros a (Hi1 & Hi2 & Hi3). split_and!; [done| |done]. rewrite Hi2. unfold kept_after. by rewrite E1, E2. }
  split_and!; [by eapply fine_trans|..]; cbn [fst snd].
  - intros Hap. destruct (Happ Hap) as (-> & a & th & Hfi & Hrel & Hth & Hgt & Hinst & Hfl).
    split; [done|]. exists b, m, a, th. split_and!; auto.
  - intros Hnr Hnw Hdf m' a' Hoff. pose proof (Honly _ _ Hoff) as ->.
    destruct Hoff as (_ & (th' & Hth' & Hgt') & Hfi' & Hdel). destruct (Applied out) eqn:Hap.
    + destruct (Happ eq_refl) as (_ & a & th & Hfi & Hrel & _ & _ & Hinst & Hfl).
      assert (a' = a) as -> by congruence. split_and!; auto.
    + exfalso. destruct (Hnot eq_refl) as [?|[?|[?|Hx]]]; [done|done|congruence|]. apply Hx. by exists a', th'.
Qed.

Lemma wp_check_manifest me now minSeq pending d :
  Inv d ->
  wp ok (check_manifest u me now minSeq pending) (fine d) (check_result me now minSeq d) d.
Proof.
  intros HI. assert (u_v u = i_v I) as Hv by (by rewrite <-Hu).
  unfold check_manifest. rewrite (u_state_I u Hu), Hv. apply wp_bind.
  eapply wp_mono; [apply (reads_Manifest (fine d)); by apply fine_refl|done|]. intros r d' [-> Hr].
  assert (Hbad : forall e, (forall m a, offers me now minSeq m a -> False) ->
            check_result me now minSeq d (zero_Outcome, Some e) d).
  { intros e Hno. split_and!; [by apply fine_refl|done|]. intros _ _ _ m a Hx. by destruct (Hno m a). }
  destruct r as [raw|e]; [|apply Hbad; intros m a [Hm _]; by destruct (Hm _ Hr) as (?&?&?&_)].
  assert (Honly : forall m' a', offers me now minSeq m' a' ->
            (let? b := ParseBundle raw in Verify (i_v I) b now minSeq) = Ok m').
  { intros m' a' [Hm _]. destruct (Hm _ Hr) as (raw' & b & [= <-] & Hp & Hvf). by rewrite Hp. }
  destruct (let? b := ParseBundle raw in Verify (i_v I) b now minSeq) as [m|e] eqn:Hver.
  2: { apply Hbad. intros m a Hoff. by specialize (Honly m a Hoff). }
  apply rbind_Ok_inv in Hver as (b & Hpb & Hvf).
  apply wp_bind. eapply wp_mono; [by apply (wp_RaiseFloor (Seq m) d)|done|].
  intros rf d1 (Hf1 & Hfr & Hrf). destruct (nm_apart _ _ Hnames) as (N1 & N2 & _).
  eapply wp_mono; [apply (wp_act_on me pending m b now minSeq d1); [done|apply Hf1|]| |].
  - intros Hnr Hnw. destruct rf as [[]|e]; [by apply Hrf|done].
  - intros d2 Hf2. by eapply fine_trans.
  - intros r d2 Hact. eapply act_check; [done| |done|..|done].
    + intros m' a' Hoff. specialize (Honly m' a' Hoff). congruence.
    + apply frame_sp_keeps; [done|apply t_plain|done].
    + apply frame_sp_keeps; [done|by apply prev_plain|done].
Qed.

Lemma wp_Check stamp gated now d :
  Inv d ->
  wp ok (Check u stamp gated now) (fine d)
    (fun r d' => exists me minSeq, self u stamp = Ok me /\ gated = false /\ (~ rfail ok -> minSeq = floor d) /\
                   check_result me now minSeq d r d' \/
                 d' = d /\ Applied r.1 = false /\ (gated = true \/ exists e, self u stamp = Err e)) d.
Proof.
  intros HI. unfold Check. destruct (self u stamp) as [me|e] eqn:Hme.
  2: { exists (Version.MkVersion 0 0 0), 0. right. eauto. }
  destruct gated. { exists me, 0. right. eauto. }
  rewrite (u_state_I u Hu). apply wp_bind, wp_state_Load; [by apply fine_refl|]. intros f e Hr.
  eapply wp_mono; [by apply wp_check_manifest|done|]. intros r d' Hd'. exists me, (MinSeq f). left.
  split_and!; [done|done| |done]. intros Hnr. destruct Hr as [Hr|[? _]]; [|done].
  unfold floor. by rewrite <-Hr.
Qed.
End Source.

Lemma wp_ApplyPending u d : install_of u = I -> Inv d ->
  wp ok (ApplyPending u) (fine d)
    (fun r d' => fine d d' /\ (Applied r.1 = true -> exists p, pending_ok p /\
       r.2 = None /\ o_Release r.1 = pd_Release p /\ now_installed d (pd_Artifact p) (pd_Release p) d')) d.
Proof.
  intros Hu HI. unfold ApplyPending. rewrite (u_state_I u Hu).
  apply wp_bind, wp_state_Load; [by apply fine_refl|]. intros f e Hr.
  destruct e as [e|]; [by split; [apply fine_refl|]|].
  destruct (sf_Pending f) as [p|] eqn:Hp; [|by split; [apply fine_refl|]].
  assert (pending_ok p) as Hpd.
  { apply (inv_state d HI). destruct Hr as [Hr|[_ Hr]]; [by rewrite <-Hr|discriminate Hr]. }
  destruct Hpd as [Ha Hst]. rewrite Hst. destruct (staged_apart (pd_Artifact p)) as (S1 & S2 & S3 & S4).
  apply wp_bind, wp_verifyFile; [by apply trusted_size|by apply fine_refl| |].
  - intros e _ _.
    assert (Hclear : forall d1, fine d d1 -> wp ok (run! _ := ClearPending sp "" in
        Ret (MkOutcome (pd_Release p) false false (StagedPath t (pd_Artifact p)) false false false, Some e)) (fine d)
        (fun r d' => fine d d' /\ (Applied r.1 = true -> exists p, pending_ok p /\
           r.2 = None /\ o_Release r.1 = pd_Release p /\ now_installed d (pd_Artifact p) (pd_Release p) d')) d1).
    { intros d1 Hf1. apply wp_bind. eapply wp_mono; [apply (wp_ClearPending "" d1), Hf1| |].
      - intros d2 Hf2. by eapply fine_trans.
      - intros r d2 [Hf2 _]. split; [by eapply fine_trans|done]. }
    apply wp_Remove_ignored; [by apply fine_refl|intros _; apply Hclear; by apply fine_refl|].
    apply Hclear. eapply fine_agree; [by apply fine_refl|by rewrite lookup_delete_ne..].
  - intros new Hnew Hg. eapply wp_mono; [apply (wp_publish u _ (pd_Artifact p) (pd_Release p) d); done|done|].
    intros [out' err] d' (Hf & Hrel & Happ & _). split; [done|]. cbn [fst snd]. intros Hap.
    destruct (Happ Hap) as [-> Hto]. exists p. split_and!; [by split|done|done|].
    by eapply applied_installed.
Qed.
End Env.
End Safety.

(** ** Histories: checks, boundary applies, confirmations and starts *)

Section Histories.
Context `{Ed25519} `{JSON Delegation.Cert} `{JSON Manifest} `{JSON Bundle}.
Context `{JSONLaws Marker} `{JSONLaws stateFile}.

Inductive Event :=
| EvCheck (u : Updater) (stamp : string) (gated : bool) (now : Time)
| EvApplyPending (u : Updater)
| EvConfirm
| EvStartup.

Definition run_event (I : Install) (e : Event) (fs : list Fate) (d : Disk) : Disk :=
  match e with
  | EvCheck u stamp gated now => disk_after (Check u stamp gated now) fs d
  | EvApplyPending u => disk_after (ApplyPending u) fs d
  | EvConfirm => disk_after (Confirm (i_target I)) fs d
  | EvStartup => disk_after (CheckStartup (i_target I)) fs d
  end.

Definition run_events (I : Install) (evs : list (Event * list Fate)) (d : Disk) : Disk :=
  foldl (fun d ef => run_event I ef.1 ef.2 d) d evs.

(** A source that changes no file, whatever it answers. *)
Definition harmless (src : Source) : Prop := forall ok, SourceReads ok src anything (fun _ => anything).

Lemma DirSource_harmless dir cancelled : harmless (DirSource dir cancelled).
Proof. intros ok. apply _. Qed.
Lemma HTTPSource_harmless base GET : harmless (HTTPSource base GET).
Proof. intros ok. by split; intros; simpl. Qed.

(** The processes of one installation: same target, state, platform and root. *)
Definition event_of (I : Install) (e : Event) : Prop :=
  match e with
  | EvCheck u _ _ _ => install_of u = I /\ harmless (u_source u)
  | EvApplyPending u => install_of u = I
  | _ => True
  end.

Section One.
Context (I : Install) (original : bytes -> Prop) (Hnames : names_ok (i_target I) (i_state I)).
Abbreviation t := (i_target I).
Abbreviation fineI ok := (fine I original ok) (only parsing).

Lemma Confirm_fine ok d : Inv I original d -> wp ok (Confirm t) (fineI ok d) (fun _ => fineI ok d) d.
Proof.
  intros HI. destruct (nm_apart _ _ Hnames) as (_ & _ & Hm).
  assert (fine I original ok d (delete (MarkerPath t) d)).
  { eapply fine_agree; [by apply fine_refl|rewrite lookup_delete_ne; auto using MarkerPath_ne, Previous_Marker_ne, not_eq_sym..]. }
  apply wp_Confirm; intros; try (by apply fine_refl). by split; [intros _; apply fine_refl|].
Qed.

Lemma CheckStartup_fine ok d :
  Inv I original d -> wp ok (CheckStartup t) (fineI ok d) (fun _ => fineI ok d) d.
Proof.
  intros HI. destruct (nm_apart _ _ Hnames) as (N1 & N2 & N3). pose proof (nm_target _ _ Hnames) as Ht.
  assert (Hdel : forall d1, fine I original ok d d1 -> fine I original ok d (delete (MarkerPath t) d1)).
  { intros d1 Hf. eapply fine_agree; [exact Hf|rewrite lookup_delete_ne; auto using MarkerPath_ne, Previous_Marker_ne, not_eq_sym..]. }
  assert (Hrefl : fine I original ok d d) by (by apply fine_refl).
  apply wp_CheckStartup; [done|done|by intros|by intros|by intros; split; auto|..].
  - intros m _ _ _. split; [intros d' Hn; split; [|intros _]; by eapply fine_noise|].
    assert (fine I original ok d (<[MarkerPath t := Marshal (start m)]> d)) as Hf.
    { eapply fine_agree; [exact Hrefl|rewrite lookup_insert_ne; auto using MarkerPath_ne, Previous_Marker_ne, not_eq_sym..]. }
    intros d' Hn. split_and!; [|intros _|]; by eapply fine_noise.
  - intros m old _ _ Hold. assert (fine I original ok d (demoted t d old)) as Hf.
    { unfold demoted. assert ((<[t := old]> (delete (PreviousPath t) d)) !! i_state I = d !! i_state I) as Es.
      { by rewrite lookup_insert_ne, lookup_delete_ne by auto. }
      split; [|intros _; unfold floor, state_of; by rewrite Es].
      split; [rewrite lookup_insert_eq; intros b [= <-]; by apply (inv_prev _ _ d HI)| | |].
      - rewrite lookup_insert_ne, lookup_delete_eq by apply PreviousPath_ne. done.
      - rewrite lookup_insert_eq. by left.
      - unfold state_of. rewrite Es. apply HI. }
    split_and!; auto.
Qed.

(** Every event, under any environment that allows its fates. *)
Lemma event_fine ok e fs d :
  event_of I e -> Inv I original d ->
  (forall A (m : prog A) d, allowed ok m fs d) ->
  fine I original ok d (run_event I e fs d).
Proof.
  intros He HI Hall.
  assert (Hrun : forall A (m : prog A), wp ok m (fineI ok d) (fun _ => fineI ok d) d ->
            fine I original ok d (disk_after m fs d)).
  { intros A m Hm. pose proof (wp_run ok m _ _ d fs Hm (Hall A m d)) as Hr.
    unfold disk_after. by destruct (run m fs d) as [[d' [r|]] fs']. }
  destruct e as [u stamp gated now|u| |]; simpl in *.
  - destruct He as [Hu Hsrc]. apply Hrun. pose proof (Hsrc ok).
    eapply wp_mono; [by apply (wp_Check I original Hnames ok u Hu anything (fun _ => anything))|done|].
    intros r d' (me & ms & [(_ & _ & _ & Hf & _)|[-> _]]); [done|by apply fine_refl].
  - apply Hrun. eapply wp_mono; [by apply (wp_ApplyPending I original Hnames ok u d He)|done|].
    by intros r d' [Hf _].
  - by apply Hrun, Confirm_fine.
  - by apply Hrun, CheckStartup_fine.
Qed.

Lemma events_fine ok evs d :
  Forall (fun ef => event_of I ef.1) evs -> Inv I original d ->
  (forall ef A (m : prog A) d, ef ∈ evs -> allowed ok m ef.2 d) ->
  fine I original ok d (run_events I evs d).
Proof.
  revert d. induction evs as [|[e fs] evs IH]; intros d Hev HI Hall; [by apply fine_refl|].
  apply Forall_cons in Hev as [He Hev]. simpl in He.
  assert (fine I original ok d (run_event I e fs d)) as Hf.
  { apply event_fine; [done|done|]. intros A m d'. apply (Hall (e, fs)). by left. }
  eapply fine_trans; [exact Hf|]. apply (IH (run_event I e fs d)); [done|apply Hf|].
  intros ef A m d' Hin. apply Hall. by right.
Qed.
End One.
End Histories.
