(* ===== verification/UpdateTheorems.v ===== *)
(** * The release channel: theorems

    Over the specifications of [UpdateSpecs] and the invariant of [UpdateSafety]:
    what [Apply] leaves behind, the binary an installation keeps through every
    history of checks, applies, starts and crashes, the rollback floor, an honest
    release that is applied, the probation of a new release as a refinement of a
    small state machine, the bound on the calls every operation makes; and runs
    that show where the code does less than its comments say. *)

From S2P Require Import Prelude GoStrings Base64 Crypto Hashes Net FileSys Version Delegation Update UpdateFS UpdateSpecs UpdateSafety.

Section Theorems.
Context `{Ed25519} `{JSON Delegation.Cert} `{JSON Manifest} `{JSON Bundle}.
Context `{JSONLaws Marker} `{JSONLaws stateFile}.

(** C35: whichever calls fail and wherever the process is killed, [Apply] leaves one
    of three states and touches nothing but the target, its [.prev], its marker and
    the staged file: nothing published and the binary as it was; the old binary
    moved to [.prev] and the target gone; or the verified bytes at the target and
    the old binary in [.prev]. It returns success only in the last, with the marker
    of an untried release in place; an artifact that does not verify changes
    nothing; and only the double failure that the error names leaves the target
    gone. *)
Theorem Apply_contract t a release fs d :
  plain t -> 0 <= Size a < i64max ->
  let staged := StagedPath t a in
  let '(d', r, _) := run (Apply t staged a release) fs d in
  frame (apply_keys t staged) d d' /\
  (untouched t d d' \/ aside t d d' \/ published t staged a d d') /\
  match r with
  | None => True
  | Some (Ok _) => published t staged a d d' /\
      d' !! MarkerPath t = Some (Marshal (MkMarker release (PreviousPath t) (Artifact_Name a) false))
  | Some (Err EPublishAndRestore) => aside t d d'
  | Some (Err (EReopen | EVerify _)) => d' = d
  | Some (Err _) => untouched t d d'
  end.
Proof.
  intros Ht Hs staged. subst staged.
  assert (StagedPath t a <> t /\ StagedPath t a <> PreviousPath t /\ StagedPath t a <> MarkerPath t) as Hap.
  { pose proof (StagedPath_hidden t a Ht).
    split_and!; apply plain_ne_hidden; auto using prev_plain, mk_plain. }
  pose proof (wp_run any_fate _ _ _ d fs (wp_Apply any_fate t Ht _ a release d Hap Hs) (allowed_any _ _ _)) as Hr.
  destruct (run _ fs d) as [[d' [r|]] fs']; [|by destruct Hr as [Hf Hsh]; split; [exact Hf|split; [exact Hsh|]]].
  pose proof (returns_crash any_fate _ _ _ _ _ _ _ Hr) as [Hf Hsh]. split; [done|]. split; [done|].
  destruct Hr as [_ Hr]. destruct r as [[]|e]; [done|]. by destruct e; apply Hr.
Qed.

(** The disk [d] has a binary at the target or at its [.prev], and each is [orig] or
    the bytes of an artifact of a manifest that verified under the root. *)
Definition keeps_a_good_binary (I : Install) (orig : bytes) (d : Disk) : Prop :=
  (forall p b, p = i_target I \/ p = PreviousPath (i_target I) -> d !! p = Some b ->
     b = orig \/ exists a, trusted I a /\ genuine a b) /\
  (is_Some (d !! i_target I) \/ is_Some (d !! PreviousPath (i_target I))).

(** C5: in every history of update checks, boundary applies, confirmations and
    starts of one installation, with any source, any failing calls and any process
    kills, the target and its [.prev] hold only the binary the history began with
    or bytes whose length and SHA-256 are those of this platform's row in a manifest
    that verified under the root; and one of the two files is always there. *)
Theorem update_keeps_a_good_binary I orig d evs :
  names_ok (i_target I) (i_state I) ->
  d !! i_target I = Some orig -> d !! PreviousPath (i_target I) = None -> d !! i_state I = None ->
  Forall (fun ef => event_of I ef.1) evs ->
  keeps_a_good_binary I orig (run_events I evs d).
Proof.
  intros Hn Ht Hp Hs Hev. unfold keeps_a_good_binary.
  assert (Inv I (eq orig) d) as HI.
  { split; rewrite ?Ht, ?Hp; [intros b [= <-]; by left|done|by left|]. unfold state_of. by rewrite Hs. }
  pose proof (events_fine I (eq orig) Hn any_fate evs d Hev HI ltac:(intros; apply allowed_any)) as [[I1 I2 I3 _] _].
  split; [|done]. intros p b [->| ->] Hb; [apply I1 in Hb|apply I2 in Hb];
    destruct Hb as [<-|?]; eauto.
Qed.

Definition readable (fs : list Fate) : Prop := Forall (fun f => read_fault f = None) fs.

(** As long as reads succeed, whatever else fails, no history lowers the
    rollback floor of the state file; and a check that applies a release applies
    one that is newer than the running build and whose manifest verified with a
    sequence number at or above the floor of every earlier point of the history. *)
Theorem floor_never_lowers I original d evs u stamp gated now fs :
  names_ok (i_target I) (i_state I) -> Inv I original d ->
  Forall (fun ef => event_of I ef.1 /\ readable ef.2) evs ->
  install_of u = I -> harmless (u_source u) -> readable fs ->
  let d1 := run_events I evs d in
  let '(d2, r, _) := run (Check u stamp gated now) fs d1 in
  floor I d <= floor I d1 <= floor I d2 /\
  forall out err, r = Some (out, err) -> Applied out = true ->
    exists b m me th, Verify (i_v I) b now (floor I d1) = Ok m /\ o_Release out = Release m /\
      self u stamp = Ok me /\ Parse (Release m) = Ok th /\ 0 < Compare th me /\ floor I d <= Seq m.
Proof.
  intros Hn HI Hev Hu Hsrc Hfs d1.
  assert (Hall : Forall (fun ef => event_of I ef.1) evs) by (eapply Forall_impl; [exact Hev|naive_solver]).
  pose proof (events_fine I original Hn quiet_reads evs d Hall HI) as Hf1.
  destruct Hf1 as [HI1 Hfl1].
  { intros ef A m d' Hin. apply allowed_quiet. by apply (proj1 (Forall_forall _ _) Hev ef Hin). }
  specialize (Hfl1 quiet_no_rfail). fold d1 in HI1, Hfl1.
  pose proof (Hsrc quiet_reads).
  pose proof (wp_run quiet_reads _ _ _ d1 fs
    (wp_Check I original Hn quiet_reads u Hu anything (fun _ => anything) stamp gated now d1 HI1)
    (allowed_quiet _ _ _ Hfs)) as Hr.
  destruct (run _ fs d1) as [[d2 [r|]] fs'].
  2: { destruct Hr as [_ Hr]. specialize (Hr quiet_no_rfail). split; [lia|done]. }
  destruct Hr as (me & ms & [(Hme & _ & Hms & [_ Hf2] & Happ & _)|(-> & Ha & _)]).
  - specialize (Hf2 quiet_no_rfail). specialize (Hms quiet_no_rfail) as ->. split; [lia|].
    intros out err [= ->] Hap. destruct (Happ Hap) as (_ & b & m & a & th & Hv & _ & Hrel & Hth & Hgt & _).
    exists b, m, me, th. split_and!; try done. pose proof (rel_floor _ _ _ _ _ (Verify_released _ _ _ _ _ Hv)). lia.
  - split; [lia|]. intros out err [= ->] Hap. simpl in Ha. congruence.
Qed.

(** ** Every operation ends *)

Ltac calls := repeat first [ done | intros [] | case_match | progress simpl ].

Lemma calls_writeMarker p m : calls_at_most 8 (writeMarker p m).
Proof. apply (calls_bind _ _ 8 0); [apply calls_WriteDurable|done]. Qed.
Lemma calls_state_read p : calls_at_most 1 (state_read p).
Proof. calls. Qed.
Lemma calls_state_write p f r : calls_at_most 8 (state_write p f r).
Proof.
  apply (calls_bind _ _ 8 0); [|done].
  destruct r; [apply calls_WriteDurable|eapply calls_mono; [apply calls_Write|lia]].
Qed.
Lemma calls_rmw p g r :
  calls_at_most 9 (run! (f, _) := state_read p in state_write p (g f) (r f)).
Proof. apply (calls_bind _ _ 1 8); [apply calls_state_read|]. intros [f e]. apply calls_state_write. Qed.

Lemma calls_verifyFile p a : calls_at_most 1 (verifyFile p a).
Proof. calls. Qed.

Lemma calls_install t staged moved : calls_at_most 3 (install t staged moved).
Proof. unfold install. destruct moved; calls. Qed.

Lemma calls_Apply t staged a release : calls_at_most 14 (Apply t staged a release).
Proof.
  unfold Apply. apply (calls_try _ _ 1 13); [apply calls_verifyFile|]. intros [].
  apply (calls_bind _ _ 8 5); [apply calls_writeMarker|]. intros [[]|e]; [|calls].
  apply (calls_bind _ _ 1 4); [calls|]. intros [[]|[]]; [|by eapply calls_mono; [apply calls_install|lia]|calls].
  apply (calls_bind _ _ 1 3); [calls|]. intros [[]|[]]; [apply calls_install|calls..].
Qed.

Lemma calls_publish u out staged a release : calls_at_most 23 (publish u out staged a release).
Proof.
  apply (calls_bind _ _ 14 9); [apply calls_Apply|]. intros [[]|e]; [|calls].
  apply (calls_bind _ _ 9 0); [|done].
  apply (calls_rmw _ (fun f => MkStateFile (sf_Version f) (MinSeq f) _ None) (fun _ => false)).
Qed.

(** A source that answers with at most one call. *)
Definition prompt (src : Source) : Prop :=
  calls_at_most 1 (src_Manifest src) /\ forall a, calls_at_most 1 (src_Artifact src a).

Lemma DirSource_prompt dir cancelled : prompt (DirSource dir cancelled).
Proof. split; intros; simpl; destruct cancelled; calls. Qed.
Lemma HTTPSource_prompt base GET : prompt (HTTPSource base GET).
Proof. by split. Qed.

Lemma calls_Stage src a t : prompt src -> calls_at_most 10 (Stage src a t).
Proof.
  intros [_ Hsrc]. unfold Stage. apply (calls_try _ _ 1 9); [calls|]. intros tmp.
  apply (calls_bind _ _ 8 1); [|calls]. unfold download. apply (calls_bind _ _ 1 7); [apply Hsrc|].
  intros [s|e]; [|calls]. destruct (copy_limited _ _) as [got failed].
  apply (calls_bind _ _ 1 6); [calls|]. intros [[]|e]; [|calls]. destruct failed; [calls|].
  destruct (close_err s); [calls|]. destruct (negb _); [calls|].
  apply (calls_bind _ _ 1 5); [calls|]. intros [[]|e]; [|calls].
  apply (calls_bind _ _ 1 4); [calls|]. intros [[]|e]; [|calls].
  apply (calls_try _ _ 1 3); [calls|]. intros []. apply (calls_try _ _ 1 2); [apply calls_verifyFile|]. calls.
Qed.

Lemma calls_fetch u m a out : prompt (u_source u) -> calls_at_most 42 (fetch u m a out).
Proof.
  intros Hsrc. apply (calls_bind _ _ 10 32); [by apply calls_Stage|]. intros [staged|e]; [|calls].
  apply (calls_bind _ _ 9 23).
  - apply (calls_rmw _ (fun f => MkStateFile (sf_Version f)
      (if MinSeq f <? _ then _ else MinSeq f) (AppliedRelease f) (Some _)) (fun f => MinSeq f <? _)).
  - intros [[]|e]; [|calls]. destruct (u_defer u); [calls|apply calls_publish].
Qed.

Lemma calls_act_on u me pending m : prompt (u_source u) -> calls_at_most 43 (act_on u me pending m).
Proof.
  intros Hsrc. pose proof (fun a out => calls_fetch u m a out Hsrc) as Hf. unfold act_on.
  destruct (Parse _) as [th|]; [|done]. destruct (_ <=? 0); [done|]. destruct (Find _ _ _ _) as [a|]; [|done].
  destruct (already_staged _ _ _); [|eapply calls_mono; [apply Hf|lia]].
  apply (calls_bind _ _ 1 42); [apply calls_verifyFile|]. intros [[]|e]; [|apply Hf].
  destruct (negb _); [|done]. eapply calls_mono; [apply calls_publish|lia].
Qed.

Lemma calls_Check u stamp gated now :
  prompt (u_source u) -> calls_at_most 54 (Check u stamp gated now).
Proof.
  intros Hsrc. unfold Check. destruct (self u stamp); [|done]. destruct gated; [done|].
  apply (calls_bind _ _ 1 53).
  { apply (calls_bind _ _ 1 0); [apply calls_state_read|]. by intros [f [e|]]. }
  intros [[ms pd] e]. apply (calls_bind _ _ 1 52); [apply Hsrc|]. intros [raw|]; [|done].
  destruct (rbind _ _) as [m|]; [|done].
  apply (calls_bind _ _ 9 43); [|intros _; by apply calls_act_on].
  apply (calls_rmw _ (fun f => if MinSeq f <? Seq m then MkStateFile _ _ _ _ else f) (fun f => MinSeq f <? Seq m)).
Qed.

Lemma calls_ApplyPending u : calls_at_most 25 (ApplyPending u).
Proof.
  apply (calls_bind _ _ 1 24).
  { apply (calls_bind _ _ 1 0); [apply calls_state_read|]. by intros [f [e|]]. }
  intros [[ms [p|]] [e|]]; try done.
  apply (calls_bind _ _ 1 23); [apply calls_verifyFile|]. intros [[]|e]; [apply calls_publish|].
  apply (calls_bind _ _ 1 22); [calls|]. intros _. apply (calls_bind _ _ 9 13); [|done].
  apply (calls_rmw _ (fun f => MkStateFile (sf_Version f) (MinSeq f) _ None) (fun _ => false)).
Qed.

Lemma calls_CheckStartup t : calls_at_most 10 (CheckStartup t).
Proof.
  apply (calls_try _ _ 1 9); [calls|]. intros [m|]; [|done]. apply (calls_bind _ _ 1 8); [calls|].
  intros [[]|e]; [|calls]. destruct (negb _); [apply calls_writeMarker|calls].
Qed.

(** With either kind of source every operation of the update channel is over
    after a fixed number of system calls, whatever they answer: a check after 54, a
    boundary apply after 25, the start-up watchdog after 10, a confirmation after
    2. *)
Theorem update_operations_end u stamp gated now t fs d :
  prompt (u_source u) -> (54 <= List.length fs)%nat ->
  (exists r, (run (Check u stamp gated now) fs d).1.2 = Some r) /\
  (exists r, (run (ApplyPending u) fs d).1.2 = Some r) /\
  (exists r, (run (CheckStartup t) fs d).1.2 = Some r) /\
  (exists r, (run (Confirm t) fs d).1.2 = Some r).
Proof.
  intros Hsrc Hlen.
  split_and!; [apply (calls_return _ 54)|apply (calls_return _ 25)|apply (calls_return _ 10)|apply (calls_return _ 2)];
    try lia.
  - by apply calls_Check.
  - apply calls_ApplyPending.
  - apply calls_CheckStartup.
  - apply (calls_try _ _ 1 1); [calls|]. intros [m|]; calls.
Qed.

(** An honest release arrives. When no call fails, the source answers with a
    bundle that verifies over the recorded floor to a release newer than this build
    with a row for it, and delivers the bytes of that row, a check on an
    installation that does not defer returns with the release applied: the genuine
    bytes are at the target, what was there is kept, the marker of an untried
    release is set, and the floor is at least the manifest's sequence number. *)
Theorem honest_release_is_applied I original u stamp me now m a manifests artifacts fs d :
  names_ok (i_target I) (i_state I) -> Inv I original d -> install_of u = I ->
  SourceReads calm (u_source u) manifests artifacts -> prompt (u_source u) ->
  self u stamp = Ok me -> u_defer u = false ->
  offers I manifests artifacts me now (floor I d) m a ->
  allowed calm (Check u stamp false now) fs d -> (54 <= List.length fs)%nat ->
  exists d' out fs', run (Check u stamp false now) fs d = (d', Some (out, None), fs') /\
    Applied out = true /\ o_Release out = Release m /\
    now_installed I d a (Release m) d' /\ Seq m <= floor I d'.
Proof.
  intros Hn HI Hu Hsrc Hp Hme Hdf Hoff Hall Hlen.
  pose proof (wp_run calm _ _ _ d fs (wp_Check I original Hn calm u Hu manifests artifacts stamp false now d HI) Hall) as Hr.
  destruct (calls_return _ 54 fs d (calls_Check u stamp false now Hp) Hlen) as [r Hret].
  destruct (run (Check u stamp false now) fs d) as [[d' r'] fs']. simpl in Hret. subst r'.
  destruct Hr as (me' & ms & [(Hme' & _ & Hms & _ & Happ & Hlive)|(_ & _ & [?|[e He]])]); [|done|congruence].
  assert (me' = me) as -> by congruence. rewrite (Hms calm_reads) in Hlive.
  destruct (Hlive calm_reads calm_writes Hdf m a Hoff) as (Hap & Hrel & Hinst & Hfl).
  destruct (Happ Hap) as [Herr _]. destruct r as [out err]. simpl in *. subst err.
  exists d', out, fs'. by split_and!.
Qed.

(** ** The probation of a release

    The abstract machine: what runs at the next start, what is kept, and whether
    the release on probation has had its trial start. *)

Record Probation := MkProbation { at_target : option bytes; kept : option bytes; trial : option bool }.

Definition p_apply (new : bytes) (p : Probation) : Probation :=
  MkProbation (Some new) (match at_target p with Some o => Some o | None => kept p end) (Some false).

(** The new state, and whether this start demoted. *)
Definition p_start (p : Probation) : Probation * bool :=
  match trial p, kept p with
  | None, _ => (p, false)
  | Some _, None => (MkProbation (at_target p) None None, false)
  | Some false, Some o => (MkProbation (at_target p) (Some o) (Some true), false)
  | Some true, Some o => (MkProbation (Some o) None None, true)
  end.

Definition p_confirm (p : Probation) : Probation :=
  match trial p with Some true => MkProbation (at_target p) (kept p) None | _ => p end.

Definition probation_of (t : string) (d : Disk) : Probation :=
  MkProbation (d !! t) (d !! PreviousPath t) (mk_Started <$> marker_of t d).

Lemma probation_eq t d p :
  probation_of t d = p <-> d !! t = at_target p /\ d !! PreviousPath t = kept p /\ mk_Started <$> marker_of t d = trial p.
Proof. destruct p. unfold probation_of. simpl. split; [by intros [= <- <- <-]|by intros (-> & -> & ->)]. Qed.

Lemma probation_agree t d d' :
  d' !! t = d !! t -> d' !! PreviousPath t = d !! PreviousPath t -> d' !! MarkerPath t = d !! MarkerPath t ->
  probation_of t d' = probation_of t d.
Proof. intros E1 E2 E3. unfold probation_of, marker_of. by rewrite E1, E2, E3. Qed.

Lemma marker_deleted t d : marker_of t (delete (MarkerPath t) d) = None.
Proof. unfold marker_of. by rewrite lookup_delete_eq. Qed.

Lemma probation_unmarked t d :
  probation_of t (delete (MarkerPath t) d) = MkProbation (d !! t) (d !! PreviousPath t) None.
Proof.
  unfold probation_of. rewrite marker_deleted.
  by rewrite !lookup_delete_ne by auto using MarkerPath_ne, Previous_Marker_ne, not_eq_sym.
Qed.

Lemma wp_start t d : plain t ->
  wp calm (CheckStartup t) anything
    (fun r d' => probation_of t d' = (p_start (probation_of t d)).1 /\
       r = if (p_start (probation_of t d)).2 then Err ErrDemoted else Ok tt) d.
Proof.
  intros Ht. apply wp_CheckStartup; [done|done|by intros ?%calm_reads|..].
  - intros Hm. assert (trial (probation_of t d) = None) as Htr by (simpl; by rewrite Hm).
    unfold p_start. by rewrite Htr.
  - intros [m Hm] [Hp|?%calm_reads]; [|done]. split; [by intros ?%calm_writes|].
    rewrite probation_unmarked. unfold p_start, probation_of. simpl. rewrite Hm, Hp. simpl.
    by destruct (mk_Started m).
  - intros m Hm Hst [o Ho]. split; [by intros d' _; split; [|intros ?%calm_writes]|].
    intros d' Hn. split_and!; [done|by intros ?%calm_writes| |].
    + unfold p_start. simpl. rewrite Hm. simpl. rewrite Hst, Ho. apply probation_eq. simpl.
      rewrite !(noise_plain _ _ _ Hn) by (apply Ht || by apply prev_plain).
      rewrite !lookup_insert_ne by auto using MarkerPath_ne, Previous_Marker_ne, not_eq_sym.
      split_and!; [done|done|]. unfold marker_of. rewrite (noise_plain _ _ _ Hn) by (by apply mk_plain).
      by rewrite lookup_insert_eq, Unmarshal_Marshal.
    + unfold p_start. simpl. rewrite Hm. simpl. by rewrite Hst, Ho.
  - intros m o Hm Hst Ho. split_and!; [by intros ?%calm_writes|done|by intros ?%calm_writes| |].
    + rewrite probation_unmarked. unfold p_start, demoted. simpl. rewrite Hm. simpl. rewrite Hst, Ho.
      by rewrite lookup_insert_eq, lookup_insert_ne, lookup_delete_eq by apply PreviousPath_ne.
    + unfold p_start. simpl. rewrite Hm. simpl. by rewrite Hst, Ho.
Qed.

Lemma wp_confirm t d : plain t ->
  wp calm (Confirm t) anything
    (fun r d' => probation_of t d' = p_confirm (probation_of t d) /\ r = Ok tt) d.
Proof.
  intros Ht. apply wp_Confirm; [done|by intros ?%calm_reads|..].
  - intros Hm. split; [|done]. unfold p_confirm. simpl. destruct (marker_of t d); simpl; [by rewrite Hm|done].
  - intros m Hm Hst. split; [by intros ?%calm_writes|]. split; [|done].
    rewrite probation_unmarked. unfold p_confirm. simpl. rewrite Hm. simpl. by rewrite Hst.
Qed.

Lemma wp_apply t a release new d : plain t -> 0 <= Size a < i64max ->
  d !! StagedPath t a = Some new -> genuine a new ->
  wp calm (Apply t (StagedPath t a) a release) anything
    (fun r d' => probation_of t d' = p_apply new (probation_of t d) /\ r = Ok tt) d.
Proof.
  intros Ht Hs Hnew Hg.
  assert (StagedPath t a <> t /\ StagedPath t a <> PreviousPath t /\ StagedPath t a <> MarkerPath t) as Hap.
  { pose proof (StagedPath_hidden t a Ht).
    split_and!; apply plain_ne_hidden; auto using prev_plain, mk_plain. }
  eapply wp_mono; [by apply (wp_Apply calm t Ht _ a release d)|done|].
  intros [[]|e] d' [_ Hr].
  - destruct Hr as [((new' & Hn' & _ & Ht') & Hp & _) Hm]. assert (new' = new) as -> by congruence.
    split; [|done]. apply probation_eq. simpl. split_and!; [done|done|].
    unfold marker_of. by rewrite Hm, Unmarshal_Marshal.
  - destruct Hr as [_ [?%calm_reads|[?%calm_writes|Hx]]]; [done..|]. destruct Hx. eauto.
Qed.

(** The operations in sequence, when nothing fails. *)
Inductive Op := OApply (a : Artifact) (release : string) (new : bytes) | OStart | OConfirm.

Inductive calm_run (t : string) : Disk -> list (Op * bool) -> Disk -> Prop :=
| run_none d : calm_run t d [] d
| run_apply d a release new fs d1 fs1 ops d2 :
    0 <= Size a < i64max -> d !! StagedPath t a = Some new -> genuine a new ->
    allowed calm (Apply t (StagedPath t a) a release) fs d ->
    run (Apply t (StagedPath t a) a release) fs d = (d1, Some (Ok tt), fs1) ->
    calm_run t d1 ops d2 -> calm_run t d ((OApply a release new, false) :: ops) d2
| run_start d fs d1 r fs1 ops d2 :
    allowed calm (CheckStartup t) fs d -> run (CheckStartup t) fs d = (d1, Some r, fs1) ->
    calm_run t d1 ops d2 ->
    calm_run t d ((OStart, match r with Err ErrDemoted => true | _ => false end) :: ops) d2
| run_confirm d fs d1 r fs1 ops d2 :
    allowed calm (Confirm t) fs d -> run (Confirm t) fs d = (d1, Some r, fs1) ->
    calm_run t d1 ops d2 -> calm_run t d ((OConfirm, false) :: ops) d2.

(** The machine's run over the same operations: its state and which starts demoted. *)
Fixpoint p_run (p : Probation) (ops : list Op) : Probation * list bool :=
  match ops with
  | [] => (p, [])
  | op :: ops' =>
      let '(p1, demoted) := match op with
        | OApply _ _ new => (p_apply new p, false)
        | OStart => p_start p
        | OConfirm => (p_confirm p, false)
        end in
      let '(p2, l) := p_run p1 ops' in (p2, demoted :: l)
  end.

(** C36: when no call fails, any sequence of applies of staged genuine artifacts,
    starts and confirmations behaves as the probation machine: the disk shows the
    machine's state and exactly the starts the machine demotes return [ErrDemoted].
    In particular a release applied over a binary and started twice without a
    confirmation is replaced by that binary at the second start, and one confirmed
    after its first start stays through every later start. *)
Theorem probation_refines t d ops d' :
  plain t -> calm_run t d ops d' ->
  (probation_of t d', ops.*2) = p_run (probation_of t d) ops.*1 /\
  (forall a release new old, d !! t = Some old ->
     ops.*1 = [OApply a release new; OStart; OStart] ->
     d' !! t = Some old /\ ops.*2 = [false; false; true]) /\
  (forall a release new old n, d !! t = Some old ->
     ops.*1 = [OApply a release new; OStart; OConfirm] ++ replicate n OStart ->
     d' !! t = Some new /\ ops.*2 = replicate (3 + n) false).
Proof.
  intros Ht Hrun.
  assert (Href : (probation_of t d', ops.*2) = p_run (probation_of t d) ops.*1).
  { induction Hrun as [d|d a release new fs d1 fs1 ops d2 Hs Hn Hg Hall Hr _ IH
                      |d fs d1 r fs1 ops d2 Hall Hr _ IH|d fs d1 r fs1 ops d2 Hall Hr _ IH]; [done|..].
    - pose proof (wp_run calm _ _ _ d fs (wp_apply t a release new d Ht Hs Hn Hg) Hall) as Hw.
      rewrite Hr in Hw. destruct Hw as [Hp _]. cbn [fmap list_fmap fst snd p_run]. by rewrite <-Hp, <-IH.
    - pose proof (wp_run calm _ _ _ d fs (wp_start t d Ht) Hall) as Hw. rewrite Hr in Hw. destruct Hw as [Hp ->].
      cbn [fmap list_fmap fst snd p_run]. destruct (p_start (probation_of t d)) as [p1 b]. simpl in Hp |- *.
      rewrite <-Hp, <-IH. by destruct b.
    - pose proof (wp_run calm _ _ _ d fs (wp_confirm t d Ht) Hall) as Hw. rewrite Hr in Hw. destruct Hw as [Hp _].
      cbn [fmap list_fmap fst snd p_run]. by rewrite <-Hp, <-IH. }
  split_and!; [done|..].
  - intros a release new old Hold Hops. rewrite Hops in Href. unfold probation_of at 2 in Href. simpl in Href.
    rewrite Hold in Href. simpl in Href. apply pair_equal_spec in Href as [Hp Hl]. apply probation_eq in Hp as (Hp & _). by split.
  - intros a release new old n Hold Hops. rewrite Hops in Href. unfold probation_of at 2 in Href. simpl in Href.
    rewrite Hold in Href. simpl in Href.
    assert (p_run (MkProbation (Some new) (Some old) None) (replicate n OStart) =
      (MkProbation (Some new) (Some old) None, replicate n false)) as Hst.
    { clear. induction n as [|n IH]; [done|]. simpl. by rewrite IH. }
    unfold p_confirm in Href. cbn [trial at_target kept] in Href. rewrite Hst in Href. apply pair_equal_spec in Href as [Hp Hl]. apply probation_eq in Hp as (Hp & _). by split.
Qed.
End Theorems.

(** ** Witnesses *)

#[export] Instance Marker_eq_dec : EqDecision Marker.
Proof. solve_decision. Defined.
#[export] Instance Marker_countable : Countable Marker.
Proof.
  refine (inj_countable
    (fun r => [encode (mk_Release r); encode (mk_Previous r); encode (mk_Artifact r); encode (mk_Started r)])
    (fun l => match l with
              | [x0; x1; x2; x3] => x0 ← decode x0; x1 ← decode x1; x2 ← decode x2; x3 ← decode x3;
                  Some (MkMarker x0 x1 x2 x3)
              | _ => None
              end) _).
  intros []. cbv beta iota. by rewrite !decode_encode.
Defined.

#[export] Instance Pending_eq_dec : EqDecision Pending.
Proof. solve_decision. Defined.
#[export] Instance Pending_countable : Countable Pending.
Proof.
  refine (inj_countable
    (fun r => [encode (pd_Release r); encode (pd_Seq r); encode (pd_Artifact r); encode (pd_Staged r)])
    (fun l => match l with
              | [x0; x1; x2; x3] => x0 ← decode x0; x1 ← decode x1; x2 ← decode x2; x3 ← decode x3;
                  Some (MkPending x0 x1 x2 x3)
              | _ => None
              end) _).
  intros []. cbv beta iota. by rewrite !decode_encode.
Defined.

#[export] Instance stateFile_eq_dec : EqDecision stateFile.
Proof. solve_decision. Defined.
#[export] Instance stateFile_countable : Countable stateFile.
Proof.
  refine (inj_countable
    (fun r => [encode (sf_Version r); encode (MinSeq r); encode (AppliedRelease r); encode (sf_Pending r)])
    (fun l => match l with
              | [x0; x1; x2; x3] => x0 ← decode x0; x1 ← decode x1; x2 ← decode x2; x3 ← decode x3;
                  Some (MkStateFile x0 x1 x2 x3)
              | _ => None
              end) _).
  intros []. cbv beta iota. by rewrite !decode_encode.
Defined.


Module Demo.
Import Toy Update.Demo.

Definition target : string := "/usr/local/bin/node".
Definition state_path : string := target +:+ ".update-state".
Definition inst : Install := MkInstall target state_path "linux" "amd64" RoleNode verifier.

Definition GET (url : string) : option (Z * Stream) :=
  if String.eqb url "https://r/manifest.json" then Some (200, whole (Marshal bundle))
  else if String.eqb url ("https://r/blobs/" +:+ Artifact_Name row) then Some (200, whole new_binary)
  else None.

Definition u : Updater :=
  MkUpdater (HTTPSource "https://r" GET) target RoleNode "linux" "amd64" state_path false "1.2.0" verifier.
Definition me : Version.Version := Version.MkVersion 1 2 0.

Definition old_binary : bytes := bytes_of "release 1.2.0".
Definition older_binary : bytes := bytes_of "release 1.1.0".
Definition disk : Disk := {[target := old_binary]}.
Definition calm_fates (n : nat) : list Fate := replicate n (FileSys.good 1).

Definition staged : string := StagedPath target row.
Definition staged_disk : Disk := <[staged := new_binary]> disk.

Lemma names : names_ok target state_path.
Proof. apply default_names_ok. split; [vm_compute; reflexivity|vm_compute; discriminate]. Qed.
Lemma disk_inv : Inv inst (eq old_binary) disk.
Proof.
  assert (disk !! target = Some old_binary) as H1 by (vm_compute; reflexivity).
  assert (disk !! PreviousPath target = None) as H2 by (vm_compute; reflexivity).
  assert (disk !! state_path = None) as H3 by (vm_compute; reflexivity).
  split; cbn [i_target i_state inst].
  - intros b Hb. left. congruence.
  - congruence.
  - left. by exists old_binary.
  - intros p. unfold state_of. rewrite H3. discriminate.
Qed.
End Demo.
Import Toy Update.Demo Demo.

(** One check of the node: the release is applied; two starts without a
    confirmation put the old binary back. *)
Example demo_life :
  let '(d1, r1, _) := run (Check u "" false (2 * Hour)) (calm_fates 60) disk in
  let '(d2, r2, _) := run (CheckStartup target) (calm_fates 20) d1 in
  let '(d3, r3, _) := run (CheckStartup target) (calm_fates 20) d2 in
  r1 = Some (MkOutcome "1.3.0" false false staged true false false, None) /\
  d1 !! target = Some new_binary /\ d1 !! PreviousPath target = Some old_binary /\
  r2 = Some (Ok tt) /\ d2 !! target = Some new_binary /\
  r3 = Some (Err ErrDemoted) /\ d3 !! target = Some old_binary.
Proof. vm_compute. tauto. Qed.

(** [Apply]'s comment says there is no window in which the target does not exist;
    there is one between its two renames. *)
Example apply_has_a_window :
  let d := disk_after (Apply target staged row "1.3.0") (calm_fates 11) staged_disk in
  d !! target = None /\ d !! PreviousPath target = Some old_binary.
Proof. vm_compute. tauto. Qed.

(** [Apply]'s comment says a crash after the marker "finds no previous binary to
    restore": the [.prev] of the update before is still there, so two starts that do
    not confirm put back the binary of two releases ago, although nothing was
    published. *)
Example crash_after_marker_demotes :
  let d := <[PreviousPath target := older_binary]> staged_disk in
  let d1 := disk_after (Apply target staged row "1.3.0") (calm_fates 9) d in
  let '(d2, r2, _) := run (CheckStartup target) (calm_fates 20) d1 in
  let '(d3, r3, _) := run (CheckStartup target) (calm_fates 20) d2 in
  d1 !! target = Some old_binary /\ r2 = Some (Ok tt) /\
  r3 = Some (Err ErrDemoted) /\ d3 !! target = Some older_binary.
Proof. vm_compute. tauto. Qed.

(** A node that has applied a release and not been restarted checks again, applies
    the same release again, and moves the new binary over the old one in [.prev]:
    when the release then does not confirm, the demotion puts the same release
    back. *)
Example second_check_loses_the_old_binary :
  let '(d1, r1, _) := run (Check u "" false (2 * Hour)) (calm_fates 60) disk in
  let '(d2, r2, _) := run (Check u "" false (8 * Hour)) (calm_fates 60) d1 in
  let '(d3, _, _) := run (CheckStartup target) (calm_fates 20) d2 in
  let '(d4, r4, _) := run (CheckStartup target) (calm_fates 20) d3 in
  r1 = r2 /\ d1 !! PreviousPath target = Some old_binary /\
  d2 !! target = Some new_binary /\ d2 !! PreviousPath target = Some new_binary /\
  r4 = Some (Err ErrDemoted) /\ d4 !! target = Some new_binary.
Proof. vm_compute. tauto. Qed.

(** [RaiseFloor] and [ClearPending] ignore a failing read and write the state they
    did not read: the floor drops, although the comments say it only ratchets and
    that [ClearPending] does not lower it. *)
Example unreadable_state_lowers_the_floor :
  let d : Disk := {[state_path := Marshal (MkStateFile 1 9 "1.2.0" None)]} in
  floor inst d = 9 /\
  floor inst (disk_after (RaiseFloor state_path 5) (unreadable :: calm_fates 8) d) = 5 /\
  floor inst (disk_after (ClearPending state_path "1.3.0") (unreadable :: calm_fates 8) d) = 0.
Proof. vm_compute. tauto. Qed.

Lemma Apply_contract_witness :
  let '(d', r, _) := run (Apply target staged row "1.3.0") (calm_fates 14) staged_disk in
  frame (apply_keys target staged) staged_disk d' /\
  (untouched target staged_disk d' \/ aside target staged_disk d' \/ published target staged row staged_disk d') /\
  match r with
  | None => True
  | Some (Ok _) => published target staged row staged_disk d' /\
      d' !! MarkerPath target =
        Some (Marshal (MkMarker "1.3.0" (PreviousPath target) (Artifact_Name row) false))
  | Some (Err EPublishAndRestore) => aside target staged_disk d'
  | Some (Err (EReopen | EVerify _)) => d' = staged_disk
  | Some (Err _) => untouched target staged_disk d'
  end.
Proof.
  apply (Apply_contract target row "1.3.0" (calm_fates 14) staged_disk).
  - split; [vm_compute; reflexivity|vm_compute; discriminate].
  - cbn [Size row]. unfold i64max. lia.
Defined.

Definition demo_events : list (Event * list Fate) :=
  [(EvCheck u "" false (2 * Hour), calm_fates 60); (EvStartup, calm_fates 20);
   (EvCheck u "" false (3 * Hour), calm_fates 30); (EvStartup, [unreadable]); (EvConfirm, calm_fates 5)].

Lemma demo_events_ok : Forall (fun ef => event_of inst ef.1) demo_events.
Proof.
  pose proof (HTTPSource_harmless "https://r" GET). repeat constructor; done.
Qed.

Lemma update_keeps_a_good_binary_witness :
  keeps_a_good_binary inst old_binary (run_events inst demo_events disk).
Proof.
  apply (update_keeps_a_good_binary inst old_binary disk demo_events names);
    [vm_compute; reflexivity..|exact demo_events_ok].
Defined.

Lemma floor_never_lowers_witness :
  let d1 := run_events inst (take 3 demo_events) disk in
  let '(d2, r, _) := run (Check u "" false (4 * Hour)) (calm_fates 60) d1 in
  floor inst disk <= floor inst d1 <= floor inst d2 /\
  forall out err, r = Some (out, err) -> Applied out = true ->
    exists b m me th, Verify (i_v inst) b (4 * Hour) (floor inst d1) = Ok m /\ o_Release out = Release m /\
      self u "" = Ok me /\ Parse (Release m) = Ok th /\ 0 < Compare th me /\ floor inst disk <= Seq m.
Proof.
  apply (floor_never_lowers inst (eq old_binary) disk (take 3 demo_events) u "" false (4 * Hour) (calm_fates 60)
           names disk_inv).
  - pose proof (HTTPSource_harmless "https://r" GET).
    repeat constructor; try done; apply Forall_replicate; reflexivity.
  - reflexivity.
  - apply HTTPSource_harmless.
  - apply Forall_replicate. reflexivity.
Defined.

Lemma update_operations_end_witness :
  (exists r, (run (Check u "" false (2 * Hour)) (calm_fates 54) disk).1.2 = Some r) /\
  (exists r, (run (ApplyPending u) (calm_fates 54) disk).1.2 = Some r) /\
  (exists r, (run (CheckStartup target) (calm_fates 54) disk).1.2 = Some r) /\
  (exists r, (run (Confirm target) (calm_fates 54) disk).1.2 = Some r).
Proof.
  apply (update_operations_end u "" false (2 * Hour) target (calm_fates 54) disk).
  - apply HTTPSource_prompt.
  - apply Nat.leb_le. reflexivity.
Defined.

Lemma readCapped_whole b max : Z.of_nat (List.length b) <= max -> readCapped (whole b) max = Ok b.
Proof.
  intros Hb. unfold readCapped, copy_limited, whole. cbn [data read_err andb].
  rewrite limit_all by lia. cbn [fail_if rbind]. by rewrite (proj2 (Z.ltb_ge _ _)) by lia.
Qed.

Lemma demo_offers :
  offers inst
    (fun r => r = (let? s := get "https://r" GET ManifestName in readCapped s maxManifestBytes))
    (fun a r => r = get "https://r" GET (BlobDir +:+ "/" +:+ Artifact_Name a))
    me (2 * Hour) (floor inst disk) manifest row.
Proof.
  split_and!.
  - intros r ->. exists (Marshal bundle), bundle. split; [|split].
    + unfold get, GET.
      replace (String.eqb ("https://r" +:+ "/" +:+ ManifestName) "https://r/manifest.json") with true
        by (vm_compute; reflexivity).
      apply readCapped_whole, Z.leb_le. vm_compute. reflexivity.
    + vm_compute. reflexivity.
    + vm_compute. reflexivity.
  - exists (Version.MkVersion 1 3 0). split; [vm_compute; reflexivity|]. apply Z.ltb_lt. vm_compute. reflexivity.
  - vm_compute. reflexivity.
  - intros r ->. exists (whole new_binary). split_and!; [vm_compute; reflexivity|split; vm_compute; reflexivity|..]; reflexivity.
Qed.

Lemma honest_release_is_applied_witness :
  exists d' out fs', run (Check u "" false (2 * Hour)) (calm_fates 60) disk = (d', Some (out, None), fs') /\
    Applied out = true /\ o_Release out = Release manifest /\
    now_installed inst disk row (Release manifest) d' /\ Seq manifest <= floor inst d'.
Proof.
  apply (honest_release_is_applied inst (eq old_binary) u "" me (2 * Hour) manifest row
    (fun r => r = (let? s := get "https://r" GET ManifestName in readCapped s maxManifestBytes))
    (fun a r => r = get "https://r" GET (BlobDir +:+ "/" +:+ Artifact_Name a))
    (calm_fates 60) disk names disk_inv eq_refl (HTTPSource_reads calm "https://r" GET)
    (HTTPSource_prompt "https://r" GET)).
  - vm_compute. reflexivity.
  - reflexivity.
  - exact demo_offers.
  - vm_compute. tauto.
  - apply Nat.leb_le. reflexivity.
Defined.

Definition applied_disk : Disk := disk_after (Apply target staged row "1.3.0") (calm_fates 14) staged_disk.
Definition started_disk : Disk := disk_after (CheckStartup target) (calm_fates 10) applied_disk.
Definition demoted_disk : Disk := disk_after (CheckStartup target) (calm_fates 10) started_disk.

Lemma run_split {A} (m : prog A) fs d r :
  (run m fs d).1.2 = Some r -> run m fs d = (disk_after m fs d, Some r, (run m fs d).2).
Proof. unfold disk_after. destruct (run m fs d) as [[d' r'] fs']. simpl. by intros ->. Qed.

Lemma update_demo_run :
  calm_run target staged_disk
    [(OApply row "1.3.0" new_binary, false); (OStart, false); (OStart, true)] demoted_disk.
Proof.
  eapply (run_apply _ _ row "1.3.0" new_binary (calm_fates 14) applied_disk).
  - cbn [Size row]. unfold i64max. lia.
  - vm_compute. reflexivity.
  - split; vm_compute; reflexivity.
  - vm_compute. tauto.
  - apply run_split. vm_compute. reflexivity.
  - eapply (run_start _ _ (calm_fates 10) started_disk (Ok tt));
      [vm_compute; tauto|apply run_split; vm_compute; reflexivity|].
    eapply (run_start _ _ (calm_fates 10) demoted_disk (Err ErrDemoted));
      [vm_compute; tauto|apply run_split; vm_compute; reflexivity|]. apply run_none.
Qed.

Lemma probation_refines_witness :
  (probation_of target demoted_disk, [false; false; true]) =
    p_run (probation_of target staged_disk) [OApply row "1.3.0" new_binary; OStart; OStart] /\
  (forall a release new old, staged_disk !! target = Some old ->
     [OApply row "1.3.0" new_binary; OStart; OStart] = [OApply a release new; OStart; OStart] ->
     demoted_disk !! target = Some old /\ [false; false; true] = [false; false; true]) /\
  (forall a release new old n, staged_disk !! target = Some old ->
     [OApply row "1.3.0" new_binary; OStart; OStart] = [OApply a release new; OStart; OConfirm] ++ replicate n OStart ->
     demoted_disk !! target = Some new /\ [false; false; true] = replicate (3 + n) false).
Proof.
  apply (probation_refines target staged_disk
           [(OApply row "1.3.0" new_binary, false); (OStart, false); (OStart, true)] demoted_disk).
  - split; [vm_compute; reflexivity|vm_compute; discriminate].
  - exact update_demo_run.
Defined.
