(* ===== verification/Revocation.v ===== *)
(** * Signed revocations: [core/revocation], and the coordinator's loops that
    install revocation lists ([cmd/coordinator/revocations.go] and the file reload
    of [cmd/coordinator/admission.go])

    A namespace has one enforced list, an atomic pointer the verifiers read; two
    loops store into it, the signed source and the operator's file. *)

From stdpp Require Import relations.
From S2P Require Import Prelude GoStrings Base64 Admission Crypto Delegation.
Local Open Scope Z_scope.

(** ** [revocation.go] and [verify.go] *)

Definition Version : Z := 1.

Inductive Error := ErrMalformed | ErrUnsupportedVersion | ErrRollback | ErrDelegation (e : Delegation.Error).

Record Doc := MkDoc { d_Version : Z; AsOf : Time; Revoked : list string }.
Record Bundle := MkBundle { Revocations : bytes; b_Cert : bytes }.
Record Verifier := MkVerifier { rootPub : bytes; revoked : string -> bool }.

Definition NewVerifier (root : bytes) (rev : option (string -> bool)) : result Delegation.Error Verifier :=
  check! fail_if (bad_key_length root) ErrNoRoot;
  Ok (MkVerifier root (match rev with Some f => f | None => fun _ => false end)).

Section Verifying.
Context `{Ed25519} `{JSON Delegation.Cert} `{JSON Doc} `{JSON Bundle}.

Definition ParseBundle (data : bytes) : result Error Bundle :=
  let? b := of_option ErrMalformed (Decode data) in
  check! fail_if (bool_decide (Revocations b = []) || bool_decide (b_Cert b = [])) ErrMalformed;
  Ok b.

Definition document_error (e : Delegation.Error) : Error :=
  if bool_decide (e = Delegation.ErrMalformed) then ErrMalformed else ErrDelegation e.

Definition Verify (v : Verifier) (b : Bundle) (now minAsOf : Time) : result Error Doc :=
  let? cert := map_err ErrDelegation
    (VerifyDelegationCert (rootPub v) (b_Cert b) RoleRevocations now (Some (revoked v))) in
  let? body := map_err document_error (OpenSigned (cert_Pub cert) TagRevocationsDoc (Revocations b)) in
  let? d := of_option ErrMalformed (Unmarshal body) in
  check! fail_if (negb (d_Version d =? Version)) ErrUnsupportedVersion;
  check! fail_if (Before (AsOf d) minAsOf) ErrRollback;
  Ok d.
End Verifying.

(** ** [cache.go] *)

Definition cacheVersion : Z := 1.
Record cacheFile := MkCacheFile { cf_Version : Z; MinAsOf : Time; cf_Bundle : bytes }.
Definition zero_cacheFile : cacheFile := MkCacheFile 0 time_zero [].

(** What a read of the state file gives. *)
Inductive DiskState := Absent | Unreadable | Garbage | Parsed (f : cacheFile).
Inductive CacheError :=
| CacheRead | CacheParse | CacheVersion | CacheBundle (e : Error) | CacheMarshal | CacheWrite.

Section Caching.
Context `{Ed25519} `{JSON Delegation.Cert} `{JSON Doc} `{JSON Bundle} `{RawJSON}.

Definition Load (d : DiskState) (v : Verifier) (now : Time) : Time * option Doc * option CacheError :=
  match d with
  | Absent => (time_zero, None, None)
  | Unreadable => (time_zero, None, Some CacheRead)
  | Garbage => (time_zero, None, Some CacheParse)
  | Parsed f =>
      if negb (cf_Version f =? cacheVersion) then (MinAsOf f, None, Some CacheVersion)
      else if bool_decide (cf_Bundle f = []) then (MinAsOf f, None, None)
      else match ParseBundle (cf_Bundle f) with
           | Err e => (MinAsOf f, None, Some (CacheBundle e))
           | Ok b => match Verify v b now (MinAsOf f) with
                     | Err e => (MinAsOf f, None, Some (CacheBundle e))
                     | Ok loaded => (MinAsOf f, Some loaded, None)
                     end
           end
  end.

Definition peek (d : DiskState) : Time * cacheFile :=
  match d with
  | Parsed f => if negb (cf_Version f =? cacheVersion) then (MinAsOf f, zero_cacheFile)
                else (MinAsOf f, f)
  | _ => (time_zero, zero_cacheFile)
  end.

Definition writeAtomic (d : DiskState) (f : cacheFile) (raisesFloor : bool)
    (write_ok : bool -> bool) : DiskState * option CacheError :=
  if write_ok raisesFloor then (Parsed f, None) else (d, Some CacheWrite).

Definition Store (d : DiskState) (raw : bytes) (asOf : Time) (write_ok : bool -> bool)
    : DiskState * option CacheError :=
  let '(prev, _) := peek d in
  let raises := After asOf prev in
  let asOf := if Before asOf prev then prev else asOf in
  match raw_field raw with
  | None => (d, Some CacheMarshal)
  | Some raw => writeAtomic d (MkCacheFile cacheVersion asOf raw) raises write_ok
  end.

Definition StoreFloor (d : DiskState) (asOf : Time) (write_ok : bool -> bool)
    : DiskState * option CacheError :=
  let '(prev, f) := peek d in
  let raises := After asOf prev in
  let asOf := if Before asOf prev then prev else asOf in
  match raw_field (cf_Bundle f) with
  | None => (d, Some CacheMarshal)
  | Some raw => writeAtomic d (MkCacheFile cacheVersion asOf raw) raises write_ok
  end.
End Caching.

(** ** The coordinator's loops *)

Definition revocationsRefresh : Duration := 10 * Second.
Definition revocationsBackoffMax : Duration := 2 * Minute.

Fixpoint backoff_loop (d : Duration) (fails : nat) : Duration :=
  match fails with
  | O => d
  | S n => if d <? revocationsBackoffMax then backoff_loop (wrapi64 (d * 2)) n else d
  end.
Definition revocationsBackoffFor (fails : Z) : Duration :=
  if fails <=? 0 then revocationsRefresh
  else Z.min (backoff_loop revocationsRefresh (Z.to_nat fails)) revocationsBackoffMax.

Record revocationsLoopState := MkLoopState { minAsOf : Time; had : bool; lastAsOf : Time }.

(** [installRevocationsDoc] stores a fresh list into the shared pointer. *)
Definition installRevocationsDoc (d : Doc) : RevocationList :=
  foldl Revoke NewRevocationList (Revoked d).

(** One namespace: its loop's state, the shared pointer, the state file. *)
Record namespace := MkNamespace { loop : revocationsLoopState; target : RevocationList; disk : DiskState }.

Section Loop.
Context `{Ed25519} `{JSON Delegation.Cert} `{JSON Doc} `{JSON Bundle} `{RawJSON}.

Definition refreshRevocationsOnce (v : Verifier) (s : namespace) (fetched : option bytes)
    (now : Time) (write_ok : bool -> bool) : namespace * bool :=
  match fetched with
  | None => (s, false)
  | Some raw =>
      match ParseBundle raw with
      | Err _ => (s, false)
      | Ok bundle =>
          match Verify v bundle now (minAsOf (loop s)) with
          | Err _ => (s, false)
          | Ok d =>
              let m := if After (AsOf d) (minAsOf (loop s)) then AsOf d else minAsOf (loop s) in
              let '(dk, _) := Store (disk s) raw m write_ok in
              (MkNamespace (MkLoopState m true (AsOf d)) (installRevocationsDoc d) dk, true)
          end
      end
  end.

(** [startRevocationsNamespace] up to the start of the loop; [None] as target is
    a gate that is not configured. *)
Inductive NamespaceError := SourceRequired (label : string).
Definition startRevocationsNamespace (label source : string) (tgt : option RevocationList)
    (d : DiskState) (v : Verifier) (now : Time) : result NamespaceError (option namespace) :=
  match tgt with
  | None => Ok None
  | Some rl =>
      check! fail_if (String.eqb source "") (SourceRequired label);
      let '(m, cached, _) := Load d v now in
      Ok (Some match cached with
               | Some c => MkNamespace (MkLoopState m true (AsOf c)) (installRevocationsDoc c) d
               | None => MkNamespace (MkLoopState m false time_zero) rl d
               end)
  end.
End Loop.

(** The [load] closure of [reloadRevocationsLoop]: a file that does not load keeps
    the list. *)
Definition reloadRevocations `{JSON revocationFile} (current : RevocationList) (content : option bytes)
    : RevocationList :=
  match LoadRevocationList content with Ok rl => rl | Err _ => current end.

(** ** What is enforced *)

Lemma installRevocationsDoc_spec d : installRevocationsDoc d = list_to_set (Revoked d).
Proof.
  unfold installRevocationsDoc, NewRevocationList, Revoke.
  assert (forall l (r : RevocationList),
    foldl (fun (r : RevocationList) x => {[x]} ∪ r) r l = list_to_set l ∪ r) as Hgo.
  { induction l as [|x l IH]; intros r; simpl; [set_solver|]. rewrite IH. set_solver. }
  rewrite Hgo. set_solver.
Qed.

Lemma installRevocationsDoc_Revoked d serial :
  RevocationList_Revoked (installRevocationsDoc d) serial = true <-> serial ∈ Revoked d.
Proof.
  unfold RevocationList_Revoked. rewrite installRevocationsDoc_spec, bool_decide_eq_true. set_solver.
Qed.

Section Enforcement.
Context `{Ed25519} `{JSON Delegation.Cert} `{JSON Doc} `{JSON Bundle} `{RawJSON}.

Lemma revocation_Verify_facts v b now m d :
  Verify v b now m = Ok d ->
  (exists cert body,
    delegated (rootPub v) (b_Cert b) RoleRevocations now (Some (revoked v)) cert /\
    sealed_by (cert_Pub cert) TagRevocationsDoc (Revocations b) body /\ Unmarshal body = Some d) /\
  d_Version d = Version /\ m <= AsOf d.
Proof.
  unfold Verify, Before. intros Hv. inv_result. b2p.
  match goal with Hd : VerifyDelegationCert _ _ _ _ _ = Ok _ |- _ => apply VerifyDelegationCert_Ok in Hd end.
  match goal with Ho : OpenSigned _ _ _ = Ok _ |- _ => apply OpenSigned_Ok in Ho end.
  split_and!; eauto 6.
Qed.

(** A refresh either changes nothing (state, enforced list and disk) and
    reports failure, or installs a document that was signed under the revocations
    tag by a key the root delegated for the revocations role, whose time is not
    before the floor; then exactly the document's serials are revoked, and the floor
    is the document's time. *)
Theorem refresh_enforces v s fetched now w :
  let '(s', ok) := refreshRevocationsOnce v s fetched now w in
  (ok = false /\ s' = s) \/
  (ok = true /\ exists raw b cert body d,
    fetched = Some raw /\ ParseBundle raw = Ok b /\
    delegated (rootPub v) (b_Cert b) RoleRevocations now (Some (revoked v)) cert /\
    sealed_by (cert_Pub cert) TagRevocationsDoc (Revocations b) body /\ Unmarshal body = Some d /\
    minAsOf (loop s) <= AsOf d /\ minAsOf (loop s') = AsOf d /\
    forall serial, RevocationList_Revoked (target s') serial = true <-> serial ∈ Revoked d).
Proof.
  unfold refreshRevocationsOnce, After.
  destruct fetched as [raw|]; [|by left].
  destruct (ParseBundle raw) as [b|] eqn:Hb; [|by left].
  destruct (Verify v b now (minAsOf (loop s))) as [d|] eqn:Hv; [|by left].
  destruct (Store _ _ _ _) as [dk e]. right. split; [done|].
  apply revocation_Verify_facts in Hv as ((cert & body & Hd & Hs & Hu) & _ & Hm).
  exists raw, b, cert, body, d. split_and!; try done; simpl.
  - case_match; b2p; lia.
  - intros serial. apply installRevocationsDoc_Revoked.
Qed.
End Enforcement.

(** ** No rollback, across refreshes, file reloads and restarts *)

Section NoRollback.
Context `{Ed25519} `{JSON Delegation.Cert} `{JSON Doc} `{RawJSONLaws Bundle} `{JSON revocationFile}.
Context (v : Verifier) (label source : string).

Inductive step : namespace -> namespace -> Prop :=
| step_refresh s fetched now :
    (forall raw, fetched = Some raw -> is_Some (raw_field raw)) ->
    step s (refreshRevocationsOnce v s fetched now (fun _ => true)).1
| step_reload s content :
    step s (MkNamespace (loop s) (reloadRevocations (target s) content) (disk s))
| step_restart s s' now :
    startRevocationsNamespace label source (Some NewRevocationList) (disk s) v now = Ok (Some s') ->
    step s s'.

Definition floor_of (d : DiskState) : Time := (peek d).1.

Definition disk_ok (d : DiskState) : Prop :=
  forall f b now m doc, d = Parsed f -> ParseBundle (cf_Bundle f) = Ok b ->
    Verify v b now m = Ok doc -> AsOf doc <= MinAsOf f.

Record consistent (s : namespace) : Prop := {
  c_floor : floor_of (disk s) = minAsOf (loop s);
  c_disk : disk_ok (disk s);
  c_last : had (loop s) = true -> lastAsOf (loop s) = minAsOf (loop s);
}.

Lemma revocation_Verify_deterministic b now m d now' m' d' :
  Verify v b now m = Ok d -> Verify v b now' m' = Ok d' -> d = d'.
Proof. unfold Verify, VerifyDelegationCert. intros Hp Hp'. inv_result. congruence. Qed.

Lemma refresh_ns_consistent s fetched now :
  (forall raw, fetched = Some raw -> is_Some (raw_field raw)) -> consistent s ->
  let s' := (refreshRevocationsOnce v s fetched now (fun _ => true)).1 in
  consistent s' /\ minAsOf (loop s) <= minAsOf (loop s').
Proof.
  intros Hst Hc. pose proof Hc as [Hf Hd Hl]. unfold refreshRevocationsOnce, After.
  destruct fetched as [raw|]; [|by split].
  destruct (ParseBundle raw) as [b|] eqn:Hb; [|by split].
  destruct (Verify v b now (minAsOf (loop s))) as [d|] eqn:Hv; [|by split].
  pose proof (revocation_Verify_facts _ _ _ _ _ Hv) as (_ & _ & Hm).
  assert ((if minAsOf (loop s) <? AsOf d then AsOf d else minAsOf (loop s)) = AsOf d) as ->.
  { case_match; b2p; lia. }
  unfold Store, writeAtomic, Before. unfold floor_of in Hf.
  destruct (peek (disk s)) as [prev f]. simpl in Hf. subst prev.
  rewrite (proj2 (Z.ltb_ge (AsOf d) _)) by lia.
  destruct (Hst raw eq_refl) as [raw' Hraw]. rewrite Hraw. simpl. split; [|lia].
  split; simpl; [done| |done].
  intros f' b' n m p' [= <-] Hb' Hp'. simpl in *. unfold ParseBundle in Hb, Hb'.
  rewrite (raw_field_Decode _ _ Hraw), Hb in Hb'. injection Hb' as <-.
  by rewrite (revocation_Verify_deterministic _ _ _ _ _ _ _ Hp' Hv).
Qed.

Lemma Load_facts d now :
  (Load d v now).1.1 = floor_of d /\
  forall doc, (Load d v now).1.2 = Some doc ->
    exists f b, d = Parsed f /\ ParseBundle (cf_Bundle f) = Ok b /\ Verify v b now (MinAsOf f) = Ok doc.
Proof.
  unfold Load, floor_of, peek. destruct d as [| | |f]; try done.
  repeat case_match; split; try done; simpl; intros doc [= <-]; eauto 6.
Qed.

Lemma restart_ns_consistent s s' now :
  startRevocationsNamespace label source (Some NewRevocationList) (disk s) v now = Ok (Some s') ->
  consistent s -> consistent s' /\ minAsOf (loop s) <= minAsOf (loop s').
Proof.
  unfold startRevocationsNamespace. intros Hs [Hf Hd _]. inv_result.
  destruct (Load_facts (disk s) now) as [Hm Hc].
  destruct (Load (disk s) v now) as [[m cached] e]. simpl in *. subst m. injection Hs as <-.
  split; [|destruct cached; simpl; lia].
  destruct cached as [doc|]; split; simpl; try done. intros _.
  destruct (Hc doc eq_refl) as (f & b & Hp & Hb & Hv). pose proof (Hd f b now (MinAsOf f) doc Hp Hb Hv).
  apply revocation_Verify_facts in Hv as (_ & _ & ?). unfold floor_of, peek. rewrite Hp. case_match; simpl; lia.
Qed.

Lemma step_consistent s s' :
  step s s' -> consistent s -> consistent s' /\ minAsOf (loop s) <= minAsOf (loop s').
Proof.
  intros [] Hc; [by apply refresh_ns_consistent| |by eapply restart_ns_consistent].
  destruct Hc. by repeat split.
Qed.

(** While its disk works and its source serves JSON values, the signed
    revocation source never goes back: over any sequence of fetches, file reloads
    and restarts, the time of the signed document last installed never decreases. *)
Theorem revocations_never_roll_back s s' :
  consistent s -> rtc step s s' -> had (loop s) = true -> had (loop s') = true ->
  lastAsOf (loop s) <= lastAsOf (loop s').
Proof.
  intros Hc Hs Hh Hh'.
  assert (consistent s' /\ minAsOf (loop s) <= minAsOf (loop s')) as [Hc' Hm].
  { clear Hh Hh'. induction Hs as [s|a b c Hab _ IH]; [by split|].
    destruct (step_consistent _ _ Hab Hc) as [Hb Hle]. destruct (IH Hb). split; [done|lia]. }
  rewrite (c_last _ Hc Hh), (c_last _ Hc' Hh'). done.
Qed.
End NoRollback.

(** ** Witnesses *)

#[export] Instance Doc_eq_dec : EqDecision Doc.
Proof. solve_decision. Defined.
#[export] Instance Doc_countable : Countable Doc.
Proof.
  refine (inj_countable
    (fun r => [encode (d_Version r); encode (AsOf r); encode (Revoked r)])
    (fun l => match l with
              | [x0; x1; x2] => x0 ← decode x0; x1 ← decode x1; x2 ← decode x2;
                  Some (MkDoc x0 x1 x2)
              | _ => None
              end) _).
  intros []. cbv beta iota. by rewrite !decode_encode.
Defined.

#[export] Instance Bundle_eq_dec : EqDecision Bundle.
Proof. solve_decision. Defined.
#[export] Instance Bundle_countable : Countable Bundle.
Proof.
  refine (inj_countable
    (fun r => [encode (Revocations r); encode (b_Cert r)])
    (fun l => match l with
              | [x0; x1] => x0 ← decode x0; x1 ← decode x1;
                  Some (MkBundle x0 x1)
              | _ => None
              end) _).
  intros []. cbv beta iota. by rewrite !decode_encode.
Defined.


Module Demo.
Import Toy.
#[export] Existing Instance toy_json.
#[export] Existing Instance toy_raw_laws.

Definition root_key : PrivateKey := "r"%char.
Definition signer_key : PrivateKey := "s"%char.
Definition cert : Cert := MkCert 1 "c1" RoleRevocations (Public signer_key) 0 (100 * Hour) "".
Definition publish (d : Doc) : bytes :=
  Marshal (MkBundle (seal signer_key TagRevocationsDoc (Marshal d))
                    (seal root_key TagDelegationCert (Marshal cert))).
Definition verifier : Verifier := MkVerifier (Public root_key) (fun _ => false).
Definition raw1 : bytes := publish (MkDoc 1 Hour ["aa"]).
Definition raw2 : bytes := publish (MkDoc 1 (2 * Hour) ["aa"; "bb"]).
Definition fresh : namespace := MkNamespace (MkLoopState time_zero false time_zero) NewRevocationList Absent.
Definition s1 : namespace := (refreshRevocationsOnce verifier fresh (Some raw1) (3 * Hour) (fun _ => true)).1.
Definition s2 : namespace := (refreshRevocationsOnce verifier s1 (Some raw2) (4 * Hour) (fun _ => true)).1.

Lemma storable_bytes raw :
  bool_decide (is_Some (raw_field raw)) = true ->
  forall raw', Some raw = Some raw' -> is_Some (raw_field raw').
Proof. intros Hr raw' Heq. injection Heq as <-. by apply bool_decide_eq_true in Hr. Qed.
Lemma raw1_storable : forall raw, Some raw1 = Some raw -> is_Some (raw_field raw).
Proof. apply storable_bytes. vm_compute. reflexivity. Qed.
Lemma raw2_storable : forall raw, Some raw2 = Some raw -> is_Some (raw_field raw).
Proof. apply storable_bytes. vm_compute. reflexivity. Qed.
Lemma fresh_ns_consistent : consistent verifier fresh.
Proof. by split. Qed.
Lemma s1_consistent : consistent verifier s1.
Proof. exact (proj1 (refresh_ns_consistent verifier fresh (Some raw1) (3 * Hour) raw1_storable fresh_ns_consistent)). Qed.
End Demo.
Import Toy Demo.

Lemma revocations_never_roll_back_witness :
  had (loop s1) = true /\ had (loop s2) = true /\ lastAsOf (loop s1) <= lastAsOf (loop s2).
Proof.
  assert (had (loop s1) = true) as H1 by (vm_compute; reflexivity).
  assert (had (loop s2) = true) as H2 by (vm_compute; reflexivity).
  split_and!; [exact H1 | exact H2 |].
  refine (revocations_never_roll_back verifier "device" "f" s1 s2 s1_consistent _ H1 H2).
  exact (rtc_once _ _ (step_refresh verifier "device" "f" s1 (Some raw2) (4 * Hour) raw2_storable)).
Defined.

(** The signed source is not additive to the operator's file: each replaces the
    shared list, so a serial only the signed document names is accepted again after
    the next reload of the file. *)
Example file_reload_forgets_signed :
  RevocationList_Revoked (target s2) "bb" = true /\
  RevocationList_Revoked (reloadRevocations (target s2) (Some (Marshal (MkRevocationFile 1 ["zz"])))) "bb" = false.
Proof. vm_compute. done. Qed.
