(* ===== verification/DeviceCred.v ===== *)
(** * Device credentials: [core/devicecred]

    A device shows three things: the credential its issuer signed, the issuer's
    certificate the root signed, and a fresh signature over a challenge of this
    verifier, bound to the purpose and to the verifier's own audience. *)

From S2P Require Import Prelude GoStrings Base64 Crypto Delegation.
Local Open Scope Z_scope.

(** ** [devicecred.go] *)

Definition Version : Z := 1.

Record IssuerCert := MkIssuerCert {
  ic_Version : Z;
  ic_Serial : string;
  IssuerPub : bytes;
  ic_NotBefore : Time;
  ic_NotAfter : Time;
  MaxCredTTL : Duration;
  ic_Note : string;
}.

Record DeviceCredential := MkDeviceCredential {
  dc_Version : Z;
  dc_Serial : string;
  DevicePub : bytes;
  Epoch : Z;
  dc_NotBefore : Time;
  dc_NotAfter : Time;
}.

Inductive Error :=
| ErrMalformed | ErrUnsupportedVersion | ErrBadSignature | ErrNotYetValid | ErrExpired
| ErrRevoked | ErrCredTTLTooLong | ErrBadAssertion | ErrNoRoot
| ErrOther (e : Delegation.Error).

(** The translation of delegation's errors in [openSigned]. *)
Definition open_error (e : Delegation.Error) : Error :=
  match e with
  | Delegation.ErrBadSignature => ErrBadSignature
  | Delegation.ErrMalformed => ErrMalformed
  | e => ErrOther e
  end.

Definition issuerCertPrefix : string := "bacchusi1:".
Definition deviceCredPrefix : string := "bacchusd1:".

Definition encode_envelope (prefix : string) (signed : bytes) : string :=
  prefix +:+ EncodeToString RawURLEncoding signed.
Definition decode_envelope (prefix s : string) : result Error bytes :=
  let? rest := of_option ErrMalformed (strip_prefix prefix (TrimSpace s)) in
  of_option ErrMalformed (DecodeString RawURLEncoding rest).

Definition EncodeIssuerCert (signed : bytes) : string := encode_envelope issuerCertPrefix signed.
Definition EncodeDeviceCredential (signed : bytes) : string := encode_envelope deviceCredPrefix signed.
Definition DecodeIssuerCert (s : string) : result Error bytes := decode_envelope issuerCertPrefix s.
Definition DecodeDeviceCredential (s : string) : result Error bytes := decode_envelope deviceCredPrefix s.

(** ** [assert.go] *)

Abbreviation Purpose := string (only parsing).
Definition PurposeConnect : Purpose := "bacchus/assert-connect/v1".
Definition MinChallenge : nat := 16.

(** The purpose, NUL, and the two length-prefixed fields; the lengths are cut to
    32 bits. *)
Definition assertionMessage (p : Purpose) (audience : string) (challenge : bytes) : bytes :=
  let msg := bytes_of p ++ [NUL] in
  let msg := AppendUint32 msg (Z.of_nat (String.length audience)) in
  let msg := msg ++ bytes_of audience in
  let msg := AppendUint32 msg (Z.of_nat (List.length challenge)) in
  msg ++ challenge.

(** ** [verify.go] *)

Definition ClockSkew : Duration := Delegation.ClockSkew.

Definition checkWindow (notBefore notAfter now : Time) : result Error unit :=
  check! fail_if (Before now (time_Add notBefore (- ClockSkew))) ErrNotYetValid;
  fail_if (negb (Before now notAfter)) ErrExpired.

Record Presentation := MkPresentation { p_Credential : bytes; p_IssuerCert : bytes; p_Assertion : bytes }.

Definition ParsePresentation (credential issuerCert : string) (assertion : bytes)
    : result Error Presentation :=
  let? cred := DecodeDeviceCredential credential in
  let? cert := DecodeIssuerCert issuerCert in
  check! fail_if (bool_decide (assertion = [])) ErrMalformed;
  Ok (MkPresentation cred cert assertion).

Record Verifier := MkVerifier { rootPub : bytes; revoked : string -> bool }.

Definition NewVerifier (root : bytes) (rev : option (string -> bool)) : result Error Verifier :=
  check! fail_if (bad_key_length root) ErrNoRoot;
  Ok (MkVerifier root (match rev with Some f => f | None => fun _ => false end)).

Section Verifying.
Context `{Ed25519} `{JSON IssuerCert} `{JSON DeviceCredential}.

(** A private key of the interface has ed25519's length. *)
Definition SignAssertion (priv : PrivateKey) (p : Purpose) (audience : string) (challenge : bytes)
    : result Error bytes :=
  check! fail_if (List.length challenge <? MinChallenge)%nat ErrBadAssertion;
  Ok (ed_Sign priv (assertionMessage p audience challenge)).

Definition VerifyAssertion (pub : bytes) (p : Purpose) (audience : string) (challenge sig : bytes)
    : result Error unit :=
  check! fail_if (bad_key_length pub) ErrMalformed;
  check! fail_if (List.length challenge <? MinChallenge)%nat ErrBadAssertion;
  fail_if (negb (ed_Verify pub (assertionMessage p audience challenge) sig)) ErrBadAssertion.

Definition openSigned (pub : bytes) (tag : string) (signed : bytes) : result Error bytes :=
  map_err open_error (OpenSigned pub tag signed).

Definition ParseIssuerCert (root signed : bytes) : result Error IssuerCert :=
  let? body := openSigned root TagIssuerCert signed in
  let? c := of_option ErrMalformed (Unmarshal body) in
  check! fail_if (negb (ic_Version c =? Version)) ErrUnsupportedVersion;
  check! fail_if (bad_key_length (IssuerPub c)) ErrMalformed;
  Ok c.

Definition VerifyIssuerCert (root signed : bytes) (now : Time) (rev : option (string -> bool))
    : result Error IssuerCert :=
  check! fail_if (bad_key_length root) ErrNoRoot;
  let? cert := ParseIssuerCert root signed in
  check! fail_if (match rev with Some f => f (ic_Serial cert) | None => false end) ErrRevoked;
  check! checkWindow (ic_NotBefore cert) (ic_NotAfter cert) now;
  Ok cert.

Definition Verifier_VerifyIssuerCert (v : Verifier) (signed : bytes) (now : Time)
    : result Error IssuerCert :=
  VerifyIssuerCert (rootPub v) signed now (Some (revoked v)).

Definition Verify (v : Verifier) (p : Presentation) (now : Time) (audience : string) (challenge : bytes)
    : result Error DeviceCredential :=
  let? cert := VerifyIssuerCert (rootPub v) (p_IssuerCert p) now (Some (revoked v)) in
  let? body := openSigned (IssuerPub cert) TagDeviceCred (p_Credential p) in
  let? cred := of_option ErrMalformed (Unmarshal body) in
  check! fail_if (negb (dc_Version cred =? Version)) ErrUnsupportedVersion;
  check! fail_if (bad_key_length (DevicePub cred)) ErrMalformed;
  check! fail_if (revoked v (dc_Serial cred)) ErrRevoked;
  check! checkWindow (dc_NotBefore cred) (dc_NotAfter cred) now;
  check! fail_if (MaxCredTTL cert <? time_Sub (dc_NotAfter cred) (dc_NotBefore cred)) ErrCredTTLTooLong;
  check! VerifyAssertion (DevicePub cred) PurposeConnect audience challenge (p_Assertion p);
  Ok cred.
End Verifying.

(** ** An assertion is for one purpose, one audience, one challenge *)

Lemma assertionMessage_inj p q a b c d :
  nul_free p -> nul_free q ->
  Z.of_nat (String.length a) < 2 ^ 32 -> Z.of_nat (String.length b) < 2 ^ 32 ->
  assertionMessage p a c = assertionMessage q b d -> p = q /\ a = b /\ c = d.
Proof.
  unfold assertionMessage, AppendUint32, nul_free. intros Hp Hq Ha Hb Heq.
  rewrite <-!app_assoc in Heq. cbn [app] in Heq.
  apply app_sep_inj in Heq as [->%bytes_of_inj Heq]; [|done..].
  apply (be_bytes_app_inj 4) in Heq as [Hl Heq]; [|simpl Z.pow; lia..].
  apply app_inj_len in Heq as [->%bytes_of_inj Heq]; [|rewrite !length_bytes_of; lia].
  apply app_inj_len in Heq as [_ ->]; [|by rewrite !be_bytes_length]. done.
Qed.

(** The message a device signs determines what it is for: two assertions over
    NUL-free purposes and audiences shorter than 4 GiB have the same message only if
    purpose, audience and challenge all agree, and it is never a signed document's
    message of any tag of the delegation package. *)
Theorem assertionMessage_separates p q a b c d :
  nul_free p -> nul_free q ->
  Z.of_nat (String.length a) < 2 ^ 32 -> Z.of_nat (String.length b) < 2 ^ 32 ->
  (assertionMessage p a c = assertionMessage q b d <-> p = q /\ a = b /\ c = d) /\
  (forall tag body, tag ∈ all_tags -> assertionMessage PurposeConnect a c <> signingMessage tag body).
Proof.
  intros Hp Hq Ha Hb. split.
  { split; [by apply assertionMessage_inj|by intros (-> & -> & ->)]. }
  intros tag body Htag Heq. unfold assertionMessage, AppendUint32, signingMessage in Heq.
  rewrite <-!app_assoc in Heq. cbn [app] in Heq.
  assert (PurposeConnect = tag) as <-.
  { apply app_sep_inj in Heq as [?%bytes_of_inj _]; [done|apply (bool_decide_unpack _); by vm_compute|].
    pose proof all_tags_nul_free as Hall. rewrite Forall_forall in Hall. by apply Hall. }
  revert Htag. apply (bool_decide_unpack (PurposeConnect ∉ all_tags)). by vm_compute.
Qed.

(** ** The chain behind an accepted connect *)

Section Sound.
Context `{Ed25519} `{JSON IssuerCert} `{JSON DeviceCredential}.

Lemma openSigned_Ok pub tag signed body :
  openSigned pub tag signed = Ok body -> sealed_by pub tag signed body.
Proof. intros Ho. apply map_err_Ok_inv in Ho. by apply OpenSigned_Ok. Qed.

Lemma checkWindow_Ok nb na now u :
  checkWindow nb na now = Ok u -> nb - ClockSkew <= now < na.
Proof. unfold checkWindow, Before, time_Add. intros Hw. inv_result. b2p. lia. Qed.

Lemma VerifyAssertion_Ok pub p a c sig u :
  VerifyAssertion pub p a c sig = Ok u ->
  (MinChallenge <= List.length c)%nat /\ ed_Verify pub (assertionMessage p a c) sig = true.
Proof.
  unfold VerifyAssertion. intros Hv. inv_result. b2p. split; [|done]. by apply Nat.ltb_ge.
Qed.

(** What the root says when it certifies an issuer. *)
Record certified (root signed : bytes) (now : Time) (rev : option (string -> bool)) (c : IssuerCert)
    : Prop := {
  cert_sealed : exists body, sealed_by root TagIssuerCert signed body /\ Unmarshal body = Some c;
  cert_version : ic_Version c = Version;
  cert_key : List.length (IssuerPub c) = PublicKeySize;
  cert_unrevoked : forall f, rev = Some f -> f (ic_Serial c) = false;
  cert_window : ic_NotBefore c - ClockSkew <= now < ic_NotAfter c;
}.

Lemma VerifyIssuerCert_Ok root signed now rev c :
  VerifyIssuerCert root signed now rev = Ok c -> certified root signed now rev c.
Proof.
  unfold VerifyIssuerCert, ParseIssuerCert. intros Hv. inv_result. b2p.
  match goal with Ho : openSigned _ _ _ = Ok _ |- _ => apply openSigned_Ok in Ho end.
  match goal with Hw : checkWindow _ _ _ = Ok _ |- _ => apply checkWindow_Ok in Hw end.
  split; eauto using bad_key_length_false. by intros f ->.
Qed.

(** A device credential is accepted only at the end of the whole chain: the root
    signed the issuer's certificate, which is in its window and unrevoked; that
    issuer signed the credential, which is in its window, unrevoked and no longer
    lived than the certificate allows; and the device's own key signed this
    verifier's audience and challenge, at least 16 bytes of it, for connecting. *)
Theorem device_Verify_sound v p now audience challenge cred :
  Verify v p now audience challenge = Ok cred ->
  exists cert body,
    certified (rootPub v) (p_IssuerCert p) now (Some (revoked v)) cert /\
    sealed_by (IssuerPub cert) TagDeviceCred (p_Credential p) body /\ Unmarshal body = Some cred /\
    dc_Version cred = Version /\ List.length (DevicePub cred) = PublicKeySize /\
    revoked v (dc_Serial cred) = false /\
    dc_NotBefore cred - ClockSkew <= now < dc_NotAfter cred /\
    time_Sub (dc_NotAfter cred) (dc_NotBefore cred) <= MaxCredTTL cert /\
    (MinChallenge <= List.length challenge)%nat /\
    ed_Verify (DevicePub cred) (assertionMessage PurposeConnect audience challenge) (p_Assertion p) = true.
Proof.
  unfold Verify. intros Hv. inv_result. b2p.
  match goal with Ho : openSigned _ _ _ = Ok _ |- _ => apply openSigned_Ok in Ho end.
  match goal with Hw : checkWindow _ _ _ = Ok _ |- _ => apply checkWindow_Ok in Hw end.
  match goal with Hw : VerifyAssertion _ _ _ _ _ = Ok _ |- _ => apply VerifyAssertion_Ok in Hw as [? ?] end.
  match goal with Hw : VerifyIssuerCert _ _ _ _ = Ok _ |- _ => apply VerifyIssuerCert_Ok in Hw end.
  do 2 eexists. split_and!; try eassumption; try lia. by apply bad_key_length_false.
Qed.
End Sound.

(** ** An honest device gets in *)

Section Complete.
Context `{Ed25519Laws} `{JSONLaws IssuerCert} `{JSONLaws DeviceCredential}.

Lemma decode_encode_envelope prefix signed :
  forallb visible (bytes_of prefix) = true ->
  decode_envelope prefix (encode_envelope prefix signed) = Ok signed.
Proof.
  intros Hp. unfold decode_envelope, encode_envelope. rewrite strip_envelope by done. simpl.
  by rewrite DecodeString_EncodeToString.
Qed.

Lemma openSigned_seal priv tag body :
  body <> [] -> openSigned (Public priv) tag (seal priv tag body) = Ok body.
Proof. intros Hb. unfold openSigned. by rewrite OpenSigned_seal. Qed.

Lemma checkWindow_in nb na now : nb - ClockSkew <= now < na -> checkWindow nb na now = Ok tt.
Proof.
  intros Hw. unfold checkWindow, Before, time_Add.
  rewrite (proj2 (Z.ltb_ge now _)) by lia. simpl. by rewrite (proj2 (Z.ltb_lt now _)) by lia.
Qed.

(** What root, issuer and device hold. *)
Record enrolment := MkEnrolment {
  e_root : PrivateKey; e_issuer : PrivateKey; e_device : PrivateKey;
  e_cert : IssuerCert; e_cred : DeviceCredential;
}.

Record enrolled (e : enrolment) (v : Verifier) (now : Time) : Prop := {
  en_root : rootPub v = Public (e_root e);
  en_versions : ic_Version (e_cert e) = Version /\ dc_Version (e_cred e) = Version;
  en_issuer : IssuerPub (e_cert e) = Public (e_issuer e);
  en_device : DevicePub (e_cred e) = Public (e_device e);
  en_unrevoked : revoked v (ic_Serial (e_cert e)) = false /\ revoked v (dc_Serial (e_cred e)) = false;
  en_cert_window : ic_NotBefore (e_cert e) - ClockSkew <= now < ic_NotAfter (e_cert e);
  en_cred_window : dc_NotBefore (e_cred e) - ClockSkew <= now < dc_NotAfter (e_cred e);
  en_ttl : time_Sub (dc_NotAfter (e_cred e)) (dc_NotBefore (e_cred e)) <= MaxCredTTL (e_cert e);
}.

(** A device with a current credential from a certified issuer is admitted: it
    can sign any challenge of at least 16 bytes for connecting, what it then sends as
    text (the two envelopes and the assertion) parses, and verifies to its own
    credential for that audience and challenge. *)
Theorem Verify_present e v now audience challenge :
  enrolled e v now -> (MinChallenge <= List.length challenge)%nat ->
  exists assertion p,
    SignAssertion (e_device e) PurposeConnect audience challenge = Ok assertion /\
    ParsePresentation
      (EncodeDeviceCredential (seal (e_issuer e) TagDeviceCred (Marshal (e_cred e))))
      (EncodeIssuerCert (seal (e_root e) TagIssuerCert (Marshal (e_cert e)))) assertion = Ok p /\
    Verify v p now audience challenge = Ok (e_cred e).
Proof.
  intros [Hroot [Hv1 Hv2] Hi Hd [Hr1 Hr2] Hw1 Hw2 Httl] Hlen.
  unfold SignAssertion. rewrite (proj2 (Nat.ltb_ge _ _) Hlen). simpl.
  do 2 eexists. split_and!; [done| |].
  - unfold ParsePresentation, DecodeDeviceCredential, DecodeIssuerCert,
      EncodeDeviceCredential, EncodeIssuerCert.
    rewrite !decode_encode_envelope by reflexivity. simpl.
    rewrite bool_decide_false; [done|]. intros Hnil.
    pose proof (Sign_length (e_device e) (assertionMessage PurposeConnect audience challenge)) as Hl.
    by rewrite Hnil in Hl.
  - unfold Verify, VerifyIssuerCert, ParseIssuerCert. simpl.
    rewrite Hroot, bad_key_length_Public. simpl.
    rewrite openSigned_seal by apply Marshal_nonempty. simpl.
    rewrite Unmarshal_Marshal. simpl. rewrite Hv1, Hi, bad_key_length_Public. simpl. rewrite Hr1. simpl.
    rewrite checkWindow_in by done. simpl. rewrite Hi, openSigned_seal by apply Marshal_nonempty. simpl.
    rewrite Unmarshal_Marshal. simpl. rewrite Hv2, Hd, bad_key_length_Public. simpl. rewrite Hr2. simpl.
    rewrite checkWindow_in by done. simpl. rewrite (proj2 (Z.ltb_ge _ _)) by done. simpl.
    unfold VerifyAssertion. rewrite bad_key_length_Public, (proj2 (Nat.ltb_ge _ _) Hlen). simpl.
    by rewrite Verify_Sign.
Qed.
End Complete.

(** ** Witnesses *)

#[export] Instance IssuerCert_eq_dec : EqDecision IssuerCert.
Proof. solve_decision. Defined.
#[export] Instance IssuerCert_countable : Countable IssuerCert.
Proof.
  refine (inj_countable
    (fun r => [encode (ic_Version r); encode (ic_Serial r); encode (IssuerPub r); encode (ic_NotBefore r); encode (ic_NotAfter r); encode (MaxCredTTL r); encode (ic_Note r)])
    (fun l => match l with
              | [x0; x1; x2; x3; x4; x5; x6] => x0 ← decode x0; x1 ← decode x1; x2 ← decode x2; x3 ← decode x3; x4 ← decode x4; x5 ← decode x5; x6 ← decode x6;
                  Some (MkIssuerCert x0 x1 x2 x3 x4 x5 x6)
              | _ => None
              end) _).
  intros []. cbv beta iota. by rewrite !decode_encode.
Defined.

#[export] Instance DeviceCredential_eq_dec : EqDecision DeviceCredential.
Proof. solve_decision. Defined.
#[export] Instance DeviceCredential_countable : Countable DeviceCredential.
Proof.
  refine (inj_countable
    (fun r => [encode (dc_Version r); encode (dc_Serial r); encode (DevicePub r); encode (Epoch r); encode (dc_NotBefore r); encode (dc_NotAfter r)])
    (fun l => match l with
              | [x0; x1; x2; x3; x4; x5] => x0 ← decode x0; x1 ← decode x1; x2 ← decode x2; x3 ← decode x3; x4 ← decode x4; x5 ← decode x5;
                  Some (MkDeviceCredential x0 x1 x2 x3 x4 x5)
              | _ => None
              end) _).
  intros []. cbv beta iota. by rewrite !decode_encode.
Defined.

Module Demo.
Import Toy.
#[export] Existing Instance toy_json.
#[export] Existing Instance toy_json_laws.

Definition e : enrolment := MkEnrolment "r"%char "i"%char "d"%char
  (MkIssuerCert 1 "i1" (Public "i"%char) 0 (100 * Hour) (24 * Hour) "")
  (MkDeviceCredential 1 "d1" (Public "d"%char) 3 Hour (20 * Hour)).
Definition verifier : Verifier := MkVerifier (Public "r"%char) (String.eqb "revoked").
Definition challenge : bytes := repeat "c"%char 32.
Definition presented : Presentation :=
  MkPresentation (seal (e_issuer e) TagDeviceCred (Marshal (e_cred e)))
    (seal (e_root e) TagIssuerCert (Marshal (e_cert e)))
    (ed_Sign (e_device e) (assertionMessage PurposeConnect "coord" challenge)).
Lemma e_enrolled : enrolled e verifier (2 * Hour).
Proof. split; simpl; unfold ClockSkew, Delegation.ClockSkew, time_Sub, i64min, i64max, Hour, Minute, Second; auto; lia. Qed.
End Demo.
Import Toy Demo.

Lemma assertionMessage_separates_witness :
  (assertionMessage PurposeConnect "coord" challenge = assertionMessage PurposeConnect "other" challenge <->
   PurposeConnect = PurposeConnect /\ "coord" = "other" /\ challenge = challenge) /\
  (forall tag body, tag ∈ all_tags -> assertionMessage PurposeConnect "coord" challenge <> signingMessage tag body).
Proof.
  apply assertionMessage_separates; [apply (bool_decide_unpack _); vm_compute; exact I.. | simpl; lia | simpl; lia].
Defined.

Lemma device_Verify_sound_witness :
  exists cert body,
    certified (rootPub verifier) (p_IssuerCert presented) (2 * Hour) (Some (revoked verifier)) cert /\
    sealed_by (IssuerPub cert) TagDeviceCred (p_Credential presented) body /\
    Unmarshal body = Some (e_cred e) /\
    dc_Version (e_cred e) = Version /\ List.length (DevicePub (e_cred e)) = PublicKeySize /\
    revoked verifier (dc_Serial (e_cred e)) = false /\
    dc_NotBefore (e_cred e) - ClockSkew <= 2 * Hour < dc_NotAfter (e_cred e) /\
    time_Sub (dc_NotAfter (e_cred e)) (dc_NotBefore (e_cred e)) <= MaxCredTTL cert /\
    (MinChallenge <= List.length challenge)%nat /\
    ed_Verify (DevicePub (e_cred e)) (assertionMessage PurposeConnect "coord" challenge)
      (p_Assertion presented) = true.
Proof. apply device_Verify_sound. vm_compute. reflexivity. Defined.

Lemma Verify_present_witness :
  exists assertion p,
    SignAssertion (e_device e) PurposeConnect "coord" challenge = Ok assertion /\
    ParsePresentation
      (EncodeDeviceCredential (seal (e_issuer e) TagDeviceCred (Marshal (e_cred e))))
      (EncodeIssuerCert (seal (e_root e) TagIssuerCert (Marshal (e_cert e)))) assertion = Ok p /\
    Verify verifier p (2 * Hour) "coord" challenge = Ok (e_cred e).
Proof. apply Verify_present; [exact e_enrolled | unfold MinChallenge; simpl; lia]. Defined.
