(* ===== verification/Accounting.v ===== *)
(** * Usage receipts: [core/accounting/accounting.go]

    The receipt both ends of a session sign, the bytes they sign, the exchange in
    which the exit claims and the client co-signs, the client's capacity report over
    a receipt, and the byte counter behind the figures. *)

From S2P Require Import Prelude Crypto Hashes Delegation.
Local Open Scope Z_scope.

Record Receipt := MkReceipt {
  SessionID : string;
  r_Seq : Z;
  IntervalSec : Z;
  r_Bytes : Z;
  r_ExitID : string;
  ExitAcctPub : bytes;
  ClientAcctPub : bytes;
  ExitSig : bytes;
  ClientSig : bytes;
  Saturated : bool;
}.

Inductive Error :=
| ErrMismatch (exit_counted client_counted : Z)
| BadExitKey | BadClientKey | BadExitSig | BadClientSig | BadReportSig | BadClaimSig
| SendFailed | ReadFailed | NotVerifying (e : Error).

(** ** What is signed *)

Definition appendString (b : bytes) (s : string) : bytes :=
  AppendUint32 b (Z.of_nat (String.length s)) ++ bytes_of s.

Definition canonical (sessionID : string) (seq intervalSec bytesN : Z) (exitID : string) : bytes :=
  let b := appendString [] sessionID in
  let b := AppendUint64 b seq in
  let b := AppendUint32 b intervalSec in
  let b := AppendUint64 b bytesN in
  appendString b exitID.

Definition Receipt_canonical (r : Receipt) : bytes :=
  canonical (SessionID r) (r_Seq r) (IntervalSec r) (r_Bytes r) (r_ExitID r).

Definition capacityReportDomain : bytes := bytes_of "bacchus-capacity-report" ++ [NUL].

Definition reportCanonical (r : Receipt) : bytes :=
  capacityReportDomain ++ Receipt_canonical r ++ [byte_of (if Saturated r then 1 else 0)].

Section Signing.
Context `{Ed25519}.

Definition Receipt_Verify (r : Receipt) : result Error unit :=
  check! fail_if (bad_key_length (ExitAcctPub r)) BadExitKey;
  check! fail_if (bad_key_length (ClientAcctPub r)) BadClientKey;
  let c := Receipt_canonical r in
  check! fail_if (negb (ed_Verify (ExitAcctPub r) c (ExitSig r))) BadExitSig;
  fail_if (negb (ed_Verify (ClientAcctPub r) c (ClientSig r))) BadClientSig.

Definition SignReport (key : PrivateKey) (r : Receipt) : bytes := ed_Sign key (reportCanonical r).

Definition VerifyReport (r : Receipt) (sig : bytes) : result Error unit :=
  check! fail_if (bad_key_length (ClientAcctPub r)) BadClientKey;
  fail_if (negb (ed_Verify (ClientAcctPub r) (reportCanonical r) sig)) BadReportSig.
End Signing.

(** [AcctKeyFromSeed]: [ed25519.NewKeyFromSeed] is a parameter. *)
Definition acctKeyDomain : string := "bacchus-accounting-v1".
Definition AcctKeyFromSeed {K} (newKeyFromSeed : bytes -> K)
    (x25519Priv : bytes) : option K :=
  if negb (List.length x25519Priv =? 32)%nat then None
  else Some (newKeyFromSeed (SHA256.sum (bytes_of (acctKeyDomain +:+ ":") ++ x25519Priv))).

(** ** The exchange *)

Record claimMsg := MkClaim {
  cl_SessionID : string; cl_Seq : Z; cl_IntervalSec : Z; cl_Bytes : Z; cl_ExitID : string;
  cl_ExitAcctPub : bytes; cl_ExitSig : bytes;
}.
Record ackMsg := MkAck {
  ack_OK : bool; ack_ClientAcctPub : bytes; ack_ClientSig : bytes; ack_LocalBytes : Z;
}.

Definition Reconcile (localBytes claimed : Z) : bool := localBytes =? claimed.

Section Exchange.
Context `{Ed25519}.

Definition exit_claim (key : PrivateKey) (exitID sessionID : string) (seq intervalSec bytesN : Z)
    : claimMsg :=
  MkClaim sessionID seq intervalSec bytesN exitID (Public key)
    (ed_Sign key (canonical sessionID seq intervalSec bytesN exitID)).

(** [ExitPropose] sends [exit_claim]; [sent] says whether that worked and [ack] is
    what came back, [None] when it did not decode. *)
Definition ExitPropose (key : PrivateKey) (exitID sessionID : string) (seq intervalSec bytesN : Z)
    (sent : bool) (ack : option ackMsg) : result Error Receipt :=
  let claim := exit_claim key exitID sessionID seq intervalSec bytesN in
  check! fail_if (negb sent) SendFailed;
  let? ack := of_option ReadFailed ack in
  check! fail_if (negb (ack_OK ack)) (ErrMismatch bytesN (ack_LocalBytes ack));
  let r := MkReceipt sessionID seq intervalSec bytesN exitID (Public key) (ack_ClientAcctPub ack)
             (cl_ExitSig claim) (ack_ClientSig ack) false in
  check! map_err NotVerifying (Receipt_Verify r);
  Ok r.

(** [ClientCosign]: the acknowledgement it sends, when it gets that far, and its
    result. The receipt Go returns beside a non-nil error is not modelled. *)
Definition ClientCosign (key : PrivateKey) (localBytes : Z) (claim : option claimMsg) (sent : bool)
    : option ackMsg * result Error Receipt :=
  match claim with
  | None => (None, Err ReadFailed)
  | Some cl =>
      let c := canonical (cl_SessionID cl) (cl_Seq cl) (cl_IntervalSec cl) (cl_Bytes cl) (cl_ExitID cl) in
      let refuse := MkAck false [] [] localBytes in
      if bad_key_length (cl_ExitAcctPub cl) || negb (ed_Verify (cl_ExitAcctPub cl) c (cl_ExitSig cl))
      then (Some refuse, Err BadClaimSig)
      else if negb (Reconcile localBytes (cl_Bytes cl))
      then (Some refuse, Err (ErrMismatch (cl_Bytes cl) localBytes))
      else
        let ack := MkAck true (Public key) (ed_Sign key c) 0 in
        if negb sent then (Some ack, Err SendFailed)
        else
          let r := MkReceipt (cl_SessionID cl) (cl_Seq cl) (cl_IntervalSec cl) (cl_Bytes cl)
                     (cl_ExitID cl) (cl_ExitAcctPub cl) (Public key) (cl_ExitSig cl)
                     (ed_Sign key c) false in
          (Some ack, check! Receipt_Verify r; Ok r)
  end.
End Exchange.

(** ** The counter: three atomics *)

Record Counter := MkCounter { total : Z; last : Z; saturated : bool }.
Definition new_Counter : Counter := MkCounter 0 0 false.

Definition Add (c : Counter) (n : Z) : Counter := MkCounter (wrap64 (total c + n)) (last c) (saturated c).
Definition Counter_Load (c : Counter) : Z := total c.

(** [Delta] is a load and then a swap; [between] are the [Add]s other goroutines get
    in between the two. *)
Definition Delta (c : Counter) (between : list Z) : Counter * Z :=
  let now := total c in
  let c := foldl Add c between in
  let prev := last c in
  (MkCounter (total c) now (saturated c), wrap64 (now - prev)).

Definition TakeSaturated (c : Counter) : Counter * bool :=
  (MkCounter (total c) (last c) false, saturated c).

(** [countingReader.Read] after the inner read returned [n]. *)
Definition count_Read (c : Counter) (n : Z) : Counter := if 0 <? n then Add c n else c.
(** [satWriter.Write], with the two clock readings around the inner write. *)
Definition sat_Write (c : Counter) (threshold : Duration) (start stop : Time) : Counter :=
  if threshold <=? time_Sub stop start then MkCounter (total c) (last c) true else c.

(** ** The signed bytes say exactly what was signed *)

(** The fields as Go's types bound them; a string length fits its prefix. *)
Record receipt_wf (r : Receipt) : Prop := {
  wf_seq : in_u64 (r_Seq r);
  wf_bytes : in_u64 (r_Bytes r);
  wf_interval : 0 <= IntervalSec r < 2 ^ 32;
  wf_session : Z.of_nat (String.length (SessionID r)) < 2 ^ 30;
  wf_exit : Z.of_nat (String.length (r_ExitID r)) < 2 ^ 30;
}.

Lemma canonical_unfold s q i n e :
  canonical s q i n e =
    be_bytes 4 (Z.of_nat (String.length s)) ++ bytes_of s ++ be_bytes 8 q ++ be_bytes 4 i ++
    be_bytes 8 n ++ be_bytes 4 (Z.of_nat (String.length e)) ++ bytes_of e.
Proof. unfold canonical, appendString, AppendUint64, AppendUint32. by rewrite <-!app_assoc. Qed.

Lemma canonical_app_inj r r' x y :
  receipt_wf r -> receipt_wf r' ->
  Receipt_canonical r ++ x = Receipt_canonical r' ++ y ->
  (SessionID r, r_Seq r, IntervalSec r, r_Bytes r, r_ExitID r) =
  (SessionID r', r_Seq r', IntervalSec r', r_Bytes r', r_ExitID r') /\ x = y.
Proof.
  intros [Hq Hb Hi Hs He] [Hq' Hb' Hi' Hs' He']. unfold Receipt_canonical, in_u64, u64max in *.
  rewrite !canonical_unfold, <-!app_assoc. intros Heq.
  apply be_bytes_app_inj in Heq as [Hl Heq]; [|simpl Z.pow; lia..].
  apply app_inj_len in Heq as [->%bytes_of_inj Heq]; [|rewrite !length_bytes_of; lia].
  apply be_bytes_app_inj in Heq as [-> Heq]; [|simpl Z.pow; lia..].
  apply be_bytes_app_inj in Heq as [-> Heq]; [|simpl Z.pow; lia..].
  apply be_bytes_app_inj in Heq as [-> Heq]; [|simpl Z.pow; lia..].
  apply be_bytes_app_inj in Heq as [Hl' Heq]; [|simpl Z.pow; lia..].
  apply app_inj_len in Heq as [->%bytes_of_inj ->]; [|rewrite !length_bytes_of; lia]. done.
Qed.

(** The first four bytes of the report domain are a length no receipt has. *)
Lemma report_not_receipt r r' : receipt_wf r' -> reportCanonical r <> Receipt_canonical r'.
Proof.
  intros [_ _ _ Hs _]. unfold reportCanonical, Receipt_canonical.
  rewrite !canonical_unfold. intros Heq.
  change capacityReportDomain with (bytes_of "bacc" ++ bytes_of "hus-capacity-report" ++ [NUL]) in Heq.
  rewrite <-!app_assoc in Heq. apply app_inj_len in Heq as [Hb _]; [|done].
  apply (f_equal be_value) in Hb. rewrite be_value_bytes, Z.mod_small in Hb by (simpl Z.pow; lia).
  replace (be_value (bytes_of "bacc")) with 1650549603 in Hb by (vm_compute; reflexivity). lia.
Qed.

(** Signatures over receipts and capacity reports cannot stand for anything else:
    the signed bytes of a receipt determine session, sequence, interval, byte count
    and exit, those of a report determine in addition the saturation bit, and the
    bytes of a report are never those of a receipt. *)
Theorem signed_bytes_separate r r' :
  receipt_wf r -> receipt_wf r' ->
  let fields r := (SessionID r, r_Seq r, IntervalSec r, r_Bytes r, r_ExitID r) in
  (Receipt_canonical r = Receipt_canonical r' <-> fields r = fields r') /\
  (reportCanonical r = reportCanonical r' <-> fields r = fields r' /\ Saturated r = Saturated r') /\
  reportCanonical r <> Receipt_canonical r'.
Proof.
  intros Hr Hr'. simpl. split_and!; [split|split|by apply report_not_receipt].
  - intros Heq. apply (canonical_app_inj r r' [] []); [done..|by rewrite Heq].
  - intros [= Hs Hq Hi Hb He]. unfold Receipt_canonical. by rewrite Hs, Hq, Hi, Hb, He.
  - unfold reportCanonical. intros Heq%app_inv_head.
    apply canonical_app_inj in Heq as [Hf Hsat]; [|done..]. split; [done|].
    by destruct (Saturated r), (Saturated r').
  - intros [[= Hs Hq Hi Hb He] Ht]. unfold reportCanonical, Receipt_canonical.
    by rewrite Hs, Hq, Hi, Hb, He, Ht.
Qed.

(** ** The exchange *)

Section ExchangeProofs.
Context `{Ed25519Laws}.

Lemma Receipt_Verify_Ok r :
  Receipt_Verify r = Ok tt <->
  List.length (ExitAcctPub r) = PublicKeySize /\ List.length (ClientAcctPub r) = PublicKeySize /\
  ed_Verify (ExitAcctPub r) (Receipt_canonical r) (ExitSig r) = true /\
  ed_Verify (ClientAcctPub r) (Receipt_canonical r) (ClientSig r) = true.
Proof.
  unfold Receipt_Verify. split.
  - intros Hv. inv_result. b2p. split_and!; by try apply bad_key_length_false.
  - intros (He & Hc & Hx & Hy). unfold bad_key_length. by rewrite He, Hc, Hx, Hy.
Qed.

(** An honest exchange agrees on both sides. When the two counts are equal, exit
    and client end with the same receipt, which verifies and carries what the exit
    proposed; when they differ, neither side gets a receipt and both learn both
    counts. *)
Theorem exchange_agrees ekey ckey exitID sessionID seq intervalSec bytesN localBytes :
  let claim := exit_claim ekey exitID sessionID seq intervalSec bytesN in
  let '(ack, client) := ClientCosign ckey localBytes (Some claim) true in
  let exit := ExitPropose ekey exitID sessionID seq intervalSec bytesN true ack in
  if decide (localBytes = bytesN)
  then exists r, client = Ok r /\ exit = Ok r /\ Receipt_Verify r = Ok tt /\
    (SessionID r, r_Seq r, IntervalSec r, r_Bytes r, r_ExitID r) =
    (sessionID, seq, intervalSec, bytesN, exitID) /\
    ExitAcctPub r = Public ekey /\ ClientAcctPub r = Public ckey
  else client = Err (ErrMismatch bytesN localBytes) /\ exit = Err (ErrMismatch bytesN localBytes).
Proof.
  simpl. rewrite bad_key_length_Public, Verify_Sign. simpl. unfold Reconcile.
  destruct (decide (localBytes = bytesN)) as [->|Hne].
  - rewrite Z.eqb_refl. simpl. unfold ExitPropose. simpl.
    set (r := MkReceipt _ _ _ _ _ _ _ _ _ _).
    assert (Receipt_Verify r = Ok tt) as Hv.
    { apply Receipt_Verify_Ok. unfold Receipt_canonical. simpl.
      by rewrite !Public_length, !Verify_Sign. }
    rewrite Hv. simpl. eauto 10.
  - rewrite (proj2 (Z.eqb_neq _ _) Hne). simpl. by split.
Qed.

(** A dishonest partner gains nothing. Whatever the claim, the client signs only
    what carries the exit's valid signature and its own byte count, and whatever the
    answer, the exit accepts only a receipt that verifies and carries the figures it
    proposed itself. *)
Theorem exchange_sound key :
  (forall localBytes claim sent ack r,
     ClientCosign key localBytes claim sent = (Some ack, r) -> ack_OK ack = true ->
     exists cl, claim = Some cl /\ cl_Bytes cl = localBytes /\
       let c := canonical (cl_SessionID cl) (cl_Seq cl) (cl_IntervalSec cl) localBytes (cl_ExitID cl) in
       ed_Verify (cl_ExitAcctPub cl) c (cl_ExitSig cl) = true /\ ack_ClientSig ack = ed_Sign key c) /\
  (forall exitID sessionID seq intervalSec bytesN sent ack r,
     ExitPropose key exitID sessionID seq intervalSec bytesN sent ack = Ok r ->
     Receipt_Verify r = Ok tt /\ ExitAcctPub r = Public key /\
     (SessionID r, r_Seq r, IntervalSec r, r_Bytes r, r_ExitID r) =
     (sessionID, seq, intervalSec, bytesN, exitID)).
Proof.
  split.
  - intros localBytes [cl|] sent ack r Hc Hok; [|done]. simpl in Hc. unfold Reconcile in Hc.
    destruct (bad_key_length _ || negb _) eqn:Hbad; [by simplify_eq|].
    destruct (Z.eqb_spec localBytes (cl_Bytes cl)) as [->|]; simpl in Hc; [|by simplify_eq].
    b2p. exists cl. split_and!; [done..|]. destruct sent; by simplify_eq/=.
  - intros exitID sessionID seq intervalSec bytesN sent ack r Hr. unfold ExitPropose in Hr.
    inv_result. simpl. by split_and!.
Qed.
End ExchangeProofs.

(** ** Every byte is reported once *)

Inductive CounterOp := OpAdd (n : Z) | OpDelta (between : list Z) | OpTakeSaturated.

(** Run the operations; the deltas reported, oldest first. *)
Fixpoint run_counter (c : Counter) (ops : list CounterOp) : Counter * list Z :=
  match ops with
  | [] => (c, [])
  | OpAdd n :: ops => run_counter (Add c n) ops
  | OpTakeSaturated :: ops => run_counter (TakeSaturated c).1 ops
  | OpDelta between :: ops =>
      let '(c, d) := Delta c between in
      let '(c, ds) := run_counter c ops in (c, d :: ds)
  end.

Definition added (op : CounterOp) : list Z :=
  match op with OpAdd n => [n] | OpDelta between => between | OpTakeSaturated => [] end.
Definition sum (l : list Z) : Z := foldr Z.add 0 l.

Lemma foldl_Add l c :
  wrap64 (total (foldl Add c l)) = wrap64 (total c + sum l) /\ last (foldl Add c l) = last c.
Proof.
  unfold wrap64. revert c. induction l as [|n l IH]; intros c; simpl; [by rewrite Z.add_0_r|].
  destruct (IH (Add c n)) as [-> ->]. split; [|done]. simpl. unfold wrap64.
  rewrite Zplus_mod_idemp_l. f_equal. lia.
Qed.

Lemma sum_app l k : sum (l ++ k) = sum l + sum k.
Proof. unfold sum. induction l as [|n l IH]; simpl; [done|]. rewrite IH. lia. Qed.

Lemma sum_added op ops :
  sum (List.concat (added <$> op :: ops)) = sum (added op) + sum (List.concat (added <$> ops)).
Proof. rewrite fmap_cons. apply sum_app. Qed.

Lemma run_counter_spec ops c :
  let '(c', ds) := run_counter c ops in
  (total c' - (total c + sum (List.concat (added <$> ops)))) mod 2 ^ 64 = 0 /\
  (last c' - (last c + sum ds)) mod 2 ^ 64 = 0.
Proof.
  assert (forall a b, wrap64 a = wrap64 b <-> (a - b) mod 2 ^ 64 = 0) as Hcong.
  { intros a b. apply Z.cong_iff_0. }
  revert c. induction ops as [|[n|between|] ops IH]; intros c; cbn [run_counter].
  - simpl. rewrite !Z.add_0_r, !Z.sub_diag. done.
  - specialize (IH (Add c n)). destruct (run_counter (Add c n) ops) as [c' ds].
    destruct IH as [Ht Hl]. split; [|done]. simpl in Ht. apply Hcong in Ht. apply Hcong.
    rewrite Ht, sum_added. unfold wrap64. rewrite Zplus_mod_idemp_l. f_equal. simpl. lia.
  - unfold Delta. destruct (foldl_Add between c) as [Ht Hl]. rewrite Hl.
    set (c1 := MkCounter _ _ _). specialize (IH c1). destruct (run_counter c1 ops) as [c' ds].
    destruct IH as [Ht' Hl']. split.
    + apply Hcong in Ht'. apply Hcong. rewrite Ht', sum_added. subst c1. simpl.
      unfold wrap64 in *. rewrite <-Zplus_mod_idemp_l, Ht, Zplus_mod_idemp_l. f_equal. lia.
    + apply Hcong in Hl'. apply Hcong. rewrite Hl'. subst c1. simpl.
      unfold wrap64. rewrite Z.add_assoc, <-(Zplus_mod_idemp_l (last c + _)), Zplus_mod_idemp_r.
      rewrite Zplus_mod_idemp_l. f_equal. lia.
  - apply (IH (TakeSaturated c).1).
Qed.

(** The deltas a counter reports add up to what was counted: for one reporter and
    adders running in any interleaving, also between the load and the swap inside
    [Delta], the bytes reported so far plus those the next quiet [Delta] would report
    are all the bytes added, modulo the width of the counter. *)
Theorem deltas_account_for_all_bytes ops :
  let '(c, ds) := run_counter new_Counter ops in
  wrap64 (sum ds + (Delta c []).2) = wrap64 (sum (List.concat (added <$> ops))).
Proof.
  pose proof (run_counter_spec ops new_Counter) as Hs.
  destruct (run_counter new_Counter ops) as [c ds]. destruct Hs as [Ht Hl]. simpl in *.
  unfold wrap64. rewrite Zplus_mod_idemp_r.
  apply Z.mod_divide in Ht as [k Hk]; [|lia]. apply Z.mod_divide in Hl as [j Hj]; [|lia].
  apply Z.cong_iff_ex. exists (k - j). lia.
Qed.

(** ** Witnesses *)

Module Demo.
Import Toy.
Definition r1 : Receipt := MkReceipt "s1" 1 60 1000 "exit-a" (Public "e"%char) (Public "c"%char) [] [] false.
Definition r2 : Receipt := MkReceipt "s1" 1 60 1000 "exit-a" (Public "e"%char) (Public "c"%char) [] [] true.
Lemma r1_wf : receipt_wf r1.
Proof. split; unfold in_u64, u64max; simpl; lia. Qed.
Lemma r2_wf : receipt_wf r2.
Proof. split; unfold in_u64, u64max; simpl; lia. Qed.
Definition claim1 : claimMsg := exit_claim "e"%char "exit-a" "s1" 1 60 1000.
Definition ack1 : ackMsg := MkAck true (Public "c"%char) (ed_Sign "c"%char (Receipt_canonical r1)) 0.
End Demo.
Import Toy Demo.

Lemma signed_bytes_separate_witness :
  let fields r := (SessionID r, r_Seq r, IntervalSec r, r_Bytes r, r_ExitID r) in
  (Receipt_canonical r1 = Receipt_canonical r2 <-> fields r1 = fields r2) /\
  (reportCanonical r1 = reportCanonical r2 <-> fields r1 = fields r2 /\ Saturated r1 = Saturated r2) /\
  reportCanonical r1 <> Receipt_canonical r2.
Proof. apply signed_bytes_separate; [exact r1_wf | exact r2_wf]. Defined.

Lemma exchange_agrees_witness :
  let claim := exit_claim "e"%char "exit-a" "s1" 1 60 1000 in
  let '(ack, client) := ClientCosign "c"%char 1000 (Some claim) true in
  let exit := ExitPropose "e"%char "exit-a" "s1" 1 60 1000 true ack in
  exists r, client = Ok r /\ exit = Ok r /\ Receipt_Verify r = Ok tt /\
    (SessionID r, r_Seq r, IntervalSec r, r_Bytes r, r_ExitID r) = ("s1", 1, 60, 1000, "exit-a") /\
    ExitAcctPub r = Public "e"%char /\ ClientAcctPub r = Public "c"%char.
Proof. exact (exchange_agrees "e"%char "c"%char "exit-a" "s1" 1 60 1000 1000). Defined.

Lemma exchange_sound_witness :
  Receipt_Verify r1 = Err BadExitSig /\
  (forall cl, ClientCosign "c"%char 1000 (Some claim1) true = (Some ack1, cl) ->
     exists c, Some claim1 = Some c /\ cl_Bytes c = 1000 /\
       let m := canonical (cl_SessionID c) (cl_Seq c) (cl_IntervalSec c) 1000 (cl_ExitID c) in
       ed_Verify (cl_ExitAcctPub c) m (cl_ExitSig c) = true /\ ack_ClientSig ack1 = ed_Sign "c"%char m).
Proof.
  split; [vm_compute; reflexivity|]. intros cl Hc.
  exact (proj1 (exchange_sound "c"%char) 1000 (Some claim1) true ack1 cl Hc eq_refl).
Defined.
