(* ===== verification/Capacity.v ===== *)
(** * Capacity: the arithmetic of assignment and the declared limits

    [core/capacity/assign.go], [core/capacity/limits.go] and [Usable] of
    [core/capacity/estimator.go]. A [Rate] is a uint64 of bits per second, [Bytes] a
    uint64, a session count an int; zero as a rate means no limit declared. *)

From S2P Require Import Prelude.

Abbreviation Rate := Z (only parsing).
Abbreviation Bytes := Z (only parsing).

Definition Kbit : Rate := 1000.
Definition Mbit : Rate := 1000 * Kbit.
Definition Gbit : Rate := 1000 * Mbit.

(** ** [limits.go] *)

Record Limits := MkLimits { SpeedCap : Rate; MonthlyQuota : Bytes; CycleDay : Z }.
Inductive LimitsError := CycleDayOutOfRange | CycleDayWithoutQuota.

Definition Limits_Validate (l : Limits) : result LimitsError unit :=
  check! fail_if ((CycleDay l <? 0) || (28 <? CycleDay l)) CycleDayOutOfRange;
  check! fail_if ((0 <? CycleDay l) && (MonthlyQuota l =? 0)) CycleDayWithoutQuota;
  Ok tt.

(** ** [assign.go] *)

(** [sessions+1] wraps as an int, and its conversion to a rate as a uint64. *)
Definition ProjectedShare (usable : Rate) (sessions : Z) : Rate * bool :=
  if usable =? 0 then (0, true)
  else let sessions := if sessions <? 0 then 0 else sessions in
       (usable / wrap64 (wrapi64 (sessions + 1)), false).

Definition RankShare (usable : Rate) (sessions : Z) (rated : bool) (ceiling : Rate) : Rate :=
  let usable := if negb rated || (usable =? 0) || (ceiling <? usable) then ceiling else usable in
  (ProjectedShare usable sessions).1.

Definition OctaveFloor (best : Rate) : Rate := wrap64 (best + 1) / 2.

Definition Unmetered (declared : Z) (rated : bool) : bool := negb rated && (declared =? 0).

Definition Full (usable : Rate) (sessions : Z) (unmetered : bool) (minShare : Rate) : bool :=
  if minShare =? 0 then false
  else if unmetered then false
  else let '(share, unlimited) := ProjectedShare usable sessions in
       if unlimited then false else share <? minShare.

(** [Usable] of [estimator.go]. *)
Definition Usable (declared measured : Rate) : Rate :=
  if declared =? 0 then measured else if measured <? declared then measured else declared.

(** ** Shares *)

Lemma ProjectedShare_spec usable sessions :
  0 <= sessions < i64max -> usable <> 0 ->
  ProjectedShare usable sessions = (usable / (sessions + 1), false).
Proof.
  unfold ProjectedShare, i64max. intros Hs Hu.
  rewrite (proj2 (Z.eqb_neq _ _) Hu), (proj2 (Z.ltb_ge sessions 0)) by lia.
  rewrite wrapi64_id by (unfold in_i64, i64min, i64max; lia).
  by rewrite wrap64_id by (unfold in_u64, u64max; lia).
Qed.

Lemma RankShare_spec usable sessions rated ceiling :
  0 <= sessions < i64max -> 0 < ceiling ->
  RankShare usable sessions rated ceiling =
    (if rated && negb (usable =? 0) then Z.min usable ceiling else ceiling) / (sessions + 1).
Proof.
  intros Hs Hc. unfold RankShare.
  set (u := if negb rated || _ || _ then ceiling else usable).
  assert (u = if rated && negb (usable =? 0) then Z.min usable ceiling else ceiling) as <-.
  { subst u. destruct rated, (Z.eqb_spec usable 0), (Z.ltb_spec ceiling usable); simpl; lia. }
  rewrite ProjectedShare_spec; [done..|]. subst u.
  destruct rated, (Z.eqb_spec usable 0), (Z.ltb_spec ceiling usable); simpl; lia.
Qed.

(** The octave floor admits exactly the shares at least half the best. *)
Lemma OctaveFloor_spec best s :
  0 <= best < u64max -> (OctaveFloor best <= s <-> best <= 2 * s).
Proof.
  intros Hb. unfold OctaveFloor. rewrite wrap64_id by (unfold in_u64, u64max in *; lia).
  pose proof (Z.div_mod (best + 1) 2). pose proof (Z.mod_pos_bound (best + 1) 2). lia.
Qed.

Lemma OctaveFloor_le best : 0 <= best < u64max -> OctaveFloor best <= best.
Proof. intros Hb. apply OctaveFloor_spec; lia. Qed.

(** A node is full for a tier exactly when giving one more session its equal
    part would put that part below the tier's minimum: with a minimum set, a metered
    node with a known usable rate has room for one more iff the rate covers the
    minimum for all the sessions it would then carry; with no minimum, an unmetered
    node, or no usable rate known, it is never full. *)
Theorem Full_spec usable sessions unmetered minShare :
  0 <= usable -> 0 <= minShare -> 0 <= sessions < i64max ->
  (Full usable sessions unmetered minShare = false <->
   minShare = 0 \/ unmetered = true \/ usable = 0 \/ minShare * (sessions + 1) <= usable).
Proof.
  intros Hu Hm Hs. unfold Full.
  destruct (Z.eqb_spec minShare 0); [tauto|]. destruct unmetered; [tauto|].
  destruct (decide (usable = 0)) as [->|Hne]; [simpl; tauto|].
  rewrite ProjectedShare_spec by done. rewrite Z.ltb_ge.
  assert (minShare <= usable / (sessions + 1) <-> minShare * (sessions + 1) <= usable) as ->.
  { split; intros Hle.
    - pose proof (Z.mul_div_le usable (sessions + 1)). nia.
    - apply Z.div_le_lower_bound; lia. }
  intuition congruence.
Qed.

Lemma Full_spec_witness :
  Full 10000000 3 false 2500000 = false <->
  2500000 = 0 \/ false = true \/ 10000000 = 0 \/ 2500000 * (3 + 1) <= 10000000.
Proof. apply Full_spec; unfold i64max; lia. Defined.

(** What a node is counted on for never exceeds what it declared, nor what was
    measured of it. *)
Lemma Usable_le declared measured :
  0 <= measured -> Usable declared measured <= measured /\
  (declared <> 0 -> Usable declared measured <= declared).
Proof.
  unfold Usable. intros ?. destruct (Z.eqb_spec declared 0), (Z.ltb_spec measured declared); lia.
Qed.
