(* ===== verification/Quota.v ===== *)
(** * The monthly quota: [core/capacity/quota.go]

    A node's count of the bytes its operator's line carries in a billing cycle, the cap
    it stops at, and the checkpoint that survives a restart. Times are those of one
    location with a fixed offset from UTC; a location's changes of offset are not
    modelled. The checkpoint is written through [core/atomicfile], so a write either
    replaces the file or leaves it ([FileSys.atomic_replace]); whether it succeeds is an
    argument. *)

From S2P Require Import Prelude Crypto Capacity.
Local Open Scope Z_scope.

(** ** The calendar of [time] *)

(** Days and months count from the first of March of the year 0, so that the day a leap
    year adds is the last of its year. A month is the index [12 * year + month]. *)
Definition year_start (y : Z) : Z := 365 * y + y / 4 - y / 100 + y / 400.
Definition month_start (m : Z) : Z := year_start (m / 12) + (153 * (m mod 12) + 2) / 5.

(** The year of a day: an estimate that is at most one off. *)
Definition year_of (z : Z) : Z :=
  let y := z * 400 / 146097 in
  if z <? year_start y then y - 1 else if year_start (y + 1) <=? z then y + 1 else y.
(** [Time.Date] as the index of the month and the day of the month from zero. *)
Definition month_of (z : Z) : Z :=
  let y := year_of z in 12 * y + (5 * (z - year_start y) + 2) / 153.

Definition day_ns : Z := 24 * Hour.
Definition unix_day : Z := 719468.

Section Calendar.
Context (offset : Duration).

(** The local day of an instant, and the midnight that starts a day. *)
Definition local_day (t : Time) : Z := (t + offset) / day_ns + unix_day.
Definition midnight (z : Z) : Time := (z - unix_day) * day_ns - offset.

(** [time.Date(y, m, day, 0, 0, 0, 0, loc)], a day outside the month running on. *)
Definition date (month day : Z) : Time := midnight (month_start month + (day - 1)).

(** [t.AddDate(0, -1, 0)] at a midnight. *)
Definition month_before (c : Time) : Time :=
  let z := local_day c in let m := month_of z in date (m - 1) (z - month_start m + 1).

(** [CycleStart]. *)
Definition CycleStart (now : Time) (day : Z) : Time :=
  let day := if day <? 1 then 1 else day in
  let c := date (month_of (local_day now)) day in
  if After c now then month_before c else c.

(** ** The quota *)

Definition maxFlushGranularity : Z := 16 * 1000000.
Definition minFlushGranularity : Z := 64 * 1000.
Definition flushInterval : Duration := 30 * Second.
Definition LinkCrossings : Z := 2.

(** [path] is whether there is one. *)
Record Quota := MkQuota {
  limit : Z; cycleDay : Z; used : Z; cycleStart : Time; path : bool;
  flushedAt : Z; flushedTime : Time; flushErr : bool;
}.
Record quotaState := MkState { st_CycleStart : Time; st_Used : Z; st_Limit : Z; st_CycleDay : Z }.

(** What is at the path: nothing, a file that cannot be read or parsed, or a state. *)
Inductive File := Missing | Unreadable | Corrupt | Saved (st : quotaState).
Inductive QuotaError := ReadQuota | ParseQuota.

Definition granularity (q : Quota) : Z :=
  let g := limit q / 64 in
  let g := if g <? minFlushGranularity then minFlushGranularity else g in
  if maxFlushGranularity <? g then maxFlushGranularity else g.

Definition NewQuota (l : Limits) (has_path : bool) (file : File) (now : Time) : result QuotaError (option Quota) :=
  if MonthlyQuota l =? 0 then Ok None
  else
    let day := if CycleDay l =? 0 then 1 else CycleDay l in
    let q := MkQuota (MonthlyQuota l) day 0 (CycleStart now day) has_path 0 now false in
    if negb has_path then Ok (Some q)
    else
      match file with
      | Missing => Ok (Some q)
      | Unreadable => Err ReadQuota
      | Corrupt => Err ParseQuota
      | Saved st =>
          Ok (Some (if Before (st_CycleStart st) (cycleStart q) then q
                    else MkQuota (limit q) (cycleDay q) (st_Used st) (st_CycleStart st) (path q) (st_Used st) (flushedTime q) (flushErr q)))
      end.

(** [checkpoint]: [ok] is whether the directory and the file can be written. *)
Definition checkpoint (q : Quota) (file : File) (now : Time) (ok : bool) : Quota * File :=
  let flushed (err : bool) := MkQuota (limit q) (cycleDay q) (used q) (cycleStart q) (path q) (used q) now err in
  if negb (path q) then (flushed (flushErr q), file)
  else if ok then (flushed false, Saved (MkState (cycleStart q) (used q) (limit q) (cycleDay q)))
  else (MkQuota (limit q) (cycleDay q) (used q) (cycleStart q) (path q) (flushedAt q) (flushedTime q) true, file).

Definition rollover (q : Quota) (file : File) (now : Time) (ok : bool) : Quota * File :=
  let cs := CycleStart now (cycleDay q) in
  if negb (After cs (cycleStart q)) then (q, file)
  else checkpoint (MkQuota (limit q) (cycleDay q) 0 cs (path q) 0 (flushedTime q) (flushErr q)) file now ok.

(** [ok1] and [ok2] are for the writes of the roll-over and of the count itself. *)
Definition Add (q : Quota) (n : Z) (file : File) (now : Time) (ok1 ok2 : bool) : Quota * File :=
  if n =? 0 then (q, file)
  else
    let '(q, file) := rollover q file now ok1 in
    let was := limit q <=? used q in
    let q := MkQuota (limit q) (cycleDay q) (wrap64 (used q + n)) (cycleStart q) (path q) (flushedAt q) (flushedTime q) (flushErr q) in
    if negb was && (limit q <=? used q) then checkpoint q file now ok2
    else if (granularity q <=? wrap64 (used q - flushedAt q)) || (flushInterval <=? time_Sub now (flushedTime q))
    then checkpoint q file now ok2
    else (q, file).
Definition AddForwarded (q : Quota) (n : Z) (file : File) (now : Time) (ok1 ok2 : bool) : Quota * File :=
  Add q (wrap64 (n * LinkCrossings)) file now ok1 ok2.

Definition Exhausted (q : Quota) (file : File) (now : Time) (ok : bool) : bool * (Quota * File) :=
  let '(q, file) := rollover q file now ok in (limit q <=? used q, (q, file)).
Definition Used (q : Quota) (file : File) (now : Time) (ok : bool) : Z * (Quota * File) :=
  let '(q, file) := rollover q file now ok in (used q, (q, file)).
Definition Remaining (q : Quota) (file : File) (now : Time) (ok : bool) : Z * (Quota * File) :=
  let '(q, file) := rollover q file now ok in (if limit q <=? used q then 0 else limit q - used q, (q, file)).
Definition Flush (q : Quota) (file : File) (now : Time) (ok : bool) : bool * (Quota * File) :=
  let '(q, file) := checkpoint q file now ok in (negb (flushErr q), (q, file)).

(** [quotaReader.Read]: the check, what the wrapped reader returned ([n] bytes and an
    error), and the count. Other readers of the same quota may run between the two. *)
Definition read_finish (q : Quota) (n : Z) (file : File) (now : Time) (ok1 ok2 : bool) : Quota * File :=
  if 0 <? n then AddForwarded q n file now ok1 ok2 else (q, file).
Inductive ReadError := ErrQuotaExhausted | UnderlyingError.
Definition quotaReader_Read (q : Quota) (file : File) (now1 now2 : Time) (read : Z * option ReadError)
  (ok0 ok1 ok2 : bool) : (Z * option ReadError) * (Quota * File) :=
  let '(spent, (q, file)) := Exhausted q file now1 ok0 in
  if spent then ((0, Some ErrQuotaExhausted), (q, file))
  else let '(n, err) := read in ((n, err), read_finish q n file now2 ok1 ok2).
End Calendar.

(** ** The calendar *)

Lemma year_start_step y : 365 <= year_start (y + 1) - year_start y <= 366.
Proof. unfold year_start. Z.div_mod_to_equations. lia. Qed.

Lemma year_of_spec z : year_start (year_of z) <= z < year_start (year_of z + 1).
Proof.
  unfold year_of. set (y := z * 400 / 146097).
  assert (year_start (y - 1) <= z < year_start (y + 2)) as Hy.
  { unfold y, year_start. Z.div_mod_to_equations. lia. }
  destruct (Z.ltb_spec z (year_start y)); [replace (y - 1 + 1) with y by lia; lia|].
  destruct (Z.leb_spec (year_start (y + 1)) z); [replace (y + 1 + 1) with (y + 2) by lia; lia|lia].
Qed.

Lemma month_start_step m : 28 <= month_start (m + 1) - month_start m <= 31.
Proof.
  unfold month_start. pose proof (year_start_step (m / 12)) as Hs.
  assert (m mod 12 = 11 /\ (m + 1) / 12 = m / 12 + 1 /\ (m + 1) mod 12 = 0 \/
          m mod 12 < 11 /\ (m + 1) / 12 = m / 12 /\ (m + 1) mod 12 = m mod 12 + 1) as [(-> & -> & ->)|(Hlt & -> & ->)]
    by (Z.div_mod_to_equations; lia).
  - change ((153 * 0 + 2) / 5) with 0. change ((153 * 11 + 2) / 5) with 337. lia.
  - pose proof (Z.mod_pos_bound m 12 ltac:(lia)). set (k := m mod 12) in *. Z.div_mod_to_equations. lia.
Qed.

Lemma month_of_spec z : month_start (month_of z) <= z < month_start (month_of z + 1).
Proof.
  unfold month_of. pose proof (year_of_spec z) as Hy. set (y := year_of z) in *.
  pose proof (year_start_step y). set (doy := z - year_start y) in *. assert (0 <= doy <= 365) as Hd by lia.
  set (k := (5 * doy + 2) / 153). assert (0 <= k <= 11) as Hk by (unfold k; Z.div_mod_to_equations; lia).
  assert ((12 * y + k) / 12 = y /\ (12 * y + k) mod 12 = k) as [Hq Hr] by (Z.div_mod_to_equations; lia).
  unfold month_start at 1. rewrite Hq, Hr.
  assert ((153 * k + 2) / 5 <= doy) as Hlow by (unfold k; Z.div_mod_to_equations; lia).
  split; [lia|]. unfold month_start. destruct (Z.eq_dec k 11) as [->|Hne].
  - assert ((12 * y + 11 + 1) / 12 = y + 1 /\ (12 * y + 11 + 1) mod 12 = 0) as [-> ->] by (Z.div_mod_to_equations; lia).
    change ((153 * 0 + 2) / 5) with 0. lia.
  - assert ((12 * y + k + 1) / 12 = y /\ (12 * y + k + 1) mod 12 = k + 1) as [-> ->] by (Z.div_mod_to_equations; lia).
    assert (doy < (153 * (k + 1) + 2) / 5); [|lia]. unfold k. Z.div_mod_to_equations. lia.
Qed.

Lemma month_start_lt m m' : m < m' -> month_start m + 28 <= month_start m'.
Proof.
  intros Hlt. replace m' with (m + 1 + Z.of_nat (Z.to_nat (m' - m - 1))) by lia.
  induction (Z.to_nat (m' - m - 1)) as [|n IH].
  - rewrite Z.add_0_r. pose proof (month_start_step m). lia.
  - pose proof (month_start_step (m + 1 + Z.of_nat n)). replace (m + 1 + Z.of_nat (S n)) with (m + 1 + Z.of_nat n + 1) by lia. lia.
Qed.

Lemma month_of_unique z m : month_start m <= z < month_start (m + 1) -> month_of z = m.
Proof.
  intros Hm. pose proof (month_of_spec z) as Hs. destruct (Z.lt_trichotomy (month_of z) m) as [Hlt|[?|Hgt]]; [|done|].
  - assert (month_start (month_of z + 1) <= month_start m); [|lia].
    destruct (Z.eq_dec (month_of z + 1) m) as [->|]; [lia|]. pose proof (month_start_lt (month_of z + 1) m). lia.
  - assert (month_start (m + 1) <= month_start (month_of z)); [|lia].
    destruct (Z.eq_dec (m + 1) (month_of z)) as [->|]; [lia|]. pose proof (month_start_lt (m + 1) (month_of z)). lia.
Qed.

Section CalendarProofs.
Context (offset : Duration).

Lemma local_day_midnight z : local_day offset (midnight offset z) = z.
Proof.
  unfold local_day, midnight. replace ((z - unix_day) * day_ns - offset + offset) with ((z - unix_day) * day_ns) by lia.
  rewrite Z.div_mul by discriminate. lia.
Qed.
Lemma midnight_le_iff z t : midnight offset z <= t <-> z <= local_day offset t.
Proof.
  unfold local_day, midnight. assert (0 < day_ns) as Hd by reflexivity. revert Hd. generalize day_ns. intros d Hd.
  pose proof (Z.div_mod (t + offset) d ltac:(lia)). pose proof (Z.mod_pos_bound (t + offset) d Hd). nia.
Qed.

(** A cycle starts at the latest anchor day at or before now. *)
Lemma CycleStart_spec now day :
  1 <= day <= 28 ->
  exists m, CycleStart offset now day = date offset m day /\ date offset m day <= now < date offset (m + 1) day.
Proof.
  intros Hd. unfold CycleStart. rewrite (proj2 (Z.ltb_ge _ _)) by lia. set (z := local_day offset now).
  pose proof (month_of_spec z) as Hm. set (m := month_of z) in *. unfold After.
  pose proof (month_start_step m). pose proof (month_start_step (m - 1)) as Hp. replace (m - 1 + 1) with m in Hp by lia.
  destruct (Z.ltb_spec now (date offset m day)) as [Hlt|Hge]; unfold date in *.
  - unfold month_before, date. rewrite local_day_midnight.
    rewrite (month_of_unique (month_start m + (day - 1)) m) by lia.
    replace (month_start m + (day - 1) - month_start m + 1 - 1) with (day - 1) by lia.
    exists (m - 1). replace (m - 1 + 1) with m by lia. split; [done|]. split; [|done].
    apply midnight_le_iff. fold z. lia.
  - exists m. split; [done|]. split; [done|]. apply Z.nle_gt. rewrite midnight_le_iff. fold z.
    pose proof (month_start_lt m (m + 1)). lia.
Qed.

Lemma date_mono m m' day : m <= m' -> date offset m day <= date offset m' day.
Proof.
  intros Hle. unfold date, midnight. destruct (Z.eq_dec m m') as [->|]; [lia|].
  pose proof (month_start_lt m m'). assert (0 < day_ns) by reflexivity. nia.
Qed.

(** Later instants are in later cycles, and an instant of the same cycle starts it at the
    same place. *)
Lemma CycleStart_mono now now' day :
  1 <= day <= 28 -> now <= now' -> CycleStart offset now day <= CycleStart offset now' day.
Proof.
  intros Hd Hle. destruct (CycleStart_spec now day Hd) as (m & -> & Hm), (CycleStart_spec now' day Hd) as (m' & -> & Hm').
  apply date_mono. destruct (Z.le_gt_cases m m') as [|Hgt]; [done|].
  assert (date offset (m' + 1) day <= date offset m day) by (apply date_mono; lia). lia.
Qed.
Lemma CycleStart_le now day : 1 <= day <= 28 -> CycleStart offset now day <= now.
Proof. intros Hd. destruct (CycleStart_spec now day Hd) as (m & -> & Hm). lia. Qed.
End CalendarProofs.

(** ** What a crash can lose *)

Section Persistence.
Context (offset : Duration) (l : Limits).
Context (Hlimit : 0 < MonthlyQuota l) (Hday : 0 <= CycleDay l <= 28).

Definition cycle_day : Z := if CycleDay l =? 0 then 1 else CycleDay l.

(** The life of a node: bytes counted, questions asked, a flush, and stops of any kind
    followed by a start. The clock may jump either way, and every checkpoint may fail:
    [ok1] is for the roll-over, [ok2] for the count. *)
Inductive event :=
| EAdd (n : Z) (now : Time) (ok1 ok2 : bool) | EAsk (now : Time) (ok : bool) | EFlush (now : Time) (ok : bool) | ERestart (now : Time).

(** The node and its file, with what was really served in each cycle and what was served
    in all. A cycle is left by a stop or by a roll-over. [crashes] counts the stops in it
    with no failed checkpoint standing; [lost] is what was not on disk when it was left
    with one. *)
Record life := MkLife { lq : Quota; lf : File; served : Time -> Z; crashes : Time -> Z; lost : Time -> Z; total : Z }.

Definition bump (f : Time -> Z) (x : Time) (n : Z) : Time -> Z := fun y => if y =? x then f y + n else f y.

Definition unsaved (q : Quota) : Z := used q - flushedAt q.
Definition rolled (s : life) (q : Quota) (ok : bool) : Time -> Z :=
  if (cycleStart q =? cycleStart (lq s)) || ok then lost s else bump (lost s) (cycleStart (lq s)) (unsaved (lq s)).

Definition after (s : life) (e : event) : life :=
  match e with
  | EAdd n now ok1 ok2 =>
      let '(q, f) := Add offset (lq s) n (lf s) now ok1 ok2 in
      MkLife q f (bump (served s) (cycleStart q) n) (crashes s) (rolled s q ok1) (total s + n)
  | EAsk now ok =>
      let '(q, f) := (Exhausted offset (lq s) (lf s) now ok).2 in
      MkLife q f (served s) (crashes s) (rolled s q ok) (total s)
  | EFlush now ok =>
      let '(q, f) := (Flush (lq s) (lf s) now ok).2 in
      MkLife q f (served s) (crashes s) (lost s) (total s)
  | ERestart now =>
      let c := cycleStart (lq s) in
      match NewQuota offset l true (lf s) now with
      | Ok (Some q) =>
          if flushErr (lq s) then MkLife q (lf s) (served s) (crashes s) (bump (lost s) c (unsaved (lq s))) (total s)
          else MkLife q (lf s) (served s) (bump (crashes s) c 1) (lost s) (total s)
      | _ => s
      end
  end.

Definition born (now : Time) : option life :=
  match NewQuota offset l true Missing now with
  | Ok (Some q) => Some (MkLife q Missing (fun _ => 0) (fun _ => 0) (fun _ => 0) 0)
  | _ => None
  end.

Definition persisted (f : File) (x : Time) : Z :=
  match f with Saved st => if st_CycleStart st =? x then st_Used st else 0 | _ => 0 end.
Definition reaches (f : File) (x : Time) : Prop :=
  match f with Saved st => st_CycleStart st <= x | Missing => True | _ => False end.

Record Inv (s : life) : Prop := {
  V_limit : limit (lq s) = MonthlyQuota l;
  V_day : cycleDay (lq s) = cycle_day;
  V_path : path (lq s) = true;
  V_used : 0 <= flushedAt (lq s) <= used (lq s) /\ used (lq s) <= total s;
  V_gran : flushErr (lq s) = false -> unsaved (lq s) < granularity (lq s);
  V_spent : flushErr (lq s) = false -> limit (lq s) <= used (lq s) -> limit (lq s) <= flushedAt (lq s);
  V_flushed : flushedAt (lq s) = persisted (lf s) (cycleStart (lq s));
  V_file : reaches (lf s) (cycleStart (lq s));
  V_saved : forall x, 0 <= persisted (lf s) x <= total s;
  V_crashes : forall x, 0 <= crashes s x /\ 0 <= lost s x;
  V_cur : served s (cycleStart (lq s)) <= used (lq s) + granularity (lq s) * crashes s (cycleStart (lq s)) + lost s (cycleStart (lq s));
  V_other : forall x, x <> cycleStart (lq s) -> reaches (lf s) x ->
    served s x <= persisted (lf s) x + granularity (lq s) * crashes s x + lost s x;
  V_counted : used (lq s) <= served s (cycleStart (lq s));
  V_written : forall x, 0 <= served s x /\ persisted (lf s) x <= served s x;
}.

Lemma granularity_pos q : 0 < granularity q.
Proof.
  unfold granularity, minFlushGranularity, maxFlushGranularity. repeat case_match; b2p; lia.
Qed.
Lemma granularity_limit q q' : limit q = limit q' -> granularity q = granularity q'.
Proof. unfold granularity. by intros ->. Qed.

(** The granularity is that of the limit, whatever else changed. *)
Ltac same_gran q :=
  repeat match goal with
  | |- context [granularity (MkQuota ?a ?b ?c ?d ?e ?f ?g ?h)] =>
      rewrite (granularity_limit (MkQuota a b c d e f g h) q) by (cbn [limit]; congruence)
  end.

Lemma cycle_day_range : 1 <= cycle_day <= 28.
Proof. unfold cycle_day. destruct (Z.eqb_spec (CycleDay l) 0); lia. Qed.

Ltac life_simpl :=
  cbn [lq lf served crashes lost total limit cycleDay used cycleStart path flushedAt flushErr persisted reaches st_CycleStart st_Used] in *.

Lemma bump_other f x n y : y <> x -> bump f x n y = f y.
Proof. intros Hy. unfold bump. by rewrite (proj2 (Z.eqb_neq _ _) Hy). Qed.
Lemma bump_same f x n : bump f x n x = f x + n.
Proof. unfold bump. by rewrite Z.eqb_refl. Qed.

(** The count of the current cycle may grow beside its checkpoint. *)
Lemma uncounted_inv s q served' total' :
  Inv s -> limit q = limit (lq s) -> cycleDay q = cycleDay (lq s) -> path q = true -> flushedAt q = flushedAt (lq s) ->
  cycleStart q = cycleStart (lq s) -> used (lq s) <= used q <= total' -> total s <= total' ->
  (flushErr q = false -> unsaved q < granularity (lq s) /\ (limit q <= used q -> limit q <= flushedAt q)) ->
  served' (cycleStart q) <= used q + granularity (lq s) * crashes s (cycleStart q) + lost s (cycleStart q) ->
  (forall x, x <> cycleStart q -> served' x = served s x) -> used q <= served' (cycleStart q) ->
  Inv (MkLife q (lf s) served' (crashes s) (lost s) total').
Proof.
  intros HI Hl Hd Hp Hf Hc Hu Ht He Hs Hsame Hover. pose proof (V_used _ HI). rewrite Hc in *.
  split; life_simpl; rewrite ?Hl, ?Hd, ?Hc, ?Hf, ?(granularity_limit q (lq s) Hl); try apply HI; try done; try lia.
  - apply He.
  - intros E. destruct (He E). lia.
  - intros x. pose proof (V_saved _ HI x). lia.
  - intros x Hx. rewrite (Hsame x Hx). by apply (V_other _ HI).
  - intros x. pose proof (V_written _ HI x). destruct (Z.eq_dec x (cycleStart (lq s))) as [->|Hx]; [|by rewrite (Hsame x Hx)].
    pose proof (V_flushed _ HI) as Hfl. rewrite <-Hfl. lia.
Qed.

(** A checkpoint of the current count keeps the invariant, whether it succeeds or not. *)
Lemma checkpoint_inv s q now ok served' total' :
  Inv s -> limit q = limit (lq s) -> cycleDay q = cycleDay (lq s) -> path q = true -> flushedAt q = flushedAt (lq s) ->
  cycleStart q = cycleStart (lq s) -> used (lq s) <= used q <= total' -> total s <= total' ->
  served' (cycleStart q) <= used q + granularity (lq s) * crashes s (cycleStart q) + lost s (cycleStart q) ->
  (forall x, x <> cycleStart q -> served' x = served s x) -> used q <= served' (cycleStart q) ->
  Inv (MkLife (checkpoint q (lf s) now ok).1 (checkpoint q (lf s) now ok).2 served' (crashes s) (lost s) total').
Proof.
  intros HI Hl Hd Hp Hf Hc Hu Ht Hs Hsame Hover. unfold checkpoint. rewrite Hp. cbn [negb].
  destruct ok; cbn [fst snd]; [|by apply uncounted_inv].
  pose proof (granularity_pos (lq s)). pose proof (V_used _ HI). rewrite Hc in *.
  split; life_simpl; same_gran (lq s); rewrite ?Hl, ?Hd, ?Hc; unfold unsaved; life_simpl; try apply HI; try lia.
  - by rewrite Z.eqb_refl.
  - intros x. destruct (_ =? x); lia.
  - intros x Hx Hre. rewrite (Hsame x Hx). pose proof (V_other _ HI x Hx) as Ho. rewrite (proj2 (Z.eqb_neq _ _)) by congruence.
    pose proof (V_file _ HI) as Hf'. unfold persisted, reaches in *.
    destruct (lf s) as [| | |st]; try done; [by apply Ho|]. rewrite (proj2 (Z.eqb_neq _ _)) in Ho by lia. apply Ho. lia.
  - intros x. destruct (Z.eqb_spec (cycleStart (lq s)) x) as [<-|Hx]; [lia|].
    rewrite (Hsame x) by congruence. pose proof (V_written _ HI x). lia.
Qed.

(** What is not on disk when a cycle is left is at most the unsaved count. *)
Lemma left_behind s x : Inv s -> reaches (lf s) x ->
  served s x <= persisted (lf s) x + granularity (lq s) * crashes s x + bump (lost s) (cycleStart (lq s)) (unsaved (lq s)) x.
Proof.
  intros HI Hx. destruct (Z.eq_dec x (cycleStart (lq s))) as [->|Hne].
  - rewrite bump_same. pose proof (V_cur _ HI). pose proof (V_flushed _ HI). unfold unsaved. lia.
  - rewrite bump_other by done. by apply (V_other _ HI).
Qed.

Lemma rolled_same s q ok : cycleStart q = cycleStart (lq s) -> rolled s q ok = lost s.
Proof. unfold rolled. intros ->. by rewrite Z.eqb_refl. Qed.

Lemma rollover_inv s now ok q f :
  Inv s -> rollover offset (lq s) (lf s) now ok = (q, f) ->
  Inv (MkLife q f (served s) (crashes s) (rolled s q ok) (total s)).
Proof.
  intros HI. unfold rollover, After. set (cs := CycleStart offset now (cycleDay (lq s))).
  destruct (Z.ltb_spec (cycleStart (lq s)) cs) as [Hlt|Hge]; cbn [negb].
  2:{ intros [= <- <-]. rewrite rolled_same by done. destruct HI. by split. }
  pose proof (granularity_pos (lq s)) as Hg. pose proof (V_used _ HI).
  pose proof (V_file _ HI) as Hf. pose proof (V_other _ HI) as Ho. pose proof (V_limit _ HI) as Hlim.
  assert (persisted (lf s) cs = 0) as Hp0.
  { unfold persisted, reaches in *. destruct (lf s) as [| | |st]; try done. by rewrite (proj2 (Z.eqb_neq _ _)) by lia. }
  assert (reaches (lf s) cs) as Hrcs by (unfold reaches in *; destruct (lf s); try done; lia).
  assert (served s cs <= granularity (lq s) * crashes s cs + lost s cs) as Hcs by (specialize (Ho cs ltac:(lia) Hrcs); lia).
  unfold checkpoint. cbn [path]. rewrite (V_path _ HI). cbn [negb]. destruct ok; intros [= <- <-]; unfold rolled; cbn [cycleStart].
  - rewrite orb_true_r. split; life_simpl; same_gran (lq s); unfold unsaved; life_simpl; try apply HI; try done; try lia.
    + by rewrite Z.eqb_refl.
    + intros x. destruct (_ =? x); lia.
    + intros x Hx Hre. rewrite (proj2 (Z.eqb_neq _ _)) by congruence.
      specialize (Ho x ltac:(lia)). unfold persisted, reaches in *.
      destruct (lf s) as [| | |st]; try done; [by apply Ho|]. rewrite (proj2 (Z.eqb_neq _ _)) in Ho by lia. apply Ho. lia.
    + intros x. pose proof (V_written _ HI x). destruct (_ =? x); lia.
  - rewrite (proj2 (Z.eqb_neq _ _)) by lia. cbn [orb].
    split; life_simpl; same_gran (lq s); try apply HI; try done; try lia.
    + intros x. pose proof (V_crashes _ HI x). destruct (Z.eq_dec x (cycleStart (lq s))) as [->|];
        [rewrite bump_same; unfold unsaved; lia|by rewrite bump_other].
    + rewrite bump_other by lia. lia.
    + intros x _ Hx. by apply left_behind.
Qed.

Lemma add_inv s n now ok1 ok2 : Inv s -> 0 <= n -> total s + n <= u64max -> Inv (after s (EAdd n now ok1 ok2)).
Proof.
  intros HI Hn Hmax. cbn [after]. unfold Add. destruct (Z.eqb_spec n 0) as [->|Hne].
  { rewrite rolled_same by done. apply uncounted_inv; try done; try apply HI; try (pose proof (V_used _ HI); lia).
    - intros He. split; [by apply HI|by apply HI].
    - rewrite bump_same. pose proof (V_cur _ HI). lia.
    - intros x Hx. by rewrite bump_other.
    - rewrite bump_same. pose proof (V_counted _ HI). lia. }
  destruct (rollover offset (lq s) (lf s) now ok1) as [q1 f1] eqn:Hroll.
  pose proof (rollover_inv s now ok1 q1 f1 HI Hroll) as HI1. clear HI Hroll.
  assert (forall q, cycleStart q = cycleStart q1 -> rolled s q ok1 = rolled s q1 ok1) as Hrolled by (unfold rolled; by intros q ->).
  pose proof (V_used _ HI1) as [Hu Ht]. pose proof (V_cur _ HI1) as Hcur. pose proof (V_counted _ HI1) as Hcnt. life_simpl.
  assert (wrap64 (used q1 + n) = used q1 + n) as -> by (apply wrap64_id; unfold in_u64, u64max in *; lia).
  set (q2 := MkQuota _ _ (used q1 + n) _ _ _ _ _). cbn [limit used flushedAt flushedTime] in *.
  set (s1 := MkLife q1 f1 (served s) (crashes s) (rolled s q1 ok1) (total s)) in *.
  assert (forall ok, Inv (MkLife (checkpoint q2 f1 now ok).1 (checkpoint q2 f1 now ok).2
            (bump (served s) (cycleStart q1) n) (crashes s) (rolled s q1 ok1) (total s + n))) as Hcp.
  { intros ok. apply (checkpoint_inv s1 q2 now ok); subst s1 q2; life_simpl;
      try done; [apply (V_path _ HI1)|lia|lia|rewrite bump_same; lia|intros x Hx; by apply bump_other|rewrite bump_same; lia]. }
  assert (forall ok, cycleStart (checkpoint q2 f1 now ok).1 = cycleStart q1) as Hcs by (intros ok; unfold checkpoint; by repeat case_match).
  specialize (Hcp ok2). specialize (Hcs ok2). destruct (checkpoint q2 f1 now ok2) as [q3 f3]. cbn [fst snd] in *.
  destruct (negb (limit q1 <=? used q1) && (limit q1 <=? used q1 + n)) eqn:Hspent; [cbv beta iota; rewrite Hcs, (Hrolled _ Hcs); exact Hcp|].
  assert (wrap64 (used q1 + n - flushedAt q1) = used q1 + n - flushedAt q1) as ->
    by (apply wrap64_id; unfold in_u64, u64max in *; lia).
  destruct ((_ <=? _) || (_ <=? _)) eqn:Hdue; [cbv beta iota; rewrite Hcs, (Hrolled _ Hcs); exact Hcp|]. cbv beta iota.
  apply orb_false_iff in Hdue as [Hdue _]. apply Z.leb_gt in Hdue.
  rewrite (granularity_limit _ q1) in Hdue by done. rewrite (Hrolled q2) by done.
  apply (uncounted_inv s1 q2); subst s1 q2; life_simpl; try done; try lia; [apply (V_path _ HI1)| |rewrite bump_same; lia| |rewrite bump_same; lia].
  - intros He. unfold unsaved. life_simpl. split; [lia|]. intros Hs. pose proof (V_spent _ HI1) as Hsp. life_simpl.
    apply andb_false_iff in Hspent as [Hw|Hw]; b2p; [auto|lia].
  - intros x Hx. by apply bump_other.
Qed.

Lemma restart_inv s now : Inv s -> Inv (after s (ERestart now)).
Proof.
  intros HI. cbn [after]. unfold NewQuota. rewrite (proj2 (Z.eqb_neq _ _)) by lia. fold cycle_day. cbn [negb].
  set (cs := CycleStart offset now cycle_day). set (c := cycleStart (lq s)).
  assert (forall q, limit q = MonthlyQuota l -> cycleDay q = cycle_day -> path q = true -> flushErr q = false ->
    used q = persisted (lf s) (cycleStart q) -> flushedAt q = used q -> reaches (lf s) (cycleStart q) ->
    Inv (if flushErr (lq s) then MkLife q (lf s) (served s) (crashes s) (bump (lost s) c (unsaved (lq s))) (total s)
         else MkLife q (lf s) (served s) (bump (crashes s) c 1) (lost s) (total s))) as Hnew.
  { intros q Hl Hd Hp He Hu Hf Hr. pose proof (granularity_pos q) as Hg. pose proof (V_used _ HI). pose proof (V_gran _ HI) as Hgr.
    pose proof (V_saved _ HI (cycleStart q)) as Hsv.
    assert (granularity q = granularity (lq s)) as Hgq by (apply granularity_limit; rewrite Hl; symmetry; apply HI).
    pose proof (fun x => left_behind s x HI) as Hall. rewrite <-Hgq in *.
    destruct (flushErr (lq s)).
    - split; life_simpl; try done; try lia; [unfold unsaved; lia|apply HI| |rewrite Hu; by apply Hall|intros x _ Hx; by apply Hall|rewrite Hu; apply (V_written _ HI)|apply (V_written _ HI)].
      intros x. pose proof (V_crashes _ HI x). unfold bump, unsaved. case_match; lia.
    - specialize (Hgr eq_refl).
      assert (forall x, reaches (lf s) x -> served s x <= persisted (lf s) x + granularity q * bump (crashes s) c 1 x + lost s x) as Hall'.
      { intros x Hx. specialize (Hall x Hx). fold c in Hall. unfold bump in *. destruct (x =? c); lia. }
      split; life_simpl; try done; try lia; [unfold unsaved; lia|apply HI| |rewrite Hu; by apply Hall'|intros x _ Hx; by apply Hall'|rewrite Hu; apply (V_written _ HI)|apply (V_written _ HI)].
      intros x. pose proof (V_crashes _ HI x). unfold bump. case_match; lia. }
  pose proof (V_file _ HI) as Hfile. destruct (lf s) as [| | |st] eqn:Hlf; try done; [by apply Hnew|].
  unfold Before. cbn [cycleStart]. destruct (Z.ltb_spec (st_CycleStart st) cs) as [Hlt|Hge]; apply Hnew; life_simpl; try done; try lia.
  - by rewrite (proj2 (Z.eqb_neq _ _)) by lia.
  - by rewrite Z.eqb_refl.
Qed.

Definition bytes_of (e : event) : Z := match e with EAdd n _ _ _ => n | _ => 0 end.
Definition sane (e : event) : Prop := 0 <= bytes_of e.
(** Every checkpoint of the event succeeds. *)
Definition saves (e : event) : bool :=
  match e with EAdd _ _ ok1 ok2 => ok1 && ok2 | EAsk _ ok | EFlush _ ok => ok | ERestart _ => true end.

Lemma after_inv s e : Inv s -> sane e -> total s + bytes_of e <= u64max ->
  Inv (after s e) /\ total (after s e) = total s + bytes_of e.
Proof.
  intros HI Hs Hmax. destruct e as [n now ok1 ok2|now ok|now ok|now]; cbn [bytes_of] in *; rewrite ?Z.add_0_r.
  - split; [by apply add_inv|]. cbn [after]. by destruct (Add _ _ _ _ _ _ _).
  - cbn [after]. unfold Exhausted. destruct (rollover offset (lq s) (lf s) now ok) as [q f] eqn:Hr.
    cbn [snd]. split; [by apply (rollover_inv s now)|done].
  - cbn [after]. unfold Flush. pose proof (V_used _ HI).
    pose proof (checkpoint_inv s (lq s) now ok (served s) (total s) HI) as Hc.
    destruct (checkpoint (lq s) (lf s) now ok) as [q f]. cbn [fst snd] in *. split; [|done].
    apply Hc; try done; try lia; apply HI.
  - split; [by apply restart_inv|]. cbn [after]. by repeat case_match.
Qed.

(** While all checkpoints succeed none is left failed, and nothing is lost to one. *)
Definition all_saved (s : life) : Prop := flushErr (lq s) = false /\ forall x, lost s x = 0.
Lemma checkpoint_ok q f now : path q = true -> flushErr (checkpoint q f now true).1 = false.
Proof. unfold checkpoint. by intros ->. Qed.
Lemma rollover_ok q f now : path q = true -> flushErr q = false ->
  flushErr (rollover offset q f now true).1 = false /\ path (rollover offset q f now true).1 = true.
Proof. intros Hp He. unfold rollover, checkpoint. by repeat (case_match; cbn in *; try congruence). Qed.
Lemma after_saves s e : path (lq s) = true -> all_saved s -> saves e = true -> all_saved (after s e).
Proof.
  intros Hp [He Hl] Hok. destruct e as [n now ok1 ok2|now ok|now ok|now]; cbn [saves] in Hok.
  - apply andb_true_iff in Hok as [-> ->]. pose proof (rollover_ok (lq s) (lf s) now Hp He) as Hr. cbn [after]. unfold Add.
    destruct (rollover offset (lq s) (lf s) now true) as [q f]. cbn [fst] in Hr. destruct Hr as [Hr Hpr].
    assert (forall q, rolled s q true = lost s) as Hro by (intros q0; unfold rolled; by rewrite orb_true_r).
    repeat (case_match; try (unfold checkpoint in *; cbn [path] in *; rewrite ?Hpr in *; cbn in * )); simplify_eq; split; cbn; rewrite ?Hro; try done.
  - subst ok. cbn [after]. unfold Exhausted. pose proof (rollover_ok (lq s) (lf s) now Hp He) as Hr.
    destruct (rollover offset (lq s) (lf s) now true) as [q f]. cbn in *. split; [apply Hr|]. unfold rolled. by rewrite orb_true_r.
  - subst ok. cbn [after]. unfold Flush. pose proof (checkpoint_ok (lq s) (lf s) now Hp) as Hr.
    destruct (checkpoint (lq s) (lf s) now true) as [q f]. by split.
  - cbn [after]. unfold NewQuota. rewrite He. repeat case_match; simplify_eq; by split.
Qed.

Lemma foldl_after_inv es s :
  Inv s -> Forall sane es -> total s + foldr Z.add 0 (map bytes_of es) <= u64max -> Inv (foldl after s es).
Proof.
  revert s. induction es as [|e es IH]; intros s HI Hs Hmax; [done|]. apply Forall_cons in Hs as [He Hs].
  cbn [foldl map foldr] in *.
  assert (0 <= foldr Z.add 0 (map bytes_of es)) as Hpos by (clear -Hs; induction Hs; cbn; unfold sane in *; lia).
  destruct (after_inv s e HI He ltac:(lia)) as [HI' Ht]. apply IH; [done|done|lia].
Qed.

Lemma born_inv now s : born now = Some s -> Inv s /\ all_saved s.
Proof.
  unfold born, NewQuota. rewrite (proj2 (Z.eqb_neq _ _)) by lia. intros [= <-].
  pose proof cycle_day_range. split; [|done]. split; cbn; unfold unsaved; cbn; try done; try lia. all: intros; try lia.
  all: match goal with |- context [granularity ?q] => pose proof (granularity_pos q) end; lia.
Qed.
Lemma foldl_saves es s :
  Inv s -> all_saved s -> Forall sane es -> total s + foldr Z.add 0 (map bytes_of es) <= u64max -> Forall (fun e => saves e = true) es ->
  all_saved (foldl after s es).
Proof.
  revert s. induction es as [|e es IH]; intros s HI Ha Hs Hmax Hok; [done|].
  apply Forall_cons in Hs as [He Hs]. apply Forall_cons in Hok as [Hoke Hok]. cbn [foldl map foldr] in *.
  assert (0 <= foldr Z.add 0 (map bytes_of es)) as Hpos by (clear -Hs; induction Hs; cbn; unfold sane in *; lia).
  destruct (after_inv s e HI He ltac:(lia)) as [HI' Ht]. apply IH; try done; [|lia]. apply after_saves; try done. apply HI.
Qed.
End Persistence.

(** ** The cap under concurrent transfers *)

Section Cap.
Context (offset : Duration) (streams : nat) (buffer : Z) (Hbuf : 0 <= buffer).

(** The node's quota and its file, and the streams that passed the check and are reading. *)
Record metered := MkMetered { mq : Quota; mf : File; reading : gset nat }.

(** Any stream may check, and any that is reading may finish with up to a buffer of bytes,
    in any order, at any reading of the clock, with checkpoints that succeed or fail. *)
Inductive meter_step : metered -> metered -> Prop :=
| meter_check st i now ok spent q f :
    (i < streams)%nat -> i ∉ reading st -> Exhausted offset (mq st) (mf st) now ok = (spent, (q, f)) ->
    meter_step st (MkMetered q f (if spent then reading st else {[i]} ∪ reading st))
| meter_finish st i n now ok1 ok2 q f :
    i ∈ reading st -> 0 <= n <= buffer -> read_finish offset (mq st) n (mf st) now ok1 ok2 = (q, f) ->
    meter_step st (MkMetered q f (reading st ∖ {[i]})).

Definition overshoot : Z := LinkCrossings * buffer * Z.of_nat streams.

Record MeterInv (cap : Z) (st : metered) : Prop := {
  M_limit : limit (mq st) = cap;
  M_streams : reading st ⊆ set_seq 0 streams;
  M_used : 0 <= used (mq st) /\ used (mq st) + LinkCrossings * buffer * Z.of_nat (size (reading st)) <= cap - 1 + overshoot;
}.

Lemma checkpoint_keeps q f now ok q' f' :
  checkpoint q f now ok = (q', f') -> limit q' = limit q /\ used q' = used q.
Proof. unfold checkpoint. repeat case_match; by intros [= <- <-]. Qed.
Lemma rollover_keeps q f now ok q' f' :
  rollover offset q f now ok = (q', f') -> limit q' = limit q /\ (used q' = used q \/ used q' = 0).
Proof.
  unfold rollover. case_match; [intros [= <- <-]; auto|]. intros [Hl Hu]%checkpoint_keeps. cbn in *. auto.
Qed.
Lemma Add_keeps q n f now ok1 ok2 q' f' :
  0 <= n -> 0 <= used q -> used q + n <= u64max -> Add offset q n f now ok1 ok2 = (q', f') ->
  limit q' = limit q /\ 0 <= used q' <= used q + n.
Proof.
  intros Hn Hu Hmax. unfold Add. destruct (Z.eqb_spec n 0) as [->|_]; [intros [= <- <-]; lia|].
  destruct (rollover offset q f now ok1) as [q1 f1] eqn:Hr. apply rollover_keeps in Hr as [<- Hr].
  rewrite wrap64_id by (unfold in_u64, u64max in *; lia).
  repeat case_match; [intros [Hl Hu']%checkpoint_keeps|intros [Hl Hu']%checkpoint_keeps|intros [= <- <-]];
    cbn in *; rewrite ?Hl, ?Hu'; lia.
Qed.

Lemma reading_size st : reading st ⊆ set_seq 0 streams -> (size (reading st) <= streams)%nat.
Proof. intros Hs. apply subseteq_size in Hs. by rewrite size_set_seq in Hs. Qed.

Lemma meter_inv cap st st' :
  0 < cap -> cap - 1 + overshoot <= u64max -> MeterInv cap st -> meter_step st st' -> MeterInv cap st'.
Proof.
  intros Hcap Hmax [Hl Hs [Hu0 Hu]] Hstep. pose proof (reading_size st Hs) as Hn. unfold overshoot, LinkCrossings in *.
  destruct Hstep as [st i now ok spent q f Hi Hfree He|st i n now ok1 ok2 q f Hi Hr He].
  - unfold Exhausted in He. destruct (rollover offset (mq st) (mf st) now ok) as [q1 f1] eqn:Hroll.
    apply rollover_keeps in Hroll as [Hlim Hused]. injection He as <- -> ->.
    split; cbn [mq mf reading]; [congruence|destruct (_ <=? _); [done|]|].
    { intros x [->%elem_of_singleton|Hx]%elem_of_union; [apply elem_of_set_seq; lia|auto]. }
    rewrite Hlim, Hl in *. destruct (Z.leb_spec cap (used q)); unfold overshoot, LinkCrossings;
      [split; [lia|]; destruct Hused as [->| ->]; nia|].
    assert (size ({[i]} ∪ reading st) <= streams)%nat as Hle.
    { rewrite <-(size_set_seq (C:=gset nat) 0 streams). apply subseteq_size.
      intros x [->%elem_of_singleton|Hx]%elem_of_union; [apply elem_of_set_seq; lia|auto]. }
    nia.
  - assert (size (reading st) = S (size (reading st ∖ {[i]}))) as Hsz.
    {
      rewrite size_difference by set_solver. rewrite size_singleton.
      assert (size (reading st) <> 0%nat); [|lia]. intros H0%size_empty_inv. set_solver. }
    assert (0 <= 2 * buffer * Z.of_nat (size (reading st ∖ {[i]}))) by nia.
    unfold read_finish, AddForwarded, LinkCrossings in He. split; cbn [mq mf reading].
    + destruct (0 <? n); [|by injection He as <- <-]. rewrite wrap64_id in He by (unfold in_u64, u64max in *; nia).
      apply Add_keeps in He as [-> _]; [done|lia|done|nia].
    + set_solver.
    + destruct (0 <? n); [|injection He as <- <-; unfold overshoot, LinkCrossings; nia].
      rewrite wrap64_id in He by (unfold in_u64, u64max in *; nia).
      apply Add_keeps in He as [_ Hq]; [|lia|done|nia]. unfold overshoot, LinkCrossings. nia.
Qed.
End Cap.

(** C40: Over any sequence of counts, questions, flushes and restarts of a node, with any
    checkpoints failing and the clock jumping either way, the count of the current cycle
    is never above what was served in it, and below it by at most one flush granularity
    for each stop in that cycle, and by what was not on disk whenever the cycle was left
    with a failed checkpoint standing, which is nothing as long as all checkpoints
    succeed. Once the cap is reached with no failed checkpoint standing, no restart
    forgets it unless a later cycle has begun. *)
Theorem quota_survives_crashes offset l now s0 es :
  0 < MonthlyQuota l -> 0 <= CycleDay l <= 28 -> born offset l now = Some s0 -> Forall sane es ->
  foldr Z.add 0 (map bytes_of es) <= u64max ->
  let s := foldl (after offset l) s0 es in let q := lq s in let c := cycleStart q in
  served s c - granularity q * crashes s c - lost s c <= used q <= served s c /\
  (Forall (fun e => saves e = true) es -> flushErr q = false /\ forall x, lost s x = 0) /\
  (flushErr q = false -> limit q <= used q -> forall now', CycleStart offset now' (cycle_day l) <= c ->
   exists q', NewQuota offset l true (lf s) now' = Ok (Some q') /\ cycleStart q' = c /\ limit q' <= used q').
Proof.
  intros Hlim Hday Hb Hs Hmax. destruct (born_inv offset l Hlim Hday now s0 Hb) as [HI0 Ha0].
  assert (total s0 = 0) as Ht0 by (unfold born in Hb; repeat case_match; by simplify_eq).
  assert (Inv l (foldl (after offset l) s0 es)) as HI by (apply foldl_after_inv; try done; by rewrite Ht0).
  cbv zeta. split; [pose proof (V_cur _ _ HI); pose proof (V_counted _ _ HI); lia|].
  split; [intros Hok; apply (foldl_saves offset l Hlim es s0 HI0 Ha0 Hs); [by rewrite Ht0|done]|].
  set (s := foldl _ _ _) in *.
  intros Herr Hspent now' Hcs. pose proof (V_spent _ _ HI Herr Hspent) as Hfl. rewrite (V_flushed _ _ HI) in Hfl.
  pose proof (V_limit _ _ HI) as Hl. pose proof (V_file _ _ HI) as Hf. unfold NewQuota.
  rewrite (proj2 (Z.eqb_neq _ _)) by lia. fold (cycle_day l). cbn [negb].
  destruct (lf s) as [| | |st]; cbn [persisted reaches] in *; try lia.
  destruct (Z.eqb_spec (st_CycleStart st) (cycleStart (lq s))) as [He|He]; [|lia].
  eexists. split; [done|]. unfold Before. cbn [cycleStart limit].
  rewrite (proj2 (Z.ltb_ge _ _)) by lia. cbn [cycleStart used limit]. split; [done|lia].
Qed.

Definition quota_limits : Limits := MkLimits 0 1000000 15.
Definition quota_events (ok : bool) : list event :=
  [EAdd 70000 (20 * day_ns) true true; EAdd 900000 (21 * day_ns) true ok; ERestart (3 * day_ns);
   EAdd 50000 (4 * day_ns) true true; ERestart (2 * day_ns)].

(** A checkpoint that fails before a stop: what was counted since the last one is lost. *)
Example failed_checkpoint_loses :
  exists s0, born 0 quota_limits (20 * day_ns) = Some s0 /\
  let s := foldl (after 0 quota_limits) s0 (quota_events false) in
  served s (cycleStart (lq s)) = 1020000 /\ lost s (cycleStart (lq s)) = 900000 /\ used (lq s) = 120000.
Proof. eexists. split; [vm_compute; reflexivity|]. by vm_compute. Qed.

Lemma quota_survives_crashes_witness :
  exists s0, born 0 quota_limits (20 * day_ns) = Some s0 /\
  let s := foldl (after 0 quota_limits) s0 (quota_events true) in
  served s (cycleStart (lq s)) - granularity (lq s) * crashes s (cycleStart (lq s)) - lost s (cycleStart (lq s)) <= used (lq s) /\
  used (lq s) = 1020000.
Proof.
  destruct (born 0 quota_limits (20 * day_ns)) as [s0|] eqn:Hb; [|by vm_compute in Hb].
  exists s0. split; [done|]. cbn zeta. split.
  - apply (quota_survives_crashes 0 quota_limits (20 * day_ns) s0); [done|cbn; lia|done| |by vm_compute].
    repeat constructor; cbv; discriminate.
  - vm_compute in Hb. injection Hb as <-. vm_compute. reflexivity.
Defined.

(** However many of a node's streams read at once, in whatever order their checks and
    their counts interleave and whatever the clock and the checkpoints do, the bytes
    charged in a cycle stay below the declared cap plus two link crossings of one buffer
    for every stream. *)
Theorem quota_cap offset streams buffer q0 f0 st :
  0 <= buffer -> 0 < limit q0 -> 0 <= used q0 < limit q0 -> limit q0 - 1 + overshoot streams buffer <= u64max ->
  rtc (meter_step offset streams buffer) (MkMetered q0 f0 ∅) st ->
  used (mq st) <= limit q0 - 1 + overshoot streams buffer.
Proof.
  intros Hb Hc Hu Hmax Hr. assert (MeterInv streams buffer (limit q0) st) as [_ _ [_ Hused]].
  { revert Hr. apply (rtc_ind_r (fun st => MeterInv streams buffer (limit q0) st)).
    - split; cbn [mq reading]; [done|set_solver|]. rewrite size_empty. unfold overshoot, LinkCrossings. nia.
    - intros s1 s2 _ Hs. eauto using meter_inv. }
  unfold LinkCrossings in *. assert (0 <= 2 * buffer * Z.of_nat (size (reading st))) by nia. lia.
Qed.

Definition cap_quota (used flushed : Z) : Quota := MkQuota 100000 1 used 0 false flushed 0 false.

Lemma two_streams_pass : rtc (meter_step 0 2 32768) (MkMetered (cap_quota 99998 99998) Missing ∅)
  (MkMetered (cap_quota 231070 231070) Missing ∅).
Proof.
  eapply rtc_l; [eapply (meter_check _ _ _ _ 0%nat 0 true false); [lia|set_solver|by vm_compute]|].
  eapply rtc_l; [eapply (meter_check _ _ _ _ 1%nat 0 true false); [lia|by cbn|by vm_compute]|].
  eapply rtc_l; [eapply (meter_finish _ _ _ _ 0%nat 32768 0 true true); [by cbn|lia|by vm_compute]|].
  eapply rtc_l; [eapply (meter_finish _ _ _ _ 1%nat 32768 0 true true); [by cbn|lia|by vm_compute]|].
  match goal with |- rtc _ (MkMetered ?q _ ?r) _ => assert (r = ∅) as -> by by vm_compute end.
  apply rtc_refl.
Qed.

Lemma quota_cap_witness :
  used (mq (MkMetered (cap_quota 231070 231070) Missing ∅)) <= limit (cap_quota 99998 99998) - 1 + overshoot 2 32768.
Proof.
  apply (quota_cap 0 2 32768 (cap_quota 99998 99998) Missing); [lia|done|cbn; lia|by vm_compute|].
  apply two_streams_pass.
Defined.
