(* ===== verification/Estimator.v ===== *)
(** * The capacity estimator: [core/capacity/estimator.go]

    A node's measured throughput, moved by windows of client reports: one vote per
    autonomous system, a low quantile of the votes, a multiplicative rise, a fall to
    what was observed, a decay over silence, and clamps. float64 is IEEE 754 binary64
    as [SpecFloat] defines it. *)

From Stdlib Require Import SpecFloat.
From S2P Require Import Prelude Capacity.
Local Open Scope Z_scope.

(** ** float64 *)

Abbreviation float64 := spec_float (only parsing).
Definition fmul (x y : float64) : float64 := SFmul 53 1024 x y.
Definition fadd (x y : float64) : float64 := SFadd 53 1024 x y.
Definition fdiv (x y : float64) : float64 := SFdiv 53 1024 x y.
(** [float64(z)] of an integer: round to nearest, ties to even. *)
Definition of_int (z : Z) : float64 := binary_normalize 53 1024 z 0 false.
(** A decimal constant [n/d] of the source. *)
Definition constant (n d : Z) : float64 := fdiv (of_int n) (of_int d).

(** Towards zero; none for the infinities and NaN. *)
Definition trunc (f : float64) : option Z :=
  match f with
  | S754_zero _ => Some 0
  | S754_finite s m e =>
      let a := if 0 <=? e then Z.pos m * 2 ^ e else Z.pos m / 2 ^ (- e) in
      Some (if s then - a else a)
  | _ => None
  end.

(** What Go leaves to the implementation: the conversion of a float out of the
    integer type's range, and the last bits of [math.Pow]. *)
Class FloatPlatform := {
  uint64_out_of_range : float64 -> Z;
  int_out_of_range : float64 -> Z;
  math_Pow : float64 -> float64 -> float64;
}.

Section Estimator.
Context `{FloatPlatform}.

Definition to_Rate (f : float64) : Rate :=
  match trunc f with
  | Some z => if (0 <=? z) && (z <=? u64max) then z else uint64_out_of_range f
  | None => uint64_out_of_range f
  end.
Definition to_int (f : float64) : Z :=
  match trunc f with
  | Some z => if (i64min <=? z) && (z <=? i64max) then z else int_out_of_range f
  | None => int_out_of_range f
  end.

(** [time.Duration.Seconds] *)
Definition Seconds (d : Duration) : float64 :=
  fadd (of_int (Z.quot d Second)) (fdiv (of_int (Z.rem d Second)) (of_int 1000000000)).

(** ** Data *)

Record Sample := MkSample { Throughput : Rate; s_Saturated : bool; Attester : string; AS : string }.

Record Params := MkParams {
  Window : Duration;
  Quantile : float64;
  RiseFactor : float64;
  RiseThreshold : float64;
  FallThreshold : float64;
  MinASes : Z;
  Ceiling : Rate;
  CeilingASes : Z;
  HardCeiling : bool;
  Floor : Rate;
  HalfLife : Duration;
}.

Definition DefaultParams : Params := {|
  Window := Minute; Quantile := constant 1 4; RiseFactor := constant 5 4;
  RiseThreshold := constant 9 10; FallThreshold := constant 7 10; MinASes := 2;
  Ceiling := 5 * Mbit; CeilingASes := 3; HardCeiling := false; Floor := 256 * Kbit;
  HalfLife := 24 * Hour |}.

Inductive ParamsError :=
| BadWindow | BadQuantile | BadRiseFactor | BadThresholds | BadFloor | CeilingBelowFloor
| HardCeilingUnset | BadMinASes | BadHalfLife.

Definition Params_Validate (p : Params) : result ParamsError unit :=
  check! fail_if (Window p <=? 0) BadWindow;
  check! fail_if (SFltb (Quantile p) (of_int 0) || SFltb (of_int 1) (Quantile p)) BadQuantile;
  check! fail_if (SFleb (RiseFactor p) (of_int 1)) BadRiseFactor;
  check! fail_if (SFleb (RiseThreshold p) (FallThreshold p)) BadThresholds;
  check! fail_if (Floor p =? 0) BadFloor;
  check! fail_if (negb (Ceiling p =? 0) && (Ceiling p <? Floor p)) CeilingBelowFloor;
  check! fail_if (HardCeiling p && (Ceiling p =? 0)) HardCeilingUnset;
  check! fail_if (MinASes p <? 1) BadMinASes;
  fail_if (HalfLife p <=? 0) BadHalfLife.

Record Estimator := MkEstimator {
  e_p : Params;
  est : Rate;
  pending : gmap string (list Rate);
  asOf : gmap string string;
  baseEst : Rate;
  lastInform : Time;
  lastObs : Rate;
  lastASes : Z;
  informed : bool;
}.

Definition NewEstimator (p : Params) (now : Time) : result ParamsError Estimator :=
  check! Params_Validate p;
  Ok (MkEstimator p (Floor p) ∅ ∅ (Floor p) now 0 0 false).

Definition Seed (e : Estimator) (r : Rate) (now : Time) : Estimator :=
  let r := if r <? Floor (e_p e) then Floor (e_p e) else r in
  let r := if negb (Ceiling (e_p e) =? 0) && (Ceiling (e_p e) <? r) then Ceiling (e_p e) else r in
  MkEstimator (e_p e) r (pending e) (asOf e) r now (lastObs e) (lastASes e) (informed e).

Definition Observe (e : Estimator) (s : Sample) : Estimator :=
  if negb (s_Saturated s) || String.eqb (Attester s) "" || String.eqb (AS s) "" then e
  else MkEstimator (e_p e) (est e)
         (<[Attester s := default [] (pending e !! Attester s) ++ [Throughput s]]> (pending e))
         (<[Attester s := AS s]> (asOf e))
         (baseEst e) (lastInform e) (lastObs e) (lastASes e) (informed e).

(** ** Votes *)

Definition sort_Rates (xs : list Rate) : list Rate := merge_sort Z.le xs.

Definition median (xs : list Rate) : Rate :=
  let s := sort_Rates xs in default 0 (s !! ((List.length s - 1) / 2)%nat).

Definition minRate (xs : list Rate) : Rate :=
  match xs with
  | [] => 0
  | x :: xs => foldl (fun m x => if x <? m then x else m) x xs
  end.

(** The index is clamped to the list on both sides. *)
Definition quantile (xs : list Rate) (q : float64) : Rate :=
  let s := sort_Rates xs in
  let n := Z.of_nat (List.length s) in
  if n =? 0 then 0
  else let i := to_int (fmul q (of_int (n - 1))) in
       let i := if i <? 0 then 0 else i in
       let i := if n <=? i then n - 1 else i in
       default 0 (s !! Z.to_nat i).

(** One attester's entry joins its AS's group. *)
Definition add_group (asOf : gmap string string) (m : gmap string (list Rate))
    (entry : string * list Rate) : gmap string (list Rate) :=
  let '(attester, rates) := entry in
  let as_ := default "" (asOf !! attester) in
  if String.eqb as_ "" || bool_decide (rates = []) then m
  else <[as_ := default [] (m !! as_) ++ [median rates]]> m.

(** The two loops of [collapse], over the entries in some order. *)
Definition group_by_AS (asOf : gmap string string) (entries : list (string * list Rate))
    : gmap string (list Rate) := foldl (add_group asOf) ∅ entries.
Definition votes_of (groups : list (string * list Rate)) : list Rate :=
  (fun g => minRate g.2) <$> groups.

Definition collapse (e : Estimator) : list Rate * Z :=
  let byAS := group_by_AS (asOf e) (map_to_list (pending e)) in
  (votes_of (map_to_list byAS), Z.of_nat (size byAS)).

(** ** A window *)

Definition decay (e : Estimator) (now : Time) : Estimator :=
  let elapsed := time_Sub now (lastInform e) in
  if elapsed <=? 0 then e
  else
    let f := math_Pow (constant 1 2) (fdiv (Seconds elapsed) (Seconds (HalfLife (e_p e)))) in
    let next := to_Rate (fmul (of_int (baseEst e)) f) in
    let low := next <? Floor (e_p e) in
    MkEstimator (e_p e) (if low then Floor (e_p e) else next) (pending e) (asOf e) (baseEst e)
      (lastInform e) (lastObs e) (lastASes e) (if low then false else informed e).

(** The ceiling of this window. *)
Definition window_ceiling (p : Params) (ases : Z) : Rate :=
  if negb (Ceiling p =? 0) && (HardCeiling p || (ases <? CeilingASes p)) then Ceiling p else u64max.

(** The rise, the fall and the clamps of [Advance]. *)
Definition moved (p : Params) (cur observed ceil : Rate) : Rate :=
  let cur :=
    if to_Rate (fmul (of_int cur) (RiseThreshold p)) <=? observed then
      let next := to_Rate (fmul (of_int cur) (RiseFactor p)) in
      let next := if ceil <? next then ceil else next in
      if cur <? next then next else cur
    else if observed <? to_Rate (fmul (of_int cur) (FallThreshold p)) then observed
    else cur in
  let cur := if cur <? Floor p then Floor p else cur in
  if ceil <? cur then ceil else cur.

Definition Advance (e : Estimator) (now : Time) : Estimator :=
  let '(votes, ases) := collapse e in
  let e := MkEstimator (e_p e) (est e) ∅ ∅ (baseEst e) (lastInform e) (lastObs e)
             (Z.of_nat (List.length votes)) (informed e) in
  let e := decay e now in
  if Z.of_nat (List.length votes) <? MinASes (e_p e) then e
  else
    let observed := quantile votes (Quantile (e_p e)) in
    let est' := moved (e_p e) (est e) observed (window_ceiling (e_p e) ases) in
    MkEstimator (e_p e) est' (pending e) (asOf e) est' now observed (lastASes e) true.

Definition Estimate (e : Estimator) : Rate := est e.
Definition Informed (e : Estimator) : bool := informed e.
End Estimator.

(** ** The order in which Go walks its maps does not matter *)

Lemma sort_Rates_perm xs ys : xs ≡ₚ ys -> sort_Rates xs = sort_Rates ys.
Proof.
  intros Hp. unfold sort_Rates.
  apply (StronglySorted_unique Z.le); [apply (StronglySorted_merge_sort Z.le)..|].
  by rewrite !merge_sort_Permutation.
Qed.

Lemma minRate_cons x xs : minRate (x :: xs) = foldr Z.min x xs.
Proof.
  simpl. revert x. induction xs as [|y xs IH]; intros x; simpl; [done|].
  rewrite IH. assert (forall a b, foldr Z.min (Z.min a b) xs = Z.min a (foldr Z.min b xs)) as Hm.
  { clear. intros a b. induction xs as [|z xs IH]; simpl; [done|]. rewrite IH. lia. }
  rewrite <-Hm. f_equal. destruct (Z.ltb_spec y x); lia.
Qed.

Lemma minRate_perm xs ys : xs ≡ₚ ys -> minRate xs = minRate ys.
Proof.
  assert (forall x l, minRate (x :: l) = foldr Z.min x (x :: l)) as Hself.
  { intros x l. rewrite minRate_cons. simpl.
    assert (forall a, foldr Z.min a l <= a) as Hle by (induction l; simpl; intros; [lia|specialize (IHl a0); lia]).
    specialize (Hle x). lia. }
  assert (forall a (l : list Z), a ∈ l -> minRate l = foldr Z.min a l) as Hin.
  { intros a l. induction l as [|x l IH]; [by intros ?%elem_of_nil|].
    intros [->|Hl]%elem_of_cons; [apply Hself|]. rewrite minRate_cons. simpl.
    rewrite <-(IH Hl). destruct l as [|y l]; [by apply elem_of_nil in Hl|].
    rewrite minRate_cons. clear. revert x y. induction l as [|z l IH]; intros x y; simpl; [lia|].
    specialize (IH x y). simpl in IH. lia. }
  intros Hp. destruct xs as [|x xs]; [by apply Permutation_nil_l in Hp as ->|].
  rewrite (Hin x (x :: xs)) by left. rewrite (Hin x ys) by (rewrite <-Hp; left).
  apply (foldr_permutation_proper (=) Z.min x); [intros; lia|done].
Qed.

(** Two groupings that differ only in the order inside the groups. *)
Definition same_groups (m m' : gmap string (list Rate)) : Prop :=
  forall k, option_Forall2 Permutation (m !! k) (m' !! k).

Lemma same_groups_refl m : same_groups m m.
Proof. intros k. destruct (m !! k); by constructor. Qed.
Lemma same_groups_trans m1 m2 m3 : same_groups m1 m2 -> same_groups m2 m3 -> same_groups m1 m3.
Proof.
  intros H1 H2 k. specialize (H1 k). specialize (H2 k).
  destruct H1; inversion H2; subst; constructor. by etrans.
Qed.

Lemma add_group_same a m m' x : same_groups m m' -> same_groups (add_group a m x) (add_group a m' x).
Proof.
  intros Hm. destruct x as [t rs]. simpl. case_match; [done|]. intros k.
  destruct (decide (k = default "" (a !! t))) as [->|Hk].
  - rewrite !lookup_insert_eq. constructor. apply Permutation_app_tail.
    by destruct (Hm (default "" (a !! t))).
  - rewrite !lookup_insert_ne by done. apply Hm.
Qed.

Lemma add_group_swap a m x y :
  same_groups (add_group a (add_group a m x) y) (add_group a (add_group a m y) x).
Proof.
  destruct x as [t rs], y as [u qs]. simpl. set (i := default "" (a !! t)). set (j := default "" (a !! u)).
  destruct (String.eqb i "" || bool_decide (rs = [])), (String.eqb j "" || bool_decide (qs = []));
    try apply same_groups_refl.
  intros k. destruct (decide (i = j)) as [->|Hij].
  - rewrite !lookup_insert_eq. destruct (decide (k = j)) as [->|Hk].
    + rewrite !lookup_insert_eq. constructor. simpl. rewrite <-!app_assoc.
      apply Permutation_app_head, Permutation_swap.
    + rewrite !lookup_insert_ne by done. apply same_groups_refl.
  - rewrite (lookup_insert_ne _ i j), (lookup_insert_ne _ j i) by done.
    rewrite insert_insert_ne by done. apply same_groups_refl.
Qed.

Lemma foldl_add_group_same a l m m' :
  same_groups m m' -> same_groups (foldl (add_group a) m l) (foldl (add_group a) m' l).
Proof. revert m m'. induction l as [|x l IH]; simpl; [done|]. intros m m' Hm. by apply IH, add_group_same. Qed.

Lemma group_by_AS_perm a l k : l ≡ₚ k -> same_groups (group_by_AS a l) (group_by_AS a k).
Proof.
  unfold group_by_AS. generalize (∅ : gmap string (list Rate)). intros m Hp. revert m.
  induction Hp as [|x l k Hp IH|x y l|l1 l2 l3 H1 IH1 H2 IH2]; intros m; simpl.
  - apply same_groups_refl.
  - apply IH.
  - apply foldl_add_group_same, add_group_swap.
  - by eapply same_groups_trans.
Qed.

Lemma votes_same m m' : same_groups m m' -> votes_of (map_to_list m) ≡ₚ votes_of (map_to_list m').
Proof.
  intros Hm. unfold votes_of.
  assert (forall m : gmap string (list Rate),
    (fun g => minRate g.2) <$> map_to_list m ≡ₚ (map_to_list (minRate <$> m)).*2) as Hfm.
  { intros m0. rewrite map_to_list_fmap, <-list_fmap_compose. done. }
  rewrite !Hfm. replace (minRate <$> m') with (minRate <$> m); [done|].
  apply map_eq. intros k. rewrite !lookup_fmap. destruct (Hm k); simpl; [|done].
  f_equal. by apply minRate_perm.
Qed.

Lemma same_groups_size m m' : same_groups m m' -> size m = size m'.
Proof.
  intros Hm. rewrite <-!size_dom. f_equal. apply set_eq. intros k.
  rewrite !elem_of_dom. destruct (Hm k); by split; eauto.
Qed.

Section EstimatorProofs.
Context `{FloatPlatform}.

(** A window's verdict does not depend on the order in which Go's random map
    iteration visits the attesters or the autonomous systems: with the pending entries
    in any order, and the groups in any order, the number of votes, the number of
    systems and every quantile are the same. *)
Theorem collapse_any_order e entries groups q :
  entries ≡ₚ map_to_list (pending e) ->
  groups ≡ₚ map_to_list (group_by_AS (asOf e) entries) ->
  quantile (votes_of groups) q = quantile (collapse e).1 q /\
  List.length (votes_of groups) = List.length (collapse e).1 /\
  Z.of_nat (size (group_by_AS (asOf e) entries)) = (collapse e).2.
Proof.
  intros He Hg. pose proof (group_by_AS_perm (asOf e) _ _ He) as Hsame.
  assert (votes_of groups ≡ₚ (collapse e).1) as Hv.
  { simpl. rewrite <-(votes_same _ _ Hsame). unfold votes_of. by rewrite Hg. }
  split_and!.
  - unfold quantile. by rewrite (sort_Rates_perm _ _ Hv).
  - by rewrite Hv.
  - simpl. by rewrite (same_groups_size _ _ Hsame).
Qed.

(** ** The clamps hold in every reachable state *)

Inductive EstOp := OpObserve (s : Sample) | OpAdvance (now : Time) | OpSeed (r : Rate) (now : Time).
Definition run_op (e : Estimator) (op : EstOp) : Estimator :=
  match op with
  | OpObserve s => Observe e s
  | OpAdvance now => Advance e now
  | OpSeed r now => Seed e r now
  end.

Record wf (p : Params) (e : Estimator) : Prop := {
  wf_p : e_p e = p;
  wf_est : Floor p <= est e;
  wf_base : Floor p <= baseEst e;
}.

Definition clamped (p : Params) : Prop :=
  in_u64 (Floor p) /\ Params_Validate p = Ok tt.

Lemma clamped_ceiling p ases : clamped p -> Floor p <= window_ceiling p ases.
Proof.
  intros [Hf Hv]. unfold Params_Validate in Hv. inv_result. unfold window_ceiling, in_u64 in *.
  destruct (Z.eqb_spec (Ceiling p) 0); simpl in *; [lia|]. b2p.
  destruct (_ || _); lia.
Qed.

Lemma moved_bounds p cur observed ases :
  clamped p -> Floor p <= moved p cur observed (window_ceiling p ases) <= window_ceiling p ases.
Proof.
  intros Hp. pose proof (clamped_ceiling p ases Hp). unfold moved.
  generalize (if to_Rate (fmul (of_int cur) (RiseThreshold p)) <=? observed then
    let next := to_Rate (fmul (of_int cur) (RiseFactor p)) in
    let next := if window_ceiling p ases <? next then window_ceiling p ases else next in
    if cur <? next then next else cur
    else if observed <? to_Rate (fmul (of_int cur) (FallThreshold p)) then observed else cur).
  intros z. repeat case_match; b2p; lia.
Qed.

Lemma decay_wf p e now : wf p e -> wf p (decay e now).
Proof.
  intros [Hp He Hb]. unfold decay. case_match; [by split|]. subst p.
  split; simpl; [done| |done]. case_match; b2p; lia.
Qed.

Lemma Advance_wf p e now :
  clamped p -> wf p e ->
  wf p (Advance e now) /\
  (MinASes p <= Z.of_nat (List.length (collapse e).1) ->
   informed (Advance e now) = true /\
   Floor p <= est (Advance e now) <= window_ceiling p (collapse e).2).
Proof.
  intros Hp He. unfold Advance. destruct (collapse e) as [votes ases].
  set (e1 := MkEstimator _ _ _ _ _ _ _ _ _).
  assert (wf p (decay e1 now)) as Hd by (apply decay_wf; destruct He; by split).
  rewrite (wf_p _ _ Hd). destruct (Z.ltb_spec (Z.of_nat (List.length votes)) (MinASes p)).
  { split; [done|]. simpl. lia. }
  pose proof (moved_bounds p (est (decay e1 now)) (quantile votes (Quantile p)) ases Hp) as Hm.
  split; [|done]. split; simpl; [done|lia..].
Qed.

Lemma run_op_wf p e op : clamped p -> wf p e -> wf p (run_op e op).
Proof.
  intros Hp He. destruct op as [s|now|r now]; simpl.
  - unfold Observe. case_match; [done|]. destruct He. by split.
  - by apply Advance_wf.
  - pose proof (clamped_ceiling p 0 Hp) as _. destruct He as [Hq He Hb]. unfold Seed. rewrite Hq.
    assert (Ceiling p <> 0 -> Floor p <= Ceiling p) as Hc.
    { destruct Hp as [_ Hv]. unfold Params_Validate in Hv. inv_result. intros Hne.
      match goal with Hx : negb (Ceiling p =? 0) && _ = false |- _ =>
        rewrite (proj2 (Z.eqb_neq _ _) Hne) in Hx end. simpl in *. b2p. lia. }
    split; simpl; [done|..];
      destruct (Z.ltb_spec r (Floor p)), (Z.eqb_spec (Ceiling p) 0); simpl; try lia;
      destruct (Z.ltb_spec (Ceiling p) (Floor p)), (Z.ltb_spec (Ceiling p) r); lia.
Qed.

(** From its creation on, through any sequence of samples, windows and seedings,
    the estimate never falls below the configured floor, and every informative window
    (enough autonomous systems voted) leaves it marked informed and at most the
    window's ceiling: the configured one for a hard-clamped estimator or with too few
    systems to lift it. *)
Theorem estimate_clamped p t0 e ops now :
  in_u64 (Floor p) -> NewEstimator p t0 = Ok e ->
  let e' := foldl run_op e ops in
  Floor p <= Estimate e' /\
  (MinASes p <= Z.of_nat (List.length (collapse e').1) ->
   Informed (Advance e' now) = true /\
   Floor p <= Estimate (Advance e' now) <= window_ceiling p (collapse e').2).
Proof.
  unfold NewEstimator. intros Hf Hn. inv_result.
  assert (clamped p) as Hp by by split.
  assert (forall e0, wf p e0 -> wf p (foldl run_op e0 ops)) as Hrun.
  { induction ops as [|op ops IH]; simpl; [done|]. intros e0 He0. by apply IH, run_op_wf. }
  match goal with |- context [foldl run_op ?x ops] => assert (wf p (foldl run_op x ops)) as Hw end.
  { apply Hrun. split; simpl; [done|lia..]. }
  split; [apply Hw|]. by apply Advance_wf.
Qed.

(** ** A single network cannot inform the estimate *)

Definition counted (s : Sample) : bool :=
  s_Saturated s && negb (String.eqb (Attester s) "") && negb (String.eqb (AS s) "").

Lemma Observe_counted e s :
  Observe e s = if counted s then Observe e s else e.
Proof.
  unfold Observe, counted. by destruct (s_Saturated s), (String.eqb (Attester s) ""), (String.eqb (AS s) "").
Qed.

Definition ASes_of (samples : list Sample) : gset string := list_to_set (AS <$> filter counted samples).

Lemma observe_all samples e (S : gset string) :
  (forall k a, asOf e !! k = Some a -> a ∈ S) ->
  let e' := foldl Observe e samples in
  (forall k a, asOf e' !! k = Some a -> a ∈ S ∪ ASes_of samples) /\
  e_p e' = e_p e /\ est e' = est e /\ baseEst e' = baseEst e /\ lastInform e' = lastInform e /\
  informed e' = informed e.
Proof.
  revert e S. induction samples as [|s samples IH]; intros e S HS; simpl.
  { split_and!; [|done..]. intros k a Ha. apply HS in Ha. set_solver. }
  rewrite Observe_counted. unfold ASes_of. destruct (counted s) eqn:Hc.
  - rewrite filter_cons_True by by rewrite Hc. unfold Observe.
    replace (negb (s_Saturated s) || _ || _) with false
      by (unfold counted in Hc; by destruct (s_Saturated s), (String.eqb _ _), (String.eqb _ _)).
    set (e1 := MkEstimator _ _ _ _ _ _ _ _ _).
    destruct (IH e1 (S ∪ {[AS s]})) as [H1 H2]; [|split; [|exact H2]].
    + simpl. intros k a. destruct (decide (k = Attester s)) as [->|Hk].
      * rewrite lookup_insert_eq. intros [= <-]. set_solver.
      * rewrite lookup_insert_ne by done. intros Ha%HS. set_solver.
    + intros k a Ha%H1. rewrite fmap_cons, list_to_set_cons. fold (ASes_of samples).
      revert Ha. rewrite !elem_of_union. tauto.
  - rewrite filter_cons_False by (rewrite Hc; simpl; tauto). apply IH, HS.
Qed.

Lemma group_by_AS_dom a l (S : gset string) :
  (forall k x, a !! k = Some x -> x ∈ S) -> dom (group_by_AS a l) ⊆ S.
Proof.
  intros HS. unfold group_by_AS.
  assert (forall m : gmap string (list Rate), dom m ⊆ S -> dom (foldl (add_group a) m l) ⊆ S) as Hgo;
    [|apply Hgo; set_solver].
  induction l as [|[t rs] l IH]; intros m Hm; simpl; [done|]. apply IH.
  destruct (String.eqb_spec (default "" (a !! t)) ""); simpl; [done|].
  case_bool_decide; [done|]. rewrite dom_insert.
  destruct (a !! t) as [x|] eqn:Hx; simpl in *; [|done]. apply HS in Hx. set_solver.
Qed.

Lemma decay_fields e now :
  e_p (decay e now) = e_p e /\ lastInform (decay e now) = lastInform e /\
  (informed (decay e now) = true -> informed e = true).
Proof. unfold decay. case_match; [done|]. simpl. split_and!; [done..|]. by case_match. Qed.

Lemma decay_ext e e' now :
  e_p e = e_p e' -> est e = est e' -> baseEst e = baseEst e' -> lastInform e = lastInform e' ->
  est (decay e now) = est (decay e' now).
Proof. intros Hp He Hb Hl. unfold decay. rewrite Hp, Hb, Hl. by case_match. Qed.

(** Reports from too few networks cannot raise a node: when the saturated, named
    samples of a window come from fewer distinct autonomous systems than the minimum,
    however many attesters and samples there are, closing the window only decays the
    estimate by the silence since the last informative one and never marks it
    informed. *)
Theorem few_ASes_cannot_inform e samples now :
  asOf e = ∅ -> Z.of_nat (size (ASes_of samples)) < MinASes (e_p e) ->
  let e' := Advance (foldl Observe e samples) now in
  est e' = est (decay e now) /\ lastInform e' = lastInform e /\
  (informed e' = true -> informed e = true).
Proof.
  intros Ha Hn. destruct (observe_all samples e ∅) as (Hin & Hp & He & Hb & Hl & Hi).
  { rewrite Ha. intros k a. by rewrite lookup_empty. }
  set (e1 := foldl Observe e samples) in *. unfold Advance, collapse.
  assert (Z.of_nat (List.length (votes_of (map_to_list (group_by_AS (asOf e1) (map_to_list (pending e1))))))
    < MinASes (e_p e)) as Hv.
  { unfold votes_of. rewrite length_fmap, length_map_to_list, <-size_dom.
    pose proof (subseteq_size _ _ (group_by_AS_dom _ (map_to_list (pending e1)) _ Hin)) as Hs.
    rewrite union_empty_l_L in Hs. lia. }
  set (e2 := MkEstimator _ _ _ _ _ _ _ _ _).
  destruct (decay_fields e2 now) as (Hp2 & Hl2 & Hi2).
  rewrite Hp2, (proj2 (Z.ltb_lt _ _)) by (simpl; by rewrite Hp). split_and!.
  - by apply decay_ext.
  - by rewrite Hl2.
  - intros Hi'%Hi2. simpl in Hi'. congruence.
Qed.
End EstimatorProofs.

(** ** Witnesses *)

Module Demo.
(** Out of range as amd64 has it, and a decay of one half for any silence. *)
#[export] Instance amd64 : FloatPlatform := {
  uint64_out_of_range _ := 9223372036854775808;
  int_out_of_range _ := i64min;
  math_Pow _ _ := constant 1 2;
}.

Definition e0 : Estimator := MkEstimator DefaultParams (256 * Kbit) ∅ ∅ (256 * Kbit) 0 0 0 false.
Definition samples : list Sample :=
  [MkSample (4 * Mbit) true "a" "AS1"; MkSample (6 * Mbit) true "b" "AS2"; MkSample (9 * Mbit) true "c" "AS2"].
Definition e1 : Estimator := foldl Observe e0 samples.
End Demo.
Import Demo.

Lemma collapse_any_order_witness :
  let entries := map_to_list (pending e1) in
  let groups := map_to_list (group_by_AS (asOf e1) entries) in
  quantile (votes_of groups) (constant 1 4) = quantile (collapse e1).1 (constant 1 4) /\
  List.length (votes_of groups) = List.length (collapse e1).1 /\
  Z.of_nat (size (group_by_AS (asOf e1) entries)) = (collapse e1).2.
Proof. apply collapse_any_order; reflexivity. Defined.

Lemma estimate_clamped_witness :
  let e' := foldl run_op e0 (OpObserve <$> samples) in
  256 * Kbit <= Estimate e' /\
  (2 <= Z.of_nat (List.length (collapse e').1) ->
   Informed (Advance e' Minute) = true /\
   256 * Kbit <= Estimate (Advance e' Minute) <= window_ceiling DefaultParams (collapse e').2).
Proof.
  apply (estimate_clamped DefaultParams 0 e0 (OpObserve <$> samples) Minute).
  - unfold in_u64, u64max. simpl. unfold Kbit. lia.
  - vm_compute. reflexivity.
Defined.

Lemma few_ASes_cannot_inform_witness :
  let e' := Advance (foldl Observe e0 [MkSample (9 * Mbit) true "a" "AS1"; MkSample (9 * Mbit) true "b" "AS1"]) Minute in
  est e' = est (decay e0 Minute) /\ lastInform e' = lastInform e0 /\
  (informed e' = true -> informed e0 = true).
Proof. apply few_ASes_cannot_inform; [reflexivity | vm_compute; reflexivity]. Defined.

(** The window of [e1] is informative and raises the estimate by a quarter. *)
Example e1_rises : Estimate (Advance e1 0) = 320 * Kbit.
Proof. vm_compute. reflexivity. Qed.
