(* ===== verification/Rating.v ===== *)
(** * Node ratings: [core/capacity/rating.go]

    Two estimators per node, one fed by vouched attesters and one, hard-clamped to
    the ceiling, by everyone else; the store keeps them by node and forgets the idle
    ones. The store's mutex makes every operation atomic. *)

From S2P Require Import Prelude Capacity Estimator.
Local Open Scope Z_scope.

Section Rating.
Context `{FloatPlatform}.

Record NodeRating := MkNodeRating { trusted : Estimator; untrusted : Estimator }.

Inductive RatingError := NoCeiling | TrustedFailed (e : ParamsError) | UntrustedFailed (e : ParamsError).

Definition with_HardCeiling (p : Params) : Params :=
  {| Window := Window p; Quantile := Quantile p; RiseFactor := RiseFactor p;
     RiseThreshold := RiseThreshold p; FallThreshold := FallThreshold p; MinASes := MinASes p;
     Ceiling := Ceiling p; CeilingASes := CeilingASes p; HardCeiling := true; Floor := Floor p;
     HalfLife := HalfLife p |}.

Definition NewNodeRating (p : Params) (now : Time) : result RatingError NodeRating :=
  check! fail_if (Ceiling p =? 0) NoCeiling;
  let? t := map_err TrustedFailed (NewEstimator p now) in
  let? u := map_err UntrustedFailed (NewEstimator (with_HardCeiling p) now) in
  Ok (MkNodeRating t u).

Definition ObserveTrusted (r : NodeRating) (s : Sample) : NodeRating :=
  MkNodeRating (Observe (trusted r) s) (untrusted r).
Definition ObserveUntrusted (r : NodeRating) (s : Sample) : NodeRating :=
  MkNodeRating (trusted r) (Observe (untrusted r) s).
Definition NodeRating_Advance (r : NodeRating) (now : Time) : NodeRating :=
  MkNodeRating (Advance (trusted r) now) (Advance (untrusted r) now).

Definition NodeRating_Measured (r : NodeRating) : Rate :=
  if Informed (trusted r) then Estimate (trusted r) else Estimate (untrusted r).
Definition NodeRating_TrustedRating (r : NodeRating) : option Rate :=
  if Informed (trusted r) then Some (Estimate (trusted r)) else None.

(** ** The store *)

Record ratingEntry := MkRatingEntry { rating : NodeRating; re_lastSeen : Time }.
Record RatingStore := MkRatingStore {
  params : Params; idleTTL : Duration; entries : gmap string ratingEntry;
}.

Inductive StoreError := BadParams (e : ParamsError) | StoreNoCeiling | BadTTL.
Definition NewRatingStore (p : Params) (ttl : Duration) : result StoreError RatingStore :=
  check! map_err BadParams (Params_Validate p);
  check! fail_if (Ceiling p =? 0) StoreNoCeiling;
  check! fail_if (ttl <=? 0) BadTTL;
  Ok (MkRatingStore p ttl ∅).

Definition RatingStore_Observe (s : RatingStore) (nodeID : string) (is_trusted : bool) (sample : Sample)
    (now : Time) : RatingStore :=
  let fed (r : NodeRating) :=
    if is_trusted then ObserveTrusted r sample else ObserveUntrusted r sample in
  match entries s !! nodeID with
  | Some e => MkRatingStore (params s) (idleTTL s)
                (<[nodeID := MkRatingEntry (fed (rating e)) now]> (entries s))
  | None =>
      match NewNodeRating (params s) now with
      | Err _ => s
      | Ok r => MkRatingStore (params s) (idleTTL s) (<[nodeID := MkRatingEntry (fed r) now]> (entries s))
      end
  end.

Definition Measured (s : RatingStore) (nodeID : string) : option Rate :=
  e ← entries s !! nodeID; Some (NodeRating_Measured (rating e)).
Definition TrustedRating (s : RatingStore) (nodeID : string) : option Rate :=
  e ← entries s !! nodeID; NodeRating_TrustedRating (rating e).
Definition RatingStore_Usable (s : RatingStore) (nodeID : string) (declared : Rate) : Rate :=
  match Measured s nodeID with None => declared | Some m => Usable declared m end.

(** Idle entries go, the others close their window. *)
Definition RatingStore_Advance (s : RatingStore) (now : Time) : RatingStore :=
  MkRatingStore (params s) (idleTTL s)
    (omap (fun e => if idleTTL s <? time_Sub now (re_lastSeen e) then None
                    else Some (MkRatingEntry (NodeRating_Advance (rating e) now) (re_lastSeen e)))
       (entries s)).
Definition RatingStore_Len (s : RatingStore) : nat := size (entries s).

(** ** An unvouched crowd cannot lift a node *)

Inductive StoreOp :=
| OpObserveNode (nodeID : string) (is_trusted : bool) (sample : Sample) (now : Time)
| OpAdvanceStore (now : Time).
Definition run_store (s : RatingStore) (op : StoreOp) : RatingStore :=
  match op with
  | OpObserveNode n t x now => RatingStore_Observe s n t x now
  | OpAdvanceStore now => RatingStore_Advance s now
  end.
Definition unvouched (nodeID : string) (op : StoreOp) : Prop :=
  match op with OpObserveNode n t _ _ => n = nodeID -> t = false | OpAdvanceStore _ => True end.

(** Nothing is pending on the trusted side, and it is not informed. *)
Definition untouched (e : Estimator) : Prop :=
  1 <= MinASes (e_p e) /\ pending e = ∅ /\ asOf e = ∅ /\ informed e = false.

Lemma Advance_untouched e now : untouched e -> untouched (Advance e now).
Proof.
  intros (Hm & Hp & Ha & Hi). unfold Advance, collapse. rewrite Hp, map_to_list_empty. simpl.
  unfold group_by_AS. simpl. rewrite map_to_list_empty. simpl.
  set (e2 := MkEstimator _ _ _ _ _ _ _ _ _). destruct (decay_fields e2 now) as (Hq & _ & Hj).
  rewrite Hq, (proj2 (Z.ltb_lt _ _)) by (simpl; lia). unfold untouched. rewrite Hq.
  assert (informed (decay e2 now) = false).
  { destruct (informed (decay e2 now)); [|done]. specialize (Hj eq_refl). simpl in Hj. congruence. }
  split_and!; [done|..|done]; unfold decay; by case_match.
Qed.

Lemma NewNodeRating_untouched p now r : NewNodeRating p now = Ok r -> untouched (trusted r).
Proof.
  unfold NewNodeRating. intros Hr. inv_result. simpl.
  match goal with Hn : NewEstimator p now = Ok _ |- _ => unfold NewEstimator, Params_Validate in Hn end.
  inv_result. b2p. unfold untouched. simpl. split_and!; [lia|done..].
Qed.

(** Only vouched attesters can give a node a trusted rating, the one the serve
    floor is judged by: over any sequence of reports and windows in which every report
    on the node is unvouched, the node has no trusted rating, and what is measured of
    it comes from the stream that is clamped to the ceiling. *)
Theorem unvouched_has_no_trusted_rating p ttl s nodeID ops :
  NewRatingStore p ttl = Ok s -> Forall (unvouched nodeID) ops ->
  let s' := foldl run_store s ops in
  TrustedRating s' nodeID = None /\
  forall m, Measured s' nodeID = Some m ->
    exists e, entries s' !! nodeID = Some e /\ m = Estimate (untrusted (rating e)).
Proof.
  intros Hs Hops.
  assert (forall e, entries s !! nodeID = Some e -> untouched (trusted (rating e))) as Hinv.
  { unfold NewRatingStore in Hs. inv_result. simpl. intros e. by rewrite lookup_empty. }
  clear Hs. cbv zeta.
  assert (forall e, entries (foldl run_store s ops) !! nodeID = Some e -> untouched (trusted (rating e))) as Hfin.
  { revert s Hinv. induction Hops as [|op ops Hop _ IH]; intros s Hinv; [done|].
    simpl. apply IH. clear IH. destruct op as [n t x now|now]; simpl in *.
    - unfold RatingStore_Observe. destruct (decide (n = nodeID)) as [->|Hn].
      + rewrite (Hop eq_refl). destruct (entries s !! nodeID) as [e|] eqn:He.
        * simpl. intros e'. rewrite lookup_insert_eq. intros [= <-]. simpl. by apply Hinv.
        * destruct (NewNodeRating _ _) as [r|] eqn:Hr; [|by rewrite He].
          simpl. intros e'. rewrite lookup_insert_eq. intros [= <-]. simpl.
          by eapply NewNodeRating_untouched.
      + repeat case_match; simpl; rewrite ?lookup_insert_ne by done; done.
    - intros e'. rewrite lookup_omap. destruct (entries s !! nodeID) as [e|]; [|done].
      simpl. case_match; [done|]. intros [= <-]. simpl. by apply Advance_untouched, Hinv. }
  unfold TrustedRating, Measured.
  destruct (entries (foldl run_store s ops) !! nodeID) as [e|]; [|done].
  simpl. destruct (Hfin e eq_refl) as (_ & _ & _ & Hi).
  unfold NodeRating_TrustedRating, NodeRating_Measured, Informed. rewrite Hi.
  split; [done|]. intros m [= <-]. eauto.
Qed.
End Rating.

(** ** Witness *)

Module Demo.
Import Estimator.Demo.
Definition store0 : RatingStore := MkRatingStore DefaultParams (48 * Hour) ∅.
Definition ops : list StoreOp :=
  [OpObserveNode "n1" false (MkSample (9 * Mbit) true "a" "AS1") 0;
   OpObserveNode "n1" false (MkSample (9 * Mbit) true "b" "AS2") 1; OpAdvanceStore Minute].
End Demo.
Import Estimator.Demo Demo.

Lemma unvouched_has_no_trusted_rating_witness :
  let s' := foldl run_store store0 ops in
  TrustedRating s' "n1" = None /\
  forall m, Measured s' "n1" = Some m ->
    exists e, entries s' !! "n1" = Some e /\ m = Estimate (untrusted (rating e)).
Proof.
  apply (unvouched_has_no_trusted_rating DefaultParams (48 * Hour) store0 "n1" ops).
  - vm_compute. reflexivity.
  - repeat constructor.
Defined.
