(* ===== verification/GeoIP.v ===== *)
(** * Country lookup: [core/geoip/geoip.go]

    The canonical form of a country code, the tables of disjoint address ranges, the
    checks they pass when they are loaded, and the lookup by binary search. An address
    is [net/netip]'s: its family and its value; the tables hold addresses without a
    zone. Reading the CSV and TSV files is not modelled. *)

From S2P Require Import Prelude GoStrings.
Local Open Scope Z_scope.

(** ** [netip.Addr] *)

Record Addr := MkAddr { Is4 : bool; val : Z }.
#[export] Instance Addr_eq_dec : EqDecision Addr.
Proof. solve_decision. Defined.

Definition BitLen (a : Addr) : Z := if Is4 a then 32 else 128.
Definition Addr_Compare (a b : Addr) : comparison :=
  match Z.compare (BitLen a) (BitLen b) with Eq => Z.compare (val a) (val b) | c => c end.
Definition Less (a b : Addr) : bool := match Addr_Compare a b with Lt => true | _ => false end.

(** [AddrFromSlice]: none for a slice that is not an address. *)
Definition AddrFromSlice (b : bytes) : option Addr :=
  if (List.length b =? 4)%nat then Some (MkAddr true (be_value b))
  else if (List.length b =? 16)%nat then Some (MkAddr false (be_value b))
  else None.

Definition Unmap (a : Addr) : Addr :=
  if negb (Is4 a) && (val a / 2 ^ 32 =? 65535) then MkAddr true (val a mod 2 ^ 32) else a.

(** Byte [i] of an IPv4 address, group [0] of an IPv6 address. *)
Definition v4_byte (a : Addr) (i : Z) : Z := val a / 2 ^ (24 - 8 * i) mod 256.
Definition v6_group0 (a : Addr) : Z := val a / 2 ^ 112 mod 65536.

Definition IsLoopback (a : Addr) : bool :=
  if Is4 a then v4_byte a 0 =? 127 else val a =? 1.
Definition IsMulticast (a : Addr) : bool :=
  if Is4 a then Z.land (v4_byte a 0) 240 =? 224 else Z.land (v6_group0 a) 65280 =? 65280.
Definition IsLinkLocalUnicast (a : Addr) : bool :=
  if Is4 a then (v4_byte a 0 =? 169) && (v4_byte a 1 =? 254) else Z.land (v6_group0 a) 65472 =? 65152.
Definition IsPrivate (a : Addr) : bool :=
  if Is4 a then (v4_byte a 0 =? 10) || ((v4_byte a 0 =? 172) && (Z.land (v4_byte a 1) 240 =? 16))
                || ((v4_byte a 0 =? 192) && (v4_byte a 1 =? 168))
  else Z.land (v6_group0 a / 256) 254 =? 252.
Definition IsGlobalUnicast (a : Addr) : bool :=
  if Is4 a && ((val a =? 0) || (val a =? 2 ^ 32 - 1)) then false
  else negb (negb (Is4 a) && (val a =? 0)) && negb (IsLoopback a) && negb (IsMulticast a)
       && negb (IsLinkLocalUnicast a).

(** ** Country codes *)

Definition Canonical (cc : string) : string :=
  let cc := TrimSpace cc in
  if negb (String.length cc =? 2)%nat then ""
  else let out := ToUpper cc in
       if forallb (fun c => (65 <=? octet c) && (octet c <=? 90)) (bytes_of out) then out else "".

(** ** Tables *)

Record block := MkBlock { lo : Addr; hi : Addr; cc : string }.
Record DB := MkDB { v4 : list block; v6 : list block; Skipped : Z }.

Definition Addr_le (a b : Addr) : Prop := Less b a = false.

(** [sortBlocks]: by the lower end, then by the upper. *)
Definition block_le (a b : block) : Prop :=
  Less (lo a) (lo b) = true \/ (lo a = lo b /\ Less (hi b) (hi a) = false).
#[export] Instance block_le_dec : RelDecision block_le.
Proof. intros a b. unfold block_le. apply _. Defined.
Definition sortBlocks (rows : list block) : list block := merge_sort block_le rows.

Inductive Error := Overlapping | Implausible | Empty.

Fixpoint validate (rows : list block) : result Error unit :=
  match rows with
  | prev :: (cur :: _) as rest =>
      check! fail_if (negb (Less (hi prev) (lo cur))) Overlapping;
      validate rest
  | _ => Ok tt
  end.

(** [plausible]: more than half of the rows skipped. The quotient of the two small
    integers is above the float64 [0.5] exactly when the integers say so. *)
Definition plausible (loaded skipped : Z) : result Error unit :=
  fail_if ((0 <? skipped) && (loaded + skipped <? 2 * skipped)) Implausible.

(** What [assemble] makes of the rows its two readers return. *)
Definition assemble (rows4 rows6 : list block * Z) : result Error DB :=
  check! validate rows4.1;
  check! plausible (Z.of_nat (List.length rows4.1)) rows4.2;
  check! validate rows6.1;
  check! plausible (Z.of_nat (List.length rows6.1)) rows6.2;
  check! fail_if (bool_decide (rows4.1 = []) && bool_decide (rows6.1 = [])) Empty;
  Ok (MkDB rows4.1 rows6.1 (rows4.2 + rows6.2)).

(** [slices.BinarySearchFunc] with the lower end as key: the loop halves [i..j),
    so the table's length is fuel enough. *)
Fixpoint bsearch (fuel : nat) (table : list block) (ip : Addr) (i j : nat) : nat :=
  match fuel with
  | O => i
  | S fuel =>
      if (i <? j)%nat then
        let h := ((i + j) / 2)%nat in
        match table !! h with
        | Some b => if Less (lo b) ip then bsearch fuel table ip (S h) j else bsearch fuel table ip i h
        | None => i
        end
      else i
  end.

Definition lookup_in (table : list block) (ip : Addr) : option string :=
  let i := bsearch (List.length table) table ip 0 (List.length table) in
  match table !! i with
  | Some b =>
      if bool_decide (lo b = ip) then Some (cc b)
      else match i with
           | O => None
           | S i' => b ← table !! i'; if negb (Less (hi b) ip) then Some (cc b) else None
           end
  | None => match i with
            | O => None
            | S i' => b ← table !! i'; if negb (Less (hi b) ip) then Some (cc b) else None
            end
  end.

Definition Lookup (d : option DB) (ip : Addr) : option string :=
  match d with
  | None => None
  | Some d =>
      let ip := Unmap ip in
      if negb (IsGlobalUnicast ip) || IsPrivate ip || IsLinkLocalUnicast ip then None
      else lookup_in (if Is4 ip then v4 d else v6 d) ip
  end.

Definition LookupAddr (d : option DB) (ip : bytes) : option string :=
  a ← AddrFromSlice ip; Lookup d a.

(** ** The order of addresses *)

Lemma Less_spec a b :
  Less a b = true <-> BitLen a < BitLen b \/ (BitLen a = BitLen b /\ val a < val b).
Proof.
  unfold Less, Addr_Compare. destruct (Z.compare_spec (BitLen a) (BitLen b)) as [Hb|Hb|Hb].
  - destruct (Z.compare_spec (val a) (val b)); split; intros; try done; lia.
  - split; [lia|done].
  - split; [done|lia].
Qed.
Lemma Less_false a b :
  Less a b = false <-> BitLen b < BitLen a \/ (BitLen a = BitLen b /\ val b <= val a).
Proof.
  rewrite <-not_true_iff_false, Less_spec. lia.
Qed.
Lemma Addr_eq a b : BitLen a = BitLen b -> val a = val b -> a = b.
Proof. destruct a as [[] x], b as [[] y]; unfold BitLen; simpl; intros; congruence || lia. Qed.

Ltac addr_order :=
  repeat match goal with
  | H : Less _ _ = true |- _ => apply Less_spec in H
  | H : Less _ _ = false |- _ => apply Less_false in H
  | |- Less _ _ = true => apply Less_spec
  | |- Less _ _ = false => apply Less_false
  end; try lia.

(** ** The binary search finds what a scan of the table finds *)

Definition table_ok (table : list block) : Prop :=
  validate table = Ok tt /\ Forall (fun b => Less (hi b) (lo b) = false) table.

(** [ip] lies in the block. *)
Definition covers (b : block) (ip : Addr) : Prop := Less ip (lo b) = false /\ Less (hi b) ip = false.

Lemma table_ok_tail b table : table_ok (b :: table) -> table_ok table.
Proof.
  intros [Hv Hf]. apply Forall_cons in Hf as [_ Hf]. split; [|done].
  destruct table as [|c table]; [done|]. simpl in Hv. by inv_result.
Qed.

Lemma table_ok_ordered table i j a b :
  table_ok table -> (i < j)%nat -> table !! i = Some a -> table !! j = Some b ->
  Less (hi a) (lo b) = true.
Proof.
  revert i j a b. induction table as [|c table IH]; intros i j a b Hok Hij Ha Hb; [done|].
  destruct j as [|j]; [lia|]. simpl in Hb. destruct i as [|i]; [|apply (IH i j a b); [by eapply table_ok_tail|lia|done|done]].
  injection Ha as ->. destruct table as [|d table]; [done|].
  assert (Less (hi a) (lo d) = true) as Had.
  { destruct Hok as [Hv _]. simpl in Hv. inv_result. b2p. done. }
  destruct j as [|j]; [by injection Hb as ->|].
  assert (Less (hi d) (lo b) = true) as Hdb.
  { apply (IH 0%nat (S j) d b); [by eapply table_ok_tail|lia|done|done]. }
  destruct Hok as [_ Hf]. rewrite !Forall_cons in Hf. destruct Hf as (_ & Hd & _). addr_order.
Qed.

Lemma table_ok_lo table i j a b :
  table_ok table -> (i < j)%nat -> table !! i = Some a -> table !! j = Some b ->
  Less (lo a) (lo b) = true.
Proof.
  intros Hok Hij Ha Hb. pose proof (table_ok_ordered _ _ _ _ _ Hok Hij Ha Hb).
  destruct Hok as [_ Hf]. rewrite Forall_lookup in Hf. apply Hf in Ha. addr_order.
Qed.

(** The position the search returns splits the table at [ip]. *)
Lemma bsearch_spec table ip fuel i j :
  table_ok table -> (j - i <= fuel)%nat -> (i <= j <= List.length table)%nat ->
  (forall k b, (k < i)%nat -> table !! k = Some b -> Less (lo b) ip = true) ->
  (forall k b, (j <= k)%nat -> table !! k = Some b -> Less (lo b) ip = false) ->
  let r := bsearch fuel table ip i j in
  (r <= List.length table)%nat /\
  (forall k b, (k < r)%nat -> table !! k = Some b -> Less (lo b) ip = true) /\
  (forall k b, (r <= k)%nat -> table !! k = Some b -> Less (lo b) ip = false).
Proof.
  intros Hok. revert i j. induction fuel as [|fuel IH]; intros i j Hfuel Hij Hlow Hhigh;
    cbv zeta; cbn [bsearch].
  { split_and!; [lia|done|]. intros k b Hk. apply Hhigh. lia. }
  destruct (Nat.ltb_spec i j) as [Hlt|Hge]; [|split_and!; [lia|done|]; intros k b Hk; apply Hhigh; lia].
  pose proof (Nat.div_mod (i + j) 2 ltac:(lia)) as Hdm.
  pose proof (Nat.mod_upper_bound (i + j) 2 ltac:(lia)).
  set (h := ((i + j) / 2)%nat) in *.
  destruct (lookup_lt_is_Some_2 table h) as [c Hc]; [lia|]. rewrite Hc.
  destruct (Less (lo c) ip) eqn:Hcmp; apply IH; try lia; try done.
  - intros k b Hk Hb. destruct (decide (k = h)) as [->|Hne]; [congruence|].
    assert (k < h)%nat as Hkh by lia. pose proof (table_ok_lo _ _ _ _ _ Hok Hkh Hb Hc). addr_order.
  - intros k b Hk Hb. destruct (decide (k = h)) as [->|Hne]; [congruence|].
    assert (h < k)%nat as Hkh by lia. pose proof (table_ok_lo _ _ _ _ _ Hok Hkh Hc Hb). addr_order.
Qed.

Lemma covers_unique table a b ip :
  table_ok table -> a ∈ table -> b ∈ table -> covers a ip -> covers b ip -> a = b.
Proof.
  intros Hok [i Ha]%list_elem_of_lookup [j Hb]%list_elem_of_lookup [Ha1 Ha2] [Hb1 Hb2].
  destruct (Nat.lt_trichotomy i j) as [Hij|[->|Hij]]; [|congruence|].
  - pose proof (table_ok_ordered _ _ _ _ _ Hok Hij Ha Hb). addr_order.
  - pose proof (table_ok_ordered _ _ _ _ _ Hok Hij Hb Ha). addr_order.
Qed.

(** The block below the position, the only other candidate. *)
Definition below (table : list block) (ip : Addr) (i : nat) : option string :=
  match i with
  | O => None
  | S i' => b ← table !! i'; if negb (Less (hi b) ip) then Some (cc b) else None
  end.

Section Position.
Context (table : list block) (ip : Addr) (i : nat).
Context (Hok : table_ok table) (Hlen : (i <= List.length table)%nat).
Context (Hlow : forall k b, (k < i)%nat -> table !! k = Some b -> Less (lo b) ip = true).
Context (Hhigh : forall k b, (i <= k)%nat -> table !! k = Some b -> Less (lo b) ip = false).

Lemma below_Some c : below table ip i = Some c -> exists b, b ∈ table /\ covers b ip /\ cc b = c.
Proof.
  destruct i as [|i'] eqn:Hi; [done|]. intros Hc. apply bind_Some in Hc as (b & Hb & Hc).
  destruct (Less (hi b) ip) eqn:Hhi; [done|]. injection Hc as <-.
  exists b. split_and!; [by eapply list_elem_of_lookup_2|split; [|done]|done].
  pose proof (Hlow i' b ltac:(lia) Hb). addr_order.
Qed.

Lemma below_None b :
  below table ip i = None -> (forall q, table !! i = Some q -> lo q <> ip) -> b ∈ table -> ~ covers b ip.
Proof.
  intros Hnone Hneq [k Hk]%list_elem_of_lookup [Hc1 Hc2].
  destruct (decide (k < i)%nat) as [Hki|Hki].
  - destruct i as [|i'] eqn:Hi; [lia|].
    destruct (lookup_lt_is_Some_2 table i') as [p Hp]; [lia|]. simpl in Hnone. rewrite Hp in Hnone. simpl in Hnone.
    destruct (Less (hi p) ip) eqn:Hhi; [|done].
    destruct (decide (k = i')) as [->|Hne]; [congruence|].
    assert (k < i')%nat as Hki' by lia. pose proof (table_ok_ordered _ _ _ _ _ Hok Hki' Hk Hp).
    pose proof (Hlow i' p ltac:(lia) Hp). addr_order.
  - pose proof (Hhigh k b ltac:(lia) Hk) as Hge.
    assert (lo b = ip) as Heq by (apply Addr_eq; addr_order).
    destruct (decide (k = i)) as [->|Hne]; [by eapply Hneq|].
    pose proof (lookup_lt_Some _ _ _ Hk).
    destruct (lookup_lt_is_Some_2 table i) as [q Hq]; [lia|].
    assert (i < k)%nat as Hik by lia. pose proof (table_ok_lo _ _ _ _ _ Hok Hik Hq Hk).
    pose proof (Hhigh i q ltac:(lia) Hq). subst ip. addr_order.
Qed.
End Position.

Lemma lookup_in_unfold table ip :
  let i := bsearch (List.length table) table ip 0 (List.length table) in
  lookup_in table ip =
    match table !! i with
    | Some b => if bool_decide (lo b = ip) then Some (cc b) else below table ip i
    | None => below table ip i
    end.
Proof. reflexivity. Qed.

Lemma lookup_in_spec table ip c :
  table_ok table ->
  (lookup_in table ip = Some c <-> exists b, b ∈ table /\ covers b ip /\ cc b = c).
Proof.
  intros Hok. rewrite lookup_in_unfold.
  destruct (bsearch_spec table ip (List.length table) 0 (List.length table) Hok) as (Hlen & Hlow & Hhigh);
    [lia|lia|lia| |].
  { intros k b Hk Hb. apply lookup_lt_Some in Hb. lia. }
  set (i := bsearch _ _ _ _ _) in *.
  assert (forall b, b ∈ table -> lo b = ip -> covers b ip) as Hexact.
  { intros b [k Hk]%list_elem_of_lookup Hb. destruct Hok as [_ Hf]. rewrite Forall_lookup in Hf.
    apply Hf in Hk. subst ip. split; addr_order. }
  assert (forall r, (forall c, r = Some c -> exists b, b ∈ table /\ covers b ip /\ cc b = c) ->
    (r = None -> forall b, b ∈ table -> ~ covers b ip) ->
    (r = Some c <-> exists b, b ∈ table /\ covers b ip /\ cc b = c)) as Hboth.
  { intros r Hs Hn. split; [apply Hs|]. intros (b & Hb & Hcov & <-).
    destruct r as [c'|]; [|by destruct (Hn eq_refl b)].
    destruct (Hs c' eq_refl) as (b' & Hb' & Hcov' & <-).
    by rewrite (covers_unique table b b' ip). }
  destruct (table !! i) as [q|] eqn:Hq.
  - case_bool_decide as Hlo.
    + apply Hboth; [|done]. intros c' [= <-]. exists q.
      assert (q ∈ table) by by eapply list_elem_of_lookup_2. auto.
    + apply Hboth; [by apply below_Some|]. intros Hn b. apply (below_None table ip i); try done.
      intros q'. rewrite Hq. by intros [= <-].
  - apply Hboth; [by apply below_Some|]. intros Hn b. apply (below_None table ip i); try done.
    by rewrite Hq.
Qed.

Definition public (ip : Addr) : Prop :=
  IsGlobalUnicast ip = true /\ IsPrivate ip = false /\ IsLinkLocalUnicast ip = false.

(** On any database that loads, the lookup is the scan it optimises: an address
    resolves to a country exactly when its unmapped form is public and lies in a range
    of its family's table that carries this country; the ranges being disjoint, there
    is at most one. *)
Theorem Lookup_spec rows4 rows6 db ip c :
  assemble rows4 rows6 = Ok db ->
  Forall (fun b => Less (hi b) (lo b) = false) (rows4.1 ++ rows6.1) ->
  let a := Unmap ip in
  (Lookup (Some db) ip = Some c <->
   public a /\ exists b, b ∈ (if Is4 a then rows4.1 else rows6.1) /\ covers b a /\ cc b = c).
Proof.
  unfold assemble. intros Hdb Hf. apply Forall_app in Hf as [Hf4 Hf6]. inv_result. cbv zeta.
  unfold Lookup, public. set (a := Unmap ip). simpl.
  destruct (IsGlobalUnicast a), (IsPrivate a), (IsLinkLocalUnicast a); simpl;
    try (split; [done|]; intros [(? & ? & ?) _]; done).
  rewrite lookup_in_spec by (by destruct (Is4 a); split). destruct (Is4 a); tauto.
Qed.

(** ** Country codes *)

Definition upper_letter (c : ascii) : bool := (65 <=? octet c) && (octet c <=? 90).

(** The result is empty, two capital letters, or one of the two single letters
    below. *)
Lemma Canonical_shape s :
  Canonical s ∈ [""; "I"; "S"] \/
  exists a b, Canonical s = String a (String b "") /\ upper_letter a = true /\ upper_letter b = true.
Proof.
  unfold Canonical. set (t := TrimSpace s). destruct (String.length t =? 2)%nat eqn:Hl; simpl; [|left; set_solver].
  apply Nat.eqb_eq in Hl. destruct t as [|a [|b [|]]]; try (simpl in Hl; lia).
  cbn [ToUpper]. destruct (_ && _); [left; vm_compute; set_solver|].
  destruct (_ && _); [left; vm_compute; set_solver|].
  destruct (forallb _ _) eqn:Hf; [|left; set_solver].
  simpl in Hf. rewrite !andb_true_iff in Hf. destruct Hf as ((?&?) & (?&?) & _). right.
  unfold upper_letter. do 2 eexists. split; [done|]. by rewrite !andb_true_iff.
Qed.

(** The comment asks for exactly two ASCII letters; the upper case of U+017F and of
    U+0131 is one. *)
Example Canonical_long_s : Canonical (string_of [byte_of 197; byte_of 191]) = "S".
Proof. vm_compute. reflexivity. Qed.

(** ** Witness *)

Module Demo.
Definition rows4 : list block * Z :=
  ([MkBlock (MkAddr true 134744064) (MkAddr true 134744319) "US";
    MkBlock (MkAddr true 134744576) (MkAddr true 134744580) "SE"], 0).
Definition rows6 : list block * Z := ([], 0).
Definition db : DB := MkDB rows4.1 rows6.1 0.
Definition ip : Addr := MkAddr true 134744072.
End Demo.
Import Demo.

Lemma Lookup_spec_witness :
  let a := Unmap ip in
  Lookup (Some db) ip = Some "US" /\
  (Lookup (Some db) ip = Some "US" <->
   public a /\ exists b, b ∈ (if Is4 a then rows4.1 else rows6.1) /\ covers b a /\ cc b = "US").
Proof.
  split; [vm_compute; reflexivity|].
  apply (Lookup_spec rows4 rows6 db ip "US"); [vm_compute; reflexivity|].
  repeat constructor.
Defined.
