(* ===== verification/ASN.v ===== *)
(** * Autonomous systems: [core/asn/asn.go], [cmd/coordinator/asn.go]

    The table of disjoint prefixes, each with the number of the autonomous system that
    announces it: how a table is read and checked, and the lookup by binary search.
    Addresses are those of [GeoIP]; one parsed from text can also carry a zone. The
    bytes of the table the build embeds are data of the caller. *)

From S2P Require Import Prelude GoStrings Base64 Net GeoIP.
Local Open Scope Z_scope.

(** ** [netip]: parsing addresses and prefixes *)

(** [ParseAddr]: the address and its zone. *)
Definition special (c : ascii) : bool :=
  bool_decide (c = dot) || bool_decide (c = colon) || bool_decide (c = "%"%char).
Definition ParseAddr (s : string) : option (Addr * string) :=
  match List.find special (bytes_of s) with
  | Some "."%char => v4 ← parseIPv4Fields s; Some (MkAddr true (be_value v4), "")
  | Some ":"%char =>
      match Cut "%" s with
      | Some (host, zone) =>
          if String.eqb zone "" then None
          else b ← parseIPv6 (bytes_of host); Some (MkAddr false (be_value b), zone)
      | None => b ← parseIPv6 (bytes_of s); Some (MkAddr false (be_value b), "")
      end
  | _ => None
  end.

Record Prefix := MkPrefix { Prefix_Addr : Addr; Bits : Z }.
#[export] Instance Prefix_eq_dec : EqDecision Prefix.
Proof. solve_decision. Defined.

(** The number of host bits. *)
Definition host_bits (p : Prefix) : Z := BitLen (Prefix_Addr p) - Bits p.

Definition ParsePrefix (s : string) : option Prefix :=
  i ← last_index_byte "/" (bytes_of s);
  '(ip, zone) ← ParseAddr (string_of (firstn i (bytes_of s)));
  if negb (String.eqb zone "") then None
  else
    let bitsStr := string_of (skipn (S i) (bytes_of s)) in
    let signed := match bitsStr with
                  | String c (String _ _) => (octet c <? 49) || (57 <? octet c)
                  | _ => false
                  end in
    if signed then None
    else bits ← Atoi bitsStr;
         if (bits <? 0) || (BitLen ip <? bits) then None else Some (MkPrefix ip bits).

Definition Masked (p : Prefix) : Prefix :=
  MkPrefix (MkAddr (Is4 (Prefix_Addr p)) (Z.shiftl (Z.shiftr (val (Prefix_Addr p)) (host_bits p)) (host_bits p)))
           (Bits p).

Definition Contains (p : Prefix) (ip : Addr) : bool :=
  (BitLen (Prefix_Addr p) =? BitLen ip)
  && (Z.shiftr (Z.lxor (val ip) (val (Prefix_Addr p))) (host_bits p) =? 0).

(** ** The table *)

Definition AS_String (a : Z) : string := "AS" +:+ Itoa a.

Record span := MkSpan { span_p : Prefix; as_ : Z }.
Record Table := MkTable { v4 : list span; v6 : list span; Rows : Z }.

Inductive Error := Open | Columns | BadPrefix | HostBits | BadASN | AS0 | TooLong | ErrEmpty | Overlap.

(** One row of the file, or none for a line that holds a comment or nothing. *)
Definition parse_row (line : string) : result Error (option span) :=
  let text := TrimSpace (match Cut "#" line with Some (before, _) => before | None => line end) in
  if String.eqb text "" then Ok None
  else
    match Fields text with
    | [prefix; asn] =>
        let? p := of_option BadPrefix (ParsePrefix prefix) in
        check! fail_if (negb (bool_decide (p = Masked p))) HostBits;
        let? n := of_option BadASN (ParseUint 32 asn) in
        check! fail_if (n =? 0) AS0;
        Ok (Some (MkSpan (Masked p) n))
    | _ => Err Columns
    end.

Fixpoint read_rows (lines : list string) (t : Table) : result Error Table :=
  match lines with
  | [] => Ok t
  | l :: rest =>
      check! fail_if (MaxScanTokenSize <=? Z.of_nat (String.length l)) TooLong;
      let? row := parse_row (dropCR l) in
      match row with
      | None => read_rows rest t
      | Some s =>
          read_rows rest
            (if Is4 (Prefix_Addr (span_p s)) then MkTable (v4 t ++ [s]) (v6 t) (Rows t + 1)
             else MkTable (v4 t) (v6 t ++ [s]) (Rows t + 1))
      end
  end.

Fixpoint validate (rows : list span) : result Error unit :=
  match rows with
  | prev :: (cur :: _) as rest =>
      check! fail_if (Contains (span_p prev) (Prefix_Addr (span_p cur))) Overlap;
      validate rest
  | _ => Ok tt
  end.

Definition span_le (a b : span) : Prop := Less (Prefix_Addr (span_p b)) (Prefix_Addr (span_p a)) = false.
#[export] Instance span_le_dec : RelDecision span_le.
Proof. intros a b. unfold span_le. apply _. Defined.
Definition sort_spans (rows : list span) : list span := merge_sort span_le rows.

(** [Read]: the sort is by address, and two rows with one address are an overlap
    whichever comes first. *)
Definition Read (text : string) : result Error Table :=
  let? t := read_rows (raw_lines text) (MkTable [] [] 0) in
  check! fail_if (Rows t =? 0) ErrEmpty;
  check! validate (sort_spans (v4 t));
  check! validate (sort_spans (v6 t));
  Ok (MkTable (sort_spans (v4 t)) (sort_spans (v6 t)) (Rows t)).

(** [Load], on what the path's file holds. *)
Definition Load (file : option string) : result Error Table :=
  let? text := of_option Open file in Read text.

(** [setupASNTable]: no path, no table; an unreadable one stops the start. *)
Definition setupASNTable (path : string) (fs : string -> option string) : result Error (option Table) :=
  if String.eqb path "" then Ok None else let? t := Load (fs path) in Ok (Some t).

(** A span as a range of addresses, with its AS as the label. *)
Definition last_addr (q : Prefix) : Addr :=
  MkAddr (Is4 (Prefix_Addr q)) (val (Prefix_Addr q) + 2 ^ host_bits q - 1).
Definition block_of (s : span) : block :=
  MkBlock (Prefix_Addr (span_p s)) (last_addr (span_p s)) (AS_String (as_ s)).

(** The search of [LookupAS]; [GeoIP.bsearch] is [slices.BinarySearchFunc] by the
    lower end. *)
Definition span_below (rows : list span) (ip : Addr) (i : nat) : option Z :=
  match i with
  | O => None
  | S i' => s ← rows !! i'; if Contains (span_p s) ip then Some (as_ s) else None
  end.
Definition find_span (rows : list span) (ip : Addr) : option Z :=
  let i := bsearch (List.length rows) (block_of <$> rows) ip 0 (List.length rows) in
  match rows !! i with
  | Some s => if bool_decide (Prefix_Addr (span_p s) = ip) then Some (as_ s) else span_below rows ip i
  | None => span_below rows ip i
  end.

(** [LookupAS]. [Unmap] drops the zone of a mapped address. An address that still has a
    zone equals no address of the table and is in no prefix, wherever the search ends. *)
Definition LookupAS (t : option Table) (ip : Addr * string) : option Z :=
  match t with
  | None => None
  | Some t =>
      let a := Unmap ip.1 in
      let zone := if Is4 a then "" else ip.2 in
      if negb (IsGlobalUnicast a) || IsPrivate a || IsLinkLocalUnicast a then None
      else if negb (String.eqb zone "") then None
      else find_span (if Is4 a then v4 t else v6 t) a
  end.

Definition Len (t : option Table) : Z * Z :=
  match t with
  | None => (0, 0)
  | Some t => (Z.of_nat (List.length (v4 t)), Z.of_nat (List.length (v6 t)))
  end.

Definition OfAddr (l : option Table) (ip : bytes) : option Z :=
  match l with
  | None => None
  | Some _ => a ← AddrFromSlice ip; LookupAS l (a, "")
  end.

Definition OfHostPort (l : option Table) (hostport : string) : option Z :=
  match l with
  | None => None
  | Some _ =>
      let host := match SplitHostPort hostport with Some (h, _) => h | None => hostport end in
      a ← ParseAddr host; LookupAS l a
  end.

(** ** A prefix is a range *)

Definition prefix_ok (q : Prefix) : Prop := 0 <= host_bits q /\ q = Masked q.

Lemma ParsePrefix_bits s q : ParsePrefix s = Some q -> 0 <= host_bits q.
Proof.
  unfold ParsePrefix. intros Hp. apply bind_Some in Hp as (i & _ & Hp).
  apply bind_Some in Hp as ([ip zone] & _ & Hp). destruct (String.eqb zone ""); [|done]. simpl in Hp.
  match type of Hp with (if ?c then _ else _) = _ => destruct c end; [done|].
  apply bind_Some in Hp as (bits & _ & Hp).
  destruct ((bits <? 0) || (BitLen ip <? bits)) eqn:Hb; [done|]. injection Hp as <-.
  unfold host_bits; simpl. b2p. lia.
Qed.

Lemma prefix_ok_val q : prefix_ok q -> val (Prefix_Addr q) mod 2 ^ host_bits q = 0.
Proof.
  intros [Hk Hm]. apply (f_equal (fun q => val (Prefix_Addr q))) in Hm. simpl in Hm.
  rewrite Hm, Z.shiftl_mul_pow2 by done. apply Z.mod_mul. by apply Z.pow_nonzero.
Qed.

(** The top bits agree exactly when the quotients do. *)
Lemma shiftr_lxor_0 a b k : 0 <= k -> Z.shiftr (Z.lxor a b) k = 0 <-> a / 2 ^ k = b / 2 ^ k.
Proof.
  intros Hk. rewrite Z.shiftr_lxor, Z.lxor_eq_0_iff, !Z.shiftr_div_pow2 by done. done.
Qed.

Lemma Contains_covers s ip : prefix_ok (span_p s) -> Contains (span_p s) ip = true <-> covers (block_of s) ip.
Proof.
  intros Hok. pose proof (prefix_ok_val _ Hok) as Hm. destruct Hok as [Hk _].
  unfold Contains, covers, block_of, last_addr. simpl.
  set (k := host_bits (span_p s)) in *. set (a := Prefix_Addr (span_p s)) in *.
  rewrite andb_true_iff, !Z.eqb_eq, shiftr_lxor_0, !Less_false by done. simpl.
  assert (BitLen (MkAddr (Is4 a) (val a + 2 ^ k - 1)) = BitLen a) as -> by reflexivity.
  pose proof (Z.pow_pos_nonneg 2 k ltac:(lia) Hk) as Hpos.
  pose proof (Z.div_mod (val a) (2 ^ k) ltac:(lia)). pose proof (Z.div_mod (val ip) (2 ^ k) ltac:(lia)).
  pose proof (Z.mod_pos_bound (val ip) (2 ^ k) Hpos).
  set (qa := val a / 2 ^ k) in *. set (qi := val ip / 2 ^ k) in *. clearbody qa qi. split.
  - intros [Hb ->]. lia.
  - intros Hc. assert (BitLen a = BitLen ip) by lia. split; [lia|]. nia.
Qed.

(** ** What [Read] accepts *)

Definition spans_ok (rows : list span) : Prop := Forall (fun s => prefix_ok (span_p s) /\ 0 <= as_ s) rows.

Lemma parse_row_ok line s : parse_row line = Ok (Some s) -> prefix_ok (span_p s) /\ 0 <= as_ s.
Proof.
  unfold parse_row. destruct (String.eqb _ ""); [done|].
  destruct (Fields _) as [|x [|y [|]]]; try done. intros H. inv_result. b2p. subst.
  match goal with Hp : ParsePrefix _ = Some ?q |- _ => apply ParsePrefix_bits in Hp; rename q into q' end.
  simpl. match goal with H : q' = Masked q' |- _ => rename H into Hm end.
  split; [by split; [|rewrite <-!Hm]; rewrite <-?Hm|].
  match goal with H : ParseUint _ _ = Some _ |- _ => unfold ParseUint, parse_digits in H; rename H into Hu end.
  destruct y as [|c y]; [done|]. destruct (digits_from 0 (String c y)) eqn:Hd; [|done].
  apply digits_from_nonneg in Hd; [|lia]. case_match; [|done]. by injection Hu as <-.
Qed.

(** The lines that hold a row. *)
Definition row_in (lines : list string) (s : span) : Prop :=
  exists line, line ∈ lines /\ parse_row (dropCR line) = Ok (Some s).

Lemma read_rows_elem lines t t' s :
  read_rows lines t = Ok t' ->
  (s ∈ v4 t' <-> s ∈ v4 t \/ (Is4 (Prefix_Addr (span_p s)) = true /\ row_in lines s)) /\
  (s ∈ v6 t' <-> s ∈ v6 t \/ (Is4 (Prefix_Addr (span_p s)) = false /\ row_in lines s)).
Proof.
  revert t. induction lines as [|l lines IH]; intros t; cbn [read_rows]; intros H.
  { injection H as <-. unfold row_in. set_solver. }
  inv_result. match goal with Hp : parse_row (dropCR l) = Ok ?r |- _ => rename r into row, Hp into Hrow end.
  assert (row_in (l :: lines) s <-> row = Some s \/ row_in lines s) as ->.
  { unfold row_in. split.
    - intros (x & [->|Hx]%elem_of_cons & Hs); [left; congruence|right; by exists x].
    - intros [->|(x & Hx & Hs)]; [exists l|exists x]; split; [set_solver|done|set_solver|done]. }
  destruct row as [r|]; [|destruct (IH t) as [-> ->]; [done|]; split; intuition congruence].
  assert (Some r = Some s <-> r = s) as -> by (split; congruence).
  destruct (Is4 (Prefix_Addr (span_p r))) eqn:H4;
    match goal with Ht : read_rows lines ?t1 = _ |- _ => destruct (IH t1 Ht) as [-> ->] end; simpl;
    rewrite elem_of_app, list_elem_of_singleton; split; intuition congruence.
Qed.

#[export] Instance span_le_total : Total span_le.
Proof. intros a b. unfold span_le. rewrite !Less_false. lia. Qed.
#[export] Instance span_le_trans : Transitive span_le.
Proof. intros a b c. unfold span_le. rewrite !Less_false. lia. Qed.

(** A sorted table that passes the check is one of disjoint ranges. *)
Lemma validate_table rows :
  Sorted span_le rows -> spans_ok rows -> validate rows = Ok tt -> table_ok (block_of <$> rows).
Proof.
  intros Hs Hok Hv. split.
  - induction rows as [|a [|b rows] IH]; [done..|]. cbn [validate] in Hv. inv_result.
    apply Sorted_inv in Hs as [Hs Hd]. apply HdRel_inv in Hd. apply Forall_cons in Hok as [[Ha _] Hok].
    cbn [fmap list_fmap GeoIP.validate]. destruct (Less (hi (block_of a)) (lo (block_of b))) eqn:Hl; [by apply IH|].
    exfalso. assert (Contains (span_p a) (Prefix_Addr (span_p b)) = true); [|congruence].
    apply Contains_covers; [done|]. by split.
  - apply Forall_fmap. eapply Forall_impl; [exact Hok|]. intros s [[Hk _] _]. simpl.
    apply Less_false. right. split; [reflexivity|]. unfold last_addr. simpl.
    pose proof (Z.pow_pos_nonneg 2 (host_bits (span_p s)) ltac:(lia) Hk). lia.
Qed.

(** ** The lookup *)

Lemma AS_String_inj a b : 0 <= a -> 0 <= b -> AS_String a = AS_String b -> a = b.
Proof.
  unfold AS_String, Itoa. intros Ha Hb H. apply (inj (String.append "AS")) in H.
  apply (inj pretty) in H. lia.
Qed.

(** The search over spans is the search over their ranges, label by label. *)
Lemma find_span_lookup rows ip :
  table_ok (block_of <$> rows) -> spans_ok rows ->
  lookup_in (block_of <$> rows) ip = AS_String <$> find_span rows ip.
Proof.
  intros Ht Hok. rewrite lookup_in_unfold. unfold find_span. rewrite length_fmap.
  destruct (bsearch_spec (block_of <$> rows) ip (List.length rows) 0 (List.length rows) Ht) as (Hlen & Hlow & _);
    [lia|rewrite length_fmap; lia|lia| |].
  { intros k b Hk Hb. apply lookup_lt_Some in Hb. rewrite length_fmap in Hb. lia. }
  set (i := bsearch _ _ _ _ _) in *.
  assert (below (block_of <$> rows) ip i = AS_String <$> span_below rows ip i) as Hb.
  { unfold below, span_below. destruct i as [|i']; [done|]. rewrite list_lookup_fmap.
    destruct (rows !! i') as [s|] eqn:Hs; [|done]. simpl.
    pose proof (Hlow i' (block_of s) ltac:(lia) ltac:(by rewrite list_lookup_fmap, Hs)) as Hlt.
    assert (prefix_ok (span_p s)) as Hp by (by eapply (Forall_lookup_1 _ _ _ _ Hok) in Hs as [? _]).
    pose proof (Contains_covers s ip Hp) as Hc. unfold covers in Hc. simpl in Hc, Hlt.
    destruct (Contains (span_p s) ip), (Less (last_addr (span_p s)) ip) eqn:Hh; try done; exfalso.
    - by destruct (proj1 Hc eq_refl).
    - assert (Less ip (Prefix_Addr (span_p s)) = false) by addr_order. by discriminate (proj2 Hc (conj H eq_refl)). }
  rewrite list_lookup_fmap. destruct (rows !! i) as [s|]; simpl; [|done].
  by case_bool_decide.
Qed.

Lemma find_span_member rows ip a : find_span rows ip = Some a -> exists s, s ∈ rows /\ as_ s = a.
Proof.
  assert (forall i, span_below rows ip i = Some a -> exists s, s ∈ rows /\ as_ s = a) as Hb.
  { intros [|i]; [done|]. intros (s & Hs & Ha)%bind_Some. case_match; [|done].
    injection Ha as <-. eauto using list_elem_of_lookup_2. }
  unfold find_span. destruct (rows !! _) as [s|] eqn:Hs; [|by apply Hb].
  case_bool_decide; [intros [= <-]; eauto using list_elem_of_lookup_2|by apply Hb].
Qed.

Lemma find_span_spec rows ip a :
  Sorted span_le rows -> spans_ok rows -> validate rows = Ok tt ->
  find_span rows ip = Some a <-> exists s, s ∈ rows /\ Contains (span_p s) ip = true /\ as_ s = a.
Proof.
  intros Hs Hok Hv. pose proof (validate_table rows Hs Hok Hv) as Ht.
  pose proof (find_span_lookup rows ip Ht Hok) as Hf. unfold spans_ok in Hok. rewrite Forall_forall in Hok.
  split.
  - intros Ha. rewrite Ha in Hf. apply lookup_in_spec in Hf as (b & Hb & Hc & Hl); [|done].
    apply list_elem_of_fmap in Hb as (s & -> & Hin). exists s.
    apply find_span_member in Ha as (s' & Hin' & <-).
    split_and!; [done|by apply Contains_covers; [apply Hok|]|].
    apply AS_String_inj; [by apply (Hok s)|by apply (Hok s')|exact Hl].
  - intros (s & Hin & Hc & <-).
    assert (lookup_in (block_of <$> rows) ip = Some (AS_String (as_ s))) as Hl.
    { apply lookup_in_spec; [done|]. exists (block_of s). split_and!; [by apply list_elem_of_fmap_2| |done].
      apply Contains_covers; [by apply Hok|done]. }
    rewrite Hf in Hl. destruct (find_span rows ip) as [a'|] eqn:Ha; [|done]. apply (inj Some) in Hl.
    apply find_span_member in Ha as (s' & Hin' & <-). f_equal.
    apply AS_String_inj; [by apply (Hok s')|by apply (Hok s)|exact Hl].
Qed.

Lemma Contains_family q ip : Contains q ip = true -> Is4 (Prefix_Addr q) = Is4 ip.
Proof.
  unfold Contains, BitLen. intros H. b2p. by destruct (Is4 (Prefix_Addr q)), (Is4 ip).
Qed.

(** One family's table answers for the rows of this family. *)
Lemma family_lookup lines rows ip a :
  (forall s, s ∈ rows <-> Is4 (Prefix_Addr (span_p s)) = Is4 ip /\ row_in lines s) ->
  validate (sort_spans rows) = Ok tt ->
  find_span (sort_spans rows) ip = Some a <->
  exists s, row_in lines s /\ Contains (span_p s) ip = true /\ as_ s = a.
Proof.
  intros Hrows Hv. rewrite find_span_spec; [|apply Sorted_merge_sort, _| |done].
  - unfold sort_spans. setoid_rewrite merge_sort_Permutation. setoid_rewrite Hrows.
    split; intros (s & Hs & Hc & Ha); exists s; [naive_solver|].
    by rewrite (Contains_family _ _ Hc).
  - unfold spans_ok, sort_spans. rewrite merge_sort_Permutation, Forall_forall.
    intros s Hs. apply Hrows in Hs as (_ & l & _ & Hl). by eapply parse_row_ok.
Qed.

(** On any table that loads, the lookup by binary search answers what a scan of the
    file's lines would: an address has an autonomous system exactly when its unmapped
    form is public, has no zone and lies in the prefix of some row, and then it is that
    row's. *)
Theorem LookupAS_spec text t ip a :
  Read text = Ok t ->
  let addr := Unmap ip.1 in
  (LookupAS (Some t) ip = Some a <->
   public addr /\ (Is4 addr = false -> ip.2 = "") /\
   exists s, row_in (raw_lines text) s /\ Contains (span_p s) addr = true /\ as_ s = a).
Proof.
  intros H. unfold Read in H. inv_result. cbv zeta. unfold LookupAS, public.
  match goal with Hr : read_rows _ _ = Ok ?x |- _ => rename x into t0, Hr into Hread end.
  set (addr := Unmap ip.1). cbn [ASN.v4 ASN.v6].
  pose proof (fun s => read_rows_elem _ _ _ s Hread) as Hrows. cbn [ASN.v4 ASN.v6] in Hrows.
  destruct (IsGlobalUnicast addr), (IsPrivate addr), (IsLinkLocalUnicast addr); simpl;
    try (split; [done|intros [(? & ? & ?) _]; done]).
  destruct (Is4 addr) eqn:H4; simpl.
  - rewrite (family_lookup (raw_lines text)); [naive_solver| |done].
    intros s. rewrite H4. destruct (Hrows s) as [-> _]. set_solver.
  - destruct (String.eqb_spec ip.2 ""); simpl; [|split; [done|intros (_ & Hz & _); by destruct (Hz eq_refl)]].
    rewrite (family_lookup (raw_lines text)); [naive_solver| |done].
    intros s. rewrite H4. destruct (Hrows s) as [_ ->]. set_solver.
Qed.

Module Demo.
Definition text : string := string_of (bytes_of "# a comment" ++ [byte_of 10]
  ++ bytes_of "192.0.2.0/24  64501" ++ [byte_of 13; byte_of 10; byte_of 10]
  ++ bytes_of "8.8.8.0/24 15169" ++ [byte_of 10] ++ bytes_of "2001:db8::/32 64502").
Definition table : Table := Eval vm_compute in
  match Read text with Ok t => t | Err _ => MkTable [] [] 0 end.
End Demo.

Lemma LookupAS_spec_witness :
  let ip := (MkAddr true 134744072, "") in
  Read Demo.text = Ok Demo.table /\ OfHostPort (Some Demo.table) "[2001:db8::1]:443" = Some 64502 /\
  (LookupAS (Some Demo.table) ip = Some 15169 <->
   public (Unmap ip.1) /\ (Is4 (Unmap ip.1) = false -> ip.2 = "") /\
   exists s, row_in (raw_lines Demo.text) s /\ Contains (span_p s) (Unmap ip.1) = true /\ as_ s = 15169).
Proof.
  split_and!; [vm_compute; reflexivity..|].
  apply (LookupAS_spec Demo.text Demo.table (MkAddr true 134744072, "") 15169). vm_compute. reflexivity.
Defined.
