(* ===== verification/Stun.v ===== *)
(** * The STUN-shaped messages of cold start: [core/coldstart/wire.go], [binding.go]

    Requests and responses carry a list of attributes in the layout of RFC 5389, a
    MESSAGE-INTEGRITY under the user's secret, and a FINGERPRINT. *)

From S2P Require Import Prelude Hashes GeoIP.
Local Open Scope Z_scope.

Definition magicCookie : Z := 0x2112A442.
Definition typeBindingRequest : Z := 0x0001.
Definition typeBindingSuccess : Z := 0x0101.
Definition attrUsername : Z := 0x0006.
Definition attrMessageIntegrity : Z := 0x0008.
Definition attrXORMappedAddress : Z := 0x0020.
Definition attrFingerprint : Z := 0x8028.
Definition attrSnapshot : Z := 0xC001.
Definition attrProof : Z := 0xC002.
Definition fingerprintXOR : Z := 0x5354554e.
Definition headerLen : nat := 20.
Definition messageIntegrityAttrLen : nat := 24.
Definition fingerprintAttrLen : nat := 8.

Definition magicCookieBytes : bytes := be_bytes 4 magicCookie.

Inductive WireError := errShortMessage | errBadCookie | errBadLength | errNotBindingOK | errTxMismatch.

Abbreviation txID := bytes (only parsing).

Record attribute := MkAttr { a_typ : Z; a_val : bytes }.
Record message := MkMessage { m_typ : Z; m_tx : txID; m_attrs : list attribute }.

Definition get (m : message) (typ : Z) : option bytes :=
  a_val <$> List.find (fun a => a_typ a =? typ) (m_attrs m).

(** [b[i:j]] and its reading as a big-endian integer. *)
Definition slice (b : bytes) (i j : nat) : bytes := firstn (j - i) (skipn i b).
Definition uint_at (b : bytes) (i j : nat) : Z := be_value (slice b i j).

(** ** Encoding *)

Definition padding (l : nat) : nat := if (l mod 4 =? 0)%nat then 0%nat else (4 - l mod 4)%nat.

Definition encodeAttr (a : attribute) : bytes :=
  be_bytes 2 (a_typ a) ++ be_bytes 2 (Z.of_nat (List.length (a_val a))) ++ a_val a
    ++ repeat Ascii.zero (padding (List.length (a_val a))).

Definition encodeAttrs (attrs : list attribute) : bytes := List.concat (encodeAttr <$> attrs).

Definition encodeHeader (typ : Z) (tx : txID) (attrLen : nat) : bytes :=
  be_bytes 2 typ ++ be_bytes 2 (Z.of_nat attrLen) ++ be_bytes 4 magicCookie ++ tx.

Definition hmacSHA1 (key msg : bytes) : bytes := hmac_sha1 key msg.
Definition fingerprint (msg : bytes) : bytes := be_bytes 4 (Z.lxor (ChecksumIEEE msg) fingerprintXOR).

(** The common end of the three builders: the fingerprint over what goes before it. *)
Definition finish (typ : Z) (tx : txID) (attrs : list attribute) : bytes :=
  let body := encodeAttrs attrs in
  let hdr := encodeHeader typ tx (List.length body + fingerprintAttrLen) in
  let attrs := attrs ++ [MkAttr attrFingerprint (fingerprint (hdr ++ body))] in
  let body := encodeAttrs attrs in
  encodeHeader typ tx (List.length body) ++ body.

(** [key] is nil for an unauthenticated request. *)
Definition buildRequest (tx : txID) (username : bytes) (key : option bytes) : bytes :=
  let attrs :=
    match key with
    | None => []
    | Some key =>
        let attrs := [MkAttr attrUsername username] in
        let body := encodeAttrs attrs in
        let hdr := encodeHeader typeBindingRequest tx (List.length body + messageIntegrityAttrLen) in
        attrs ++ [MkAttr attrMessageIntegrity (hmacSHA1 key (hdr ++ body))]
    end in
  finish typeBindingRequest tx attrs.

Definition buildCourierRequest (tx : txID) (proof : bytes) : bytes :=
  finish typeBindingRequest tx [MkAttr attrProof proof].

(** ** Addresses *)

(** [netip.AddrPort], with [None] for the invalid address. *)
Record AddrPort := MkAddrPort { ap_Addr : option Addr; ap_Port : Z }.

Definition xor_bytes (a b : bytes) : bytes := zip_with xor_byte a b.

Definition encodeXORMapped (addr : AddrPort) (tx : txID) : bytes :=
  let a := default (MkAddr true 0) (ap_Addr addr) in
  let port := be_bytes 2 (Z.lxor (ap_Port addr) 0x2112) in
  if Is4 a
  then [Ascii.zero; byte_of 1] ++ port ++ xor_bytes (be_bytes 4 (val a)) magicCookieBytes
  else [Ascii.zero; byte_of 2] ++ port ++ xor_bytes (be_bytes 16 (val a)) (magicCookieBytes ++ tx).

Definition decodeXORMapped (v : bytes) (tx : txID) : option AddrPort :=
  if (List.length v <? 4)%nat then None
  else
    let family := uint_at v 1 2 in
    let port := Z.lxor (uint_at v 2 4) 0x2112 in
    if family =? 1 then
      if (List.length v <? 8)%nat then None
      else Some (MkAddrPort (Some (MkAddr true (be_value (xor_bytes (slice v 4 8) magicCookieBytes)))) port)
    else if family =? 2 then
      if (List.length v <? 20)%nat then None
      else Some (MkAddrPort (Some (MkAddr false (be_value (xor_bytes (slice v 4 20) (magicCookieBytes ++ tx))))) port)
    else None.

(** [snapshot] is nil for a plain response. *)
Definition buildResponse (tx : txID) (addr : AddrPort) (snapshot : option bytes) : bytes :=
  finish typeBindingSuccess tx
    (MkAttr attrXORMappedAddress (encodeXORMapped addr tx)
       :: match snapshot with None => [] | Some s => [MkAttr attrSnapshot s] end).

(** ** Parsing *)

(** The attribute at the head of [p] and what an encoder put after it: [None] when the
    header or the value does not fit, and no rest when the padding does not. *)
Definition next_attr (p : bytes) : option (attribute * option bytes) :=
  if (List.length p <? 4)%nat then None
  else
    let l := Z.to_nat (uint_at p 2 4) in
    if (List.length p <? 4 + l)%nat then None
    else
      let adv := (4 + l + padding l)%nat in
      Some (MkAttr (uint_at p 0 2) (slice p 4 (4 + l)),
            if (List.length p <? adv)%nat then None else Some (skipn adv p)).

(** The attribute loop of [parse]: every round but the last consumes four bytes or more. *)
Fixpoint parse_attrs (fuel : nat) (p : bytes) : list attribute :=
  match fuel with
  | O => []
  | S fuel' =>
      match next_attr p with
      | None => []
      | Some (a, None) => [a]
      | Some (a, Some rest) => a :: parse_attrs fuel' rest
      end
  end.

Definition parse (b : bytes) : result WireError message :=
  if (List.length b <? headerLen)%nat then Err errShortMessage
  else if negb (uint_at b 4 8 =? magicCookie) then Err errBadCookie
  else
    let attrLen := Z.to_nat (uint_at b 2 4) in
    if (List.length b <? headerLen + attrLen)%nat then Err errBadLength
    else
      let p := slice b headerLen (headerLen + attrLen) in
      Ok (MkMessage (uint_at b 0 2) (slice b 8 20) (parse_attrs (S (List.length p)) p)).

(** [messageIntegrityOffset]: [None] for -1. *)
Fixpoint integrity_loop (fuel : nat) (p : bytes) (off : nat) : option nat :=
  match fuel with
  | O => None
  | S fuel' =>
      match next_attr p with
      | None => None
      | Some (a, rest) =>
          if a_typ a =? attrMessageIntegrity then Some off
          else match rest with
               | None => None
               | Some rest => integrity_loop fuel' rest (off + (List.length p - List.length rest))
               end
      end
  end.

Definition messageIntegrityOffset (raw : bytes) : option nat :=
  if (List.length raw <? headerLen)%nat then None
  else
    let attrLen := Z.to_nat (uint_at raw 2 4) in
    let end_ := Nat.min (headerLen + attrLen) (List.length raw) in
    let p := slice raw headerLen end_ in
    integrity_loop (S (List.length p)) p headerLen.

Definition verifyMessageIntegrity (raw : bytes) (miOffset : nat) (key : bytes) : bool :=
  if (miOffset <? headerLen)%nat || (List.length raw <? miOffset + 4 + 20)%nat then false
  else
    let length := be_bytes 2 (Z.of_nat (miOffset - headerLen + messageIntegrityAttrLen)) in
    let body := firstn 2 raw ++ length ++ slice raw 4 miOffset in
    bool_decide (hmacSHA1 key body = slice raw (miOffset + 4) (miOffset + 4 + 20)).

(** ** [binding.go] *)

Definition BindingResponse (raw : bytes) (from : AddrPort) : option bytes :=
  match parse raw with
  | Err _ => None
  | Ok m => if m_typ m =? typeBindingRequest then Some (buildResponse (m_tx m) from None) else None
  end.

(** [tx] is what [newTxID] draws. *)
Definition BindingRequest (tx : txID) (username : bytes) (key : option bytes) : bytes := buildRequest tx username key.

Definition LooksLikeBindingSuccess (raw : bytes) : bool :=
  if (List.length raw <? headerLen)%nat then false
  else if negb (uint_at raw 0 2 =? typeBindingSuccess) then false
  else if negb (uint_at raw 4 8 =? magicCookie) then false
  else (headerLen + Z.to_nat (uint_at raw 2 4) =? List.length raw)%nat.

(** ** Slices of concatenations *)

Lemma slice_app_skip a b i j n :
  List.length a = n -> (n <= i)%nat -> slice (a ++ b) i j = slice b (i - n) (j - n).
Proof.
  intros Hn Hi. unfold slice. rewrite skipn_app, skipn_all2 by lia. rewrite Hn. simpl. f_equal. lia.
Qed.
Lemma slice_app_head a b j : List.length a = j -> slice (a ++ b) 0 j = a.
Proof. intros <-. unfold slice. by rewrite Nat.sub_0_r, skipn_O, take_app_length. Qed.
Lemma slice_all a j : List.length a = j -> slice a 0 j = a.
Proof. intros <-. unfold slice. by rewrite Nat.sub_0_r, skipn_O, firstn_all. Qed.

Lemma be_value_small n z : 0 <= z < 256 ^ Z.of_nat n -> be_value (be_bytes n z) = z.
Proof. intros. rewrite be_value_bytes, Z.mod_small; done. Qed.

(** ** The attribute loop reads back what the encoder wrote *)

Definition attr_ok (a : attribute) : Prop := 0 <= a_typ a < 65536 /\ Z.of_nat (List.length (a_val a)) < 65536.

Lemma encodeAttr_length a :
  List.length (encodeAttr a) = (4 + List.length (a_val a) + padding (List.length (a_val a)))%nat.
Proof. unfold encodeAttr. rewrite !length_app, !be_bytes_length, repeat_length. lia. Qed.

(** The length field is 16 bits wide: a longer value wraps. *)
Lemma encodeAttr_length_wraps a rest :
  uint_at (encodeAttr a ++ rest) 2 4 = Z.of_nat (List.length (a_val a)) mod 65536.
Proof.
  unfold uint_at, encodeAttr. rewrite <-app_assoc, (slice_app_skip _ _ _ _ 2) by (rewrite ?be_bytes_length; lia).
  rewrite <-app_assoc, slice_app_head by (by rewrite be_bytes_length). by rewrite be_value_bytes.
Qed.

Lemma next_attr_encode a rest : attr_ok a -> next_attr (encodeAttr a ++ rest) = Some (a, Some rest).
Proof.
  intros [Ht Hl]. unfold next_attr. pose proof (encodeAttr_length a) as Hlen.
  set (l := List.length (a_val a)) in *.
  assert (uint_at (encodeAttr a ++ rest) 2 4 = Z.of_nat l) as Hu
    by (rewrite encodeAttr_length_wraps; apply Z.mod_small; fold l; lia).
  assert (uint_at (encodeAttr a ++ rest) 0 2 = a_typ a) as Hty.
  { unfold uint_at, encodeAttr. rewrite <-app_assoc, slice_app_head by apply be_bytes_length.
    by apply be_value_small. }
  assert (slice (encodeAttr a ++ rest) 4 (4 + l) = a_val a) as Hv.
  { unfold encodeAttr. rewrite <-!app_assoc.
    rewrite (slice_app_skip _ _ _ _ 2) by (rewrite ?be_bytes_length; lia).
    rewrite (slice_app_skip _ _ _ _ 2) by (rewrite ?be_bytes_length; lia).
    replace (4 + l - 2 - 2)%nat with l by lia. by apply slice_app_head. }
  rewrite length_app, Hu, Nat2Z.id, Hty, Hv.
  rewrite (proj2 (Nat.ltb_ge _ 4)) by lia. rewrite (proj2 (Nat.ltb_ge _ (4 + l))) by lia.
  rewrite (proj2 (Nat.ltb_ge _ _)) by lia.
  destruct a as [t v]. repeat f_equal. rewrite <-Hlen. by rewrite drop_app_length.
Qed.

Lemma encodeAttrs_cons a attrs : encodeAttrs (a :: attrs) = encodeAttr a ++ encodeAttrs attrs.
Proof. done. Qed.
Lemma encodeAttrs_app k l : encodeAttrs (k ++ l) = encodeAttrs k ++ encodeAttrs l.
Proof. unfold encodeAttrs. by rewrite fmap_app, concat_app. Qed.

Lemma parse_attrs_encode attrs fuel :
  Forall attr_ok attrs -> (List.length (encodeAttrs attrs) < fuel)%nat -> parse_attrs fuel (encodeAttrs attrs) = attrs.
Proof.
  intros Hok. revert fuel. induction Hok as [|a attrs Ha _ IH]; intros [|fuel] Hf; try lia; [done|].
  rewrite encodeAttrs_cons in *. cbn [parse_attrs]. rewrite next_attr_encode by done. f_equal. apply IH.
  rewrite length_app, encodeAttr_length in Hf. lia.
Qed.

Lemma encodeHeader_length typ tx n : List.length tx = 12%nat -> List.length (encodeHeader typ tx n) = headerLen.
Proof. intros Ht. unfold encodeHeader. by rewrite !length_app, !be_bytes_length, Ht. Qed.

Section Header.
Context (typ : Z) (tx : txID) (n : nat) (body : bytes).
Context (Htyp : 0 <= typ < 65536) (Htx : List.length tx = 12%nat).

Lemma header_typ : uint_at (encodeHeader typ tx n ++ body) 0 2 = typ.
Proof.
  unfold uint_at, encodeHeader. rewrite <-app_assoc, slice_app_head by apply be_bytes_length.
  by apply be_value_small.
Qed.
Lemma header_len : uint_at (encodeHeader typ tx n ++ body) 2 4 = Z.of_nat n mod 65536.
Proof.
  unfold uint_at, encodeHeader. rewrite <-app_assoc, (slice_app_skip _ _ _ _ 2) by (rewrite ?be_bytes_length; lia).
  rewrite <-app_assoc, slice_app_head by (by rewrite be_bytes_length). by rewrite be_value_bytes.
Qed.
Lemma header_cookie : uint_at (encodeHeader typ tx n ++ body) 4 8 = magicCookie.
Proof.
  unfold uint_at, encodeHeader. rewrite <-!app_assoc.
  do 2 rewrite (slice_app_skip _ _ _ _ 2) by (rewrite ?be_bytes_length; lia).
  rewrite slice_app_head by (by rewrite be_bytes_length). by apply be_value_small.
Qed.
Lemma header_tx : slice (encodeHeader typ tx n ++ body) 8 20 = tx.
Proof.
  unfold encodeHeader. rewrite <-!app_assoc.
  do 2 rewrite (slice_app_skip _ _ _ _ 2) by (rewrite ?be_bytes_length; lia).
  rewrite (slice_app_skip _ _ _ _ 4) by (rewrite ?be_bytes_length; lia). by apply slice_app_head.
Qed.
End Header.

Lemma parse_encoded typ tx attrs :
  0 <= typ < 65536 -> List.length tx = 12%nat -> Forall attr_ok attrs ->
  Z.of_nat (List.length (encodeAttrs attrs)) < 65536 ->
  parse (encodeHeader typ tx (List.length (encodeAttrs attrs)) ++ encodeAttrs attrs) = Ok (MkMessage typ tx attrs).
Proof.
  intros Htyp Htx Hok Hlen. unfold parse.
  rewrite header_typ, header_len, header_cookie, header_tx by done.
  rewrite Z.mod_small by lia. rewrite Nat2Z.id, length_app, encodeHeader_length by done.
  rewrite (proj2 (Nat.ltb_ge _ headerLen)) by (unfold headerLen; lia). simpl (negb _).
  rewrite (proj2 (Nat.ltb_ge _ _)) by lia.
  rewrite (slice_app_skip _ _ _ _ headerLen) by (rewrite ?encodeHeader_length by done; lia).
  rewrite Nat.sub_diag. replace (headerLen + _ - headerLen)%nat with (List.length (encodeAttrs attrs)) by lia.
  rewrite slice_all by done. by rewrite parse_attrs_encode by (done || lia).
Qed.

(** ** What is built parses *)

Definition fits (attrs : list attribute) : Prop :=
  Forall attr_ok attrs /\ Z.of_nat (List.length (encodeAttrs attrs)) + Z.of_nat fingerprintAttrLen < 65536.

Definition with_fingerprint (typ : Z) (tx : txID) (attrs : list attribute) : list attribute :=
  attrs ++ [MkAttr attrFingerprint
    (fingerprint (encodeHeader typ tx (List.length (encodeAttrs attrs) + fingerprintAttrLen) ++ encodeAttrs attrs))].

Lemma fingerprint_length msg : List.length (fingerprint msg) = 4%nat.
Proof. apply be_bytes_length. Qed.
Lemma fingerprint_attr_length msg : List.length (encodeAttr (MkAttr attrFingerprint (fingerprint msg))) = fingerprintAttrLen.
Proof. rewrite encodeAttr_length. cbn [a_val]. by rewrite fingerprint_length. Qed.

Lemma parse_finish typ tx attrs :
  0 <= typ < 65536 -> List.length tx = 12%nat -> fits attrs ->
  parse (finish typ tx attrs) = Ok (MkMessage typ tx (with_fingerprint typ tx attrs)).
Proof.
  intros Htyp Htx [Hok Hlen]. unfold finish. cbv zeta. fold (with_fingerprint typ tx attrs).
  apply parse_encoded; [done..| |].
  - apply Forall_app_2; [done|]. constructor; [|constructor]. split; [by vm_compute|].
    cbn [a_val]. rewrite fingerprint_length. lia.
  - unfold with_fingerprint. rewrite encodeAttrs_app, length_app, encodeAttrs_cons, app_nil_r, fingerprint_attr_length. lia.
Qed.

(** ** Reflexive addresses *)

Definition addr_ok (a : AddrPort) : Prop :=
  0 <= ap_Port a < 65536 /\
  exists x, ap_Addr a = Some x /\ 0 <= val x < (if Is4 x then 256 ^ 4 else 256 ^ 16).

Lemma xor_bytes_twice a b : List.length a = List.length b -> xor_bytes (xor_bytes a b) b = a.
Proof.
  unfold xor_bytes. revert b. induction a as [|x a IH]; intros [|y b] Hl; try done.
  simpl. by rewrite xor_byte_twice, IH by (simpl in Hl; lia).
Qed.

(** What an encoded address holds, for either family. *)
Section Mapped.
Context (family : Z) (port : Z) (k : bytes).
Context (Hf : 0 <= family < 256) (Hp : 0 <= port < 65536).
Abbreviation encoded := ([Ascii.zero; byte_of family] ++ be_bytes 2 (Z.lxor port 0x2112) ++ k).

Lemma mapped_length : List.length encoded = (4 + List.length k)%nat.
Proof. rewrite !length_app, be_bytes_length. done. Qed.
Lemma mapped_family : uint_at encoded 1 2 = family.
Proof.
  change (uint_at encoded 1 2) with (octet (byte_of family) * 1 + 0).
  rewrite octet_byte_of, Z.mod_small; lia.
Qed.
Lemma mapped_port : Z.lxor (uint_at encoded 2 4) 0x2112 = port.
Proof.
  unfold uint_at. rewrite (slice_app_skip _ _ _ _ 2) by (simpl; lia).
  rewrite slice_app_head by apply be_bytes_length.
  rewrite be_value_small by (apply (lxor_below port 0x2112 16); lia). apply lxor_twice.
Qed.
Lemma mapped_addr j : List.length k = j -> slice encoded 4 (4 + j) = k.
Proof.
  intros Hj. rewrite app_assoc, (slice_app_skip _ _ _ _ 4) by (rewrite ?length_app, ?be_bytes_length; simpl; lia).
  replace (4 + j - 4)%nat with j by lia. by apply slice_all.
Qed.
End Mapped.

Lemma decode_encodeXORMapped a tx :
  addr_ok a -> List.length tx = 12%nat -> decodeXORMapped (encodeXORMapped a tx) tx = Some a.
Proof.
  intros [Hp ([is4 v] & Hx & Hv)] Htx. destruct a as [oa port]. simpl in *. subst oa.
  unfold encodeXORMapped, decodeXORMapped. destruct is4; cbn [ap_Addr ap_Port from_option id Is4 val].
  - set (k := xor_bytes (be_bytes 4 v) magicCookieBytes).
    assert (List.length k = 4%nat) as Hk by (unfold k, xor_bytes; by rewrite length_zip_with, be_bytes_length).
    rewrite mapped_length, Hk, mapped_family, mapped_port by lia. cbn [Nat.ltb Nat.leb Nat.add Z.eqb Pos.eqb].
    rewrite (mapped_addr _ _ _ 4) by done. unfold k.
    rewrite xor_bytes_twice by (by rewrite be_bytes_length). by rewrite be_value_small.
  - set (k := xor_bytes (be_bytes 16 v) (magicCookieBytes ++ tx)).
    assert (List.length k = 16%nat) as Hk.
    { unfold k, xor_bytes. rewrite length_zip_with, length_app, Htx. by rewrite !be_bytes_length. }
    rewrite mapped_length, Hk, mapped_family, mapped_port by lia. cbn [Nat.ltb Nat.leb Nat.add Z.eqb Pos.eqb].
    rewrite (mapped_addr _ _ _ 16) by done. unfold k.
    rewrite xor_bytes_twice by (rewrite length_app, Htx; by rewrite !be_bytes_length). by rewrite be_value_small.
Qed.

(** ** An authenticated request authenticates *)

Lemma padding_lt l : (padding l < 4)%nat.
Proof. unfold padding. destruct (Nat.eqb_spec (l mod 4) 0); lia. Qed.

Section Request.
Context (tx : txID) (username key : bytes).
Context (Htx : List.length tx = 12%nat) (Hu : Z.of_nat (List.length username) < 65000).

Abbreviation user := (MkAttr attrUsername username).
Definition integrity : bytes :=
  hmacSHA1 key (encodeHeader typeBindingRequest tx (List.length (encodeAttr user) + messageIntegrityAttrLen)
                  ++ encodeAttr user).
Abbreviation integrity_attr := (MkAttr attrMessageIntegrity integrity).
Abbreviation request_attrs := [user; integrity_attr].

Lemma user_length : Z.of_nat (List.length (encodeAttr user)) < 65010.
Proof. rewrite encodeAttr_length. cbn [a_val]. pose proof (padding_lt (List.length username)). lia. Qed.

Lemma integrity_length : List.length integrity = 20%nat.
Proof. apply hmac_sha1_length. Qed.

Lemma integrity_attr_length : List.length (encodeAttr integrity_attr) = messageIntegrityAttrLen.
Proof. rewrite encodeAttr_length. cbn [a_val]. by rewrite integrity_length. Qed.

Lemma user_ok : attr_ok user.
Proof. split; [by vm_compute|]. cbn [a_val]. lia. Qed.
Lemma integrity_attr_ok : attr_ok integrity_attr.
Proof. split; [by vm_compute|]. cbn [a_val]. rewrite integrity_length. lia. Qed.

Lemma request_finish :
  buildRequest tx username (Some key) = finish typeBindingRequest tx request_attrs.
Proof. unfold buildRequest. cbv zeta. rewrite encodeAttrs_cons, app_nil_r. done. Qed.

Lemma request_fits : fits request_attrs.
Proof.
  split; [repeat constructor; auto using user_ok, integrity_attr_ok; apply user_ok || apply integrity_attr_ok|].
  rewrite !encodeAttrs_cons, app_nil_r, length_app, integrity_attr_length. pose proof user_length.
  unfold messageIntegrityAttrLen, fingerprintAttrLen. lia.
Qed.

(** The bytes of the request. *)
Lemma request_bytes : exists fp,
  attr_ok (MkAttr attrFingerprint fp) /\ List.length (encodeAttr (MkAttr attrFingerprint fp)) = 8%nat /\
  buildRequest tx username (Some key) =
    encodeHeader typeBindingRequest tx (List.length (encodeAttr user) + 24 + 8)
      ++ encodeAttr user ++ encodeAttr integrity_attr ++ encodeAttr (MkAttr attrFingerprint fp).
Proof.
  rewrite request_finish. unfold finish. cbv zeta. set (fp := fingerprint _). exists fp. split_and!.
  - split; [by vm_compute|]. cbn [a_val]. unfold fp. rewrite fingerprint_length. lia.
  - unfold fp. apply fingerprint_attr_length.
  - rewrite encodeAttrs_app, !encodeAttrs_cons. change (encodeAttrs []) with (@nil ascii).
    rewrite !app_nil_r, <-!app_assoc. do 2 f_equal.
    rewrite !length_app, integrity_attr_length. unfold fp. rewrite fingerprint_attr_length.
    unfold messageIntegrityAttrLen, fingerprintAttrLen. lia.
Qed.

Lemma request_offset :
  messageIntegrityOffset (buildRequest tx username (Some key)) = Some (headerLen + List.length (encodeAttr user))%nat.
Proof.
  destruct request_bytes as (fp & Hfp & Hl & ->). unfold messageIntegrityOffset.
  pose proof user_length. pose proof integrity_attr_length as Hi. unfold messageIntegrityAttrLen in Hi.
  rewrite header_len, !length_app, encodeHeader_length, Hi, Hl, Z.mod_small, Nat2Z.id by (done || lia).
  rewrite (proj2 (Nat.ltb_ge _ headerLen)) by lia. rewrite Nat.min_l by lia.
  rewrite (slice_app_skip _ _ _ _ headerLen) by (rewrite ?encodeHeader_length by done; lia).
  rewrite Nat.sub_diag, slice_all by (rewrite !length_app, Hi, Hl; lia).
  cbn [integrity_loop]. rewrite next_attr_encode by apply user_ok. cbn [a_typ].
  change (attrUsername =? attrMessageIntegrity) with false. cbv iota.
  rewrite (length_app (encodeAttr user)) at 1. destruct (List.length (encodeAttr user) + _)%nat eqn:Hn.
  { exfalso. rewrite length_app, Hi in Hn. lia. }
  cbn [integrity_loop]. rewrite next_attr_encode by apply integrity_attr_ok. cbn [a_typ].
  change (attrMessageIntegrity =? attrMessageIntegrity) with true. cbv iota. f_equal. rewrite !length_app. lia.
Qed.

Lemma request_verifies :
  verifyMessageIntegrity (buildRequest tx username (Some key)) (headerLen + List.length (encodeAttr user)) key = true.
Proof.
  destruct request_bytes as (fp & Hfp & Hl & ->). unfold verifyMessageIntegrity.
  set (U := encodeAttr user). pose proof integrity_attr_length as Hi. unfold messageIntegrityAttrLen in Hi.
  rewrite !length_app, encodeHeader_length, Hi, Hl by done.
  rewrite (proj2 (Nat.ltb_ge _ headerLen)), (proj2 (Nat.ltb_ge _ _)) by lia. cbn [orb].
  apply bool_decide_eq_true. set (raw := encodeHeader _ _ _ ++ _).
  assert (slice raw (headerLen + List.length U + 4) (headerLen + List.length U + 4 + 20) = integrity) as ->.
  { unfold raw. rewrite (slice_app_skip _ _ _ _ headerLen) by (rewrite ?encodeHeader_length by done; lia).
    rewrite (slice_app_skip _ _ _ _ (List.length U)) by lia.
    replace (headerLen + List.length U + 4 - headerLen - List.length U)%nat with 4%nat by lia.
    replace (headerLen + List.length U + 4 + 20 - headerLen - List.length U)%nat with (4 + 20)%nat by lia.
    unfold encodeAttr. rewrite <-!app_assoc.
    do 2 rewrite (slice_app_skip _ _ _ _ 2) by (rewrite ?be_bytes_length; lia).
    cbn [a_val]. apply slice_app_head, integrity_length. }
  unfold integrity. f_equal.
  assert (slice raw 4 (headerLen + List.length U) = be_bytes 4 magicCookie ++ tx ++ U) as ->.
  { unfold raw, encodeHeader. rewrite <-!app_assoc.
    do 2 rewrite (slice_app_skip _ _ _ _ 2) by (rewrite ?be_bytes_length; lia).
    replace (headerLen + List.length U - 2 - 2)%nat with (List.length (be_bytes 4 magicCookie ++ tx ++ U))
      by (rewrite !length_app, be_bytes_length, Htx; unfold headerLen; lia).
    change (4 - 2 - 2)%nat with 0%nat. rewrite !app_assoc, <-(app_assoc _ (encodeAttr integrity_attr)).
    by rewrite <-(app_assoc (be_bytes 4 magicCookie)), slice_app_head. }
  replace (headerLen + List.length U - headerLen)%nat with (List.length U) by lia.
  unfold raw, encodeHeader. rewrite <-!app_assoc. rewrite take_app_length' by (by rewrite be_bytes_length). done.
Qed.
End Request.

(** ** Responses *)

Lemma encodeXORMapped_length addr tx : List.length tx = 12%nat -> (List.length (encodeXORMapped addr tx) <= 20)%nat.
Proof.
  intros Htx. unfold encodeXORMapped, xor_bytes.
  case_match; rewrite !length_app, length_zip_with, ?length_app, !be_bytes_length, ?Htx; simpl; lia.
Qed.

(** The attributes of a response, before its fingerprint. *)
Definition response_attrs (tx : txID) (addr : AddrPort) (snapshot : option bytes) : list attribute :=
  MkAttr attrXORMappedAddress (encodeXORMapped addr tx)
    :: match snapshot with None => [] | Some s => [MkAttr attrSnapshot s] end.

Definition snapshot_fits (snapshot : option bytes) : Prop :=
  forall s, snapshot = Some s -> Z.of_nat (List.length s) < 65000.

Lemma response_fits tx addr snapshot :
  List.length tx = 12%nat -> snapshot_fits snapshot -> fits (response_attrs tx addr snapshot).
Proof.
  intros Htx Hs. pose proof (encodeXORMapped_length addr tx Htx) as Hx.
  assert (attr_ok (MkAttr attrXORMappedAddress (encodeXORMapped addr tx))) as Hok.
  { split; [by vm_compute|]. cbn [a_val]. lia. }
  assert (forall v, (List.length v <= 20)%nat -> (List.length (encodeAttr (MkAttr attrXORMappedAddress v)) < 28)%nat) as Hl.
  { intros v Hv. rewrite encodeAttr_length. cbn [a_val]. pose proof (padding_lt (List.length v)). lia. }
  specialize (Hl _ Hx). unfold fits, response_attrs. destruct snapshot as [s|].
  - specialize (Hs s eq_refl). split; [repeat constructor; try apply Hok; cbn [a_val]; lia|].
    rewrite !encodeAttrs_cons, app_nil_r, length_app, (encodeAttr_length (MkAttr attrSnapshot s)). cbn [a_val].
    pose proof (padding_lt (List.length s)). unfold fingerprintAttrLen. lia.
  - split; [repeat constructor; apply Hok|]. rewrite encodeAttrs_cons, app_nil_r. unfold fingerprintAttrLen. lia.
Qed.

Lemma parse_response tx addr snapshot :
  List.length tx = 12%nat -> snapshot_fits snapshot ->
  exists m, parse (buildResponse tx addr snapshot) = Ok m /\ m_typ m = typeBindingSuccess /\ m_tx m = tx /\
    get m attrSnapshot = snapshot /\ get m attrXORMappedAddress = Some (encodeXORMapped addr tx).
Proof.
  intros Htx Hs. eexists. split; [apply parse_finish; [by vm_compute|done|by apply response_fits]|].
  split_and!; [done..| |done]. unfold get, with_fingerprint, response_attrs. by destruct snapshot.
Qed.

(** What a server puts into a response is what a client reads out of it: the message
    parses, as a binding success of the same transaction; it carries exactly the
    snapshot the server attached, or none; its mapped address decodes to the address
    the request came from; and it passes for a STUN response. *)
Theorem response_roundtrip tx addr snapshot :
  List.length tx = 12%nat -> addr_ok addr -> snapshot_fits snapshot ->
  let raw := buildResponse tx addr snapshot in
  LooksLikeBindingSuccess raw = true /\
  exists m, parse raw = Ok m /\ m_typ m = typeBindingSuccess /\ m_tx m = tx /\ get m attrSnapshot = snapshot /\
    exists v, get m attrXORMappedAddress = Some v /\ decodeXORMapped v tx = Some addr.
Proof.
  intros Htx Ha Hs. cbv zeta. split.
  - destruct (response_fits tx addr snapshot Htx Hs) as [_ Hlen].
    unfold buildResponse, finish. cbv zeta. fold (response_attrs tx addr snapshot).
    set (attrs := response_attrs tx addr snapshot) in *.
    fold (with_fingerprint typeBindingSuccess tx attrs). set (all := with_fingerprint _ _ _).
    assert (Z.of_nat (List.length (encodeAttrs all)) < 65536) as Hall.
    { unfold all, with_fingerprint. rewrite encodeAttrs_app, length_app, encodeAttrs_cons, app_nil_r, fingerprint_attr_length. lia. }
    unfold LooksLikeBindingSuccess. rewrite header_typ, header_len, header_cookie by (done || by vm_compute).
    rewrite Z.mod_small, Nat2Z.id, length_app, encodeHeader_length by (done || lia).
    rewrite (proj2 (Nat.ltb_ge _ headerLen)) by lia. cbn. apply Nat.eqb_refl.
  - destruct (parse_response tx addr snapshot Htx Hs) as (m & Hm & Ht & Hx & Hg & Hv).
    exists m. split_and!; [done..|]. exists (encodeXORMapped addr tx). split; [done|]. by apply decode_encodeXORMapped.
Qed.

(** ** Witness *)

Module Demo.
Definition tx : txID := bytes_of "transaction!".
Definition addr : AddrPort := MkAddrPort (Some (MkAddr true 0x08080808)) 5000.
End Demo.

Lemma response_roundtrip_witness :
  let raw := buildResponse Demo.tx Demo.addr (Some (bytes_of "snapshot")) in
  LooksLikeBindingSuccess raw = true /\
  exists m, parse raw = Ok m /\ m_typ m = typeBindingSuccess /\ m_tx m = Demo.tx /\
    get m attrSnapshot = Some (bytes_of "snapshot") /\
    exists v, get m attrXORMappedAddress = Some v /\ decodeXORMapped v Demo.tx = Some Demo.addr.
Proof.
  apply (response_roundtrip Demo.tx Demo.addr (Some (bytes_of "snapshot"))).
  - reflexivity.
  - split; [simpl; lia|]. exists (MkAddr true 0x08080808). split; [reflexivity|simpl; lia].
  - intros s [= <-]. simpl. lia.
Defined.
