(* ===== verification/Coldstart.v ===== *)
(** * Cold start: [core/coldstart]

    How a client that knows one coordinator, or only peers, gets the signed directory:
    the snapshot ([snapshot.go]), the invite that carries a user's secret ([secret.go]),
    the bootstrap server, its demultiplexer and the courier ([server.go], [demux.go],
    [courier.go]), and the client ([client.go]). The wire is [Stun]. Files are their
    contents; the network of a client's exchange is a function from the request to the
    datagram it reads, if any. *)

From S2P Require Import Prelude GoStrings Base64 Crypto Hashes GeoIP Stun.
Local Open Scope Z_scope.

(** ** [snapshot.go] *)

Record Entry := MkEntry {
  en_Role : string; en_ID : string; en_Country : string; en_Addr : string; en_CountrySource : string;
  en_DeclaredCountry : string; en_Ingress : string; en_Operator : string;
}.
Record Snapshot := MkSnapshot { sn_Version : Z; IssuedAt : Time; ExpiresAt : Time; Entries : list Entry }.

Definition SnapshotVersion : Z := 1.
Definition CountrySignalingOnly : string := "observed-signaling-only".

Definition CountryContradicted (e : Entry) : bool := String.eqb (en_CountrySource e) CountrySignalingOnly.
Definition DeclaredCountryDiffers (e : Entry) : bool :=
  negb (String.eqb (en_DeclaredCountry e) "") && negb (String.eqb (en_Country e) "")
  && negb (String.eqb (en_DeclaredCountry e) (en_Country e)).
Definition RelayEligible (e : Entry) : bool := String.eqb (en_Role e) "relay" && negb (String.eqb (en_Ingress e) "").

Definition AddrsForRole (s : Snapshot) (role : string) : list string :=
  en_Addr <$> filter (fun e => String.eqb (en_Role e) role && negb (String.eqb (en_Addr e) "")) (Entries s).

Inductive SnapshotError := ErrSnapshotExpired | ErrBadSignature | ErrMalformedSnapshot.

Section Signed.
Context `{Ed25519} `{JSON Snapshot}.

Definition Sign (priv : PrivateKey) (snap : Snapshot) : bytes :=
  let body := Marshal snap in body ++ ed_Sign priv body.

Definition VerifySigned (pub signed : bytes) : result SnapshotError Snapshot :=
  let? (body, sig) := of_option ErrMalformedSnapshot (split_signed signed) in
  check! fail_if (negb (ed_Verify pub body sig)) ErrBadSignature;
  of_option ErrMalformedSnapshot (Unmarshal body).

(** [now] is [time.Now()]. *)
Definition Verify (pub signed : bytes) (now : Time) : result SnapshotError Snapshot :=
  let? snap := VerifySigned pub signed in
  check! fail_if (After now (ExpiresAt snap)) ErrSnapshotExpired;
  Ok snap.
End Signed.

(** ** [secret.go] *)

Definition SecretIDLen : nat := 8.
Definition SecretLen : nat := 32.

(** [GenerateSecret]: [id] and [secret] are what [rand.Read] fills, if it does. *)
Definition GenerateSecret (id secret : option bytes) : option (string * bytes) :=
  id ← id; s ← secret; Some (hex_EncodeToString id, s).

Record Invite := MkInvite {
  Coordinator : string; SecretID : string; Secret : bytes; PublicKey : bytes; AdmissionKey : bytes; inv_CRL : bytes;
}.

Inductive InviteError := BadSecretID | BadSecretLength | BadPublicKeyLength | CRLNeedsAnchor | BadAdmissionKeyLength
  | CRLTooLarge | MissingPrefix | BadBase64 | EmptyInvite | UnsupportedVersion (v : Z) | BadInviteLength
  | TruncatedCRLLength | TruncatedCRL.

Definition inviteV1 : Z := 1.
Definition inviteV2 : Z := 2.
Definition inviteV3 : Z := 3.
Definition crlLenPrefixSize : nat := 2.
Definition maxCRLLen : Z := 65535.
Definition invitePrefix : string := "bacchus1:".

Definition is_empty (b : bytes) : bool := (List.length b =? 0)%nat.

Definition EncodeInvite (inv : Invite) : result InviteError string :=
  match hex_DecodeString (SecretID inv) with
  | None => Err BadSecretID
  | Some id =>
      check! fail_if (negb (List.length id =? SecretIDLen)%nat) BadSecretID;
      check! fail_if (negb (List.length (Secret inv) =? SecretLen)%nat) BadSecretLength;
      check! fail_if (negb (List.length (PublicKey inv) =? PublicKeySize)%nat) BadPublicKeyLength;
      check! fail_if (negb (is_empty (inv_CRL inv)) && is_empty (AdmissionKey inv)) CRLNeedsAnchor;
      check! fail_if (negb (is_empty (AdmissionKey inv)) && negb (List.length (AdmissionKey inv) =? PublicKeySize)%nat)
               BadAdmissionKeyLength;
      check! fail_if (maxCRLLen <? Z.of_nat (List.length (inv_CRL inv))) CRLTooLarge;
      let version := if negb (is_empty (inv_CRL inv)) then inviteV3
                     else if negb (is_empty (AdmissionKey inv)) then inviteV2 else inviteV1 in
      let crl := if version =? inviteV3
                 then be_bytes 2 (Z.of_nat (List.length (inv_CRL inv))) ++ inv_CRL inv else [] in
      let buf := byte_of version :: id ++ Secret inv ++ PublicKey inv ++ AdmissionKey inv ++ crl
                   ++ bytes_of (Coordinator inv) in
      Ok (invitePrefix +:+ EncodeToString RawURLEncoding buf)
  end.

Definition DecodeInvite (s : string) : result InviteError Invite :=
  let b := bytes_of s in
  let n := String.length invitePrefix in
  if (List.length b <=? n)%nat || negb (bool_decide (firstn n b = bytes_of invitePrefix)) then Err MissingPrefix
  else
    match DecodeString RawURLEncoding (string_of (skipn n b)) with
    | None => Err BadBase64
    | Some [] => Err EmptyInvite
    | Some ((v :: _) as buf) =>
        let? (admissionLen, hasCRL) :=
          (if octet v =? inviteV1 then Ok (0%nat, false)
           else if octet v =? inviteV2 then Ok (PublicKeySize, false)
           else if octet v =? inviteV3 then Ok (PublicKeySize, true)
           else Err (UnsupportedVersion (octet v))) in
        check! fail_if (List.length buf <? 1 + SecretIDLen + SecretLen + PublicKeySize + admissionLen)%nat
                 BadInviteLength;
        let off := 1%nat in
        let id := slice buf off (off + SecretIDLen) in
        let off := (off + SecretIDLen)%nat in
        let secret := slice buf off (off + SecretLen) in
        let off := (off + SecretLen)%nat in
        let pub := slice buf off (off + PublicKeySize) in
        let off := (off + PublicKeySize)%nat in
        let admissionKey := slice buf off (off + admissionLen) in
        let off := (off + admissionLen)%nat in
        let? (crl, off) :=
          (if negb hasCRL then Ok ([], off)
           else if (List.length buf <? off + crlLenPrefixSize)%nat then Err TruncatedCRLLength
           else
             let crlLen := Z.to_nat (uint_at buf off (off + crlLenPrefixSize)) in
             let off := (off + crlLenPrefixSize)%nat in
             if (List.length buf <? off + crlLen)%nat then Err TruncatedCRL
             else Ok (slice buf off (off + crlLen), off + crlLen)%nat) in
        check! fail_if (List.length buf <=? off)%nat BadInviteLength;
        Ok (MkInvite (string_of (skipn off buf)) (hex_EncodeToString id) secret pub admissionKey crl)
    end.

(** ** [server.go] *)

Abbreviation MemStore := (gmap string bytes) (only parsing).
Definition Add (s : MemStore) (secretID : string) (secret : bytes) : MemStore := <[secretID := secret]> s.
Definition Lookup (s : MemStore) (secretID : string) : option bytes := s !! secretID.

Inductive StoreError := SecretsRead | SecretsParse | BadSecret (id : string).

(** [file] is what reading the file gives. Which of several bad entries the error names
    depends on Go's map order. *)
Definition LoadMemStore `{JSON (gmap string string)} (file : option bytes) : result StoreError MemStore :=
  let? b := of_option SecretsRead file in
  let? f := of_option SecretsParse (Unmarshal b) in
  map_fold (fun id hexSecret acc =>
    let? store := acc in
    let? secret := of_option (BadSecret id) (hex_DecodeString hexSecret) in
    Ok (Add store id secret)) (Ok ∅) f.

(** The bytes [SaveFile] writes. *)
Definition SaveFile `{JSON (gmap string string)} (s : MemStore) : bytes := Marshal (hex_EncodeToString <$> s).

(** [snapshot] is what [snapshotFn] returns, nil as [None]. *)
Definition handleRequest (raw : bytes) (reflexive : AddrPort) (secrets : MemStore) (snapshot : option bytes)
    : option bytes :=
  match parse raw with
  | Err _ => None
  | Ok m =>
      if negb (m_typ m =? typeBindingRequest) then None
      else
        let authenticated :=
          match get m attrUsername with
          | None => false
          | Some usernameVal =>
              match Lookup secrets (string_of usernameVal) with
              | None => false
              | Some secret =>
                  match messageIntegrityOffset raw with
                  | None => false
                  | Some off => verifyMessageIntegrity raw off secret
                  end
              end
          end in
        Some (buildResponse (m_tx m) reflexive (if authenticated then snapshot else None))
  end.

(** ** [demux.go]: the answer to an intercepted datagram, [None] when it is TURN's *)
Definition intercept (raw : bytes) (reflexive : AddrPort) (secrets : MemStore) (snapshot : option bytes)
    : option bytes :=
  match parse raw with
  | Err _ => None
  | Ok m =>
      if negb (m_typ m =? typeBindingRequest) then None
      else match get m attrUsername with
           | None => None
           | Some _ => handleRequest raw reflexive secrets snapshot
           end
  end.

(** ** [courier.go] *)

(** The atomic pointer: [None] until the first [Store]. *)
Abbreviation SnapshotCache := (option bytes) (only parsing).
Definition cache_Store (c : SnapshotCache) (signed : bytes) : SnapshotCache := Some signed.
(** Copying an empty slice gives nil. *)
Definition cache_Load (c : SnapshotCache) : option bytes :=
  match c with Some [] => None | _ => c end.

Section Courier.
Context `{Ed25519} `{JSON Snapshot}.

Definition servableSnapshot (pub : bytes) (cache : SnapshotCache) (now : Time) : option bytes :=
  match cache_Load cache with
  | None => None
  | Some cached => if is_ok (Verify pub cached now) then Some cached else None
  end.

Definition handleCourierRequest (raw : bytes) (reflexive : AddrPort) (pub : bytes) (cache : SnapshotCache)
    (now : Time) : option bytes :=
  match parse raw with
  | Err _ => None
  | Ok m =>
      if negb (m_typ m =? typeBindingRequest) then None
      else
        let snapshot :=
          match get m attrProof with
          | None => None
          | Some proof => if is_ok (VerifySigned pub proof) then servableSnapshot pub cache now else None
          end in
        Some (buildResponse (m_tx m) reflexive snapshot)
  end.

(** ** [client.go] *)

Inductive ClientError := NetworkError | BadResponse (e : WireError) | ErrNotAuthenticated | BadSnapshot (e : SnapshotError).
Record Result := MkResult { res_Snapshot : Snapshot; res_Signed : bytes }.

(** What the client makes of the datagram it read. *)
Definition read_response (raw : bytes) (tx : txID) (pub : bytes) (now : Time) : result ClientError Result :=
  let? m := map_err BadResponse (parse raw) in
  check! fail_if (negb (m_typ m =? typeBindingSuccess)) (BadResponse errNotBindingOK);
  check! fail_if (negb (bool_decide (m_tx m = tx))) (BadResponse errTxMismatch);
  let? signed := of_option ErrNotAuthenticated (get m attrSnapshot) in
  let? snap := map_err BadSnapshot (Verify pub signed now) in
  Ok (MkResult snap signed).

(** [net] is the exchange: the datagram read after the request was sent. *)
Definition Bootstrap (net : bytes -> option bytes) (tx : txID) (secretID : string) (secret : option bytes)
    (pub : bytes) (now : Time) : result ClientError Result :=
  let? raw := of_option NetworkError (net (buildRequest tx (bytes_of secretID) secret)) in
  read_response raw tx pub now.

Definition FetchSnapshot (net : bytes -> option bytes) (tx : txID) (proof pub : bytes) (now : Time)
    : result ClientError Result :=
  let? raw := of_option NetworkError (net (buildCourierRequest tx proof)) in
  read_response raw tx pub now.
End Courier.

(** ** Invites *)

Lemma slice_mid (a b c : bytes) i j :
  List.length a = i -> List.length b = j -> slice (a ++ b ++ c) i (i + j) = b.
Proof.
  intros Ha Hb. rewrite (slice_app_skip _ _ _ _ i) by lia. rewrite Nat.sub_diag.
  replace (i + j - i)%nat with j by lia. by apply slice_app_head.
Qed.

(** An invite's bytes, read back. *)
Section InviteFields.
Context (v : ascii) (id secret pub adm crl coord : bytes) (n : nat).
Context (Hid : List.length id = 8%nat) (Hs : List.length secret = 32%nat) (Hp : List.length pub = 32%nat).
Context (Ha : List.length adm = n).
Abbreviation buf := (v :: id ++ secret ++ pub ++ adm ++ crl ++ coord).

Lemma invite_length : List.length buf = (73 + n + (List.length crl + List.length coord))%nat.
Proof. simpl. rewrite !length_app. lia. Qed.
Lemma invite_id : slice buf 1 9 = id.
Proof. by apply (slice_mid [v] id _ 1 8). Qed.
Lemma invite_secret : slice buf 9 41 = secret.
Proof.
  apply (slice_mid (v :: id) secret _ 9 32); [simpl; lia|done].
Qed.
Lemma invite_pub : slice buf 41 73 = pub.
Proof.
  change buf with ([v] ++ id ++ secret ++ pub ++ adm ++ crl ++ coord). rewrite !app_assoc.
  rewrite <-(app_assoc _ crl coord), <-(app_assoc _ adm), <-(app_assoc _ pub).
  apply (slice_mid _ pub _ 41 32); [|done]. rewrite !length_app. simpl. lia.
Qed.
Lemma invite_adm : slice buf 73 (73 + n) = adm.
Proof.
  change buf with ([v] ++ id ++ secret ++ pub ++ adm ++ crl ++ coord). rewrite !app_assoc.
  rewrite <-(app_assoc _ crl coord), <-(app_assoc _ adm).
  apply slice_mid; [|done]. rewrite !length_app. simpl. lia.
Qed.
Lemma invite_rest : skipn (73 + n) buf = crl ++ coord.
Proof.
  change buf with ([v] ++ id ++ secret ++ pub ++ adm ++ crl ++ coord). rewrite !app_assoc, <-(app_assoc _ crl coord).
  apply drop_app_length'. rewrite !length_app. simpl. lia.
Qed.
End InviteFields.

Lemma slice_skipn (b : bytes) o k : slice b o (o + k) = firstn k (skipn o b).
Proof. unfold slice. f_equal. lia. Qed.

(** The envelope: the prefix and the base64 of a buffer that is not empty. *)
Lemma DecodeInvite_envelope v rest :
  let s := invitePrefix +:+ EncodeToString RawURLEncoding (v :: rest) in
  let b := bytes_of s in
  let n := String.length invitePrefix in
  (List.length b <=? n)%nat || negb (bool_decide (firstn n b = bytes_of invitePrefix)) = false /\
  DecodeString RawURLEncoding (string_of (skipn n b)) = Some (v :: rest).
Proof.
  cbv zeta. rewrite bytes_of_app, length_app, length_bytes_of.
  pose proof (DecodeString_EncodeToString RawURLEncoding (v :: rest)) as Hd.
  set (e := EncodeToString RawURLEncoding (v :: rest)) in *.
  rewrite take_app_length', drop_app_length' by (by rewrite length_bytes_of). rewrite string_of_bytes_of.
  split; [|done]. rewrite bool_decide_eq_true_2 by done. rewrite orb_false_r.
  apply Nat.leb_gt. destruct e; [vm_compute in Hd; discriminate Hd|]. rewrite length_bytes_of. simpl. lia.
Qed.

Definition with_id (inv : Invite) (id : bytes) : Invite :=
  MkInvite (Coordinator inv) (hex_EncodeToString id) (Secret inv) (PublicKey inv) (AdmissionKey inv) (inv_CRL inv).

(** The version byte, the length of the anchor and the CRL field of an invite. *)
Inductive invite_shape (inv : Invite) : Z -> nat -> bool -> bytes -> Prop :=
| shape_v1 : AdmissionKey inv = [] -> inv_CRL inv = [] -> invite_shape inv inviteV1 0 false []
| shape_v2 : List.length (AdmissionKey inv) = PublicKeySize -> inv_CRL inv = [] ->
    invite_shape inv inviteV2 PublicKeySize false []
| shape_v3 : List.length (AdmissionKey inv) = PublicKeySize -> inv_CRL inv <> [] ->
    Z.of_nat (List.length (inv_CRL inv)) <= maxCRLLen ->
    invite_shape inv inviteV3 PublicKeySize true
      (be_bytes 2 (Z.of_nat (List.length (inv_CRL inv))) ++ inv_CRL inv).

Lemma is_empty_spec b : reflect (b = []) (is_empty b).
Proof. unfold is_empty. destruct b; simpl; by constructor. Qed.

Lemma EncodeInvite_inv inv s :
  EncodeInvite inv = Ok s ->
  exists id v n has crl, hex_DecodeString (SecretID inv) = Some id /\ List.length id = SecretIDLen /\
    List.length (Secret inv) = SecretLen /\ List.length (PublicKey inv) = PublicKeySize /\
    invite_shape inv v n has crl /\
    s = invitePrefix +:+ EncodeToString RawURLEncoding
          (byte_of v :: id ++ Secret inv ++ PublicKey inv ++ AdmissionKey inv ++ crl ++ bytes_of (Coordinator inv)).
Proof.
  unfold EncodeInvite. destruct (hex_DecodeString _) as [id|]; [|done]. intros He. inv_result. b2p.
  repeat match goal with Hq : (_ =? _)%nat = true |- _ => apply Nat.eqb_eq in Hq end.
  destruct (is_empty_spec (inv_CRL inv)) as [Hc|Hc], (is_empty_spec (AdmissionKey inv)) as [Ha|Ha]; cbn [negb andb] in *; try done; b2p.
  - exists id, inviteV1, 0%nat, false, []. split_and!; auto. by constructor.
  - exists id, inviteV2, PublicKeySize, false, []. split_and!; auto. constructor; [|done]. by apply Nat.eqb_eq.
  - exists id, inviteV3, PublicKeySize, true. eexists. split_and!; auto. constructor; [by apply Nat.eqb_eq|done|lia].
Qed.

Lemma shape_bounds inv v n has crl :
  invite_shape inv v n has crl ->
  List.length (AdmissionKey inv) = n /\
  (if octet (byte_of v) =? inviteV1 then Ok (0%nat, false)
   else if octet (byte_of v) =? inviteV2 then Ok (PublicKeySize, false)
   else if octet (byte_of v) =? inviteV3 then Ok (PublicKeySize, true)
   else Err (UnsupportedVersion (octet (byte_of v)))) = @Ok InviteError _ (n, has).
Proof. intros Hs. destruct Hs as [Ha _|Ha _|Ha _ _]; rewrite ?Ha; by split. Qed.

(** The CRL field, read at the offset it starts at. *)
Lemma shape_crl inv v n has crl (buf coord : bytes) off :
  invite_shape inv v n has crl -> skipn off buf = crl ++ coord ->
  List.length buf = (off + (List.length crl + List.length coord))%nat ->
  (if negb has then Ok ([], off)
   else if (List.length buf <? off + crlLenPrefixSize)%nat then Err TruncatedCRLLength
   else
     let crlLen := Z.to_nat (uint_at buf off (off + crlLenPrefixSize)) in
     let off := (off + crlLenPrefixSize)%nat in
     if (List.length buf <? off + crlLen)%nat then Err TruncatedCRL
     else Ok (slice buf off (off + crlLen), off + crlLen)%nat) =
  @Ok InviteError _ (inv_CRL inv, (off + List.length crl)%nat).
Proof.
  intros Hs Hrest Hlen. destruct Hs as [_ Hc|_ Hc|_ Hc Hmax]; cbn [negb].
  1-2: rewrite Hc; by rewrite Nat.add_0_r.
  set (c := inv_CRL inv) in *. rewrite !length_app, be_bytes_length in Hlen |- *. unfold crlLenPrefixSize.
  rewrite (proj2 (Nat.ltb_ge _ _)) by lia. cbv zeta. unfold uint_at. rewrite !slice_skipn, Hrest, <-app_assoc.
  rewrite take_app_length' by (by rewrite be_bytes_length).
  rewrite be_value_small by (change (256 ^ Z.of_nat 2) with 65536; unfold maxCRLLen in Hmax; lia).
  rewrite Nat2Z.id, (proj2 (Nat.ltb_ge _ _)) by lia.
  rewrite <-drop_drop, Hrest, <-app_assoc, drop_app_length' by (by rewrite be_bytes_length).
  rewrite take_app_length. by rewrite Nat.add_assoc.
Qed.

(** An invite survives its text form. Whatever [EncodeInvite] accepts, [DecodeInvite]
    reads back field by field, the secret's identifier in its canonical spelling,
    except that an invite without a coordinator address encodes but never decodes. *)
Theorem invite_roundtrip inv s :
  EncodeInvite inv = Ok s ->
  exists id, hex_DecodeString (SecretID inv) = Some id /\
    DecodeInvite s = if String.eqb (Coordinator inv) "" then Err BadInviteLength else Ok (with_id inv id).
Proof.
  intros (id & v & n & has & crl & Hid & Hidl & Hsec & Hpub & Hshape & ->)%EncodeInvite_inv.
  exists id. split; [done|]. unfold DecodeInvite.
  destruct (DecodeInvite_envelope (byte_of v)
    (id ++ Secret inv ++ PublicKey inv ++ AdmissionKey inv ++ crl ++ bytes_of (Coordinator inv))) as [-> ->].
  destruct (shape_bounds _ _ _ _ _ Hshape) as [Hadm ->]. cbn [rbind].
  set (coord := bytes_of (Coordinator inv)).
  pose proof (invite_length (byte_of v) id (Secret inv) (PublicKey inv) (AdmissionKey inv) crl coord n Hidl Hsec Hpub Hadm) as Hlen.
  pose proof (invite_rest (byte_of v) id (Secret inv) (PublicKey inv) (AdmissionKey inv) crl coord n Hidl Hsec Hpub Hadm) as Hrest.
  assert ((List.length (byte_of v :: id ++ Secret inv ++ PublicKey inv ++ AdmissionKey inv ++ crl ++ coord)
    <? 1 + SecretIDLen + SecretLen + PublicKeySize + n)%nat = false) as ->
    by (apply Nat.ltb_ge; rewrite Hlen; unfold SecretIDLen, SecretLen, PublicKeySize; lia).
  cbn [fail_if rbind]. cbv zeta.
  change (1 + SecretIDLen)%nat with 9%nat. change (9 + SecretLen)%nat with 41%nat.
  change (41 + PublicKeySize)%nat with 73%nat.
  rewrite invite_id by done. rewrite (invite_secret _ _ _ _ _ _ _ n), (invite_pub _ _ _ _ _ _ _ n), invite_adm by done.
  pose proof (shape_crl inv v n has crl _ coord _ Hshape Hrest Hlen) as Hcrl. cbv zeta in Hcrl. rewrite Hcrl. cbn [rbind].
  rewrite Hlen, <-drop_drop, Hrest, drop_app_length. unfold coord. rewrite string_of_bytes_of.
  destruct (String.eqb_spec (Coordinator inv) "") as [Hc|Hc].
  - rewrite Hc. rewrite (proj2 (Nat.leb_le _ _)) by (simpl; lia). done.
  - rewrite (proj2 (Nat.leb_gt _ _)); [done|]. rewrite length_bytes_of. destruct (Coordinator inv); [done|simpl; lia].
Qed.

(** ** The secrets file *)

Section Store.
Context `{JSON (gmap string string)} `{!JSONLaws (gmap string string)}.

(** What is saved loads back: no secret is lost or changed. *)
Lemma Load_SaveFile_secrets (s : MemStore) : LoadMemStore (Some (SaveFile s)) = Ok s.
Proof.
  unfold LoadMemStore, SaveFile. cbn [of_option rbind]. rewrite Unmarshal_Marshal. cbn [of_option rbind].
  induction s as [|id secret s Hid Hf IH] using map_first_key_ind; [by rewrite fmap_empty, map_fold_empty|].
  rewrite fmap_insert, map_fold_insert_first_key.
  - rewrite IH. cbn [rbind]. by rewrite hex_roundtrip.
  - by rewrite lookup_fmap, Hid.
  - rewrite <-fmap_insert. by apply map_first_key_fmap.
Qed.
End Store.

(** ** Snapshots *)

Section SnapshotProofs.
Context `{Ed25519Laws} `{JSONLaws Snapshot}.

Lemma VerifySigned_Sign priv snap : VerifySigned (Public priv) (Sign priv snap) = Ok snap.
Proof.
  unfold VerifySigned, Sign. rewrite split_signed_app; [|apply Sign_length|apply Marshal_nonempty].
  cbn [of_option rbind]. rewrite Verify_Sign. cbn. by rewrite Unmarshal_Marshal.
Qed.

Lemma Verify_Sign_snapshot priv snap now :
  now <= ExpiresAt snap -> Verify (Public priv) (Sign priv snap) now = Ok snap.
Proof.
  intros Hn. unfold Verify. rewrite VerifySigned_Sign. cbn [rbind]. unfold After.
  by rewrite (proj2 (Z.ltb_ge _ _)).
Qed.
End SnapshotProofs.

(** ** Who is given the directory *)

(** The request carries the MAC of a stored secret under the name it is stored under. *)
Definition authenticated (raw : bytes) (secrets : MemStore) : Prop :=
  exists m name secret off, parse raw = Ok m /\ get m attrUsername = Some name /\
    secrets !! string_of name = Some secret /\ messageIntegrityOffset raw = Some off /\
    verifyMessageIntegrity raw off secret = true.

Lemma handleRequest_cases raw reflexive secrets snapshot :
  handleRequest raw reflexive secrets snapshot = BindingResponse raw reflexive \/
  (authenticated raw secrets /\
   exists m, parse raw = Ok m /\ m_typ m = typeBindingRequest /\
     handleRequest raw reflexive secrets snapshot = Some (buildResponse (m_tx m) reflexive snapshot)).
Proof.
  unfold handleRequest, BindingResponse. destruct (parse raw) as [m|] eqn:Hm; [|by left].
  destruct (Z.eqb_spec (m_typ m) typeBindingRequest) as [Ht|]; [|by left]. cbn [negb].
  destruct (get m attrUsername) as [name|] eqn:Hg; [|by left].
  unfold Lookup. destruct (secrets !! string_of name) as [secret|] eqn:Hs; [|by left].
  destruct (messageIntegrityOffset raw) as [off|] eqn:Ho; [|by left].
  destruct (verifyMessageIntegrity raw off secret) eqn:Hv; [|by left].
  right. split; [by exists m, name, secret, off|]. eauto.
Qed.

(** The demultiplexer hands every other datagram to TURN and answers as the server does. *)
Lemma intercept_handles raw reflexive secrets snapshot resp :
  intercept raw reflexive secrets snapshot = Some resp -> handleRequest raw reflexive secrets snapshot = Some resp.
Proof.
  unfold intercept. destruct (parse raw) as [m|]; [|done]. destruct (negb _); [done|].
  by destruct (get m attrUsername).
Qed.

Section Directory.
Context `{Ed25519} `{JSON Snapshot}.

(** A prober learns nothing it would not learn from a public STUN server. Whatever
    the datagram, the bootstrap server answers it byte for byte as the plain STUN
    responder does, unless the datagram carries the MAC of a stored secret under that
    secret's name; only then is the snapshot attached. A courier answers the same way
    unless the datagram carries a directory signed by its coordinator's key, and what it
    then attaches is the directory it holds, which verifies and has not expired. *)
Theorem probe_sees_plain_stun raw reflexive secrets snapshot pub cache now :
  (~ authenticated raw secrets ->
   handleRequest raw reflexive secrets snapshot = BindingResponse raw reflexive) /\
  (handleRequest raw reflexive secrets snapshot = None <-> BindingResponse raw reflexive = None) /\
  (handleCourierRequest raw reflexive pub cache now = BindingResponse raw reflexive \/
   exists m proof old cached snap, parse raw = Ok m /\ get m attrProof = Some proof /\
     VerifySigned pub proof = Ok old /\ cache = Some cached /\ VerifySigned pub cached = Ok snap /\
     now <= ExpiresAt snap /\
     handleCourierRequest raw reflexive pub cache now = Some (buildResponse (m_tx m) reflexive (Some cached))).
Proof.
  split_and!.
  - intros Hn. destruct (handleRequest_cases raw reflexive secrets snapshot) as [?|[? _]]; done.
  - unfold handleRequest, BindingResponse. destruct (parse raw) as [m|]; [|done].
    destruct (m_typ m =? typeBindingRequest); cbn [negb]; split; intros Hx; discriminate Hx || reflexivity.
  - unfold handleCourierRequest, BindingResponse. destruct (parse raw) as [m|]; [|by left].
    destruct (m_typ m =? typeBindingRequest); cbn [negb]; [|by left].
    destruct (get m attrProof) as [proof|] eqn:Hg; [|by left].
    destruct (VerifySigned pub proof) as [old|] eqn:Ho; cbn [is_ok]; [|by left].
    unfold servableSnapshot. destruct (cache_Load cache) as [cached|] eqn:Hc; [|by left].
    assert (cache = Some cached) as -> by (destruct cache as [[|]|]; naive_solver).
    destruct (Verify pub cached now) as [snap|] eqn:Hv; cbn [is_ok]; [|by left].
    right. unfold Verify in Hv. inv_result. unfold After in *. b2p.
    exists m, proof, old, cached, snap. split_and!; auto.
Qed.
End Directory.

(** ** The client *)

Section ClientProofs.
Context `{Ed25519Laws} `{JSONLaws Snapshot}.

Lemma read_response_Ok raw tx pub now r :
  read_response raw tx pub now = Ok r ->
  exists m, parse raw = Ok m /\ m_tx m = tx /\ get m attrSnapshot = Some (res_Signed r) /\
    VerifySigned pub (res_Signed r) = Ok (res_Snapshot r) /\ now <= ExpiresAt (res_Snapshot r).
Proof.
  unfold read_response, Verify. intros Hr. inv_result. b2p. subst. simpl. eexists. split_and!; try done.
  unfold After in *. b2p. done.
Qed.

Lemma proof_fits proof : Z.of_nat (List.length proof) < 65000 -> fits [MkAttr attrProof proof].
Proof.
  intros Hl. split; [constructor; [split; [by vm_compute|cbn [a_val]; lia]|constructor]|].
  rewrite encodeAttrs_cons, app_nil_r, encodeAttr_length. cbn [a_val].
  pose proof (padding_lt (List.length proof)). unfold fingerprintAttrLen. lia.
Qed.

Lemma cache_Load_Sign priv snap : cache_Load (Some (Sign priv snap)) = Some (Sign priv snap).
Proof. unfold Sign. pose proof (Marshal_nonempty snap). destruct (Marshal snap); done. Qed.

Lemma parse_request tx username key :
  List.length tx = 12%nat -> Z.of_nat (List.length username) < 65000 ->
  exists m, parse (buildRequest tx username (Some key)) = Ok m /\ m_typ m = typeBindingRequest /\ m_tx m = tx /\
    get m attrUsername = Some username.
Proof.
  intros Htx Hu. rewrite request_finish. eexists.
  split; [apply parse_finish; [by vm_compute|done|by apply request_fits]|]. split_and!; reflexivity.
Qed.

Lemma read_response_served tx addr priv snap now :
  List.length tx = 12%nat -> Z.of_nat (List.length (Sign priv snap)) < 65000 -> now <= ExpiresAt snap ->
  read_response (buildResponse tx addr (Some (Sign priv snap))) tx (Public priv) now =
    Ok (MkResult snap (Sign priv snap)).
Proof.
  intros Htx Hl Hn. unfold read_response.
  destruct (parse_response tx addr (Some (Sign priv snap)) Htx) as (m & -> & Ht & Hx & Hg & _).
  { by intros s [= <-]. }
  cbn [map_err rbind]. rewrite Ht, Hx, Hg, Z.eqb_refl, bool_decide_eq_true_2 by done.
  cbn [negb fail_if rbind of_option]. by rewrite Verify_Sign_snapshot.
Qed.

Lemma bootstrap_served tx secretID secret priv now secrets reflexive snap :
  List.length tx = 12%nat -> Z.of_nat (String.length secretID) < 65000 ->
  secrets !! secretID = Some secret -> now <= ExpiresAt snap -> Z.of_nat (List.length (Sign priv snap)) < 65000 ->
  Bootstrap (fun req => handleRequest req reflexive secrets (Some (Sign priv snap))) tx secretID (Some secret)
    (Public priv) now = Ok (MkResult snap (Sign priv snap)).
Proof.
  intros Htx Hid Hs Hn Hl. unfold Bootstrap.
  assert (Z.of_nat (List.length (bytes_of secretID)) < 65000) as Hid' by (by rewrite length_bytes_of).
  assert (handleRequest (buildRequest tx (bytes_of secretID) (Some secret)) reflexive secrets (Some (Sign priv snap)) =
    Some (buildResponse tx reflexive (Some (Sign priv snap)))) as ->; [|by apply read_response_served].
  destruct (parse_request tx (bytes_of secretID) secret Htx Hid') as (m & Hm & Ht & Hx & Hg).
  unfold handleRequest. rewrite Hm, Ht, Hg, Hx, Z.eqb_refl. cbn [negb]. unfold Lookup.
  rewrite string_of_bytes_of, Hs, (request_offset tx (bytes_of secretID) secret Htx Hid').
  by rewrite (request_verifies tx (bytes_of secretID) secret Htx).
Qed.

(** An authenticated request is not left to TURN. *)
Lemma intercept_request tx username key reflexive secrets snapshot :
  List.length tx = 12%nat -> Z.of_nat (List.length username) < 65000 ->
  intercept (buildRequest tx username (Some key)) reflexive secrets snapshot =
    handleRequest (buildRequest tx username (Some key)) reflexive secrets snapshot.
Proof.
  intros Htx Hu. destruct (parse_request tx username key Htx Hu) as (m & Hm & Ht & _ & Hg).
  unfold intercept. by rewrite Hm, Ht, Hg, Z.eqb_refl.
Qed.

(** Bootstrapping is sound and it works. Against any network, a client that gets a
    directory from a coordinator or a courier got one signed by the key in its invite,
    not expired, in an answer to its own transaction. And an invited client that
    reaches a coordinator holding its secret and a directory signed by that key gets
    exactly that directory; with any directory it ever verified as its proof it gets the
    same from a courier that carries it. *)
Theorem bootstrap_correct net tx secretID secret priv proof now :
  List.length tx = 12%nat -> Z.of_nat (String.length secretID) < 65000 ->
  (forall pub key r, Bootstrap net tx secretID key pub now = Ok r \/ FetchSnapshot net tx proof pub now = Ok r ->
     VerifySigned pub (res_Signed r) = Ok (res_Snapshot r) /\ now <= ExpiresAt (res_Snapshot r) /\
     exists req raw m, net req = Some raw /\ parse raw = Ok m /\ m_tx m = tx /\
       get m attrSnapshot = Some (res_Signed r)) /\
  (forall secrets reflexive snap,
     secrets !! secretID = Some secret -> now <= ExpiresAt snap ->
     Z.of_nat (List.length (Sign priv snap)) < 65000 ->
     Bootstrap (fun req => handleRequest req reflexive secrets (Some (Sign priv snap))) tx secretID (Some secret)
       (Public priv) now = Ok (MkResult snap (Sign priv snap))) /\
  (forall reflexive snap,
     is_ok (VerifySigned (Public priv) proof) = true -> Z.of_nat (List.length proof) < 65000 ->
     now <= ExpiresAt snap -> Z.of_nat (List.length (Sign priv snap)) < 65000 ->
     FetchSnapshot (fun req => handleCourierRequest req reflexive (Public priv) (Some (Sign priv snap)) now) tx proof
       (Public priv) now = Ok (MkResult snap (Sign priv snap))).
Proof.
  intros Htx Hid. split_and!.
  - intros pub key r [Hr|Hr]; unfold Bootstrap, FetchSnapshot in Hr; inv_result;
      match goal with Hr : read_response _ _ _ _ = _ |- _ => apply read_response_Ok in Hr as (m & ? & ? & ? & ? & ?) end;
      split_and!; try done; do 3 eexists; by split_and!.
  - intros secrets reflexive snap Hs Hn Hl. by apply bootstrap_served.
  - intros reflexive snap Hp Hpl Hn Hl. unfold FetchSnapshot.
    assert (handleCourierRequest (buildCourierRequest tx proof) reflexive (Public priv) (Some (Sign priv snap)) now =
      Some (buildResponse tx reflexive (Some (Sign priv snap)))) as ->; [|by apply read_response_served].
    unfold handleCourierRequest, buildCourierRequest.
    rewrite parse_finish; [|by vm_compute|done|by apply proof_fits].
    cbn [m_typ m_tx]. rewrite Z.eqb_refl. cbn [negb]. change (get _ attrProof) with (Some proof). cbv iota.
    rewrite Hp. unfold servableSnapshot. rewrite cache_Load_Sign, Verify_Sign_snapshot by done. done.
Qed.
End ClientProofs.

(** ** Witnesses *)

#[export] Instance Entry_eq_dec : EqDecision Entry.
Proof. solve_decision. Defined.
#[export] Instance Entry_countable : Countable Entry.
Proof.
  refine (inj_countable
    (fun r => [encode (en_Role r); encode (en_ID r); encode (en_Country r); encode (en_Addr r); encode (en_CountrySource r); encode (en_DeclaredCountry r); encode (en_Ingress r); encode (en_Operator r)])
    (fun l => match l with
              | [x0; x1; x2; x3; x4; x5; x6; x7] => x0 ← decode x0; x1 ← decode x1; x2 ← decode x2; x3 ← decode x3; x4 ← decode x4; x5 ← decode x5; x6 ← decode x6; x7 ← decode x7;
                  Some (MkEntry x0 x1 x2 x3 x4 x5 x6 x7)
              | _ => None
              end) _).
  intros []. cbv beta iota. by rewrite !decode_encode.
Defined.

#[export] Instance Snapshot_eq_dec : EqDecision Snapshot.
Proof. solve_decision. Defined.
#[export] Instance Snapshot_countable : Countable Snapshot.
Proof.
  refine (inj_countable
    (fun r => [encode (sn_Version r); encode (IssuedAt r); encode (ExpiresAt r); encode (Entries r)])
    (fun l => match l with
              | [x0; x1; x2; x3] => x0 ← decode x0; x1 ← decode x1; x2 ← decode x2; x3 ← decode x3;
                  Some (MkSnapshot x0 x1 x2 x3)
              | _ => None
              end) _).
  intros []. cbv beta iota. by rewrite !decode_encode.
Defined.

Module Demo.
Import Toy.
#[export] Existing Instance toy_json.
#[export] Existing Instance toy_json_laws.
Definition key : PrivateKey := "k"%char.
Definition snap : Snapshot :=
  MkSnapshot 1 Hour (Hour + 5 * Minute) [MkEntry "coordinator" "c" "" "9.9.9.9:7000" "" "" "" ""].
Definition secret : bytes := repeat "s"%char 32.
Definition secrets : gmap string bytes := {["0011223344556677" := secret]}.
Definition invite : Invite :=
  MkInvite "9.9.9.9:7000" "0011223344556677" secret (repeat "p"%char 32) (repeat "a"%char 32) (bytes_of "crl").
Definition invite_text : string := match EncodeInvite invite with Ok s => s | Err _ => "" end.
End Demo.
Import Toy Demo.

Lemma invite_roundtrip_witness : DecodeInvite invite_text = Ok invite.
Proof.
  assert (EncodeInvite invite = Ok invite_text) as He by (vm_compute; reflexivity).
  destruct (invite_roundtrip invite invite_text He) as (id & Hid & Hd). rewrite Hd.
  assert (hex_DecodeString (SecretID invite) = Some (byte_of <$> [0; 17; 34; 51; 68; 85; 102; 119])) as Hx
    by (vm_compute; reflexivity).
  rewrite Hx in Hid. injection Hid as <-. vm_compute. reflexivity.
Defined.

Lemma bootstrap_correct_witness :
  Bootstrap (fun req => handleRequest req Stun.Demo.addr secrets (Some (Sign key snap))) Stun.Demo.tx
    "0011223344556677" (Some secret) (Public key) (Hour + Minute) = Ok (MkResult snap (Sign key snap)).
Proof.
  destruct (bootstrap_correct (fun _ => None) Stun.Demo.tx "0011223344556677" secret key (Sign key snap) (Hour + Minute))
    as (_ & Hb & _).
  - reflexivity.
  - simpl. lia.
  - apply Hb.
    + reflexivity.
    + vm_compute. discriminate.
    + vm_compute. reflexivity.
Defined.

(** An invite without a coordinator address is issued, and refused by every reader. *)
Definition unaddressed : Invite := MkInvite "" "0011223344556677" secret (repeat "p"%char 32) [] [].
Example empty_coordinator_encodes :
  is_ok (EncodeInvite unaddressed) = true /\
  match EncodeInvite unaddressed with Ok s => DecodeInvite s = Err BadInviteLength | Err _ => False end.
Proof. vm_compute. split; reflexivity. Qed.
