(* ===== verification/CoordState.v ===== *)
(** * The coordinator's data: messages, registries, configuration and inputs

    From [cmd/coordinator/main.go], [assign.go], [idempotency.go], [geo.go] and
    [devicecred.go]. The registries are the package-level maps every handler works on
    under one mutex, so a handler is a function of the state. What a handler takes from
    outside (clock readings, random identifiers, the order in which Go walks a map) is an
    input; what it sends is an output. Log lines are not modelled. *)

From S2P Require Import ASN.
From S2P Require Import Prelude GoStrings Crypto Version Admission Accounting DeviceCred Capacity.
From S2P Require Import Estimator Rating Policy PolicyGate Net GeoIP.
Local Open Scope Z_scope.

Definition ttl : Duration := 35 * Second.
Definition sessionTTL : Duration := 2 * Minute.
Definition answerGrace : Duration := 30 * Second.
Definition snapshotTTL : Duration := 5 * Minute.

(** ** Messages *)

Record countryInfo := MkCountryInfo { ci_Country : string; Exits : Z; Available : Z; Busy : bool; PingMs : Z }.

#[export] Instance countryInfo_eq_dec : EqDecision countryInfo.
Proof. solve_decision. Defined.

Record wire := MkWire {
  Type_ : string;
  Role : string;
  ID : string;
  Country : string;
  Addr : string;
  Mode : string;
  Session : string;
  ExitID : string;
  FirstHop : string;
  Nonce : string;
  ExcludeSessions : list string;
  ExitAddr : string;
  Countries : list countryInfo;
  SDP : string;
  Cand : bytes;
  Magic : string;
  w_Version : Z;
  Capabilities : list string;
  Reason : string;
  Cred : string;
  Release : string;
  Build : string;
  Relay : string;
  RelayTag : string;
  IngressPort : Z;
  w_SpeedCap : Z;
  DeclaredQuotaBytes : Z;
  SessionCapBps : Z;
  QuotaState : string;
  w_Receipt : option Receipt;
  ReportSig : bytes;
  Challenge : string;
  w_DeviceCred : string;
  w_IssuerCert : string;
  DeviceAssert : string;
}.

Definition zero_wire : wire :=
  MkWire "" "" "" "" "" "" "" "" "" "" [] "" [] "" [] "" 0 [] "" "" "" "" "" "" 0 0 0 0 "" None [] "" "" "" "".

(** The coordinator's own messages, with the fields each sets. *)
Definition msg_reject (reason : string) : wire :=
  MkWire "reject" "" "" "" "" "" "" "" "" "" [] "" [] "" [] "" 0 [] reason "" "" "" "" "" 0 0 0 0 "" None [] "" "" "" "".
Definition msg_error (reason country : string) : wire :=
  MkWire "error" "" "" country "" "" "" "" "" "" [] "" [] "" [] "" 0 [] reason "" "" "" "" "" 0 0 0 0 "" None [] "" "" "" "".
Definition msg_countries (cs : list countryInfo) (release : string) : wire :=
  MkWire "countries" "" "" "" "" "" "" "" "" "" [] "" cs "" [] "" 0 [] "" "" release "" "" "" 0 0 0 0 "" None [] "" "" "" "".
Definition msg_challenge (c : string) : wire :=
  MkWire "challenge" "" "" "" "" "" "" "" "" "" [] "" [] "" [] "" 0 [] "" "" "" "" "" "" 0 0 0 0 "" None [] c "" "" "".
Definition msg_assign (sid exitAddr : string) (cap : Z) : wire :=
  MkWire "assign" "" "" "" "" "" sid "" "" "" [] exitAddr [] "" [] "" 0 [] "" "" "" "" "" "" 0 0 0 cap "" None [] "" "" "" "".
Definition msg_session (sid exitID relay tag release : string) : wire :=
  MkWire "session" "" "" "" "" "" sid exitID "" "" [] "" [] "" [] "" 0 [] "" "" release "" relay tag 0 0 0 0 "" None [] "" "" "" "".
Definition msg_reselect (sid : string) : wire :=
  MkWire "reselect" "" "" "" "" "" sid "" "" "" [] "" [] "" [] "" 0 [] "" "" "" "" "" "" 0 0 0 0 "" None [] "" "" "" "".

(** [m.Cred = c] and [m.IssuerCert = c] *)
Definition set_creds (m : wire) (cred issuerCert : string) : wire :=
  MkWire (Type_ m) (Role m) (ID m) (Country m) (Addr m) (Mode m) (Session m) (ExitID m) (FirstHop m)
    (Nonce m) (ExcludeSessions m) (ExitAddr m) (Countries m) (SDP m) (Cand m) (Magic m) (w_Version m)
    (Capabilities m) (Reason m) cred (Release m) (Build m) (Relay m) (RelayTag m) (IngressPort m)
    (w_SpeedCap m) (DeclaredQuotaBytes m) (SessionCapBps m) (QuotaState m) (w_Receipt m) (ReportSig m)
    (Challenge m) (w_DeviceCred m) issuerCert (DeviceAssert m).

Definition quotaExhausted : string := "exhausted".
Definition relayPeer : string := "peer".
Definition relayTURN : string := "turn".

(** ** Registries *)

Record forwarderHealth := MkHealth { release : string; silentWarned : bool }.

Definition carryHealth (prior : option forwarderHealth) (rel : string) : forwarderHealth :=
  MkHealth rel (match prior with Some p => silentWarned p | None => false end).

(** [countryClaims]: [displaced] only feeds a log line. *)
Record countryClaims := MkClaims { derived : string; source : string; declared : string }.

Record relayNode := MkRelay {
  r_health : forwarderHealth;
  r_id : string;
  r_addr : UDPAddr;
  ingressPort : Z;
  r_speedCap : Z;
  r_declaredQuota : Z;
  r_exhausted : bool;
  r_lastSeen : Time;
  r_claims : countryClaims;
}.

Record exitNode := MkExit {
  e_health : forwarderHealth;
  e_id : string;
  tcpAddr : string;
  udp : option UDPAddr;
  e_speedCap : Z;
  e_declaredQuota : Z;
  e_exhausted : bool;
  e_lastSeen : Time;
  e_claims : countryClaims;
}.
Definition e_country (e : exitNode) : string := derived (e_claims e).

Record session := MkSession {
  client : UDPAddr;
  peer : UDPAddr;
  relayID : string;
  s_exitID : string;
  signaled : bool;
  answered : bool;
  s_lastSeen : Time;
}.

Record mintedConnect := MkMinted { mc_peer : option UDPAddr; mc_assign : wire; mc_reply : wire; mc_at : Time }.

Record pendingChallenge := MkPending {
  value : bytes;
  expires : Time;
  spentBy : string;
  spent : bool;
  pc_cred : string;
  pc_issuerCert : string;
}.
Record challengeStore := MkChallengeStore {
  ch_entries : gmap string pendingChallenge;
  ch_capacity : Z;
  lastSweep : Time;
  atCapacity : bool;
}.

Record state := MkState {
  relays : gmap string relayNode;
  exits : gmap string exitNode;
  sessions : gmap string session;
  mintedConnects : gmap string mintedConnect;
  challenges : challengeStore;
  ratings : option RatingStore;
}.

Definition set_relays (s : state) (m : gmap string relayNode) : state :=
  MkState m (exits s) (sessions s) (mintedConnects s) (challenges s) (ratings s).
Definition set_exits (s : state) (m : gmap string exitNode) : state :=
  MkState (relays s) m (sessions s) (mintedConnects s) (challenges s) (ratings s).
Definition set_sessions (s : state) (m : gmap string session) : state :=
  MkState (relays s) (exits s) m (mintedConnects s) (challenges s) (ratings s).
Definition set_minted (s : state) (m : gmap string mintedConnect) : state :=
  MkState (relays s) (exits s) (sessions s) m (challenges s) (ratings s).
Definition set_challenges (s : state) (c : challengeStore) : state :=
  MkState (relays s) (exits s) (sessions s) (mintedConnects s) c (ratings s).
Definition set_ratings (s : state) (r : option RatingStore) : state :=
  MkState (relays s) (exits s) (sessions s) (mintedConnects s) (challenges s) r.

(** ** Configuration and the values other loops publish *)

(** Refusals whose text is formatted for a human. *)
Inductive Refusal :=
| AdmissionRefused (e : Admission.Error)
| DeviceRefused (e : DeviceCred.Error)
| NoValidRelease (release : string) (floor : Version.Version)
| ReleaseTooOld (node floor : Version.Version)
| QuotaBelowFloor (declared floor : Z)
| MeasuredBelowFloor (measured floor : Z).

Record Config := MkConfig {
  admissionVerifier : option Admission.Verifier;
  deviceVerifier : option DeviceCred.Verifier;
  deviceAudience : string;
  servingFloor : Version.Version;
  coordRelease : string;
  policyState : policyGate;
  geoDB : option DB;
  requireGeoIP : bool;
  countryOverrides : option (gmap string string);
  minShare : Rate;
  serveFloor : Rate;
  exitClass : option (string -> option Z);
  text : Refusal -> string;
  asnTable : option ASN.Table;
}.

(** ** Inputs of one handler call *)

Record Clock := MkClock {
  t_handle : Time;       (** [handle] *)
  t_cred : Time;         (** [admissionCredFor] *)
  t_issuer : Time;       (** [issuerCertFor] *)
  t_admit : Time;        (** [admit] *)
  t_stash : Time;        (** [stashIssuerCert] *)
  t_issue : Time;        (** [issueDeviceChallenge] *)
  t_spend : Time;        (** [admitDevice], spending *)
  t_verify : Time;       (** [admitDevice], verifying *)
  t_pick : Time;         (** [pickRelay] *)
  t_capacity : Time;     (** [capacityNow] *)
}.

Record Inputs := MkInputs {
  clock : Clock;
  rand_id : string;                                              (** [randID] *)
  rand_challenge : option bytes;                                 (** [rand.Read] in [issue] *)
  exit_order : gmap string exitNode -> list (string * exitNode);   (** [range exits] *)
  relay_order : gmap string relayNode -> list (string * relayNode); (** [range relays] *)
}.

(** Go walks every entry of a map once, in any order. *)
Record walks_all (i : Inputs) : Prop := {
  walks_exits : forall m, exit_order i m ≡ₚ map_to_list m;
  walks_relays : forall m, relay_order i m ≡ₚ map_to_list m;
}.

Abbreviation sent := (list (UDPAddr * wire)) (only parsing).

(** ** A small configuration for the concrete runs *)

Module CoordDemo.
Definition cfg : Config := {|
  admissionVerifier := None; deviceVerifier := None; deviceAudience := "coord";
  servingFloor := MkVersion 0 0 0; coordRelease := "1.0.0"; policyState := MkGate false None;
  geoDB := None; requireGeoIP := false; countryOverrides := None; minShare := 0; serveFloor := 0;
  exitClass := None; text := fun _ => "refused"; asnTable := None |}.
Definition at_time (t : Time) : Clock := MkClock t t t t t t t t t t.
Definition inputs (t : Time) (id : string) : Inputs :=
  MkInputs (at_time t) id (Some (repeat "c"%char 32)) map_to_list map_to_list.
Definition ip (a b c d : Z) (port : Z) : UDPAddr := MkUDPAddr (byte_of <$> [a; b; c; d]) port "".
Definition empty_store : challengeStore := MkChallengeStore ∅ 0 time_zero false.
Definition state0 : state := MkState ∅ ∅ ∅ ∅ empty_store None.
Lemma inputs_walk t id : walks_all (inputs t id).
Proof. by split. Qed.
End CoordDemo.
