(* ===== verification/Challenges.v ===== *)
(** * Device challenges: [cmd/coordinator/devicecred.go]

    The store of challenges handed out and not yet expired, and the device gate of a
    connect that spends them. A challenge answers one request: the first connect to
    present it binds it to its nonce. *)

From stdpp Require Import relations.
From S2P Require Import Prelude GoStrings Base64 Crypto DeviceCred Net CoordState.
Local Open Scope Z_scope.

Definition deviceChallengeLen : nat := 32.
Definition deviceChallengeTTL : Duration := 2 * Minute.
Definition maxPendingChallenges : Z := 65536.
Definition maxStashedIssuerCert : Z := 1024.
Definition atCapacitySweep : Duration := Second.

Definition cap (s : challengeStore) : Z := if 0 <? ch_capacity s then ch_capacity s else maxPendingChallenges.

Definition len (s : challengeStore) : Z := Z.of_nat (size (ch_entries s)).

Definition sweepLocked (s : challengeStore) (now : Time) : challengeStore :=
  MkChallengeStore (filter (fun kv => Before now (expires kv.2)) (ch_entries s))
    (ch_capacity s) (lastSweep s) (atCapacity s).

(** [issue]: [v] is what [rand.Read] filled, [None] when it failed. *)
Definition issue (s : challengeStore) (key cred issuerCert : string) (now : Time) (v : option bytes)
    : challengeStore * option bytes :=
  match v with
  | None => (s, None)
  | Some v =>
      let put s := (MkChallengeStore
                      (<[key := MkPending v (time_Add now deviceChallengeTTL) "" false cred issuerCert]> (ch_entries s))
                      (ch_capacity s) (lastSweep s) false, Some v) in
      if bool_decide (ch_entries s !! key = None) && (cap s <=? len s) then
        let s :=
          if atCapacitySweep <=? time_Sub now (lastSweep s)
          then sweepLocked (MkChallengeStore (ch_entries s) (ch_capacity s) now (atCapacity s)) now
          else s in
        if cap s <=? len s
        then (MkChallengeStore (ch_entries s) (ch_capacity s) (lastSweep s) true, None)
        else put s
      else put s
  end.

(** The live entry of a key. *)
Definition live (s : challengeStore) (key : string) (now : Time) : option pendingChallenge :=
  e ← ch_entries s !! key; if Before now (expires e) then Some e else None.

Definition stashedCred (s : challengeStore) (key : string) (now : Time) : string :=
  match live s key now with Some e => pc_cred e | None => "" end.
Definition stashedIssuerCert (s : challengeStore) (key : string) (now : Time) : string :=
  match live s key now with Some e => pc_issuerCert e | None => "" end.

Definition spend (s : challengeStore) (key nonce : string) (now : Time)
    : challengeStore * option bytes :=
  match live s key now with
  | None => (s, None)
  | Some e =>
      if spent e then
        if String.eqb (spentBy e) "" || String.eqb nonce "" || negb (String.eqb (spentBy e) nonce)
        then (s, None) else (s, Some (value e))
      else
        (MkChallengeStore
           (<[key := MkPending (value e) (expires e) nonce true (pc_cred e) (pc_issuerCert e)]> (ch_entries s))
           (ch_capacity s) (lastSweep s) (atCapacity s), Some (value e))
  end.

Definition drop_challenge (s : challengeStore) (key : string) : challengeStore :=
  MkChallengeStore (delete key (ch_entries s)) (ch_capacity s) (lastSweep s) (atCapacity s).

(** ** The handlers' side *)

Definition challengeKey (src : UDPAddr) : string := UDPAddr_String src.

Section Gate.
Context `{Ed25519} `{JSON IssuerCert} `{JSON DeviceCredential}.

Definition stashCred (cfg : Config) (cred : string) : string :=
  match admissionVerifier cfg with None => "" | Some _ => cred end.

Definition stashIssuerCert (cfg : Config) (issuerCert : string) (now : Time) : string :=
  match deviceVerifier cfg with
  | None => ""
  | Some v =>
      if String.eqb issuerCert "" || (maxStashedIssuerCert <? Z.of_nat (String.length issuerCert)) then ""
      else match DecodeIssuerCert issuerCert with
           | Err _ => ""
           | Ok signed => if is_ok (Verifier_VerifyIssuerCert v signed now) then issuerCert else ""
           end
  end.

(** [issueDeviceChallenge]: the text of the challenge, [""] for none. *)
Definition issueDeviceChallenge (cfg : Config) (s : challengeStore) (src : UDPAddr) (cred issuerCert : string)
    (i : Inputs) : challengeStore * string :=
  match deviceVerifier cfg with
  | None => (s, "")
  | Some _ =>
      let '(s, v) := issue s (challengeKey src) (stashCred cfg cred)
                       (stashIssuerCert cfg issuerCert (t_stash (clock i))) (t_issue (clock i))
                       (rand_challenge i) in
      match v with None => (s, "") | Some v => (s, EncodeToString StdEncoding v) end
  end.

Definition admissionCredFor (s : challengeStore) (m : wire) (src : UDPAddr) (now : Time) : string :=
  if negb (String.eqb (Cred m) "") then Cred m else stashedCred s (challengeKey src) now.
Definition issuerCertFor (s : challengeStore) (m : wire) (src : UDPAddr) (now : Time) : string :=
  if negb (String.eqb (w_IssuerCert m) "") then w_IssuerCert m else stashedIssuerCert s (challengeKey src) now.

(** Why the gate rejects. *)
Inductive GateError := NoChallenge | WrongChallenge | BadAssertionEncoding | Refused (e : DeviceCred.Error).

(** The checks of [admitDevice] after the challenge was spent. *)
Definition check_presentation (v : DeviceCred.Verifier) (audience : string) (m : wire) (issued : bytes)
    (now : Time) : result GateError DeviceCredential :=
  match DecodeString StdEncoding (Challenge m) with
  | None => Err WrongChallenge
  | Some echoed =>
      check! fail_if (negb (bool_decide (echoed = issued))) WrongChallenge;
      let? assertion := of_option BadAssertionEncoding (DecodeString StdEncoding (DeviceAssert m)) in
      let? p := map_err Refused (ParsePresentation (w_DeviceCred m) (w_IssuerCert m) assertion) in
      map_err Refused (DeviceCred.Verify v p now audience issued)
  end.

(** [admitDevice]: a rejection drops the challenge; the reply is the caller's. *)
Definition admitDevice (cfg : Config) (s : challengeStore) (m : wire) (src : UDPAddr) (i : Inputs)
    : challengeStore * result GateError unit :=
  match deviceVerifier cfg with
  | None => (s, Ok tt)
  | Some v =>
      let key := challengeKey src in
      match spend s key (Nonce m) (t_spend (clock i)) with
      | (s, None) => (drop_challenge s key, Err NoChallenge)
      | (s, Some issued) =>
          match check_presentation v (deviceAudience cfg) m issued (t_verify (clock i)) with
          | Err e => (drop_challenge s key, Err e)
          | Ok _ => (s, Ok tt)
          end
      end
  end.
End Gate.

(** ** Bounded, and each challenge answers one request *)

Inductive StoreOp :=
| OpIssue (key cred issuerCert : string) (now : Time) (v : option bytes)
| OpSpend (key nonce : string) (now : Time)
| OpDrop (key : string)
| OpSweep (now : Time).

Definition run_op (s : challengeStore) (op : StoreOp) : challengeStore * option bytes :=
  match op with
  | OpIssue key cred cert now v => issue s key cred cert now v
  | OpSpend key nonce now => spend s key nonce now
  | OpDrop key => (drop_challenge s key, None)
  | OpSweep now => (sweepLocked s now, None)
  end.

Lemma sweepLocked_le s now : (size (ch_entries (sweepLocked s now)) <= size (ch_entries s))%nat.
Proof.
  simpl. rewrite <-!size_dom. apply subseteq_size. apply dom_filter_subseteq.
Qed.

Lemma issue_bounded s key cred cert now v :
  len s <= cap s -> cap (issue s key cred cert now v).1 = cap s /\ len (issue s key cred cert now v).1 <= cap s.
Proof.
  intros Hb. unfold issue. destruct v as [v|]; [|done].
  destruct (bool_decide_reflect (ch_entries s !! key = None)) as [Hn|Hn]; simpl.
  2:{ split; [done|]. unfold len in *. simpl.
      destruct (ch_entries s !! key) eqn:Hk; [|done]. by rewrite map_size_insert_Some by eauto. }
  destruct (Z.leb_spec (cap s) (len s)) as [Hfull|Hfree].
  - set (s1 := if _ <=? _ then _ else s).
    assert (ch_capacity s1 = ch_capacity s /\ len s1 <= len s /\ ch_entries s1 !! key = None) as (Hc & Hl & Hk).
    { subst s1. case_match; [|done]. unfold len. split_and!; [done| |].
      - pose proof (sweepLocked_le (MkChallengeStore (ch_entries s) (ch_capacity s) now (atCapacity s)) now).
        simpl in *. lia.
      - simpl. by apply map_lookup_filter_None_2; left. }
    unfold cap in *. rewrite Hc. destruct (Z.leb_spec (if 0 <? ch_capacity s then ch_capacity s else maxPendingChallenges) (len s1)); simpl; rewrite ?Hc.
    + split; [done|]. unfold len in *. simpl. lia.
    + split; [done|]. unfold len in *. simpl. rewrite map_size_insert_None by done. lia.
  - split; [done|]. unfold len in *. simpl. rewrite map_size_insert_None by done. lia.
Qed.

Lemma run_op_bounded s op : len s <= cap s -> cap (run_op s op).1 = cap s /\ len (run_op s op).1 <= cap s.
Proof.
  intros Hb. destruct op as [key cred cert now v|key nonce now|key|now]; simpl.
  - by apply issue_bounded.
  - unfold spend, live. destruct (ch_entries s !! key) as [e|] eqn:He; simpl; [|done].
    destruct (Before now (expires e)); simpl; [|done]. destruct (spent e); [by case_match|].
    split; [done|]. unfold len in *. simpl. by rewrite map_size_insert_Some by eauto.
  - split; [done|]. unfold len in *. simpl. rewrite map_size_delete.
    unfold id. destruct (ch_entries s !! key); lia.
  - split; [done|]. unfold len in *. pose proof (sweepLocked_le s now). lia.
Qed.

(** The store never holds more challenges than its capacity (65536 by default),
    whatever is issued, spent, dropped and swept in any order at any time. *)
Theorem challenges_bounded capacity ops :
  let s := foldl (fun s op => (run_op s op).1) (MkChallengeStore ∅ capacity time_zero false) ops in
  len s <= (if 0 <? capacity then capacity else maxPendingChallenges).
Proof.
  cbv zeta. change (if 0 <? capacity then capacity else maxPendingChallenges)
    with (cap (MkChallengeStore ∅ capacity time_zero false)).
  set (s0 := MkChallengeStore _ _ _ _).
  assert (len s0 <= cap s0) as Hs0.
  { subst s0. unfold len, cap, maxPendingChallenges. simpl. rewrite map_size_empty.
    destruct (Z.ltb_spec 0 capacity); lia. }
  generalize dependent s0. induction ops as [|op ops IH]; intros s0 Hs0; simpl; [done|].
  destruct (run_op_bounded s0 op Hs0) as [Hc Hl]. rewrite <-Hc in *. apply IH. lia.
Qed.

Definition issues (key : string) (op : StoreOp) : Prop :=
  match op with OpIssue k _ _ _ _ => k = key | _ => False end.

(** The key's entry, if there is one, is bound to [nonce] with value [v]. *)
Definition bound_to (key nonce : string) (v : bytes) (s : challengeStore) : Prop :=
  forall e, ch_entries s !! key = Some e -> spent e = true /\ spentBy e = nonce /\ value e = v.

Lemma spend_binds s key nonce now s' v :
  spend s key nonce now = (s', Some v) -> bound_to key nonce v s'.
Proof.
  unfold spend, live. destruct (ch_entries s !! key) as [e|] eqn:He; simpl; [|done].
  destruct (Before now (expires e)); [|done]. destruct (spent e) eqn:Hs.
  - case_match eqn:Hg; [done|]. intros [= <- <-] e'. rewrite He. intros [= <-]. b2p. done.
  - intros [= <- <-] e'. simpl. rewrite lookup_insert_eq. by intros [= <-].
Qed.

Lemma run_op_bound key nonce v s op :
  ~ issues key op -> bound_to key nonce v s -> bound_to key nonce v (run_op s op).1.
Proof.
  intros Hni Hb. destruct op as [k cred cert now x|k n now|k|now]; simpl in *.
  - unfold issue. destruct x as [x|]; [|done].
    repeat case_match; intros e; simpl; rewrite ?lookup_insert_ne by congruence; try apply Hb;
      intros [??]%map_lookup_filter_Some; by apply Hb.
  - unfold spend, live. destruct (ch_entries s !! k) as [e|] eqn:He; simpl; [|done].
    destruct (Before now (expires e)); [|done]. destruct (spent e) eqn:Hs; [by case_match|].
    intros e'. simpl. destruct (decide (k = key)) as [->|Hk]; [|rewrite lookup_insert_ne by done; apply Hb].
    destruct (Hb e He) as [? _]. congruence.
  - intros e. simpl. intros [_ ?]%lookup_delete_Some. by apply Hb.
  - intros e. simpl. intros [??]%map_lookup_filter_Some. by apply Hb.
Qed.

(** A challenge answers exactly one request. Once a connect has spent the challenge
    of an address, then until a new one is issued to that address, through any other
    operations on the store, it can only be spent again by a retransmission of the
    same connect: with the same, non-empty nonce, and it is the same challenge. *)
Theorem challenge_answers_one_request s key nonce now s1 v ops nonce' now' s2 v' :
  spend s key nonce now = (s1, Some v) ->
  Forall (fun op => ~ issues key op) ops ->
  spend (foldl (fun s op => (run_op s op).1) s1 ops) key nonce' now' = (s2, Some v') ->
  nonce' = nonce /\ nonce <> "" /\ v' = v.
Proof.
  intros Hs Hops Hs'. apply spend_binds in Hs.
  assert (bound_to key nonce v (foldl (fun s op => (run_op s op).1) s1 ops)) as Hb.
  { revert s1 Hs Hs'. induction Hops as [|op ops Hop _ IH]; intros s1 Hs Hs'; simpl; [done|].
    apply IH; [by apply run_op_bound|done]. }
  unfold spend, live in Hs'. destruct (ch_entries _ !! key) as [e|] eqn:He; simpl in Hs'; [|done].
  destruct (Before now' (expires e)); [|done]. destruct (Hb e He) as (Hsp & <- & <-). rewrite Hsp in Hs'.
  case_match eqn:Hg; [done|]. injection Hs' as <- <-. b2p. done.
Qed.

(** ** The device gate *)

Section GateProofs.
Context `{Ed25519} `{JSON IssuerCert} `{JSON DeviceCredential}.

(** C33: with the device gate on, a connect passes only if this coordinator holds an
    unexpired challenge for its source address, the connect echoes exactly that
    challenge, and its credential chain and assertion verify for this coordinator's
    audience over that challenge; any rejection also withdraws the challenge. *)
Theorem admitDevice_sound cfg v s m src i s' r :
  deviceVerifier cfg = Some v -> admitDevice cfg s m src i = (s', r) ->
  (r = Ok tt ->
   exists e p cred, ch_entries s !! challengeKey src = Some e /\ t_spend (clock i) < expires e /\
     (spent e = true -> spentBy e = Nonce m /\ Nonce m <> "") /\
     DecodeString StdEncoding (Challenge m) = Some (value e) /\
     DeviceCred.Verify v p (t_verify (clock i)) (deviceAudience cfg) (value e) = Ok cred) /\
  (r <> Ok tt -> ch_entries s' !! challengeKey src = None).
Proof.
  intros Hv Ha. unfold admitDevice in Ha. rewrite Hv in Ha.
  destruct (spend s (challengeKey src) (Nonce m) (t_spend (clock i))) as [s1 [issued|]] eqn:Hs.
  2:{ injection Ha as <- <-. split; [done|]. intros _. simpl. apply lookup_delete_eq. }
  destruct (check_presentation _ _ _ _ _) as [cred|err] eqn:Hc; injection Ha as <- <-.
  2:{ split; [done|]. intros _. simpl. apply lookup_delete_eq. }
  split; [|done]. intros _. unfold check_presentation in Hc.
  destruct (DecodeString StdEncoding (Challenge m)) as [echoed|]; [|done]. inv_result. b2p. subst echoed.
  unfold spend, live in Hs. destruct (ch_entries s !! challengeKey src) as [e|] eqn:He; simpl in Hs; [|done].
  unfold Before in Hs. destruct (Z.ltb_spec (t_spend (clock i)) (expires e)); simpl in Hs; [|done].
  exists e. destruct (spent e) eqn:Hsp.
  - case_match eqn:Hg; [done|]. injection Hs as <- <-. b2p. do 2 eexists. split_and!; try done.
  - injection Hs as <- <-. do 2 eexists. split_and!; done.
Qed.
End GateProofs.

(** ** Witnesses *)

Module Demo.
Import Toy DeviceCred.Demo CoordDemo.
Definition src : UDPAddr := ip 8 8 8 8 5000.
Definition store1 : challengeStore := (issue empty_store (challengeKey src) "" "" Hour (Some challenge)).1.
Definition store2 : challengeStore := (spend store1 (challengeKey src) "n1" (Hour + Second)).1.
Definition gate_cfg : Config := {|
  admissionVerifier := None; deviceVerifier := Some DeviceCred.Demo.verifier; deviceAudience := "coord";
  servingFloor := Version.MkVersion 0 0 0; coordRelease := "1.0.0"; policyState := PolicyGate.MkGate false None;
  geoDB := None; requireGeoIP := false; countryOverrides := None; minShare := 0; serveFloor := 0;
  exitClass := None; text := fun _ => "refused"; asnTable := None |}.
Definition connect : wire :=
  MkWire "connect" "" "" "SE" "" "direct" "" "" "" "n1" [] "" [] "" [] "" 0 [] "" "" "" "" "" "" 0 0 0 0 "" None []
    (EncodeToString StdEncoding challenge) (EncodeDeviceCredential (p_Credential presented))
    (EncodeIssuerCert (p_IssuerCert presented)) (EncodeToString StdEncoding (p_Assertion presented)).
Definition i : Inputs := inputs (Hour + Second) "s1".
End Demo.
Import Toy DeviceCred.Demo CoordDemo Demo.

Lemma challenge_answers_one_request_witness : "n1" = "n1" /\ "n1" <> "" /\ challenge = challenge.
Proof.
  refine (challenge_answers_one_request store1 (challengeKey Demo.src) "n1" (Hour + Second) store2 challenge
    [OpSweep (Hour + Second)] "n1" (Hour + 2 * Second) store2 challenge _ _ _).
  - vm_compute. reflexivity.
  - repeat constructor. intros [].
  - vm_compute. reflexivity.
Defined.

Lemma admitDevice_sound_witness :
  (Ok tt = @Ok GateError unit tt ->
   exists e p cred, ch_entries store1 !! challengeKey Demo.src = Some e /\ t_spend (clock Demo.i) < expires e /\
     (spent e = true -> spentBy e = Nonce connect /\ Nonce connect <> "") /\
     DecodeString StdEncoding (Challenge connect) = Some (value e) /\
     DeviceCred.Verify DeviceCred.Demo.verifier p (t_verify (clock Demo.i)) (deviceAudience gate_cfg) (value e) = Ok cred) /\
  (Ok tt <> @Ok GateError unit tt -> ch_entries store2 !! challengeKey Demo.src = None).
Proof.
  apply (admitDevice_sound gate_cfg DeviceCred.Demo.verifier store1 connect Demo.src Demo.i store2 (Ok tt)).
  - reflexivity.
  - vm_compute. reflexivity.
Defined.
