(* ===== verification/Geo.v ===== *)
(** * A node's country: [cmd/coordinator/geo.go]

    The country a node is tagged with: resolved from the address its packets come from,
    corroborated for an exit by the endpoint it advertises, falling back to its own
    claim unless [-geoip-required] is set, and corrected by an admin override. *)

From S2P Require Import Prelude GoStrings Crypto Net GeoIP CoordState.
Local Open Scope Z_scope.

Definition countryObserved : string := "observed".
Definition countryHinted : string := "hint".
Definition countryUnknown : string := "".
Definition countrySplit : string := "observed-signaling-only".
Definition countryNoEndpoint : string := "unverifiable-no-endpoint".
Definition countryOverride : string := "admin-override".

Section Geo.
Context (cfg : Config).

Definition derivedCountry (src : UDPAddr) (hint : string) : countryClaims :=
  let declared := Canonical hint in
  let fallback :=
    if requireGeoIP cfg then MkClaims "" "" declared
    else if String.eqb declared "" then MkClaims "" "" declared
    else MkClaims declared countryHinted declared in
  match LookupAddr (geoDB cfg) (addr_IP src) with
  | Some cc => if String.eqb (Canonical cc) "" then fallback
               else MkClaims (Canonical cc) countryObserved declared
  | None => fallback
  end.

Definition countryOverrideFor (id : string) : string :=
  match countryOverrides cfg with None => "" | Some m => default "" (m !! id) end.

Definition applyCountryOverride (id : string) (c : countryClaims) : countryClaims :=
  let cc := countryOverrideFor id in
  if String.eqb cc "" then c else MkClaims cc countryOverride (declared c).

Inductive endpointVerdict := endpointAgrees | endpointDisagrees | endpointAbsent.

Definition exitEndpoint (advertised : string) (src : UDPAddr) : endpointVerdict :=
  if String.eqb advertised "" then endpointAbsent
  else
    let host := match SplitHostPort advertised with Some (h, _) => h | None => advertised end in
    match ParseIP (TrimSpace host) with
    | None => endpointDisagrees
    | Some ip => if IP_Equal ip (addr_IP src) then endpointAgrees else endpointDisagrees
    end.

Definition derivedExitCountry (src : UDPAddr) (hint advertised : string) : countryClaims :=
  let c := derivedCountry src hint in
  if negb (String.eqb (source c) countryObserved) then c
  else match exitEndpoint advertised src with
       | endpointAgrees => c
       | endpointAbsent => if requireGeoIP cfg then MkClaims countryUnknown countryNoEndpoint (declared c) else c
       | endpointDisagrees =>
           MkClaims (if requireGeoIP cfg then countryUnknown else derived c) countrySplit (declared c)
       end.

Definition deriveCountry (id : string) (src : UDPAddr) (hint : string) : countryClaims :=
  applyCountryOverride id (derivedCountry src hint).
Definition deriveExitCountry (id : string) (src : UDPAddr) (hint advertised : string) : countryClaims :=
  applyCountryOverride id (derivedExitCountry src hint advertised).

Definition rederiveHint (stored : countryClaims) : string :=
  if String.eqb (source stored) countryHinted then derived stored else "".

Definition with_declared (c : countryClaims) (d : string) : countryClaims := MkClaims (derived c) (source c) d.

Definition rederiveCountry (id : string) (src : UDPAddr) (stored : countryClaims) : countryClaims :=
  with_declared (deriveCountry id src (rederiveHint stored)) (declared stored).
Definition rederiveExitCountry (id : string) (src : UDPAddr) (advertised : string) (stored : countryClaims)
    : countryClaims :=
  with_declared (deriveExitCountry id src (rederiveHint stored) advertised) (declared stored).

Definition publishedDeclaration (d : string) : string := if requireGeoIP cfg then "" else d.
End Geo.

(** ** The admin's overrides *)

Inductive OverridesError := OverridesRead | OverridesParse | EmptyNodeID | BadCountry (id : string).

(** What a read of the file gives. *)
Inductive FileRead := NoFile | ReadError | Content (b : bytes).

(** Every entry is checked; one bad entry refuses the file (which of several bad
    entries the error names depends on Go's map order). *)
Definition checkOverrides (raw : gmap string string) : result OverridesError (gmap string string) :=
  map_fold (fun id cc acc =>
    let? out := acc in
    check! fail_if (String.eqb (TrimSpace id) "") EmptyNodeID;
    check! fail_if (String.eqb (Canonical cc) "") (BadCountry id);
    Ok (<[id := Canonical cc]> out)) (Ok ∅) raw.

Definition loadCountryOverrides `{JSON (gmap string string)} (path : string) (f : FileRead)
    : result OverridesError (gmap string string) :=
  if String.eqb path "" then Ok ∅
  else match f with
       | NoFile => Ok ∅
       | ReadError => Err OverridesRead
       | Content b => let? raw := of_option OverridesParse (Unmarshal b) in checkOverrides raw
       end.

(** A file that does not load keeps what is in effect. *)
Definition reloadCountryOverrides `{JSON (gmap string string)} (path : string) (f : FileRead)
    (current : option (gmap string string)) : option (gmap string string) :=
  match loadCountryOverrides path f with
  | Err _ => current
  | Ok next => if bool_decide (default ∅ current = next) then current else Some next
  end.

(** ** No self-report decides a country under [-geoip-required] *)

(** The country the coordinator saw for itself. *)
Definition observed (cfg : Config) (src : UDPAddr) (cc : string) : Prop :=
  exists raw, LookupAddr (geoDB cfg) (addr_IP src) = Some raw /\ Canonical raw = cc /\ cc <> "".

Lemma derivedCountry_required cfg src hint :
  requireGeoIP cfg = true ->
  (derived (derivedCountry cfg src hint) = "" /\ source (derivedCountry cfg src hint) = "") \/
  (observed cfg src (derived (derivedCountry cfg src hint)) /\
   source (derivedCountry cfg src hint) = countryObserved).
Proof.
  intros Hr. unfold derivedCountry, observed. rewrite Hr.
  destruct (LookupAddr _ _) as [raw|]; [|by left].
  destruct (String.eqb_spec (Canonical raw) ""); [by left|]. right. simpl. eauto.
Qed.

(** With [-geoip-required] and no admin override, nothing a node says can give it a
    country. For a relay or an exit, at registration and at every heartbeat, the
    country is empty or the one its observed source address resolves to; an exit's is
    in addition empty unless the endpoint it advertises is that very address. *)
Theorem required_country_is_observed cfg id src :
  requireGeoIP cfg = true -> countryOverrideFor cfg id = "" ->
  (forall hint, derived (deriveCountry cfg id src hint) <> "" ->
     observed cfg src (derived (deriveCountry cfg id src hint))) /\
  (forall stored, derived (rederiveCountry cfg id src stored) <> "" ->
     observed cfg src (derived (rederiveCountry cfg id src stored))) /\
  (forall hint advertised, derived (deriveExitCountry cfg id src hint advertised) <> "" ->
     observed cfg src (derived (deriveExitCountry cfg id src hint advertised)) /\
     exitEndpoint advertised src = endpointAgrees) /\
  (forall stored advertised, derived (rederiveExitCountry cfg id src advertised stored) <> "" ->
     observed cfg src (derived (rederiveExitCountry cfg id src advertised stored)) /\
     exitEndpoint advertised src = endpointAgrees).
Proof.
  intros Hr Ho.
  assert (forall hint, derived (deriveCountry cfg id src hint) <> "" ->
     observed cfg src (derived (deriveCountry cfg id src hint))) as H1.
  { intros hint. unfold deriveCountry, applyCountryOverride. rewrite Ho. simpl.
    destruct (derivedCountry_required cfg src hint Hr) as [[-> _]|[? _]]; [done|auto]. }
  assert (forall hint advertised, derived (deriveExitCountry cfg id src hint advertised) <> "" ->
     observed cfg src (derived (deriveExitCountry cfg id src hint advertised)) /\
     exitEndpoint advertised src = endpointAgrees) as H2.
  { intros hint advertised. unfold deriveExitCountry, applyCountryOverride. rewrite Ho. simpl.
    unfold derivedExitCountry. rewrite Hr.
    destruct (derivedCountry_required cfg src hint Hr) as [[Hd Hs]|[Hd Hs]]; rewrite Hs; simpl; [done|].
    destruct (exitEndpoint advertised src); simpl; done. }
  split_and!; [done| |done|].
  - intros stored. unfold rederiveCountry. simpl. apply H1.
  - intros stored advertised. unfold rederiveExitCountry. simpl. apply H2.
Qed.

(** ** Witness *)

Module Demo.
Import CoordDemo GeoIP.Demo.
Definition geo_cfg : Config := {|
  admissionVerifier := None; deviceVerifier := None; deviceAudience := ""; servingFloor := Version.MkVersion 0 0 0;
  coordRelease := "1.0.0"; policyState := PolicyGate.MkGate false None; geoDB := Some db; requireGeoIP := true;
  countryOverrides := None; minShare := 0; serveFloor := 0; exitClass := None; text := fun _ => "";
  asnTable := None |}.
Definition src : UDPAddr := CoordDemo.ip 8 8 8 8 4000.
End Demo.
Import Demo.

Lemma required_country_is_observed_witness :
  derived (deriveExitCountry geo_cfg "e1" src "DE" "8.8.8.8:443") = "US" /\
  observed geo_cfg src (derived (deriveExitCountry geo_cfg "e1" src "DE" "8.8.8.8:443")) /\
  exitEndpoint "8.8.8.8:443" src = endpointAgrees.
Proof.
  assert (derived (deriveExitCountry geo_cfg "e1" src "DE" "8.8.8.8:443") = "US") as Hd by (vm_compute; reflexivity).
  split; [exact Hd|].
  assert (derived (deriveExitCountry geo_cfg "e1" src "DE" "8.8.8.8:443") <> "") as Hne
    by (rewrite Hd; discriminate).
  destruct (required_country_is_observed geo_cfg "e1" src eq_refl eq_refl) as (_ & _ & He & _).
  exact (He "DE" "8.8.8.8:443" Hne).
Defined.
