(* ===== verification/Assign.v ===== *)
(** * Choosing an exit: [cmd/coordinator/assign.go], [tier.go], the rating reads of
    [capacity_feed.go] and the serving fences of [main.go] and [policy.go]

    A client asks for a country and gets an exit: assignable for its tier, and with a
    projected share within an octave of the best. *)

From S2P Require Import Prelude GoStrings Crypto Version Admission Capacity Estimator Rating Policy PolicyGate.
From S2P Require Import Net GeoIP CoordState Geo.
Local Open Scope Z_scope.

(** ** Refusals *)

Abbreviation assignRefusal := string (only parsing).
Definition refuseNoCountry : assignRefusal := "no-such-country".
Definition refuseCountryBusy : assignRefusal := "country-busy".
Definition refuseNoHop : assignRefusal := "no-such-hop".
Definition refuseHopNotRelayMode : assignRefusal := "hop-needs-relay-mode".
Definition refuseNoNonce : assignRefusal := "connect-needs-nonce".
Definition refuseUnknownTier : assignRefusal := "unknown-tier".

Section Assign.
Context `{FloatPlatform}.
Context (cfg : Config) (rt : option RatingStore).

(** ** Tiers: [tier.go] *)

Definition resolveTier (cred : Credential) : result assignRefusal TierLimit :=
  if negb (policyEnabled (policyState cfg)) then Ok zero_TierLimit
  else match admissionVerifier cfg with
       | None => Ok zero_TierLimit
       | Some _ =>
           match currentPolicy (policyState cfg) with
           | None => Err refuseUnknownTier
           | Some p => match Limits p (Admission.Trust cred) (Admission.Plan cred) with
                       | Err _ => Err refuseUnknownTier
                       | Ok limit => Ok limit
                       end
           end
       end.

Definition tierMinShare (l : TierLimit) : Rate :=
  if Priority l <=? 1 then minShare cfg else minShare cfg / Priority l.

Definition meetsEndpointQuality (nodeID : string) (l : TierLimit) : bool :=
  if EndpointQuality l <=? 0 then true
  else match exitClass cfg with
       | None => true
       | Some f => match f nodeID with None => true | Some class => negb (class <? EndpointQuality l) end
       end.

(** ** Ratings: [capacity_feed.go], [assign.go] *)

Definition capacityParams : Params := DefaultParams.

Definition measuredUsable (nodeID : string) (declared : Z) : Z :=
  match rt with None => declared | Some r => RatingStore_Usable r nodeID declared end.

Definition meetsServeFloor (nodeID : string) (declared : Z) : bool :=
  serveFloor cfg <=? measuredUsable nodeID declared.

Definition exitRating (nodeID : string) (declared : Z) : Rate * bool :=
  match rt with
  | None => (declared, false)
  | Some r => (RatingStore_Usable r nodeID declared, bool_decide (is_Some (Measured r nodeID)))
  end.

(** ** The serving fences: [versionCheck], [meetsMeasuredFloor], [servingCheck] *)

Definition versionCheck (rel : string) : result Refusal unit :=
  let floor := policyServingFloor (policyState cfg) (servingFloor cfg) in
  if bool_decide (floor = MkVersion 0 0 0) then Ok tt
  else match Version.Parse rel with
       | Err _ => Err (NoValidRelease rel floor)
       | Ok nv => fail_if (negb (ServingAllowed nv floor)) (ReleaseTooOld nv floor)
       end.

Definition meetsMeasuredFloor (nodeID : string) : result Refusal unit :=
  let floor := policyMeasuredFloor (policyState cfg) in
  if floor =? 0 then Ok tt
  else match rt with
       | None => Ok tt
       | Some r => match TrustedRating r nodeID with
                   | None => Ok tt
                   | Some measured => fail_if (measured <? floor) (MeasuredBelowFloor measured floor)
                   end
       end.

Definition servingCheck (rel nodeID : string) (declaredQuota : Z) : result Refusal unit :=
  check! versionCheck rel;
  check! fail_if (negb (meetsDeclaredQuotaFloor (policyState cfg) declaredQuota))
           (QuotaBelowFloor declaredQuota (policyDeclaredQuotaFloor (policyState cfg)));
  meetsMeasuredFloor nodeID.

(** ** Load and candidates *)

(** How many live sessions each exit carries. *)
Definition exitSessions (ss : gmap string session) (now : Time) : gmap string Z :=
  map_fold (fun _ s load =>
    if String.eqb (s_exitID s) "" then load
    else if sessionTTL <? time_Sub now (s_lastSeen s) then load
    else <[s_exitID s := default 0 (load !! s_exitID s) + 1]> load) ∅ ss.

Definition load_of (load : gmap string Z) (id : string) : Z := default 0 (load !! id).

Definition exitAssignable (e : exitNode) (n : Z) (l : TierLimit) : bool :=
  if e_exhausted e then false
  else if String.eqb (e_country e) countryUnknown then false
  else if negb (meetsServeFloor (e_id e) (e_speedCap e)) then false
  else if negb (meetsEndpointQuality (e_id e) l) then false
  else let '(usable, rated) := exitRating (e_id e) (e_speedCap e) in
       negb (Full usable n (Unmetered (e_speedCap e) rated) (tierMinShare l)).

Definition rankShare (e : exitNode) (n : Z) : Rate :=
  let '(usable, rated) := exitRating (e_id e) (e_speedCap e) in
  RankShare usable n rated (Ceiling capacityParams).

Definition tierFloor (candidates : list exitNode) (load : gmap string Z) : Rate :=
  OctaveFloor (foldl (fun best e => let s := rankShare e (load_of load (e_id e)) in
                                    if best <? s then s else best) 0 candidates).

Definition resolveFirstHop (ex : gmap string exitNode) (id : string) : result assignRefusal exitNode :=
  match ex !! id with
  | None => Err refuseNoHop
  | Some e => if e_exhausted e || bool_decide (udp e = None) then Err refuseNoHop else Ok e
  end.

(** ** Exclusions *)

Definition maxExcludeSessions : nat := 4.
Definition minCandidatesAfterExclude : nat := 2.

Definition excludedExits (ss : gmap string session) (src : UDPAddr) (sids : list string) : gset string :=
  foldl (fun skip sid =>
    match ss !! sid with
    | None => skip
    | Some s =>
        if String.eqb (s_exitID s) "" then skip
        else if negb (String.eqb (UDPAddr_String (client s)) (UDPAddr_String src)) then skip
        else {[s_exitID s]} ∪ skip
    end) ∅ (firstn maxExcludeSessions sids).

(** The candidates after the exclusion, which is dropped when it would leave fewer
    than two. *)
Definition apply_exclude (exclude : gset string) (candidates : list exitNode) : list exitNode :=
  if (size exclude =? 0)%nat then candidates
  else let kept := filter (fun e => e_id e ∉ exclude) candidates in
       if (minCandidatesAfterExclude <=? List.length kept)%nat then kept else candidates.

(** [order] is the registry as Go walked it. *)
Definition chooseExit (order : list (string * exitNode)) (ss : gmap string session) (country : string)
    (exclude : gset string) (now : Time) (l : TierLimit) : result assignRefusal exitNode :=
  let cc := Canonical country in
  if String.eqb cc countryUnknown then Err refuseNoCountry
  else
    let load := exitSessions ss now in
    let here := filter (fun e => e_country e = cc) order.*2 in
    let candidates := filter (fun e => exitAssignable e (load_of load (e_id e)) l) here in
    if bool_decide (here = []) then Err refuseNoCountry
    else if bool_decide (candidates = []) then Err refuseCountryBusy
    else
      let candidates := apply_exclude exclude candidates in
      let floor := tierFloor candidates load in
      of_option refuseCountryBusy
        (List.find (fun e => floor <=? rankShare e (load_of load (e_id e))) candidates).

(** ** The country map *)

(** One exit counted into its country's entry. *)
Definition count_exit (load : gmap string Z) (l : TierLimit) (agg : gmap string (Z * Z)) (e : exitNode)
    : gmap string (Z * Z) :=
  if String.eqb (e_country e) countryUnknown then agg
  else let '(n, a) := default (0, 0) (agg !! e_country e) in
       <[e_country e := (n + 1, if exitAssignable e (load_of load (e_id e)) l then a + 1 else a)]> agg.

Definition country_le (x y : countryInfo) : Prop := string_le (ci_Country x) (ci_Country y).

#[local] Instance country_le_dec : RelDecision country_le.
Proof. intros x y. unfold country_le. apply _. Defined.

Definition countrySnapshot (order : list (string * exitNode)) (ss : gmap string session) (now : Time)
    (l : TierLimit) : list countryInfo :=
  let load := exitSessions ss now in
  let agg := foldl (count_exit load l) ∅ order.*2 in
  merge_sort country_le
    ((fun '(cc, (n, a)) => MkCountryInfo cc n a (a =? 0) 0) <$> map_to_list agg).
End Assign.

(** ** Shares are rates below the ceiling *)

Lemma ProjectedShare_bounds usable n : 0 <= usable -> 0 <= (ProjectedShare usable n).1 <= usable.
Proof.
  intros Hu. unfold ProjectedShare. destruct (Z.eqb_spec usable 0); simpl; [lia|].
  pose proof (wrap64_range (wrapi64 ((if n <? 0 then 0 else n) + 1))) as [Hd _].
  set (d := wrap64 _) in *. destruct (decide (d = 0)) as [->|]; [by rewrite Zdiv_0_r|].
  split; [apply Z.div_pos; lia|]. apply Z.div_le_upper_bound; nia.
Qed.

Lemma RankShare_bounds usable n rated ceiling :
  0 <= usable -> 0 <= ceiling -> 0 <= RankShare usable n rated ceiling <= ceiling.
Proof.
  intros Hu Hc. unfold RankShare. set (u := if _ || _ then ceiling else usable).
  assert (0 <= u <= ceiling) as Hb.
  { subst u. destruct (negb rated), (Z.eqb_spec usable 0), (Z.ltb_spec ceiling usable); simpl; lia. }
  pose proof (ProjectedShare_bounds u n ltac:(lia)). lia.
Qed.

(** The running best of a list, from zero. *)
Lemma foldl_best {A} (f : A -> Z) l :
  let best := foldl (fun best e => let s := f e in if best <? s then s else best) 0 l in
  Forall (fun e => f e <= best) l /\ (best = 0 \/ exists e, e ∈ l /\ f e = best).
Proof.
  assert (forall b, let best := foldl (fun best e => let s := f e in if best <? s then s else best) b l in
    b <= best /\ Forall (fun e => f e <= best) l /\ (best = b \/ exists e, e ∈ l /\ f e = best)) as Hgo.
  { induction l as [|x l IH]; intros b; simpl; [split_and!; [lia|constructor|by left]|].
    destruct (IH (if b <? f x then f x else b)) as (Hb & Hf & He). cbv zeta in *.
    destruct (Z.ltb_spec b (f x)); split_and!; try lia; try (constructor; [lia|done]).
    - destruct He as [He|(e & ? & ?)]; right; [exists x; split; [left|lia]|exists e; split; [by right|done]].
    - destruct He as [He|(e & ? & ?)]; [by left|right]. exists e. split; [by right|done]. }
  destruct (Hgo 0) as (_ & ? & ?). by split.
Qed.

Section AssignProofs.
Context `{FloatPlatform}.
Context (cfg : Config) (rt : option RatingStore).

Definition rate_ok (e : exitNode) : Prop := 0 <= (exitRating rt (e_id e) (e_speedCap e)).1.

Lemma rankShare_bounds e n : rate_ok e -> 0 <= rankShare rt e n <= Ceiling capacityParams.
Proof.
  unfold rate_ok, rankShare. destruct (exitRating _ _ _) as [usable rated]. simpl. intros Hu.
  apply RankShare_bounds; [done|]. unfold capacityParams, DefaultParams. simpl. unfold Mbit, Kbit. lia.
Qed.

(** A candidate at the octave floor exists, and is within a factor of two of every
    candidate. *)
Lemma find_at_floor candidates load :
  Forall rate_ok candidates -> candidates <> [] ->
  exists e, List.find (fun e => tierFloor rt candidates load <=? rankShare rt e (load_of load (e_id e))) candidates = Some e /\
    e ∈ candidates /\
    forall e', e' ∈ candidates ->
      rankShare rt e' (load_of load (e_id e')) <= 2 * rankShare rt e (load_of load (e_id e)).
Proof.
  intros Hok Hne. unfold tierFloor.
  destruct (foldl_best (fun e => rankShare rt e (load_of load (e_id e))) candidates) as [Hle Hbest].
  set (best := foldl _ 0 candidates) in *. cbv zeta in *.
  assert (0 <= best <= Ceiling capacityParams) as Hb.
  { destruct Hbest as [->|(e & He & <-)].
    - unfold capacityParams, DefaultParams. simpl. unfold Mbit, Kbit. lia.
    - rewrite Forall_forall in Hok. by apply rankShare_bounds, Hok. }
  assert (best < u64max) as Hu.
  { unfold capacityParams, DefaultParams, u64max in *. simpl in Hb. unfold Mbit, Kbit in Hb. lia. }
  destruct (List.find _ candidates) as [e|] eqn:Hf.
  - exists e. apply find_some in Hf as [He Hfl]. rewrite <-list_elem_of_In in He. b2p.
    split_and!; [done..|]. intros e' He'. rewrite Forall_forall in Hle. specialize (Hle e' He'). simpl in Hle.
    apply OctaveFloor_spec in Hfl; lia.
  - exfalso. assert (exists e, e ∈ candidates /\ best <= rankShare rt e (load_of load (e_id e))) as (e & He & Hs).
    { destruct Hbest as [->|(e & He & ?)]; [|exists e; split; [done|lia]].
      destruct candidates as [|e ?]; [done|]. exists e. split; [left|].
      apply Forall_cons in Hok as [Hok _]. apply (rankShare_bounds e _ Hok). }
    apply list_elem_of_In in He. apply (find_none _ _ Hf) in He as Hn. b2p.
    pose proof (OctaveFloor_le best ltac:(lia)). lia.
Qed.

(** An assignable exit of the country, as the registry holds it. *)
Definition candidate (ex : gmap string exitNode) (ss : gmap string session) (now : Time) (l : TierLimit)
    (cc id : string) (e : exitNode) : Prop :=
  ex !! id = Some e /\ e_country e = cc /\
  exitAssignable cfg rt e (load_of (exitSessions ss now) (e_id e)) l = true.

Section Choose.
Context (ex : gmap string exitNode) (order : list (string * exitNode)) (ss : gmap string session).
Context (now : Time) (l : TierLimit) (Horder : order ≡ₚ map_to_list ex).

Lemma order_elem e : e ∈ order.*2 <-> exists id, ex !! id = Some e.
Proof.
  rewrite list_elem_of_fmap. split.
  - intros ([id e'] & -> & Hin). rewrite Horder in Hin. apply elem_of_map_to_list in Hin. eauto.
  - intros [id Hid]. exists (id, e). split; [done|]. rewrite Horder. by apply elem_of_map_to_list.
Qed.

Lemma candidates_elem cc e :
  e ∈ filter (fun e => exitAssignable cfg rt e (load_of (exitSessions ss now) (e_id e)) l)
        (filter (fun e => e_country e = cc) order.*2) <->
  exists id, candidate ex ss now l cc id e.
Proof.
  rewrite !list_elem_of_filter, order_elem. unfold candidate. rewrite Is_true_true. naive_solver.
Qed.

(** Two candidates that are not excluded keep the exclusion in force. *)
Lemma two_kept cc (exclude : gset string) id1 id2 e1 e2 :
  id1 <> id2 -> candidate ex ss now l cc id1 e1 -> candidate ex ss now l cc id2 e2 ->
  e_id e1 ∉ exclude -> e_id e2 ∉ exclude ->
  (2 <= List.length (filter (fun e => e_id e ∉ exclude)
     (filter (fun e => exitAssignable cfg rt e (load_of (exitSessions ss now) (e_id e)) l)
       (filter (fun e => e_country e = cc) order.*2))))%nat.
Proof.
  intros Hne (H1 & Hc1 & Ha1) (H2 & Hc2 & Ha2) Hx1 Hx2.
  assert (order ≡ₚ (id1, e1) :: (id2, e2) :: map_to_list (delete id2 (delete id1 ex))) as Hp.
  { rewrite Horder, <-(map_to_list_delete _ id1 e1 H1). constructor.
    symmetry. apply map_to_list_delete. by rewrite lookup_delete_ne. }
  rewrite Hp, !fmap_cons. simpl.
  repeat first [rewrite (filter_cons_True _ e1) by (rewrite ?Is_true_true; done)
               |rewrite (filter_cons_True _ e2) by (rewrite ?Is_true_true; done)].
  simpl. lia.
Qed.

Lemma apply_exclude_elem (exclude : gset string) cs e :
  e ∈ apply_exclude exclude cs -> e ∈ cs.
Proof. unfold apply_exclude. repeat case_match; rewrite ?list_elem_of_filter; naive_solver. Qed.

Lemma apply_exclude_keeps (exclude : gset string) cs e :
  e ∈ cs -> e_id e ∉ exclude -> e ∈ apply_exclude exclude cs.
Proof. unfold apply_exclude. intros. repeat case_match; rewrite ?list_elem_of_filter; naive_solver. Qed.

Lemma apply_exclude_nonempty (exclude : gset string) cs : cs <> [] -> apply_exclude exclude cs <> [].
Proof.
  unfold apply_exclude. intros Hne. case_match; [done|]. case_match eqn:Hk; [|done].
  apply Nat.leb_le in Hk. unfold minCandidatesAfterExclude in Hk. intros Hnil. rewrite Hnil in Hk. simpl in Hk. lia.
Qed.

Lemma apply_exclude_honoured (exclude : gset string) cs e :
  (2 <= List.length (filter (fun e => e_id e ∉ exclude) cs))%nat ->
  e ∈ apply_exclude exclude cs -> e_id e ∉ exclude.
Proof.
  unfold apply_exclude, minCandidatesAfterExclude. intros Hk. case_match eqn:Hs.
  - apply Nat.eqb_eq, size_empty_inv in Hs. set_solver.
  - rewrite (proj2 (Nat.leb_le _ _) Hk). rewrite list_elem_of_filter. tauto.
Qed.

(** C31: what a client asking for a country gets. If it gets an exit, that exit is
    registered in exactly this country and assignable to its tier; no assignable exit
    the client did not exclude has more than twice its projected share; and two such
    exits are enough for the exclusion to be honoured. If it is refused, then with
    no-such-country exactly when the request names no country or no exit is registered
    there, and with country-busy exactly when exits are registered there and none is
    assignable. The order in which Go walks the registry decides nothing else. *)
Theorem chooseExit_spec country (exclude : gset string) :
  (forall id e, ex !! id = Some e -> rate_ok e) ->
  let cc := Canonical country in
  let share e := rankShare rt e (load_of (exitSessions ss now) (e_id e)) in
  match chooseExit cfg rt order ss country exclude now l with
  | Ok e =>
      cc <> "" /\ (exists id, candidate ex ss now l cc id e) /\
      (forall id' e', candidate ex ss now l cc id' e' -> e_id e' ∉ exclude -> share e' <= 2 * share e) /\
      (forall id1 id2 e1 e2, id1 <> id2 -> candidate ex ss now l cc id1 e1 -> candidate ex ss now l cc id2 e2 ->
         e_id e1 ∉ exclude -> e_id e2 ∉ exclude -> e_id e ∉ exclude)
  | Err r =>
      (r = refuseNoCountry /\ (cc = "" \/ forall id e, ex !! id = Some e -> e_country e <> cc)) \/
      (r = refuseCountryBusy /\ cc <> "" /\ (exists id e, ex !! id = Some e /\ e_country e = cc) /\
       forall id e, ~ candidate ex ss now l cc id e)
  end.
Proof.
  intros Hok cc share. unfold chooseExit. fold cc.
  destruct (String.eqb_spec cc countryUnknown) as [Hcc|Hcc]; [by left; auto|].
  case_bool_decide as Hhere.
  { left. split; [done|]. right. intros id e He Hc.
    assert (e ∈ filter (fun e => e_country e = cc) order.*2) as Hin.
    { rewrite list_elem_of_filter, order_elem. eauto. }
    rewrite Hhere in Hin. by apply elem_of_nil in Hin. }
  set (cs := filter (fun e => exitAssignable _ _ e _ l) _).
  case_bool_decide as Hcs.
  { right. split_and!; [done..| |].
    - destruct (filter (fun e => e_country e = cc) order.*2) as [|e ?] eqn:Hf; [done|].
      assert (e ∈ filter (fun e => e_country e = cc) order.*2) as Hin by (rewrite Hf; left).
      rewrite list_elem_of_filter, order_elem in Hin. naive_solver.
    - intros id e Hc. assert (e ∈ cs) as Hin by (apply candidates_elem; eauto).
      rewrite Hcs in Hin. by apply elem_of_nil in Hin. }
  destruct (find_at_floor (apply_exclude exclude cs) (exitSessions ss now)) as (e & Hfind & He & Hbest).
  { apply Forall_forall. intros e He%apply_exclude_elem. apply candidates_elem in He as (id & Hid & _). eauto. }
  { by apply apply_exclude_nonempty. }
  rewrite Hfind. simpl. split_and!; [done| | |].
  - apply apply_exclude_elem in He. by apply candidates_elem.
  - intros id' e' Hc Hx. apply Hbest, apply_exclude_keeps; [|done]. apply candidates_elem. eauto.
  - intros id1 id2 e1 e2 Hne H1 H2 Hx1 Hx2. eapply apply_exclude_honoured; [|exact He].
    by eapply two_kept.
Qed.

Lemma chooseExit_candidate country (exclude : gset string) e :
  chooseExit cfg rt order ss country exclude now l = Ok e ->
  exists id, candidate ex ss now l (Canonical country) id e.
Proof.
  unfold chooseExit. destruct (String.eqb _ _); [done|]. repeat (case_bool_decide; [done|]).
  intros Hf. inv_result. apply find_some in Hf as [He _]. rewrite <-list_elem_of_In in He.
  by apply apply_exclude_elem, candidates_elem in He.
Qed.

Lemma chooseExit_ok country (exclude : gset string) :
  (forall id e, ex !! id = Some e -> rate_ok e) ->
  is_ok (chooseExit cfg rt order ss country exclude now l) = true <->
  Canonical country <> "" /\ exists id e, candidate ex ss now l (Canonical country) id e.
Proof.
  intros Hok. unfold chooseExit. set (cc := Canonical country).
  destruct (String.eqb_spec cc countryUnknown) as [Hcc|Hcc]; [by split; [|intros [? _]]|].
  assert (forall e, (exists id, candidate ex ss now l cc id e) <-> e ∈ filter (fun e =>
    exitAssignable cfg rt e (load_of (exitSessions ss now) (e_id e)) l) (filter (fun e => e_country e = cc) order.*2)) as Hel.
  { intros e. symmetry. apply candidates_elem. }
  set (cs := filter (fun e => exitAssignable _ _ e _ l) _) in *.
  case_bool_decide as Hhere; [|case_bool_decide as Hcs].
  - split; [done|]. intros (_ & id & e & He). assert (e ∈ cs) as Hin by (apply Hel; eauto).
    subst cs. rewrite Hhere in Hin. by apply elem_of_nil in Hin.
  - split; [done|]. intros (_ & id & e & He). assert (e ∈ cs) as Hin by (apply Hel; eauto).
    rewrite Hcs in Hin. by apply elem_of_nil in Hin.
  - destruct (find_at_floor (apply_exclude exclude cs) (exitSessions ss now)) as (e & Hfind & He & _).
    { apply Forall_forall. intros e He%apply_exclude_elem. apply Hel in He as (id & Hid & _). eauto. }
    { by apply apply_exclude_nonempty. }
    rewrite Hfind. simpl. split; [|done]. intros _. split; [done|].
    apply apply_exclude_elem, Hel in He as [id He]. eauto.
Qed.

(** ** The country map *)

Definition here (es : list exitNode) (cc : string) : list exitNode := filter (fun e => e_country e = cc) es.
Definition avail (es : list exitNode) (cc : string) : list exitNode :=
  filter (fun e => exitAssignable cfg rt e (load_of (exitSessions ss now) (e_id e)) l) (here es cc).

Lemma count_exits_spec es agg cc :
  cc <> "" ->
  foldl (count_exit cfg rt (exitSessions ss now) l) agg es !! cc =
    (if decide (here es cc = []) then agg !! cc
     else let '(n, a) := default (0, 0) (agg !! cc) in
          Some (n + Z.of_nat (List.length (here es cc)), a + Z.of_nat (List.length (avail es cc)))).
Proof.
  intros Hcc. revert agg. induction es as [|e es IH]; intros agg; [done|]. simpl. rewrite IH. clear IH.
  unfold count_exit. destruct (String.eqb_spec (e_country e) countryUnknown) as [Hu|Hu].
  { assert (here (e :: es) cc = here es cc) as Hh by (apply filter_cons_False; intros <-; by apply Hcc).
    unfold avail. by rewrite Hh. }
  destruct (decide (e_country e = cc)) as [Hc|Hc].
  - assert (here (e :: es) cc = e :: here es cc) as Hh by by apply filter_cons_True.
    unfold avail. rewrite Hh, Hc. destruct (default (0, 0) (agg !! cc)) as [n a] eqn:Hd.
    rewrite lookup_insert_eq. simpl.
    destruct (exitAssignable cfg rt e _ l) eqn:Ha.
    + rewrite (filter_cons_True _ e) by by rewrite Ha.
      destruct (decide (here es cc = [])) as [Hn|Hn]; rewrite ?Hn; simpl; do 2 f_equal; lia.
    + rewrite (filter_cons_False _ e) by (rewrite Ha; auto).
      destruct (decide (here es cc = [])) as [Hn|Hn]; rewrite ?Hn; simpl; do 2 f_equal; lia.
  - assert (here (e :: es) cc = here es cc) as Hh by by apply filter_cons_False.
    unfold avail. rewrite Hh. destruct (default (0, 0) (agg !! e_country e)) as [n a].
    by rewrite lookup_insert_ne.
Qed.

Lemma count_exits_unknown es agg :
  agg !! "" = None -> foldl (count_exit cfg rt (exitSessions ss now) l) agg es !! "" = None.
Proof.
  revert agg. induction es as [|e es IH]; intros agg Ha; simpl; [done|]. apply IH.
  unfold count_exit. destruct (String.eqb_spec (e_country e) countryUnknown) as [Hu|Hu]; [done|].
  destruct (default _ _). by rewrite lookup_insert_ne.
Qed.

Lemma countrySnapshot_elem ci :
  ci ∈ countrySnapshot cfg rt order ss now l <->
  ci_Country ci <> "" /\ here order.*2 (ci_Country ci) <> [] /\
  ci = MkCountryInfo (ci_Country ci) (Z.of_nat (List.length (here order.*2 (ci_Country ci))))
         (Z.of_nat (List.length (avail order.*2 (ci_Country ci))))
         (bool_decide (avail order.*2 (ci_Country ci) = [])) 0.
Proof.
  unfold countrySnapshot. rewrite merge_sort_Permutation, list_elem_of_fmap.
  assert (forall k : list exitNode, (Z.of_nat (List.length k) =? 0) = bool_decide (k = [])) as Hz.
  { intros k. destruct k; [done|]. rewrite bool_decide_false by done. by apply Z.eqb_neq. }
  split.
  - intros ([cc [n a]] & -> & Hin). apply elem_of_map_to_list in Hin. simpl.
    destruct (decide (cc = "")) as [->|Hcc]; [by rewrite count_exits_unknown in Hin|].
    rewrite count_exits_spec, lookup_empty in Hin by done. simpl in Hin.
    destruct (decide (here order.*2 cc = [])); [done|]. injection Hin as <- <-.
    split_and!; [done..|]. rewrite !Z.add_0_l. by rewrite Hz.
  - intros (Hcc & Hh & Heq).
    exists (ci_Country ci, (Z.of_nat (List.length (here order.*2 (ci_Country ci))),
                            Z.of_nat (List.length (avail order.*2 (ci_Country ci))))).
    split; [by rewrite Hz|]. apply elem_of_map_to_list.
    rewrite count_exits_spec, lookup_empty by done. simpl. rewrite decide_False by done. by rewrite !Z.add_0_l.
Qed.

(** The country map a client picks from is exact, and keeps its word. It lists
    exactly the countries in which exits are registered, counts the exits and the
    assignable ones, and a country whose code is canonical is shown as not busy
    exactly when a connect for it at this moment, in this tier, is given an exit. *)
Theorem countrySnapshot_agrees ci :
  (forall id e, ex !! id = Some e -> rate_ok e) ->
  (ci ∈ countrySnapshot cfg rt order ss now l <->
   ci_Country ci <> "" /\ here order.*2 (ci_Country ci) <> [] /\
   ci = MkCountryInfo (ci_Country ci) (Z.of_nat (List.length (here order.*2 (ci_Country ci))))
          (Z.of_nat (List.length (avail order.*2 (ci_Country ci))))
          (bool_decide (avail order.*2 (ci_Country ci) = [])) 0) /\
  (ci ∈ countrySnapshot cfg rt order ss now l -> Canonical (ci_Country ci) = ci_Country ci ->
   (Busy ci = false <-> is_ok (chooseExit cfg rt order ss (ci_Country ci) ∅ now l) = true)).
Proof.
  intros Hok. split; [apply countrySnapshot_elem|]. intros (Hcc & Hh & ->)%countrySnapshot_elem Hcan.
  simpl in *. rewrite chooseExit_ok, Hcan by done. rewrite bool_decide_eq_false.
  split.
  - intros Hne. split; [done|]. destruct (avail order.*2 (ci_Country ci)) as [|e k] eqn:Ha; [done|].
    assert (e ∈ avail order.*2 (ci_Country ci)) as Hin by (rewrite Ha; left).
    apply candidates_elem in Hin as [id Hid]. eauto.
  - intros (_ & id & e & Hc) Hnil. assert (e ∈ avail order.*2 (ci_Country ci)) as Hin.
    { apply candidates_elem. eauto. }
    rewrite Hnil in Hin. by apply elem_of_nil in Hin.
Qed.
End Choose.
End AssignProofs.

(** ** A client can only exclude the exits of its own sessions *)

Lemma excludedExits_elem ss src sids id :
  id ∈ excludedExits ss src sids <->
  exists sid s, sid ∈ firstn maxExcludeSessions sids /\ ss !! sid = Some s /\ s_exitID s = id /\ id <> "" /\
    UDPAddr_String (client s) = UDPAddr_String src.
Proof.
  unfold excludedExits. generalize (firstn maxExcludeSessions sids). intros k.
  assert (forall skip : gset string, id ∈ foldl (fun skip sid =>
      match ss !! sid with
      | None => skip
      | Some s =>
          if String.eqb (s_exitID s) "" then skip
          else if negb (String.eqb (UDPAddr_String (client s)) (UDPAddr_String src)) then skip
          else {[s_exitID s]} ∪ skip
      end) skip k <->
    id ∈ skip \/ exists sid s, sid ∈ k /\ ss !! sid = Some s /\ s_exitID s = id /\ id <> "" /\
      UDPAddr_String (client s) = UDPAddr_String src) as Hgo.
  { induction k as [|sid k IH]; intros skip; simpl.
    - split; [by left|]. intros [?|(? & ? & Hin & _)]; [done|]. by apply elem_of_nil in Hin.
    - rewrite IH. clear IH. setoid_rewrite elem_of_cons.
      destruct (ss !! sid) as [s|] eqn:Hs.
      2:{ split; [naive_solver|]. intros [?|(x & t & [->|?] & ? & ?)]; [by left|congruence|right; eauto 8]. }
      destruct (String.eqb_spec (s_exitID s) "") as [He|He]; simpl.
      { split; [naive_solver|]. intros [?|(x & t & [->|?] & ? & ? & ? & ?)]; [by left| |right; eauto 8].
        simplify_eq. }
      destruct (String.eqb_spec (UDPAddr_String (client s)) (UDPAddr_String src)) as [Hc|Hc]; simpl.
      + rewrite elem_of_union, elem_of_singleton. split.
        * intros [[->|?]|(x & t & ? & ?)]; [right; exists sid, s; auto 8|by left|right; eauto 8].
        * intros [?|(x & t & [->|?] & ? & ? & ? & ?)]; [auto| |right; eauto 8]. simplify_eq. auto.
      + split; [naive_solver|]. intros [?|(x & t & [->|?] & ? & ? & ? & ?)]; [by left| |right; eauto 8].
        simplify_eq. }
  rewrite Hgo. set_solver.
Qed.

(** ** Witnesses *)

Module Demo.
Import Estimator.Demo CoordDemo.
#[export] Existing Instance amd64.
Definition exit_of (id cc : string) (cap : Z) (addr : UDPAddr) : exitNode :=
  MkExit (MkHealth "1.0.0" false) id "" (Some addr) cap 0 false Hour (MkClaims cc countryObserved "").
Definition exits3 : gmap string exitNode :=
  <["e1" := exit_of "e1" "SE" 0 (CoordDemo.ip 9 9 9 1 1)]>
  (<["e2" := exit_of "e2" "SE" 10000000 (CoordDemo.ip 9 9 9 2 1)]>
  (<["e3" := exit_of "e3" "US" 0 (CoordDemo.ip 9 9 9 3 1)]> ∅)).
Lemma exits3_ok id e : exits3 !! id = Some e -> rate_ok None e.
Proof.
  unfold exits3, rate_ok. intros He.
  repeat (apply lookup_insert_Some in He as [[_ <-]|[_ He]]; [simpl; lia|]). by rewrite lookup_empty in He.
Qed.
End Demo.
Import Estimator.Demo CoordDemo Demo.

Definition four_exits : gmap string exitNode := <["e4" := exit_of "e4" "SE" 10000000 (CoordDemo.ip 9 9 9 4 1)]> exits3.
Definition choice : result string exitNode :=
  chooseExit CoordDemo.cfg None (map_to_list four_exits) ∅ "se" {["e1"]} Hour zero_TierLimit.

Lemma four_exits_ok id e : four_exits !! id = Some e -> rate_ok None e.
Proof.
  unfold four_exits. intros [[_ <-]|[_ He]]%lookup_insert_Some; [unfold rate_ok; simpl; lia|]. by eapply exits3_ok.
Qed.

Lemma chooseExit_spec_witness :
  exists e, choice = Ok e /\ (exists id, candidate CoordDemo.cfg None four_exits ∅ Hour zero_TierLimit "SE" id e) /\
    e_id e ∉ ({["e1"]} : gset string).
Proof.
  destruct choice as [e|r] eqn:Hc; [|vm_compute in Hc; discriminate Hc]. exists e. split; [reflexivity|].
  pose proof (chooseExit_spec CoordDemo.cfg None four_exits (map_to_list four_exits) ∅ Hour zero_TierLimit
    (Permutation_refl _) "se" {["e1"]} four_exits_ok) as Hs.
  cbv zeta in Hs. unfold choice in Hc. rewrite Hc in Hs. destruct Hs as (_ & Hcand & _ & Hx).
  assert (Canonical "se" = "SE") as Hcan by (vm_compute; reflexivity). rewrite Hcan in Hcand, Hx.
  split; [exact Hcand|].
  apply (Hx "e2" "e4" (exit_of "e2" "SE" 10000000 (CoordDemo.ip 9 9 9 2 1))
            (exit_of "e4" "SE" 10000000 (CoordDemo.ip 9 9 9 4 1))).
  - discriminate.
  - split_and!; vm_compute; reflexivity.
  - split_and!; vm_compute; reflexivity.
  - apply (bool_decide_unpack _). vm_compute. exact I.
  - apply (bool_decide_unpack _). vm_compute. exact I.
Defined.

Lemma countrySnapshot_agrees_witness :
  let ci := MkCountryInfo "SE" 2 2 false 0 in
  ci ∈ countrySnapshot CoordDemo.cfg None (map_to_list exits3) ∅ Hour zero_TierLimit /\
  is_ok (chooseExit CoordDemo.cfg None (map_to_list exits3) ∅ "SE" ∅ Hour zero_TierLimit) = true.
Proof.
  intros ci. assert (ci ∈ countrySnapshot CoordDemo.cfg None (map_to_list exits3) ∅ Hour zero_TierLimit) as Hin
    by (apply (bool_decide_unpack _); vm_compute; exact I).
  split; [exact Hin|].
  destruct (countrySnapshot_agrees CoordDemo.cfg None exits3 (map_to_list exits3) ∅ Hour zero_TierLimit
    (Permutation_refl _) ci exits3_ok) as [_ Hb].
  assert (Canonical (ci_Country ci) = ci_Country ci) as Hcan by (vm_compute; reflexivity).
  exact (proj1 (Hb Hin Hcan) eq_refl).
Defined.
