(* ===== verification/Coordinator.v ===== *)
(** * The coordinator: [cmd/coordinator/main.go], with [idempotency.go], the report
    handler of [capacity_feed.go] and [core/handshake]

    [handle] is the signaling handler, one definition per message type and their
    dispatch; [sweepTick] is the periodic sweep; both run under the registry's mutex. A
    packet's source is a socket address, so [src] is never nil. *)

From stdpp Require Import relations.
From S2P Require Import Prelude GoStrings Base64 Crypto Hashes GeoIP Stun Coldstart.
From S2P Require Import Version Delegation Admission Accounting DeviceCred.
From S2P Require Import Capacity Estimator Rating Policy PolicyGate Net GeoIP CoordState Challenges Geo Assign.
Local Open Scope Z_scope.

(** ** [core/handshake] *)

Definition ProtocolVersion : Z := 1.
Definition HelloMagic : string := "bacchus-hello-1".

Record Hello := MkHello { h_Magic : string; h_Version : Z; h_Capabilities : list string }.
Definition Local : Hello := MkHello HelloMagic ProtocolVersion [].

(** [%d] of an int. *)
Definition FormatInt (z : Z) : string := if z <? 0 then "-" +:+ Itoa (- z) else Itoa z.

Definition Check (h : Hello) : result string unit :=
  if negb (String.eqb (h_Magic h) HelloMagic) then Err "not a bacchus peer (bad magic)"
  else if h_Version h <? ProtocolVersion
  then Err ("peer protocol version " +:+ FormatInt (h_Version h) +:+ " is older than "
              +:+ FormatInt ProtocolVersion +:+ " — peer must update")
  else if ProtocolVersion <? h_Version h
  then Err ("peer protocol version " +:+ FormatInt (h_Version h) +:+ " is newer than "
              +:+ FormatInt ProtocolVersion +:+ " — this side must update")
  else Ok tt.

(** ** [idempotency.go] *)

Definition connectDedupeTTL : Duration := 30 * Second.
Definition maxNonceLen : nat := 64.

Definition connectKey (src : UDPAddr) (nonce : string) : string :=
  UDPAddr_String src +:+ String Ascii.zero nonce.

(** [replayMintedConnect]: what it sends, when it replays. *)
Definition replayMintedConnect (s : state) (src : UDPAddr) (nonce : string) (now : Time) : option sent :=
  if String.eqb nonce "" then None
  else match mintedConnects s !! connectKey src nonce with
       | None => None
       | Some mc =>
           if connectDedupeTTL <? time_Sub now (mc_at mc) then None
           else Some (match mc_peer mc with Some p => [(p, mc_assign mc)] | None => [] end
                      ++ [(src, mc_reply mc)])
       end.

Definition pairAndReply (s : state) (src : UDPAddr) (nonce : string) (p : UDPAddr) (assign reply : wire)
    (now : Time) : state * sent :=
  (if String.eqb nonce "" then s
   else set_minted s (<[connectKey src nonce := MkMinted (Some p) assign reply now]> (mintedConnects s)),
   [(p, assign); (src, reply)]).

Definition pruneMintedConnects (m : gmap string mintedConnect) (now : Time) : gmap string mintedConnect :=
  filter (fun kv => negb (connectDedupeTTL <? time_Sub now (mc_at kv.2))) m.

(** ** Expiry *)

(** A relay session that carried signaling outlives the quiet period: its relay's own
    liveness is watched instead. *)
Definition session_expired (now : Time) (s : session) : bool :=
  if negb (String.eqb (relayID s) "") && (signaled s || (time_Sub now (s_lastSeen s) <=? sessionTTL))
  then false else sessionTTL <? time_Sub now (s_lastSeen s).

Definition prune (s : state) (now : Time) : state :=
  MkState (filter (fun kv => negb (ttl <? time_Sub now (r_lastSeen kv.2))) (relays s))
          (filter (fun kv => negb (ttl <? time_Sub now (e_lastSeen kv.2))) (exits s))
          (filter (fun kv => negb (session_expired now kv.2)) (sessions s))
          (pruneMintedConnects (mintedConnects s) now) (challenges s) (ratings s).

(** ** Relays *)

Definition relayTag (id : string) : string :=
  hex_EncodeToString (firstn 8 (SHA256.sum (bytes_of "bacchus-relay-tag" ++ NUL :: bytes_of id))).

Definition validIngressPort (p : Z) : bool := (1 <=? p) && (p <=? 65535).

Section Handlers.
Context `{FloatPlatform} `{Ed25519} `{JSON Credential} `{JSON IssuerCert} `{JSON DeviceCredential}.
Context (cfg : Config) (i : Inputs).

Definition relay_usable (rt : option RatingStore) (excludeID : string) (now : Time) (kv : string * relayNode) : bool :=
  let '(id, r) := kv in
  negb (String.eqb id excludeID) && negb (ttl / 2 <? time_Sub now (r_lastSeen r)) && negb (r_exhausted r)
  && meetsServeFloor cfg rt (r_id r) (r_speedCap r).

Definition pickRelay (s : state) (excludeID : string) : option relayNode :=
  snd <$> List.find (relay_usable (ratings s) excludeID (t_pick (clock i))) (relay_order i (relays s)).

(** ** Gates *)

Definition zero_Credential : Credential := MkCredential 0 "" "" [] time_zero time_zero "" false "" "".

(** [admit]: the credential, or the rejection it sends. *)
Definition admit_ (m : wire) (want : string) (subject : string) : result Refusal Credential :=
  match admissionVerifier cfg with
  | None => Ok zero_Credential
  | Some v => map_err AdmissionRefused (Admission.Verify v (Cred m) (t_admit (clock i)) want subject)
  end.

Definition no_policy_register : string :=
  "coordinator has no enforceable network policy — not accepting new nodes into the serve pool; retry shortly or use another coordinator".
Definition no_policy_connect : string :=
  "coordinator has no enforceable network policy — not assigning new sessions; retry shortly or use another coordinator".

(** ** The handlers, each on the pruned state *)

Definition handle_hello (s : state) (m : wire) (src : UDPAddr) : state * sent :=
  match Check (MkHello (Magic m) (w_Version m) (Capabilities m)) with
  | Ok _ => (s, [])
  | Err reason => (s, [(src, msg_reject reason)])
  end.

Definition register_relay (s : state) (m : wire) (src : UDPAddr) : state :=
  let prior := r_health <$> relays s !! ID m in
  let port := IngressPort m in
  let port := if negb (port =? 0) && negb (validIngressPort port) then 0 else port in
  set_relays s (<[ID m := MkRelay (carryHealth prior (Release m)) (ID m) src port (w_SpeedCap m)
    (DeclaredQuotaBytes m) (String.eqb (QuotaState m) quotaExhausted) (t_handle (clock i))
    (deriveCountry cfg (ID m) src (Country m))]> (relays s)).

Definition register_exit (s : state) (m : wire) (src : UDPAddr) : state :=
  let prior := e_health <$> exits s !! ID m in
  set_exits s (<[ID m := MkExit (carryHealth prior (Release m)) (ID m) (Addr m) (Some src) (w_SpeedCap m)
    (DeclaredQuotaBytes m) (String.eqb (QuotaState m) quotaExhausted) (t_handle (clock i))
    (deriveExitCountry cfg (ID m) src (Country m) (Addr m))]> (exits s)).

Definition handle_register (s : state) (m : wire) (src : UDPAddr) : state * sent :=
  match admit_ m (Role m) (ID m) with
  | Err r => (s, [(src, msg_reject (text cfg r))])
  | Ok _ =>
      match servingCheck cfg (ratings s) (Release m) (ID m) (DeclaredQuotaBytes m) with
      | Err r => (s, [(src, msg_reject (text cfg r))])
      | Ok _ =>
          if negb (policyAllowsAssignment (policyState cfg)) then (s, [(src, msg_reject no_policy_register)])
          else if String.eqb (Role m) "relay" then (register_relay s m src, [])
          else if String.eqb (Role m) "exit" then (register_exit s m src, [])
          else (s, [])
      end
  end.

Definition heartbeat_relay (id : string) (src : UDPAddr) (r : relayNode) : relayNode :=
  MkRelay (r_health r) (r_id r) src (ingressPort r) (r_speedCap r) (r_declaredQuota r) (r_exhausted r)
    (t_handle (clock i)) (rederiveCountry cfg id src (r_claims r)).
Definition heartbeat_exit (id : string) (src : UDPAddr) (e : exitNode) : exitNode :=
  MkExit (e_health e) (e_id e) (tcpAddr e) (Some src) (e_speedCap e) (e_declaredQuota e) (e_exhausted e)
    (t_handle (clock i)) (rederiveExitCountry cfg id src (tcpAddr e) (e_claims e)).

Definition handle_heartbeat (s : state) (m : wire) (src : UDPAddr) : state * sent :=
  let s := match relays s !! ID m with
           | Some r => set_relays s (<[ID m := heartbeat_relay (ID m) src r]> (relays s))
           | None => s
           end in
  let s := match exits s !! ID m with
           | Some e => set_exits s (<[ID m := heartbeat_exit (ID m) src e]> (exits s))
           | None => s
           end in
  (s, []).

Definition handle_list (s : state) (m : wire) (src : UDPAddr) : state * sent :=
  match admit_ m RoleClient "" with
  | Err r => (s, [(src, msg_reject (text cfg r))])
  | Ok cred =>
      match resolveTier cfg cred with
      | Err refusal => (s, [(src, msg_error refusal "")])
      | Ok limits =>
          (s, [(src, msg_countries (countrySnapshot cfg (ratings s) (exit_order i (exits s)) (sessions s)
                                      (t_handle (clock i)) limits) (coordRelease cfg))])
      end
  end.

Definition handle_challenge (s : state) (m : wire) (src : UDPAddr) : state * sent :=
  match admit_ m RoleClient "" with
  | Err r => (s, [(src, msg_reject (text cfg r))])
  | Ok _ =>
      let '(cs, c) := issueDeviceChallenge cfg (challenges s) src (Cred m) (w_IssuerCert m) i in
      (set_challenges s cs, [(src, msg_challenge c)])
  end.

Definition quote : string := String (byte_of 34) EmptyString.

(** Why the device gate said no. *)
Definition gate_text (e : GateError) : string :=
  match e with
  | NoChallenge =>
      "no outstanding device-credential challenge for this address — request one with a "
        +:+ quote +:+ "challenge" +:+ quote +:+ " message immediately before connecting"
  | WrongChallenge => "device assertion does not answer the challenge this coordinator issued"
  | BadAssertionEncoding => "devicecred: malformed object"
  | Refused e => text cfg (DeviceRefused e)
  end.

(** ** Connect *)

(** The node the session is to end at: the named first hop of a chain, or an exit
    chosen in the country. *)
Definition connect_target (s : state) (m : wire) (src : UDPAddr) (limits : TierLimit)
    : result assignRefusal exitNode :=
  if negb (String.eqb (FirstHop m) "") then
    if negb (String.eqb (Mode m) "relay") then Err refuseHopNotRelayMode
    else resolveFirstHop (exits s) (FirstHop m)
  else chooseExit cfg (ratings s) (exit_order i (exits s)) (sessions s) (Country m)
         (excludedExits (sessions s) src (ExcludeSessions m)) (t_handle (clock i)) limits.

(** Open the session: direct to the exit, through a peer relay, or by TURN. *)
Definition mint (s : state) (m : wire) (src : UDPAddr) (limits : TierLimit) (e : exitNode) : state * sent :=
  let now := t_handle (clock i) in
  let chained := negb (String.eqb (FirstHop m) "") in
  let exitID := if chained then "" else e_id e in
  let cap := SpeedCapBps limits in
  let sid := rand_id i in
  let open p rid := set_sessions s (<[sid := MkSession src p rid exitID false false now]> (sessions s)) in
  if String.eqb (Mode m) "direct" then
    match udp e with
    | None => (s, [(src, msg_error "" "")])
    | Some u => pairAndReply (open u "") src (Nonce m) u (msg_assign sid "" cap)
                  (msg_session sid exitID "" "" (coordRelease cfg)) now
    end
  else match pickRelay s (e_id e) with
       | Some r => pairAndReply (open (r_addr r) (r_id r)) src (Nonce m) (r_addr r)
                     (msg_assign sid (tcpAddr e) cap)
                     (msg_session sid exitID relayPeer (relayTag (r_id r)) (coordRelease cfg)) now
       | None =>
           match udp e with
           | Some u => pairAndReply (open u "") src (Nonce m) u (msg_assign sid "" cap)
                         (msg_session sid exitID relayTURN "" (coordRelease cfg)) now
           | None => (s, [(src, msg_error "" "")])
           end
       end.

Definition handle_connect (s : state) (m : wire) (src : UDPAddr) : state * sent :=
  let m := set_creds m (admissionCredFor (challenges s) m src (t_cred (clock i)))
                       (issuerCertFor (challenges s) m src (t_issuer (clock i))) in
  match admit_ m RoleClient "" with
  | Err r => (s, [(src, msg_reject (text cfg r))])
  | Ok cred =>
      if negb (policyAllowsAssignment (policyState cfg)) then (s, [(src, msg_reject no_policy_connect)])
      else if String.eqb (Nonce m) "" || (maxNonceLen <? String.length (Nonce m))%nat
      then (s, [(src, msg_error refuseNoNonce (Canonical (Country m)))])
      else match replayMintedConnect s src (Nonce m) (t_handle (clock i)) with
           | Some out => (s, out)
           | None =>
               match admitDevice cfg (challenges s) m src i with
               | (cs, Err e) => (set_challenges s cs, [(src, msg_reject (gate_text e))])
               | (cs, Ok _) =>
                   let s := set_challenges s cs in
                   match resolveTier cfg cred with
                   | Err refusal => (s, [(src, msg_error refusal (Canonical (Country m)))])
                   | Ok limits =>
                       match connect_target s m src limits with
                       | Err refusal => (s, [(src, msg_error refusal (Canonical (Country m)))])
                       | Ok e => mint s m src limits e
                       end
                   end
               end
           end
  end.

(** ** Signaling and reports *)

Definition handle_signal (s : state) (m : wire) (src : UDPAddr) : state * sent :=
  match sessions s !! Session m with
  | None => (s, [])
  | Some x =>
      let from_peer := String.eqb (UDPAddr_String src) (UDPAddr_String (peer x)) in
      let x' := MkSession (client x) (peer x) (relayID x) (s_exitID x) true
                  (if from_peer then true else answered x) (t_handle (clock i)) in
      (set_sessions s (<[Session m := x']> (sessions s)),
       [(if from_peer then client x else peer x, m)])
  end.

Definition attesterIsVouched (m : wire) : option bool :=
  match admissionVerifier cfg with
  | None => Some false
  | Some v => match Admission.Verify v (Cred m) (t_admit (clock i)) RoleClient "" with
              | Err _ => None
              | Ok cred => Some (IsVouched cred)
              end
  end.

Definition sampleFrom (r : Receipt) (as_ : string) : Sample :=
  let tp := if 0 <? IntervalSec r then wrap64 (r_Bytes r * 8) / IntervalSec r else 0 in
  MkSample tp (Accounting.Saturated r) (hex_EncodeToString (ClientAcctPub r)) as_.

(** An address with no table entry counts as its /24 or /48. *)
Definition asFallback (a : list ascii) : string :=
  match To4 a with
  | Some v4 => string_of (ip_String (firstn 3 v4 ++ [Ascii.zero])) +:+ "/24"
  | None => string_of (ip_String (firstn 6 a ++ repeat Ascii.zero 10)) +:+ "/48"
  end.

Definition observedAS (src : UDPAddr) : string :=
  if bool_decide (addr_IP src = []) then ""
  else match ASN.OfAddr (asnTable cfg) (addr_IP src) with Some a => ASN.AS_String a | None => asFallback (addr_IP src) end.

Definition handle_capacity_report (s : state) (m : wire) (src : UDPAddr) : state * sent :=
  match ratings s, w_Receipt m with
  | Some store, Some r =>
      match attesterIsVouched m with
      | None => (s, [])
      | Some vouched =>
          if negb (is_ok (Receipt_Verify r)) then (s, [])
          else if negb (is_ok (VerifyReport r (ReportSig m))) then (s, [])
          else let as_ := observedAS src in
               if String.eqb as_ "" then (s, [])
               else (set_ratings s (Some (RatingStore_Observe store (r_ExitID r) vouched (sampleFrom r as_)
                                            (t_capacity (clock i)))), [])
      end
  | _, _ => (s, [])
  end.

(** ** [handle] *)

Definition handle (s : state) (m : wire) (src : UDPAddr) : state * sent :=
  let s := prune s (t_handle (clock i)) in
  let t := Type_ m in
  if String.eqb t "hello" then handle_hello s m src
  else if String.eqb t "register" then handle_register s m src
  else if String.eqb t "heartbeat" then handle_heartbeat s m src
  else if String.eqb t "list" then handle_list s m src
  else if String.eqb t "challenge" then handle_challenge s m src
  else if String.eqb t "connect" then handle_connect s m src
  else if String.eqb t "offer" || String.eqb t "answer" || String.eqb t "candidate" then handle_signal s m src
  else if String.eqb t "capacity-report" then handle_capacity_report s m src
  else (s, []).
End Handlers.

(** ** The sweep *)

(** The relay incarnation a session was given is still there. *)
Definition relay_alive (s : state) (now : Time) (x : session) : bool :=
  match relays s !! relayID x with
  | Some r => (time_Sub now (r_lastSeen r) <=? ttl / 2)
              && String.eqb (UDPAddr_String (r_addr r)) (UDPAddr_String (peer x))
  | None => false
  end.

Definition relay_dead (s : state) (now : Time) (x : session) : bool :=
  negb (String.eqb (relayID x) "") && negb (relay_alive s now x).

(** [order] is the session map as Go walked it. *)
Definition reselectDeadRelays (s : state) (now : Time) (order : list (string * session)) : state * sent :=
  let dead := filter (fun kv => relay_dead s now kv.2) order in
  (set_sessions s (foldl (fun m kv => delete kv.1 m) (sessions s) dead),
   (fun kv => (client kv.2, msg_reselect kv.1)) <$> dead).

(** [assignedNode], then the tally of one node: answered and unanswered sessions. *)
Definition assignedNode (x : session) : option (string * string) :=
  if negb (String.eqb (relayID x) "") then Some ("relay", relayID x)
  else if negb (String.eqb (s_exitID x) "") then Some ("exit", s_exitID x)
  else None.

Definition tally (ss : gmap string session) (now : Time) : gmap (string * string) (Z * Z) :=
  map_fold (fun _ x t =>
    match assignedNode x with
    | None => t
    | Some ref =>
        let '(a, u) := default (0, 0) (t !! ref) in
        <[ref := if answered x then (a + 1, u)
                 else if signaled x && (answerGrace <? time_Sub now (s_lastSeen x)) then (a, u + 1)
                 else (a, u)]> t
    end) ∅ ss.

Definition judge (t : option (Z * Z)) (h : forwarderHealth) : forwarderHealth :=
  match t with
  | None => h
  | Some (a, u) =>
      if 0 <? a then MkHealth (release h) false
      else if (u =? 0) || silentWarned h then h
      else MkHealth (release h) true
  end.

Definition set_r_health (r : relayNode) (h : forwarderHealth) : relayNode :=
  MkRelay h (r_id r) (r_addr r) (ingressPort r) (r_speedCap r) (r_declaredQuota r) (r_exhausted r)
    (r_lastSeen r) (r_claims r).
Definition set_e_health (e : exitNode) (h : forwarderHealth) : exitNode :=
  MkExit h (e_id e) (tcpAddr e) (udp e) (e_speedCap e) (e_declaredQuota e) (e_exhausted e)
    (e_lastSeen e) (e_claims e).

Definition reportUnansweredNodes (s : state) (now : Time) : state :=
  let t := tally (sessions s) now in
  MkState (map_imap (fun id r => Some (set_r_health r (judge (t !! ("relay", id)) (r_health r)))) (relays s))
          (map_imap (fun id e => Some (set_e_health e (judge (t !! ("exit", id)) (e_health e)))) (exits s))
          (sessions s) (mintedConnects s) (challenges s) (ratings s).

Definition sweepTick (s : state) (now : Time) (order : gmap string session -> list (string * session))
    : state * sent :=
  let s := prune s now in
  let '(s, out) := reselectDeadRelays s now (order (sessions s)) in
  (reportUnansweredNodes s now, out).

(** ** The signed directory: [buildSnapshot] *)

Definition exit_entry (cfg : Config) (operators : gmap string string) (e : exitNode) : Entry :=
  MkEntry "exit" (e_id e) (e_country e) (tcpAddr e) (source (e_claims e))
    (publishedDeclaration cfg (declared (e_claims e))) "" (default "" (operators !! e_id e)).

Definition relay_entry (cfg : Config) (operators : gmap string string) (id : string) (r : relayNode) : Entry :=
  MkEntry "relay" id (derived (r_claims r)) (UDPAddr_String (r_addr r)) (source (r_claims r))
    (publishedDeclaration cfg (declared (r_claims r)))
    (if ingressPort r =? 0 then ""
     else string_of (JoinHostPort (ip_String (addr_IP (r_addr r))) (bytes_of (Itoa (ingressPort r)))))
    (default "" (operators !! id)).

(** [accounts] are the entries of [accountServiceEntries]. *)
Definition buildSnapshot (cfg : Config) (i : Inputs) (operators : gmap string string) (advertise : string)
    (accounts : list Entry) (s : state) (now : Time) : state * Snapshot :=
  let s := prune s now in
  let entries :=
    MkEntry "coordinator" "coordinator" "" advertise "" "" "" "" :: accounts
      ++ (exit_entry cfg operators <$> filter (fun e => negb (e_exhausted e)) (exit_order i (exits s)).*2)
      ++ ((fun kv => relay_entry cfg operators kv.1 kv.2)
            <$> filter (fun kv => negb (r_exhausted kv.2)) (relay_order i (relays s))) in
  (s, MkSnapshot SnapshotVersion now (time_Add now snapshotTTL) entries).

(** One round of [refreshSnapshotLoop]: the directory served from now on. *)
Definition refreshSnapshot `{Ed25519} `{JSON Snapshot} (priv : PrivateKey) (snap : Snapshot) : bytes :=
  Coldstart.Sign priv snap.

(** One round of [reloadSecretsLoop]: a file that does not load changes nothing. *)
Definition reloadSecrets `{JSON (gmap string string)} (file : option bytes) (current : gmap string bytes)
    : gmap string bytes :=
  match LoadMemStore file with Ok store => store | Err _ => current end.

(** ** Connect keys *)

Lemma connectKey_inj a b n m :
  no_nul (bytes_of (addr_Zone a)) -> no_nul (bytes_of (addr_Zone b)) ->
  connectKey a n = connectKey b m -> UDPAddr_String a = UDPAddr_String b /\ n = m.
Proof.
  intros Ha%UDPAddr_String_no_nul Hb%UDPAddr_String_no_nul Heq.
  assert (forall l, no_nul l -> Ascii.zero ∉ l) as Hnul.
  { intros l Hl Hin. unfold no_nul in Hl. rewrite Forall_forall in Hl. by apply (Hl _ Hin). }
  apply (f_equal bytes_of) in Heq. unfold connectKey in Heq. rewrite !bytes_of_app in Heq.
  apply app_sep_inj in Heq as [Hx Hy]; [|by apply Hnul..].
  split; by apply bytes_of_inj.
Qed.

(** ** What a connect does *)

Section ConnectProofs.
Context `{FloatPlatform} `{Ed25519} `{JSON Credential} `{JSON IssuerCert} `{JSON DeviceCredential}.
Context (cfg : Config) (i : Inputs).
Abbreviation now := (t_handle (clock i)).

(** The node a session is opened with: the exit itself, or a live relay that is not
    the exit's own node. *)
Inductive opened (s : state) (m : wire) (e : exitNode) : UDPAddr -> string -> Prop :=
| opened_exit u : udp e = Some u -> opened s m e u ""
| opened_relay id r :
    Mode m <> "direct" -> (id, r) ∈ relay_order i (relays s) ->
    relay_usable cfg (ratings s) (e_id e) (t_pick (clock i)) (id, r) = true ->
    opened s m e (r_addr r) (r_id r).

Definition exit_named (m : wire) (e : exitNode) : string := if String.eqb (FirstHop m) "" then e_id e else "".

(** The state after opening a session and recording the answer. *)
Definition with_session (s : state) (m : wire) (src : UDPAddr) (x : session) (mc : mintedConnect) : state :=
  set_minted (set_sessions s (<[rand_id i := x]> (sessions s)))
    (<[connectKey src (Nonce m) := mc]> (mintedConnects s)).

Lemma mint_cases s m src limits e s1 out :
  mint cfg i s m src limits e = (s1, out) -> Nonce m <> "" ->
  (s1 = s /\ out = [(src, msg_error "" "")]) \/
  exists p rid assign reply,
    opened s m e p rid /\
    s1 = with_session s m src (MkSession src p rid (exit_named m e) false false now)
           (MkMinted (Some p) assign reply now) /\
    out = [(p, assign); (src, reply)] /\
    Type_ assign = "assign" /\ Session assign = rand_id i /\ SessionCapBps assign = SpeedCapBps limits /\
    Type_ reply = "session" /\ Session reply = rand_id i /\ ExitID reply = exit_named m e.
Proof.
  intros Hm Hn. unfold mint, pairAndReply in Hm.
  assert (String.eqb (Nonce m) "" = false) as Hn' by by apply String.eqb_neq. rewrite Hn' in Hm.
  assert ((if negb (String.eqb (FirstHop m) "") then "" else e_id e) = exit_named m e) as Hx.
  { unfold exit_named. by destruct (String.eqb (FirstHop m) ""). }
  rewrite Hx in Hm. destruct (String.eqb_spec (Mode m) "direct") as [Hd|Hd].
  - destruct (udp e) as [u|] eqn:Hu; injection Hm as <- <-; [right|by left].
    do 4 eexists. split_and!; try reflexivity. by constructor.
  - destruct (pickRelay cfg i s (e_id e)) as [r|] eqn:Hr.
    + injection Hm as <- <-. right. do 4 eexists. split_and!; try reflexivity.
      unfold pickRelay in Hr. apply fmap_Some in Hr as ([id r'] & Hf & ->).
      apply find_some in Hf as [Hin Hus]. rewrite <-list_elem_of_In in Hin. by eapply opened_relay.
    + destruct (udp e) as [u|] eqn:Hu; injection Hm as <- <-; [right|by left].
      do 4 eexists. split_and!; try reflexivity. by constructor.
Qed.

(** Every gate a connect passed on its way to a session. *)
Record passed (s : state) (m : wire) (src : UDPAddr) (m' : wire) (cs : challengeStore) (limits : TierLimit)
    (e : exitNode) : Prop := {
  p_message : m' = set_creds m (admissionCredFor (challenges s) m src (t_cred (clock i)))
                      (issuerCertFor (challenges s) m src (t_issuer (clock i)));
  p_tier : exists cred, admit_ cfg i m' RoleClient "" = Ok cred /\ resolveTier cfg cred = Ok limits;
  p_policy : policyAllowsAssignment (policyState cfg) = true;
  p_nonce : (1 <= String.length (Nonce m') <= maxNonceLen)%nat;
  p_device : admitDevice cfg (challenges s) m' src i = (cs, Ok tt);
  p_target : connect_target cfg i (set_challenges s cs) m' src limits = Ok e;
}.

Lemma handle_connect_cases s m src s1 out :
  handle_connect cfg i s m src = (s1, out) ->
  sessions s1 = sessions s \/
  exists m' cs limits e p rid assign reply,
    passed s m src m' cs limits e /\ opened (set_challenges s cs) m' e p rid /\
    s1 = with_session (set_challenges s cs) m' src (MkSession src p rid (exit_named m' e) false false now)
           (MkMinted (Some p) assign reply now) /\
    out = [(p, assign); (src, reply)] /\
    Type_ assign = "assign" /\ Session assign = rand_id i /\ SessionCapBps assign = SpeedCapBps limits /\
    Type_ reply = "session" /\ Session reply = rand_id i /\ ExitID reply = exit_named m' e.
Proof.
  unfold handle_connect. set (m' := set_creds _ _ _).
  destruct (admit_ cfg i m' RoleClient "") as [cred|] eqn:Hadm; [|by intros [= <- <-]; left].
  destruct (policyAllowsAssignment (policyState cfg)) eqn:Hpol; simpl; [|by intros [= <- <-]; left].
  destruct (String.eqb (Nonce m) "" || _) eqn:Hn; [by intros [= <- <-]; left|].
  destruct (replayMintedConnect _ _ _ _); [by intros [= <- <-]; left|].
  destruct (admitDevice cfg (challenges s) m' src i) as [cs [[]|err]] eqn:Hdev; [|by intros [= <- <-]; left].
  destruct (resolveTier cfg cred) as [limits|] eqn:Ht; [|by intros [= <- <-]; left].
  destruct (connect_target cfg i (set_challenges s cs) m' src limits) as [e|] eqn:He; [|by intros [= <- <-]; left].
  b2p. intros Hm. apply mint_cases in Hm as [[-> ->]|(p & rid & assign & reply & Hop & -> & -> & Hrest)];
    [by left| |done].
  right. exists m', cs, limits, e, p, rid, assign, reply. split_and!; try done; try apply Hrest.
  split; try done; [by eauto|]. change (Nonce m') with (Nonce m).
  split; [|by apply Nat.ltb_ge]. destruct (Nonce m); [done|simpl; lia].
Qed.

(** Only a connect opens a session. *)
Lemma handle_new_session s m src s1 out sid :
  handle cfg i s m src = (s1, out) ->
  sessions (prune s now) !! sid = None -> is_Some (sessions s1 !! sid) ->
  Type_ m = "connect" /\ handle_connect cfg i (prune s now) m src = (s1, out).
Proof.
  unfold handle. cbv zeta. intros Hh Hold [x Hx].
  assert (forall s' o, (s', o) = (s1, out) -> sessions s' = sessions (prune s now) -> False) as Hsame.
  { intros s' o [= -> ->] Heq. rewrite Heq in Hx. congruence. }
  destruct (String.eqb_spec (Type_ m) "hello").
  { exfalso. unfold handle_hello in Hh. destruct (Check _); by apply Hsame in Hh. }
  destruct (String.eqb_spec (Type_ m) "register").
  { exfalso. unfold handle_register in Hh. repeat case_match; by apply Hsame in Hh. }
  destruct (String.eqb_spec (Type_ m) "heartbeat").
  { exfalso. unfold handle_heartbeat in Hh. repeat case_match; by apply Hsame in Hh. }
  destruct (String.eqb_spec (Type_ m) "list").
  { exfalso. unfold handle_list in Hh. repeat case_match; by apply Hsame in Hh. }
  destruct (String.eqb_spec (Type_ m) "challenge").
  { exfalso. unfold handle_challenge in Hh. repeat case_match; by apply Hsame in Hh. }
  destruct (String.eqb_spec (Type_ m) "connect"); [done|].
  exfalso. destruct (_ || _) in Hh.
  - unfold handle_signal in Hh. destruct (sessions (prune s now) !! Session m) as [y|] eqn:Hy; [|by apply Hsame in Hh].
    injection Hh as <- <-. simpl in Hx, Hold, Hy. destruct (decide (sid = Session m)) as [->|]; [congruence|].
    rewrite lookup_insert_ne in Hx by done. congruence.
  - destruct (String.eqb (Type_ m) "capacity-report"); [|by apply Hsame in Hh].
    unfold handle_capacity_report in Hh. repeat case_match; by apply Hsame in Hh.
Qed.
End ConnectProofs.

Section CoordinatorProofs.
Context `{FloatPlatform} `{Ed25519} `{JSON Credential} `{JSON IssuerCert} `{JSON DeviceCredential}.

Lemma connect_target_live cfg i s m src limits e :
  walks_all i -> connect_target cfg i (prune s (t_handle (clock i))) m src limits = Ok e ->
  exists id, exits s !! id = Some e /\ time_Sub (t_handle (clock i)) (e_lastSeen e) <= ttl /\ e_exhausted e = false.
Proof.
  intros [Hw _]. set (s' := prune s _).
  assert (forall id, exits s' !! id = Some e -> e_exhausted e = false ->
    exists id, exits s !! id = Some e /\ time_Sub (t_handle (clock i)) (e_lastSeen e) <= ttl /\ e_exhausted e = false) as Hlive.
  { intros id Hid Hx. exists id. subst s'. simpl in Hid. apply map_lookup_filter_Some in Hid as [? Hs].
    simpl in Hs. rewrite Is_true_true in Hs. b2p. done. }
  unfold connect_target. destruct (negb (String.eqb (FirstHop m) "")).
  - destruct (negb _); [done|]. unfold resolveFirstHop.
    destruct (exits s' !! FirstHop m) as [e'|] eqn:He; [|done].
    destruct (e_exhausted e' || _) eqn:Hx; [done|]. intros [= ->]. b2p. eauto.
  - intros Hc. eapply chooseExit_candidate in Hc as (id & Hid & _ & Ha); [|apply Hw].
    eapply Hlive; [exact Hid|]. unfold exitAssignable in Ha. by destruct (e_exhausted e).
Qed.

(** C2: whatever message arrives, a session is opened only by a connect that passed every
    gate: an admitted client, an enforceable policy, a nonce, the device gate, a known
    tier. It is the caller's own session, under the fresh identifier; it ends at a
    registered exit heard from within the time to live and not out of quota; its peer
    is that exit or a relay other than the exit, heard from within half the time to
    live and not out of quota; and exactly the peer is told, with the tier's speed cap,
    and the caller. *)
Theorem session_opened_sound cfg i s m src s1 out sid x :
  walks_all i -> handle cfg i s m src = (s1, out) ->
  sessions (prune s (t_handle (clock i))) !! sid = None -> sessions s1 !! sid = Some x ->
  Type_ m = "connect" /\ sid = rand_id i /\ client x = src /\
  exists m' cs limits e assign reply,
    passed cfg i (prune s (t_handle (clock i))) m src m' cs limits e /\ s_exitID x = exit_named m' e /\
    (exists id, exits s !! id = Some e /\ time_Sub (t_handle (clock i)) (e_lastSeen e) <= ttl /\
       e_exhausted e = false) /\
    ((relayID x = "" /\ udp e = Some (peer x)) \/
     exists id r, relays s !! id = Some r /\ id <> e_id e /\ relayID x = r_id r /\ peer x = r_addr r /\
       time_Sub (t_pick (clock i)) (r_lastSeen r) <= ttl / 2 /\ r_exhausted r = false) /\
    out = [(peer x, assign); (src, reply)] /\ SessionCapBps assign = SpeedCapBps limits /\
    Session assign = sid /\ Session reply = sid.
Proof.
  intros Hw Hh Hold Hx.
  destruct (handle_new_session cfg i s m src s1 out sid Hh Hold) as [Ht Hc]; [eauto|].
  apply handle_connect_cases in Hc as [Heq|(m' & cs & limits & e & p & rid & assign & reply & Hp & Ho & -> & -> & Hm)].
  { rewrite Heq in Hx. congruence. }
  simpl in Hx. destruct (decide (sid = rand_id i)) as [->|Hne].
  2:{ rewrite lookup_insert_ne in Hx by done. simpl in Hold. congruence. }
  rewrite lookup_insert_eq in Hx. injection Hx as <-. destruct Hm as (_ & Hsa & Hcap & _ & Hsr & _).
  split_and!; [done..|]. exists m', cs, limits, e, assign, reply. split_and!; try done.
  - eapply (connect_target_live cfg i (set_challenges s cs)); [done|]. apply (p_target _ _ _ _ _ _ _ _ _ Hp).
  - destruct Ho as [u Hu|id r Hmode Hin Hus]; [by left|right]. simpl.
    destruct Hw as [_ Hw]. rewrite Hw in Hin. apply elem_of_map_to_list in Hin. simpl in Hin.
    apply map_lookup_filter_Some in Hin as [Hin _]. unfold relay_usable in Hus. b2p.
    exists id, r. split_and!; try done.
Qed.

(** C28: a retransmitted connect is answered again and opens nothing. If a connect opened
    a session, the same message from the same address up to thirty seconds later,
    admitted as before, gets exactly the same two messages sent again, and leaves the
    coordinator as the passing of time alone would. *)
Theorem retransmitted_connect cfg i1 i2 s m src s1 out :
  handle cfg i1 s m src = (s1, out) ->
  sessions (prune s (t_handle (clock i1))) !! rand_id i1 = None -> is_Some (sessions s1 !! rand_id i1) ->
  time_Sub (t_handle (clock i2)) (t_handle (clock i1)) <= connectDedupeTTL ->
  is_ok (admit_ cfg i2 (set_creds m (admissionCredFor (challenges s1) m src (t_cred (clock i2)))
                         (issuerCertFor (challenges s1) m src (t_issuer (clock i2)))) RoleClient "") = true ->
  handle cfg i2 s1 m src = (prune s1 (t_handle (clock i2)), out).
Proof.
  intros Hh Hold Hnew Hsoon Hadm.
  destruct (handle_new_session cfg i1 s m src s1 out _ Hh Hold Hnew) as [Ht Hc].
  apply handle_connect_cases in Hc as [Heq|(m' & cs & limits & e & p & rid & assign & reply & Hp & Ho & Hs1 & -> & Hm)].
  { rewrite Heq in Hnew. destruct Hnew. congruence. }
  destruct Hp as [Hm' _ Hpol Hnon _ _]. assert (Nonce m' = Nonce m) as Hnm by by rewrite Hm'. rewrite Hnm in Hnon.
  unfold handle. cbv zeta. rewrite Ht. simpl. unfold handle_connect.
  change (challenges (prune s1 _)) with (challenges s1).
  destruct (admit_ _ _ _ _ _) as [cred|]; [|done]. rewrite Hpol. cbn [negb].
  change (Nonce (set_creds m _ _)) with (Nonce m).
  assert (String.eqb (Nonce m) "" = false) as Hne by (apply String.eqb_neq; intros He; rewrite He in Hnon; simpl in Hnon; lia).
  rewrite Hne, (proj2 (Nat.ltb_ge _ _)) by lia. cbn [orb].
  assert (replayMintedConnect (prune s1 (t_handle (clock i2))) src (Nonce m) (t_handle (clock i2)) =
    Some [(p, assign); (src, reply)]) as ->; [|done].
  unfold replayMintedConnect. rewrite Hne.
  assert (mintedConnects (prune s1 (t_handle (clock i2))) !! connectKey src (Nonce m) =
    Some (MkMinted (Some p) assign reply (t_handle (clock i1)))) as ->.
  { subst s1. simpl. rewrite Hnm. apply map_lookup_filter_Some. split; [apply lookup_insert_eq|].
    simpl. by rewrite (proj2 (Z.ltb_ge _ _)). }
  simpl. by rewrite (proj2 (Z.ltb_ge _ _)).
Qed.
End CoordinatorProofs.

(** ** A run with every gate on: two nodes register, a client fetches a challenge,
    connects through the relay, and retransmits *)

Module Demo.
Import Toy Estimator.Demo CoordDemo.
#[export] Existing Instance toy_json.

Definition full_cfg : Config := {|
  admissionVerifier := Some Admission.Demo.verifier; deviceVerifier := Some DeviceCred.Demo.verifier;
  deviceAudience := "coord"; servingFloor := MkVersion 1 0 0; coordRelease := "1.2.0";
  policyState := MkGate false None; geoDB := None; requireGeoIP := false; countryOverrides := None;
  minShare := 0; serveFloor := 0; exitClass := None; text := fun _ => "refused";
  asnTable := None |}.

Definition issue_for (k : PrivateKey) (subject role : string) : string :=
  match Issue k subject [role] (10 * Minute) (3 * Hour) "" (Some (bytes_of "12345678")) with
  | Some (_, t) => t
  | None => ""
  end.

Definition register (role id cred : string) (port : Z) : wire :=
  MkWire "register" role id "SE" "9.9.9.1:443" "" "" "" "" "" [] "" [] "" [] "" 0 [] "" cred "1.1.0" "" "" "" port
    0 0 0 "" None [] "" "" "" "".
Definition ask_challenge (cred : string) : wire :=
  MkWire "challenge" "" "" "" "" "" "" "" "" "" [] "" [] "" [] "" 0 [] "" cred "" "" "" "" 0 0 0 0 "" None []
    "" "" "" "".
(** The admission credential rides on the challenge request; the connect does without. *)
Definition connect : wire :=
  MkWire "connect" "" "" "se" "" "relay" "" "" "" "n1" [] "" [] "" [] "" 0 [] "" "" "" "" "" "" 0 0 0 0 "" None []
    (Challenge Challenges.Demo.connect) (w_DeviceCred Challenges.Demo.connect)
    (w_IssuerCert Challenges.Demo.connect) (DeviceAssert Challenges.Demo.connect).

Definition exit_src : UDPAddr := ip 9 9 9 1 700.
Definition relay_src : UDPAddr := ip 9 9 9 2 800.
Definition client_src : UDPAddr := ip 8 8 8 8 5000.
Definition at_ (secs : Z) (id : string) : Inputs := inputs (Hour + secs * Second) id.

Definition run1 (secs : Z) (id : string) (m : wire) (src : UDPAddr) (s : state) : state :=
  (handle full_cfg (at_ secs id) s m src).1.
Definition s_exit : state := run1 0 "" (register "exit" "e1" (issue_for Admission.Demo.operator_key "e1" RoleExit) 0) exit_src state0.
Definition s_relay : state :=
  run1 1 "" (register "relay" "r1" (issue_for Admission.Demo.operator_key "r1" RoleRelay) 9000) relay_src s_exit.
Definition s_ready : state :=
  run1 2 "" (ask_challenge (issue_for Admission.Demo.account_key "u1" RoleClient)) client_src s_relay.
Definition connected : state * sent := handle full_cfg (at_ 3 "s1") s_ready connect client_src.
End Demo.
Import Toy Estimator.Demo CoordDemo Demo.

Definition demo_session : session := MkSession Demo.client_src relay_src "r1" "e1" false false (Hour + 3 * Second).

Lemma connected_eq : handle full_cfg (at_ 3 "s1") s_ready connect Demo.client_src = (connected.1, connected.2).
Proof. unfold connected. apply surjective_pairing. Qed.
Lemma connected_session : sessions connected.1 !! "s1" = Some demo_session.
Proof. vm_compute. reflexivity. Qed.
Lemma ready_no_session : sessions (prune s_ready (t_handle (clock (at_ 3 "s1")))) !! "s1" = None.
Proof. vm_compute. reflexivity. Qed.

Lemma session_opened_sound_witness :
  exists id r, relays s_ready !! id = Some r /\ id <> "e1" /\ r_id r = "r1" /\ r_addr r = relay_src.
Proof.
  destruct (session_opened_sound full_cfg (at_ 3 "s1") s_ready connect Demo.client_src connected.1 connected.2
    "s1" demo_session (CoordDemo.inputs_walk _ _) connected_eq ready_no_session connected_session)
    as (_ & _ & _ & m' & cs & limits & e & assign & reply & Hp & Hx & _ & Hpeer & _).
  destruct Hpeer as [[Hr _]|(id & r & Hr & Hne & Hid & Hpe & _)]; [discriminate Hr|].
  exists id, r. split; [exact Hr|]. split; [|split; [symmetry; exact Hid|symmetry; exact Hpe]].
  unfold exit_named in Hx. destruct (String.eqb (FirstHop m') ""); [|discriminate Hx].
  simpl in Hx. rewrite Hx. exact Hne.
Defined.

Lemma retransmitted_connect_witness :
  handle full_cfg (at_ 20 "s2") connected.1 connect Demo.client_src =
    (prune connected.1 (Hour + 20 * Second), connected.2).
Proof.
  apply (retransmitted_connect full_cfg (at_ 3 "s1") (at_ 20 "s2") s_ready connect Demo.client_src connected.1 connected.2).
  - apply connected_eq.
  - apply ready_no_session.
  - exists demo_session. apply connected_session.
  - vm_compute. discriminate.
  - vm_compute. reflexivity.
Defined.
