(* ===== verification/CoordSafety.v ===== *)
(** * What holds of the coordinator in every reachable state

    The coordinator as a transition system: any message from any address, the sweep, the
    directory snapshot, the sweep of the challenges and the advance of the ratings, in
    any order and at any times. Its invariant is proved by induction on the runs; the
    registration, sweep and connect theorems say what single steps do. *)

From stdpp Require Import relations.
From S2P Require Import Prelude GoStrings Crypto Hashes GeoIP Stun Coldstart Version Delegation Admission Accounting DeviceCred.
From S2P Require Import Capacity Estimator Rating Policy PolicyGate Net GeoIP CoordState Challenges Geo Assign Coordinator.
Local Open Scope Z_scope.

(** ** Steps and runs *)

Section System.
Context `{FloatPlatform} `{Ed25519} `{JSON Credential} `{JSON IssuerCert} `{JSON DeviceCredential}.

(** One critical section of the coordinator. The configuration may differ from step to
    step: the policy, the revocation lists and the overrides are reloaded. *)
Inductive step : state -> state -> Prop :=
| step_message cfg i s m src : walks_all i -> step s (handle cfg i s m src).1
| step_sweep s now order :
    (forall ss, order ss ≡ₚ map_to_list ss) -> step s (sweepTick s now order).1
| step_snapshot cfg i operators advertise accounts s now :
    step s (buildSnapshot cfg i operators advertise accounts s now).1
| step_challenges s now : step s (set_challenges s (sweepLocked (challenges s) now))
| step_ratings s store now :
    ratings s = Some store -> step s (set_ratings s (Some (RatingStore_Advance store now))).

Definition initial (capacity : Z) (rt : option RatingStore) : state :=
  MkState ∅ ∅ ∅ ∅ (MkChallengeStore ∅ capacity time_zero false) rt.

(** ** The invariant *)

Definition relay_ok (id : string) (r : relayNode) : Prop :=
  r_id r = id /\ (ingressPort r = 0 \/ 1 <= ingressPort r <= 65535).
Definition exit_ok (id : string) (e : exitNode) : Prop := e_id e = id /\ is_Some (udp e).
(** A session answered was signaled, and no session is relayed by its own exit. *)
Definition session_ok (x : session) : Prop :=
  (answered x = true -> signaled x = true) /\ (relayID x <> "" -> relayID x <> s_exitID x).
Definition minted_ok (mc : mintedConnect) : Prop :=
  is_Some (mc_peer mc) /\ Type_ (mc_assign mc) = "assign" /\ Type_ (mc_reply mc) = "session" /\
  Session (mc_assign mc) = Session (mc_reply mc).

Record wf (s : state) : Prop := {
  wf_relays : map_Forall relay_ok (relays s);
  wf_exits : map_Forall exit_ok (exits s);
  wf_sessions : map_Forall (fun _ => session_ok) (sessions s);
  wf_minted : map_Forall (fun _ => minted_ok) (mintedConnects s);
  wf_challenges : len (challenges s) <= cap (challenges s);
}.

Lemma initial_wf capacity rt : wf (initial capacity rt).
Proof.
  split; [apply map_Forall_empty..|]. unfold len, cap, maxPendingChallenges. simpl.
  rewrite map_size_empty. destruct (Z.ltb_spec 0 capacity); lia.
Qed.

Lemma prune_wf s now : wf s -> wf (prune s now).
Proof. intros [? ? ? ? ?]. split; simpl; try done; by apply map_Forall_filtered. Qed.

(** An operation of the challenge store keeps it within its capacity. *)
Lemma set_challenges_wf s op : wf s -> wf (set_challenges s (run_op (challenges s) op).1).
Proof.
  intros [? ? ? ? Hc]. split; simpl; try done. destruct (run_op_bounded _ op Hc) as [-> ?]. lia.
Qed.

Lemma set_ratings_wf s rt : wf s -> wf (set_ratings s rt).
Proof. by intros [? ? ? ? ?]. Qed.
Lemma insert_relay_wf s id r : relay_ok id r -> wf s -> wf (set_relays s (<[id := r]> (relays s))).
Proof. intros ? [? ? ? ? ?]. split; simpl; try done. by apply map_Forall_insert_2. Qed.
Lemma insert_exit_wf s id e : exit_ok id e -> wf s -> wf (set_exits s (<[id := e]> (exits s))).
Proof. intros ? [? ? ? ? ?]. split; simpl; try done. by apply map_Forall_insert_2. Qed.
Lemma insert_session_wf s sid x : session_ok x -> wf s -> wf (set_sessions s (<[sid := x]> (sessions s))).
Proof. intros ? [? ? ? ? ?]. split; simpl; try done. by apply map_Forall_insert_2. Qed.
Lemma insert_minted_wf s k mc : minted_ok mc -> wf s -> wf (set_minted s (<[k := mc]> (mintedConnects s))).
Proof. intros ? [? ? ? ? ?]. split; simpl; try done. by apply map_Forall_insert_2. Qed.
#[local] Hint Resolve prune_wf set_challenges_wf set_ratings_wf insert_relay_wf insert_exit_wf
  insert_session_wf insert_minted_wf : coord.

(** ** Every handler keeps it *)

Section Handlers.
Context (cfg : Config) (i : Inputs) (s : state) (m : wire) (src : UDPAddr) (Hwf : wf s).


Lemma admitDevice_wf m' : wf (set_challenges s (admitDevice cfg (challenges s) m' src i).1).
Proof.
  unfold admitDevice. destruct (deviceVerifier cfg) as [v|]; [|by destruct Hwf].
  pose proof (set_challenges_wf s (OpSpend (challengeKey src) (Nonce m') (t_spend (clock i))) Hwf) as Hsp.
  simpl in Hsp. destruct (spend _ _ _ _) as [c r]. simpl in Hsp.
  pose proof (set_challenges_wf _ (OpDrop (challengeKey src)) Hsp) as Hdr. simpl in Hdr.
  destruct r; [destruct (check_presentation _ _ _ _ _)|]; done.
Qed.

Lemma handle_register_wf : wf (handle_register cfg i s m src).1.
Proof.
  unfold handle_register. repeat case_match; simpl; try done.
  - apply insert_relay_wf; [|done]. split; [done|]. simpl. unfold validIngressPort.
    destruct (Z.eqb_spec (IngressPort m) 0) as [->|]; simpl; [by left|].
    destruct (Z.leb_spec 1 (IngressPort m)), (Z.leb_spec (IngressPort m) 65535); simpl; lia.
  - apply insert_exit_wf; [|done]. by split.
Qed.

Lemma handle_heartbeat_wf : wf (handle_heartbeat cfg i s m src).1.
Proof.
  unfold handle_heartbeat. simpl. set (s1 := match relays s !! ID m with Some _ => _ | None => _ end).
  assert (wf s1) as Hwf1.
  { subst s1. destruct (relays s !! ID m) as [r|] eqn:Hr; [|done].
    apply insert_relay_wf; [|done]. apply (wf_relays _ Hwf _ _ Hr). }
  destruct (exits s1 !! ID m) as [e|] eqn:He; [|done].
  apply insert_exit_wf; [|done]. destruct (wf_exits _ Hwf1 _ _ He). by split.
Qed.

Lemma handle_challenge_wf : wf (handle_challenge cfg i s m src).1.
Proof.
  unfold handle_challenge, issueDeviceChallenge. destruct (admit_ _ _ _ _ _); [|done].
  destruct (deviceVerifier cfg); [|by destruct Hwf].
  set (cred := stashCred _ _). set (cert := stashIssuerCert _ _ _).
  pose proof (set_challenges_wf s (OpIssue (challengeKey src) cred cert (t_issue (clock i)) (rand_challenge i)) Hwf)
    as Hop. simpl in Hop.
  destruct (issue _ _ _ _ _ _) as [c [ch|]]; done.
Qed.

Lemma handle_signal_wf : wf (handle_signal i s m src).1.
Proof.
  unfold handle_signal. destruct (sessions s !! Session m) as [x|] eqn:Hx; [|done].
  apply insert_session_wf; [|done]. destruct (wf_sessions _ Hwf _ _ Hx) as [_ Hr]. by split.
Qed.

Lemma handle_capacity_report_wf : wf (handle_capacity_report cfg i s m src).1.
Proof. unfold handle_capacity_report. repeat case_match; simpl; auto with coord. Qed.

(** What a connect targets is a registered exit. *)
Lemma connect_target_registered s' limits e :
  walks_all i -> connect_target cfg i s' m src limits = Ok e -> exists id, exits s' !! id = Some e.
Proof.
  intros [Hw _]. unfold connect_target. destruct (negb (String.eqb (FirstHop m) "")).
  - destruct (negb _); [done|]. unfold resolveFirstHop.
    destruct (exits s' !! FirstHop m) as [e'|] eqn:He; [|done]. case_match; [done|]. intros [= ->]. eauto.
  - intros Hc. eapply chooseExit_candidate in Hc as (id & Hid & _); [eauto|apply Hw].
Qed.
End Handlers.

(** Opening a session keeps the invariant: the relay's registered name is not the exit's. *)
Lemma mint_wf cfg i s m src limits e id :
  walks_all i -> wf s -> exits s !! id = Some e -> Nonce m <> "" -> wf (mint cfg i s m src limits e).1.
Proof.
  intros [_ Hw] Hwf He Hn. destruct (mint cfg i s m src limits e) as [s1 out] eqn:Hm.
  apply mint_cases in Hm as [[-> ->]|(p & rid & assign & reply & Ho & -> & -> & Ht & Hs & _ & Ht' & Hs' & _)]; [done| |done].
  unfold with_session. apply (insert_minted_wf (set_sessions s _)).
  { split_and!; simpl; [by eexists|done|done|congruence]. }
  apply insert_session_wf; [|done]. split; [done|]. simpl.
  destruct Ho as [|rk r _ Hin Hus]; [done|]. rewrite Hw in Hin. apply elem_of_map_to_list in Hin.
  destruct (wf_relays _ Hwf _ _ Hin) as [-> _]. intros Hne. unfold exit_named.
  case_match; [|done]. unfold relay_usable in Hus. b2p. done.
Qed.

Lemma handle_connect_wf cfg i s m src : walks_all i -> wf s -> wf (handle_connect cfg i s m src).1.
Proof.
  intros Hw Hwf. unfold handle_connect. set (m' := set_creds _ _ _).
  destruct (admit_ _ _ _ _ _); [|done]. destruct (negb _); [done|].
  destruct (String.eqb (Nonce m') "" || _) eqn:Hn; [done|]. destruct (replayMintedConnect _ _ _ _); [done|].
  pose proof (admitDevice_wf cfg i s src Hwf m') as Hd.
  destruct (admitDevice cfg (challenges s) m' src i) as [cs [[]|err]]; [|done]. simpl in Hd.
  destruct (resolveTier _ _) as [limits|]; [|done].
  destruct (connect_target _ _ _ _ _ _) as [e|] eqn:He; [|done].
  apply connect_target_registered in He as [id He]; [|done]. b2p. by eapply mint_wf.
Qed.

#[local] Hint Resolve handle_register_wf handle_heartbeat_wf handle_challenge_wf handle_connect_wf handle_signal_wf
  handle_capacity_report_wf : coord.

Lemma handle_wf cfg i s m src : walks_all i -> wf s -> wf (handle cfg i s m src).1.
Proof.
  intros Hw Hwf. unfold handle. cbv zeta. pose proof (prune_wf s (t_handle (clock i)) Hwf) as Hp.
  repeat case_match;
    auto with coord.
  - unfold handle_hello. by case_match.
  - unfold handle_list. by repeat case_match.
Qed.

(** ** The sweep *)

Section Sweep.
Context (now : Time) (order : gmap string session -> list (string * session)).
Context (Horder : forall ss, order ss ≡ₚ map_to_list ss).

Lemma dead_elem s sid x :
  (sid, x) ∈ filter (fun kv => relay_dead s now kv.2) (order (sessions s)) <->
  sessions s !! sid = Some x /\ relay_dead s now x = true.
Proof. rewrite list_elem_of_filter, Horder, elem_of_map_to_list, Is_true_true. naive_solver. Qed.

Lemma reselect_sessions s sid x :
  sessions (reselectDeadRelays s now (order (sessions s))).1 !! sid = Some x <->
  sessions s !! sid = Some x /\ relay_dead s now x = false.
Proof.
  unfold reselectDeadRelays. simpl. rewrite deletes_lookup. split.
  - intros [Hs Hn]. split; [done|]. apply not_true_is_false. intros Hd. apply Hn.
    apply list_elem_of_fmap. exists (sid, x). split; [done|]. by apply dead_elem.
  - intros [Hs Hd]. split; [done|]. intros ([k y] & -> & Hin)%list_elem_of_fmap.
    apply dead_elem in Hin as [? ?]. simpl in *. congruence.
Qed.

Lemma report_sessions s : sessions (reportUnansweredNodes s now) = sessions s.
Proof. done. Qed.

Lemma sweepTick_wf s : wf s -> wf (sweepTick s now order).1.
Proof.
  intros Hwf%(prune_wf _ now). unfold sweepTick. set (s1 := prune s now) in *. clearbody s1.
  pose proof (reselect_sessions s1) as Hs. unfold reselectDeadRelays in *. simpl in Hs |- *.
  destruct Hwf as [Hr He Hx ? ?]. split; simpl; try done.
  - intros id r Hid. rewrite map_lookup_imap in Hid.
    destruct (relays s1 !! id) as [r0|] eqn:Hr0; simplify_eq/=. apply (Hr _ _ Hr0).
  - intros id e Hid. rewrite map_lookup_imap in Hid.
    destruct (exits s1 !! id) as [e0|] eqn:He0; simplify_eq/=. apply (He _ _ He0).
  - intros sid x Hsid. apply Hs in Hsid as [Hsid _]. apply (Hx _ _ Hsid).
Qed.
End Sweep.

(** The relay a session was given is gone: not registered, not heard from within half
    the time to live, or at another address than the session's peer. *)
Definition gone (s : state) (now : Time) (x : session) : Prop :=
  relayID x <> "" /\
  ~ (exists r, relays s !! relayID x = Some r /\ time_Sub now (r_lastSeen r) <= ttl / 2 /\
       UDPAddr_String (r_addr r) = UDPAddr_String (peer x)).

Lemma relay_dead_gone s now x :
  relay_dead (prune s now) now x = true <->
  gone s now x.
Proof.
  unfold gone, relay_dead, relay_alive. rewrite andb_true_iff, !negb_true_iff, String.eqb_neq.
  apply and_iff_compat_l. simpl. rewrite <-not_true_iff_false. apply not_iff_compat.
  destruct (filter _ (relays s) !! relayID x) as [r|] eqn:Hr.
  - apply map_lookup_filter_Some in Hr as [Hr _]. rewrite Hr, andb_true_iff, Z.leb_le, String.eqb_eq. naive_solver.
  - split; [done|]. intros (r & Hs & Ht & _). apply map_lookup_filter_None in Hr as [Hr|Hr]; [congruence|].
    exfalso. apply (Hr r Hs). simpl. rewrite Is_true_true, negb_true_iff, Z.ltb_ge.
    assert (ttl / 2 <= ttl) by (vm_compute; discriminate). lia.
Qed.

Lemma step_wf s s' : step s s' -> wf s -> wf s'.
Proof.
  intros Hst Hwf. destruct Hst as [cfg i s m src Hw|s now order Ho|cfg i ops adv acc s now|s now|s store now _].
  - by apply handle_wf.
  - by apply sweepTick_wf.
  - by apply prune_wf.
  - apply (set_challenges_wf s (OpSweep now) Hwf).
  - by apply set_ratings_wf.
Qed.

Lemma run_wf s s' : rtc step s s' -> wf s -> wf s'.
Proof. induction 1 as [|s1 s2 s3 Hst _ IH]; [done|]. intros Hwf. apply IH. by eapply step_wf. Qed.

(** C1: the coordinator's registries stay consistent in every run, whatever messages
    arrive from whatever addresses, with the sweeps, snapshots and reloads anywhere
    between them: nodes are filed under their own names; an advertised ingress port is
    a real port; every exit has a signaling address, so opening a session never finds
    it missing; an answered session was signaled; no session is relayed by the node
    that is its exit; a recorded answer names a peer and one session; and the pending
    challenges stay within their capacity. *)
Theorem coordinator_wf capacity rt s :
  rtc step (initial capacity rt) s -> wf s.
Proof. intros Hrun. eapply run_wf, initial_wf. exact Hrun. Qed.

(** C30: the sweep ends exactly the sessions it should and tells exactly their clients. A
    session survives the sweep unless it expired or its relay is gone: relayed through
    a node that is no longer registered, not heard from within half the time to live,
    or now at another address than the session's peer. The clients of the latter, and
    no one else, are told to reselect, once per session. *)
Theorem sweepTick_exact s now order s1 out :
  (forall ss, order ss ≡ₚ map_to_list ss) -> sweepTick s now order = (s1, out) ->
  (forall sid x, sessions s1 !! sid = Some x <->
     sessions s !! sid = Some x /\ session_expired now x = false /\ ~ gone s now x) /\
  (forall to msg, (to, msg) ∈ out <-> exists sid x,
     sessions s !! sid = Some x /\ session_expired now x = false /\ gone s now x /\
     to = client x /\ msg = msg_reselect sid) /\
  NoDup (Session <$> out.*2).
Proof.
  intros Ho Hs. pose proof (relay_dead_gone s now) as Hdead.
  assert (forall sid x, sessions (prune s now) !! sid = Some x <->
    sessions s !! sid = Some x /\ session_expired now x = false) as Hlive.
  { intros sid x. simpl. rewrite map_lookup_filter_Some. simpl. rewrite Is_true_true, negb_true_iff. done. }
  unfold sweepTick in Hs. set (p := prune s now) in *.
  assert (sessions s1 = sessions (reselectDeadRelays p now (order (sessions p))).1 /\
          out = (reselectDeadRelays p now (order (sessions p))).2) as [Hs1 Hout].
  { destruct (reselectDeadRelays p now (order (sessions p))). by simplify_eq. }
  rewrite Hout. split_and!.
  - intros sid x. rewrite Hs1, (reselect_sessions now order Ho), Hlive, <-Hdead, not_true_iff_false. tauto.
  - intros to msg. unfold reselectDeadRelays. cbn [snd]. rewrite list_elem_of_fmap. split.
    + intros ([sid x] & Heq & Hin). apply (dead_elem now order Ho) in Hin as [Hin Hd].
      apply Hlive in Hin as [? ?]. exists sid, x. simplify_eq/=. by rewrite <-Hdead.
    + intros (sid & x & ? & ? & Hd & -> & ->). exists (sid, x). split; [done|].
      apply (dead_elem now order Ho). by rewrite Hlive, Hdead.
  - unfold reselectDeadRelays. cbn [snd]. rewrite <-!list_fmap_compose.
    apply NoDup_fmap_fst_filter; [done|]. rewrite Ho. apply NoDup_fst_map_to_list.
Qed.

(** ** Joining the pool *)

(** The message is a registration that every fence let through. *)
Definition may_serve (cfg : Config) (i : Inputs) (s : state) (m : wire) (role id : string) : Prop :=
  Type_ m = "register" /\ Role m = role /\ ID m = id /\
  is_ok (admit_ cfg i m role id) = true /\
  servingCheck cfg (ratings s) (Release m) id (DeclaredQuotaBytes m) = Ok tt /\
  policyAllowsAssignment (policyState cfg) = true.

Lemma handle_same_nodes cfg i s m src s1 out :
  handle cfg i s m src = (s1, out) -> Type_ m <> "register" ->
  (forall id, relays (prune s (t_handle (clock i))) !! id = None -> relays s1 !! id = None) /\
  (forall id, exits (prune s (t_handle (clock i))) !! id = None -> exits s1 !! id = None).
Proof.
  intros Hh Hr. set (p := prune s (t_handle (clock i))).
  assert (forall s' o, (s', o) = (s1, out) -> relays s' = relays p -> exits s' = exits p ->
    (forall id, relays p !! id = None -> relays s1 !! id = None) /\
    (forall id, exits p !! id = None -> exits s1 !! id = None)) as Hsame.
  { intros s' o [= -> ->] -> ->. done. }
  unfold handle in Hh. cbv zeta in Hh. fold p in Hh. clearbody p.
  rewrite (proj2 (String.eqb_neq _ _) Hr) in Hh.
  destruct (String.eqb (Type_ m) "hello"); [unfold handle_hello in Hh; case_match; by eapply Hsame|].
  destruct (String.eqb (Type_ m) "heartbeat").
  { unfold handle_heartbeat in Hh. cbv zeta in Hh.
    destruct (relays p !! ID m) as [r|] eqn:Hrl; simpl in Hh; destruct (exits p !! ID m) as [e|] eqn:Hex;
      injection Hh as <- <-; split; intros id Hid; simpl; rewrite ?lookup_insert_ne by congruence; done. }
  destruct (String.eqb (Type_ m) "list"); [unfold handle_list in Hh; repeat case_match; by eapply Hsame|].
  destruct (String.eqb (Type_ m) "challenge"); [unfold handle_challenge in Hh; repeat case_match; by eapply Hsame|].
  destruct (String.eqb (Type_ m) "connect").
  { unfold handle_connect, mint, pairAndReply in Hh. repeat case_match; by eapply Hsame. }
  destruct (_ || _) in Hh; [unfold handle_signal in Hh; repeat case_match; by eapply Hsame|].
  unfold handle_capacity_report in Hh. repeat case_match; by eapply Hsame.
Qed.

(** C29: a node joins the pool only through the fences. Whatever message arrives, a relay
    or an exit that was not registered before is registered after it only if the
    message is a registration under that very name and role, admitted with a credential
    for them, past the version, quota and measured-rate floors, while the policy allows
    assignment; its address is the one the message came from, and its country claims
    are those derived from its id, that address and the country the message reports, for an
    exit also the address it reports: a database, an override for the id or the report
    itself may decide. *)
Theorem node_registered_sound cfg i s m src s1 out id :
  handle cfg i s m src = (s1, out) ->
  (forall r, relays (prune s (t_handle (clock i))) !! id = None -> relays s1 !! id = Some r ->
     may_serve cfg i s m "relay" id /\ r_id r = id /\ r_addr r = src /\ r_lastSeen r = t_handle (clock i) /\
     r_claims r = deriveCountry cfg id src (Country m)) /\
  (forall e, exits (prune s (t_handle (clock i))) !! id = None -> exits s1 !! id = Some e ->
     may_serve cfg i s m "exit" id /\ e_id e = id /\ udp e = Some src /\ e_lastSeen e = t_handle (clock i) /\
     e_claims e = deriveExitCountry cfg id src (Country m) (Addr m)).
Proof.
  intros Hh. destruct (decide (Type_ m = "register")) as [Ht|Ht].
  2:{ destruct (handle_same_nodes cfg i s m src s1 out Hh Ht) as [Hr He].
      split; intros x Hold Hnew; [apply Hr in Hold|apply He in Hold]; congruence. }
  unfold handle in Hh. cbv zeta in Hh. rewrite Ht in Hh. simpl in Hh. set (p := prune s _) in *.
  unfold handle_register in Hh. destruct (admit_ cfg i m (Role m) (ID m)) as [cred|] eqn:Ha.
  2:{ split; intros; simplify_eq. }
  destruct (servingCheck _ _ _ _ _) as [[]|] eqn:Hsc; [|split; intros; simplify_eq].
  destruct (policyAllowsAssignment _) eqn:Hp; simpl in Hh; [|split; intros; simplify_eq].
  destruct (String.eqb_spec (Role m) "relay") as [Hro|Hro].
  { injection Hh as <- <-. split; [|intros; simpl in *; congruence]. intros r Hold Hnew. simpl in Hnew.
    apply lookup_insert_Some in Hnew as [[<- <-]|[_ Hnew]]; [|simpl in Hold; congruence].
    rewrite <-Hro. unfold may_serve. by rewrite Ha. }
  destruct (String.eqb_spec (Role m) "exit") as [Hre|Hre].
  2:{ split; intros; simplify_eq. }
  injection Hh as <- <-. split; [intros; simpl in *; congruence|]. intros e Hold Hnew. simpl in Hnew.
  apply lookup_insert_Some in Hnew as [[<- <-]|[_ Hnew]]; [|simpl in Hold; congruence].
  rewrite <-Hre. unfold may_serve. by rewrite Ha.
Qed.

(** ** A connect that passes the gates is served *)

Lemma mint_opens cfg i s m src limits e :
  is_Some (udp e) -> Nonce m <> "" ->
  exists p rid assign reply, mint cfg i s m src limits e =
    (with_session i s m src (MkSession src p rid (exit_named m e) false false (t_handle (clock i)))
       (MkMinted (Some p) assign reply (t_handle (clock i))), [(p, assign); (src, reply)]).
Proof.
  intros [u Hu] Hn. destruct (mint cfg i s m src limits e) as [s1 out] eqn:Hm.
  pose proof Hm as Hc. apply mint_cases in Hc as [[-> ->]|(p & rid & assign & reply & _ & -> & -> & _)]; [|by eauto|done].
  exfalso. unfold mint, pairAndReply in Hm. rewrite Hu in Hm. repeat case_match; simplify_eq/=.
Qed.

(** C3: a connect that passes every gate is served: in any state a run can reach, if it is
    not a retransmission, a session of the caller is opened under the fresh identifier,
    and its peer and the caller are told. In particular the coordinator never picks an
    exit that it then cannot reach. *)
Theorem connect_served cfg i capacity rt s m src m' cs limits e :
  rtc step (initial capacity rt) s -> walks_all i -> Type_ m = "connect" ->
  passed cfg i (prune s (t_handle (clock i))) m src m' cs limits e ->
  replayMintedConnect (prune s (t_handle (clock i))) src (Nonce m) (t_handle (clock i)) = None ->
  exists s1 x assign reply,
    handle cfg i s m src = (s1, [(peer x, assign); (src, reply)]) /\
    sessions s1 !! rand_id i = Some x /\ client x = src /\ s_exitID x = exit_named m' e /\
    answered x = false.
Proof.
  intros Hrun Hw Ht [Hm' (cred & Ha & Htier) Hpol Hnon Hdev Htgt] Hrep.
  assert (wf (prune s (t_handle (clock i)))) as Hwf.
  { eapply prune_wf, run_wf, initial_wf. exact Hrun. }
  destruct (connect_target_registered cfg i m' src _ limits e Hw Htgt) as [id Hid]. simpl in Hid.
  destruct (wf_exits _ Hwf id e Hid) as [_ Hu].
  assert (Nonce m' = Nonce m) as Hnm by by rewrite Hm'.
  assert (Nonce m' <> "") as Hn. { intros He. rewrite He in Hnon. simpl in Hnon. lia. }
  destruct (mint_opens cfg i (set_challenges (prune s (t_handle (clock i))) cs) m' src limits e Hu Hn)
    as (p & rid & assign & reply & Hmint).
  unfold handle. cbv zeta. rewrite Ht. simpl. unfold handle_connect. rewrite <-Hm', Ha, Hpol. cbn [negb].
  rewrite (proj2 (String.eqb_neq _ _) Hn), (proj2 (Nat.ltb_ge _ _)) by lia. cbn [orb].
  rewrite Hnm, Hrep, Hdev, Htier, Htgt, Hmint. 
  eexists _, (MkSession src p rid (exit_named m' e) false false (t_handle (clock i))), assign, reply.
  split; [reflexivity|]. simpl. rewrite lookup_insert_eq. by split_and!.
Qed.
End System.

(** ** The directory *)

Section Directory.
Context `{Ed25519Laws} `{JSONLaws Snapshot}.

Lemma exit_entries_elem cfg i operators s en :
  walks_all i ->
  en ∈ (exit_entry cfg operators <$> filter (fun e => negb (e_exhausted e)) (exit_order i (exits s)).*2) <->
  exists id e, exits s !! id = Some e /\ e_exhausted e = false /\ en = exit_entry cfg operators e.
Proof.
  intros [Hw _]. rewrite list_elem_of_fmap. setoid_rewrite list_elem_of_filter.
  setoid_rewrite (order_elem (exits s) (exit_order i (exits s)) (Hw _)).
  setoid_rewrite Is_true_true. setoid_rewrite negb_true_iff. naive_solver.
Qed.

Lemma relay_entries_elem cfg i operators s en :
  walks_all i ->
  en ∈ ((fun kv => relay_entry cfg operators kv.1 kv.2)
          <$> filter (fun kv => negb (r_exhausted kv.2)) (relay_order i (relays s))) <->
  exists id r, relays s !! id = Some r /\ r_exhausted r = false /\ en = relay_entry cfg operators id r.
Proof.
  intros [_ Hw]. rewrite list_elem_of_fmap. setoid_rewrite list_elem_of_filter. setoid_rewrite Hw.
  setoid_rewrite Is_true_true. setoid_rewrite negb_true_iff. split.
  - intros ([id r] & -> & ? & Hin). apply elem_of_map_to_list in Hin. eauto.
  - intros (id & r & Hr & ? & ->). exists (id, r). by rewrite elem_of_map_to_list.
Qed.

(** What the directory is to list. *)
Definition listed (cfg : Config) (operators : gmap string string) (advertise : string) (accounts : list Entry)
    (s : state) (now : Time) (en : Entry) : Prop :=
  en = MkEntry "coordinator" "coordinator" "" advertise "" "" "" "" \/ en ∈ accounts \/
  (exists id e, exits s !! id = Some e /\ time_Sub now (e_lastSeen e) <= ttl /\ e_exhausted e = false /\
     en = exit_entry cfg operators e) \/
  (exists id r, relays s !! id = Some r /\ time_Sub now (r_lastSeen r) <= ttl /\ r_exhausted r = false /\
     en = relay_entry cfg operators id r).

(** The directory lists exactly what is live, and an invited client gets it. Besides
    the coordinator's own and the account-service entries, its entries are those of the
    exits and relays registered, heard from within the time to live and not out of
    quota. Until it expires five minutes later, a client that holds a secret of the
    coordinator's store and asks at the shared STUN/TURN port obtains exactly it. *)
Theorem directory_served cfg i operators advertise accounts s now :
  walks_all i ->
  let snap := (buildSnapshot cfg i operators advertise accounts s now).2 in
  (forall en, en ∈ Entries snap <-> listed cfg operators advertise accounts s now en) /\
  (forall priv secrets secretID secret tx reflexive later,
     secrets !! secretID = Some secret -> later <= now + 5 * Minute ->
     List.length tx = 12%nat -> Z.of_nat (String.length secretID) < 65000 ->
     Z.of_nat (List.length (refreshSnapshot priv snap)) < 65000 ->
     Bootstrap (fun req => intercept req reflexive secrets (Some (refreshSnapshot priv snap))) tx secretID (Some secret)
       (Public priv) later = Ok (MkResult snap (refreshSnapshot priv snap))).
Proof.
  intros Hw. cbv zeta. split.
  - intros en. unfold listed, buildSnapshot. cbn [snd Entries].
    rewrite elem_of_cons, !elem_of_app, exit_entries_elem, relay_entries_elem by done. cbn [exits relays prune].
    setoid_rewrite map_lookup_filter_Some. cbn [snd]. setoid_rewrite Is_true_true. setoid_rewrite negb_true_iff.
    setoid_rewrite Z.ltb_ge. naive_solver.
  - intros priv secrets secretID secret tx reflexive later Hs Hl Htx Hid Hlen. unfold Bootstrap.
    rewrite intercept_request by (done || by rewrite length_bytes_of). by apply bootstrap_served.
Qed.
End Directory.

(** ** Witnesses, on the run of [Coordinator.Demo] *)

Import Toy Estimator.Demo CoordDemo Coordinator.Demo.

Abbreviation exit_register := (register "exit" "e1" (issue_for Admission.Demo.operator_key "e1" RoleExit) 0).
Abbreviation relay_register := (register "relay" "r1" (issue_for Admission.Demo.operator_key "r1" RoleRelay) 9000).
Abbreviation challenge_request := (ask_challenge (issue_for Admission.Demo.account_key "u1" RoleClient)).

Lemma demo_run : rtc step (initial 0 None) s_ready.
Proof.
  refine (rtc_l _ _ s_exit _ (step_message full_cfg (at_ 0 "") state0 exit_register exit_src (inputs_walk _ _)) _).
  refine (rtc_l _ _ s_relay _ (step_message full_cfg (at_ 1 "") s_exit relay_register relay_src (inputs_walk _ _)) _).
  refine (rtc_l _ _ s_ready _
    (step_message full_cfg (at_ 2 "") s_relay challenge_request Coordinator.Demo.client_src (inputs_walk _ _)) _).
  apply rtc_refl.
Qed.

Lemma coordinator_wf_witness : wf connected.1.
Proof.
  refine (coordinator_wf 0 None connected.1 _).
  refine (rtc_r _ s_ready _ demo_run
    (step_message full_cfg (at_ 3 "s1") s_ready connect Coordinator.Demo.client_src (inputs_walk _ _))).
Defined.

Definition relay_gone : state * sent := sweepTick connected.1 (Hour + 22 * Second) map_to_list.

Lemma sweepTick_exact_witness :
  sessions connected.1 !! "s1" = Some demo_session /\ sessions relay_gone.1 !! "s1" = None /\
  (Coordinator.Demo.client_src, msg_reselect "s1") ∈ relay_gone.2.
Proof.
  assert (sweepTick connected.1 (Hour + 22 * Second) map_to_list = (relay_gone.1, relay_gone.2)) as Heq
    by (unfold relay_gone; apply surjective_pairing).
  destruct (sweepTick_exact connected.1 (Hour + 22 * Second) map_to_list relay_gone.1 relay_gone.2
    (fun _ => Permutation_refl _) Heq) as (Hkept & Htold & _).
  assert (relay_dead (prune connected.1 (Hour + 22 * Second)) (Hour + 22 * Second) demo_session = true) as Hd
    by (vm_compute; reflexivity).
  apply relay_dead_gone in Hd. pose proof connected_session as Hs. split; [exact Hs|]. split.
  - destruct (sessions relay_gone.1 !! "s1") as [x|] eqn:Hx; [exfalso|reflexivity].
    apply Hkept in Hx as (Hx & _ & Hn). rewrite Hs in Hx. injection Hx as <-. exact (Hn Hd).
  - apply Htold. exists "s1", demo_session. split; [exact Hs|]. split; [vm_compute; reflexivity|].
    split; [exact Hd|]. split; reflexivity.
Defined.

Lemma node_registered_sound_witness :
  exists r, relays s_relay !! "r1" = Some r /\ r_addr r = relay_src /\
    may_serve full_cfg (at_ 1 "") s_exit relay_register "relay" "r1".
Proof.
  destruct (relays s_relay !! "r1") as [r|] eqn:Hr; [|vm_compute in Hr; discriminate Hr].
  exists r. split; [reflexivity|].
  assert (handle full_cfg (at_ 1 "") s_exit relay_register relay_src =
    (s_relay, (handle full_cfg (at_ 1 "") s_exit relay_register relay_src).2)) as Heq
    by (unfold s_relay, run1; apply surjective_pairing).
  destruct (node_registered_sound full_cfg (at_ 1 "") s_exit relay_register relay_src s_relay _ "r1" Heq) as [Hn _].
  assert (relays (prune s_exit (t_handle (clock (at_ 1 "")))) !! "r1" = None) as Hnone by (vm_compute; reflexivity).
  destruct (Hn r Hnone Hr) as (Hm & _ & Ha & _). split; [exact Ha|exact Hm].
Defined.

Lemma connect_served_witness :
  exists s1 x out, handle full_cfg (at_ 3 "s1") s_ready connect Coordinator.Demo.client_src = (s1, out) /\
    sessions s1 !! "s1" = Some x /\ client x = Coordinator.Demo.client_src.
Proof.
  destruct (handle_new_session full_cfg (at_ 3 "s1") s_ready connect Coordinator.Demo.client_src _ _ "s1"
    connected_eq ready_no_session (ex_intro _ _ connected_session)) as [Ht Hc].
  apply handle_connect_cases in Hc as [Hsame|(m' & cs & limits & e & p & rid & assign & reply & Hp & _)].
  { pose proof connected_session as Hs. rewrite Hsame in Hs. rewrite ready_no_session in Hs. discriminate Hs. }
  destruct (connect_served full_cfg (at_ 3 "s1") 0 None s_ready connect Coordinator.Demo.client_src m' cs limits e
    demo_run (inputs_walk _ _) Ht Hp) as (s1 & x & a & r & Hh & Hs & Hcl & _).
  - vm_compute. reflexivity.
  - exists s1, x, [(peer x, a); (Coordinator.Demo.client_src, r)]. split; [exact Hh|]. split; [exact Hs|exact Hcl].
Defined.

#[local] Existing Instance toy_json_laws.
Definition published : Snapshot :=
  (buildSnapshot full_cfg (at_ 10 "") {["r1" := "op1"]} "9.9.9.9:7000" [] connected.1 (Hour + 10 * Second)).2.

Definition r_of (s : state) : relayNode :=
  default (MkRelay (MkHealth "" false) "" relay_src 0 0 0 false 0 (MkClaims "" "" "")) (relays s !! "r1").

Lemma directory_served_witness :
  (exists id r, relays connected.1 !! id = Some r /\ relay_entry full_cfg {["r1" := "op1"]} id r ∈ Entries published) /\
  Bootstrap (fun req => intercept req Stun.Demo.addr Coldstart.Demo.secrets
                          (Some (refreshSnapshot Coldstart.Demo.key published)))
    Stun.Demo.tx "0011223344556677" (Some Coldstart.Demo.secret) (Public Coldstart.Demo.key) (Hour + 4 * Minute) =
    Ok (MkResult published (refreshSnapshot Coldstart.Demo.key published)).
Proof.
  destruct (directory_served full_cfg (at_ 10 "") {["r1" := "op1"]} "9.9.9.9:7000" [] connected.1 (Hour + 10 * Second)
    (inputs_walk _ _)) as [Hlist Hserve].
  split.
  - assert (relays connected.1 !! "r1" = Some (r_of connected.1)) as Hr by (vm_compute; reflexivity).
    exists "r1", (r_of connected.1). split; [exact Hr|]. apply Hlist. right. right. right.
    exists "r1", (r_of connected.1). split; [exact Hr|]. split; [vm_compute; discriminate|].
    split; [vm_compute; reflexivity|reflexivity].
  - apply Hserve.
    + reflexivity.
    + vm_compute. discriminate.
    + reflexivity.
    + vm_compute. reflexivity.
    + vm_compute. reflexivity.
Defined.
