(* ===== verification/RelayChain.v ===== *)
(** * Relay chains: the directory and the choice of hops, [core/relaychain.go]

    A client that asks for more than one hop builds its circuit from the directory the
    coordinator signs: an exit in the country asked for, and hops that are distinct
    nodes, in distinct autonomous systems and of distinct operators as far as the
    directory allows. This file has the directory, its loading and reloading, the
    choice of the exit and of the hops, and the check of the relay that was assigned.
    The table the build embeds is [embedded]; what [crypto/rand] returns is a list of
    draws, in which a missing draw is an error of the source. *)

From S2P Require Import ASN.
From S2P Require Import Prelude GoStrings Base64 Hashes Crypto GeoIP Stun Coldstart.
Local Open Scope Z_scope.

(** ** The directory *)

Record relayHop := MkHop {
  h_id : string; h_pub : bytes; h_dial : string; h_operator : string; h_country : string;
  h_countryContradicted : bool; h_pairable : bool;
}.
#[export] Instance relayHop_eq_dec : EqDecision relayHop.
Proof. solve_decision. Defined.

Record relayDirectory := MkDirectory {
  hops : list relayHop;
  dialable : gset string;
  exitAddr : gmap string string;
  dir_as : option ASN.Table;
  own : gset string;
  reloadInterval : Duration;
}.

Definition relayDirReloadInterval : Duration := 5 * Minute.

(** A map's value, the empty string when the key is missing. *)
Definition addr_of (m : gmap string string) (id : string) : string := default "" (m !! id).

Definition in_country (want : string) (h : relayHop) : bool :=
  String.eqb want "" || String.eqb (Canonical (h_country h)) want.
Definition exitsIn (d : relayDirectory) (cc : string) : list relayHop :=
  let want := Canonical cc in
  filter (fun h => h_pairable h && negb (h_countryContradicted h) && in_country want h) (hops d).
Definition contradictedIn (d : relayDirectory) (cc : string) : nat :=
  let want := Canonical cc in
  List.length (filter (fun h => h_pairable h && h_countryContradicted h && in_country want h) (hops d)).

Inductive ChainError :=
  | errNoRelayDirectory | errChainTooShort | errChainNoExit | errChainRelayIsHop | errChainNoPinnedHead
  | errRandom | errNoCandidates | errMeshKey | errDirectory (e : SnapshotError) | errNoUsableHop
  | errHopsMax | errNeedsRelayRole | errNeedsExitKey | errNeedsDirectory | errNoChain.

(** One entry of the snapshot, taken into the directory. *)
Definition add_nonempty (a : string) (s : gset string) : gset string :=
  if String.eqb a "" then s else {[a]} ∪ s.
Definition is_exit (e : Entry) : bool := String.eqb (en_Role e) "exit".

Definition entry_hop (e : Entry) : option relayHop :=
  match hex_DecodeString (en_ID e) with
  | Some pub =>
      if negb (List.length pub =? 32)%nat then None
      else
        let dial := if String.eqb (en_Ingress e) "" && is_exit e then en_Addr e else en_Ingress e in
        if String.eqb dial "" then None
        else Some (MkHop (en_ID e) pub dial (en_Operator e) (en_Country e) (CountryContradicted e)
                         (is_exit e && negb (String.eqb (en_Addr e) "")))
  | None => None
  end.

Definition add_entry (selfID : string) (d : relayDirectory) (e : Entry) : relayDirectory :=
  let own' := if negb (String.eqb selfID "") && String.eqb (en_ID e) selfID
              then add_nonempty (en_Ingress e) (add_nonempty (en_Addr e) (own d)) else own d in
  let dialable' := add_nonempty (en_Ingress e) (add_nonempty (en_Addr e) (dialable d)) in
  let exitAddr' := if is_exit e && negb (String.eqb (en_Addr e) "")
                   then <[en_ID e := en_Addr e]> (exitAddr d) else exitAddr d in
  let hops' := match entry_hop e with Some h => hops d ++ [h] | None => hops d end in
  MkDirectory hops' dialable' exitAddr' (dir_as d) own' (reloadInterval d).

Section Load.
Context `{Ed25519} `{JSON Snapshot} (embedded : option ASN.Table).

Definition loadRelayDirectory (signed pub : bytes) (selfID : string) (now : Time)
    : result ChainError relayDirectory :=
  check! fail_if (bad_key_length pub) errMeshKey;
  let? snap := map_err errDirectory (VerifySigned pub signed) in
  check! fail_if (After now (ExpiresAt snap)) (errDirectory ErrSnapshotExpired);
  let d := foldl (add_entry selfID) (MkDirectory [] ∅ ∅ embedded ∅ relayDirReloadInterval) (Entries snap) in
  check! fail_if (bool_decide (hops d = [])) errNoUsableHop;
  Ok d.
End Load.

(** ** The engine's part *)

Record Config := MkConfig {
  ID : string; RelayIngress : string; Advertise : string; RelayHops : Z; ExitKeyHex : string;
  RelayDirectory : bytes; RelayDirectoryKey : bytes; MeshPubKey : bytes;
  role_client : bool; role_relay : bool;
}.
Definition RelayHopsMax : Z := 4.

Definition directory_key (cfg : Config) : bytes :=
  match RelayDirectoryKey cfg with [] => MeshPubKey cfg | k => k end.

Section Setup.
Context `{Ed25519} `{JSON Snapshot} (embedded : option ASN.Table) (cfg : Config).

Definition setupRelayChaining (now : Time) : result ChainError (option relayDirectory) :=
  let wantsForward := negb (String.eqb (RelayIngress cfg) "") in
  let wantsChain := role_client cfg && (2 <=? RelayHops cfg) in
  let noDir := bool_decide (RelayDirectory cfg = []) in
  check! fail_if (RelayHopsMax <? RelayHops cfg) errHopsMax;
  check! fail_if (wantsForward && negb (role_relay cfg)) errNeedsRelayRole;
  check! fail_if (wantsForward && String.eqb (TrimSpace (ExitKeyHex cfg)) "") errNeedsExitKey;
  check! fail_if (wantsForward && noDir) errNeedsDirectory;
  check! fail_if (wantsChain && noDir) errNoRelayDirectory;
  if noDir then Ok None
  else let? d := loadRelayDirectory embedded (RelayDirectory cfg) (directory_key cfg) (ID cfg) now in Ok (Some d).

(** [reloadRelayDir]: [file] is what the read of the path gives. The directory in use
    is replaced only by one that loads. *)
Definition reloadRelayDir (cur : option relayDirectory) (file : option bytes) (now : Time) : option relayDirectory :=
  match file with
  | None => cur
  | Some b => match loadRelayDirectory embedded b (directory_key cfg) (ID cfg) now with
              | Ok fresh => Some fresh
              | Err _ => cur
              end
  end.
End Setup.

Definition isSelfAddr (cfg : Config) (dir : option relayDirectory) (a : string) : bool :=
  if String.eqb a "" then false
  else (match dir with Some d => bool_decide (a ∈ own d) | None => false end)
       || String.eqb a (RelayIngress cfg)
       || (negb (String.eqb (Advertise cfg) "") && String.eqb a (Advertise cfg)).

Definition chainDepth (n : Z) : Z := if n <? 1 then 1 else n.
Definition chaining (cfg : Config) : bool := 2 <=? chainDepth (RelayHops cfg).

(** ** Random choices *)

(** The draws still to come. A draw is a natural number [rand.Int] reduces below its
    bound, or an error of the source. *)
Abbreviation Rand := (list (option nat)).
Definition M (A : Type) : Type := Rand -> result ChainError A * Rand.
Definition mret {A} (r : result ChainError A) : M A := fun rs => (r, rs).
Definition mbind_ {A B} (m : M A) (k : A -> M B) : M B := fun rs =>
  match m rs with
  | (Ok a, rs') => k a rs'
  | (Err e, rs') => (Err e, rs')
  end.
Notation "'draw!' x := m 'in' k" := (mbind_ m (fun x => k))
  (at level 200, x pattern, m at level 100, k at level 200, right associativity).

Definition randIndex (n : nat) : M nat := fun rs =>
  match n, rs with
  | O, _ => (Err errNoCandidates, rs)
  | S _, Some j :: rs' => (Ok (j mod n)%nat, rs')
  | S _, None :: rs' => (Err errRandom, rs')
  | S _, [] => (Err errRandom, [])
  end.

Definition swap {A} (l : list A) (i k : nat) : list A :=
  match l !! i, l !! k with
  | Some x, Some y => <[k := x]> (<[i := y]> l)
  | _, _ => l
  end.

(** [shuffleHops]: [i] counts down to one. *)
Fixpoint shuffle_from {A} (i : nat) (h : list A) : M (list A) :=
  match i with
  | O => mret (Ok h)
  | S i' => draw! k := randIndex (S i) in shuffle_from i' (swap h i k)
  end.
Definition shuffleHops (h : list relayHop) : M (list relayHop) := shuffle_from (List.length h - 1) h.

(** ** The choice of hops *)

Definition unknownASKey : string := "?".
Definition hopASKey (lookup : option ASN.Table) (h : relayHop) : string * bool :=
  match ASN.OfHostPort lookup (h_dial h) with
  | Some a => (ASN.AS_String a, true)
  | None => (unknownASKey, false)
  end.

Record hopDiversity := MkDiv { asRepeated : bool; opRepeated : bool; resolved : Z; unresolved : Z }.
Definition no_div : hopDiversity := MkDiv false false 0 0.
Definition degraded (d : hopDiversity) : bool := asRepeated d || (0 <? unresolved d).

(** What the loop keeps: the chain so far and what it already uses. *)
Record picked := MkPicked {
  out : list relayHop; usedOp : gset string; usedID : gset string; usedAS : gset string; div : hopDiversity;
}.
Definition nothing : picked := MkPicked [] ∅ ∅ ∅ no_div.

Definition named (s : string) : bool := negb (String.eqb s "").
Definition take_hop (lookup : option ASN.Table) (s : picked) (h : relayHop) : picked :=
  let '(key, res) := hopASKey lookup h in
  MkPicked (out s ++ [h])
    (if named (h_operator h) then {[h_operator h]} ∪ usedOp s else usedOp s)
    ({[h_id h]} ∪ usedID s) ({[key]} ∪ usedAS s)
    (MkDiv (asRepeated (div s) || bool_decide (key ∈ usedAS s))
           (opRepeated (div s) || (named (h_operator h) && bool_decide (h_operator h ∈ usedOp s)))
           (if res then resolved (div s) + 1 else resolved (div s))
           (if res then unresolved (div s) else unresolved (div s) + 1)).

Definition is_head (pinHead : string) (h : relayHop) : bool :=
  if named pinHead then String.eqb (h_id h) pinHead else h_pairable h.

(** Whether a pass skips a hop. *)
Definition skips (lookup : option ASN.Table) (needAS needOp : bool) (s : picked) (h : relayHop) : bool :=
  bool_decide (h_id h ∈ usedID s)
  || (needAS && (let '(key, res) := hopASKey lookup h in negb res || bool_decide (key ∈ usedAS s)))
  || (needOp && named (h_operator h) && bool_decide (h_operator h ∈ usedOp s)).

Definition step (lookup : option ASN.Table) (want : nat) (needAS needOp : bool) (s : picked) (h : relayHop) : picked :=
  if (List.length (out s) =? want)%nat then s
  else if skips lookup needAS needOp s h then s
  else take_hop lookup s h.

Definition pass (lookup : option ASN.Table) (want : nat) (pool : list relayHop) (s : picked) (k : nat) : picked :=
  if (List.length (out s) <? want)%nat then
    foldl (step lookup want ((k =? 0)%nat || (k =? 1)%nat) ((k =? 0)%nat || (k =? 2)%nat)) s pool
  else s.

Definition selectHopsHeaded (cand : list relayHop) (want : nat) (excludeID pinHead : string)
    (lookup : option ASN.Table) : M (list relayHop * hopDiversity) :=
  match want with
  | O => mret (Ok ([], no_div))
  | _ =>
      draw! pool := shuffleHops (filter (fun h => negb (String.eqb (h_id h) excludeID)) cand) in
      match List.find (is_head pinHead) pool with
      | None => mret (Err (if named pinHead then errChainNoPinnedHead else errChainTooShort))
      | Some h =>
          let s := foldl (pass lookup want pool) (take_hop lookup nothing h) (seq 0 4) in
          mret (if (List.length (out s) <? want)%nat then Err errChainTooShort else Ok (out s, div s))
      end
  end.
Definition selectHops (cand : list relayHop) (want : nat) (excludeID : string) (lookup : option ASN.Table) :=
  selectHopsHeaded cand want excludeID "" lookup.

(** ** The chain *)

Record chainPlan := MkPlan {
  p_hops : list relayHop; exitID : string; exitPub : bytes; exitDia : string; p_country : string;
}.
Definition firstHopID (p : option chainPlan) : string :=
  match p with
  | Some p => match p_hops p with h :: _ => h_id h | [] => "" end
  | None => ""
  end.

(** [avoid] is absent in the relaxed attempt. *)
Definition avoided (avoid : option (string -> bool)) (id : string) : bool :=
  match avoid with Some f => f id | None => false end.
Definition hopsAvoiding (cand : list relayHop) (avoid : option (string -> bool)) (pinHead : string) : list relayHop :=
  filter (fun h => String.eqb (h_id h) pinHead || negb (avoided avoid (h_id h))) cand.

Definition chooseChainExitAvoiding (d : relayDirectory) (country : string) (avoid : option (string -> bool)) : M relayHop :=
  let usable := filter (fun h => negb (avoided avoid (h_id h)) && named (addr_of (exitAddr d) (h_id h)))
                       (exitsIn d country) in
  match usable with
  | [] => mret (Err errChainNoExit)
  | _ => draw! i := randIndex (List.length usable) in
         mret (of_option errNoCandidates (usable !! i))
  end.
Definition chooseChainExit (d : relayDirectory) (country : string) : M relayHop :=
  chooseChainExitAvoiding d country None.

Record chainChoice := MkChoice { c_exit : relayHop; c_hops : list relayHop; c_div : hopDiversity }.
Definition selectChain (d : relayDirectory) (n : nat) (country pinHead : string) (avoid : option (string -> bool)) : M chainChoice :=
  draw! exit := chooseChainExitAvoiding d country avoid in
  draw! (hs, dv) := selectHopsHeaded (hopsAvoiding (hops d) avoid pinHead) (n - 1) (h_id exit) pinHead (dir_as d) in
  mret (Ok (MkChoice exit hs dv)).

(** What the user is told while a chain is built. *)
Inductive Notice := ReusesCooling | NotEnforced (unresolved : Z) | Relaxed (resolved unresolved : Z).
Definition diversity_notice (dv : hopDiversity) : list Notice :=
  if negb (degraded dv) then []
  else if resolved dv =? 0 then [NotEnforced (unresolved dv)] else [Relaxed (resolved dv) (unresolved dv)].

Definition buildChainHeaded (dir : option relayDirectory) (cooling : string -> bool) (n : nat) (country pinHead : string)
    : M (chainPlan * list Notice) := fun rs =>
  match dir with
  | None => (Err errNoRelayDirectory, rs)
  | Some d =>
      let plan (c : chainChoice) :=
        MkPlan (c_hops c) (h_id (c_exit c)) (h_pub (c_exit c)) (addr_of (exitAddr d) (h_id (c_exit c))) country in
      match selectChain d n country pinHead (Some cooling) rs with
      | (Ok c, rs) => (Ok (plan c, diversity_notice (c_div c)), rs)
      | (Err err, rs) =>
          match selectChain d n country pinHead None rs with
          | (Ok c, rs) => (Ok (plan c, ReusesCooling :: diversity_notice (c_div c)), rs)
          | (Err _, rs) => (Err err, rs)
          end
      end
  end.
Definition buildChain (dir : option relayDirectory) (cooling : string -> bool) (n : nat) (country : string) :=
  buildChainHeaded dir cooling n country "".

Definition chainFor (cfg : Config) (dir : option relayDirectory) (cooling : string -> bool) (relay_mode : bool) (country : string)
    : M (option (chainPlan * list Notice)) :=
  if negb relay_mode || negb (chaining cfg) then mret (Ok None)
  else draw! p := buildChain dir cooling (Z.to_nat (chainDepth (RelayHops cfg))) country in mret (Ok (Some p)).

Definition rebuildChain (dir : option relayDirectory) (cooling : string -> bool) (prev : option chainPlan)
    : M (chainPlan * list Notice) :=
  match prev with
  | Some p => match p_hops p with
              | h :: _ => buildChainHeaded dir cooling (List.length (p_hops p) + 1) (p_country p) (h_id h)
              | [] => mret (Err errNoChain)
              end
  | None => mret (Err errNoChain)
  end.

(** ** The relay the coordinator assigned *)

Definition relayTagFor (id : string) : string :=
  hex_EncodeToString (firstn 8 (SHA256.sum (bytes_of "bacchus-relay-tag" ++ Ascii.zero :: bytes_of id))).

Definition verifyChainDisjoint (plan : option chainPlan) (relayTag : string) : result ChainError unit :=
  match plan with
  | None => Ok tt
  | Some p =>
      if String.eqb relayTag "" then Ok tt
      else fail_if (existsb (fun h => String.eqb (relayTagFor (h_id h)) relayTag) (p_hops p)) errChainRelayIsHop
  end.

(** ** The shuffle *)

Lemma swap_perm {A} (l : list A) i k : swap l i k ≡ₚ l.
Proof.
  unfold swap. destruct (l !! i) eqn:Hi, (l !! k) eqn:Hk; try done. by apply Permutation_insert_swap.
Qed.

Lemma shuffle_from_perm {A} i (h h' : list A) rs rs' : shuffle_from i h rs = (Ok h', rs') -> h' ≡ₚ h.
Proof.
  revert h rs. induction i as [|i IH]; intros h rs; cbn [shuffle_from].
  - by intros [= <- _].
  - unfold mbind_. destruct (randIndex _ rs) as [[k|e] rs1]; [|done].
    intros Hs. apply IH in Hs. by rewrite Hs, swap_perm.
Qed.

(** With draws enough the shuffle ends, and leaves what it did not use. *)
Lemma randIndex_ok n rs :
  (0 < n)%nat -> Forall is_Some rs -> (0 < List.length rs)%nat ->
  exists k, randIndex n rs = (Ok k, tail rs) /\ (k < n)%nat.
Proof.
  intros Hn Hf Hr. destruct n as [|n]; [lia|]. destruct rs as [|[j|] rs]; simpl in Hr; [lia| |].
  - exists (j mod S n)%nat. split; [done|]. apply Nat.mod_upper_bound. lia.
  - apply Forall_cons in Hf as [[? ?] _]. done.
Qed.

Lemma shuffle_from_ok {A} i (h : list A) rs :
  Forall is_Some rs -> (i <= List.length rs)%nat -> exists h', shuffle_from i h rs = (Ok h', drop i rs).
Proof.
  revert h rs. induction i as [|i IH]; intros h rs Hf Hl; cbn [shuffle_from]; [by eexists|].
  unfold mbind_. destruct (randIndex_ok (S (S i)) rs) as (k & -> & _); [lia|done|lia|].
  destruct rs as [|r rs]; [simpl in Hl; lia|]. apply IH; [by apply Forall_cons in Hf as [_ ?]|simpl in *; lia].
Qed.

(** ** The hops *)

Section Pick.
Context (lookup : option ASN.Table).

Definition key (h : relayHop) : string := (hopASKey lookup h).1.
Definition is_resolved (h : relayHop) : bool := (hopASKey lookup h).2.
Definition ops (l : list relayHop) : list string := filter (fun o => named o) (h_operator <$> l).

(** The books are those of the chain so far. *)
Record books (s : picked) : Prop := {
  b_ids : NoDup (h_id <$> out s);
  b_usedID : usedID s = list_to_set (h_id <$> out s);
  b_usedAS : usedAS s = list_to_set (key <$> out s);
  b_usedOp : usedOp s = list_to_set (ops (out s));
  b_as : asRepeated (div s) = false <-> NoDup (key <$> out s);
  b_op : opRepeated (div s) = false <-> NoDup (ops (out s));
  b_res : resolved (div s) = Z.of_nat (List.length (filter (fun h => is_resolved h) (out s)));
  b_unres : unresolved (div s) = Z.of_nat (List.length (filter (fun h => negb (is_resolved h)) (out s)));
}.

Lemma books_nothing : books nothing.
Proof. split; try done; [constructor|..]; (split; [intros; constructor|done]). Qed.

Lemma NoDup_snoc {A} (l : list A) x : NoDup (l ++ [x]) <-> NoDup l /\ x ∉ l.
Proof. rewrite NoDup_app. set_unfold. pose proof (NoDup_singleton x). naive_solver. Qed.

Lemma filter_snoc {A} (f : A -> bool) l x :
  filter (fun y => f y) (l ++ [x]) = filter (fun y => f y) l ++ (if f x then [x] else []).
Proof. rewrite filter_app. f_equal. rewrite filter_cons. by destruct (f x). Qed.

Lemma ops_snoc l h : ops (l ++ [h]) = ops l ++ (if named (h_operator h) then [h_operator h] else []).
Proof. unfold ops. rewrite fmap_app. apply filter_snoc. Qed.

Lemma take_books s h : books s -> h_id h ∉ usedID s -> books (take_hop lookup s h).
Proof.
  intros [Hid Hui Hua Huo Has Hop Hr Hu] Hn. unfold take_hop.
  destruct (hopASKey lookup h) as [k r] eqn:Hk.
  assert (key h = k) as Hkey by (unfold key; by rewrite Hk).
  assert (is_resolved h = r) as Hres by (unfold is_resolved; by rewrite Hk).
  rewrite Hui in Hn. split; cbn [out usedID usedAS usedOp div asRepeated opRepeated resolved unresolved].
  - rewrite fmap_app. apply NoDup_snoc. split; [done|]. set_solver.
  - rewrite Hui, fmap_app. simpl. set_solver.
  - rewrite Hua, fmap_app. simpl. rewrite Hkey. set_solver.
  - rewrite ops_snoc, Huo. destruct (named (h_operator h)); set_solver.
  - rewrite orb_false_iff, bool_decide_eq_false, fmap_app. simpl. rewrite Hkey, NoDup_snoc, Has, Hua. set_solver.
  - rewrite ops_snoc, orb_false_iff, Hop, Huo. destruct (named (h_operator h)); simpl.
    + rewrite bool_decide_eq_false, NoDup_snoc. set_solver.
    + rewrite app_nil_r. naive_solver.
  - rewrite filter_snoc, length_app, Hr, Hres. destruct r; simpl; lia.
  - rewrite (filter_snoc (fun h => negb (is_resolved h))), length_app, Hu, Hres. destruct r; simpl; lia.
Qed.

Lemma out_take s h : out (take_hop lookup s h) = out s ++ [h].
Proof. unfold take_hop. by destruct (hopASKey lookup h). Qed.

Context (want : nat).

(** A state that keeps the books, is within its length and chose from [pool]. *)
Record fine (pool : list relayHop) (s : picked) : Prop := {
  f_books : books s;
  f_len : (List.length (out s) <= want)%nat;
  f_pool : out s ⊆ pool;
}.

(** What one state adds to another. *)
Definition grows (s s' : picked) : Prop := out s `prefix_of` out s'.
Lemma grows_refl s : grows s s.
Proof. by unfold grows. Qed.

Lemma step_cases na no s h :
  (step lookup want na no s h = s /\ (List.length (out s) = want \/ skips lookup na no s h = true)) \/
  (step lookup want na no s h = take_hop lookup s h /\ List.length (out s) <> want /\ skips lookup na no s h = false).
Proof.
  unfold step. destruct (Nat.eqb_spec (List.length (out s)) want); [by left; auto|].
  destruct (skips lookup na no s h); auto.
Qed.

Lemma step_fine pool na no s h : h ∈ pool -> fine pool s -> fine pool (step lookup want na no s h).
Proof.
  intros Hin [Hb Hl Hp]. destruct (step_cases na no s h) as [[-> _]|(-> & Hne & Hs)]; [done|].
  unfold skips in Hs. apply orb_false_iff in Hs as [Hs _]. apply orb_false_iff in Hs as [Hs _]. b2p.
  split; rewrite ?out_take; [by apply take_books|rewrite length_app; simpl; lia|set_solver].
Qed.

Lemma step_grows na no s h : grows s (step lookup want na no s h).
Proof.
  unfold grows. destruct (step_cases na no s h) as [[-> _]|(-> & _)]; [done|]. rewrite out_take. by eexists.
Qed.

Lemma sweep_fine pool na no l s :
  l ⊆ pool -> fine pool s ->
  let s' := foldl (step lookup want na no) s l in fine pool s' /\ grows s s'.
Proof.
  cbv zeta. revert s. induction l as [|h l IH]; intros s Hl Hf; simpl; [eauto using grows_refl|].
  destruct (IH (step lookup want na no s h)) as [Hf' Hg]; [set_solver|apply step_fine; [set_solver|done]|].
  split; [done|]. unfold grows in *. etrans; [apply step_grows|done].
Qed.

Lemma pass_fine pool s k : fine pool s -> let s' := pass lookup want pool s k in fine pool s' /\ grows s s'.
Proof. intros Hf. cbv zeta. unfold pass. destruct (_ <? _)%nat; [by apply sweep_fine|eauto using grows_refl]. Qed.

(** What a chain uses, a longer one uses. *)
Lemma skips_mono pool na no s s' h :
  fine pool s -> fine pool s' -> grows s s' -> skips lookup na no s h = true -> skips lookup na no s' h = true.
Proof.
  intros [Hb _ _] [Hb' _ _] [l Hl]. unfold skips.
  rewrite (b_usedID _ Hb), (b_usedID _ Hb'), (b_usedAS _ Hb), (b_usedAS _ Hb'), (b_usedOp _ Hb), (b_usedOp _ Hb'), Hl.
  assert (forall (x : string) (l l' : list string), bool_decide (x ∈ (list_to_set l : gset string)) = true ->
            bool_decide (x ∈ (list_to_set (l ++ l') : gset string)) = true) as Hm.
  { intros x a b. rewrite !bool_decide_eq_true. set_solver. }
  unfold ops. rewrite !fmap_app, filter_app. destruct (hopASKey lookup h) as [k r].
  rewrite !orb_true_iff, !andb_true_iff, !orb_true_iff. naive_solver.
Qed.

(** A sweep that does not fill the chain leaves no hop it would have taken. *)
Lemma sweep_exhausts pool na no l s h :
  l ⊆ pool -> fine pool s -> let s' := foldl (step lookup want na no) s l in
  (List.length (out s') < want)%nat -> h ∈ l -> skips lookup na no s' h = true.
Proof.
  cbv zeta. revert s. induction l as [|x l IH]; intros s Hl Hf Hw Hin; simpl in *; [set_solver|].
  assert (fine pool (step lookup want na no s x)) as Hf1 by (apply step_fine; [set_solver|done]).
  destruct (sweep_fine pool na no l (step lookup want na no s x)) as [Hf' Hg]; [set_solver|done|].
  apply elem_of_cons in Hin as [->|Hin]; [|apply IH; [set_solver|done..]].
  eapply skips_mono; [exact Hf1|exact Hf'|done|].
  destruct (step_cases na no s x) as [[-> [Hlen|Hs]]|(Hst & _ & _)]; [|done|].
  - exfalso. destruct (step_grows na no s x) as [r Hr]. destruct Hg as [r' Hr'].
    rewrite Hr', Hr, !length_app in Hw. lia.
  - unfold skips. rewrite Hst. unfold take_hop. destruct (hopASKey lookup x) as [k r]. simpl.
    rewrite bool_decide_true by set_solver. done.
Qed.

(** The chain after the head has hops of known and distinct systems. *)
Definition diverse (s : picked) : Prop :=
  out s <> [] /\ Forall (fun h => is_resolved h = true) (tail (out s)) /\ NoDup (key <$> out s).

Lemma step_diverse pool no s h :
  fine pool s -> diverse s -> diverse (step lookup want true no s h).
Proof.
  intros [Hb _ _] (Hne & Hr & Hn). destruct (step_cases true no s h) as [[-> _]|(-> & _ & Hs)]; [done|].
  unfold skips in Hs. apply orb_false_iff in Hs as [Hs _]. apply orb_false_iff in Hs as [_ Hs]. simpl in Hs.
  unfold diverse. rewrite out_take. destruct (out s) as [|x l] eqn:Ho; [done|]. simpl in *.
  destruct (hopASKey lookup h) as [k r] eqn:Hk. b2p. split_and!; [done|..].
  - apply Forall_app. split; [done|]. constructor; [|done]. unfold is_resolved. by rewrite Hk.
  - change (NoDup (key <$> (x :: l) ++ [h])). rewrite fmap_app. apply NoDup_snoc.
    split; [done|]. assert (key h = k) as Hkey by (unfold key; by rewrite Hk). rewrite Hkey.
    rewrite (b_usedAS _ Hb), Ho in *. set_solver.
Qed.

Lemma sweep_diverse pool no l s :
  l ⊆ pool -> fine pool s -> diverse s -> diverse (foldl (step lookup want true no) s l).
Proof.
  revert s. induction l as [|h l IH]; intros s Hl Hf Hd; simpl; [done|].
  apply IH; [set_solver|apply step_fine; [set_solver|done]|by eapply step_diverse].
Qed.

(** What an exhausted pass says of the pool. *)
Definition no_id_left (pool : list relayHop) (s : picked) : Prop := forall x, x ∈ pool -> h_id x ∈ h_id <$> out s.
Definition no_as_left (pool : list relayHop) (s : picked) : Prop :=
  forall x, x ∈ pool -> h_id x ∈ h_id <$> out s \/ is_resolved x = false \/ key x ∈ key <$> out s.

Lemma pass_no_as_left pool s :
  fine pool s -> let s' := pass lookup want pool s 1 in (List.length (out s') < want)%nat -> no_as_left pool s'.
Proof.
  cbv zeta. intros Hf. destruct (pass_fine pool s 1 Hf) as [[Hb _ _] Hg]. intros Hl x Hx.
  assert (List.length (out s) < want)%nat as Hl0.
  { destruct Hg as [r Hr]. rewrite Hr, length_app in Hl. lia. }
  apply Nat.ltb_lt in Hl0. unfold pass in *. rewrite Hl0 in *. cbn [Nat.eqb orb] in *.
  pose proof (sweep_exhausts pool true false pool s x ltac:(done) Hf Hl Hx) as Hs.
  unfold skips in Hs. rewrite (b_usedID _ Hb), (b_usedAS _ Hb) in Hs.
  unfold is_resolved, key at 1. destruct (hopASKey lookup x) as [k r].
  rewrite !orb_true_iff, !andb_true_iff in Hs. simpl.
  destruct Hs as [[Hs|[_ Hs]]|[[? _] _]]; [| |done].
  - b2p. left. set_solver.
  - apply orb_true_iff in Hs as [Hs|Hs]; b2p; [by right; left|right; right; set_solver].
Qed.

Lemma pass_no_id_left pool s :
  fine pool s -> let s' := pass lookup want pool s 3 in (List.length (out s') < want)%nat -> no_id_left pool s'.
Proof.
  cbv zeta. intros Hf. destruct (pass_fine pool s 3 Hf) as [[Hb _ _] Hg]. intros Hl x Hx.
  assert (List.length (out s) < want)%nat as Hl0.
  { destruct Hg as [r Hr]. rewrite Hr, length_app in Hl. lia. }
  apply Nat.ltb_lt in Hl0. unfold pass in *. rewrite Hl0 in *. cbn [Nat.eqb orb] in *.
  pose proof (sweep_exhausts pool false false pool s x ltac:(done) Hf Hl Hx) as Hs.
  unfold skips in Hs. rewrite (b_usedID _ Hb) in Hs. simpl in Hs. rewrite !orb_false_r in Hs. b2p. set_solver.
Qed.

Lemma no_as_left_grows pool s s' : grows s s' -> no_as_left pool s -> no_as_left pool s'.
Proof.
  intros [r Hr] Hn x Hx. rewrite Hr, !fmap_app. destruct (Hn x Hx) as [?|[?|?]]; set_solver.
Qed.

(** The whole ladder, from a chain that holds its head. *)
Definition ladder (pool : list relayHop) (h : relayHop) : picked :=
  foldl (pass lookup want pool) (take_hop lookup nothing h) (seq 0 4).

Lemma ladder_spec pool h :
  h ∈ pool -> (0 < want)%nat -> let s := ladder pool h in
  fine pool s /\ [h] `prefix_of` out s /\
  ((List.length (out s) < want)%nat -> no_id_left pool s) /\
  (diverse s \/ no_as_left pool s).
Proof.
  intros Hin Hw. cbv zeta. unfold ladder. cbn [seq foldl].
  set (s0 := take_hop lookup nothing h). assert (out s0 = [h]) as H0 by (unfold s0; by rewrite out_take).
  assert (fine pool s0) as F0.
  { split; [apply take_books; [apply books_nothing|set_solver]|rewrite H0; simpl; lia|rewrite H0; set_solver]. }
  assert (diverse s0) as D0.
  { unfold diverse. rewrite H0. split_and!; [done|constructor|apply NoDup_singleton]. }
  destruct (pass_fine pool s0 0 F0) as [F1 G1]. set (s1 := pass lookup want pool s0 0) in *.
  destruct (pass_fine pool s1 1 F1) as [F2 G2]. set (s2 := pass lookup want pool s1 1) in *.
  destruct (pass_fine pool s2 2 F2) as [F3 G3]. set (s3 := pass lookup want pool s2 2) in *.
  destruct (pass_fine pool s3 3 F3) as [F4 G4]. set (s4 := pass lookup want pool s3 3) in *.
  assert (diverse s2) as D2.
  { assert (diverse s1) as D1; subst s1 s2; unfold pass; destruct (_ <? _)%nat; try done; by apply (sweep_diverse pool). }
  assert (grows s2 s4) as G24 by (unfold grows in *; by etrans).
  split_and!; [done| |by apply pass_no_id_left|].
  - rewrite <-H0. unfold grows in *. etrans; [exact G1|]. by etrans.
  - destruct (Nat.lt_ge_cases (List.length (out s2)) want) as [Hlt|Hge].
    + right. eapply no_as_left_grows; [exact G24|]. by apply pass_no_as_left.
    + left. assert (forall k, pass lookup want pool s2 k = s2) as Hfull
        by (intros k; unfold pass; by rewrite (proj2 (Nat.ltb_ge _ _))).
      subst s4 s3. by rewrite !Hfull.
Qed.
End Pick.

(** ** What the choice of hops promises *)

Definition eligible (cand : list relayHop) (excludeID : string) : list relayHop :=
  filter (fun h => negb (String.eqb (h_id h) excludeID)) cand.

Lemma elem_of_eligible h cand x : h ∈ eligible cand x <-> h ∈ cand /\ h_id h <> x.
Proof.
  unfold eligible. rewrite list_elem_of_filter, Is_true_true, negb_true_iff, String.eqb_neq. tauto.
Qed.

(** The hops are the ladder's, over some order of the eligible nodes. *)
Lemma selectHopsHeaded_inv cand want x pin lookup rs o dv rs' :
  (0 < want)%nat ->
  selectHopsHeaded cand want x pin lookup rs = (Ok (o, dv), rs') ->
  exists pool h, pool ≡ₚ eligible cand x /\ h ∈ pool /\ is_head pin h = true /\
    o = out (ladder lookup want pool h) /\ dv = div (ladder lookup want pool h) /\ List.length o = want.
Proof.
  intros Hw. unfold selectHopsHeaded. destruct want as [|n]; [lia|]. set (want := S n) in *. fold (eligible cand x).
  unfold mbind_. destruct (shuffleHops _ rs) as [[pool|] rs1] eqn:Hs; [|done].
  apply shuffle_from_perm in Hs. destruct (List.find (is_head pin) pool) as [h|] eqn:Hh; [|done].
  apply List.find_some in Hh as [Hin Hh]. apply list_elem_of_In in Hin. unfold mret.
  fold (ladder lookup want pool h).
  destruct (Nat.ltb_spec (List.length (out (ladder lookup want pool h))) want) as [|Hge]; [done|].
  intros [= <- <- _]. exists pool, h. split_and!; try done.
  destruct (ladder_spec lookup want pool h Hin Hw) as ([_ Hl _] & _). lia.
Qed.

Definition apart (lookup : option ASN.Table) (l : list relayHop) : Prop :=
  Forall (fun h => is_resolved lookup h = true) l /\ NoDup (key lookup <$> l).

Lemma degraded_apart lookup s : books lookup s -> degraded (div s) = false <-> apart lookup (out s).
Proof.
  intros Hb. unfold degraded, apart. rewrite orb_false_iff, (b_as _ _ Hb), (b_unres _ _ Hb), Z.ltb_ge.
  assert (Z.of_nat (List.length (filter (fun h => negb (is_resolved lookup h)) (out s))) <= 0 <->
          Forall (fun h => is_resolved lookup h = true) (out s)) as ->; [|tauto].
  induction (out s) as [|h l IH]; [by split; [intros; constructor|]|].
  rewrite filter_cons, Forall_cons. destruct (is_resolved lookup h); simpl; [rewrite IH; tauto|].
  split; [lia|naive_solver].
Qed.

(** The hops are as many as asked for, different nodes of the directory and not the
    exit, and the first can be the head. *)
Lemma selectHops_chain cand want excludeID pinHead lookup rs o dv rs' :
  selectHopsHeaded cand want excludeID pinHead lookup rs = (Ok (o, dv), rs') ->
  List.length o = want /\ NoDup (h_id <$> o) /\
  (forall h, h ∈ o -> h ∈ cand /\ h_id h <> excludeID) /\
  (forall h, head o = Some h -> is_head pinHead h = true) /\
  (degraded dv = false <-> apart lookup o).
Proof.
  intros Hs. destruct (Nat.eq_0_gt_0_cases want) as [->|Hw].
  { injection Hs as <- <- _. unfold apart. simpl. pose proof (@NoDup_nil string).
    split_and!; try done; set_solver. }
  destruct (selectHopsHeaded_inv _ _ _ _ _ _ _ _ _ Hw Hs) as (pool & h & Hp & Hin & Hh & -> & -> & Hl).
  destruct (ladder_spec lookup want pool h Hin Hw) as ([Hb _ Hsub] & [l Hpre] & _).
  split_and!; try done.
  - apply (b_ids _ _ Hb).
  - intros x Hx. apply Hsub in Hx. rewrite Hp in Hx. by apply elem_of_eligible.
  - intros x. rewrite Hpre. by intros [= <-].
  - by apply degraded_apart.
Qed.

(** The diversity of a choice of hops is reported as it is and given up only when it
    must be: the choice is degraded exactly when some hop's autonomous system is unknown
    or shared, operators repeat exactly when the report says so, and a hop after the head
    is in an unknown or a shared system only when every eligible node that was left out
    is, too. *)
Theorem selectHops_diversity cand want excludeID pinHead lookup rs o dv rs' :
  selectHopsHeaded cand want excludeID pinHead lookup rs = (Ok (o, dv), rs') ->
  (degraded dv = false <-> apart lookup o) /\
  (opRepeated dv = false <-> NoDup (ops o)) /\
  (apart lookup (tail o) /\ NoDup (key lookup <$> o) \/
   forall h, h ∈ cand -> h_id h <> excludeID ->
     h_id h ∈ h_id <$> o \/ is_resolved lookup h = false \/ key lookup h ∈ key lookup <$> o).
Proof.
  intros Hs. destruct (selectHops_chain _ _ _ _ _ _ _ _ _ Hs) as (_ & _ & _ & _ & Hdeg). split; [done|].
  destruct (Nat.eq_0_gt_0_cases want) as [->|Hw].
  { injection Hs as <- <- _. unfold apart. simpl. pose proof (@NoDup_nil string).
    split_and!; try done; set_solver. }
  destruct (selectHopsHeaded_inv _ _ _ _ _ _ _ _ _ Hw Hs) as (pool & h & Hp & Hin & Hh & -> & -> & Hl).
  destruct (ladder_spec lookup want pool h Hin Hw) as ([Hb _ _] & _ & _ & Hdiv).
  split; [apply (b_op _ _ Hb)|]. destruct Hdiv as [(Hne & Hr & Hn)|Hno]; [left|right].
  - split; [|done]. split; [done|]. destruct (out _) as [|y ys]; [done|]. by apply NoDup_cons in Hn as [_ ?].
  - intros x Hx Hid. apply Hno. rewrite Hp. by apply elem_of_eligible.
Qed.

(** Draws that are all there and enough for a list. *)
Definition draws_ok (n : nat) (rs : Rand) : Prop := Forall is_Some rs /\ (n <= List.length rs)%nat.

Lemma selectHops_ok cand want x pin lookup rs :
  draws_ok (List.length cand) rs ->
  (exists h, h ∈ eligible cand x /\ is_head pin h = true) ->
  (want <= size (list_to_set (h_id <$> eligible cand x) : gset string))%nat ->
  exists o dv rs', selectHopsHeaded cand want x pin lookup rs = (Ok (o, dv), rs') /\
    draws_ok (List.length rs - List.length cand) rs'.
Proof.
  intros [Hf Hd] (hd & Hhd & Hhead) Hwant. unfold selectHopsHeaded. destruct want as [|n].
  { eexists _, _, rs. split; [done|split; [done|lia]]. }
  set (want := S n) in *. fold (eligible cand x).
  assert (List.length (eligible cand x) <= List.length cand)%nat as Hlen by apply length_filter.
  destruct (shuffle_from_ok (List.length (eligible cand x) - 1) (eligible cand x) rs Hf) as [pool Hs]; [lia|].
  unfold mbind_, shuffleHops. rewrite Hs. apply shuffle_from_perm in Hs.
  destruct (List.find (is_head pin) pool) as [h|] eqn:Hh.
  2:{ exfalso. pose proof (List.find_none _ _ Hh hd) as Hno. rewrite Hhead in Hno.
      discriminate Hno. apply list_elem_of_In. by rewrite Hs. }
  apply List.find_some in Hh as [Hin Hh]. apply list_elem_of_In in Hin. unfold mret.
  fold (ladder lookup want pool h).
  destruct (ladder_spec lookup want pool h Hin ltac:(lia)) as ([Hb Hl Hsub] & _ & Hno & _).
  destruct (Nat.ltb_spec (List.length (out (ladder lookup want pool h))) want) as [Hlt|Hge].
  - exfalso. specialize (Hno Hlt).
    assert ((list_to_set (h_id <$> eligible cand x) : gset string) ⊆
            list_to_set (h_id <$> out (ladder lookup want pool h))) as Hincl.
    { intros y. rewrite !elem_of_list_to_set, list_elem_of_fmap. intros (z & -> & Hz). apply Hno. by rewrite Hs. }
    apply subseteq_size in Hincl. rewrite (size_list_to_set (h_id <$> out _)) in Hincl by apply (b_ids _ _ Hb).
    rewrite length_fmap in Hincl. lia.
  - eexists _, _, _. split; [done|]. split; [by apply Forall_drop|]. rewrite length_drop. lia.
Qed.

(** ** The exit *)

Definition usable_exits (d : relayDirectory) (country : string) (avoid : option (string -> bool)) : list relayHop :=
  filter (fun h => negb (avoided avoid (h_id h)) && named (addr_of (exitAddr d) (h_id h))) (exitsIn d country).

(** What an exit the client chose is: one of the country, unless the country asked for is
    no country code. *)
Definition exit_for (d : relayDirectory) (country : string) (h : relayHop) : Prop :=
  h ∈ hops d /\ h_pairable h = true /\ h_countryContradicted h = false /\
  (Canonical country = "" \/ Canonical (h_country h) = Canonical country) /\
  addr_of (exitAddr d) (h_id h) <> "".

Lemma elem_of_usable d cc avoid h :
  h ∈ usable_exits d cc avoid <-> exit_for d cc h /\ avoided avoid (h_id h) = false.
Proof.
  unfold usable_exits, exitsIn, exit_for, in_country, named.
  rewrite !list_elem_of_filter, !Is_true_true, !andb_true_iff, !negb_true_iff, orb_true_iff, !String.eqb_eq, String.eqb_neq.
  tauto.
Qed.

Lemma chooseChainExit_inv d cc avoid rs h rs' :
  chooseChainExitAvoiding d cc avoid rs = (Ok h, rs') -> exit_for d cc h /\ avoided avoid (h_id h) = false.
Proof.
  unfold chooseChainExitAvoiding. fold (usable_exits d cc avoid). intros H. apply elem_of_usable.
  destruct (usable_exits d cc avoid) as [|x l]; [done|]. unfold mbind_ in H.
  destruct (randIndex _ rs) as [[i|] rs1]; [|done]. unfold mret in H.
  destruct ((x :: l) !! i) as [y|] eqn:Hy; [|done]. injection H as <- _. by eapply list_elem_of_lookup_2.
Qed.

Lemma chooseChainExit_ok d cc avoid rs :
  draws_ok 1 rs -> usable_exits d cc avoid <> [] ->
  exists h, chooseChainExitAvoiding d cc avoid rs = (Ok h, tail rs).
Proof.
  intros [Hf Hl] Hne. unfold chooseChainExitAvoiding. fold (usable_exits d cc avoid).
  destruct (usable_exits d cc avoid) as [|x l]; [done|].
  destruct (randIndex_ok (List.length (x :: l)) rs) as (i & Hr & Hi); [simpl; lia|done|lia|].
  unfold mbind_. rewrite Hr. destruct (lookup_lt_is_Some_2 (x :: l) i Hi) as [y Hy]. exists y. by rewrite Hy.
Qed.

(** ** The chain *)

(** A chain of [n] nodes, exit included, drawn from the directory [d]. *)
Record chain_of (d : relayDirectory) (n : nat) (country pinHead : string) (p : chainPlan) : Prop := {
  ch_exit : exists x, exit_for d country x /\ exitID p = h_id x /\ exitPub p = h_pub x /\
                      exitDia p = addr_of (exitAddr d) (h_id x);
  ch_len : (List.length (p_hops p) = n - 1)%nat;
  ch_distinct : NoDup (exitID p :: (h_id <$> p_hops p));
  ch_hops : p_hops p ⊆ hops d;
  ch_head : forall h, head (p_hops p) = Some h -> is_head pinHead h = true;
  ch_country : p_country p = country;
}.

(** What the attempt that avoids some nodes, or none, gives. *)
Lemma selectChain_inv d n cc pin avoid rs c rs' :
  selectChain d n cc pin avoid rs = (Ok c, rs') ->
  chain_of d n cc pin (MkPlan (c_hops c) (h_id (c_exit c)) (h_pub (c_exit c)) (addr_of (exitAddr d) (h_id (c_exit c))) cc) /\
  (degraded (c_div c) = false <-> apart (dir_as d) (c_hops c)) /\
  avoided avoid (h_id (c_exit c)) = false /\
  (forall h, h ∈ c_hops c -> h_id h = pin \/ avoided avoid (h_id h) = false).
Proof.
  unfold selectChain, mbind_. destruct (chooseChainExitAvoiding d cc avoid rs) as [[x|] rs1] eqn:Hx; [|done].
  apply chooseChainExit_inv in Hx as [Hx Hav].
  destruct (selectHopsHeaded _ _ _ _ _ rs1) as [[[hs dv]|] rs2] eqn:Hh; [|done].
  intros [= <- _]. apply selectHops_chain in Hh as (Hl & Hn & Hsub & Hhd & Hdeg).
  unfold hopsAvoiding in Hsub. setoid_rewrite list_elem_of_filter in Hsub.
  split_and!; [|done|done|].
  - split; simpl; try done; [by exists x| |set_solver].
    apply NoDup_cons. split; [|done]. intros (h & Heq & Hin)%list_elem_of_fmap. by apply Hsub in Hin as [_ ?].
  - intros h Hin. apply Hsub in Hin as [[Hin _] _]. apply Is_true_true in Hin.
    apply orb_true_iff in Hin as [?|?]; b2p; auto.
Qed.

Lemma diversity_notice_nil dv : diversity_notice dv = [] <-> degraded dv = false.
Proof. unfold diversity_notice. destruct (degraded dv); simpl; [|done]. by destruct (_ =? 0). Qed.

(** A chain that is built is one of the two attempts'. *)
Lemma buildChain_inv d cooling n cc pin rs p notices rs' :
  buildChainHeaded (Some d) cooling n cc pin rs = (Ok (p, notices), rs') ->
  exists c avoid pre rs0, selectChain d n cc pin avoid rs0 = (Ok c, rs') /\
    p = MkPlan (c_hops c) (h_id (c_exit c)) (h_pub (c_exit c)) (addr_of (exitAddr d) (h_id (c_exit c))) cc /\
    notices = pre ++ diversity_notice (c_div c) /\
    (avoid = Some cooling /\ pre = [] \/ avoid = None /\ pre = [ReusesCooling]).
Proof.
  unfold buildChainHeaded. destruct (selectChain d n cc pin (Some cooling) rs) as [[c|e] rs1] eqn:Hc.
  - intros [= <- <- <-]. exists c, (Some cooling), [], rs. split_and!; auto.
  - destruct (selectChain d n cc pin None rs1) as [[c|e'] rs2] eqn:Hr; [|done].
    intros [= <- <- <-]. exists c, None, [ReusesCooling], rs1. split_and!; auto.
Qed.

(** C19: a chain that is built has exactly the depth asked for; its exit is one the
    directory lists, whose country the coordinator does not contradict, and in the
    requested country when that is a country code, while any other text asks for none in
    particular; its nodes are all different, all from the directory, and its head is
    the pinned one or one the coordinator can pair to. A chain built with no notice has
    every hop in an autonomous system of its own and no node that failed recently
    except the head it had to keep; a chain that reuses a failed node says so. *)
Theorem buildChain_sound d cooling n country pinHead rs p notices rs' :
  buildChainHeaded (Some d) cooling n country pinHead rs = (Ok (p, notices), rs') ->
  chain_of d n country pinHead p /\
  (Forall (fun x => x = ReusesCooling) notices <-> apart (dir_as d) (p_hops p)) /\
  (ReusesCooling ∉ notices ->
   cooling (exitID p) = false /\ forall h, h ∈ p_hops p -> h_id h = pinHead \/ cooling (h_id h) = false).
Proof.
  intros Hb. apply buildChain_inv in Hb as (c & avoid & pre & rs0 & Hc & -> & -> & Hcase).
  apply selectChain_inv in Hc as (Hch & Hdeg & Hx & Hh). split; [done|]. split.
  - rewrite <-Hdeg, Forall_app, <-diversity_notice_nil. simpl.
    assert (Forall (fun x => x = ReusesCooling) pre) by (destruct Hcase as [[_ ->]|[_ ->]]; by repeat constructor).
    unfold diversity_notice. destruct (degraded (c_div c)); simpl; [|naive_solver].
    destruct (_ =? 0); rewrite Forall_cons; naive_solver.
  - destruct Hcase as [[-> ->]|[-> ->]]; simpl in *; [done|set_solver].
Qed.

(** A directory that can give a chain of [n] nodes, whichever exit is drawn. *)
Definition can_chain (d : relayDirectory) (n : nat) (country pinHead : string) : Prop :=
  (exists x, exit_for d country x) /\
  forall x, exit_for d country x ->
    (exists h, h ∈ eligible (hops d) (h_id x) /\ is_head pinHead h = true) /\
    (n - 1 <= size (list_to_set (h_id <$> eligible (hops d) (h_id x)) : gset string))%nat.


(** How many draws a computation takes at most. *)
Definition uses {A} (k : nat) (m : M A) : Prop := forall rs, exists l, (List.length l <= k)%nat /\ rs = l ++ (m rs).2.

Lemma uses_ret {A} (r : result ChainError A) : uses 0 (mret r).
Proof. intros rs. by exists []. Qed.
Lemma uses_bind {A B} j k (m : M A) (f : A -> M B) : uses j m -> (forall a, uses k (f a)) -> uses (j + k) (mbind_ m f).
Proof.
  intros Hm Hf rs. unfold mbind_. destruct (Hm rs) as (l & Hl & Hrs). destruct (m rs) as [[a|e] rs1]; simpl in *.
  - destruct (Hf a rs1) as (l' & Hl' & Hrs'). exists (l ++ l'). rewrite length_app, <-app_assoc, <-Hrs'. split; [lia|done].
  - exists l. split; [lia|done].
Qed.
Lemma uses_le {A} j k (m : M A) : uses j m -> (j <= k)%nat -> uses k m.
Proof. intros Hm Hle rs. destruct (Hm rs) as (l & Hl & Hrs). exists l. split; [lia|done]. Qed.
Lemma uses_randIndex n : uses 1 (randIndex n).
Proof.
  intros rs. destruct n as [|n]; simpl; [by exists []; split; [simpl; lia|]|].
  destruct rs as [|[j|] rs]; [exists []|exists [Some j]|exists [None]]; simpl; split; (lia || done).
Qed.
Lemma uses_shuffle {A} i (h : list A) : uses i (shuffle_from i h).
Proof.
  revert h. induction i as [|i IH]; intros h; [apply uses_ret|].
  eapply uses_le; [apply (uses_bind 1 i); [apply uses_randIndex|intros; apply IH]|lia].
Qed.

Lemma uses_selectChain d n cc pin avoid : uses (S (List.length (hops d))) (selectChain d n cc pin avoid).
Proof.
  assert (forall l l' : list relayHop, (List.length l <= List.length l')%nat -> (List.length l - 1 <= List.length l')%nat) as Hm
    by (intros; lia).
  unfold selectChain. apply (uses_bind 1).
  - unfold chooseChainExitAvoiding. destruct (filter _ _); [eapply uses_le; [apply uses_ret|lia]|].
    apply (uses_bind 1 0); [apply uses_randIndex|intros; apply uses_ret].
  - intros x. eapply uses_le; [apply (uses_bind (List.length (hops d)) 0); [|intros []; apply uses_ret]|lia].
    unfold selectHopsHeaded. destruct (n - 1)%nat; [eapply uses_le; [apply uses_ret|lia]|].
    eapply uses_le; [apply (uses_bind (List.length (hops d)) 0); [|intros pool; destruct (List.find _ pool); apply uses_ret]|lia].
    eapply uses_le; [apply uses_shuffle|]. apply Hm. etrans; [apply length_filter|]. apply length_filter.
Qed.

Lemma draws_ok_after {A} k j (m : M A) rs : uses j m -> draws_ok (k + j) rs -> draws_ok k (m rs).2.
Proof.
  intros Hu [Hf Hl]. destruct (Hu rs) as (l & Hlen & Hrs). rewrite Hrs, length_app in Hl. rewrite Hrs in Hf.
  apply Forall_app in Hf as [_ Hf]. split; [done|lia].
Qed.

Lemma hopsAvoiding_none l pin : hopsAvoiding l None pin = l.
Proof.
  unfold hopsAvoiding. induction l as [|h l IH]; [done|].
  rewrite filter_cons, decide_True by (simpl; by rewrite orb_true_r). by rewrite IH.
Qed.

Lemma selectChain_ok d n cc pin rs :
  can_chain d n cc pin -> draws_ok (S (List.length (hops d))) rs ->
  exists c rs', selectChain d n cc pin None rs = (Ok c, rs').
Proof.
  intros [[x Hx] Hall] Hd. unfold selectChain, mbind_.
  destruct (chooseChainExit_ok d cc None rs) as [e He].
  { split; [apply Hd|]. destruct Hd. lia. }
  { intros Hnil. assert (x ∈ usable_exits d cc None) as Hin by (by apply elem_of_usable). rewrite Hnil in Hin. set_solver. }
  rewrite He. apply chooseChainExit_inv in He as [He _]. destruct (Hall e He) as [Hhd Hsz].
  rewrite hopsAvoiding_none.
  destruct (selectHops_ok (hops d) (n - 1) (h_id e) pin (dir_as d) (tail rs)) as (o & dv & rs' & Hs & _); [|done..|].
  { destruct Hd as [Hf Hl]. destruct rs as [|r rs]; [simpl in Hl; lia|]. apply Forall_cons in Hf as [_ Hf].
    split; [done|simpl in *; lia]. }
  rewrite Hs. by eexists _, _.
Qed.

(** A directory that can give a chain gives one, whatever nodes are cooling: given
    random numbers, the client never refuses for lack of a chain it could have built. *)
Theorem buildChain_possible d cooling n country pinHead rs :
  can_chain d n country pinHead -> draws_ok (2 * S (List.length (hops d))) rs ->
  exists p notices rs', buildChainHeaded (Some d) cooling n country pinHead rs = (Ok (p, notices), rs').
Proof.
  intros Hc Hd. unfold buildChainHeaded.
  destruct (selectChain d n country pinHead (Some cooling) rs) as [[c|e] rs1] eqn:Hs; [by eexists _, _, _|].
  pose proof (draws_ok_after (S (List.length (hops d))) _ _ rs (uses_selectChain d n country pinHead (Some cooling))) as Hk.
  rewrite Hs in Hk. destruct (selectChain_ok d n country pinHead rs1 Hc) as (c & rs2 & ->); [|by eexists _, _, _].
  apply Hk. by replace (S (List.length (hops d)) + S (List.length (hops d)))%nat with (2 * S (List.length (hops d)))%nat by lia.
Qed.

(** A rebuilt chain keeps the head, the depth and the country of the one it replaces. *)
Lemma rebuildChain_keeps d cooling prev rs p notices rs' :
  rebuildChain (Some d) cooling (Some prev) rs = (Ok (p, notices), rs') ->
  chain_of d (List.length (p_hops prev) + 1) (p_country prev) (firstHopID (Some prev)) p /\
  p_country p = p_country prev /\ List.length (p_hops p) = List.length (p_hops prev) /\
  (firstHopID (Some prev) <> "" -> firstHopID (Some p) = firstHopID (Some prev)).
Proof.
  unfold rebuildChain, firstHopID. destruct (p_hops prev) as [|h l] eqn:Hp; [done|]. intros Hb.
  apply buildChain_inv in Hb as (c & avoid & pre & rs0 & Hc & -> & _ & _).
  apply selectChain_inv in Hc as [Hch _]. pose proof (ch_len _ _ _ _ _ Hch) as Hl.
  split_and!; [done|done|simpl in *; lia|].
  intros Hne. pose proof (ch_head _ _ _ _ _ Hch) as Hh. simpl in *.
  destruct (c_hops c) as [|h' l']; [simpl in Hl; lia|].
  specialize (Hh h' eq_refl). unfold is_head, named in Hh. rewrite (proj2 (String.eqb_neq _ _) Hne) in Hh.
  simpl in Hh. by apply String.eqb_eq in Hh.
Qed.

(** ** The directory is what the coordinator signed *)

Lemma elem_of_add_nonempty a x s : a ∈ add_nonempty x s <-> a ∈ s \/ (a = x /\ a <> "").
Proof.
  unfold add_nonempty. destruct (String.eqb_spec x "") as [->|Hx]; set_solver.
Qed.

(** An address of an entry. *)
Definition entry_addr (e : Entry) (a : string) : Prop := a <> "" /\ (a = en_Addr e \/ a = en_Ingress e).

Record directory_of (selfID : string) (es : list Entry) (d : relayDirectory) : Prop := {
  d_hops : hops d = omap entry_hop es;
  d_dialable : forall a, a ∈ dialable d <-> exists e, e ∈ es /\ entry_addr e a;
  d_own : forall a, a ∈ own d <-> selfID <> "" /\ exists e, e ∈ es /\ en_ID e = selfID /\ entry_addr e a;
  d_exit : forall e, e ∈ es -> is_exit e = true -> en_Addr e <> "" -> is_Some (exitAddr d !! en_ID e);
  d_exitAddr : forall id a, exitAddr d !! id = Some a ->
    exists e, e ∈ es /\ is_exit e = true /\ en_ID e = id /\ en_Addr e = a /\ a <> "";
}.

Lemma exists_snoc {A} (P : A -> Prop) l x :
  (exists y, y ∈ l ++ [x] /\ P y) <-> (exists y, y ∈ l /\ P y) \/ P x.
Proof. setoid_rewrite elem_of_app. setoid_rewrite list_elem_of_singleton. naive_solver. Qed.

Lemma add_entry_directory selfID es d e :
  directory_of selfID es d -> directory_of selfID (es ++ [e]) (add_entry selfID d e).
Proof.
  intros [Hh Hd Ho Hx Ha]. unfold add_entry, entry_addr in *. split; cbn [hops dialable own exitAddr].
  - rewrite omap_app, Hh. simpl. by destruct (entry_hop e); simpl; rewrite ?app_nil_r.
  - intros a. rewrite !elem_of_add_nonempty, Hd, exists_snoc. unfold entry_addr. tauto.
  - intros a. rewrite exists_snoc. unfold entry_addr. destruct (String.eqb_spec selfID "") as [->|Hs]; simpl.
    { rewrite Ho. naive_solver. }
    destruct (String.eqb_spec (en_ID e) selfID); simpl; rewrite ?elem_of_add_nonempty, Ho; tauto.
  - intros e' He' Hr Hne. destruct (is_exit e && negb (String.eqb (en_Addr e) "")) eqn:Hcond.
    + destruct (decide (en_ID e' = en_ID e)) as [->|Hid]; [by rewrite lookup_insert_eq|].
      rewrite lookup_insert_ne by done. apply Hx; [|done..]. set_solver.
    + apply elem_of_app in He' as [He'|He']; [by apply Hx|]. apply list_elem_of_singleton in He' as ->.
      rewrite Hr in Hcond. by apply String.eqb_neq in Hne as Hne'; rewrite Hne' in Hcond.
  - intros id a Hl. destruct (is_exit e && negb (String.eqb (en_Addr e) "")) eqn:Hcond.
    + apply andb_true_iff in Hcond as [Hr Hne]. apply negb_true_iff, String.eqb_neq in Hne.
      apply lookup_insert_Some in Hl as [[<- <-]|[_ Hl]]; apply exists_snoc; auto.
    + apply exists_snoc. left. by apply Ha.
Qed.

Lemma entries_directory selfID es as0 iv :
  directory_of selfID es (foldl (add_entry selfID) (MkDirectory [] ∅ ∅ as0 ∅ iv) es).
Proof.
  induction es as [|e es IH] using rev_ind.
  - split; simpl; try done; set_solver.
  - rewrite foldl_snoc. by apply add_entry_directory.
Qed.

(** What a hop of the directory is good for. *)
Lemma entry_hop_sound e h :
  entry_hop e = Some h ->
  h_id h = en_ID e /\ hex_DecodeString (en_ID e) = Some (h_pub h) /\ List.length (h_pub h) = 32%nat /\
  entry_addr e (h_dial h) /\ (h_pairable h = true -> is_exit e = true /\ en_Addr e <> "").
Proof.
  unfold entry_hop, entry_addr. destruct (hex_DecodeString (en_ID e)) as [pub|]; [|done].
  destruct (Nat.eqb_spec (List.length pub) 32); [|done]. simpl.
  set (dial := if String.eqb (en_Ingress e) "" && is_exit e then en_Addr e else en_Ingress e).
  destruct (String.eqb_spec dial ""); [done|]. intros [= <-]. simpl.
  split_and!; try done.
  - subst dial. destruct (_ && _); auto.
  - rewrite andb_true_iff, negb_true_iff, String.eqb_neq. done.
Qed.

(** Hops of a directory have dialable addresses, exits among them an exit address. *)
Lemma directory_hop selfID es d h :
  directory_of selfID es d -> h ∈ hops d ->
  h_dial h ∈ dialable d /\
  (h_pairable h = true -> addr_of (exitAddr d) (h_id h) <> "" /\ addr_of (exitAddr d) (h_id h) ∈ dialable d).
Proof.
  intros Hd Hin. rewrite (d_hops _ _ _ Hd) in Hin. apply list_elem_of_omap in Hin as (e & He & Hh).
  apply entry_hop_sound in Hh as (Hid & _ & _ & Ha & Hp). split; [by apply (d_dialable _ _ _ Hd); exists e|].
  intros Hpair. destruct (Hp Hpair) as [Hx Hne]. destruct (d_exit _ _ _ Hd e He Hx Hne) as [a Hl].
  unfold addr_of. rewrite Hid, Hl. simpl. apply (d_exitAddr _ _ _ Hd) in Hl as (e' & He' & _ & _ & <- & Hn).
  split; [done|]. apply (d_dialable _ _ _ Hd). exists e'. split; [done|]. by split; [|left].
Qed.

Lemma loadRelayDirectory_inv `{Ed25519} `{JSON Snapshot} embedded signed pub selfID now d :
  loadRelayDirectory embedded signed pub selfID now = Ok d ->
  exists snap, VerifySigned pub signed = Ok snap /\ now <= ExpiresAt snap /\
    directory_of selfID (Entries snap) d /\ hops d <> [] /\ dir_as d = embedded.
Proof.
  unfold loadRelayDirectory. intros Hl. inv_result. b2p.
  match goal with Hv : VerifySigned _ _ = Ok ?s |- _ => exists s; rename s into snap end.
  unfold After in *. b2p. split_and!; try done; [apply entries_directory|].
  generalize (Entries snap). clear. intros es. induction es as [|e es IH] using rev_ind; [done|].
  by rewrite foldl_snoc.
Qed.

(** A directory a node loads, at the start or later, is exactly what a coordinator's
    signed and unexpired snapshot says: the addresses it would dial are the snapshot's,
    every hop is an entry whose id is its key, every hop and every exit it offers has an
    address to dial, and the addresses it takes for its own are those of its own
    entries. A reload that does not load leaves the one in use. *)
Theorem directory_is_signed `{Ed25519} `{JSON Snapshot} embedded cfg cur file now d :
  reloadRelayDir embedded cfg cur file now = Some d ->
  cur = Some d \/
  exists signed snap, file = Some signed /\ VerifySigned (directory_key cfg) signed = Ok snap /\
    now <= ExpiresAt snap /\
    (forall a, a ∈ dialable d <-> exists e, e ∈ Entries snap /\ entry_addr e a) /\
    (forall a, a ∈ own d <-> ID cfg <> "" /\ exists e, e ∈ Entries snap /\ en_ID e = ID cfg /\ entry_addr e a) /\
    (forall h, h ∈ hops d ->
       exists e, e ∈ Entries snap /\ h_id h = en_ID e /\ hex_DecodeString (h_id h) = Some (h_pub h) /\
         h_dial h ∈ dialable d) /\
    (forall h, h ∈ hops d -> h_pairable h = true -> addr_of (exitAddr d) (h_id h) ∈ dialable d) /\
    hops d <> [].
Proof.
  unfold reloadRelayDir. destruct file as [b|]; [|by left].
  destruct (loadRelayDirectory _ _ _ _ _) as [d'|] eqn:Hl; [|by left]. intros [= ->]. right.
  apply loadRelayDirectory_inv in Hl as (snap & Hv & Hn & Hd & Hne & _). exists b, snap.
  split_and!; try done; [apply (d_dialable _ _ _ Hd)|apply (d_own _ _ _ Hd)| |].
  - intros h Hin. destruct (directory_hop _ _ _ _ Hd Hin) as [Hdial _].
    rewrite (d_hops _ _ _ Hd) in Hin. apply list_elem_of_omap in Hin as (e & He & Hh).
    apply entry_hop_sound in Hh as (Hid & Hhex & _). exists e. rewrite Hid. auto.
  - intros h Hin Hp. by apply (directory_hop _ _ _ _ Hd Hin).
Qed.

(** ** Witnesses *)

Module Demo.
Import Toy.
#[export] Existing Instance toy_json.
#[export] Existing Instance toy_json_laws.
Definition id_of (c : ascii) : string := hex_EncodeToString (repeat c 32).
Definition entries : list Entry :=
  [MkEntry "exit" (id_of "a") "nl" "8.8.8.8:443" "" "" "" "op1";
   MkEntry "exit" (id_of "b") "DE" "192.0.2.7:443" "" "" "192.0.2.7:444" "op2";
   MkEntry "relay" (id_of "c") "" "" "" "" "[2001:db8::1]:443" "op2"].
Definition snap : Snapshot := MkSnapshot 1 Hour (2 * Hour) entries.
Definition cfg : Config :=
  MkConfig (id_of "c") "[2001:db8::1]:443" "" 3 "key" (Sign Coldstart.Demo.key snap) [] (Public Coldstart.Demo.key) true true.
Definition dir : relayDirectory :=
  foldl (add_entry (id_of "c")) (MkDirectory [] ∅ ∅ (Some ASN.Demo.table) ∅ relayDirReloadInterval) entries.
Definition hop (c : ascii) (d : relayDirectory) : relayHop :=
  default (MkHop "" [] "" "" "" false false) (List.find (fun h => String.eqb (h_id h) (id_of c)) (hops d)).
Definition draws : Rand := repeat (Some 7%nat) 20.
Definition plan : chainPlan := MkPlan [hop "b" dir; hop "c" dir] (id_of "a") (repeat "a"%char 32) "8.8.8.8:443" "NL".
Definition none_cooling : string -> bool := fun _ => false.
End Demo.
Import Toy Demo.

Lemma selectHops_diversity_witness :
  let o := [hop "b" dir; hop "c" dir] in
  exists dv rs', selectHopsHeaded (hops dir) 2 (id_of "a") "" (dir_as dir) draws = (Ok (o, dv), rs') /\
    (degraded dv = false <-> apart (dir_as dir) o) /\ (opRepeated dv = false <-> NoDup (ops o)) /\
    (apart (dir_as dir) (tail o) /\ NoDup (key (dir_as dir) <$> o) \/
     forall h, h ∈ hops dir -> h_id h <> id_of "a" ->
       h_id h ∈ h_id <$> o \/ is_resolved (dir_as dir) h = false \/ key (dir_as dir) h ∈ key (dir_as dir) <$> o).
Proof.
  eexists _, _. assert (selectHopsHeaded (hops dir) 2 (id_of "a") "" (dir_as dir) draws =
    (Ok ([hop "b" dir; hop "c" dir], MkDiv false true 2 0), drop 1 draws)) as Hs by (vm_compute; reflexivity).
  split; [exact Hs|]. exact (selectHops_diversity _ _ _ _ _ _ _ _ _ Hs).
Defined.

Lemma buildChain_sound_witness :
  chain_of dir 3 "NL" "" plan /\ apart (dir_as dir) (p_hops plan).
Proof.
  assert (buildChainHeaded (Some dir) none_cooling 3 "NL" "" draws = (Ok (plan, []), drop 2 draws)) as Hb
    by (vm_compute; reflexivity).
  destruct (buildChain_sound dir none_cooling 3 "NL" "" draws plan [] (drop 2 draws) Hb) as (Hc & Hn & _).
  split; [exact Hc|]. apply Hn. constructor.
Defined.

Lemma exit_for_demo x : exit_for dir "NL" x -> h_id x = id_of "a".
Proof.
  intros (Hin & Hp & _ & Hc & _).
  assert (forallb (fun h => negb (String.eqb (Canonical (h_country h)) "NL") || String.eqb (h_id h) (id_of "a")) (hops dir) = true)
    as Hall by (vm_compute; reflexivity).
  rewrite forallb_forall in Hall. specialize (Hall x ltac:(by apply list_elem_of_In)).
  destruct Hc as [Hc|Hc]; [discriminate Hc|]. change (Canonical "NL") with "NL" in Hc.
  rewrite Hc in Hall. by apply String.eqb_eq in Hall.
Qed.

Lemma buildChain_possible_witness :
  let all_cooling := fun _ : string => true in
  exists p notices rs', buildChainHeaded (Some dir) all_cooling 3 "NL" "" draws = (Ok (p, notices), rs').
Proof.
  cbv zeta. apply (buildChain_possible dir (fun _ => true) 3 "NL" "" draws).
  - split.
    + exists (hop "a" dir). split_and!; [|vm_compute; reflexivity|vm_compute; reflexivity|right; vm_compute; reflexivity|vm_compute; discriminate].
      apply list_elem_of_lookup_2 with 0%nat. vm_compute. reflexivity.
    + intros x Hx. rewrite (exit_for_demo x Hx). split.
      * exists (hop "b" dir). split; [|vm_compute; reflexivity].
        apply list_elem_of_lookup_2 with 0%nat. vm_compute. reflexivity.
      * apply Nat.leb_le. vm_compute. reflexivity.
  - split; [|apply Nat.leb_le; vm_compute; reflexivity]. apply Forall_forall. intros r Hr.
    apply list_elem_of_In, repeat_spec in Hr as ->. by eexists.
Defined.

Lemma load_demo : loadRelayDirectory (Some ASN.Demo.table) (RelayDirectory cfg) (directory_key cfg) (ID cfg) Hour = Ok dir.
Proof.
  unfold loadRelayDirectory. assert (VerifySigned (directory_key cfg) (RelayDirectory cfg) = Ok snap) as ->
    by apply (VerifySigned_Sign Coldstart.Demo.key snap).
  assert (bad_key_length (directory_key cfg) = false) as -> by apply bad_key_length_Public.
  cbn [fail_if rbind map_err]. assert (After Hour (ExpiresAt snap) = false) as -> by reflexivity.
  cbn [fail_if rbind]. change (foldl _ _ (Entries snap)) with dir.
  assert (bool_decide (hops dir = []) = false) as -> by (vm_compute; reflexivity). reflexivity.
Qed.

Lemma directory_is_signed_witness :
  exists signed s, Some (RelayDirectory cfg) = Some signed /\ VerifySigned (directory_key cfg) signed = Ok s /\
    Hour <= ExpiresAt s.
Proof.
  assert (reloadRelayDir (Some ASN.Demo.table) cfg None (Some (RelayDirectory cfg)) Hour = Some dir) as Hr
    by (unfold reloadRelayDir; by rewrite load_demo).
  destruct (directory_is_signed (Some ASN.Demo.table) cfg None (Some (RelayDirectory cfg)) Hour dir Hr)
    as [Hx|(signed & s & Hf & Hv & Hn & _)]; [discriminate Hx|]. eauto.
Defined.

(** A country that is not a two-letter code is treated as none at all: a chain asked for
    it ends at any exit. *)
Example unreadable_country_matches_every_exit :
  h_id <$> exitsIn dir "Germany" = [id_of "a"; id_of "b"].
Proof. vm_compute. reflexivity. Qed.
