(* ===== verification/Forward.v ===== *)
(** * Serving a hop: [core/relaychain.go], [core/forwarder.go], [core/e2e.go]

    What a node does with a stream: one of a session the coordinator assigned it with an
    exit's address is piped to that exit; of any other, once its handshake is done, the
    target the client asked for, the check of an onion forward against the signed directory,
    the limits on forwarded circuits per previous hop and in all, and the refusal a client
    reads back. The copying of the bytes is not modelled: a circuit is held from [acquire]
    until [release], and a pace is the address of its limiter. *)

From stdpp Require Import relations.
From S2P Require Import ASN.
From S2P Require Import Prelude GoStrings Base64 Crypto Net GeoIP Coldstart RelayChain.
Local Open Scope Z_scope.

(** ** Targets: [core/e2e.go] *)

Definition udpTargetPrefix : string := "udp:".
Definition hopTargetPrefix : string := "hop:".

Definition splitTargetPrefix (target : string) : string * string :=
  match strip_prefix udpTargetPrefix target with
  | Some a => (udpTargetPrefix, a)
  | None => match strip_prefix hopTargetPrefix target with
            | Some a => (hopTargetPrefix, a)
            | None => ("", target)
            end
  end.

Definition validTarget (target : string) : bool :=
  if (String.length target =? 0)%nat || (255 + 4 <? Z.of_nat (String.length target)) then false
  else bool_decide (is_Some (SplitHostPort (splitTargetPrefix target).2)).

(** ** Refusals *)

Definition hopRefusedMagic : bytes := Ascii.zero :: bytes_of "bacchus-hop-refused" ++ [Ascii.zero].
Definition maxHopRefusalReason : nat := 32.

Inductive Reason := NodeBusy | PeerBusy | NotInMesh | SelfTarget | ForwardingOff.
Definition reason_text (r : Reason) : string :=
  match r with
  | NodeBusy => "node-busy" | PeerBusy => "peer-busy" | NotInMesh => "not-in-mesh"
  | SelfTarget => "self-target" | ForwardingOff => "forwarding-off"
  end.

Definition hopRefusalFrame (reason : bytes) : bytes :=
  let body := hopRefusedMagic ++ firstn maxHopRefusalReason reason in
  be_bytes 2 (Z.of_nat (List.length body)) ++ body.

Definition parseHopRefusal (b : bytes) : option bytes :=
  if (List.length b <? 2)%nat then None
  else
    let n := Z.to_nat (be_value (firstn 2 b)) in
    if (n <? List.length hopRefusedMagic)%nat || (List.length b <? 2 + n)%nat then None
    else
      let body := firstn n (skipn 2 b) in
      if negb (bool_decide (firstn (List.length hopRefusedMagic) body = hopRefusedMagic)) then None
      else Some (skipn (List.length hopRefusedMagic) body).

(** [refusalSniffer]: what it keeps of each read, up to its capacity. *)
Definition sniffer_cap : nat := 2 + List.length hopRefusedMagic + maxHopRefusalReason.
Definition sniff (buf chunk : bytes) : bytes :=
  if (0 <? List.length chunk)%nat && (List.length buf <? sniffer_cap)%nat
  then buf ++ firstn (Nat.min (List.length chunk) (sniffer_cap - List.length buf)) chunk
  else buf.
Definition refusal (chunks : list bytes) : option bytes := parseHopRefusal (foldl sniff [] chunks).

(** ** The limits *)

Record forwardPeer := MkPeer {
  circuits : Z; pace : option nat; p_saturated : bool; p_refused : Z; idleElem : option nat;
}.

(** [idle] lists the elements, each with the peer it names, the most recent first; [next]
    is the address the next allocation gets. *)
Record forwardLimits := MkLimits {
  maxPerPeer : Z; maxTotal : Z; peerRate : Z; total : Z; saturated : bool; refused : Z;
  peers : gmap string forwardPeer; idle : list (nat * string); next : nat;
}.

Definition defaultForwardMaxPerPeer : Z := 32.
Definition defaultForwardMaxTotal : Z := 256.

Definition newForwardLimits (perPeer total peerRate : Z) : forwardLimits :=
  let perPeer := if perPeer <=? 0 then defaultForwardMaxPerPeer else perPeer in
  let total := if total <=? 0 then defaultForwardMaxTotal else total in
  let perPeer := if total <? perPeer then total else perPeer in
  MkLimits perPeer total peerRate 0 false 0 ∅ [] 0.

Definition set_peer (f : forwardLimits) (peer : string) (p : option forwardPeer) : forwardLimits :=
  MkLimits (maxPerPeer f) (maxTotal f) (peerRate f) (total f) (saturated f) (refused f)
    (partial_alter (fun _ => p) peer (peers f)) (idle f) (next f).
Definition set_idle (f : forwardLimits) (l : list (nat * string)) (n : nat) : forwardLimits :=
  MkLimits (maxPerPeer f) (maxTotal f) (peerRate f) (total f) (saturated f) (refused f) (peers f) l n.
Definition set_total (f : forwardLimits) (t : Z) (sat : bool) (ref : Z) : forwardLimits :=
  MkLimits (maxPerPeer f) (maxTotal f) (peerRate f) t sat ref (peers f) (idle f) (next f).

(** [list.Remove]. *)
Definition list_Remove (l : list (nat * string)) (e : nat) : list (nat * string) :=
  filter (fun x => negb (x.1 =? e)%nat) l.

Inductive Busy := errForwardNodeBusy | errForwardPeerBusy.

(** The peer's record, taken off the idle list, or a new one with a new limiter. *)
Definition revive (f : forwardLimits) (peer : string) : forwardPeer * forwardLimits :=
  match peers f !! peer with
  | None =>
      let lim := if peerRate f =? 0 then None else Some (next f) in
      (MkPeer 0 lim false 0 None, set_idle f (idle f) (if peerRate f =? 0 then next f else S (next f)))
  | Some p =>
      match idleElem p with
      | None => (p, f)
      | Some e => (MkPeer (circuits p) (pace p) (p_saturated p) (p_refused p) None,
                   set_idle f (list_Remove (idle f) e) (next f))
      end
  end.

(** [acquire]: the pace, or the refusal and whether it is the first of its episode. *)
Definition acquire (f : forwardLimits) (peer : string) : result (Busy * bool) (option nat) * forwardLimits :=
  if maxTotal f <=? total f then
    (Err (errForwardNodeBusy, negb (saturated f)), set_total f (total f) true (wrap64 (refused f + 1)))
  else
    let '(p, f) := revive f peer in
    if maxPerPeer f <=? circuits p then
      let first := negb (p_saturated p) in
      let p := MkPeer (circuits p) (pace p) true (wrap64 (p_refused p + 1)) (idleElem p) in
      (Err (errForwardPeerBusy, first), set_peer f peer (if circuits p =? 0 then None else Some p))
    else
      (Ok (pace p),
       set_total (set_peer f peer (Some (MkPeer (circuits p + 1) (pace p) (p_saturated p) (p_refused p) (idleElem p))))
                 (total f + 1) (saturated f) (refused f)).

(** [retirePeer]: each round drops the last of the idle list; its length is fuel
    enough. *)
Fixpoint evict (fuel : nat) (f : forwardLimits) : forwardLimits :=
  match fuel with
  | O => f
  | S n =>
      if maxTotal f <? Z.of_nat (List.length (idle f)) then
        match last (idle f) with
        | None => f
        | Some (e, q) => evict n (set_peer (set_idle f (list_Remove (idle f) e) (next f)) q None)
        end
      else f
  end.
Definition retirePeer (f : forwardLimits) (peer : string) (p : forwardPeer) : forwardLimits :=
  let p := MkPeer (circuits p) (pace p) (p_saturated p) (p_refused p) (Some (next f)) in
  let f := set_idle (set_peer f peer (Some p)) ((next f, peer) :: idle f) (S (next f)) in
  evict (List.length (idle f)) f.

(** [release]: how many were refused in the episodes that end, and whether one does. *)
Definition release (f : forwardLimits) (peer : string) : (Z * bool) * forwardLimits :=
  let t := if 0 <? total f then total f - 1 else total f in
  let '(ref, ended, f) :=
    if saturated f then (refused f, true, set_total f t false 0)
    else (0, false, set_total f t (saturated f) (refused f)) in
  match peers f !! peer with
  | None => (ref, ended, f)
  | Some p =>
      let c := circuits p - 1 in
      let '(ref, ended, p) :=
        if p_saturated p then (wrap64 (ref + p_refused p), true, MkPeer c (pace p) false 0 (idleElem p))
        else (ref, ended, MkPeer c (pace p) (p_saturated p) (p_refused p) (idleElem p)) in
      (ref, ended, if c <=? 0 then retirePeer f peer p else set_peer f peer (Some p))
  end.

Definition counts (f : forwardLimits) (peer : string) : Z * Z :=
  (match peers f !! peer with Some p => circuits p | None => 0 end, total f).

(** ** Serving a stream *)

(** The previous hop: the host of the remote address, the whole text when it has no
    port, and nothing when there is no address. *)
Definition forwardPeerKey (remote : option string) : string :=
  match remote with
  | None => ""
  | Some a => match SplitHostPort a with Some (host, _) => host | None => a end
  end.

Definition forwardOn (cfg : Config) (dir : option relayDirectory) : bool :=
  negb (String.eqb (RelayIngress cfg) "") && bool_decide (is_Some dir).

(** The start of [relayForward], up to the dial: a refusal sent to the client, and
    whether the operator is told; or the circuit, which is held from here on. *)
Inductive Forwarding := Refuse (r : Reason) (logged : bool) | Dial (addr peer : string) (pace : option nat).

Definition relayForward (cfg : Config) (dir : option relayDirectory) (f : forwardLimits) (remote : option string)
    (nxt : string) : Forwarding * forwardLimits :=
  if negb (forwardOn cfg dir) then (Refuse ForwardingOff false, f)
  else if isSelfAddr cfg dir nxt then (Refuse SelfTarget true, f)
  else if negb (match dir with Some d => bool_decide (nxt ∈ dialable d) | None => false end)
  then (Refuse NotInMesh true, f)
  else
    let peer := forwardPeerKey remote in
    match acquire f peer with
    | (Err (errForwardNodeBusy, first), f) => (Refuse NodeBusy first, f)
    | (Err (errForwardPeerBusy, first), f) => (Refuse PeerBusy first, f)
    | (Ok pc, f) => (Dial nxt peer pc, f)
    end.

(** [exitTerminate] after its handshake: what the target makes the node do. [acctSentinel]
    and [probeSentinel] are targets no address has. *)
Definition acctSentinel : string := "bacchus-accounting.invalid:0".
Definition probeSentinel : string := "bacchus-probe.invalid:0".
Inductive Serve :=
  | ServeAcct | ServeProbe | ServeForward (x : Forwarding) | RefuseEgress
  | EgressUDP (addr : string) | EgressTCP (addr : string) | Pipe (exitAddr : string).

Definition exitTerminate (cfg : Config) (role_exit : bool) (dir : option relayDirectory) (f : forwardLimits)
    (remote : option string) (target : string) : Serve * forwardLimits :=
  if String.eqb target acctSentinel then (ServeAcct, f)
  else if String.eqb target probeSentinel then (ServeProbe, f)
  else
    let '(prefix, addr) := splitTargetPrefix target in
    if String.eqb prefix hopTargetPrefix then
      let '(x, f) := relayForward cfg dir f remote addr in (ServeForward x, f)
    else if negb role_exit then (RefuseEgress, f)
    else if String.eqb prefix udpTargetPrefix then (EgressUDP addr, f)
    else (EgressTCP target, f).

(** Where a stream comes from: a session the coordinator assigned, with the exit address
    that the assignment carries, if any; or the node's own listener, an exit's or a relay's
    onion ingress. *)
Inductive Origin := Assigned (ExitAddr : string) | Accepted.
(** [relayPipe]: the exit's address is dialed, with nothing of the stream read, no directory
    asked and no circuit counted. *)
Definition relayPipe (exitAddr : string) : Serve := Pipe exitAddr.
(** [handlerFor], of an assignment, and [serveExit]. *)
Definition serve_stream (cfg : Config) (role_exit : bool) (dir : option relayDirectory) (f : forwardLimits)
    (remote : option string) (o : Origin) (target : string) : Serve * forwardLimits :=
  match o with
  | Assigned ea => if negb (String.eqb ea "") then (relayPipe ea, f) else exitTerminate cfg role_exit dir f remote target
  | Accepted => exitTerminate cfg role_exit dir f remote target
  end.

(** ** Refusals reach the client *)

Lemma be_value_app2 n b : 0 <= n < 65536 -> be_value (firstn 2 (be_bytes 2 n ++ b)) = n.
Proof.
  intros Hn. rewrite take_app_length' by (by rewrite be_bytes_length). rewrite be_value_bytes. by apply Z.mod_small.
Qed.

Lemma parse_frame reason rest :
  (List.length reason <= maxHopRefusalReason)%nat -> parseHopRefusal (hopRefusalFrame reason ++ rest) = Some reason.
Proof.
  intros Hr. unfold parseHopRefusal, hopRefusalFrame. rewrite (firstn_all2 reason Hr).
  set (body := hopRefusedMagic ++ reason).
  assert (List.length body = 21 + List.length reason)%nat as Hl by (unfold body; by rewrite length_app).
  unfold maxHopRefusalReason in Hr.
  rewrite <-app_assoc, length_app, be_bytes_length, length_app, be_value_app2, Nat2Z.id by lia.
  change (List.length hopRefusedMagic) with 21%nat.
  rewrite (proj2 (Nat.ltb_ge _ 2)), (proj2 (Nat.ltb_ge _ 21)), (proj2 (Nat.ltb_ge _ (2 + _))) by lia.
  cbn [orb]. rewrite (drop_app_length' (be_bytes 2 _)) by (by rewrite be_bytes_length).
  rewrite (take_app_length' body) by done. unfold body.
  rewrite (take_app_length' hopRefusedMagic), (drop_app_length' hopRefusedMagic) by done.
  by rewrite bool_decide_true.
Qed.

(** The sniffer keeps the front of the stream, however the reads cut it. *)
Lemma sniff_fold chunks buf :
  (List.length buf <= sniffer_cap)%nat ->
  foldl sniff buf chunks = firstn sniffer_cap (buf ++ List.concat chunks).
Proof.
  revert buf. induction chunks as [|c chunks IH]; intros buf Hb; cbn [foldl List.concat].
  { rewrite app_nil_r. by rewrite firstn_all2. }
  assert (sniff buf c = firstn sniffer_cap (buf ++ c)) as ->.
  { unfold sniff. rewrite firstn_app, (firstn_all2 buf) by done.
    destruct (Nat.ltb_spec 0 (List.length c)), (Nat.ltb_spec (List.length buf) sniffer_cap); cbn [andb].
    - f_equal. destruct (Nat.le_ge_cases (List.length c) (sniffer_cap - List.length buf)).
      + rewrite Nat.min_l, firstn_all by done. by rewrite firstn_all2.
      + by rewrite Nat.min_r.
    - replace (sniffer_cap - List.length buf)%nat with O by lia. by rewrite app_nil_r.
    - destruct c; [|simpl in *; lia]. by rewrite take_nil, app_nil_r.
    - destruct c; [|simpl in *; lia]. by rewrite take_nil, app_nil_r. }
  rewrite IH by (rewrite length_firstn; lia). rewrite app_assoc.
  destruct (Nat.le_ge_cases (List.length (buf ++ c)) sniffer_cap) as [Hle|Hge].
  - by rewrite (firstn_all2 (buf ++ c)).
  - set (bc := buf ++ c) in *. clearbody bc. rewrite !firstn_app, firstn_firstn, Nat.min_id, length_firstn.
    replace (sniffer_cap - Nat.min sniffer_cap (List.length bc))%nat with O by lia.
    by replace (sniffer_cap - List.length bc)%nat with O by lia.
Qed.

Lemma hopRefusalFrame_length reason : (List.length (hopRefusalFrame reason) <= sniffer_cap)%nat.
Proof.
  unfold hopRefusalFrame, sniffer_cap. rewrite !length_app, be_bytes_length, length_firstn. lia.
Qed.

Lemma reason_text_length r : (List.length (bytes_of (reason_text r)) <= maxHopRefusalReason)%nat.
Proof. unfold maxHopRefusalReason. destruct r; simpl; lia. Qed.

(** The reason a hop refuses with is the reason the client reads, in whatever pieces
    the stream delivers the frame and whatever follows it; and a stream is read as a
    refusal only when it starts with a frame whose body starts with the marker. *)
Theorem refusal_roundtrip r rest chunks b x :
  List.concat chunks = hopRefusalFrame (bytes_of (reason_text r)) ++ rest ->
  refusal chunks = Some (bytes_of (reason_text r)) /\
  (parseHopRefusal b = Some x -> exists tail, b = be_bytes 2 (Z.of_nat (21 + List.length x)) ++ hopRefusedMagic ++ x ++ tail).
Proof.
  intros Hc. split.
  - unfold refusal. rewrite sniff_fold, Hc by (simpl; lia). cbn [app].
    set (fr := hopRefusalFrame (bytes_of (reason_text r))).
    rewrite firstn_app, (firstn_all2 fr) by apply hopRefusalFrame_length. apply parse_frame, reason_text_length.
  - unfold parseHopRefusal. destruct (Nat.ltb_spec (List.length b) 2) as [|Hb]; [done|].
    set (n := Z.to_nat (be_value (firstn 2 b))). change (List.length hopRefusedMagic) with 21%nat.
    destruct (Nat.ltb_spec n 21); [done|]. destruct (Nat.ltb_spec (List.length b) (2 + n)); [done|]. cbn [orb].
    case_bool_decide as Hm; [|done]. cbn [negb]. intros [= <-].
    destruct b as [|b0 [|b1 b]]; try (simpl in *; lia). cbn [drop] in *. rewrite drop_0 in *. cbn [List.length] in *.
    exists (skipn n b). rewrite skipn_length, length_firstn. replace (21 + (Nat.min n (List.length b) - 21))%nat with n by lia.
    assert (be_bytes 2 (Z.of_nat n) = [b0; b1]) as ->.
    { subst n. rewrite Z2Nat.id.
      - simpl. f_equal; [|f_equal]; apply octet_inj; rewrite octet_byte_of; pose proof (octet_range b0); pose proof (octet_range b1);
          Z.div_mod_to_equations; lia.
      - simpl. pose proof (octet_range b0). pose proof (octet_range b1). lia. }
    cbn [app]. do 2 f_equal. rewrite <-Hm, app_assoc, take_drop. by rewrite take_drop.
Qed.

(** ** The limits are a semaphore *)

(** How many circuits of [q] are among those held. *)
Definition cnt (q : string) (held : list string) : Z := Z.of_nat (List.length (filter (fun x => x = q) held)).
Definition circuits_of (f : forwardLimits) (q : string) : Z :=
  match peers f !! q with Some p => circuits p | None => 0 end.

Lemma cnt_nonneg q held : 0 <= cnt q held.
Proof. unfold cnt. lia. Qed.
Lemma cnt_cons q x held : cnt q (x :: held) = (if decide (x = q) then 1 else 0) + cnt q held.
Proof. unfold cnt. rewrite filter_cons. destruct (decide (x = q)); simpl; lia. Qed.
Lemma cnt_pos q held : 0 < cnt q held <-> q ∈ held.
Proof.
  induction held as [|x held IH]; [split; [unfold cnt; simpl; lia|by intros ?%not_elem_of_nil]|].
  rewrite cnt_cons, elem_of_cons. pose proof (cnt_nonneg q held).
  destruct (decide (x = q)); [split; [auto|lia]|]. rewrite Z.add_0_l, IH. naive_solver.
Qed.

(** The table agrees with the circuits that are held: a peer with none is idle, listed
    once. *)
Record Ledger (f : forwardLimits) (held : list string) : Prop := {
  I_caps : 1 <= maxPerPeer f <= maxTotal f;
  I_total : total f = Z.of_nat (List.length held) /\ total f <= maxTotal f;
  I_peer : forall q, circuits_of f q = cnt q held /\ cnt q held <= maxPerPeer f;
  I_live : forall q p, peers f !! q = Some p -> idleElem p = None <-> q ∈ held;
  I_idle : forall e q, (e, q) ∈ idle f <-> exists p, peers f !! q = Some p /\ idleElem p = Some e;
  I_nodup : NoDup (idle f).*1;
  I_fresh : forall e q, (e, q) ∈ idle f -> (e < next f)%nat;
}.
(** There are no more idle peers than circuits allowed in all. *)
Record Inv (f : forwardLimits) (held : list string) : Prop := {
  I_ledger :> Ledger f held;
  I_len : Z.of_nat (List.length (idle f)) <= maxTotal f;
}.

Lemma Inv_new perPeer tot rate : Inv (newForwardLimits perPeer tot rate) [].
Proof.
  unfold newForwardLimits, defaultForwardMaxPerPeer, defaultForwardMaxTotal.
  assert (1 <= (if tot <=? 0 then 256 else tot)) as Ht by (destruct (Z.leb_spec tot 0); lia).
  assert (1 <= (if perPeer <=? 0 then 32 else perPeer)) as Hp by (destruct (Z.leb_spec perPeer 0); lia).
  set (t := if tot <=? 0 then 256 else tot) in *. set (pp := if perPeer <=? 0 then 32 else perPeer) in *.
  assert (1 <= (if t <? pp then t else pp) <= t) as Hc by (destruct (Z.ltb_spec t pp); lia).
  split; [|simpl; lia].
  split; cbn [maxPerPeer maxTotal total peers idle next]; try done; try (simpl; lia).
  - intros q. unfold circuits_of, cnt. cbn [peers]. rewrite lookup_empty. simpl. lia.
  - intros e q. split; [set_solver|]. intros (p & Hl & _). done.
  - constructor.
  - set_solver.
Qed.

(** A live peer is not on the list, so taking it off changes nothing else. *)
Lemma elem_of_Remove l e x : x ∈ list_Remove l e <-> x ∈ l /\ x.1 <> e.
Proof.
  unfold list_Remove. rewrite list_elem_of_filter, Is_true_true, negb_true_iff, Nat.eqb_neq. tauto.
Qed.
Lemma Remove_NoDup l e : NoDup l.*1 -> NoDup (list_Remove l e).*1.
Proof.
  intros Hn. eapply sublist_NoDup; [exact Hn|]. apply fmap_sublist. apply sublist_filter.
Qed.
Lemma Remove_length l e : (List.length (list_Remove l e) <= List.length l)%nat.
Proof. apply length_filter. Qed.

(** An element names one peer and a peer is listed once. *)
Lemma idle_key f held e x e' y :
  Ledger f held -> (e, x) ∈ idle f -> (e', y) ∈ idle f -> e' = e <-> y = x.
Proof.
  intros HI Hx Hy. split; [intros ->|intros ->].
  - apply list_elem_of_lookup in Hx as [i Hi]. apply list_elem_of_lookup in Hy as [j Hj].
    assert (i = j) as ->; [|congruence].
    eapply (NoDup_lookup (idle f).*1); [apply (I_nodup _ _ HI)|by rewrite list_lookup_fmap, Hi|by rewrite list_lookup_fmap, Hj].
  - apply (I_idle _ _ HI) in Hx as (px & Hx & ?), Hy as (py & Hy & ?). congruence.
Qed.

(** The parts of the invariant that speak of the idle list, for any peer but [q]. *)
Definition listed_but (f : forwardLimits) (q : string) : Prop :=
  (forall e x, (e, x) ∈ idle f <-> x <> q /\ exists p, peers f !! x = Some p /\ idleElem p = Some e) /\
  NoDup (idle f).*1 /\ (forall e x, (e, x) ∈ idle f -> (e < next f)%nat) /\
  Z.of_nat (List.length (idle f)) <= maxTotal f.

Lemma revive_spec f held q p f' :
  Inv f held -> revive f q = (p, f') ->
  listed_but f' q /\ idleElem p = None /\ circuits p = cnt q held /\
  peers f' = peers f /\ total f' = total f /\ maxTotal f' = maxTotal f /\ maxPerPeer f' = maxPerPeer f.
Proof.
  intros HI. unfold revive, listed_but. pose proof (I_peer _ _ HI q) as Hc. unfold circuits_of in Hc.
  destruct (peers f !! q) as [p0|] eqn:Hq.
  - destruct (idleElem p0) as [e0|] eqn:He; intros [= <- <-]; cbn [idle peers next set_idle total maxTotal maxPerPeer circuits idleElem].
    + assert ((e0, q) ∈ idle f) as Hin by (apply (I_idle _ _ HI); eauto).
      pose proof (fun e x => idle_key f held e0 q e x HI Hin) as Hkey.
      split_and!; try done; try lia.
      * intros e x. rewrite elem_of_Remove. cbn [fst]. split.
        -- intros [Hex Hne]. rewrite (Hkey e x Hex) in Hne. split; [done|]. by apply (I_idle _ _ HI).
        -- intros [Hne Hex]. apply (I_idle _ _ HI) in Hex. split; [done|]. by rewrite (Hkey e x Hex).
      * apply Remove_NoDup, (I_nodup _ _ HI).
      * intros e x [Hex _]%elem_of_Remove. by apply (I_fresh _ _ HI) in Hex.
      * pose proof (Remove_length (idle f) e0). pose proof (I_len _ _ HI). lia.
    + split_and!; try done; try lia; [|apply HI|apply HI|apply HI].
      intros e x. rewrite (I_idle _ _ HI). split; [|naive_solver]. intros (px & Hx & Hpx). split; [congruence|eauto].
  - intros [= <- <-]. cbn [idle peers next set_idle total maxTotal maxPerPeer circuits idleElem].
    split_and!; try done; try lia; [|apply HI| |apply HI].
    + intros e x. rewrite (I_idle _ _ HI). split; [|naive_solver]. intros (px & Hx & Hpx). split; [congruence|eauto].
    + intros e x Hex. apply (I_fresh _ _ HI) in Hex. destruct (peerRate f =? 0); lia.
Qed.

Definition caps_kept (f f' : forwardLimits) : Prop := maxPerPeer f' = maxPerPeer f /\ maxTotal f' = maxTotal f.

(** [acquire] answers as the two caps say. *)
Lemma acquire_spec f held q :
  Inv f held ->
  match acquire f q with
  | (Ok _, f') => Inv f' (q :: held) /\ Z.of_nat (List.length held) < maxTotal f /\ cnt q held < maxPerPeer f /\ caps_kept f f'
  | (Err (errForwardNodeBusy, _), f') => Inv f' held /\ Z.of_nat (List.length held) = maxTotal f /\ caps_kept f f'
  | (Err (errForwardPeerBusy, _), f') =>
      Inv f' held /\ Z.of_nat (List.length held) < maxTotal f /\ cnt q held = maxPerPeer f /\ caps_kept f f'
  end.
Proof.
  intros HI. unfold acquire. destruct (I_total _ _ HI) as [Ht Htm].
  destruct (Z.leb_spec (maxTotal f) (total f)) as [Hfull|Hroom].
  { split; [|split; [lia|done]]. destruct HI as [[] ?]. by split; [split|]. }
  destruct (revive f q) as [p f1] eqn:Hr.
  destruct (revive_spec f held q p f1 HI Hr) as ((Hli & Hnd & Hfr & Hlen) & Hidle & Hcirc & Hpeers & Htot & HmT & HmP).
  pose proof (I_peer _ _ HI q) as [Hcq Hcm]. pose proof (I_caps _ _ HI) as Hcaps.
  destruct (Z.leb_spec (maxPerPeer f1) (circuits p)) as [Hbusy|Hok].
  - cbn [circuits pace p_saturated p_refused idleElem].
    destruct (Z.eqb_spec (circuits p) 0) as [H0|H0]; [lia|].
    split; [|split_and!; [lia|lia|by split]].
    assert (q ∈ held) as Hin by (apply cnt_pos; lia).
    split; [|by cbn [set_peer maxTotal idle]].
    split; cbn [set_peer maxPerPeer maxTotal total idle next]; try lia; try done.
    + intros x. pose proof (I_peer _ _ HI x). unfold circuits_of in *. cbn [set_peer peers].
      destruct (decide (x = q)) as [->|Hne]; [rewrite lookup_partial_alter_eq|rewrite lookup_partial_alter_ne by done; rewrite Hpeers]; simpl; lia.
    + intros x px. cbn [peers set_peer].
      destruct (decide (x = q)) as [->|Hne]; [rewrite lookup_partial_alter_eq; intros [= <-]; done|].
      rewrite lookup_partial_alter_ne, Hpeers by done. apply (I_live _ _ HI).
    + intros e x. rewrite Hli. cbn [peers set_peer].
      destruct (decide (x = q)) as [->|Hne]; [rewrite lookup_partial_alter_eq; naive_solver|].
      rewrite lookup_partial_alter_ne by done. naive_solver.
  - split; [|split_and!; [lia|lia|by split]].
    split; [|by cbn [set_peer set_total maxTotal idle]].
    split; cbn [set_peer set_total maxPerPeer maxTotal total idle next]; try lia; try done.
    + cbn [List.length]. lia.
    + intros x. pose proof (I_peer _ _ HI x). unfold circuits_of in *. cbn [set_peer set_total peers]. rewrite cnt_cons.
      destruct (decide (q = x)) as [<-|Hne]; [rewrite lookup_partial_alter_eq|rewrite lookup_partial_alter_ne by done; rewrite Hpeers]; simpl; lia.
    + intros x px. cbn [peers set_peer set_total].
      destruct (decide (x = q)) as [->|Hne]; [rewrite lookup_partial_alter_eq; intros [= <-]; simpl; set_solver|].
      rewrite lookup_partial_alter_ne, Hpeers by done. intros Hx. rewrite (I_live _ _ HI x px Hx). set_solver.
    + intros e x. rewrite Hli. cbn [peers set_peer set_total].
      destruct (decide (x = q)) as [->|Hne]; [rewrite lookup_partial_alter_eq; naive_solver|].
      rewrite lookup_partial_alter_ne by done. naive_solver.
Qed.

(** A peer that lost its last circuit goes to the front of the list. *)
Definition pushed (f : forwardLimits) (q : string) (p : forwardPeer) : forwardLimits :=
  set_idle (set_peer f q (Some (MkPeer (circuits p) (pace p) (p_saturated p) (p_refused p) (Some (next f)))))
           ((next f, q) :: idle f) (S (next f)).

(** Dropping the last of the list keeps the ledger. *)
Lemma drop_last_ledger f held e x :
  Ledger f held -> last (idle f) = Some (e, x) ->
  Ledger (set_peer (set_idle f (list_Remove (idle f) e) (next f)) x None) held /\
  (List.length (list_Remove (idle f) e) < List.length (idle f))%nat.
Proof.
  intros HI Hl. assert ((e, x) ∈ idle f) as Hin by (by apply last_Some_elem_of).
  apply (I_idle _ _ HI) in Hin as Hp. destruct Hp as (px & Hx & Hpx).
  assert (x ∉ held) as Hnh by (rewrite <-(I_live _ _ HI x px Hx); congruence).
  pose proof (fun e' y => idle_key f held e x e' y HI Hin) as Hkey.
  split.
  - split; cbn [set_peer set_idle maxPerPeer maxTotal total idle next].
    + apply HI.
    + apply HI.
    + intros q. pose proof (I_peer _ _ HI q) as Hq. unfold circuits_of in *. cbn [peers set_peer set_idle].
      destruct (decide (q = x)) as [->|Hne]; [|by rewrite lookup_partial_alter_ne by done].
      rewrite lookup_partial_alter_eq. pose proof (cnt_nonneg x held). rewrite <-(cnt_pos x held) in Hnh. lia.
    + intros q p. cbn [peers set_peer set_idle].
      destruct (decide (q = x)) as [->|Hne]; [by rewrite lookup_partial_alter_eq|].
      rewrite lookup_partial_alter_ne by done. apply (I_live _ _ HI).
    + intros e' y. rewrite elem_of_Remove. cbn [fst peers set_peer set_idle].
      destruct (decide (y = x)) as [->|Hne].
      * rewrite lookup_partial_alter_eq. split; [intros [Hy Hn]; by rewrite (Hkey e' x Hy) in Hn|naive_solver].
      * rewrite lookup_partial_alter_ne by done. rewrite <-(I_idle _ _ HI). split; [tauto|].
        intros Hy. split; [done|]. by rewrite (Hkey e' y Hy).
    + apply Remove_NoDup, (I_nodup _ _ HI).
    + intros e' y [Hy _]%elem_of_Remove. by apply (I_fresh _ _ HI) in Hy.
  - unfold list_Remove. apply length_filter_lt with (e, x); [done|]. cbn [fst]. rewrite Nat.eqb_refl. by intros [].
Qed.

Lemma evict_spec fuel f held :
  Ledger f held -> (List.length (idle f) <= fuel)%nat ->
  Inv (evict fuel f) held /\ caps_kept f (evict fuel f).
Proof.
  revert f. induction fuel as [|n IH]; intros f HI Hl; cbn [evict].
  { split; [|done]. split; [done|]. destruct (I_caps _ _ HI). lia. }
  destruct (Z.ltb_spec (maxTotal f) (Z.of_nat (List.length (idle f)))) as [Hgt|Hle]; [|by split; [split|]].
  destruct (last (idle f)) as [[e x]|] eqn:Hlast.
  - destruct (drop_last_ledger f held e x HI Hlast) as [HI' Hlt].
    apply (IH _ HI'). cbn [set_peer set_idle idle]. lia.
  - apply last_None in Hlast. rewrite Hlast in Hgt. simpl in Hgt. destruct (I_caps _ _ HI). lia.
Qed.

Lemma release_unfold f q p :
  peers f !! q = Some p -> 0 < total f ->
  exists s r s' r', let f1 := set_total f (total f - 1) s r in
    let p1 := MkPeer (circuits p - 1) (pace p) s' r' (idleElem p) in
    (release f q).2 = if circuits p - 1 <=? 0 then retirePeer f1 q p1 else set_peer f1 q (Some p1).
Proof.
  intros Hq Ht. unfold release. rewrite (proj2 (Z.ltb_lt _ _)) by done.
  destruct (saturated f); cbn [peers set_total]; rewrite Hq; destruct (p_saturated p); by do 4 eexists.
Qed.

Section Release.
Context (f : forwardLimits) (held : list string) (q : string) (p : forwardPeer) (HI : Ledger f (q :: held)).
Context (Hq : peers f !! q = Some p) (s s' : bool) (r r' : Z).
Let f1 := set_total f (total f - 1) s r.
Let p1 := MkPeer (circuits p - 1) (pace p) s' r' (idleElem p).

Lemma live_peer : idleElem p = None.
Proof. apply (I_live _ _ HI q p Hq). set_solver. Qed.
Lemma circuits_live : circuits p - 1 = cnt q held.
Proof.
  destruct (I_peer _ _ HI q) as [Hc _]. unfold circuits_of in Hc. rewrite Hq, cnt_cons, decide_True in Hc by done. lia.
Qed.
Lemma total_released : total f1 = Z.of_nat (List.length held) /\ total f1 <= maxTotal f1.
Proof. destruct (I_total _ _ HI) as [Ht Hm]. cbn in *. lia. Qed.

(** The other peers are as they were. *)
Lemma other_peers x px :
  x <> q ->
  circuits_of f x = cnt x held /\ cnt x held <= maxPerPeer f /\
  (peers f !! x = Some px -> idleElem px = None <-> x ∈ held).
Proof.
  intros Hne. destruct (I_peer _ _ HI x) as [Hc Hm]. rewrite cnt_cons, decide_False in Hc, Hm by done.
  split_and!; [lia|lia|]. intros Hx. rewrite (I_live _ _ HI x px Hx). set_solver.
Qed.

Lemma released_peer : q ∈ held -> Ledger (set_peer f1 q (Some p1)) held.
Proof.
  intros Hin. destruct (I_peer _ _ HI q) as [Hc Hm]. rewrite cnt_cons, decide_True in Hm by done. clear Hc.
  split; cbn [set_peer maxPerPeer maxTotal idle next]; try apply HI.
  - apply total_released.
  - intros x. unfold circuits_of. cbn [peers set_peer].
    destruct (decide (x = q)) as [->|Hne]; [rewrite lookup_partial_alter_eq; simpl; rewrite circuits_live; lia|].
    rewrite lookup_partial_alter_ne by done. destruct (other_peers x p Hne) as (Hc & ? & _). done.
  - intros x px. cbn [peers set_peer].
    destruct (decide (x = q)) as [->|Hne]; [rewrite lookup_partial_alter_eq; intros [= <-]; simpl; by rewrite live_peer|].
    rewrite lookup_partial_alter_ne by done. by apply (other_peers x px).
  - intros e x. cbn [peers set_peer]. change (idle f1) with (idle f). rewrite (I_idle _ _ HI e x).
    destruct (decide (x = q)) as [->|Hne]; [|by rewrite lookup_partial_alter_ne].
    rewrite lookup_partial_alter_eq, Hq. pose proof live_peer. simpl. naive_solver.
Qed.

Lemma released_idle : q ∉ held -> Ledger (pushed f1 q p1) held.
Proof.
  intros Hnin. assert (cnt q held = 0) as H0 by (pose proof (cnt_nonneg q held); rewrite <-cnt_pos in Hnin; lia).
  split; cbn [pushed set_idle set_peer maxPerPeer maxTotal idle next]; try apply HI.
  - apply total_released.
  - intros x. unfold circuits_of. cbn [peers pushed set_idle set_peer]. pose proof (I_caps _ _ HI).
    destruct (decide (x = q)) as [->|Hne]; [rewrite lookup_partial_alter_eq; simpl; rewrite circuits_live; lia|].
    rewrite lookup_partial_alter_ne by done. destruct (other_peers x p Hne) as (Hc & ? & _). done.
  - intros x px. cbn [peers pushed set_idle set_peer].
    destruct (decide (x = q)) as [->|Hne]; [rewrite lookup_partial_alter_eq; intros [= <-]; simpl; naive_solver|].
    rewrite lookup_partial_alter_ne by done. by apply (other_peers x px).
  - intros e x. cbn [peers pushed set_idle set_peer]. rewrite elem_of_cons.
    change (idle f1) with (idle f). change (next f1) with (next f). rewrite (I_idle _ _ HI e x).
    destruct (decide (x = q)) as [->|Hne]; [|rewrite lookup_partial_alter_ne by done; change (peers f1) with (peers f); naive_solver].
    rewrite lookup_partial_alter_eq, Hq. pose proof live_peer. simpl. naive_solver.
  - cbn [fmap list_fmap fst]. apply NoDup_cons. split; [|apply (I_nodup _ _ HI)].
    intros ([e x] & He & Hin)%list_elem_of_fmap. apply (I_fresh _ _ HI) in Hin. cbn in He, Hin. lia.
  - intros e x [[= -> ->]|Hin]%elem_of_cons; cbn; [lia|]. apply (I_fresh _ _ HI) in Hin. cbn in Hin. lia.
Qed.
End Release.

Lemma release_spec f held q : Inv f (q :: held) -> Inv (release f q).2 held /\ caps_kept f (release f q).2.
Proof.
  intros HI. destruct (I_total _ _ HI) as [Ht _]. cbn [List.length] in Ht.
  destruct (I_peer _ _ HI q) as [Hc _]. unfold circuits_of in Hc. rewrite cnt_cons, decide_True in Hc by done.
  pose proof (cnt_nonneg q held). destruct (peers f !! q) as [p|] eqn:Hq; [|lia].
  destruct (release_unfold f q p Hq) as (s & r & s' & r' & ->); [lia|].
  destruct (Z.leb_spec (circuits p - 1) 0) as [H0|H0].
  - assert (q ∉ held) as Hnin by (rewrite <-cnt_pos; lia).
    pose proof (released_idle f held q p HI Hq s s' r r' Hnin) as HL.
    apply (evict_spec _ _ _ HL). done.
  - assert (q ∈ held) as Hin by (apply cnt_pos; lia). split; [|done].
    split; [by apply (released_peer f held q p HI Hq)|]. apply (I_len _ _ HI).
Qed.

(** The states of the table and the circuits that are held: one step of the peer
    [q]. *)
Inductive fstep (q : string) : forwardLimits * list string -> forwardLimits * list string -> Prop :=
  | f_open f held f' pc : acquire f q = (Ok pc, f') -> fstep q (f, held) (f', q :: held)
  | f_shed f held f' e : acquire f q = (Err e, f') -> fstep q (f, held) (f', held)
  | f_close f held held' : held ≡ₚ q :: held' -> fstep q (f, held) ((release f q).2, held').
Definition any_step (st st' : forwardLimits * list string) : Prop := exists q, fstep q st st'.
Definition other_step (q : string) (st st' : forwardLimits * list string) : Prop := exists x, x <> q /\ fstep x st st'.

Lemma cnt_perm q held held' : held ≡ₚ held' -> cnt q held = cnt q held'.
Proof. intros Hp. unfold cnt. by rewrite Hp. Qed.
Lemma Inv_perm f held held' : held ≡ₚ held' -> Inv f held -> Inv f held'.
Proof.
  intros Hp [[? Ht Hpe Hli ? ? ?] ?]. split; [split|]; try done.
  - by rewrite <-Hp.
  - intros q. rewrite <-(cnt_perm q held held' Hp). apply Hpe.
  - intros q p Hq. rewrite <-Hp. by apply Hli.
Qed.

Lemma fstep_inv q st st' : fstep q st st' -> Inv st.1 st.2 -> Inv st'.1 st'.2 /\ caps_kept st.1 st'.1.
Proof.
  intros [f held f' pc Ha|f held f' [[] first] Ha|f held held' Hp] HI; cbn [fst snd] in *.
  - pose proof (acquire_spec f held q HI) as Hs. rewrite Ha in Hs. tauto.
  - pose proof (acquire_spec f held q HI) as Hs. rewrite Ha in Hs. tauto.
  - pose proof (acquire_spec f held q HI) as Hs. rewrite Ha in Hs. tauto.
  - apply release_spec. by eapply Inv_perm.
Qed.

Lemma fsteps_inv perPeer tot rate f held :
  rtc any_step (newForwardLimits perPeer tot rate, []) (f, held) ->
  Inv f held /\ caps_kept (newForwardLimits perPeer tot rate) f.
Proof.
  intros Hr. remember (newForwardLimits perPeer tot rate) as f0 eqn:Hf0.
  apply (rtc_ind_r (fun st => Inv st.1 st.2 /\ caps_kept f0 st.1) (f0, [])) in Hr; [done| |].
  - split; [|done]. subst f0. apply Inv_new.
  - intros st st' _ [q Hs] [HI [HP HT]]. destruct (fstep_inv _ _ _ Hs HI) as [HI' [HP' HT']].
    split; [done|]. split; congruence.
Qed.

Lemma size_list_to_set_le (l : list string) : (size (list_to_set l : gset string) <= List.length l)%nat.
Proof.
  induction l as [|x l IH]; [done|]. simpl. rewrite size_union_alt, size_singleton.
  assert (size (list_to_set l ∖ {[x]} : gset string) <= size (list_to_set l : gset string))%nat by (apply subseteq_size; set_solver).
  lia.
Qed.

(** The table never grows past twice the circuits allowed in all. *)
Lemma Inv_size f held : Inv f held -> Z.of_nat (size (peers f)) <= 2 * maxTotal f.
Proof.
  intros HI. rewrite <-(size_dom (D := gset string)).
  assert (dom (peers f) ⊆ (list_to_set (held ++ (idle f).*2) : gset string)) as Hsub.
  { intros q (p & Hq)%elem_of_dom. pose proof (I_live _ _ HI q p Hq) as Hl. rewrite elem_of_list_to_set, elem_of_app.
    destruct (idleElem p) as [e|] eqn:He; [right|naive_solver].
    assert ((e, q) ∈ idle f) as Hin by (apply (I_idle _ _ HI); eauto).
    apply list_elem_of_fmap. by exists (e, q). }
  apply subseteq_size in Hsub. pose proof (size_list_to_set_le (held ++ (idle f).*2)) as Hle.
  rewrite length_app, length_fmap in Hle. destruct (I_total _ _ HI). pose proof (I_len _ _ HI). lia.
Qed.

(** Whatever circuits are opened, refused and closed, the table of a hop is a
    semaphore: its counts are those of the circuits that are held, a new circuit is taken
    exactly when it is within the cap of its previous hop and within the cap in all, the
    refusal names the cap that is reached, and the table keeps at most twice as many
    peers as circuits are allowed. *)
Theorem forwardLimits_refine perPeer tot rate f held q :
  rtc any_step (newForwardLimits perPeer tot rate, []) (f, held) ->
  counts f q = (cnt q held, Z.of_nat (List.length held)) /\
  1 <= maxPerPeer f <= maxTotal f /\ cnt q held <= maxPerPeer f /\ Z.of_nat (List.length held) <= maxTotal f /\
  Z.of_nat (size (peers f)) <= 2 * maxTotal f /\
  match (acquire f q).1 with
  | Ok _ => Z.of_nat (List.length held) < maxTotal f /\ cnt q held < maxPerPeer f
  | Err (errForwardNodeBusy, _) => Z.of_nat (List.length held) = maxTotal f
  | Err (errForwardPeerBusy, _) => Z.of_nat (List.length held) < maxTotal f /\ cnt q held = maxPerPeer f
  end.
Proof.
  intros [HI _]%fsteps_inv. destruct (I_total _ _ HI) as [Ht Hm]. destruct (I_peer _ _ HI q) as [Hc Hcm].
  split_and!; [|apply HI|apply HI|done|lia|by eapply Inv_size|].
  - unfold counts. unfold circuits_of in Hc. by rewrite Hc, Ht.
  - pose proof (acquire_spec f held q HI) as Hs. destruct (acquire f q) as [[pc|[[] first]] f']; simpl; tauto.
Qed.

(** ** A peer that comes back finds its pace *)

(** The element of [q] is within the first [n] of the idle list. *)
Definition listed_at (f : forwardLimits) (e : nat) (q : string) (n : nat) : Prop :=
  exists k, (k <= n)%nat /\ idle f !! k = Some (e, q).

Lemma Remove_lookup l e0 e (q : string) k :
  l !! k = Some (e, q) -> e <> e0 -> exists j, (j <= k)%nat /\ list_Remove l e0 !! j = Some (e, q).
Proof.
  intros Hk Hne. revert k Hk. induction l as [|[e1 q1] l IH]; intros k Hk; [done|].
  unfold list_Remove in *. rewrite filter_cons. cbn [fst].
  destruct k as [|k]; cbn in Hk.
  - injection Hk as -> ->. rewrite decide_True by (by rewrite (proj2 (Nat.eqb_neq _ _) Hne)). exists O. auto.
  - destruct (IH k Hk) as (j & Hj & Hl). case_decide; [exists (S j)|exists j]; split; (done || lia).
Qed.

Lemma evict_keeps fuel f held e q n :
  Ledger f held -> listed_at f e q n -> Z.of_nat n < maxTotal f ->
  listed_at (evict fuel f) e q n /\ peers (evict fuel f) !! q = peers f !! q.
Proof.
  revert f. induction fuel as [|m IH]; intros f HI Hq Hn; cbn [evict]; [done|].
  destruct (Z.ltb_spec (maxTotal f) (Z.of_nat (List.length (idle f)))) as [Hgt|Hle]; [|done].
  destruct (last (idle f)) as [[e' x]|] eqn:Hlast; [|done].
  destruct Hq as (k & Hk & Hkq). rewrite last_lookup in Hlast.
  assert (e <> e') as Hne.
  { intros ->. assert (k = pred (List.length (idle f))) as ->; [|lia].
    eapply (NoDup_lookup (idle f).*1); [apply (I_nodup _ _ HI)|by rewrite list_lookup_fmap, Hkq|by rewrite list_lookup_fmap, Hlast]. }
  assert (q <> x) as Hqx.
  { intros ->. apply Hne. apply (idle_key f held e' x e x HI); [by eapply list_elem_of_lookup_2..|done]. }
  destruct (drop_last_ledger f held e' x HI) as [HI' _]; [by rewrite last_lookup|].
  destruct (Remove_lookup _ _ _ _ _ Hkq Hne) as (j & Hj & Hjq).
  destruct (IH _ HI') as [Hl Hp]; [exists j; split; [lia|done]|done|]. split; [done|]. rewrite Hp.
  cbn [peers set_peer set_idle]. by rewrite lookup_partial_alter_ne.
Qed.

Lemma acquire_keeps f held x e q n :
  Inv f held -> x <> q -> listed_at f e q n ->
  listed_at (acquire f x).2 e q n /\ peers (acquire f x).2 !! q = peers f !! q.
Proof.
  intros HI Hxq Hq. unfold acquire. destruct (maxTotal f <=? total f); [done|].
  assert (listed_at (revive f x).2 e q n) as Hl.
  { destruct Hq as (k & Hk & Hkq). unfold revive. destruct (peers f !! x) as [p|] eqn:Hx; [|by exists k].
    destruct (idleElem p) as [e0|] eqn:He; [|by exists k].
    assert ((e0, x) ∈ idle f) as Hin by (apply (I_idle _ _ HI); eauto).
    destruct (Remove_lookup _ e0 _ _ _ Hkq) as (j & Hj & Hjq); [|exists j; split; [lia|done]].
    intros ->. apply Hxq. symmetry. apply (idle_key f held e0 x e0 q HI); [done|by eapply list_elem_of_lookup_2|done]. }
  assert (peers (revive f x).2 = peers f) as Hp by (unfold revive; repeat case_match; done).
  destruct (revive f x) as [p f1]. simpl in Hl, Hp.
  destruct (maxPerPeer f1 <=? circuits p); (split; [done|]); unfold set_total, set_peer; cbn [snd peers];
    rewrite lookup_partial_alter_ne by done; by rewrite Hp.
Qed.

Lemma release_keeps f held x e q n :
  Inv f (x :: held) -> x <> q -> listed_at f e q n -> Z.of_nat (S n) < maxTotal f ->
  listed_at (release f x).2 e q (S n) /\ peers (release f x).2 !! q = peers f !! q.
Proof.
  intros HI Hxq Hq Hn. destruct (I_total _ _ HI) as [Ht _]. cbn [List.length] in Ht.
  destruct (I_peer _ _ HI x) as [Hc _]. unfold circuits_of in Hc. rewrite cnt_cons, decide_True in Hc by done.
  pose proof (cnt_nonneg x held). destruct (peers f !! x) as [p|] eqn:Hx; [|lia].
  destruct (release_unfold f x p Hx) as (s & r & s' & r' & ->); [lia|]. destruct Hq as (k & Hk & Hkq).
  destruct (Z.leb_spec (circuits p - 1) 0) as [H0|H0].
  - assert (x ∉ held) as Hnin by (rewrite <-cnt_pos; lia).
    pose proof (released_idle f held x p HI Hx s s' r r' Hnin) as HL.
    destruct (evict_keeps (S (List.length (idle f))) _ held e q (S n) HL) as [Hl Hp];
      [exists (S k); split; [lia|done]|done|].
    split; [done|]. etrans; [exact Hp|]. cbn [peers pushed set_idle set_peer]. by rewrite lookup_partial_alter_ne.
  - split; [exists k; split; [lia|done]|]. cbn [peers set_peer]. by rewrite lookup_partial_alter_ne.
Qed.

Lemma other_steps_keep q e m st st' n :
  nsteps (other_step q) m st st' -> Inv st.1 st.2 -> listed_at st.1 e q n -> Z.of_nat (n + m) < maxTotal st.1 ->
  Inv st'.1 st'.2 /\ caps_kept st.1 st'.1 /\ listed_at st'.1 e q (n + m) /\ peers st'.1 !! q = peers st.1 !! q.
Proof.
  intros Hs. revert n. induction Hs as [st|m st st1 st2 (x & Hx & Hs) _ IH]; intros n HI Hl Hn.
  { rewrite Nat.add_0_r. done. }
  destruct (fstep_inv _ _ _ Hs HI) as [HI1 [HP HT]].
  assert (listed_at st1.1 e q (S n) /\ peers st1.1 !! q = peers st.1 !! q) as [Hl1 Hp1].
  { destruct Hs as [f held f' pc Ha|f held f' er Ha|f held held' Hp]; cbn [fst snd] in *.
    - pose proof (acquire_keeps f held x e q n HI Hx Hl) as Hk. rewrite Ha in Hk. simpl in Hk.
      destruct Hk as [(k & ? & ?) ?]. split; [exists k; split; [lia|done]|done].
    - pose proof (acquire_keeps f held x e q n HI Hx Hl) as Hk. rewrite Ha in Hk. simpl in Hk.
      destruct Hk as [(k & ? & ?) ?]. split; [exists k; split; [lia|done]|done].
    - eapply release_keeps; [by eapply Inv_perm|done|done|lia]. }
  destruct (IH (S n) HI1 Hl1) as (HI2 & [HP2 HT2] & Hl2 & Hp2); [lia|].
  replace (n + S m)%nat with (S n + m)%nat by lia. split_and!; [done|split; congruence|done|congruence].
Qed.

Lemma released_at_front f held q p :
  Inv f (q :: held) -> q ∉ held -> peers f !! q = Some p ->
  Inv (release f q).2 held /\ caps_kept f (release f q).2 /\
  exists e, listed_at (release f q).2 e q 0 /\
    exists p', peers (release f q).2 !! q = Some p' /\ pace p' = pace p /\ idleElem p' = Some e.
Proof.
  intros HI Hnin Hq. destruct (release_spec f held q HI) as [HI' Hk]. split_and!; [done..|].
  destruct (I_total _ _ HI) as [Ht _]. cbn [List.length] in Ht. pose proof (circuits_live f held q p HI Hq) as Hc.
  assert (cnt q held = 0) as H0 by (pose proof (cnt_nonneg q held); rewrite <-cnt_pos in Hnin; lia).
  destruct (release_unfold f q p Hq) as (s & r & s' & r' & ->); [lia|].
  rewrite (proj2 (Z.leb_le _ _)) by lia. exists (next f).
  pose proof (released_idle f held q p HI Hq s s' r r' Hnin) as HL.
  destruct (evict_keeps (S (List.length (idle f))) _ held (next f) q 0 HL) as [Hl Hp]; [by exists O| |].
  { destruct (I_caps _ _ HI). cbn. lia. }
  split; [done|]. exists (MkPeer (circuits p - 1) (pace p) s' r' (Some (next f))). split; [|done].
  etrans; [exact Hp|]. cbn [peers pushed set_idle set_peer]. rewrite lookup_partial_alter_eq. reflexivity.
Qed.

(** A previous hop that closes its last circuit and comes back while fewer steps of
    other hops lie between than circuits are allowed in all gets the pace it left, not a
    fresh one; the only other answer is that the node is full. *)
Theorem pace_survives perPeer tot rate f held q p m f2 held2 :
  rtc any_step (newForwardLimits perPeer tot rate, []) (f, q :: held) ->
  q ∉ held -> peers f !! q = Some p ->
  nsteps (other_step q) m ((release f q).2, held) (f2, held2) -> Z.of_nat m < maxTotal f ->
  (acquire f2 q).1 = Ok (pace p) \/ exists first, (acquire f2 q).1 = Err (errForwardNodeBusy, first).
Proof.
  intros [HI _]%fsteps_inv Hnin Hq Hsteps Hm.
  destruct (released_at_front f held q p HI Hnin Hq) as (HI1 & [HP HT] & e & Hl & p' & Hp' & Hpace & Hidle).
  destruct (other_steps_keep q e m _ _ 0 Hsteps HI1 Hl) as (HI2 & [HP2 HT2] & Hl2 & Hp2); cbn [fst snd] in *; [lia|].
  unfold acquire. destruct (maxTotal f2 <=? total f2); [right; by eexists|left].
  unfold revive. rewrite Hp2, Hp', Hidle. cbn [circuits pace p_saturated p_refused idleElem set_idle maxPerPeer].
  assert (q ∉ held2) as Hn2.
  { rewrite <-(I_live _ _ HI2 q p'); [by rewrite Hidle|]. by rewrite Hp2. }
  destruct (I_peer _ _ HI2 q) as [Hc _]. unfold circuits_of in Hc. rewrite Hp2, Hp' in Hc.
  pose proof (cnt_nonneg q held2). rewrite <-cnt_pos in Hn2. destruct (I_caps _ _ HI2).
  rewrite (proj2 (Z.leb_gt _ _)) by lia. simpl. by rewrite Hpace.
Qed.

(** ** A relay forwards and never egresses *)

Lemma isSelfAddr_false cfg d a :
  a <> "" -> isSelfAddr cfg (Some d) a = false -> a ∉ own d /\ a <> RelayIngress cfg /\ a <> Advertise cfg.
Proof.
  intros Ha. unfold isSelfAddr. rewrite (proj2 (String.eqb_neq _ _) Ha), !orb_false_iff, andb_false_iff, negb_false_iff.
  rewrite bool_decide_eq_false, !String.eqb_eq, !String.eqb_neq. intros [[Ho Hi] Hadv].
  split_and!; [done..|]. destruct Hadv as [->|]; congruence.
Qed.

Lemma relayForward_dial cfg dir f remote nxt a peer pc f' :
  relayForward cfg dir f remote nxt = (Dial a peer pc, f') ->
  a = nxt /\ peer = forwardPeerKey remote /\ RelayIngress cfg <> "" /\ acquire f peer = (Ok pc, f') /\
  exists d, dir = Some d /\ a ∈ dialable d /\ isSelfAddr cfg (Some d) a = false.
Proof.
  unfold relayForward, forwardOn. destruct (String.eqb_spec (RelayIngress cfg) "") as [|Hi]; [done|]. cbn [negb andb].
  case_bool_decide as Hd; [|done]. destruct Hd as [d ->]. cbn [negb].
  destruct (isSelfAddr cfg (Some d) nxt) eqn:Hself; [done|]. case_bool_decide as Hdial; [|done]. cbn [negb].
  destruct (acquire f (forwardPeerKey remote)) as [[pc'|[[] first]] f1] eqn:Ha; [|done..].
  intros [= <- <- <- <-]. split_and!; try done. by exists d.
Qed.

Lemma exitTerminate_dials `{Ed25519} `{JSON Snapshot} embedded signed pub cfg now dir f remote target r f' :
  (forall d, dir = Some d -> loadRelayDirectory embedded signed pub (ID cfg) now = Ok d) ->
  exitTerminate cfg false dir f remote target = (r, f') ->
  match r with
  | EgressTCP _ | EgressUDP _ | Pipe _ => False
  | ServeForward (Dial a peer pc) =>
      target = hopTargetPrefix +:+ a /\ is_Some dir /\ RelayIngress cfg <> "" /\ acquire f peer = (Ok pc, f') /\
      a <> RelayIngress cfg /\ a <> Advertise cfg /\
      exists snap e, VerifySigned pub signed = Ok snap /\ e ∈ Entries snap /\ entry_addr e a /\
        (ID cfg <> "" -> forall e', e' ∈ Entries snap -> en_ID e' = ID cfg -> ~ entry_addr e' a)
  | _ => f' = f \/ exists reason logged, r = ServeForward (Refuse reason logged)
  end.
Proof.
  intros Hdir. unfold exitTerminate.
  destruct (String.eqb target acctSentinel); [intros [= <- <-]; by left|].
  destruct (String.eqb target probeSentinel); [intros [= <- <-]; by left|].
  unfold splitTargetPrefix. destruct (strip_prefix udpTargetPrefix target) as [a|]; [intros [= <- <-]; by left|].
  destruct (strip_prefix hopTargetPrefix target) as [a|] eqn:Hhop; [|intros [= <- <-]; by left].
  apply strip_prefix_inv in Hhop. cbn [String.eqb Ascii.eqb Bool.eqb hopTargetPrefix].
  destruct (relayForward cfg dir f remote a) as [x f1] eqn:Hf. intros [= <- <-].
  destruct x as [reason logged|a' peer pc]; [right; by do 2 eexists|].
  apply relayForward_dial in Hf as (-> & -> & Hi & Hacq & d & -> & Hdial & Hself).
  destruct (loadRelayDirectory_inv _ _ _ _ _ _ (Hdir d eq_refl)) as (snap & Hv & _ & Hd & _).
  apply (d_dialable _ _ _ Hd) in Hdial as (e & He & Hea).
  apply isSelfAddr_false in Hself as (Hown & Hne1 & Hne2); [|apply Hea].
  split_and!; [done|by eexists|done..|]. exists snap, e. split_and!; [done..|]. intros Hid e' He' Hid' Hea'.
  apply Hown, (d_own _ _ _ Hd). split; [done|]. by exists e'.
Qed.

(** C38: what a node without the exit role dials for a client. Of a stream it terminates,
    never a TCP or UDP target: only an address, named behind the prefix of a hop, that the
    signed directory in use gives for some node, that is not an address of its own, while
    forwarding is on, and for a circuit within its limits; with no directory, or
    forwarding off, nothing. Of a session
    that the coordinator assigned it with an exit's address, that address, unchecked and
    uncounted, whatever the client sends. *)
Theorem relay_never_egresses `{Ed25519} `{JSON Snapshot} embedded signed pub cfg now dir f remote o target r f' :
  (forall d, dir = Some d -> loadRelayDirectory embedded signed pub (ID cfg) now = Ok d) ->
  serve_stream cfg false dir f remote o target = (r, f') ->
  match r with
  | EgressTCP _ | EgressUDP _ => False
  | Pipe a => a <> "" /\ o = Assigned a /\ f' = f
  | ServeForward (Dial a peer pc) =>
      (o = Accepted \/ o = Assigned "") /\
      target = hopTargetPrefix +:+ a /\ is_Some dir /\ RelayIngress cfg <> "" /\ acquire f peer = (Ok pc, f') /\
      a <> RelayIngress cfg /\ a <> Advertise cfg /\
      exists snap e, VerifySigned pub signed = Ok snap /\ e ∈ Entries snap /\ entry_addr e a /\
        (ID cfg <> "" -> forall e', e' ∈ Entries snap -> en_ID e' = ID cfg -> ~ entry_addr e' a)
  | _ => f' = f \/ exists reason logged, r = ServeForward (Refuse reason logged)
  end.
Proof.
  intros Hdir. pose proof (exitTerminate_dials embedded signed pub cfg now dir f remote target r f' Hdir) as Hterm.
  unfold serve_stream. destruct o as [ea|]; [destruct (String.eqb_spec ea "") as [->|Hne]; cbn [negb]; [|intros [= <- <-]; by split_and!]|];
    intros Hr%Hterm; destruct r as [| |[]| | | |]; try done; (split; [auto|done]).
Qed.

(** ** Witnesses *)

Import Toy RelayChain.Demo.

Lemma refusal_roundtrip_witness :
  let fr := hopRefusalFrame (bytes_of (reason_text NotInMesh)) in
  refusal [firstn 5 fr; skipn 5 fr ++ [Ascii.zero]] = Some (bytes_of "not-in-mesh").
Proof.
  cbv zeta. apply (refusal_roundtrip NotInMesh [Ascii.zero] _ [] []). vm_compute. reflexivity.
Defined.

Lemma forwardLimits_refine_witness :
  let f0 := newForwardLimits 1 2 8 in let f1 := (acquire f0 "a").2 in
  counts f1 "a" = (1, 1) /\ (acquire f1 "a").1 = Err (errForwardPeerBusy, true).
Proof.
  cbv zeta. assert (rtc any_step (newForwardLimits 1 2 8, []) ((acquire (newForwardLimits 1 2 8) "a").2, ["a"])) as Hr.
  { apply rtc_once. exists "a". eapply f_open. vm_compute. reflexivity. }
  destruct (forwardLimits_refine 1 2 8 _ ["a"] "a" Hr) as (Hc & _). split; [exact Hc|vm_compute; reflexivity].
Defined.

Lemma pace_survives_witness :
  let f1 := (acquire (newForwardLimits 2 2 8) "a").2 in
  let f2 := (acquire (release f1 "a").2 "b").2 in
  exists p, peers f1 !! "a" = Some p /\ pace p = Some 0%nat /\
    ((acquire f2 "a").1 = Ok (pace p) \/ exists first, (acquire f2 "a").1 = Err (errForwardNodeBusy, first)).
Proof.
  cbv zeta. exists (MkPeer 1 (Some 0%nat) false 0 None). split; [vm_compute; reflexivity|]. split; [reflexivity|].
  apply (pace_survives 2 2 8 (acquire (newForwardLimits 2 2 8) "a").2 [] "a" (MkPeer 1 (Some 0%nat) false 0 None) 1
           _ ["b"]).
  - apply rtc_once. exists "a". eapply f_open. vm_compute. reflexivity.
  - apply not_elem_of_nil.
  - vm_compute. reflexivity.
  - eapply nsteps_l; [|apply nsteps_O]. exists "b". split; [discriminate|]. eapply f_open. vm_compute. reflexivity.
  - vm_compute. reflexivity.
Defined.

Lemma relay_never_egresses_witness :
  let f := newForwardLimits 2 4 0 in
  (serve_stream cfg false (Some dir) f (Some "9.9.9.9:5000") Accepted "hop:8.8.8.8:443").1 =
    ServeForward (Dial "8.8.8.8:443" "9.9.9.9" None) /\
  exists s e, VerifySigned (directory_key cfg) (RelayDirectory cfg) = Ok s /\ e ∈ Entries s /\ entry_addr e "8.8.8.8:443".
Proof.
  cbv zeta. split; [vm_compute; reflexivity|].
  assert (serve_stream cfg false (Some dir) (newForwardLimits 2 4 0) (Some "9.9.9.9:5000") Accepted "hop:8.8.8.8:443" =
    (ServeForward (Dial "8.8.8.8:443" "9.9.9.9" None), (acquire (newForwardLimits 2 4 0) "9.9.9.9").2)) as He
    by (vm_compute; reflexivity).
  assert (forall d, Some dir = Some d -> loadRelayDirectory (Some ASN.Demo.table) (RelayDirectory cfg) (directory_key cfg) (ID cfg) Hour = Ok d) as Hd
    by (intros d [= <-]; exact load_demo).
  destruct (relay_never_egresses _ _ _ _ _ _ _ _ _ _ _ _ Hd He) as (_ & _ & _ & _ & _ & _ & _ & s & e & Hv & Hin & Ha & _).
  eauto.
Defined.
