(* ===== verification/E2E.v ===== *)
(** * The end-to-end channel: [core/e2e.go], [core/exit_admission.go]

    Frames of two length bytes and a body over a byte stream that may cut them anywhere,
    and over them the sealed stream a client and a node talk through; and the checks of
    the credential the node presents in the handshake. The Noise library is the
    parameter [Noise]: a cipher state for each direction. The two states a handshake
    makes are [paired]: what one seals, in order, the other opens. *)

From S2P Require Import Prelude GoStrings Base64 Crypto Admission.
Local Open Scope Z_scope.

Definition maxPlain : nat := 128 * 128.
Definition maxFrame : Z := 65535.

(** ** The cipher *)

Class Noise := {
  CipherState : Type;
  Encrypt : CipherState -> bytes -> option (bytes * CipherState);
  Decrypt : CipherState -> bytes -> option (bytes * CipherState);
  paired : CipherState -> CipherState -> Prop;
}.

(** What the library documents: a sealed message is 16 bytes longer, and opens under the
    paired state as what was sealed, leaving the states paired. *)
Class NoiseLaws `{Noise} := {
  Encrypt_length e p c e' : Encrypt e p = Some (c, e') -> List.length c = (List.length p + 16)%nat;
  Decrypt_Encrypt e d p c e' : paired e d -> Encrypt e p = Some (c, e') ->
    exists d', Decrypt d c = Some (p, d') /\ paired e' d';
}.

(** ** Frames *)

Inductive ConnError := errFrameTooLarge | RawError | CipherError.

Definition frame_of (b : bytes) : bytes := be_bytes 2 (Z.of_nat (List.length b)) ++ b.

(** [takeFrame]: the first frame of the buffer and the rest. *)
Definition takeFrame (rbuf : bytes) : option (bytes * bytes) :=
  if (List.length rbuf <? 2)%nat then None
  else
    let n := Z.to_nat (be_value (firstn 2 rbuf)) in
    if (List.length rbuf <? 2 + n)%nat then None
    else Some (firstn n (skipn 2 rbuf), skipn (2 + n) rbuf).

(** A read of the raw stream gives some bytes and maybe an error; when the list is used
    up the stream gives nothing more, and the call does not return. *)
Record RawRead := MkRawRead { r_bytes : bytes; r_err : bool }.

Inductive Got (A : Type) := Value (a : A) | Failed (e : ConnError) | Blocked.
Arguments Value {A}. Arguments Failed {A}. Arguments Blocked {A}.

Fixpoint readFrame (rbuf : bytes) (raw : list RawRead) : Got bytes * bytes * list RawRead :=
  match takeFrame rbuf with
  | Some (f, rest) => (Value f, rest, raw)
  | None =>
      match raw with
      | [] => (Blocked, rbuf, [])
      | r :: raw' =>
          let rbuf := rbuf ++ r_bytes r in
          if r_err r then
            match takeFrame rbuf with
            | Some (f, rest) => (Value f, rest, raw')
            | None => (Failed RawError, rbuf, raw')
            end
          else readFrame rbuf raw'
      end
  end.

(** ** The sealed stream *)

Section Stream.
Context `{Noise}.

(** [writeRawFrame]: [ok] is whether the raw write succeeds. *)
Definition writeRawFrame (b : bytes) (ok : bool) : result ConnError bytes :=
  if maxFrame <? Z.of_nat (List.length b) then Err errFrameTooLarge
  else if ok then Ok (frame_of b) else Err RawError.

(** [Write]: the frames that went out, the count of bytes it reports, the error and the
    state; [oks] says which raw writes succeed. A round takes at least one byte. *)
Fixpoint write_loop (fuel : nat) (e : CipherState) (p : bytes) (oks : nat -> bool) (k : nat)
    : bytes * nat * option ConnError * CipherState :=
  match fuel, p with
  | O, _ | _, [] => ([], O, None, e)
  | S fuel, _ =>
      let n := Nat.min (List.length p) maxPlain in
      match Encrypt e (firstn n p) with
      | None => ([], O, Some CipherError, e)
      | Some (ct, e') =>
          match writeRawFrame ct (oks k) with
          | Err er => ([], O, Some er, e')
          | Ok fr =>
              let '(out, total, er, e'') := write_loop fuel e' (skipn n p) oks (S k) in
              (fr ++ out, (n + total)%nat, er, e'')
          end
      end
  end.
Definition Write (e : CipherState) (p : bytes) (oks : nat -> bool) := write_loop (List.length p) e p oks 0.

(** The reading half: bytes not yet a frame, plaintext not yet handed over, the state. *)
Record Reader := MkReader { rbuf : bytes; pt : bytes; dec : CipherState }.

(** [Read] into a buffer of [n] bytes. Every round consumes a frame, so the bytes that
    are there are fuel enough. *)
Fixpoint read_loop (fuel : nat) (c : Reader) (n : nat) (raw : list RawRead) : Got bytes * Reader * list RawRead :=
  match pt c with
  | _ :: _ => (Value (firstn n (pt c)), MkReader (rbuf c) (skipn n (pt c)) (dec c), raw)
  | [] =>
      match fuel with
      | O => (Blocked, c, raw)
      | S fuel =>
          match readFrame (rbuf c) raw with
          | (Value f, rest, raw') =>
              match Decrypt (dec c) f with
              | Some (p, d') => read_loop fuel (MkReader rest p d') n raw'
              | None => (Failed CipherError, MkReader rest [] (dec c), raw')
              end
          | (Failed er, rest, raw') => (Failed er, MkReader rest [] (dec c), raw')
          | (Blocked, rest, raw') => (Blocked, MkReader rest [] (dec c), raw')
          end
      end
  end.
Definition pending (c : Reader) (raw : list RawRead) : bytes := rbuf c ++ List.concat (r_bytes <$> raw).
Definition Read (c : Reader) (n : nat) (raw : list RawRead) : Got bytes * Reader * list RawRead :=
  read_loop (S (List.length (pending c raw))) c n raw.
End Stream.

(** ** The credential of the node that answered *)

Inductive VerifyError := errUnboundKey | errMissingCredential | BadCredential (e : Admission.Error).

Section Credentials.
Context `{Ed25519} `{JSON Credential}.

Definition verifyCredential (role : Role) (v : Verifier) (pub cred : bytes) (now : Time) : result VerifyError unit :=
  check! fail_if (bool_decide (pub = [])) errUnboundKey;
  check! fail_if (bool_decide (cred = [])) errMissingCredential;
  let? _ := map_err BadCredential (Verify v (string_of cred) now role (hex_EncodeToString pub)) in Ok tt.
Definition verifyExitCredential (v : Verifier) (exitPub cred : bytes) (now : Time) : result VerifyError unit :=
  verifyCredential RoleExit v exitPub cred now.
Definition verifyHopCredential (v : Verifier) (hopPub cred : bytes) (now : Time) : result VerifyError unit :=
  verifyCredential RoleRelay v hopPub cred now.

(** [exitVerifyFunc] and [hopVerifyFunc]: no verifier, no check. *)
Definition exitVerifyFunc (v : option Verifier) (exitPub : bytes) (now : Time) : option (bytes -> result VerifyError unit) :=
  (fun v cred => verifyExitCredential v exitPub cred now) <$> v.
Definition hopVerifyFunc (v : option Verifier) (hopPub : bytes) (now : Time) : option (bytes -> result VerifyError unit) :=
  (fun v cred => verifyHopCredential v hopPub cred now) <$> v.
End Credentials.

Inductive SetupError := BothCRLs | CRLNeedsKey | RequireNeedsKey | BadAdmissionKey | BadCRL (e : CRLError) | CRLUnreadable
  | RequireWithoutCRL | BadAuthorities (e : AuthorityError).

Definition decode_key (s : string) : option bytes :=
  match hex_DecodeString s with
  | Some pub => if bad_key_length pub then None else Some pub
  | None => None
  end.

Section Setup.
Context `{Ed25519} `{JSON CRL}.

(** [buildExitVerifier]; [read] is the read of the path. The verifier it makes reads the
    bundle through the pointer it also returns, so a verifier is the anchor with the
    bundle of the moment ([exit_verifier]). *)
Definition exit_verifier (x : bytes * ClientCRL) : Verifier := NewVerifier x.1 (Some (ClientCRL_Revoked x.2)).
Definition set_crl (crl : ClientCRL) (encoded : string) (now : Time) : result SetupError ClientCRL :=
  match ClientCRL_Set crl encoded now with
  | (crl', None) => Ok crl'
  | (_, Some e) => Err (BadCRL e)
  end.
Definition readCRLFile (file : option bytes) : option string := (fun b => TrimSpace (string_of b)) <$> file.

Definition buildExitVerifier (pubKeyHex crlEncoded crlPath : string) (requireCRL : bool) (now : Time) (read : string -> option bytes)
    : result SetupError (option (bytes * ClientCRL)) :=
  let pubKeyHex := TrimSpace pubKeyHex in
  let crlEncoded := TrimSpace crlEncoded in
  let crlPath := TrimSpace crlPath in
  let has (s : string) := negb (String.eqb s "") in
  check! fail_if (has crlEncoded && has crlPath) BothCRLs;
  if String.eqb pubKeyHex "" then
    check! fail_if (has crlEncoded || has crlPath) CRLNeedsKey;
    check! fail_if requireCRL RequireNeedsKey;
    Ok None
  else
    let? pub := of_option BadAdmissionKey (decode_key pubKeyHex) in
    let crl := NewClientCRL pub in
    let? crl :=
      (if has crlEncoded then set_crl crl crlEncoded now
       else if has crlPath then
         let? encoded := of_option CRLUnreadable (readCRLFile (read crlPath)) in set_crl crl encoded now
       else if requireCRL then Err RequireWithoutCRL
       else Ok crl) in
    Ok (Some (pub, crl)).

Definition buildRelayVerifier (pubKeyHex : string) (crl : option ClientCRL) : result SetupError (option Verifier) :=
  let pubKeyHex := TrimSpace pubKeyHex in
  if String.eqb pubKeyHex "" then Ok None
  else
    let? pub := of_option BadAdmissionKey (decode_key pubKeyHex) in
    let? v := map_err BadAuthorities
      (NewAuthoritySetVerifier [MkAuthority pub [RoleRelay]] (ClientCRL_Revoked <$> crl)) in
    Ok (Some v).

(** [reloadCRL]: the bundle in use is replaced only by one that verifies. *)
Definition reloadCRL (crl : ClientCRL) (file : option bytes) (now : Time) : ClientCRL :=
  match readCRLFile file with
  | None => crl
  | Some encoded => (ClientCRL_Set crl encoded now).1
  end.
End Setup.

(** ** Frames survive any cutting of the stream *)

Lemma be_value_2 b0 b1 : be_value [b0; b1] = octet b0 * 256 + octet b1.
Proof. simpl. lia. Qed.

Lemma takeFrame_frame f rest : Z.of_nat (List.length f) <= maxFrame -> takeFrame (frame_of f ++ rest) = Some (f, rest).
Proof.
  unfold maxFrame. intros Hf. unfold takeFrame, frame_of. rewrite <-app_assoc, !length_app, be_bytes_length.
  rewrite (take_app_length' (be_bytes 2 _)) by (by rewrite be_bytes_length). rewrite be_value_bytes, Z.mod_small, Nat2Z.id by lia.
  rewrite !(proj2 (Nat.ltb_ge _ _)) by lia.
  rewrite (drop_app_length' (be_bytes 2 _)) by (by rewrite be_bytes_length). rewrite (take_app_length' f) by done.
  f_equal. f_equal. rewrite app_assoc. apply drop_app_length'. rewrite length_app, be_bytes_length. lia.
Qed.

(** More bytes behind a frame change nothing. *)
Lemma takeFrame_app b x f rest : takeFrame b = Some (f, rest) -> takeFrame (b ++ x) = Some (f, rest ++ x).
Proof.
  unfold takeFrame. destruct (Nat.ltb_spec (List.length b) 2) as [|H2]; [done|].
  rewrite length_app, take_app_le by lia. set (n := Z.to_nat (be_value (firstn 2 b))).
  destruct (Nat.ltb_spec (List.length b) (2 + n)) as [|Hn]; [done|]. intros [= <- <-].
  rewrite !(proj2 (Nat.ltb_ge _ _)) by lia. rewrite !drop_app_le by lia. f_equal. f_equal.
  apply take_app_le. rewrite length_drop. lia.
Qed.

Definition frames (fs : list bytes) : bytes := List.concat (frame_of <$> fs).
Definition stream (raw : list RawRead) : bytes := List.concat (r_bytes <$> raw).
Definition quiet (raw : list RawRead) : Prop := Forall (fun r => r_err r = false) raw.

Lemma readFrame_next b raw f fs :
  quiet raw -> Z.of_nat (List.length f) <= maxFrame -> b ++ stream raw = frames (f :: fs) ->
  exists b' raw', readFrame b raw = (Value f, b', raw') /\ quiet raw' /\ b' ++ stream raw' = frames fs.
Proof.
  unfold stream, frames. cbn [fmap list_fmap List.concat]. intros Hq Hf. revert b Hq.
  induction raw as [|r raw IH]; intros b Hq Hb; cbn [readFrame].
  - cbn [fmap list_fmap List.concat] in Hb. rewrite app_nil_r in Hb. subst b. rewrite takeFrame_frame by done.
    eexists _, []. split_and!; [done..|]. cbn. by rewrite app_nil_r.
  - destruct (takeFrame b) as [[g rest]|] eqn:Ht.
    + pose proof (takeFrame_app b (List.concat (r_bytes <$> r :: raw)) g rest Ht) as Hx.
      rewrite Hb, takeFrame_frame in Hx by done. injection Hx as Hg Hrest. subst g. exists rest, (r :: raw). by rewrite Hrest.
    + apply Forall_cons in Hq as [Hr Hq]. rewrite Hr. apply IH; [done|]. rewrite <-app_assoc. exact Hb.
Qed.

Section StreamProofs.
Context `{NoiseLaws}.

(** Chunks sealed one after the other. *)
Inductive seals : CipherState -> list bytes -> list bytes -> CipherState -> Prop :=
  | seals_nil e : seals e [] [] e
  | seals_cons e p c e1 ps fs e2 :
      Encrypt e p = Some (c, e1) -> Z.of_nat (List.length c) <= maxFrame -> seals e1 ps fs e2 ->
      seals e (p :: ps) (c :: fs) e2.

Lemma seals_app e ps fs e1 ps' fs' e2 : seals e ps fs e1 -> seals e1 ps' fs' e2 -> seals e (ps ++ ps') (fs ++ fs') e2.
Proof. induction 1; [done|]. intros. econstructor; eauto. Qed.

Lemma frames_app fs fs' : frames (fs ++ fs') = frames fs ++ frames fs'.
Proof. unfold frames. by rewrite fmap_app, concat_app. Qed.

(** The reader still has [rest] to hand over. *)
Definition owes (c : Reader) (raw : list RawRead) (rest : bytes) : Prop :=
  exists e ps fs e', paired e (dec c) /\ seals e ps fs e' /\ quiet raw /\
    rbuf c ++ stream raw = frames fs /\ pt c ++ List.concat ps = rest.

Lemma read_loop_owes fuel c n raw rest :
  owes c raw rest -> (0 < n)%nat -> rest <> [] -> (List.length (rbuf c ++ stream raw) < fuel)%nat ->
  exists k c' raw', (0 < k)%nat /\ read_loop fuel c n raw = (Value (firstn k rest), c', raw') /\
    owes c' raw' (skipn k rest).
Proof.
  revert c raw. induction fuel as [|fuel IH]; intros c raw (e & ps & fs & e' & Hp & Hs & Hq & Hb & Hr) Hn Hne Hf; [lia|].
  cbn [read_loop]. destruct (pt c) as [|x l] eqn:Hpt.
  - cbn in Hr. destruct Hs as [e|e p ct e1 ps fs e2 He Hlen Hs]; [cbn in Hr; by subst rest|].
    destruct (readFrame_next (rbuf c) raw ct fs Hq Hlen Hb) as (b' & raw' & -> & Hq' & Hb').
    destruct (Decrypt_Encrypt e (dec c) p ct e1 Hp He) as (d' & -> & Hp').
    apply IH; [by exists e1, ps, fs, e2|done|done|]. cbn [rbuf].
    rewrite Hb in Hf. rewrite Hb'. unfold frames in *. cbn [fmap list_fmap List.concat] in Hf.
    unfold frame_of at 1 in Hf. rewrite !length_app, be_bytes_length in Hf. lia.
  - exists (Nat.min n (List.length (x :: l))). eexists _, raw. split; [simpl; lia|].
    assert (forall k, (k <= List.length (x :: l))%nat -> firstn k rest = firstn k (x :: l) /\
      skipn k rest = skipn k (x :: l) ++ List.concat ps) as Hcut.
    { intros k Hk. rewrite <-Hr. split; [by apply take_app_le|by apply drop_app_le]. }
    destruct (Hcut (Nat.min n (List.length (x :: l)))) as [-> ->]; [lia|].
    assert (firstn (Nat.min n (List.length (x :: l))) (x :: l) = firstn n (x :: l)) as ->.
    { destruct (Nat.le_ge_cases n (List.length (x :: l))); [by rewrite Nat.min_l|].
      rewrite Nat.min_r, firstn_all by done. by rewrite firstn_all2. }
    split; [done|]. exists e, ps, fs, e'. split_and!; [done..|]. cbn [pt]. f_equal.
    destruct (Nat.le_ge_cases n (List.length (x :: l))); [by rewrite Nat.min_l|].
    rewrite Nat.min_r, skipn_all by done. by rewrite skipn_all2.
Qed.

(** What a write puts on the wire, errors included: sealed chunks of the bytes it
    reports. *)
Lemma write_loop_seals fuel e p oks k out total er e' :
  (List.length p <= fuel)%nat -> write_loop fuel e p oks k = (out, total, er, e') ->
  exists ps fs e1, seals e ps fs e1 /\ List.concat ps = firstn total p /\ out = frames fs /\
    er <> Some errFrameTooLarge /\ (er = None -> total = List.length p /\ e1 = e').
Proof.
  revert e p k out total er e'. induction fuel as [|fuel IH]; intros e p k out total er e' Hf Hw.
  { destruct p; [|simpl in Hf; lia]. injection Hw as <- <- <- <-. exists [], [], e. split_and!; try done; constructor. }
  destruct p as [|x p]; cbn [write_loop] in Hw.
  { injection Hw as <- <- <- <-. exists [], [], e. split_and!; try done; constructor. }
  set (q := x :: p) in *. assert (0 < List.length q)%nat as Hq by (simpl; lia).
  assert (Z.of_nat maxPlain = 16384) as Hmp by reflexivity.
  assert (exists n, n = Nat.min (List.length q) maxPlain) as [n Hnq] by eauto. rewrite <-Hnq in Hw.
  revert Hmp Hnq. generalize maxPlain. intros mp Hmp Hnq.
  assert ((0 < n <= List.length q)%nat /\ Z.of_nat n <= 16384) as Hn by lia.
  destruct (Encrypt e (firstn n q)) as [[ct e1]|] eqn:He.
  2:{ injection Hw as <- <- <- <-. exists [], [], e. split_and!; try done; constructor. }
  pose proof (Encrypt_length _ _ _ _ He) as Hct. rewrite length_firstn in Hct.
  assert (Z.of_nat (List.length ct) <= maxFrame) as Hmax.
  { unfold maxFrame. lia. }
  unfold writeRawFrame in Hw. rewrite (proj2 (Z.ltb_ge _ _)) in Hw by done.
  destruct (oks k).
  2:{ injection Hw as <- <- <- <-. exists [], [], e. split_and!; try done; constructor. }
  destruct (write_loop fuel e1 (skipn n q) oks (S k)) as [[[out1 t1] er1] e2] eqn:Hrec.
  injection Hw as <- <- <- <-.
  apply IH in Hrec; [|rewrite length_drop; lia]. destruct Hrec as (ps & fs & e3 & Hs & Hc & -> & Her & Hall).
  exists (firstn n q :: ps), (ct :: fs), e3. split_and!; [by econstructor| |done|done|].
  - cbn [List.concat]. rewrite Hc. rewrite <-(firstn_skipn n q) at 3. rewrite firstn_app, length_firstn.
    rewrite (firstn_all2 (firstn n q)) by (rewrite length_firstn; lia).
    by replace (n + t1 - Nat.min n (List.length q))%nat with t1 by lia.
  - intros Hnone. destruct (Hall Hnone) as [-> ->]. rewrite length_drop. split; [lia|done].
Qed.

(** Several writes, none of which fails. *)
Fixpoint write_all (e : CipherState) (ps : list bytes) : option (bytes * CipherState) :=
  match ps with
  | [] => Some ([], e)
  | p :: ps =>
      match Write e p (fun _ => true) with
      | (out, _, None, e') => '(out', e'') ← write_all e' ps; Some (out ++ out', e'')
      | _ => None
      end
  end.

Lemma write_all_seals e ps out e' :
  write_all e ps = Some (out, e') ->
  exists cs fs, seals e cs fs e' /\ List.concat cs = List.concat ps /\ out = frames fs.
Proof.
  revert e out. induction ps as [|p ps IH]; intros e out; cbn [write_all].
  { intros [= <- <-]. exists [], []. split_and!; [constructor|done..]. }
  destruct (Write e p (fun _ => true)) as [[[o t] [er|]] e1] eqn:Hw; [done|].
  intros Hb. apply bind_Some in Hb as ([o' e2] & Hall & [= <- <-]).
  apply write_loop_seals in Hw as (cs & fs & e3 & Hs & Hc & -> & _ & Hok); [|done].
  destruct (Hok eq_refl) as [-> ->]. destruct (IH _ _ Hall) as (cs' & fs' & Hs' & Hc' & ->).
  exists (cs ++ cs'), (fs ++ fs'). split_and!; [by eapply seals_app| |by rewrite frames_app].
  rewrite concat_app, Hc, Hc', firstn_all. done.
Qed.

(** Reads with buffers of the given sizes, as long as each returns. *)
Fixpoint read_all (c : Reader) (sizes : list nat) (raw : list RawRead) : bytes :=
  match sizes with
  | [] => []
  | n :: sizes => match Read c n raw with
                  | (Value b, c', raw') => b ++ read_all c' sizes raw'
                  | _ => []
                  end
  end.

(** With nothing owed a read does not return. *)
Lemma readFrame_none b raw : quiet raw -> b ++ stream raw = [] -> readFrame b raw = (Blocked, [], []).
Proof.
  intros Hq Hb. apply app_eq_nil in Hb as [-> Hb]. induction raw as [|r raw IH]; [done|].
  apply Forall_cons in Hq as [Hr Hq]. unfold stream in Hb. cbn [fmap list_fmap List.concat] in Hb.
  apply app_eq_nil in Hb as [Hr0 Hb]. cbn [readFrame]. rewrite Hr0, Hr. cbn. by apply IH.
Qed.

Lemma read_loop_done fuel c n raw : owes c raw [] -> exists c' raw', read_loop fuel c n raw = (Blocked, c', raw').
Proof.
  revert c raw. induction fuel as [|fuel IH]; intros c raw (e & ps & fs & e' & Hp & Hs & Hq & Hb & Hr);
    apply app_eq_nil in Hr as [Hpt Hps]; cbn [read_loop]; rewrite Hpt; [by eexists _, _|].
  destruct Hs as [e|e p ct e1 ps fs e2 He Hlen Hs].
  - rewrite (readFrame_none _ _ Hq Hb). by eexists _, _.
  - destruct (readFrame_next (rbuf c) raw ct fs Hq Hlen Hb) as (b' & raw' & -> & Hq' & Hb').
    destruct (Decrypt_Encrypt e (dec c) p ct e1 Hp He) as (d' & -> & Hp').
    apply app_eq_nil in Hps as [-> Hps]. apply IH. by exists e1, ps, fs, e2.
Qed.

(** Each read hands over the next bytes and at least one, so reads do not get stuck while
    bytes are owed. *)
Lemma read_all_owes sizes c raw rest :
  owes c raw rest -> Forall (fun n => 0 < n)%nat sizes ->
  exists k, read_all c sizes raw = firstn k rest /\ (Nat.min (List.length sizes) (List.length rest) <= k)%nat.
Proof.
  revert c raw rest. induction sizes as [|n sizes IH]; intros c raw rest Ho Hs; cbn [read_all].
  { exists O. done. }
  apply Forall_cons in Hs as [Hn Hs]. destruct rest as [|x rest].
  { exists O. cbn [List.length]. split; [|lia]. unfold Read.
    by destruct (read_loop_done (S (List.length (pending c raw))) c n raw Ho) as (c' & raw' & ->). }
  destruct (read_loop_owes (S (List.length (pending c raw))) c n raw (x :: rest) Ho Hn) as (k & c' & raw' & Hk & Hr & Ho');
    [done|unfold pending, stream; lia|].
  unfold Read. rewrite Hr. destruct (IH c' raw' (skipn k (x :: rest)) Ho' Hs) as (j & -> & Hj).
  exists (k + j)%nat. rewrite length_drop in Hj. split; [apply take_take_drop|].
  cbn [List.length] in *. lia.
Qed.

(** C39: what one end writes is what the other reads: over any number of writes, any
    cutting of the raw stream and any buffer sizes, the reads give a prefix of the bytes
    that were written, never less than one byte for each read while some are left, and
    all of them in the end. *)
Theorem stream_roundtrip e d ps out e' raw sizes :
  paired e d -> write_all e ps = Some (out, e') ->
  quiet raw -> stream raw = out -> Forall (fun n => 0 < n)%nat sizes ->
  let sent := List.concat ps in
  let got := read_all (MkReader [] [] d) sizes raw in
  (exists k, got = firstn k sent /\ (Nat.min (List.length sizes) (List.length sent) <= k)%nat) /\
  ((List.length sent <= List.length sizes)%nat -> got = sent).
Proof.
  intros Hp Hw Hq Hraw Hs. cbv zeta. apply write_all_seals in Hw as (cs & fs & Hseal & Hc & Hout).
  destruct (read_all_owes sizes (MkReader [] [] d) raw (List.concat ps)) as (k & Hk & Hmin); [|done|].
  { exists e, cs, fs, e'. split_and!; try done. cbn. congruence. }
  split; [by exists k|]. intros Hl. rewrite Hk. apply firstn_all2. lia.
Qed.
End StreamProofs.

(** ** The credential a channel is opened on *)

Section CredentialProofs.
Context `{Ed25519} `{JSON Credential}.

Lemma hex_nonempty b : b <> [] -> hex_EncodeToString b <> "".
Proof. destruct b as [|c b]; [done|]. done. Qed.

Lemma verifyCredential_sound role v pub cred now :
  verifyCredential role v pub cred now = Ok tt ->
  exists signed c a, Admission.Decode (string_of cred) = Ok signed /\ a ∈ authorities v /\ role ∈ AuthRoles a /\
    signed_by (Pub a) signed c /\ revoked v (Serial c) = false /\ role ∈ Roles c /\
    Subject c = hex_EncodeToString pub /\ NotBefore c - ClockSkew <= now < NotAfter c.
Proof.
  unfold verifyCredential. intros Hv. inv_result. b2p. unfold Verify in *. inv_result.
  match goal with Ht : try_authorities _ _ _ _ _ _ _ = Ok ?c |- _ => apply try_authorities_Ok in Ht as (a0 & Ha & Hr & Hs & Hacc); rename c into cr end.
  destruct Hacc as (Hrev & Hwin & Hrole & Hsub). apply admits_iff in Hr.
  eexists _, cr, a0. split_and!; try done; try lia.
  destruct Hsub as [Hsub|]; [|done]. by apply hex_nonempty in Hsub.
Qed.
End CredentialProofs.

(** ** Witness: a cipher that seals with its message number *)

Module Demo.
Definition tag (n : nat) : bytes := repeat (byte_of (Z.of_nat n)) 16.
#[export] Instance toy_noise : Noise := {
  CipherState := nat;
  Encrypt n p := Some (p ++ tag n, S n);
  Decrypt n c :=
    let k := (List.length c - 16)%nat in
    if (16 <=? List.length c)%nat && bool_decide (skipn k c = tag n) then Some (firstn k c, S n) else None;
  paired e d := e = d;
}.
#[export] Instance toy_noise_laws : NoiseLaws.
Proof.
  split.
  - intros e p c e' [= <- _]. rewrite length_app. reflexivity.
  - intros e d p c e' -> [= <- <-]. exists (S d). cbn [Decrypt toy_noise paired]. rewrite length_app.
    change (List.length (tag d)) with 16%nat. replace (List.length p + 16 - 16)%nat with (List.length p) by lia.
    rewrite (proj2 (Nat.leb_le _ _)) by lia. rewrite drop_app_length, take_app_length.
    by rewrite bool_decide_true.
Qed.
End Demo.
Import Demo.

Lemma stream_roundtrip_witness :
  let ps := [bytes_of "hello "; bytes_of "world"] in
  exists out e', write_all 0%nat ps = Some (out, e') /\
    read_all (MkReader [] [] 0%nat) (repeat 4%nat 11) [MkRawRead (firstn 7 out) false; MkRawRead (skipn 7 out) false]
    = bytes_of "hello world".
Proof.
  cbv zeta. eexists _, _. split; [vm_compute; reflexivity|].
  match goal with |- read_all _ _ [MkRawRead (firstn 7 ?o) _; _] = _ => set (out := o) end.
  assert (write_all 0%nat [bytes_of "hello "; bytes_of "world"] = Some (out, 2%nat)) as Hw by (vm_compute; reflexivity).
  destruct (stream_roundtrip (0%nat : @CipherState toy_noise) 0%nat [bytes_of "hello "; bytes_of "world"] out 2%nat
    [MkRawRead (firstn 7 out) false; MkRawRead (skipn 7 out) false] (repeat 4%nat 11)) as [_ Hall].
  - reflexivity.
  - exact Hw.
  - repeat constructor.
  - vm_compute. reflexivity.
  - repeat (constructor; [lia|]). constructor.
  - apply Hall. vm_compute. lia.
Defined.
