(* ===== verification/ChainDial.v ===== *)
(** * Dialing a chain and recovering from a broken one: [core/relaychain.go], [core/pool.go]

    The layers of a circuit, set up one inside the other; whom a failure is blamed on;
    what is done about it; and the loop that opens a stream over a session, rebuilding
    the chain behind its head when a later node fails. What the network does is a
    parameter: for each layer, what the node answers; for each attempt, whether a stream
    opens and what other streams of the session do meanwhile. *)

From S2P Require Import ASN.
From S2P Require Import Prelude GoStrings Base64 Hashes Crypto GeoIP Coldstart CoordState Coordinator.
From S2P Require Import Admission E2E RelayChain Forward.
Local Open Scope Z_scope.

(** ** Layers *)

(** What comes of one handshake: the credential of the node if it answered, whether the
    target could still be sent, whether the guard's budget ran out, and what the sniffer
    below read. *)
Record Layer := MkLayer { ly_cred : option bytes; ly_sent : bool; ly_stalled : bool; ly_seen : list bytes }.

(** A layer asked for: the key it is sealed to and the target sent inside. *)
Abbreviation Ask := (bytes * string)%type.
Definition Network : Type := list Ask -> Ask -> Layer.

(** [clientHandshake] under [watchVerify]: whether it succeeded, and whether the check of
    the credential rejected. *)
Definition clientHandshake (verify : option (bytes -> result VerifyError unit)) (l : Layer) : bool * bool :=
  match ly_cred l with
  | None => (false, false)
  | Some cred =>
      match verify with
      | Some v => if is_ok (v cred) then (ly_sent l, false) else (false, true)
      | None => (ly_sent l, false)
      end
  end.

Inductive chainFault := hopDead | hopStalled | hopRefused | hopRejected.
#[export] Instance chainFault_eq_dec : EqDecision chainFault.
Proof. solve_decision. Defined.
Record chainDialError := MkDialError { ce_hop : nat; ce_of : nat; ce_suspect : string; ce_fault : chainFault }.

Definition atHead (e : chainDialError) : bool := (ce_hop e =? 1)%nat.
Definition recoverable (e : chainDialError) : bool := negb (bool_decide (ce_fault e = hopRejected)).

Definition classifyLayer (stalled rejected : bool) : chainFault :=
  if rejected then hopRejected else if stalled then hopStalled else hopDead.

Inductive DialError := BadAnchor (e : SetupError) | ChainFailed (e : chainDialError) | HandshakeFailed.

Section Dial.
Context `{Ed25519} `{JSON Credential} (hv : option Verifier) (ev : option Verifier) (now : Time) (net : Network).

(** The layer of node [id], the [i]-th from zero, below which node [prev] forwards. *)
Definition layer_error (nHops i : nat) (prev : option string) (id : string) (l : Layer) (rejected : bool) : chainDialError :=
  match prev, refusal (ly_seen l) with
  | Some p, Some _ => MkDialError i nHops p hopRefused
  | _, _ => MkDialError (S i) nHops id (classifyLayer (ly_stalled l) rejected)
  end.

(** The loop of [dialChain] over the hops still to come, then the exit. *)
Fixpoint dial_layers (plan : chainPlan) (target : string) (up : list Ask) (i : nat) (prev : option string) (hs : list relayHop)
    : result chainDialError (list Ask) :=
  let nHops := List.length (p_hops plan) in
  match hs with
  | h :: rest =>
      let nxt := match rest with h' :: _ => h_dial h' | [] => exitDia plan end in
      let ask := (h_pub h, hopTargetPrefix +:+ nxt) in
      let l := net up ask in
      match clientHandshake (hopVerifyFunc hv (h_pub h) now) l with
      | (true, _) => dial_layers plan target (up ++ [ask]) (S i) (Some (h_id h)) rest
      | (false, rejected) => Err (layer_error nHops i prev (h_id h) l rejected)
      end
  | [] =>
      let ask := (exitPub plan, target) in
      let l := net up ask in
      match clientHandshake (exitVerifyFunc ev (exitPub plan) now) l with
      | (true, _) => Ok (up ++ [ask])
      | (false, rejected) => Err (layer_error nHops i prev (exitID plan) l rejected)
      end
  end.
Definition dialChain (plan : chainPlan) (target : string) : result chainDialError (list Ask) :=
  dial_layers plan target [] 0 None (p_hops plan).

(** [dialE2E]; [exitKey] is the assigned exit's key, for a path with no chain. *)
Definition dialE2E (anchor : result SetupError unit) (plan : option chainPlan) (exitKey : bytes) (target : string)
    : result DialError (list Ask) :=
  match plan with
  | Some p =>
      if bool_decide (p_hops p = []) then
        if (clientHandshake (exitVerifyFunc ev exitKey now) (net [] (exitKey, target))).1
        then Ok [(exitKey, target)] else Err HandshakeFailed
      else check! map_err BadAnchor anchor; map_err ChainFailed (dialChain p target)
  | None =>
      if (clientHandshake (exitVerifyFunc ev exitKey now) (net [] (exitKey, target))).1
      then Ok [(exitKey, target)] else Err HandshakeFailed
  end.
End Dial.

(** ** Recovery *)

Inductive chainRecovery := chainGiveUp | chainRebuild | chainRepath.

Definition recoveryFor (plan : option chainPlan) (err : DialError) : chainRecovery * string :=
  match plan, err with
  | Some _, ChainFailed e =>
      (if negb (recoverable e) then chainGiveUp else if atHead e then chainRepath else chainRebuild, ce_suspect e)
  | _, _ => (chainGiveUp, "")
  end.

Definition hopCooldown : Duration := 5 * Minute.
Definition markHopCooling (cool : gmap string Time) (id : string) (now : Time) : gmap string Time :=
  if String.eqb id "" then cool else <[id := now]> cool.
Definition hopCooling (cool : gmap string Time) (now : Time) (id : string) : bool :=
  match cool !! id with
  | Some t => time_Sub now t <? hopCooldown
  | None => false
  end.

(** A session's plan is behind a pointer: the address it points to, and the plan there.
    A session that is not chained has none. *)
Abbreviation Cell := (option (nat * chainPlan)).
Definition planOf (c : Cell) : option chainPlan := snd <$> c.
Definition swapPlan (c : Cell) (old : Cell) (fresh : nat * chainPlan) : bool * Cell :=
  match c, old with
  | Some (a, _), Some (b, _) => if (a =? b)%nat then (true, Some fresh) else (false, c)
  | _, _ => (false, c)
  end.

(** One round's circumstances: what other streams store into the session before it and
    during it, whether the stream opens, the network, the time, the directory in use and
    the address of the plan it makes. *)
Record Round := MkRound {
  rd_before : Cell; rd_open : bool; rd_net : Network; rd_now : Time; rd_dir : option relayDirectory;
  rd_other : Cell; rd_addr : nat;
}.
Record World := MkWorld { w_cool : gmap string Time; w_cell : Cell; w_rand : Rand; w_closed : bool }.

(** Another stream's store into a chained session. *)
Definition store (c other : Cell) : Cell := match c, other with Some _, Some x => Some x | _, _ => c end.

Inductive Outcome := Connected (layers : list Ask) | OpenFailed | DialFailed (e : DialError).
Definition chainRebuildMax : nat := 2.

Section StreamLoop.
Context `{Ed25519} `{JSON Credential} (anchor : result SetupError (option Verifier)) (ev : option Verifier).
Context (exitKey : bytes) (target : string) (round : nat -> Round).

Definition hop_verifier : option Verifier := match anchor with Ok v => v | Err _ => None end.
Definition anchor_ok : result SetupError unit := match anchor with Ok _ => Ok tt | Err e => Err e end.

(** [dialChainedStream]: [more] rebuilds are left. The plans that were dialed are listed
    with their errors. *)
Fixpoint stream_from (more k : nat) (w : World)
    : Outcome * World * list (option chainPlan * option DialError) :=
  let r := round k in
  let cell := store (w_cell w) (rd_before r) in
  let plan := planOf cell in
  let w := MkWorld (w_cool w) cell (w_rand w) (w_closed w) in
  if negb (rd_open r) then (OpenFailed, w, [])
  else
    match dialE2E hop_verifier ev (rd_now r) (rd_net r) anchor_ok plan exitKey target with
    | Ok layers => (Connected layers, w, [(plan, None)])
    | Err err =>
        let '(action, suspect) := recoveryFor plan err in
        let cool := markHopCooling (w_cool w) suspect (rd_now r) in
        match action with
        | chainGiveUp => (DialFailed err, MkWorld cool cell (w_rand w) (w_closed w), [(plan, Some err)])
        | chainRepath => (DialFailed err, MkWorld cool cell (w_rand w) true, [(plan, Some err)])
        | chainRebuild =>
            match more with
            | O => (DialFailed err, MkWorld cool cell (w_rand w) (w_closed w), [(plan, Some err)])
            | S more =>
                match rebuildChain (rd_dir r) (hopCooling cool (rd_now r)) plan (w_rand w) with
                | (Err _, rs) => (DialFailed err, MkWorld cool cell rs (w_closed w), [(plan, Some err)])
                | (Ok (fresh, _), rs) =>
                    let now_cell := store cell (rd_other r) in
                    let cell' := (swapPlan now_cell cell (rd_addr r, fresh)).2 in
                    let '(o, w', l) := stream_from more (S k) (MkWorld cool cell' rs (w_closed w)) in
                    (o, w', (plan, Some err) :: l)
                end
            end
        end
    end.
Definition dialChainedStream (w : World) := stream_from chainRebuildMax 0 w.
End StreamLoop.

(** ** The layers, one by one *)

Section DialProofs.
Context `{Ed25519} `{JSON Credential} (hv : option Verifier) (ev : option Verifier) (now : Time) (net : Network).

(** A node of the circuit: its id, what it is asked and the check of its credential. *)
Record Node := MkNode { n_id : string; n_ask : Ask; n_verify : option (bytes -> result VerifyError unit) }.

Fixpoint nodes_from (plan : chainPlan) (target : string) (hs : list relayHop) : list Node :=
  match hs with
  | h :: rest =>
      let nxt := match rest with h' :: _ => h_dial h' | [] => exitDia plan end in
      MkNode (h_id h) (h_pub h, hopTargetPrefix +:+ nxt) (hopVerifyFunc hv (h_pub h) now) :: nodes_from plan target rest
  | [] => [MkNode (exitID plan) (exitPub plan, target) (exitVerifyFunc ev (exitPub plan) now)]
  end.
Definition nodes (plan : chainPlan) (target : string) : list Node := nodes_from plan target (p_hops plan).

Definition answer (up : list Ask) (n : Node) : bool * bool := clientHandshake (n_verify n) (net up (n_ask n)).

Fixpoint dial_nodes (nHops : nat) (up : list Ask) (i : nat) (prev : option string) (ns : list Node)
    : result chainDialError (list Ask) :=
  match ns with
  | [] => Ok up
  | n :: rest =>
      match answer up n with
      | (true, _) => dial_nodes nHops (up ++ [n_ask n]) (S i) (Some (n_id n)) rest
      | (false, rejected) => Err (layer_error nHops i prev (n_id n) (net up (n_ask n)) rejected)
      end
  end.

Lemma dial_layers_nodes plan target up i prev hs :
  dial_layers hv ev now net plan target up i prev hs =
  dial_nodes (List.length (p_hops plan)) up i prev (nodes_from plan target hs).
Proof.
  revert up i prev. induction hs as [|h hs IH]; intros up i prev; cbn [dial_layers nodes_from dial_nodes]; unfold answer;
    cbn [n_ask n_verify n_id]; destruct (clientHandshake _ _) as [[] rej]; done || apply IH.
Qed.

Lemma dial_nodes_spec nHops up i prev ns :
  match dial_nodes nHops up i prev ns with
  | Ok ls => ls = up ++ (n_ask <$> ns) /\
             forall j n, ns !! j = Some n -> (answer (up ++ (n_ask <$> firstn j ns)) n).1 = true
  | Err e => exists j n, ns !! j = Some n /\ (answer (up ++ (n_ask <$> firstn j ns)) n).1 = false /\
      (forall k m, (k < j)%nat -> ns !! k = Some m -> (answer (up ++ (n_ask <$> firstn k ns)) m).1 = true) /\
      let up' := up ++ (n_ask <$> firstn j ns) in
      e = layer_error nHops (i + j) (match j with O => prev | S j' => n_id <$> ns !! j' end) (n_id n)
            (net up' (n_ask n)) (answer up' n).2
  end.
Proof.
  revert up i prev. induction ns as [|n ns IH]; intros up i prev; cbn [dial_nodes].
  { rewrite app_nil_r. split; [done|]. intros j m. by rewrite lookup_nil. }
  destruct (answer up n) as [[] rej] eqn:Ha.
  - specialize (IH (up ++ [n_ask n]) (S i) (Some (n_id n))).
    destruct (dial_nodes nHops (up ++ [n_ask n]) (S i) (Some (n_id n)) ns) as [ls|e].
    + destruct IH as [-> Hall]. split; [by rewrite <-app_assoc|]. intros [|j] m Hm; cbn in Hm.
      * injection Hm as <-. cbn. by rewrite app_nil_r, Ha.
      * specialize (Hall j m Hm). by rewrite <-app_assoc in Hall.
    + destruct IH as (j & m & Hm & Hf & Hb & He). exists (S j), m. rewrite <-app_assoc in Hf, He. split_and!; try done.
      * intros [|k] x Hk Hx; cbn in Hx; [injection Hx as <-; cbn; by rewrite app_nil_r, Ha|].
        specialize (Hb k x ltac:(lia) Hx). by rewrite <-app_assoc in Hb.
      * cbn zeta in He |- *. rewrite He. replace (i + S j)%nat with (S i + j)%nat by lia.
        destruct j; reflexivity.
  - exists O, n. cbn. rewrite app_nil_r, Ha, Nat.add_0_r. split_and!; try done. intros k m Hk. lia.
Qed.

Lemma nodes_from_length plan target hs : List.length (nodes_from plan target hs) = S (List.length hs).
Proof. induction hs as [|h hs IH]; simpl; congruence. Qed.

Lemma nodes_from_lookup plan target hs i h :
  hs !! i = Some h ->
  nodes_from plan target hs !! i =
    Some (MkNode (h_id h) (h_pub h, hopTargetPrefix +:+ match hs !! S i with Some h' => h_dial h' | None => exitDia plan end)
                 (hopVerifyFunc hv (h_pub h) now)).
Proof.
  revert i. induction hs as [|h0 hs IH]; intros i Hi; [done|]. destruct i as [|i]; cbn in Hi.
  - injection Hi as ->. by destruct hs.
  - cbn [nodes_from lookup list_lookup]. by apply IH.
Qed.
Lemma nodes_from_exit plan target hs :
  nodes_from plan target hs !! List.length hs =
    Some (MkNode (exitID plan) (exitPub plan, target) (exitVerifyFunc ev (exitPub plan) now)).
Proof. induction hs as [|h hs IH]; [done|]. exact IH. Qed.

(** Dialing a chain sets up one layer for each hop and one for the exit, in order,
    each sealed to its own node's key. A hop is told the address of the next node and
    nothing else, and only the exit is told the target. When it fails, exactly one layer
    failed, all before it stand, and the node that is blamed is the one that layer is
    for, or, when the stream below it carries a sealed refusal, the hop that refused to
    forward to it. *)
Theorem dialChain_layers plan target :
  let ns := nodes plan target in let nHops := List.length (p_hops plan) in
  match dialChain hv ev now net plan target with
  | Ok ls =>
      List.length ls = S nHops /\ ls !! nHops = Some (exitPub plan, target) /\
      (forall i h, p_hops plan !! i = Some h ->
         ls !! i = Some (h_pub h, hopTargetPrefix +:+
                           match p_hops plan !! S i with Some h' => h_dial h' | None => exitDia plan end)) /\
      (forall j n, ns !! j = Some n -> (answer (firstn j ls) n).1 = true)
  | Err e => exists j n, ns !! j = Some n /\ (answer (n_ask <$> firstn j ns) n).1 = false /\
      (forall k m, (k < j)%nat -> ns !! k = Some m -> (answer (n_ask <$> firstn k ns) m).1 = true) /\
      ce_of e = nHops /\
      match j, refusal (ly_seen (net (n_ask <$> firstn j ns) (n_ask n))) with
      | S j', Some _ => ce_fault e = hopRefused /\ ce_hop e = j /\ Some (ce_suspect e) = n_id <$> ns !! j'
      | _, _ => ce_fault e <> hopRefused /\ ce_hop e = S j /\ ce_suspect e = n_id n
      end
  end.
Proof.
  cbv zeta. unfold dialChain, nodes. rewrite dial_layers_nodes.
  set (nHops := List.length (p_hops plan)). set (ns := nodes_from plan target (p_hops plan)).
  pose proof (dial_nodes_spec nHops [] 0 None ns) as Hs. destruct (dial_nodes nHops [] 0 None ns) as [ls|e]; cbn [app] in Hs.
  - destruct Hs as [-> Hall]. split_and!.
    + rewrite length_fmap. apply nodes_from_length.
    + rewrite list_lookup_fmap. unfold ns, nHops. by rewrite nodes_from_exit.
    + intros i h Hi. rewrite list_lookup_fmap. unfold ns. by rewrite (nodes_from_lookup _ _ _ _ _ Hi).
    + intros j n Hn. rewrite <-fmap_take. by apply Hall.
  - destruct Hs as (j & n & Hn & Hf & Hb & ->). exists j, n. split_and!; try done.
    + unfold layer_error. by repeat case_match.
    + unfold layer_error. cbn [app]. destruct j as [|j]; cbn [fmap option_fmap option_map].
      * unfold classifyLayer. split_and!; try done. by repeat case_match.
      * destruct (lookup_lt_is_Some_2 ns j) as [m Hm].
        { apply lookup_lt_Some in Hn. lia. }
        rewrite Hm. cbn [fmap option_fmap option_map]. destruct (refusal _); [done|].
        unfold classifyLayer. split_and!; try done. by repeat case_match.
Qed.
End DialProofs.

(** ** Every node of a circuit showed its credential *)

Section CredentialsOfChain.
Context `{Ed25519} `{JSON Credential} `{JSON CRL}.

Lemma buildRelayVerifier_sound keyhex crl v :
  buildRelayVerifier keyhex crl = Ok (Some v) ->
  exists pub, hex_DecodeString (TrimSpace keyhex) = Some pub /\
    authorities v = [MkAuthority pub [RoleRelay]] /\ revoked v = revokedOrNothing (ClientCRL_Revoked <$> crl).
Proof.
  unfold buildRelayVerifier, decode_key. destruct (String.eqb _ ""); [done|].
  destruct (hex_DecodeString (TrimSpace keyhex)) as [pub|]; [|done].
  destruct (bad_key_length pub) eqn:Hl; [done|]. cbn [of_option rbind]. intros Hv. inv_result.
  unfold NewAuthoritySetVerifier, anchor_all in *. cbn [Pub AuthRoles] in *. rewrite Hl in *. cbn in *. inv_result.
  by exists pub.
Qed.

Lemma answer_credential net up n v :
  (answer net up n).1 = true -> n_verify n = Some v -> exists cred, v cred = Ok tt.
Proof.
  unfold answer, clientHandshake. intros Ha Hv. rewrite Hv in Ha. destruct (ly_cred _) as [cred|]; [|done].
  destruct (v cred) as [[]|] eqn:Hc; [by exists cred|done].
Qed.

(** A credential issued under [pub] to the holder of [key], for [role], in force. *)
Definition credential_for (pub key : bytes) (role : Role) (rev : string -> bool) (now : Time) (c : Credential) : Prop :=
  (exists signed, signed_by pub signed c) /\ role ∈ Roles c /\ Subject c = hex_EncodeToString key /\
  rev (Serial c) = false /\ NotBefore c - ClockSkew <= now < NotAfter c.

(** C18: with an anchor for relays and one for exits configured, a circuit comes up only
    when every hop has shown a relay credential of that anchor, issued for that hop's own
    key, in force and not on the revocation list of the moment, and the exit an exit
    credential issued for the exit's key. *)
Theorem chain_credentials keyhex crl v root now net plan target ls :
  buildRelayVerifier keyhex (Some crl) = Ok (Some v) ->
  dialChain (Some v) (Some (exit_verifier (root, crl))) now net plan target = Ok ls ->
  exists pub, hex_DecodeString (TrimSpace keyhex) = Some pub /\
    (forall h, h ∈ p_hops plan -> exists c, credential_for pub (h_pub h) RoleRelay (ClientCRL_Revoked crl) now c) /\
    exists c, credential_for root (exitPub plan) RoleExit (ClientCRL_Revoked crl) now c.
Proof.
  intros (pub & Hk & Hauth & Hrev)%buildRelayVerifier_sound Hd. exists pub. split; [done|].
  unfold dialChain in Hd. rewrite dial_layers_nodes in Hd.
  pose proof (dial_nodes_spec net (List.length (p_hops plan)) [] 0 None
    (nodes_from (Some v) (Some (exit_verifier (root, crl))) now plan target (p_hops plan))) as Hs.
  rewrite Hd in Hs. destruct Hs as [_ Hall]. split.
  - intros h [i Hi]%list_elem_of_lookup.
    specialize (Hall i _ (nodes_from_lookup _ _ _ _ _ _ _ _ Hi)).
    eapply answer_credential in Hall as [cred Hc]; [|reflexivity].
    apply verifyCredential_sound in Hc as (signed & c & a & _ & Ha & _ & Hsig & Hr & Hrole & Hsub & Hw).
    rewrite Hauth in Ha. apply list_elem_of_singleton in Ha as ->. rewrite Hrev in Hr.
    exists c. unfold credential_for. split_and!; eauto; lia.
  - specialize (Hall _ _ (nodes_from_exit _ _ _ _ _ _)).
    eapply answer_credential in Hall as [cred Hc]; [|reflexivity].
    apply verifyCredential_sound in Hc as (signed & c & a & _ & Ha & _ & Hsig & Hr & Hrole & Hsub & Hw).
    apply list_elem_of_singleton in Ha as ->. exists c. unfold credential_for. split_and!; eauto; lia.
Qed.
End CredentialsOfChain.

(** ** The relay that was assigned is not a hop *)

Lemma relayTag_nonempty id : Coordinator.relayTag id <> "".
Proof.
  unfold Coordinator.relayTag. apply hex_nonempty. intros Hnil.
  apply (f_equal (@List.length ascii)) in Hnil. rewrite length_firstn, SHA256.sum_length in Hnil. done.
Qed.

(** The client recognises the relay the coordinator assigned: both ends derive the same
    tag from a node's id, and a chain with that node among its hops is refused. *)
Theorem assigned_relay_is_no_hop plan rid :
  relayTagFor rid = Coordinator.relayTag rid /\
  (verifyChainDisjoint (Some plan) (Coordinator.relayTag rid) = Ok tt -> rid ∉ h_id <$> p_hops plan).
Proof.
  split; [reflexivity|]. unfold verifyChainDisjoint.
  rewrite (proj2 (String.eqb_neq _ _) (relayTag_nonempty rid)). intros Hf (h & -> & Hin)%list_elem_of_fmap.
  apply fail_if_Ok_inv in Hf. apply not_true_iff_false in Hf. apply Hf, existsb_exists.
  exists h. split; [by apply list_elem_of_In|]. apply String.eqb_refl.
Qed.

(** ** Honest hops forward *)

(** Every address a chain's hops are told to forward to is dialable for a node that
    holds the same directory: no honest hop refuses it as unknown. *)
Theorem chain_is_forwardable `{Ed25519} `{JSON Snapshot} embedded signed pub selfID t d n country pinHead p i h :
  loadRelayDirectory embedded signed pub selfID t = Ok d -> chain_of d n country pinHead p ->
  p_hops p !! i = Some h ->
  match p_hops p !! S i with Some h' => h_dial h' | None => exitDia p end ∈ dialable d.
Proof.
  intros (snap & _ & _ & Hd & _)%loadRelayDirectory_inv Hc Hi.
  destruct (p_hops p !! S i) as [h'|] eqn:Hs.
  - apply (directory_hop _ _ _ _ Hd). apply (ch_hops _ _ _ _ _ Hc). by eapply list_elem_of_lookup_2.
  - destruct (ch_exit _ _ _ _ _ Hc) as (x & (Hx & Hp & _) & _ & _ & ->). by apply (directory_hop _ _ _ _ Hd Hx).
Qed.

(** ** Recovery *)

(** A rebuild replaces what failed: it keeps the head, the depth and the country of the
    broken chain, and the node that was just blamed is not in the new chain, unless the
    rebuild says that it had to reuse a failed node. *)
Theorem rebuild_avoids_suspect d cool now suspect prev rs p notices rs' :
  rebuildChain (Some d) (hopCooling (markHopCooling cool suspect now) now) (Some prev) rs = (Ok (p, notices), rs') ->
  suspect <> "" -> firstHopID (Some prev) <> "" -> firstHopID (Some prev) <> suspect ->
  firstHopID (Some p) = firstHopID (Some prev) /\ List.length (p_hops p) = List.length (p_hops prev) /\
  p_country p = p_country prev /\
  (ReusesCooling ∉ notices -> suspect ∉ exitID p :: (h_id <$> p_hops p)).
Proof.
  intros Hr Hs Hne Hhead. destruct (rebuildChain_keeps _ _ _ _ _ _ _ Hr) as (_ & Hc & Hl & Hh).
  split_and!; [by apply Hh|done..|]. intros Hn.
  assert (hopCooling (markHopCooling cool suspect now) now suspect = true) as Hcool.
  { unfold hopCooling, markHopCooling. rewrite (proj2 (String.eqb_neq _ _) Hs), lookup_insert_eq.
    unfold time_Sub. rewrite Z.sub_diag. reflexivity. }
  unfold rebuildChain in Hr. unfold firstHopID in Hhead. destruct (p_hops prev) as [|h0 l0]; [done|].
  apply buildChain_inv in Hr as (c & avoid & pre & rs0 & Hsel & -> & -> & Hcase).
  destruct Hcase as [[-> ->]|[-> ->]]; [|set_solver].
  apply selectChain_inv in Hsel as (_ & _ & Hx & Hhs). cbn [avoided exitID p_hops] in *.
  intros [He|(h & Hid & Hin)%list_elem_of_fmap]%elem_of_cons; [congruence|].
  destruct (Hhs h Hin) as [Heq|Hno]; congruence.
Qed.

Section Loop.
Context `{Ed25519} `{JSON Credential} (anchor : result SetupError (option Verifier)) (ev : option Verifier).
Context (exitKey : bytes) (target : string) (round : nat -> Round).

(** No other stream touches the session. *)
Definition alone : Prop := forall k, rd_before (round k) = None /\ rd_other (round k) = None.

(** The paths that a rebuild can reach. *)
Definition same_path (p q : option chainPlan) : Prop :=
  firstHopID p = firstHopID q /\ p_country <$> p = p_country <$> q /\
  (List.length ∘ p_hops) <$> p = (List.length ∘ p_hops) <$> q.

Definition retried (x : option chainPlan * option DialError) : Prop :=
  exists e, x.2 = Some (ChainFailed e) /\ recoverable e = true /\ atHead e = false.
Definition drops (x : option chainPlan * option DialError) : Prop :=
  exists e, x.2 = Some (ChainFailed e) /\ recoverable e = true /\ atHead e = true.

Lemma store_alone c k : alone -> store c (rd_before (round k)) = c /\ store c (rd_other (round k)) = c.
Proof. intros Ha. destruct (Ha k) as [-> ->]. by destruct c. Qed.

Lemma recovery_cases plan err action suspect :
  recoveryFor plan err = (action, suspect) ->
  match action with
  | chainGiveUp => ~ retried (plan, Some err) /\ ~ drops (plan, Some err) \/ plan = None
  | chainRepath => drops (plan, Some err)
  | chainRebuild => retried (plan, Some err) /\ is_Some plan
  end.
Proof.
  unfold recoveryFor, retried, drops. cbn [snd].
  destruct plan as [p|]; [|destruct err; intros [= <- <-]; by right].
  destruct err as [e|e|]; try (intros [= <- <-]; left; naive_solver).
  destruct (recoverable e) eqn:Hr, (atHead e) eqn:Ha; cbn [negb]; intros [= <- <-]; try naive_solver;
    left; split; intros (e' & [= <-] & ? & ?); congruence.
Qed.

Lemma same_path_trans p q r : same_path p q -> same_path q r -> same_path p r.
Proof. intros (? & ? & ?) (? & ? & ?). split_and!; congruence. Qed.


(** What a run of the loop promises, from the cell, the marks and whether the session is
    closed before it. *)
Definition promises (more : nat) (w w' : World) (l : list (option chainPlan * option DialError)) : Prop :=
  (List.length l <= S more)%nat /\
  Forall retried (removelast l) /\
  (w_closed w = false -> is_Some (w_cell w) -> w_closed w' = true <-> exists x, last l = Some x /\ drops x) /\
  (forall id, is_Some (w_cool w !! id) -> is_Some (w_cool w' !! id)) /\
  (alone -> firstHopID (planOf (w_cell w)) <> "" -> Forall (fun x => same_path x.1 (planOf (w_cell w))) l).

Lemma store_is_Some c x : is_Some (store c x) <-> is_Some c.
Proof. destruct c, x; cbn; split; intros [? ?]; eauto; done. Qed.

Lemma mark_keeps cool s now id : is_Some (cool !! id) -> is_Some (markHopCooling cool s now !! id).
Proof.
  unfold markHopCooling. destruct (String.eqb s ""); [done|]. intros Hi. rewrite lookup_insert_is_Some.
  destruct (decide (s = id)); auto.
Qed.

(** A round that ends the loop. *)
Lemma promises_end more w cool cell rs closed plan err :
  (forall id, is_Some (w_cool w !! id) -> is_Some (cool !! id)) ->
  (w_closed w = false -> is_Some (w_cell w) -> closed = true <-> drops (plan, err)) ->
  (alone -> plan = planOf (w_cell w)) ->
  promises more w (MkWorld cool cell rs closed) [(plan, err)].
Proof.
  intros Hc Hd Hp. unfold promises. cbn [List.length removelast last w_closed w_cool].
  split_and!; [lia|constructor| |done|].
  - intros H1 H2. rewrite (Hd H1 H2). naive_solver.
  - intros Ha _. constructor; [|constructor]. cbn [fst]. rewrite (Hp Ha). done.
Qed.

(** A round that rebuilds, before one that keeps the promises. *)
Lemma promises_cons more w w1 w' plan err l :
  retried (plan, err) -> w_closed w1 = w_closed w -> (is_Some (w_cell w) -> is_Some (w_cell w1)) ->
  (forall id, is_Some (w_cool w !! id) -> is_Some (w_cool w1 !! id)) ->
  (alone -> firstHopID (planOf (w_cell w)) <> "" ->
     plan = planOf (w_cell w) /\ same_path (planOf (w_cell w1)) (planOf (w_cell w))) ->
  (exists x, l = x :: tail l) \/ l = [] /\ w_closed w' = w_closed w1 ->
  promises more w1 w' l -> promises (S more) w w' ((plan, err) :: l).
Proof.
  intros Hr Hcl Hcell Hcool Hpath Hl (H1 & H2 & H3 & H4 & H5). unfold promises.
  split_and!; [cbn [List.length]; lia| | |auto|].
  - destruct l as [|y l]; [constructor|]. by constructor.
  - intros Hc Hs. destruct Hl as [[x Hl]|[-> Hw]].
    + rewrite Hcl in H3. rewrite (H3 Hc (Hcell Hs)), Hl. done.
    + rewrite Hw, Hcl, Hc. split; [done|]. intros (y & [= <-] & e & He & _ & Hh).
      destruct Hr as (e' & He' & _ & Hh'). cbn [snd] in *. congruence.
  - intros Ha Hne. destruct (Hpath Ha Hne) as [-> Hsame]. constructor; [done|].
    assert (firstHopID (planOf (w_cell w1)) <> "") as Hne1 by (destruct Hsame as (-> & _); done).
    eapply Forall_impl; [apply (H5 Ha Hne1)|]. intros y Hy. exact (same_path_trans _ _ _ Hy Hsame).
Qed.

Lemma swapPlan_is_Some c old fresh : is_Some c -> is_Some (swapPlan c old fresh).2.
Proof.
  intros [[a p] ->]. unfold swapPlan. destruct old as [[b q]|]; [|by eexists]. by destruct (a =? b)%nat; eexists.
Qed.

(** A trace is empty only when the stream did not open. *)
Lemma stream_from_trace more k w o w' l :
  stream_from anchor ev exitKey target round more k w = (o, w', l) ->
  (exists x, l = x :: tail l) \/ l = [] /\ w_closed w' = w_closed w.
Proof.
  destruct more; cbn [stream_from]; repeat case_match; intros [= <- <- <-]; (by right) || (left; by eexists).
Qed.

Lemma drops_none p : ~ drops (p, None).
Proof. intros (e & He & _). discriminate He. Qed.

(** The start of a round: the cell it reads, and what is known of a failed dial. *)
Ltac start_round k w :=
  cbn [stream_from];
  set (cell := store (w_cell w) (rd_before (round k)));
  assert (alone -> cell = w_cell w) as Halone by (intros Ha; apply (store_alone (w_cell w) k Ha));
  assert (is_Some (w_cell w) -> is_Some cell) as Hcell by (by rewrite <-(store_is_Some _ (rd_before (round k))));
  destruct (rd_open (round k)); cbn [negb w_cell w_cool w_rand w_closed];
  [destruct (dialE2E _ _ _ _ _ _ _ _) as [ls|err];
   [|destruct (recoveryFor (planOf cell) err) as [action suspect] eqn:Hrec; apply recovery_cases in Hrec;
     pose proof (fun id => mark_keeps (w_cool w) suspect (rd_now (round k)) id) as Hmark]|].

(** A round that does not rebuild. *)
Lemma promises_giveup more w cell rs plan err cool closed action :
  match action with
  | chainGiveUp => ~ retried (plan, Some err) /\ ~ drops (plan, Some err) \/ plan = None
  | chainRepath => drops (plan, Some err)
  | chainRebuild => retried (plan, Some err) /\ is_Some plan
  end ->
  (is_Some (w_cell w) -> is_Some plan) -> (alone -> plan = planOf (w_cell w)) ->
  (forall id, is_Some (w_cool w !! id) -> is_Some (cool !! id)) ->
  closed = match action with chainRepath => true | _ => w_closed w end ->
  promises more w (MkWorld cool cell rs closed) [(plan, Some err)].
Proof.
  intros Hrec Hplan Hp Hm ->. apply promises_end; [done| |done]. intros Hc Hs. rewrite Hc. destruct action.
  - split; [done|]. destruct Hrec as [[_ Hno]|Hno]; [done|]. apply Hplan in Hs as [? Hq]. congruence.
  - split; [done|]. destruct Hrec as [(e & He & _ & Hh) _]. intros (e' & He' & _ & Hh').
    cbn [snd] in *. congruence.
  - done.
Qed.

Lemma planOf_is_Some (c : Cell) : is_Some c -> is_Some (planOf c).
Proof. intros [x ->]. by eexists. Qed.

Ltac gives_up a Hrec Halone :=
  intros [= <- <- <-]; apply (promises_giveup _ _ _ _ _ _ _ _ a);
  [exact Hrec|auto using planOf_is_Some|by intros Ha; rewrite Halone|done|done].

Lemma stream_from_promises more k w o w' l :
  stream_from anchor ev exitKey target round more k w = (o, w', l) -> promises more w w' l.
Proof.
  revert k w o w' l. induction more as [|more IH]; intros k w o w' l; start_round k w.
  - intros [= <- <- <-]. apply promises_end; [done| |by intros Ha; rewrite Halone].
    intros Hc _. rewrite Hc. split; [done|]. by intros ?%drops_none.
  - destruct action; [gives_up chainGiveUp Hrec Halone|gives_up chainRebuild Hrec Halone|gives_up chainRepath Hrec Halone].
  - intros [= <- <- <-]. unfold promises. cbn. split_and!; try done; try lia. intros Hc _. rewrite Hc. naive_solver.
  - intros [= <- <- <-]. apply promises_end; [done| |by intros Ha; rewrite Halone].
    intros Hc _. rewrite Hc. split; [done|]. by intros ?%drops_none.
  - destruct action; [gives_up chainGiveUp Hrec Halone| |gives_up chainRepath Hrec Halone].
    destruct (rebuildChain _ _ _ _) as [[[fresh nt]|e] rs] eqn:Hb; [|gives_up chainRebuild Hrec Halone].
    set (w1 := MkWorld _ _ rs (w_closed w)).
    destruct (stream_from anchor ev exitKey target round more (S k) w1) as [[o1 w2] l1] eqn:Hs.
    intros [= <- <- <-]. pose proof (stream_from_trace _ _ _ _ _ _ Hs) as Htr. apply IH in Hs.
    apply (promises_cons more w w1 w2); [apply Hrec|done| |done| |exact Htr|exact Hs].
    + intros Hc. apply swapPlan_is_Some, store_is_Some. auto.
    + intros Ha Hne. unfold w1. cbn [w_cell]. rewrite (Halone Ha) in Hrec, Hb |- *. clear Hs Htr w1.
      split; [done|]. destruct Hrec as [_ [p Hp]].
      destruct (w_cell w) as [[a q]|] eqn:Hw; [|done]. cbn in Hp. injection Hp as <-.
      destruct (store_alone (Some (a, q)) k Ha) as [_ ->]. cbn. rewrite Nat.eqb_refl.
      destruct (rd_dir (round k)) as [d|]; [|by cbn in Hb; destruct (p_hops q)].
      apply rebuildChain_keeps in Hb as (_ & Hcc & Hlen & Hh).
      split_and!; [by apply Hh|exact (f_equal Some Hcc)|exact (f_equal Some Hlen)].
  - intros [= <- <- <-]. unfold promises. cbn. split_and!; try done; try lia. intros Hc _. rewrite Hc. naive_solver.
Qed.

(** C37: opening a stream over a chained session ends: at most three circuits are dialed,
    one and two rebuilds. Only a failure behind the head that is not a rejected credential
    is retried, so a hop that fails its admission check ends the attempt; the session is
    dropped, when it was open, exactly when the last failure is the head's; nodes that were
    blamed stay marked; and as long as no other stream replaces the session's chain, and
    the head of that chain is named, every circuit has the same head, depth and country. *)
Theorem recovery_is_bounded w o w' l :
  dialChainedStream anchor ev exitKey target round w = (o, w', l) ->
  (List.length l <= 3)%nat /\ Forall retried (removelast l) /\
  (w_closed w = false -> is_Some (w_cell w) -> w_closed w' = true <-> exists x, last l = Some x /\ drops x) /\
  (forall id, is_Some (w_cool w !! id) -> is_Some (w_cool w' !! id)) /\
  (alone -> firstHopID (planOf (w_cell w)) <> "" -> Forall (fun x => same_path x.1 (planOf (w_cell w))) l).
Proof. intros Hs. by apply stream_from_promises in Hs. Qed.
End Loop.

(** A rebuild does not undo what another stream stored meanwhile. *)
Lemma swapPlan_respects cell other fresh a b p q :
  cell = Some (a, p) -> other = Some (b, q) -> a <> b -> swapPlan (store cell other) cell fresh = (false, other).
Proof. intros -> -> Hne. cbn. by rewrite (proj2 (Nat.eqb_neq _ _)). Qed.

(** ** Witnesses *)

Module Demo.
Import Toy RelayChain.Demo.
#[export] Existing Instance toy_json.
Definition relay_key : PrivateKey := "r"%char.
Definition root_key : PrivateKey := "R"%char.
Definition anchor_text : string := hex_EncodeToString (Public relay_key).
Definition crl : ClientCRL := MkClientCRL (Public root_key) (Some (MkCRL 1 0 (9 * Hour) ["0badbadb"])).
Definition relay_verifier : Verifier := MkVerifier [MkAuthority (Public relay_key) [RoleRelay]] (ClientCRL_Revoked crl).
Definition cred (k : PrivateKey) (role : Role) (key : bytes) : bytes :=
  match Issue k (hex_EncodeToString key) [role] Hour (2 * Hour) "" (Some (bytes_of "12345678")) with
  | Some (_, t) => bytes_of t
  | None => []
  end.
Definition honest : Network := fun _ ask =>
  let role := if String.eqb ask.2 "example.org:443" then RoleExit else RoleRelay in
  MkLayer (Some (cred (if String.eqb role RoleExit then root_key else relay_key) role ask.1)) true false [].
(** The second hop never answers. *)
Definition second_dead : Network := fun up ask =>
  if (List.length up =? 1)%nat then MkLayer None false true [] else MkLayer (Some []) true false [].
Definition round (_ : nat) : Round := MkRound None true second_dead Hour (Some dir) None 7.
Definition world : World := MkWorld ∅ (Some (1%nat, plan)) draws false.
End Demo.
Import Toy RelayChain.Demo ChainDial.Demo.

Lemma chain_credentials_witness :
  exists ls, dialChain (Some relay_verifier) (Some (exit_verifier (Public root_key, crl))) Hour honest plan "example.org:443" = Ok ls /\
  exists pub, hex_DecodeString (TrimSpace anchor_text) = Some pub /\
    (forall h, h ∈ p_hops plan -> exists c, credential_for pub (h_pub h) RoleRelay (ClientCRL_Revoked crl) Hour c) /\
    exists c, credential_for (Public root_key) (exitPub plan) RoleExit (ClientCRL_Revoked crl) Hour c.
Proof.
  assert (is_ok (dialChain (Some relay_verifier) (Some (exit_verifier (Public root_key, crl))) Hour honest plan "example.org:443") = true)
    as Hd by (vm_compute; reflexivity).
  destruct (dialChain _ _ _ _ _ _) as [ls|e] eqn:He; [|discriminate Hd]. exists ls. split; [reflexivity|].
  apply (chain_credentials anchor_text crl relay_verifier (Public root_key) Hour honest plan "example.org:443" ls); [|exact He].
  unfold buildRelayVerifier.
  assert (decode_key (TrimSpace anchor_text) = Some (Public relay_key)) as -> by (vm_compute; reflexivity).
  reflexivity.
Defined.

Lemma assigned_relay_is_no_hop_witness :
  verifyChainDisjoint (Some plan) (Coordinator.relayTag (id_of "d")) = Ok tt /\ id_of "d" ∉ h_id <$> p_hops plan.
Proof.
  assert (verifyChainDisjoint (Some plan) (Coordinator.relayTag (id_of "d")) = Ok tt) as Hv by (vm_compute; reflexivity).
  split; [exact Hv|]. exact (proj2 (assigned_relay_is_no_hop plan (id_of "d")) Hv).
Defined.

Lemma plan_is_chain : chain_of dir 3 "NL" "" plan.
Proof.
  assert (selectChain dir 3 "NL" "" None draws =
    (Ok (MkChoice (hop "a" dir) (p_hops plan) (MkDiv false true 2 0)), drop 2 draws)) as Hs by (vm_compute; reflexivity).
  apply selectChain_inv in Hs as [Hc _]. exact Hc.
Qed.

Lemma chain_is_forwardable_witness : exitDia plan ∈ dialable dir.
Proof.
  apply (chain_is_forwardable _ _ _ _ _ dir 3 "NL" "" plan 1 (hop "c" dir) load_demo plan_is_chain).
  vm_compute. reflexivity.
Defined.

Lemma rebuild_avoids_suspect_witness :
  exists p notices rs',
    rebuildChain (Some dir) (hopCooling (markHopCooling ∅ (id_of "c") Hour) Hour) (Some plan) draws = (Ok (p, notices), rs') /\
    notices = [ReusesCooling] /\ firstHopID (Some p) = firstHopID (Some plan).
Proof.
  assert (exists rs', rebuildChain (Some dir) (hopCooling (markHopCooling ∅ (id_of "c") Hour) Hour) (Some plan) draws =
    (Ok (plan, [ReusesCooling]), rs')) as [rs' Hr] by (eexists; vm_compute; reflexivity).
  eexists _, _, _. split; [exact Hr|]. split; [reflexivity|].
  destruct (rebuild_avoids_suspect _ _ _ _ _ _ _ _ _ Hr) as (Hh & _); [vm_compute; discriminate..|exact Hh].
Defined.

Lemma recovery_is_bounded_witness :
  let '(o, w', l) := dialChainedStream (Ok None) None [] "example.org:443" round world in
  (List.length l <= 3)%nat /\ List.length l = 3%nat /\ w_closed w' = false.
Proof.
  destruct (dialChainedStream (Ok None) None [] "example.org:443" round world) as [[o w'] l] eqn:Hd.
  destruct (recovery_is_bounded _ _ _ _ _ _ _ _ _ Hd) as (Hl & _). split; [exact Hl|].
  assert ((List.length (dialChainedStream (Ok None) None [] "example.org:443" round world).2,
           w_closed (dialChainedStream (Ok None) None [] "example.org:443" round world).1.2) = (3%nat, false)) as Hx
    by (vm_compute; reflexivity).
  rewrite Hd in Hx. injection Hx as H1 H2. split; [exact H1|exact H2].
Defined.
