(* ===== verification/Selection.v ===== *)
(** * Client-side selection: [core/selection]

    The ladder of candidate paths a client tries, and its memory of what worked on a
    network, kept in a file. A map is walked in an arbitrary order, which is an argument. *)

From stdpp Require Import sorting.
From S2P Require Import Prelude GoStrings Base64 Hashes Crypto.
Local Open Scope Z_scope.

(** [strings.EqualFold], up to the identity of non-ASCII runes: ASCII letters match
    whatever their case, the two runes that fold to an ASCII letter (U+017F and U+212A)
    match it, and every other rune matches itself. This is exact when either string is
    ASCII, as country codes are. *)
Fixpoint fold_case (s : string) : string :=
  match s with
  | "" => ""
  | String a s' =>
      match s' with
      | "" => String (upper_byte a) ""
      | String b s'' =>
          if (octet a =? 197) && (octet b =? 191) then String "S" (fold_case s'')
          else match s'' with
               | String c s''' =>
                   if (octet a =? 226) && (octet b =? 132) && (octet c =? 170) then String "K" (fold_case s''')
                   else String (upper_byte a) (fold_case s')
               | "" => String (upper_byte a) (fold_case s')
               end
      end
  end.
Definition EqualFold (s t : string) : bool := String.eqb (fold_case s) (fold_case t).

(** [sort.SliceStable] for an ordering of the elements. *)
Fixpoint insert_by {A} (less : A -> A -> bool) (x : A) (l : list A) : list A :=
  match l with
  | [] => [x]
  | y :: l' => if less y x then y :: insert_by less x l' else x :: l
  end.
Definition SliceStable {A} (less : A -> A -> bool) (l : list A) : list A := foldr (insert_by less) [] l.

(** A loop that drops what a map of the elements seen holds already. *)
Fixpoint keep_first `{Countable A} (seen : gset A) (l : list A) : list A :=
  match l with
  | [] => []
  | x :: l => if bool_decide (x ∈ seen) then keep_first seen l else x :: keep_first ({[x]} ∪ seen) l
  end.

(** ** [selection.go] *)

Definition ModeDirect : string := "direct".
Definition ModeRelay : string := "relay".

Record Candidate := MkCandidate { Transport : string; c_Country : string; c_Mode : string }.
#[export] Instance Candidate_eq_dec : EqDecision Candidate.
Proof. solve_decision. Defined.
#[export] Instance Candidate_countable : Countable Candidate.
Proof.
  refine (inj_countable' (fun r => (Transport r, c_Country r, c_Mode r)) (fun '(t, c, m) => MkCandidate t c m) _).
  by intros [].
Defined.

Record Country := MkCountry { Code : string; k_Available : Z; k_Busy : bool; k_RTT : Duration }.
Record LadderInput := MkLadderInput {
  Geo : string; k_Countries : list Country; Transports : list string;
  Learned : option Candidate; Cooling : option (Candidate -> bool);
}.

Definition in_scope (geo : string) (c : Country) : bool :=
  if negb (String.eqb geo "") then EqualFold (Code c) geo else negb (k_Busy c).
Definition inScope (countries : list Country) (geo : string) : list Country := filter (in_scope geo) countries.

Definition faster (x y : Country) : bool :=
  if k_RTT x =? 0 then false else if k_RTT y =? 0 then true else k_RTT x <? k_RTT y.
Definition sortByPing (countries : list Country) : list Country := SliceStable faster countries.

Definition countriesAs (transport : string) (countries : list Country) (mode : string) : list Candidate :=
  map (fun c => MkCandidate transport (Code c) mode) countries.

Definition countryPresent (countries : list Country) (code : string) : bool :=
  existsb (fun c => EqualFold (Code c) code) countries.

Definition isCooling (c : Candidate) (cooling : option (Candidate -> bool)) : bool :=
  match cooling with Some f => f c | None => false end.

Definition sinkCooling (tier : list Candidate) (cooling : option (Candidate -> bool)) : list Candidate :=
  match cooling with
  | None => tier
  | Some f => filter (fun c => negb (f c)) tier ++ filter (fun c => f c) tier
  end.

Definition dedup (l : list Candidate) : list Candidate := keep_first ∅ l.

(** The tiers of [Ladder], from the countries in scope by ping. *)
Definition tiers (i : LadderInput) (countries : list Country) : list (list Candidate) :=
  match Learned i with
  | Some c => if countryPresent countries (c_Country c) && negb (isCooling c (Cooling i)) then [[c]] else []
  | None => []
  end ++
  match Transports i with
  | [] => []
  | primary :: rest =>
      [countriesAs primary countries ModeDirect;
       flat_map (fun tr => countriesAs tr countries ModeDirect) rest;
       countriesAs primary countries ModeRelay]
  end.
Definition Ladder (i : LadderInput) : list Candidate :=
  dedup (flat_map (fun tier => sinkCooling tier (Cooling i)) (tiers i (sortByPing (inScope (k_Countries i) (Geo i))))).

(** ** [store.go] *)

Definition DefaultTTL : Duration := 14 * 24 * Hour.

Module Memory.
Record Record_ := MkRecord {
  Net : string; r_Geo : string; r_Country : string; Tr : string; r_Mode : string; RTTms : Z; At : Time;
}.
#[export] Instance Record_eq_dec : EqDecision Record_.
Proof. solve_decision. Defined.
#[export] Instance Record_countable : Countable Record_.
Proof.
  refine (inj_countable' (fun r => (Net r, r_Geo r, r_Country r, Tr r, r_Mode r, RTTms r, At r))
    (fun '(n, g, c, t, m, x, a) => MkRecord n g c t m x a) _).
  by intros [].
Defined.

Definition candidate (r : Record_) : Candidate := MkCandidate (Tr r) (r_Country r) (r_Mode r).

(** [path] is whether there is one; [ttl] is always [DefaultTTL]. *)
Record Store := MkStore { path : bool; ttl : Duration; recs : gmap string Record_ }.

Definition recKey (net geo country : string) : string :=
  net +:+ String Ascii.zero (geo +:+ String Ascii.zero country).
Definition key_of (r : Record_) : string := recKey (Net r) (r_Geo r) (r_Country r).

(** [Open]: [file] is the bytes at the path, if they can be read. *)
Definition load (m : gmap string Record_) (r : Record_) : gmap string Record_ :=
  if String.eqb (r_Country r) "" then m else <[key_of r := r]> m.
Definition Open `{JSON (list Record_)} (path : bool) (file : option bytes) : Store :=
  MkStore path DefaultTTL
    (if path then
       match file with
       | Some b => match Unmarshal b with Some rs => foldl load ∅ rs | None => ∅ end
       | None => ∅
       end
     else ∅).

Definition expired (s : Store) (r : Record_) (now : Time) : bool :=
  (0 <? ttl s) && (ttl s <? time_Sub now (At r)).

(** What [save] writes: the records in the order of their keys. *)
Definition key_le (x y : Record_) : Prop := string_le (key_of x) (key_of y).
#[export] Instance key_le_dec : RelDecision key_le.
Proof. intros x y. unfold key_le. apply _. Defined.
Definition snapshot (s : Store) : list Record_ := merge_sort key_le ((map_to_list (recs s)).*2).
Definition save `{JSON (list Record_)} (s : Store) : option bytes := if path s then Some (Marshal (snapshot s)) else None.

(** [Put]: the store, and what is then written, if there is a path. *)
Definition insert_rec (s : Store) (r : Record_) : Store := MkStore (path s) (ttl s) (<[key_of r := r]> (recs s)).
Definition Put `{JSON (list Record_)} (s : Store) (r : Record_) : Store * option bytes :=
  let s := insert_rec s r in (s, save s).

(** [Best] and [RTT] over the records in the order the map is walked. *)
Definition best_step (s : Store) (net geo : string) (now : Time) (best : option Record_) (r : Record_) : option Record_ :=
  if negb (String.eqb (Net r) net) || negb (String.eqb (r_Geo r) geo) || expired s r now then best
  else match best with
       | Some b => if RTTms r <? RTTms b then Some r else best
       | None => Some r
       end.
Definition Best (s : Store) (walk : list Record_) (net geo : string) (now : Time) : option Candidate :=
  candidate <$> foldl (best_step s net geo now) None walk.

Definition Millisecond : Duration := 1000000.
Definition rtt_step (s : Store) (net country : string) (now : Time) (out : Duration) (r : Record_) : Duration :=
  if negb (String.eqb (Net r) net) || negb (String.eqb (r_Country r) country) || expired s r now then out
  else let d := wrapi64 (RTTms r * Millisecond) in if (out =? 0) || (d <? out) then d else out.
Definition RTT (s : Store) (walk : list Record_) (net country : string) (now : Time) : Duration :=
  foldl (rtt_step s net country now) 0 walk.

(** [Reset]: the store, and whether the file is removed. *)
Definition Reset (s : Store) : Store * bool := (MkStore (path s) (ttl s) ∅, path s).
End Memory.

(** ** [network.go] *)

(** [networkKeyFrom]: [gw] is the fingerprint of the gateway. *)
Definition networkKeyFrom (subnets : list string) (gw : string) : string :=
  match subnets with
  | [] => "default"
  | _ =>
      let uniq := sort_Strings (keep_first ∅ subnets) in
      let material := "bacchus-netkey" +:+ String Ascii.zero (String.concat (String (byte_of 10) "") uniq) in
      let material := if String.eqb gw "" then material
                      else material +:+ String Ascii.zero ("gw" +:+ String Ascii.zero gw) in
      String.substring 0 16 (hex_EncodeToString (SHA256.sum (bytes_of material)))
  end.

(** ** Lemmas on the loops *)

Section KeepFirst.
Context `{Countable A}.
Implicit Types (l : list A) (seen : gset A).

Lemma elem_of_keep_first x seen l : x ∈ keep_first seen l <-> x ∈ l /\ x ∉ seen.
Proof.
  revert seen. induction l as [|y l IH]; intros seen; cbn; [set_solver|].
  case_bool_decide as Hy; rewrite ?elem_of_cons, IH; [set_solver|].
  destruct (decide (x = y)) as [->|]; set_solver.
Qed.
Lemma NoDup_keep_first seen l : NoDup (keep_first seen l).
Proof.
  revert seen. induction l as [|y l IH]; intros seen; cbn; [constructor|].
  case_bool_decide; [done|]. constructor; [|done]. rewrite elem_of_keep_first. set_solver.
Qed.
Lemma keep_first_sublist seen l : keep_first seen l `sublist_of` l.
Proof.
  revert seen. induction l as [|y l IH]; intros seen; cbn; [constructor|].
  case_bool_decide; by constructor.
Qed.
Lemma keep_first_app seen l1 l2 :
  keep_first seen (l1 ++ l2) = keep_first seen l1 ++ keep_first (seen ∪ list_to_set l1) l2.
Proof.
  revert seen. induction l1 as [|y l IH]; intros seen; cbn [app keep_first].
  { cbn. by rewrite (right_id_L ∅ (∪)). }
  change (list_to_set (C:=gset A) (y :: l)) with ({[y]} ∪ list_to_set (C:=gset A) l). case_bool_decide; rewrite IH; cbn [app].
  - by replace (seen ∪ ({[y]} ∪ list_to_set l)) with (seen ∪ list_to_set l) by set_solver.
  - by replace (seen ∪ ({[y]} ∪ list_to_set l)) with ({[y]} ∪ seen ∪ list_to_set l) by set_solver.
Qed.
End KeepFirst.

Lemma StronglySorted_sublist {A} (R : relation A) l1 l2 : l1 `sublist_of` l2 -> StronglySorted R l2 -> StronglySorted R l1.
Proof.
  induction 1 as [|x l1 l2 Hs IH|x l1 l2 Hs IH]; [done| |]; intros [Hl Hf]%StronglySorted_inv; [|by auto].
  constructor; [auto|]. rewrite Forall_forall in *. intros y Hy. apply Hf.
  by eapply elem_of_submseteq; [|apply sublist_submseteq].
Qed.

Section Stable.
Context {A} (less : A -> A -> bool).
Definition not_after (x y : A) : Prop := less y x = false.
Context (Htotal : forall x y, less x y = true -> less y x = false)
        (Htrans : forall x y z, not_after x y -> not_after y z -> not_after x z).

Lemma insert_by_perm x l : insert_by less x l ≡ₚ x :: l.
Proof. induction l as [|y l IH]; cbn; [done|]. destruct (less y x); [|done]. rewrite IH. constructor. Qed.
Lemma SliceStable_perm l : SliceStable less l ≡ₚ l.
Proof. induction l as [|x l IH]; cbn; [done|]. by rewrite insert_by_perm, IH. Qed.
Lemma insert_by_sorted x l : StronglySorted not_after l -> StronglySorted not_after (insert_by less x l).
Proof.
  induction 1 as [|y l Hl IH Hy]; cbn; [repeat constructor|]. destruct (less y x) eqn:Hlt.
  - constructor; [done|]. rewrite insert_by_perm. constructor; [by apply Htotal|done].
  - constructor; [by constructor|]. constructor; [done|]. eapply Forall_impl; [done|]. intros z Hz. by eapply Htrans.
Qed.
Lemma SliceStable_sorted l : StronglySorted not_after (SliceStable less l).
Proof. induction l; cbn; [constructor|by apply insert_by_sorted]. Qed.

(** Elements the ordering does not tell apart keep their order. *)
Lemma insert_by_stable (P : A -> bool) x l :
  (forall y z, P y = true -> P z = true -> less y z = false) ->
  filter P (insert_by less x l) = filter P (x :: l).
Proof.
  intros HP. induction l as [|y l IH]; cbn; [done|]. destruct (less y x) eqn:Hlt; [|done].
  rewrite (filter_cons P y), IH, !filter_cons. destruct (P y) eqn:Hy, (P x) eqn:Hx; repeat destruct decide; try done.
  by rewrite HP in Hlt.
Qed.
Lemma SliceStable_stable (P : A -> bool) l :
  (forall y z, P y = true -> P z = true -> less y z = false) -> filter P (SliceStable less l) = filter P l.
Proof.
  intros HP. induction l as [|x l IH]; [done|].
  change (SliceStable less (x :: l)) with (insert_by less x (SliceStable less l)).
  rewrite insert_by_stable by done. by rewrite !filter_cons, IH.
Qed.
End Stable.

(** ** The ladder *)

Lemma faster_asym x y : faster x y = true -> faster y x = false.
Proof. unfold faster. repeat case_match; b2p; try done; intros; b2p; lia. Qed.
Lemma faster_trans x y z : not_after faster x y -> not_after faster y z -> not_after faster x z.
Proof. unfold not_after, faster. repeat case_match; b2p; try done; intros; b2p; lia. Qed.

(** Whether a remembered winner is tried, the rank of a tier, and a candidate's rank. *)
Definition tries_learned (i : LadderInput) (c : Candidate) : bool :=
  bool_decide (Learned i = Some c) && countryPresent (inScope (k_Countries i) (Geo i)) (c_Country c)
  && negb (isCooling c (Cooling i)).
Definition tier (i : LadderInput) (c : Candidate) : nat :=
  if tries_learned i c then 0
  else if String.eqb (c_Mode c) ModeDirect
  then if bool_decide (head (Transports i) = Some (Transport c)) then 1 else 2
  else 3.
Definition rank (i : LadderInput) (c : Candidate) : nat :=
  2 * tier i c + if isCooling c (Cooling i) then 1 else 0.

(** The candidates of a plain tier. *)
Definition offered (i : LadderInput) (c : Candidate) : Prop :=
  (exists k, k ∈ inScope (k_Countries i) (Geo i) /\ Code k = c_Country c) /\
  (c_Mode c = ModeDirect /\ Transport c ∈ Transports i \/
   c_Mode c = ModeRelay /\ head (Transports i) = Some (Transport c)).

Lemma elem_of_countriesAs c tr ks m :
  c ∈ countriesAs tr ks m <-> Transport c = tr /\ c_Mode c = m /\ exists k, k ∈ ks /\ Code k = c_Country c.
Proof.
  unfold countriesAs. rewrite list_elem_of_fmap. split.
  - intros (k & -> & Hk). cbn. eauto.
  - intros (<- & <- & k & Hk & He). exists k. split; [|done]. destruct c. cbn in *. by subst.
Qed.
Lemma elem_of_sinkCooling c t f : c ∈ sinkCooling t f <-> c ∈ t.
Proof.
  unfold sinkCooling. destruct f as [f|]; [|done]. rewrite elem_of_app, !list_elem_of_filter.
  destruct (f c); cbn; naive_solver.
Qed.
Lemma elem_of_flat_map {A B} (f : A -> list B) l y : y ∈ flat_map f l <-> exists x, x ∈ l /\ y ∈ f x.
Proof. rewrite list_elem_of_In, in_flat_map. by setoid_rewrite list_elem_of_In. Qed.
Lemma StronglySorted_all {A} (R : relation A) l : (forall x y, x ∈ l -> y ∈ l -> R x y) -> StronglySorted R l.
Proof.
  induction l as [|x l IH]; intros HR; constructor; [apply IH; set_solver|]. apply Forall_forall. set_solver.
Qed.
Lemma sinkCooling_sorted t f :
  StronglySorted (fun x y => isCooling x f = true -> isCooling y f = true) (sinkCooling t f).
Proof.
  unfold sinkCooling, isCooling. destruct f as [f|]; [|by apply StronglySorted_all].
  apply StronglySorted_app_2; [|apply StronglySorted_all..]; intros x y; rewrite !list_elem_of_filter;
    rewrite ?Is_true_true, ?negb_true_iff; naive_solver congruence.
Qed.

Lemma filter_none {A} (P : A -> Prop) `{!forall x, Decision (P x)} l : (forall x, x ∈ l -> ~ P x) -> filter P l = [].
Proof.
  induction l as [|x l IH]; intros Hn; [done|]. rewrite filter_cons_False by (apply Hn; set_solver). apply IH. set_solver.
Qed.
Lemma sublist_filter_mono {A} (P : A -> Prop) `{!forall x, Decision (P x)} l1 l2 :
  l1 `sublist_of` l2 -> filter P l1 `sublist_of` filter P l2.
Proof.
  induction 1 as [|x l1 l2 Hs IH|x l1 l2 Hs IH]; [constructor|..]; rewrite ?filter_cons; repeat destruct decide;
    try done; by constructor.
Qed.
(** Sinking keeps the order among the cooling and among the others. *)
Lemma sink_order (Q : Candidate -> Prop) `{!forall x, Decision (Q x)} t f b :
  filter (fun c => Q c /\ isCooling c f = b) (sinkCooling t f) `sublist_of` filter (fun c => isCooling c f = b) t.
Proof.
  assert (forall l, filter (fun c => Q c /\ isCooling c f = b) l `sublist_of` filter (fun c => isCooling c f = b) l) as Hq.
  { intros l. induction l as [|x l IH]; [constructor|]. rewrite !filter_cons. repeat destruct decide; try (by constructor); tauto. }
  unfold sinkCooling. destruct f as [f|]; [|done]. cbn [isCooling] in *. rewrite filter_app. destruct b.
  - rewrite filter_none; [|intros x; rewrite list_elem_of_filter, Is_true_true, negb_true_iff; naive_solver congruence].
    etrans; [apply Hq|]. apply sublist_filter_mono, sublist_filter.
  - rewrite (filter_none _ (filter (fun c => f c) t)), app_nil_r;
      [|intros x; rewrite list_elem_of_filter, Is_true_true; naive_solver congruence].
    etrans; [apply Hq|]. apply sublist_filter_mono, sublist_filter.
Qed.

Section LadderProofs.
Context (i : LadderInput).
Notation scope := (inScope (k_Countries i) (Geo i)).
Notation ks := (sortByPing scope).

Definition T0 : list Candidate :=
  match Learned i with Some c => if tries_learned i c then [c] else [] | None => [] end.
Definition T1 : list Candidate := match Transports i with [] => [] | p :: _ => countriesAs p ks ModeDirect end.
Definition T2 : list Candidate :=
  match Transports i with [] => [] | _ :: r => flat_map (fun tr => countriesAs tr ks ModeDirect) r end.
Definition T3 : list Candidate := match Transports i with [] => [] | p :: _ => countriesAs p ks ModeRelay end.

Lemma elem_of_ks k : k ∈ ks <-> k ∈ scope.
Proof. unfold sortByPing. by rewrite SliceStable_perm. Qed.

Lemma existsb_perm {A} (f : A -> bool) l1 l2 : l1 ≡ₚ l2 -> existsb f l1 = existsb f l2.
Proof. induction 1; cbn; try congruence. destruct (f x), (f y); done. Qed.

Notation sunk t := (sinkCooling t (Cooling i)).
Lemma Ladder_parts : Ladder i = keep_first ∅ (sunk T0 ++ sunk T1 ++ sunk T2 ++ sunk T3).
Proof.
  unfold Ladder, dedup, tiers, T0, T1, T2, T3, tries_learned, countryPresent.
  assert (sunk [] = []) as H0 by (unfold sinkCooling; by destruct (Cooling i)).
  f_equal. rewrite flat_map_app. f_equal.
  - destruct (Learned i) as [c|]; [|done]. rewrite bool_decide_eq_true_2 by done. cbn [andb].
    rewrite (existsb_perm _ ks scope) by apply SliceStable_perm.
    destruct (existsb _ _ && negb _); cbn [flat_map]; rewrite ?app_nil_r; done.
  - destruct (Transports i) as [|p r]; cbn [flat_map]; rewrite ?H0, ?app_nil_r; done.
Qed.

Lemma tries_learned_iff c : c ∈ T0 <-> tries_learned i c = true.
Proof.
  unfold T0. split.
  - destruct (Learned i) as [c'|]; [|set_solver]. destruct (tries_learned i c') eqn:Ht; [|set_solver]. set_solver.
  - intros Ht. assert (Learned i = Some c) as ->; [|rewrite Ht; set_solver].
    unfold tries_learned in Ht. b2p. done.
Qed.

(** A candidate of a tier that is in none before it has that tier. *)
Lemma tier_T1 c : c ∉ T0 -> c ∈ T1 -> tier i c = 1%nat.
Proof.
  unfold tier, T1. intros Hn. destruct (tries_learned i c) eqn:Ht; [by rewrite <-tries_learned_iff in Ht|].
  destruct (Transports i) as [|p r]; [set_solver|]. intros (<- & -> & _)%elem_of_countriesAs. cbn [head].
  by rewrite bool_decide_eq_true_2.
Qed.
Lemma tier_T2 c : c ∉ T0 -> c ∉ T1 -> c ∈ T2 -> tier i c = 2%nat.
Proof.
  unfold tier, T1, T2. intros Hn. destruct (tries_learned i c) eqn:Ht; [by rewrite <-tries_learned_iff in Ht|].
  destruct (Transports i) as [|p r]; [set_solver|]. rewrite elem_of_countriesAs. intros Hp.
  intros (tr & Htr & (<- & Hm & Hk)%elem_of_countriesAs)%elem_of_flat_map. rewrite Hm in *. cbn [head].
  rewrite bool_decide_eq_false_2; [done|]. intros [= ->]. by apply Hp.
Qed.
Lemma tier_T3 c : c ∉ T0 -> c ∈ T3 -> tier i c = 3%nat.
Proof.
  unfold tier, T3. intros Hn. destruct (tries_learned i c) eqn:Ht; [by rewrite <-tries_learned_iff in Ht|].
  destruct (Transports i) as [|p r]; [set_solver|]. by intros (_ & -> & _)%elem_of_countriesAs.
Qed.
Lemma tier_T0 c : c ∈ T0 -> tier i c = 0%nat.
Proof. unfold tier. by intros ->%tries_learned_iff. Qed.

Notation rank_le := (fun x y => (rank i x <= rank i y)%nat).
Lemma part_sorted n seen t :
  (forall c, c ∈ t -> c ∉ seen -> tier i c = n) -> StronglySorted rank_le (keep_first seen (sunk t)).
Proof.
  intros Hn. pose proof (sinkCooling_sorted t (Cooling i)) as Hs.
  eapply StronglySorted_sublist in Hs; [|apply (keep_first_sublist seen)].
  assert (Forall (fun c => tier i c = n) (keep_first seen (sunk t))) as Hf.
  { apply Forall_forall. intros c. rewrite elem_of_keep_first, elem_of_sinkCooling. naive_solver. }
  revert Hs Hf. induction 1 as [|x l Hs IH Hx]; intros Hf; [constructor|].
  apply Forall_cons in Hf as [Htx Htl]. constructor; [auto|].
  rewrite Forall_forall in *. intros y Hy. unfold rank. rewrite Htx, (Htl y Hy). specialize (Hx y Hy).
  destruct (isCooling x _), (isCooling y _); lia.
Qed.

Lemma Ladder_ranked : StronglySorted rank_le (Ladder i).
Proof.
  rewrite Ladder_parts, !keep_first_app.
  assert (forall n seen t c, (forall c, c ∈ t -> c ∉ seen -> tier i c = n) ->
    c ∈ keep_first seen (sunk t) -> (2 * n <= rank i c <= 2 * n + 1)%nat) as Hin.
  { intros n seen t c Ht. rewrite elem_of_keep_first, elem_of_sinkCooling. intros [Hc Hs]. unfold rank.
    rewrite (Ht c Hc Hs). destruct (isCooling _ _); lia. }
  assert (forall c, c ∈ T0 -> c ∉ (∅ : gset Candidate) -> tier i c = 0%nat) as H0 by (intros; by apply tier_T0).
  assert (forall c, c ∈ T1 -> c ∉ (∅ ∪ list_to_set (sunk T0) : gset Candidate) -> tier i c = 1%nat) as H1.
  { intros c Hc Hn. apply tier_T1; [|done]. rewrite elem_of_union, elem_of_list_to_set, elem_of_sinkCooling in Hn. tauto. }
  assert (forall c, c ∈ T2 -> c ∉ (∅ ∪ list_to_set (sunk T0) ∪ list_to_set (sunk T1) : gset Candidate) -> tier i c = 2%nat) as H2.
  { intros c Hc Hn. rewrite !elem_of_union, !elem_of_list_to_set, !elem_of_sinkCooling in Hn. apply tier_T2; tauto. }
  assert (forall c, c ∈ T3 -> c ∉ (∅ ∪ list_to_set (sunk T0) ∪ list_to_set (sunk T1) ∪ list_to_set (sunk T2) : gset Candidate) ->
    tier i c = 3%nat) as H3.
  { intros c Hc Hn. rewrite !elem_of_union, !elem_of_list_to_set, !elem_of_sinkCooling in Hn. apply tier_T3; tauto. }
  repeat apply StronglySorted_app_2; try by eapply part_sorted.
  all: intros x y Hx; rewrite ?elem_of_app; intros Hy.
  all: repeat match goal with H : _ \/ _ |- _ => destruct H end.
  all: repeat match goal with H : _ ∈ keep_first _ _ |- _ => eapply Hin in H; [|eassumption] end; lia.
Qed.

Lemma elem_of_Ladder c : c ∈ Ladder i <-> tries_learned i c = true \/ offered i c.
Proof.
  rewrite Ladder_parts, elem_of_keep_first, !elem_of_app, !elem_of_sinkCooling, tries_learned_iff.
  unfold offered, T1, T2, T3. setoid_rewrite <-elem_of_ks.
  destruct (Transports i) as [|p r]; [set_solver|]. rewrite !elem_of_countriesAs, elem_of_flat_map.
  setoid_rewrite elem_of_countriesAs. setoid_rewrite elem_of_cons. cbn [head]. split.
  - intros [[H|[(<- & Hm & Hk)|[(tr & Htr & <- & Hm & Hk)|(<- & Hm & Hk)]]] _]; auto 6.
  - intros [H|[Hk [[Hm [Ht|Ht]]|[Hm [= Ht]]]]]; (split; [|set_solver]); eauto 10.
Qed.

(** Candidates with the primary transport, direct and of one temper, come in the order of
    the pings. *)
Lemma Ladder_by_ping b p :
  head (Transports i) = Some p ->
  filter (fun c => tier i c = 1%nat /\ isCooling c (Cooling i) = b) (Ladder i) `sublist_of` countriesAs p ks ModeDirect.
Proof.
  intros Hp. assert (T1 = countriesAs p ks ModeDirect) as <-.
  { unfold T1. destruct (Transports i); [done|]. by injection Hp as ->. }
  rewrite Ladder_parts, !keep_first_app, !filter_app.
  rewrite (filter_none _ (keep_first ∅ (sunk T0))).
  2:{ intros c. rewrite elem_of_keep_first, elem_of_sinkCooling. intros [Hc _] [Ht _]. by rewrite tier_T0 in Ht. }
  rewrite (filter_none _ (keep_first _ (sunk T2))).
  2:{ intros c. rewrite elem_of_keep_first, elem_of_sinkCooling, !elem_of_union, !elem_of_list_to_set, !elem_of_sinkCooling.
      intros [Hc Hn] [Ht _]. by rewrite tier_T2 in Ht by tauto. }
  rewrite (filter_none _ (keep_first _ (sunk T3))).
  2:{ intros c. rewrite elem_of_keep_first, elem_of_sinkCooling, !elem_of_union, !elem_of_list_to_set, !elem_of_sinkCooling.
      intros [Hc Hn] [Ht _]. by rewrite tier_T3 in Ht by tauto. }
  rewrite !app_nil_r. cbn [app]. etrans; [apply sublist_filter_mono, keep_first_sublist|].
  etrans; [|apply (sublist_filter (fun c => isCooling c (Cooling i) = b))].
  apply sink_order.
Qed.
End LadderProofs.

(** A learned winner is tried for a country in scope. *)
Lemma EqualFold_trans a b c : EqualFold a b = true -> EqualFold b c = true -> EqualFold a c = true.
Proof. unfold EqualFold. rewrite !String.eqb_eq. congruence. Qed.
Lemma EqualFold_sym a b : EqualFold a b = EqualFold b a.
Proof. unfold EqualFold. by rewrite String.eqb_sym. Qed.

Lemma Ladder_country i c : c ∈ Ladder i ->
  exists k, k ∈ inScope (k_Countries i) (Geo i) /\ EqualFold (Code k) (c_Country c) = true.
Proof.
  rewrite elem_of_Ladder. intros [Ht|[(k & Hk & <-) _]].
  - unfold tries_learned, countryPresent in Ht. b2p.
    match goal with H : existsb _ _ = true |- _ => apply existsb_exists in H as (k & Hk & Hf) end.
    exists k. by rewrite list_elem_of_In.
  - exists k. split; [done|]. unfold EqualFold. by rewrite String.eqb_eq.
Qed.

(** The ladder dials no path twice; it holds exactly the remembered winner, when its
    country is in scope and it is not cooling, every transport's direct path to every
    country in scope, and the primary transport's relayed path to each; it tries the
    winner first, then the primary transport, then the others, then the relays, within a
    tier those that are not cooling first, and on the primary transport the fastest known
    country first; and it never leaves the country the user chose, nor uses a busy one
    when the user chose none. *)
Theorem Ladder_spec i :
  NoDup (Ladder i) /\
  (forall c, c ∈ Ladder i <-> tries_learned i c = true \/ offered i c) /\
  StronglySorted (fun x y => (rank i x <= rank i y)%nat) (Ladder i) /\
  (forall p b, head (Transports i) = Some p -> exists ks,
     ks ≡ₚ inScope (k_Countries i) (Geo i) /\ StronglySorted (not_after faster) ks /\
     filter (fun c => tier i c = 1%nat /\ isCooling c (Cooling i) = b) (Ladder i) `sublist_of` countriesAs p ks ModeDirect) /\
  (Geo i <> "" -> forall c, c ∈ Ladder i -> EqualFold (c_Country c) (Geo i) = true) /\
  (Geo i = "" -> forall c, c ∈ Ladder i -> exists k, k ∈ k_Countries i /\ k_Busy k = false /\ EqualFold (Code k) (c_Country c) = true).
Proof.
  split_and!.
  - unfold Ladder. apply NoDup_keep_first.
  - apply elem_of_Ladder.
  - apply Ladder_ranked.
  - intros p b Hp. exists (sortByPing (inScope (k_Countries i) (Geo i))). split_and!; [apply SliceStable_perm| |by apply Ladder_by_ping].
    apply SliceStable_sorted; [apply faster_asym|apply faster_trans].
  - intros Hg c (k & Hk & He)%Ladder_country. unfold inScope, in_scope in Hk. apply list_elem_of_filter in Hk as [Hk _].
    rewrite (proj2 (String.eqb_neq _ _) Hg) in Hk. apply Is_true_true in Hk. eapply EqualFold_trans; [|exact Hk].
    by rewrite EqualFold_sym.
  - intros Hg c (k & Hk & He)%Ladder_country. unfold inScope, in_scope in Hk. apply list_elem_of_filter in Hk as [Hb Hk].
    rewrite Hg in Hb. apply Is_true_true, negb_true_iff in Hb. eauto.
Qed.

Definition demo_input : LadderInput :=
  MkLadderInput "" [MkCountry "DE" 2 false 40; MkCountry "FR" 0 true 5; MkCountry "NL" 1 false 0; MkCountry "CH" 1 false 20]
    ["webrtc"; "reality"] (Some (MkCandidate "reality" "nl" ModeDirect))
    (Some (fun c => String.eqb (c_Country c) "CH")).

Example demo_ladder : Ladder demo_input =
  [MkCandidate "reality" "nl" "direct"; MkCandidate "webrtc" "DE" "direct"; MkCandidate "webrtc" "NL" "direct";
   MkCandidate "webrtc" "CH" "direct"; MkCandidate "reality" "DE" "direct"; MkCandidate "reality" "NL" "direct";
   MkCandidate "reality" "CH" "direct"; MkCandidate "webrtc" "DE" "relay"; MkCandidate "webrtc" "NL" "relay";
   MkCandidate "webrtc" "CH" "relay"].
Proof. reflexivity. Qed.

Lemma Ladder_spec_witness : exists ks, ks ≡ₚ inScope (k_Countries demo_input) "" /\
  filter (fun c => tier demo_input c = 1%nat /\ isCooling c (Cooling demo_input) = false) (Ladder demo_input)
    `sublist_of` countriesAs "webrtc" ks ModeDirect.
Proof.
  destruct (Ladder_spec demo_input) as (_ & _ & _ & Hp & _).
  destruct (Hp "webrtc" false eq_refl) as (ks & Hks & _ & Hs). exists ks. split; [exact Hks|exact Hs].
Defined.

(** ** The memory *)

Import Memory.

(** Records are under their own keys and name a country. *)
Definition store_ok (s : Store) : Prop :=
  map_Forall (fun k r => k = key_of r /\ r_Country r <> "") (recs s).

Lemma load_ok m r : map_Forall (fun k r => k = key_of r /\ r_Country r <> "") m ->
  map_Forall (fun k r => k = key_of r /\ r_Country r <> "") (load m r).
Proof.
  intros Hm. unfold load. destruct (String.eqb_spec (r_Country r) ""); [done|]. by apply map_Forall_insert_2.
Qed.
Lemma loads_ok rs m : map_Forall (fun k r => k = key_of r /\ r_Country r <> "") m ->
  map_Forall (fun k r => k = key_of r /\ r_Country r <> "") (foldl load m rs).
Proof. revert m. induction rs as [|r rs IH]; intros m Hm; [done|]. apply IH, load_ok, Hm. Qed.

Lemma Open_ok `{JSON (list Record_)} p f : store_ok (Open p f).
Proof. unfold store_ok, Open. cbn [recs]. repeat case_match; try apply map_Forall_empty. by apply loads_ok. Qed.
Lemma insert_rec_ok s r : store_ok s -> r_Country r <> "" -> store_ok (insert_rec s r).
Proof. intros Hs Hr. by apply map_Forall_insert_2. Qed.

(** Loading records with distinct keys, whatever their order. *)
Lemma loads_lookup rs m k :
  (forall r, r ∈ rs -> r_Country r <> "") -> NoDup (key_of <$> rs) ->
  foldl load m rs !! k = match list_find (fun r => key_of r = k) rs with Some (_, r) => Some r | None => m !! k end.
Proof.
  revert m. induction rs as [|r rs IH]; intros m Hc Hnd; [done|]. cbn [foldl list_find]. apply NoDup_cons in Hnd as [Hr Hnd].
  rewrite IH by set_solver. unfold load. destruct (String.eqb_spec (r_Country r) "") as [He|_].
  { exfalso. apply (Hc r); set_solver. }
  cbn. destruct (decide (key_of r = k)) as [<-|Hne].
  - destruct (list_find _ rs) as [[n r']|] eqn:Hf; cbn; [|by rewrite lookup_insert_eq].
    exfalso. apply Hr. apply list_find_Some in Hf as (Hl & <- & _). apply list_elem_of_fmap.
    eexists. split; [done|]. by eapply list_elem_of_lookup_2.
  - destruct (list_find _ rs) as [[n r']|]; cbn; [done|]. by rewrite lookup_insert_ne.
Qed.

Lemma elem_of_snapshot s r : store_ok s -> r ∈ snapshot s <-> recs s !! key_of r = Some r.
Proof.
  intros Hok. unfold snapshot. rewrite merge_sort_Permutation, list_elem_of_fmap. split.
  - intros ([k r'] & -> & Hk%elem_of_map_to_list). cbn. by destruct (Hok _ _ Hk) as [<- _].
  - intros Hr. exists (key_of r, r). by rewrite elem_of_map_to_list.
Qed.
Lemma snapshot_keys s : store_ok s -> NoDup (key_of <$> snapshot s).
Proof.
  intros Hok. unfold snapshot. rewrite merge_sort_Permutation, <-list_fmap_compose.
  rewrite (list_fmap_ext (key_of ∘ snd) fst) by
    (intros ? [k r] Hk%list_elem_of_lookup_2%elem_of_map_to_list; cbn; by destruct (Hok _ _ Hk) as [<- _]).
  apply NoDup_fst_map_to_list.
Qed.

Lemma reopen s : store_ok s -> foldl load ∅ (snapshot s) = recs s.
Proof.
  intros Hok. apply map_eq. intros k. rewrite loads_lookup; [|intros r Hr; apply elem_of_snapshot in Hr; [|done]; by eapply Hok|by apply snapshot_keys].
  destruct (list_find _ _) as [[n r]|] eqn:Hf.
  - apply list_find_Some in Hf as (Hl & <- & _). apply list_elem_of_lookup_2, elem_of_snapshot in Hl; [|done]. by rewrite Hl.
  - apply list_find_None in Hf. rewrite lookup_empty. destruct (recs s !! k) as [r|] eqn:Hr; [|done].
    rewrite Forall_forall in Hf. exfalso. pose proof (Hok _ _ Hr) as [-> _]. eapply Hf; [|done]. by apply elem_of_snapshot.
Qed.

(** A record [Best] considers. *)
Definition fits (s : Store) (net geo : string) (now : Time) (r : Record_) : bool :=
  String.eqb (Net r) net && String.eqb (r_Geo r) geo && negb (expired s r now).
Lemma best_step_fits s net geo now b r : best_step s net geo now b r =
  if fits s net geo now r then Some (match b with Some b => if RTTms r <? RTTms b then r else b | None => r end) else b.
Proof. unfold best_step, fits. destruct (String.eqb _ _), (String.eqb _ _), (expired _ _ _), b; cbn; by try destruct (_ <? _). Qed.

Lemma best_none s net geo now walk b :
  foldl (best_step s net geo now) b walk = None <-> b = None /\ Forall (fun r => fits s net geo now r = false) walk.
Proof.
  revert b. induction walk as [|x walk IH]; intros b; cbn [foldl]; [by rewrite Forall_nil; naive_solver|].
  rewrite IH, best_step_fits, Forall_cons. destruct (fits s net geo now x); naive_solver.
Qed.
Lemma best_least s net geo now walk b r :
  foldl (best_step s net geo now) b walk = Some r ->
  (b = Some r \/ r ∈ walk /\ fits s net geo now r = true) /\
  (forall b', b = Some b' -> RTTms r <= RTTms b') /\
  (forall x, x ∈ walk -> fits s net geo now x = true -> RTTms r <= RTTms x).
Proof.
  revert b. induction walk as [|x walk IH]; intros b; cbn [foldl].
  { intros ->. split_and!; [by left|intros b' [= <-]; lia|intros x Hx; by apply not_elem_of_nil in Hx]. }
  intros (Hr & Hb & Hall)%IH. clear IH. rewrite best_step_fits in *. destruct (fits s net geo now x) eqn:Hx.
  - specialize (Hb _ eq_refl). destruct b as [b|]; [destruct (Z.ltb_spec (RTTms x) (RTTms b))|].
    all: refine (conj _ (conj _ _)); [|intros b' Hb'; simplify_eq; lia|].
    all: try (intros y [->|Hy]%elem_of_cons Hf; [lia|by apply Hall]).
    all: destruct Hr as [Heq|[Hin Hf]]; [simplify_eq|right; by split; [right|]]; first [by left|right; by split; [left|]].
  - split_and!; [destruct Hr as [|[]]; [by left|right; split; [by right|done]]|done|].
    intros y [->|Hy]%elem_of_cons Hf; [congruence|by apply Hall].
Qed.

(** The memory of winners round-trips through its file, and [Best] is the fastest
    record in force: reopening what a [Put] wrote gives the store back; whatever the order
    the records are walked in, [Best] gives a candidate exactly when an unexpired record of
    that network and choice exists, and then one with the smallest round-trip; and the
    record just put is among those considered. *)
Theorem selection_memory `{!JSON (list Record_)} `{!JSONLaws (list Record_)} s r net geo now walk :
  store_ok s -> path s = true -> ttl s = DefaultTTL -> r_Country r <> "" ->
  let s' := (Put s r).1 in walk ≡ₚ snapshot s' ->
  Open true (Put s r).2 = s' /\ recs s' !! key_of r = Some r /\
  match Best s' walk net geo now with
  | Some c => exists x, c = candidate x /\ recs s' !! key_of x = Some x /\ fits s' net geo now x = true /\
                forall y, recs s' !! key_of y = Some y -> fits s' net geo now y = true -> RTTms x <= RTTms y
  | None => forall y, recs s' !! key_of y = Some y -> fits s' net geo now y = false
  end.
Proof.
  intros Hok Hp Ht Hc s' Hw. assert (store_ok s') as Hok' by by apply insert_rec_ok.
  assert (forall y, y ∈ walk <-> recs s' !! key_of y = Some y) as Hin by (intros y; by rewrite Hw, elem_of_snapshot).
  split_and!.
  - assert ((Put s r).2 = Some (Marshal (snapshot s'))) as ->.
    { unfold Put, save. cbn [snd insert_rec path]. by rewrite Hp. }
    unfold Open. rewrite Unmarshal_Marshal, reopen by done. unfold s', Put, insert_rec. cbn. by rewrite Hp, Ht.
  - apply lookup_insert_eq.
  - unfold Best. destruct (foldl _ _ _) as [x|] eqn:Hf; cbn [fmap option_fmap option_map].
    + apply best_least in Hf as ([Hf|[Hx Hfit]] & _ & Hall); [done|]. exists x. rewrite <-Hin. split_and!; try done.
      intros y Hy. apply Hall. by apply Hin.
    + apply best_none in Hf as [_ Hf]. rewrite Forall_forall in Hf. intros y Hy. apply Hf. by apply Hin.
Qed.

Import Toy.

Definition demo_record (country : string) (rtt : Z) : Record_ := MkRecord "net" "" country "webrtc" ModeDirect rtt 0.
Definition demo_store : Store := insert_rec (MkStore true DefaultTTL ∅) (demo_record "DE" 30).

Lemma selection_memory_witness : let J := @toy_json (list Record_) _ _ in
  Open true (Put demo_store (demo_record "CH" 12)).2 = (Put demo_store (demo_record "CH" 12)).1.
Proof.
  intros J. pose proof (@toy_json_laws (list Record_) _ _) as HJ.
  refine (proj1 (selection_memory demo_store (demo_record "CH" 12) "net" "" 0 _ _ _ _ _ _)).
  - apply insert_rec_ok; [apply map_Forall_empty|done].
  - done.
  - done.
  - done.
  - reflexivity.
Defined.

(** A save copies the records under the mutex and writes them after it is released, so of
    two that overlap the earlier copy may be written last: the file then lacks the record
    the later [Put] stored. *)
Example overlapping_saves_lose_a_record :
  let J := @toy_json (list Record_) _ _ in
  let s1 := insert_rec (MkStore true DefaultTTL ∅) (demo_record "DE" 30) in
  let early := save s1 in
  let s2 := insert_rec s1 (demo_record "CH" 12) in
  let late := save s2 in
  let file := foldl (fun _ w => w) None [late; early] in
  recs s2 !! key_of (demo_record "CH" 12) = Some (demo_record "CH" 12) /\
  recs (Open true file) !! key_of (demo_record "CH" 12) = None.
Proof. split; vm_compute; reflexivity. Qed.

#[local] Instance string_le_antisym : AntiSymm (=) string_le.
Proof. intros x y. unfold string_le. apply String.leb_antisym. Qed.

(** The key of a network is that of its set of subnets. *)
Lemma networkKey_set l1 l2 gw : (forall x, x ∈ l1 <-> x ∈ l2) -> networkKeyFrom l1 gw = networkKeyFrom l2 gw.
Proof.
  intros Hset. assert (sort_Strings (keep_first ∅ l1) = sort_Strings (keep_first ∅ l2)) as Hs.
  { apply (StronglySorted_unique string_le); [apply sort_Strings_sorted..|]. rewrite !sort_Strings_perm.
    apply NoDup_Permutation; [apply NoDup_keep_first..|]. intros x. rewrite !elem_of_keep_first. set_solver. }
  unfold networkKeyFrom. rewrite Hs. destruct l1 as [|x l1], l2 as [|y l2]; try done.
  - exfalso. apply (not_elem_of_nil y), Hset. by left.
  - exfalso. apply (not_elem_of_nil x), Hset. by left.
Qed.
