(* ===== verification/Client.v ===== *)
(** * The client side of the protocol: [core/client.go], with [core/devicecred_connect.go]
    and the routing of [core/engine.go]

    What a client sends to a coordinator, what it makes of the answers, how it rotates
    over the coordinators of its pool and keeps a dropped path alive. The two [wire]
    structs have the same JSON fields, so one record models both. The outside is an
    argument: the messages a member sent while the client waited for it, in order, what
    the link noticed, whether a transport came up, and the random draws. A transport
    session is named by its coordinator session id. *)

From S2P Require Import ASN.
From S2P Require Import Prelude GoStrings Base64 Crypto Net Version Delegation DeviceCred CoordState Coordinator.
From S2P Require Import GeoIP Stun Coldstart RelayChain Selection Forward.
Local Open Scope Z_scope.

(** ** Routing: [readLoop] *)

Inductive Route := ToForwarder | ToSignaler | ToClient | Rejected | Reselect | Unroutable.
Definition routed (clientOn : bool) (m : wire) : Route :=
  let ty := String.eqb (Type_ m) in
  if ty "assign" then ToForwarder
  else if ty "offer" || ty "answer" || ty "candidate" then ToSignaler
  else if ty "session" || ty "countries" || ty "error" || ty "challenge"
  then (if clientOn then ToClient else Unroutable)
  else if ty "reject" then Rejected
  else if ty "reselect" then Reselect
  else Unroutable.

Definition to_client (m : wire) : bool := match routed true m with ToClient => true | _ => false end.
Definition unroutable (m : wire) : bool := match routed true m with Unroutable => true | _ => false end.
(** What a client finds on a member's channel, and whether the link noted something it
    could not route, of the messages the member sent. *)
Definition delivered (ms : list wire) : list wire := filter (fun m => to_client m) ms.

(** ** The network's release: [observeNetworkVersion], [updateRequired] *)

Record NetVersion := MkNet { updateReq : bool; lastNetVersion : string }.
Definition observeNetworkVersion (self : Version.Version) (n : NetVersion) (release : string) : NetVersion :=
  if String.eqb release "" || String.eqb release (lastNetVersion n) then n
  else match Parse release with
       | Err _ => MkNet (updateReq n) release
       | Ok nv => MkNet (updateReq n || ClientMustUpdate self nv) release
       end.
(** Every message that reaches the client is observed on its way. *)
Definition observe_all (self : Version.Version) (n : NetVersion) (ms : list wire) : NetVersion :=
  foldl (fun n m => observeNetworkVersion self n (Release m)) n (delivered ms).

(** ** The device credential *)

Record Held := MkHeld { hd_Device : string; hd_IssuerCert : string; hd_Admission : string }.
Definition Presentable (c : Held) : bool := negb (String.eqb (hd_Device c) "") && negb (String.eqb (hd_IssuerCert c) "").

Section Device.
Context `{Ed25519}.

(** The configured admission credential, the device store, if there is one, and the key. *)
Record Identity := MkIdentity { AdmissionCred : string; deviceStore : option Held; deviceKey : PrivateKey }.

Definition admissionCred (c : Identity) : string :=
  if negb (String.eqb (AdmissionCred c) "") then AdmissionCred c
  else match deviceStore c with Some held => hd_Admission held | None => "" end.
Definition connectAdmissionCred (c : Identity) (answered : bool) : string :=
  if answered then "" else admissionCred c.

(** [awaitChallenge]: the challenge, and what is left on the channel. *)
Fixpoint awaitChallenge (ms : list wire) : option bytes * list wire :=
  match ms with
  | [] => (None, [])
  | m :: ms =>
      if negb (String.eqb (Type_ m) "challenge") then awaitChallenge ms
      else if String.eqb (Challenge m) "" then (None, ms)
      else (DecodeString StdEncoding (Challenge m), ms)
  end.

Record deviceConnectFields := MkFields { f_challenge : string; f_cred : string; f_assert : string }.
Definition no_fields : deviceConnectFields := MkFields "" "" "".

Definition challenge_request (cred issuerCert : string) : wire :=
  MkWire "challenge" "" "" "" "" "" "" "" "" "" [] "" [] "" [] "" 0 [] "" cred "" "" "" "" 0 0 0 0 "" None [] "" "" issuerCert "".

(** [presentDeviceCredential]: what was sent, the fields to present if it succeeded, and
    the channel afterwards. [ms] is what the member sends before the deadline. *)
Definition presentDeviceCredential (c : Identity) (raw : string) (ms : list wire)
    : list wire * option deviceConnectFields * list wire :=
  match deviceStore c with
  | None => ([], None, delivered ms)
  | Some held =>
      if negb (Presentable held) then ([], None, delivered ms)
      else
        let request := challenge_request (admissionCred c) (hd_IssuerCert held) in
        match awaitChallenge (delivered ms) with
        | (None, rest) => ([request], None, rest)
        | (Some challenge, rest) =>
            match SignAssertion (deviceKey c) PurposeConnect raw challenge with
            | Err _ => ([request], None, rest)
            | Ok sig => ([request], Some (MkFields (EncodeToString StdEncoding challenge) (hd_Device held) (EncodeToString StdEncoding sig)), rest)
            end
        end
  end.
End Device.

(** ** One attempt through one member *)

Inductive connectOutcome :=
  connectOK | coordinatorSilent | requestTooLarge | coordinatorUnroutable | coordinatorRefused | transportFailed.
Definition outcome_index (o : connectOutcome) : nat :=
  match o with
  | connectOK => 0 | coordinatorSilent => 1 | requestTooLarge => 2 | coordinatorUnroutable => 3
  | coordinatorRefused => 4 | transportFailed => 5
  end.
Definition mergeOutcome (a b : connectOutcome) : connectOutcome :=
  if (outcome_index a <? outcome_index b)%nat then b else a.

Definition modeDirect : string := "direct".
Definition modeRelay : string := "relay".

(** [relayDedup]: the tags that failed; absent for the pool. *)
Definition seen (d : option (gset string)) (tag : string) : bool :=
  match d with Some failed => negb (String.eqb tag "") && bool_decide (tag ∈ failed) | None => false end.
Definition fail_tag (d : option (gset string)) (tag : string) : option (gset string) :=
  match d with
  | Some failed => if String.eqb tag "" then d else Some ({[tag]} ∪ failed)
  | None => None
  end.

Record connectReq := MkReq { q_country : string; q_mode : string; q_exclude : list string; q_plan : option chainPlan }.
Definition wireCountry (r : connectReq) : string := match q_plan r with Some _ => "" | None => q_country r end.

Definition connectNonceLen : nat := 16.
Definition newConnectNonce (random : option bytes) : option string := hex_EncodeToString <$> random.

(** The connect message. *)
Definition connect_wire (r : connectReq) (nonce cred : string) (f : deviceConnectFields) : wire :=
  MkWire "connect" "" "" (wireCountry r) "" (q_mode r) "" "" (firstHopID (q_plan r)) nonce (q_exclude r) "" [] "" [] ""
    0 [] "" cred "" "" "" "" 0 0 0 0 "" None [] (f_challenge f) (f_cred f) "" (f_assert f).

Inductive pairResult := pairMinted | pairRefused | pairSilent.
Record sessionReply := MkReply { y_exitID : string; y_sid : string; y_relay : string; y_tag : string; y_reason : string }.

Fixpoint awaitSession (ms : list wire) : sessionReply * pairResult :=
  match ms with
  | [] => (MkReply "" "" "" "" "", pairSilent)
  | m :: ms =>
      if String.eqb (Type_ m) "session" then (MkReply (ExitID m) (Session m) (Relay m) (RelayTag m) "", pairMinted)
      else if String.eqb (Type_ m) "error" then (MkReply "" "" "" "" (CoordState.Reason m), pairRefused)
      else awaitSession ms
  end.

(** What happens on the link during one attempt. *)
Record Round := MkRound {
  rnd_nonce : option bytes;     (* sixteen random bytes *)
  rnd_first : list wire;        (* sent by the member while the client waits for a challenge *)
  rnd_then : list wire;         (* and while it waits for a session *)
  rnd_handshake : bool;         (* the shaped handshake failed *)
  rnd_too_large : bool;         (* the local socket refused the datagram *)
  rnd_dial : string -> bool;    (* whether a transport session comes up *)
}.

Record attemptResult := MkAttempt {
  a_sess : option string; a_sid : string; a_exitID : string; a_exitPub : bytes; a_relay : string; a_outcome : connectOutcome;
}.
Definition ended (sid exitID : string) (o : connectOutcome) : attemptResult := MkAttempt None sid exitID [] "" o.

Section Attempt.
Context `{Ed25519}.

(** From the reply on: the exit, the relay checks and the dial. Also whether, and
    through which peer relay, a transport was dialed. *)
Definition use_reply (r : Round) (req : connectReq) (dedup : option (gset string)) (y : sessionReply)
    : attemptResult * option (gset string) * option string :=
  let named := match q_plan req with
               | Some p => Some (exitID p, exitPub p)
               | None => match hex_DecodeString (y_exitID y) with
                         | Some pub => if (List.length pub =? 32)%nat then Some (y_exitID y, pub) else None
                         | None => None
                         end
               end in
  match named with
  | None => (ended "" "" coordinatorRefused, dedup, None)
  | Some (xid, xpub) =>
      let sid := y_sid y in
      let isPeerRelay := String.eqb (y_relay y) relayPeer in
      if bool_decide (is_Some (q_plan req)) && negb isPeerRelay then (ended sid "" transportFailed, dedup, None)
      else if negb (is_ok (verifyChainDisjoint (q_plan req) (y_tag y))) then (ended sid "" transportFailed, dedup, None)
      else if isPeerRelay && seen dedup (y_tag y) then (ended sid (y_exitID y) transportFailed, dedup, None)
      else
        let via := if isPeerRelay then y_tag y else "" in
        if rnd_dial r sid then (MkAttempt (Some sid) sid xid xpub (y_relay y) connectOK, dedup, Some via)
        else (ended sid xid transportFailed, if isPeerRelay then fail_tag dedup (y_tag y) else dedup, Some via)
  end.

(** [attemptWith]: its result, the relays that failed, the dial if there was one, and what
    it sent to the member at [raw]. *)
Definition attemptWith (c : Identity) (raw : string) (r : Round) (req : connectReq) (dedup : option (gset string))
    : attemptResult * option (gset string) * option string * list wire :=
  match newConnectNonce (rnd_nonce r) with
  | None => (ended "" "" transportFailed, dedup, None, [])
  | Some nonce =>
      let '(sent, fields, queue) := presentDeviceCredential c raw (rnd_first r) in
      let m := connect_wire req nonce (connectAdmissionCred c (bool_decide (is_Some fields))) (default no_fields fields) in
      let sent := sent ++ [m; m; m] in
      if rnd_handshake r then (ended "" "" coordinatorSilent, dedup, None, sent)
      else match awaitSession (queue ++ delivered (rnd_then r)) with
           | (_, pairSilent) =>
               (ended "" "" (if rnd_too_large r then requestTooLarge
                             else if existsb unroutable (rnd_first r ++ rnd_then r) then coordinatorUnroutable
                             else coordinatorSilent), dedup, None, sent)
           | (_, pairRefused) => (ended "" "" coordinatorRefused, dedup, None, sent)
           | (y, pairMinted) => (use_reply r req dedup y, sent)
           end
  end.
End Attempt.

(** ** One pass over the pool: [establish] *)

(** The client: its credentials, its configuration, the country and the build. *)
Record Engine `{Ed25519} := MkEngine {
  en_identity : Identity; en_cfg : RelayChain.Config; connectCountry : string; en_self : Version.Version;
}.

(** A member of the pool during a pass: whether the context or the engine ended before its
    turn, what happens in an attempt of each mode, the directory and the cooling hops
    then, and what the link knows of itself. *)
Inductive Stop := CtxDone | EngineStopped.
Record Member := MkMember {
  mb_raw : string; mb_stop : option Stop; mb_round : string -> Round;
  mb_dir : option relayDirectory; mb_cooling : string -> bool;
  mb_held : bool; mb_heard : bool; mb_relinks : bool;
}.

(** What a pass carries along: the relays that failed, the draws, the network's release;
    and a record of the attempts made, the peer relays dialed and what each member came to. *)
Record Pass := MkPass {
  ps_dedup : gset string; ps_rand : Rand; ps_net : NetVersion;
  ps_attempts : list (string * string); ps_dials : list string; ps_members : list (Member * connectOutcome);
}.

Record connPath := MkPath { cp_sess : string; cp_mode : string; cp_exitID : string; cp_exitPub : bytes; cp_accounted : bool }.

Definition reconnectModes (prefer : string) (allowDirect : bool) : list string :=
  if String.eqb prefer modeRelay then (if allowDirect then [modeRelay; modeDirect] else [modeRelay])
  else if allowDirect then [modeDirect; modeRelay] else [modeRelay].
Definition modesHaveDirect (modes : list string) : bool := existsb (String.eqb modeDirect) modes.

Section Establish.
Context `{Ed25519} (e : Engine).

Definition modeLadder (prefer : string) (allowDirect : bool) : list string :=
  reconnectModes prefer (allowDirect && negb (chaining (en_cfg e))).

(** [attempt] in one mode through one member. *)
Definition attempt (b : Member) (mode : string) (s : Pass) : attemptResult * Pass :=
  let r := mb_round b mode in
  let log := ps_attempts s ++ [(mb_raw b, mode)] in
  match chainFor (en_cfg e) (mb_dir b) (mb_cooling b) (String.eqb mode modeRelay) (connectCountry e) (ps_rand s) with
  | (Err _, rs) => (ended "" "" transportFailed, MkPass (ps_dedup s) rs (ps_net s) log (ps_dials s) (ps_members s))
  | (Ok plan, rs) =>
      let req := MkReq (connectCountry e) mode [] (fst <$> plan) in
      let '(a, dedup, dial, _) := attemptWith (en_identity e) (mb_raw b) r req (Some (ps_dedup s)) in
      (a, MkPass (default ∅ dedup) rs (observe_all (en_self e) (ps_net s) (rnd_first r ++ rnd_then r)) log
            (ps_dials s ++ option_list dial) (ps_members s))
  end.

Fixpoint connectVia (b : Member) (modes : list string) (outcome : connectOutcome) (s : Pass)
    : option connPath * connectOutcome * Pass :=
  match modes with
  | [] => (None, outcome, s)
  | mode :: modes =>
      let '(a, s) := attempt b mode s in
      match a_outcome a, a_sess a with
      | connectOK, Some sess =>
          (Some (MkPath sess mode (a_exitID a) (a_exitPub a) (String.eqb mode modeDirect || String.eqb (a_relay a) relayTURN)),
           connectOK, s)
      | o, _ => connectVia b modes (mergeOutcome outcome o) s
      end
  end.

(** [relinkIfStale]: whether the link was rebuilt. *)
Definition relinkIfStale (b : Member) : bool := mb_held b && negb (mb_heard b) && mb_relinks b.

Inductive ConnectError :=
  Stopped (s : Stop) | UpdateRequired | ErrCoordinatorLinkStale | ErrNoCoordinatorReachable
| ErrRequestTooLarge | ErrCoordinatorUnroutable | CouldNotConnect.

Record Flags := MkFlags { triedDirect : bool; allSilent : bool; is_unroutable : bool; tooLarge : bool; allStale : bool; anyStale : bool }.
Definition no_flags : Flags := MkFlags false true false false true false.

Definition verdict (f : Flags) : ConnectError :=
  if allSilent f then (if anyStale f && allStale f then ErrCoordinatorLinkStale else ErrNoCoordinatorReachable)
  else if tooLarge f then ErrRequestTooLarge
  else if is_unroutable f then ErrCoordinatorUnroutable
  else CouldNotConnect.

Definition note (f : Flags) (b : Member) (o : connectOutcome) : Flags :=
  match o with
  | coordinatorSilent =>
      if relinkIfStale b then MkFlags (triedDirect f) (allSilent f) (is_unroutable f) (tooLarge f) (allStale f) true
      else MkFlags (triedDirect f) (allSilent f) (is_unroutable f) (tooLarge f) false (anyStale f)
  | coordinatorUnroutable => MkFlags (triedDirect f) false true (tooLarge f) (allStale f) (anyStale f)
  | requestTooLarge => MkFlags (triedDirect f) false (is_unroutable f) true (allStale f) (anyStale f)
  | _ => MkFlags (triedDirect f) false (is_unroutable f) (tooLarge f) (allStale f) (anyStale f)
  end.
Definition direct_tried (f : Flags) (modes : list string) : Flags :=
  if modesHaveDirect modes then MkFlags true (allSilent f) (is_unroutable f) (tooLarge f) (allStale f) (anyStale f) else f.

(** The members marked unhealthy: the silent and the unroutable. *)
Definition unhealthy_outcome (o : connectOutcome) : bool :=
  match o with coordinatorSilent | coordinatorUnroutable => true | _ => false end.

(** The path, the members marked unhealthy and the sessions closed, and the pass. *)
Fixpoint establish_from (members : list Member) (prefer : string) (f : Flags) (s : Pass)
    : result ConnectError connPath * (list string * list string) * Pass :=
  match members with
  | [] => (Err (verdict f), ([], []), s)
  | b :: members =>
      match mb_stop b with
      | Some why => (Err (Stopped why), ([], []), s)
      | None =>
          if updateReq (ps_net s) then (Err UpdateRequired, ([], []), s)
          else
            let modes := modeLadder prefer (negb (triedDirect f)) in
            let f := direct_tried f modes in
            let '(path, outcome, s) := connectVia b modes coordinatorSilent s in
            let s := MkPass (ps_dedup s) (ps_rand s) (ps_net s) (ps_attempts s) (ps_dials s) (ps_members s ++ [(b, outcome)]) in
            if updateReq (ps_net s) then (Err UpdateRequired, ([], option_list (cp_sess <$> path)), s)
            else match path, outcome with
                 | Some p, connectOK => (Ok p, ([], []), s)
                 | _, _ =>
                     let '(r, (bad, closed), s) := establish_from members prefer (note f b outcome) s in
                     (r, ((if unhealthy_outcome outcome then [mb_raw b] else []) ++ bad, closed), s)
                 end
      end
  end.
Definition establish (members : list Member) (prefer : string) (rs : Rand) (n : NetVersion)
    : result ConnectError connPath * (list string * list string) * Pass :=
  establish_from members prefer no_flags (MkPass ∅ rs n [] [] []).
End Establish.

(** ** The country list *)

Definition Assignable (c : countryInfo) : bool := negb (CoordState.Busy c) && (0 <? Available c).

Inductive PickError := NoCountry | AllBusy (known : nat).
Definition pickCountry (configured : string) (countries : list countryInfo) : result PickError string :=
  if negb (String.eqb configured "") then Ok configured
  else match List.find Assignable countries with
       | Some c => Ok (ci_Country c)
       | None => match countries with [] => Err NoCountry | _ => Err (AllBusy (List.length countries)) end
       end.

Fixpoint awaitCountries (ms : list wire) : option (list countryInfo) :=
  match ms with
  | [] => None
  | m :: ms => if String.eqb (Type_ m) "countries" then Some (Countries m) else awaitCountries ms
  end.

(** A member while the list is asked for: [ls_answer] is what it sends. *)
Record Listing := MkListing {
  ls_raw : string; ls_stop : option Stop; ls_handshake : bool; ls_answer : list wire; ls_too_large : bool;
  ls_held : bool; ls_heard : bool; ls_relinks : bool;
}.

Fixpoint list_from (self : Version.Version) (members : list Listing) (f : Flags) (n : NetVersion)
    : result ConnectError (list countryInfo) * list string * NetVersion :=
  match members with
  | [] => (Err (if tooLarge f then ErrRequestTooLarge
                else if is_unroutable f then ErrCoordinatorUnroutable
                else if anyStale f && allStale f then ErrCoordinatorLinkStale
                else ErrNoCoordinatorReachable), [], n)
  | b :: members =>
      match ls_stop b with
      | Some why => (Err (Stopped why), [], n)
      | None =>
          if ls_handshake b then
            let '(r, bad, n) := list_from self members (MkFlags false true (is_unroutable f) (tooLarge f) false (anyStale f)) n in
            (r, ls_raw b :: bad, n)
          else
            let n := observe_all self n (ls_answer b) in
            match awaitCountries (delivered (ls_answer b)) with
            | Some cs => (if updateReq n then Err UpdateRequired else Ok cs, [], n)
            | None =>
                let u := is_unroutable f || existsb unroutable (ls_answer b) in
                if ls_too_large b then list_from self members (MkFlags false true u true (allStale f) (anyStale f)) n
                else
                  let stale := ls_held b && negb (ls_heard b) && ls_relinks b in
                  let '(r, bad, n) := list_from self members
                    (MkFlags false true u (tooLarge f) (allStale f && stale) (anyStale f || stale)) n in
                  (r, ls_raw b :: bad, n)
            end
      end
  end.
(** [ListCountries]: also the members marked unhealthy. [clientOn] is the client role. *)
Definition ListCountries (self : Version.Version) (members : list Listing) (n : NetVersion)
    : result ConnectError (list countryInfo) * list string * NetVersion := list_from self members no_flags n.

(** ** Keeping a path alive *)

Record Backoff := MkBackoff {
  reconnectBase : Duration; reconnectMax : Duration; reconnectHealthy : Duration;
  reconnectMaxAttempts : Z; meshRecoveryAfter : Z;
}.
Definition capDelay (d max : Duration) : Duration := if max <? d then max else d.

Record Mesh := MkMesh { meshPeers : list string; meshProof : bytes; meshPubKey : bytes }.
Definition meshRecoveryConfigured (m : Mesh) : bool :=
  (0 <? List.length (meshPeers m))%nat && (0 <? List.length (meshProof m))%nat && (List.length (meshPubKey m) =? 32)%nat.
Definition meshRecoveryPartial (m : Mesh) : bool :=
  ((0 <? List.length (meshPeers m))%nat || (0 <? List.length (meshProof m))%nat || (0 <? List.length (meshPubKey m))%nat)
  && negb (meshRecoveryConfigured m).

(** [reconnect]: pass [k] ends as [pass k], a walk of the mesh then finds new coordinators
    or not, and a wait is interrupted or not. Fuel is the attempts still allowed. The
    waits made and the passes after which the mesh was walked are recorded. *)
Inductive ReconnectError := ErrRecovering | GaveUp (attempts : Z) (last : ConnectError) | Interrupted | OutOfFuel.

Section Reconnect.
Context (o : Backoff) (mesh : bool) (pass : nat -> result ConnectError connPath) (walk : nat -> bool) (sleep : nat -> bool).

(** The streak of silent passes after one more, and whether the mesh is walked now. *)
Definition streak_after (streak : Z) (err : ConnectError) : Z * bool :=
  match err with
  | ErrCoordinatorLinkStale => (streak, false)
  | ErrNoCoordinatorReachable =>
      if mesh then if meshRecoveryAfter o <=? streak + 1 then (0, true) else (streak + 1, false) else (0, false)
  | _ => (0, false)
  end.

Fixpoint reconnect_from (fuel : nat) (k : nat) (delay : Duration) (streak : Z)
    : result ReconnectError connPath * list Duration * list nat :=
  match fuel with
  | O => (Err OutOfFuel, [], [])
  | S fuel =>
      match pass k with
      | Ok path => (Ok path, [], [])
      | Err err =>
          let '(streak, walks) := streak_after streak err in
          if walks && walk k then (Err ErrRecovering, [], [k])
          else
            let w := if walks then [k] else [] in
            if (0 <? reconnectMaxAttempts o) && (reconnectMaxAttempts o <=? Z.of_nat (S k))
            then (Err (GaveUp (Z.of_nat (S k)) err), [], w)
            else if negb (sleep k) then (Err Interrupted, [delay], w)
            else
              let '(r, ds, ws) := reconnect_from fuel (S k) (capDelay (wrapi64 (delay * 2)) (reconnectMax o)) streak in
              (r, delay :: ds, w ++ ws)
      end
  end.
Definition reconnect (fuel : nat) : result ReconnectError connPath * list Duration * list nat :=
  reconnect_from fuel 0 (reconnectBase o) 0.
End Reconnect.

(** The wait of [reconnectLoop] before it reconnects, for a path that was up for [up], and
    the delay kept for the next drop. *)
Definition flap (o : Backoff) (flapDelay : Duration) (up : Duration) : option Duration * Duration :=
  if reconnectHealthy o <=? up then (None, reconnectBase o)
  else (Some flapDelay, capDelay (wrapi64 (flapDelay * 2)) (reconnectMax o)).

(** ** Rediscovering coordinators *)

(** [dedupNonEmpty] of [coordpool.go]. *)
Definition dedupNonEmpty (l : list string) : list string :=
  keep_first ∅ (filter (fun s => s <> "") (map TrimSpace l)).

(** [sameCoordSet]: the counts of the first list, used up by the second. *)
Definition count_all (l : list string) : gmap string nat :=
  foldl (fun m s => <[s := S (default 0%nat (m !! s))]> m) ∅ l.
Fixpoint used_up (counts : gmap string nat) (l : list string) : bool :=
  match l with
  | [] => true
  | s :: l => match default 0%nat (counts !! s) with
              | O => false
              | S n => used_up (<[s := n]> counts) l
              end
  end.
Definition sameCoordSet (a b : list string) : bool := (List.length a =? List.length b)%nat && used_up (count_all a) b.

(** [MeshWalk]: the exchange with each peer is an argument, as is whether the walk was
    stopped before it. *)
Inductive WalkError := BadAnchor | NoProof | NoPeers | WalkStopped (s : Stop) | NoLiveDirectory.

Section MeshWalk.
Context `{Ed25519} `{JSON Snapshot} (stop : string -> option Stop) (net : string -> bytes -> option bytes)
  (tx : string -> txID) (now : string -> Time).

Fixpoint walk_peers (proof pub : bytes) (peers : list string) : result WalkError Result :=
  match peers with
  | [] => Err NoLiveDirectory
  | p :: peers =>
      match stop p with
      | Some why => Err (WalkStopped why)
      | None => match FetchSnapshot (net p) (tx p) proof pub (now p) with
                | Ok res => Ok res
                | Err _ => walk_peers proof pub peers
                end
      end
  end.
Definition MeshWalk (peers : list string) (proof pub : bytes) : result WalkError Result :=
  if negb (List.length pub =? 32)%nat then Err BadAnchor
  else if (List.length proof =? 0)%nat then Err NoProof
  else match dedupNonEmpty peers with
       | [] => Err NoPeers
       | peers => walk_peers proof pub peers
       end.

(** [tryMeshRecovery]: the coordinators and the snapshot handed to the rebuild, if any.
    [coordinators] are the configured ones. *)
Definition tryMeshRecovery (m : Mesh) (coordinators : list string) : option (list string * bytes) :=
  if negb (meshRecoveryConfigured m) then None
  else match MeshWalk (meshPeers m) (meshProof m) (meshPubKey m) with
       | Err _ => None
       | Ok res =>
           let fresh := AddrsForRole (res_Snapshot res) "coordinator" in
           if (List.length fresh =? 0)%nat || sameCoordSet fresh coordinators then None else Some (fresh, res_Signed res)
       end.
End MeshWalk.

(** ** The local SOCKS server *)

(** [io.ReadFull]: the bytes asked for and those after them. *)
Definition ReadFull (n : nat) (b : bytes) : option (bytes * bytes) :=
  if (List.length b <? n)%nat then None else Some (firstn n b, skipn n b).

(** [readSOCKSAddr]. The error of a short read of the host is not looked at, but the port
    that follows is then missing too. *)
Definition socks_host (atyp : Z) (c : bytes) : option (bytes * bytes) :=
  if atyp =? 1 then '(h, c) ← ReadFull 4 c; Some (ip_String h, c)
  else if atyp =? 3 then '(l, c) ← ReadFull 1 c; ReadFull (Z.to_nat (be_value l)) c
  else if atyp =? 4 then '(h, c) ← ReadFull 16 c; Some (ip_String h, c)
  else None.
Definition readSOCKSAddr (atyp : Z) (c : bytes) : option (string * bytes) :=
  '(host, c) ← socks_host atyp c;
  '(port, c) ← ReadFull 2 c;
  Some (string_of (JoinHostPort host (bytes_of (Itoa (be_value port)))), c).

(** [handleSocks]: what becomes of the bytes a local program sends. A connect goes on to
    [dialChainedStream] with its target. *)
Inductive SocksRequest := SocksClosed | SocksUnsupported | SocksConnect (target : string) | SocksAssociate (bound : string).
Definition handleSocks (c : bytes) : SocksRequest :=
  match ReadFull 2 c with
  | Some ([ver; n], c) =>
      if negb (octet ver =? 5) then SocksClosed
      else match ReadFull (Z.to_nat (octet n)) c with
           | None => SocksClosed
           | Some (_, c) =>
               match ReadFull 4 c with
               | Some ([_; cmd; _; atyp], c) =>
                   if octet cmd =? 1 then
                     match readSOCKSAddr (octet atyp) c with Some (t, _) => SocksConnect t | None => SocksClosed end
                   else if octet cmd =? 3 then
                     match readSOCKSAddr (octet atyp) c with Some (t, _) => SocksAssociate t | None => SocksClosed end
                   else SocksUnsupported
               | _ => SocksClosed
               end
           end
  | _ => SocksClosed
  end.

(** ** What a local program can ask for *)

Lemma index_byte_absent c s : c ∉ s -> index_byte c s = None.
Proof.
  induction s as [|d s IH]; intros Hn; [done|]. apply not_elem_of_cons in Hn as [Hd Hs]. cbn.
  rewrite bool_decide_eq_false_2 by congruence. by rewrite IH.
Qed.
Lemma SplitHostPort_no_colon s : colon ∉ bytes_of s -> SplitHostPort s = None.
Proof.
  intros Hn. unfold SplitHostPort, last_index_byte. rewrite (index_byte_absent colon (rev (bytes_of s))); [done|].
  rewrite list_elem_of_In, <-in_rev, <-list_elem_of_In. done.
Qed.

Lemma Itoa_no_colon z : colon ∉ bytes_of (Itoa z).
Proof.
  pose proof (free_of_Itoa colon z eq_refl) as Hf. revert Hf. generalize (Itoa z). intros s.
  induction s as [|c s IH]; cbn [free_of]; [by intros _ ?%not_elem_of_nil|]. intros [Hc Hf]%andb_true_iff.
  intros [<-|Hin]%elem_of_cons; [by rewrite Ascii.eqb_refl in Hc|by apply IH].
Qed.

(** A host and a port never spell a routing prefix with a valid address behind it. *)
Lemma joined_not_prefixed pre host z a :
  bytes_of pre = bytes_of (String.substring 0 3 pre) ++ [colon] -> bool_decide (colon ∈ bytes_of (String.substring 0 3 pre)) = false ->
  (forall b, bytes_of pre <> "["%char :: b) ->
  strip_prefix pre (string_of (JoinHostPort host (bytes_of (Itoa z)))) = Some a -> SplitHostPort a = None.
Proof.
  intros Hpre Hfree%bool_decide_eq_false Hbr Hs. apply strip_prefix_inv, (f_equal bytes_of) in Hs.
  rewrite bytes_of_string_of, bytes_of_app, Hpre in Hs. unfold JoinHostPort in Hs.
  case_bool_decide as Hc; [|rewrite <-app_assoc in Hs; apply app_sep_inj in Hs as [_ Hs]; [|done..]].
  - exfalso. destruct (bytes_of (String.substring 0 3 pre)) as [|x l] eqn:Hx; cbn in Hs; [discriminate Hs|].
    injection Hs as <- _. by eapply Hbr.
  - apply SplitHostPort_no_colon. rewrite <-Hs. apply Itoa_no_colon.
Qed.

(** Whatever bytes a local program sends to the SOCKS port, a stream it gets is to an
    address and never an instruction to the node at the other end: the target of a connect
    that the exit accepts as well-formed carries no forwarding or datagram prefix. *)
Theorem socks_target_is_an_address c t :
  handleSocks c = SocksConnect t -> validTarget t = true -> splitTargetPrefix t = ("", t).
Proof.
  intros Hs Hv. assert (exists host z, t = string_of (JoinHostPort host (bytes_of (Itoa z)))) as (host & z & Ht).
  { unfold handleSocks in Hs. repeat case_match; simplify_eq; unfold readSOCKSAddr in *;
      repeat match goal with H : mbind _ _ = Some _ |- _ => apply bind_Some in H as ([? ?] & ? & ?) end; simplify_eq; eauto. }
  unfold validTarget in Hv. destruct (_ || _); [discriminate|]. apply bool_decide_eq_true in Hv. unfold splitTargetPrefix in *.
  subst t. destruct (strip_prefix udpTargetPrefix _) as [a|] eqn:Hu; [|destruct (strip_prefix hopTargetPrefix _) as [a|] eqn:Hh; [|done]].
  - apply joined_not_prefixed in Hu; [|done|by vm_compute|by intros b [=]]. cbn [snd] in Hv. rewrite Hu in Hv. by destruct Hv.
  - apply joined_not_prefixed in Hh; [|done|by vm_compute|by intros b [=]]. cbn [snd] in Hv. rewrite Hh in Hv. by destruct Hv.
Qed.

(** A connect to the host "hop": its target reads as a prefix, and no exit takes it. *)
Definition socks_connect (host : string) (port : Z) : bytes :=
  [byte_of 5; byte_of 1; byte_of 0; byte_of 5; byte_of 1; byte_of 0; byte_of 3; byte_of (Z.of_nat (String.length host))]
    ++ bytes_of host ++ be_bytes 2 port.
Example hop_is_no_host : handleSocks (socks_connect "hop" 443) = SocksConnect "hop:443" /\ validTarget "hop:443" = false.
Proof. split; vm_compute; reflexivity. Qed.

Lemma socks_target_is_an_address_witness :
  handleSocks (socks_connect "example.org" 443) = SocksConnect "example.org:443" /\
  splitTargetPrefix "example.org:443" = ("", "example.org:443").
Proof.
  split; [vm_compute; reflexivity|].
  apply (socks_target_is_an_address (socks_connect "example.org" 443)); vm_compute; reflexivity.
Defined.

(** ** A pass and its verdict *)

Definition is_silent (o : connectOutcome) : bool := match o with coordinatorSilent => true | _ => false end.
Definition is_too_large (o : connectOutcome) : bool := match o with requestTooLarge => true | _ => false end.
Definition is_garbled (o : connectOutcome) : bool := match o with coordinatorUnroutable => true | _ => false end.

(** What a pass in which no member connected is to be reported as. *)
Definition judged (os : list (Member * connectOutcome)) : ConnectError :=
  if forallb is_silent os.*2 then
    (if existsb relinkIfStale os.*1 && forallb relinkIfStale os.*1 then ErrCoordinatorLinkStale else ErrNoCoordinatorReachable)
  else if existsb is_too_large os.*2 then ErrRequestTooLarge
  else if existsb is_garbled os.*2 then ErrCoordinatorUnroutable
  else CouldNotConnect.

Definition real (l : list string) : list string := filter (fun t => t <> "") l.
Definition directs (l : list (string * string)) : nat := List.length (filter (fun a => a.2 = modeDirect) l).

Lemma real_snoc l t : real (l ++ [t]) = if decide (t = "") then real l else real l ++ [t].
Proof. unfold real. rewrite filter_app, filter_cons. repeat destruct decide; cbn; rewrite ?app_nil_r; done. Qed.

(** The ends of an attempt. *)
Ltac settle :=
  cbn; split_and!; try done; try (by split; [|intros []]); try (by left); try (by right); try (by left; left);
  repeat case_decide; try done; try (by left; split); try (by right; split).

Lemma use_reply_dial r req d y a d' dial :
  use_reply r req (Some d) y = (a, d', dial) ->
  (a_outcome a = connectOK <-> is_Some (a_sess a)) /\ a_outcome a <> coordinatorSilent /\
  match dial with
  | None => d' = Some d /\ a_outcome a <> connectOK
  | Some via => (via = "" \/ via ∉ d) /\
      (a_outcome a = connectOK /\ d' = Some d \/
       a_outcome a <> connectOK /\ d' = Some (if decide (via = "") then d else {[via]} ∪ d))
  end.
Proof.
  unfold use_reply, ended.
  destruct (match q_plan req with Some _ => _ | None => _ end) as [[xid xpub]|]; [|intros [= <- <- <-]; settle].
  destruct (_ && negb _); [intros [= <- <- <-]; settle|]. destruct (negb (is_ok _)); [intros [= <- <- <-]; settle|].
  destruct (String.eqb (y_relay y) relayPeer); cbn [andb]; [|destruct (rnd_dial r (y_sid y)); intros [= <- <- <-]; settle].
  unfold seen. destruct (String.eqb_spec (y_tag y) "") as [->|Hne]; cbn [negb andb].
  - destruct (rnd_dial r (y_sid y)); intros [= <- <- <-]; settle.
  - case_bool_decide as Hd; [intros [= <- <- <-]; settle|].
    unfold fail_tag. rewrite (proj2 (String.eqb_neq _ _) Hne).
    destruct (rnd_dial r (y_sid y)); intros [= <- <- <-]; settle.
Qed.

Section PassProofs.
Context `{Ed25519} (e : Engine).

Lemma attemptWith_dial c raw r req d a d' dial sent :
  attemptWith c raw r req (Some d) = (a, d', dial, sent) ->
  (a_outcome a = connectOK <-> is_Some (a_sess a)) /\
  match dial with
  | None => d' = Some d /\ a_outcome a <> connectOK
  | Some via => (via = "" \/ via ∉ d) /\
      (a_outcome a = connectOK /\ d' = Some d \/
       a_outcome a <> connectOK /\ d' = Some (if decide (via = "") then d else {[via]} ∪ d))
  end.
Proof.
  unfold attemptWith. destruct (newConnectNonce _); [|intros [= <- <- <- <-]; settle].
  destruct (presentDeviceCredential _ _ _) as [[sent0 fields] queue].
  destruct (rnd_handshake r); [intros [= <- <- <- <-]; settle|].
  destruct (awaitSession _) as [y []].
  - intros Hu. injection Hu as Hu _. by apply use_reply_dial in Hu as (? & _ & ?).
  - intros [= <- <- <- <-]; settle.
  - intros [= <- <- <- <-]. cbn. repeat case_match; settle.
Qed.

(** Every peer relay that was dialed is remembered, and none was dialed twice. *)
Definition remembered (s : Pass) : Prop := forall t, t ∈ ps_dials s -> t <> "" -> t ∈ ps_dedup s.

Lemma attempt_spec b mode s a s' :
  attempt e b mode s = (a, s') -> remembered s -> NoDup (real (ps_dials s)) ->
  (a_outcome a = connectOK <-> is_Some (a_sess a)) /\ ps_members s' = ps_members s /\
  ps_attempts s' = ps_attempts s ++ [(mb_raw b, mode)] /\ NoDup (real (ps_dials s')) /\
  (a_outcome a <> connectOK -> remembered s').
Proof.
  unfold attempt. destruct (chainFor _ _ _ _ _ _) as [[plan|err] rs]; [|intros [= <- <-] Hr Hn; settle; intros _; done].
  destruct (attemptWith _ _ _ _ _) as [[[a0 d'] dial] sent] eqn:Ha. intros [= <- <-] Hr Hn. cbn.
  apply attemptWith_dial in Ha as [Hok Hd]. split_and!; try done.
  - destruct dial as [via|]; cbn; [|by rewrite app_nil_r]. destruct Hd as [Hv _]. rewrite real_snoc.
    destruct (decide (via = "")) as [|Hne]; [done|]. destruct Hv as [|Hv]; [done|]. apply NoDup_app. split_and!; [done| |apply NoDup_singleton].
    intros t [Ht Hin]%list_elem_of_filter ->%list_elem_of_singleton. apply Hv. by apply Hr.
  - intros Hnot t. cbn. destruct dial as [via|]; cbn.
    + destruct Hd as [_ [[Hd _]|[_ ->]]]; [done|]. intros [Ht| ->%list_elem_of_singleton]%elem_of_app Hne; cbn.
      * specialize (Hr t Ht Hne). destruct (decide _); [done|]. set_solver.
      * destruct (decide _); [done|]. set_solver.
    + destruct Hd as [-> _]. rewrite app_nil_r. cbn. apply Hr.
Qed.

Lemma mergeOutcome_failed a b : a <> connectOK -> b <> connectOK -> mergeOutcome a b <> connectOK.
Proof. unfold mergeOutcome. by destruct (_ <? _)%nat. Qed.

(** The ladder of one member: it connects or comes to an outcome, having tried a first
    part of its modes. *)
Lemma connectVia_spec b modes o s p o' s' :
  connectVia e b modes o s = (p, o', s') -> o <> connectOK -> remembered s -> NoDup (real (ps_dials s)) ->
  (o' = connectOK <-> is_Some p) /\ ps_members s' = ps_members s /\
  (exists tried, tried `prefix_of` modes /\ (p = None -> tried = modes) /\ ps_attempts s' = ps_attempts s ++ ((mb_raw b,.) <$> tried)) /\
  NoDup (real (ps_dials s')) /\ (p = None -> remembered s').
Proof.
  revert o s. induction modes as [|mode modes IH]; intros o s; cbn [connectVia].
  - intros [= <- <- <-] Ho Hr Hn. split_and!; try done; try (by split; [|intros []]).
    exists []. split_and!; [apply prefix_nil|done|]. by rewrite app_nil_r.
  - destruct (attempt e b mode s) as [a s1] eqn:Ha. intros Hc Ho Hr Hn.
    destruct (attempt_spec _ _ _ _ _ Ha Hr Hn) as (Hok & Hm & Hat & Hnd & Hrem).
    assert (forall o1, a_outcome a = o1 -> o1 <> connectOK -> connectVia e b modes (mergeOutcome o o1) s1 = (p, o', s') ->
      (o' = connectOK <-> is_Some p) /\ ps_members s' = ps_members s /\
      (exists tried, tried `prefix_of` mode :: modes /\ (p = None -> tried = mode :: modes) /\ ps_attempts s' = ps_attempts s ++ ((mb_raw b,.) <$> tried)) /\
      NoDup (real (ps_dials s')) /\ (p = None -> remembered s')) as Hgo.
    { intros o1 Ho1 Hne Hc'. subst o1. apply IH in Hc' as (H1 & H2 & (tried & Ht & Hall & H3) & H4 & H5);
        [|by apply mergeOutcome_failed|by apply Hrem|done].
      split_and!; try done; [congruence|]. exists (mode :: tried). split_and!; [by apply prefix_cons|by intros ->%Hall|].
      rewrite H3, Hat, <-app_assoc. done. }
    destruct (a_outcome a) eqn:Hout; [|by apply (Hgo _ eq_refl ltac:(congruence) Hc)..].
    destruct (a_sess a) as [sess|]; [|by destruct (proj1 Hok eq_refl)]. injection Hc as <- <- <-.
    split_and!; try done. exists [mode]. split_and!; [by apply prefix_cons, prefix_nil|done|done].
Qed.

Lemma directs_app l1 l2 : directs (l1 ++ l2) = (directs l1 + directs l2)%nat.
Proof. unfold directs. by rewrite filter_app, length_app. Qed.

Lemma ladder_directs prefer allow raw tried :
  tried `prefix_of` modeLadder e prefer allow ->
  (directs ((raw,.) <$> tried) <= if modesHaveDirect (modeLadder e prefer allow) then 1 else 0)%nat /\
  (modesHaveDirect (modeLadder e prefer allow) = true -> allow = true /\ chaining (en_cfg e) = false).
Proof.
  intros [rest Hp]. split.
  - trans (directs ((raw,.) <$> modeLadder e prefer allow)); [rewrite Hp, fmap_app, directs_app; lia|].
    unfold modeLadder, reconnectModes. destruct (String.eqb prefer modeRelay), (allow && _); vm_compute; lia.
  - unfold modeLadder, reconnectModes. destruct allow, (chaining (en_cfg e)), (String.eqb prefer modeRelay); by cbn.
Qed.

Record Track (f : Flags) (s : Pass) : Prop := {
  k_rem : remembered s; k_dials : NoDup (real (ps_dials s));
  k_direct : (directs (ps_attempts s) <= if triedDirect f then 1 else 0)%nat;
  k_chain : chaining (en_cfg e) = true -> directs (ps_attempts s) = 0%nat;
  k_none : Forall (fun o => o <> connectOK) (ps_members s).*2;
  k_silent : allSilent f = forallb is_silent (ps_members s).*2;
  k_large : tooLarge f = existsb is_too_large (ps_members s).*2;
  k_garbled : is_unroutable f = existsb is_garbled (ps_members s).*2;
  k_stale : allSilent f = true -> anyStale f = existsb relinkIfStale (ps_members s).*1 /\
                                  allStale f = forallb relinkIfStale (ps_members s).*1;
}.

Lemma verdict_judged f s : Track f s -> verdict f = judged (ps_members s).
Proof.
  intros HT. unfold verdict, judged. rewrite <-(k_silent _ _ HT), <-(k_large _ _ HT), <-(k_garbled _ _ HT).
  destruct (allSilent f) eqn:Hs; [|done]. by destruct (k_stale _ _ HT Hs) as [-> ->].
Qed.

(** One member that did not connect. *)
Definition add_member (s : Pass) (b : Member) (o : connectOutcome) : Pass :=
  MkPass (ps_dedup s) (ps_rand s) (ps_net s) (ps_attempts s) (ps_dials s) (ps_members s ++ [(b, o)]).

Lemma track_note f s b prefer p o s' :
  Track f s -> connectVia e b (modeLadder e prefer (negb (triedDirect f))) coordinatorSilent s = (p, o, s') ->
  NoDup (real (ps_dials s')) /\ (directs (ps_attempts s') <= 1)%nat /\
  (chaining (en_cfg e) = true -> directs (ps_attempts s') = 0%nat) /\ (o = connectOK <-> is_Some p) /\
  ps_members s' = ps_members s /\
  (o <> connectOK -> Track (note (direct_tried f (modeLadder e prefer (negb (triedDirect f)))) b o) (add_member s' b o)).
Proof.
  intros HT Hc. set (modes := modeLadder _ _ _) in *.
  apply connectVia_spec in Hc as (Hok & Hm & (tried & Ht & _ & Ha) & Hnd & Hrem); [|done|apply HT|apply HT].
  apply (ladder_directs _ _ (mb_raw b)) in Ht as [Hd Hhas]. fold modes in Hd, Hhas.
  assert (directs (ps_attempts s') <= if triedDirect (direct_tried f modes) then 1 else 0)%nat as Hdir.
  { rewrite Ha, directs_app. pose proof (k_direct _ _ HT). unfold direct_tried.
    destruct (modesHaveDirect modes); [destruct (Hhas eq_refl) as [Hn _]; destruct (triedDirect f); cbn in *; [done|lia]|lia]. }
  assert (chaining (en_cfg e) = true -> directs (ps_attempts s') = 0%nat) as Hch.
  { intros Hch. rewrite Ha, directs_app, (k_chain _ _ HT Hch).
    destruct (modesHaveDirect modes); [destruct (Hhas eq_refl); congruence|lia]. }
  split_and!; try done; [destruct (triedDirect (direct_tried f modes)); lia|].
  intros Ho. assert (p = None) as -> by (destruct p; [|done]; exfalso; apply Ho, Hok; eauto).
  assert (triedDirect (note (direct_tried f modes) b o) = triedDirect (direct_tried f modes) /\
    allSilent (direct_tried f modes) = allSilent f /\ tooLarge (direct_tried f modes) = tooLarge f /\
    is_unroutable (direct_tried f modes) = is_unroutable f /\ anyStale (direct_tried f modes) = anyStale f /\
    allStale (direct_tried f modes) = allStale f) as (Et & Es & El & Eu & Ey & Eall).
  { unfold note, direct_tried. by destruct o, (relinkIfStale b), (modesHaveDirect modes). }
  pose proof (k_silent _ _ HT) as Hs. pose proof (k_large _ _ HT) as Hl. pose proof (k_garbled _ _ HT) as Hg.
  pose proof (k_stale _ _ HT) as Hst. pose proof (k_none _ _ HT) as Hno.
  split; unfold add_member; cbn [ps_attempts ps_dials ps_dedup ps_members]; rewrite ?Hm, ?fmap_app, ?forallb_app, ?existsb_app.
  - by apply Hrem.
  - done.
  - by rewrite Et.
  - done.
  - apply Forall_app. split; [done|by repeat constructor].
  - rewrite <-Hs, <-Es. unfold note. destruct o, (relinkIfStale b); cbn; by rewrite ?andb_true_r, ?andb_false_r.
  - rewrite <-Hl, <-El. unfold note. destruct o, (relinkIfStale b); cbn; by rewrite ?orb_true_r, ?orb_false_r.
  - rewrite <-Hg, <-Eu. unfold note. destruct o, (relinkIfStale b); cbn; by rewrite ?orb_true_r, ?orb_false_r.
  - unfold note. destruct o; cbn; try done. destruct (relinkIfStale b) eqn:Hb; cbn; rewrite Es; intros Hall;
      destruct (Hst Hall) as [<- <-]; cbn; rewrite ?Hb, ?Ey, ?Eall; by rewrite ?andb_true_r, ?andb_false_r, ?orb_true_r, ?orb_false_r.
Qed.

Definition marked (os : list (Member * connectOutcome)) : list string :=
  (fun x => mb_raw x.1) <$> filter (fun x => unhealthy_outcome x.2) os.

Lemma marked_cons b o os : marked ((b, o) :: os) = (if unhealthy_outcome o then [mb_raw b] else []) ++ marked os.
Proof. unfold marked. rewrite filter_cons. cbn [snd]. destruct (unhealthy_outcome o), decide; done. Qed.

(** What a pass comes to, whatever it started from. [before] is the members done so far. *)
Record Verdict (members : list Member) (before : list (Member * connectOutcome))
    (res : result ConnectError connPath) (bad closed : list string) (s : Pass) : Prop := {
  v_direct : (directs (ps_attempts s) <= 1)%nat;
  v_chain : chaining (en_cfg e) = true -> directs (ps_attempts s) = 0%nat;
  v_dials : NoDup (real (ps_dials s));
  v_result : exists os, ps_members s = before ++ os /\
    match res with
    | Ok p => closed = [] /\ updateReq (ps_net s) = false /\
        exists os' b, os = os' ++ [(b, connectOK)] /\ os.*1 `prefix_of` members /\
          Forall (fun o => o <> connectOK) os'.*2 /\ bad = marked os'
    | Err UpdateRequired => updateReq (ps_net s) = true
    | Err (Stopped why) => exists b rest, members = os.*1 ++ b :: rest /\ mb_stop b = Some why
    | Err err => os.*1 = members /\ Forall (fun o => o <> connectOK) os.*2 /\ err = judged (before ++ os) /\
        bad = marked os /\ closed = []
    end;
}.

Lemma establish_from_verdict members prefer f s res bad closed s' :
  establish_from e members prefer f s = (res, (bad, closed), s') -> Track f s ->
  Verdict members (ps_members s) res bad closed s'.
Proof.
  revert f s bad res s'. induction members as [|b members IH]; intros f s bad res s'; cbn [establish_from].
  - intros [= <- <- <- <-] HT. assert (directs (ps_attempts s) <= 1)%nat by (pose proof (k_direct _ _ HT); destruct (triedDirect f); lia).
    split; [done|apply HT|apply HT|]. exists []. rewrite app_nil_r. split; [done|].
    rewrite (verdict_judged _ _ HT). unfold judged. by repeat case_match.
  - intros Hres HT. assert (directs (ps_attempts s) <= 1)%nat by (pose proof (k_direct _ _ HT); destruct (triedDirect f); lia).
    destruct (mb_stop b) as [why|] eqn:Hstop.
    { injection Hres as <- <- <- <-. split; [done|apply HT|apply HT|]. exists []. rewrite app_nil_r. split; [done|]. by exists b, members. }
    destruct (updateReq (ps_net s)) eqn:Hup.
    { injection Hres as <- <- <- <-. split; [done|apply HT|apply HT|]. exists []. by rewrite app_nil_r. }
    destruct (connectVia e b _ coordinatorSilent s) as [[p o] s1] eqn:Hc.
    destruct (track_note _ _ _ _ _ _ _ HT Hc) as (Hnd & Hdir & Hch & Hok & Hm & Hnote). cbn [ps_net] in Hres.
    fold (add_member s1 b o) in Hres.
    destruct (updateReq (ps_net s1)) eqn:Hup1.
    { injection Hres as <- <- <- <-. split; [done|done|done|]. exists [(b, o)]. cbn. by rewrite Hm. }
    assert (o <> connectOK -> forall res bad1 s2, establish_from e members prefer
        (note (direct_tried f (modeLadder e prefer (negb (triedDirect f)))) b o) (add_member s1 b o) = (res, (bad1, closed), s2) ->
      Verdict (b :: members) (ps_members s) res ((if unhealthy_outcome o then [mb_raw b] else []) ++ bad1) closed s2) as Hgo.
    { intros Ho res1 bad1 s2 H2. apply IH in H2; [|by apply Hnote]. destruct H2 as [Vd Vc Vn (os & Hos & Vr)].
      split; [done..|]. exists ((b, o) :: os). cbn [add_member ps_members] in Hos. rewrite Hm, <-app_assoc in Hos. split; [done|].
      pose proof (marked_cons b o) as Hmk.
      destruct res1 as [path|[why| | | | | | ]]; try done.
      { destruct Vr as (-> & ? & os' & b' & -> & Hp & Hf & ->). split_and!; try done. exists ((b, o) :: os'), b'.
        split_and!; [done|by apply prefix_cons|by constructor|by rewrite Hmk]. }
      { destruct Vr as (b' & rest & -> & Hw). by exists b', rest. }
      all: destruct Vr as (<- & Hf & He & -> & ->); cbn [add_member ps_members] in He; rewrite Hm, <-app_assoc in He.
      all: split_and!; try done; by constructor. }
    destruct p as [path|].
    + assert (o = connectOK) as -> by (apply Hok; eauto). injection Hres as <- <- <- <-. split; [done..|].
      exists [(b, connectOK)]. cbn. rewrite Hm. split_and!; try done. exists [], b. split_and!; try done.
      by apply prefix_cons, prefix_nil.
    + assert (o <> connectOK) as Ho by (intros Ho; by destruct (proj1 Hok Ho)).
      destruct (establish_from e members prefer _ _) as [[r [bad1 closed1]] s2] eqn:H2.
      injection Hres as <- <- <- <-. by apply Hgo.
Qed.

(** A member that stayed silent in an attempt: the shaped handshake failed, so that nothing
    was sent to it, or the socket took the request, the member sent nothing the client
    cannot route, and no session and no error after its challenge, if it was asked for
    one, or at all. A reject is none of these. *)
Definition quiet (c : Identity) (raw : string) (r : Round) : Prop :=
  rnd_handshake r = true \/
  rnd_too_large r = false /\ (forall m, m ∈ rnd_first r ++ rnd_then r -> unroutable m = false) /\
  (forall m, m ∈ (presentDeviceCredential c raw (rnd_first r)).2 ++ rnd_then r -> Type_ m <> "session" /\ Type_ m <> "error").

Lemma awaitSession_silent ms y : awaitSession ms = (y, pairSilent) -> forall m, m ∈ ms -> Type_ m <> "session" /\ Type_ m <> "error".
Proof.
  induction ms as [|x ms IH]; cbn [awaitSession]; [by intros _ m ?%not_elem_of_nil|].
  destruct (String.eqb_spec (Type_ x) "session"), (String.eqb_spec (Type_ x) "error"); try done.
  intros Hs m [->|Hm]%elem_of_cons; [done|by apply IH].
Qed.

Lemma attemptWith_silent c raw r req d a d' dial sent :
  attemptWith c raw r req (Some d) = (a, d', dial, sent) -> a_outcome a = coordinatorSilent -> quiet c raw r.
Proof.
  unfold attemptWith, quiet. destruct (newConnectNonce _); [|by intros [= <- <- <- <-]].
  destruct (presentDeviceCredential _ _ _) as [[sent0 fields] queue]. cbn [snd].
  destruct (rnd_handshake r) eqn:Hh; [by left|]. destruct (awaitSession _) as [y []] eqn:Hw; [| |].
  - intros Hu. injection Hu as Hu _. by apply use_reply_dial in Hu as (_ & ? & _).
  - by intros [= <- <- <- <-].
  - intros [= <- <- <- <-]. cbn. destruct (rnd_too_large r) eqn:Hl; [done|].
    destruct (existsb unroutable _) eqn:Hu; [done|]. intros _. right. split_and!; [done| |].
    + intros m Hm. destruct (unroutable m) eqn:Hum; [|done]. assert (existsb unroutable (rnd_first r ++ rnd_then r) = true); [|congruence].
      apply existsb_exists. exists m. by rewrite <-list_elem_of_In.
    + intros m [Hm|Hm]%elem_of_app; [by apply (awaitSession_silent _ _ Hw), elem_of_app; left|]. destruct (to_client m) eqn:Ht.
      * apply (awaitSession_silent _ _ Hw), elem_of_app. right. apply list_elem_of_filter. by rewrite Is_true_true.
      * unfold to_client, routed in Ht. split; intros Heq; rewrite Heq in Ht; discriminate Ht.
Qed.

Definition member_quiet (b : Member) (mode : string) : Prop := quiet (en_identity e) (mb_raw b) (mb_round b mode).

Lemma attempt_silent b mode s a s' : attempt e b mode s = (a, s') -> a_outcome a = coordinatorSilent -> member_quiet b mode.
Proof.
  unfold attempt. destruct (chainFor _ _ _ _ _ _) as [[plan|err] rs]; [|by intros [= <- <-]].
  destruct (attemptWith _ _ _ _ _) as [[[a0 d'] dial] sent] eqn:Ha. intros [= <- <-]. by eapply attemptWith_silent.
Qed.

Lemma merge_silent a b : mergeOutcome a b = coordinatorSilent -> a <> connectOK -> b <> connectOK -> a = coordinatorSilent /\ b = coordinatorSilent.
Proof. by destruct a, b. Qed.

Lemma connectVia_silent b modes o s p s' :
  connectVia e b modes o s = (p, coordinatorSilent, s') -> o <> connectOK -> remembered s -> NoDup (real (ps_dials s)) ->
  o = coordinatorSilent /\ Forall (member_quiet b) modes.
Proof.
  revert o s. induction modes as [|mode modes IH]; intros o s; cbn [connectVia].
  - by intros [= <- -> <-] _ _ _.
  - destruct (attempt e b mode s) as [a s1] eqn:Ha. intros Hc Ho Hr Hn.
    destruct (attempt_spec _ _ _ _ _ Ha Hr Hn) as (Hok & _ & _ & Hnd & Hrem).
    assert (a_outcome a <> connectOK) as Hne.
    { intros He. rewrite He in Hc. destruct (a_sess a) eqn:Hs; [done|]. by destruct (proj1 Hok He). }
    assert (connectVia e b modes (mergeOutcome o (a_outcome a)) s1 = (p, coordinatorSilent, s')) as Hc' by (by destruct (a_outcome a)).
    apply IH in Hc' as [Hmg Hq]; [|by apply mergeOutcome_failed|by apply Hrem|done].
    apply merge_silent in Hmg as [-> Hs]; [|done..].
    split; [done|]. constructor; [by eapply attempt_silent|done].
Qed.

(** The members of a pass, one by one: the modes each was tried in, which together are the
    attempts of the pass, and how a silent one came to be. The direct mode is for the first
    member only. *)
Definition accounted_for (prefer : string) (s : Pass) : Prop := exists tried : list (list string),
  ps_attempts s = List.concat (zip_with (fun x (ms : list string) => (mb_raw x.1,.) <$> ms) (ps_members s) tried) /\
  List.length tried = List.length (ps_members s) /\
  forall k x ms, ps_members s !! k = Some x -> tried !! k = Some ms -> x.2 = coordinatorSilent ->
    ms = modeLadder e prefer (bool_decide (k = 0%nat)) /\ Forall (member_quiet x.1) ms.

(** Direct is offered as long as no member has been tried, and then no more. *)
Definition offered (f : Flags) (s : Pass) : Prop :=
  chaining (en_cfg e) = true \/ triedDirect f = negb (bool_decide (List.length (ps_members s) = 0%nat)).
Lemma offered_ladder f s prefer : offered f s ->
  modeLadder e prefer (negb (triedDirect f)) = modeLadder e prefer (bool_decide (List.length (ps_members s) = 0%nat)).
Proof. unfold modeLadder. intros [->| ->]; [by rewrite !andb_false_r|by rewrite negb_involutive]. Qed.
Lemma offered_note f s s' b o prefer : offered f s -> ps_members s' = ps_members s ->
  offered (note (direct_tried f (modeLadder e prefer (negb (triedDirect f)))) b o) (add_member s' b o).
Proof.
  unfold offered. intros Hf Hm. destruct (chaining (en_cfg e)) eqn:Hc; [by left|right]. destruct Hf as [?|Hf]; [done|].
  cbn [add_member ps_members]. rewrite bool_decide_false by (rewrite Hm, length_app; cbn; lia).
  unfold direct_tried, modeLadder, reconnectModes. rewrite Hc, andb_true_r.
  destruct (triedDirect f) eqn:Ht, (String.eqb prefer modeRelay), o, (relinkIfStale b) eqn:Hr; unfold note; rewrite ?Hr; cbn; done.
Qed.

Lemma accounted_member f s b prefer p o s' :
  Track f s -> offered f s -> accounted_for prefer s -> connectVia e b (modeLadder e prefer (negb (triedDirect f))) coordinatorSilent s = (p, o, s') ->
  accounted_for prefer (add_member s' b o).
Proof.
  intros HT Hf (tried & Ha & Hl & Hall) Hc. pose proof Hc as Hs.
  apply connectVia_spec in Hc as (Hok & Hm & (ms & _ & Hms & Hat) & _); [|done|apply HT|apply HT].
  exists (tried ++ [ms]). unfold add_member. cbn [ps_attempts ps_members]. rewrite Hm, Hat, Ha, !length_app, Hl. split_and!; [|done|].
  - rewrite zip_with_app by done. rewrite List.concat_app. cbn. by rewrite app_nil_r.
  - intros k x msk [[Hk Hx]|[-> [= <-]]]%lookup_snoc_Some Ht Hsil.
    + apply lookup_snoc_Some in Ht as [[_ Ht]|[-> _]]; [exact (Hall k x msk Hx Ht Hsil)|lia].
    + rewrite <-Hl, list_lookup_middle in Ht by done. injection Ht as <-. cbn in Hsil. subst o.
      assert (p = None) as Hp by (destruct p as [q|]; [|done]; pose proof (proj2 Hok (ex_intro _ q eq_refl)); congruence). rewrite (Hms Hp).
      split; [by apply offered_ladder|]. eapply connectVia_silent; [exact Hs|done|apply HT|apply HT].
Qed.

Lemma establish_accounts members prefer f s res out s' :
  establish_from e members prefer f s = (res, out, s') -> Track f s -> offered f s -> accounted_for prefer s -> accounted_for prefer s'.
Proof.
  revert f s res out s'. induction members as [|b members IH]; intros f s res out s'; cbn [establish_from].
  - by intros [= <- <- <-].
  - intros Hres HT Hf Hacc. destruct (mb_stop b); [by injection Hres as <- <- <-|].
    destruct (updateReq (ps_net s)); [by injection Hres as <- <- <-|].
    destruct (connectVia e b _ coordinatorSilent s) as [[p o] s1] eqn:Hc.
    destruct (track_note _ _ _ _ _ _ _ HT Hc) as (_ & _ & _ & Hok & Hm & Hnote).
    pose proof (accounted_member _ _ _ _ _ _ _ HT Hf Hacc Hc) as Hnew. pose proof (offered_note f s s1 b o prefer Hf Hm) as Hfn.
    cbn [ps_net] in Hres. fold (add_member s1 b o) in Hres.
    destruct (updateReq (ps_net s1)); [by injection Hres as <- <- <-|].
    destruct p as [path|].
    + assert (o = connectOK) as -> by (apply Hok; eauto). by injection Hres as <- <- <-.
    + assert (o <> connectOK) as Ho by (intros Ho; by destruct (proj1 Hok Ho)).
      destruct (establish_from e members prefer _ _) as [[r [bad1 closed1]] s2] eqn:H2. injection Hres as <- <- <-.
      eapply IH in H2; [exact H2|by apply Hnote|exact Hfn|exact Hnew].
Qed.

Lemma track_start rs n : Track no_flags (MkPass ∅ rs n [] [] []).
Proof. split; cbn; try done; try constructor. by intros t ?%not_elem_of_nil. Qed.
End PassProofs.

(** C20: A pass over the coordinators reports what happened. It offers the direct mode at
    most once, and never when chaining, and never dials a peer relay that already failed in
    the pass; it ends at the first member that connects, or when stopped, or when the
    network demands an update; and otherwise it has tried every member, its error follows
    from their outcomes alone, and exactly the silent and the unroutable are marked
    unhealthy. A member is silent only if it was tried in its whole ladder of modes, the
    direct one included for the first member unless chaining, and in
    each of these attempts the shaped handshake with it failed, so that nothing was sent,
    or it sent nothing the client cannot route and, once it had been asked, no session and
    no error. *)
Theorem establish_verdict `{Ed25519} e members prefer rs n res bad closed s :
  establish e members prefer rs n = (res, (bad, closed), s) ->
  Verdict e members [] res bad closed s /\ accounted_for e prefer s.
Proof.
  intros He. split; [by apply (establish_from_verdict e _ _ _ _ _ _ _ _ He), track_start|].
  eapply establish_accounts; [exact He|apply track_start|by right|]. by exists [].
Qed.

(** ** Reconnecting *)

Section ReconnectProofs.
Context (o : Backoff) (mesh : bool) (pass : nat -> result ConnectError connPath) (walk : nat -> bool) (sleep : nat -> bool).

Definition silent_pass (k : nat) : bool := match pass k with Err ErrNoCoordinatorReachable => true | _ => false end.
Definition stale_pass (k : nat) : bool := match pass k with Err ErrCoordinatorLinkStale => true | _ => false end.
(** The silent passes from [i] on, [n] passes in all. *)
Definition silents (i n : nat) : nat := List.length (filter (fun k => silent_pass k) (seq i n)).
(** The passes from [i] to before [k] were all silent or stale, and [c] of them silent. *)
Definition streak_of (i k : nat) (c : Z) : Prop :=
  (i <= k)%nat /\ (forall j, (i <= j < k)%nat -> silent_pass j = true \/ stale_pass j = true) /\ c = Z.of_nat (silents i (k - i)).

Lemma silents_snoc i n : silents i (S n) = (silents i n + if silent_pass (i + n) then 1 else 0)%nat.
Proof.
  unfold silents. rewrite seq_S, filter_app, length_app, filter_cons. f_equal. destruct (silent_pass (i + n)); by cbn.
Qed.
Lemma streak_next i k c :
  streak_of i k c -> silent_pass k = true \/ stale_pass k = true -> streak_of i (S k) (c + if silent_pass k then 1 else 0).
Proof.
  intros (Hi & Hall & ->) Hk. split_and!; [lia| |].
  - intros j Hj. destruct (decide (j = k)) as [->|]; [done|]. apply Hall. lia.
  - replace (S k - i)%nat with (S (k - i)) by lia. rewrite silents_snoc. replace (i + (k - i))%nat with k by lia.
    destruct (silent_pass k); lia.
Qed.
Lemma streak_none k : streak_of k k 0.
Proof. split_and!; [lia|intros j Hj; lia|by rewrite Nat.sub_diag]. Qed.

(** The [n]-th wait of a sequence that starts at [d]. *)
Definition nth_delay (d : Duration) (n : nat) : Duration := Z.min (d * 2 ^ Z.of_nat n) (reconnectMax o).

Lemma delay_next d n : 0 < d <= reconnectMax o -> 2 * reconnectMax o <= i64max ->
  nth_delay (capDelay (wrapi64 (d * 2)) (reconnectMax o)) n = nth_delay d (S n).
Proof.
  intros Hd Hm. unfold nth_delay, capDelay. assert (wrapi64 (d * 2) = d * 2) as ->.
  { unfold wrapi64, i64max in *. rewrite Z.mod_small; lia. }
  rewrite Nat2Z.inj_succ, Z.pow_succ_r by lia. assert (0 < 2 ^ Z.of_nat n) by (apply Z.pow_pos_nonneg; lia).
  destruct (Z.ltb_spec (reconnectMax o) (d * 2)); [|f_equal; lia]. rewrite !Z.min_r; [done|nia|nia].
Qed.
Lemma delay_range d : 0 < d <= reconnectMax o -> 2 * reconnectMax o <= i64max ->
  0 < capDelay (wrapi64 (d * 2)) (reconnectMax o) <= reconnectMax o.
Proof.
  intros Hd Hm. unfold capDelay. assert (wrapi64 (d * 2) = d * 2) as ->.
  { unfold wrapi64, i64max in *. rewrite Z.mod_small; lia. }
  destruct (Z.ltb_spec (reconnectMax o) (d * 2)); lia.
Qed.

(** A pass after which the mesh is walked closes a long enough streak. *)
Definition walk_due (w : nat) : Prop :=
  mesh = true /\ silent_pass w = true /\ exists i c, streak_of i (S w) c /\ meshRecoveryAfter o <= c.

Lemma streak_after_spec i k c err :
  pass k = Err err -> streak_of i k c ->
  (exists i', streak_of i' (S k) (streak_after o mesh c err).1) /\ ((streak_after o mesh c err).2 = true -> walk_due k).
Proof.
  intros Hp Hs. assert (exists i', streak_of i' (S k) 0) as Hzero by (exists (S k); apply streak_none).
  destruct err; cbn [streak_after fst snd]; try (by split).
  - split; [|done]. exists i. assert (silent_pass k = false /\ stale_pass k = true) as [Hq Ht].
    { unfold silent_pass, stale_pass. by rewrite Hp. }
    pose proof (streak_next i k c Hs (or_intror Ht)) as Hn. rewrite Hq, Z.add_0_r in Hn. done.
  - destruct mesh eqn:Hmesh; [|by split]. assert (silent_pass k = true) as Hq by (unfold silent_pass; by rewrite Hp).
    pose proof (streak_next i k c Hs (or_introl Hq)) as Hn. rewrite Hq in Hn.
    destruct (Z.leb_spec (meshRecoveryAfter o) (c + 1)); cbn [fst snd]; [|split; [by exists i|done]].
    split; [done|]. intros _. unfold walk_due. split_and!; [done|done|]. by exists i, (c + 1).
Qed.

Lemma reconnect_from_spec fuel k delay c i r ds ws :
  reconnect_from o mesh pass walk sleep fuel k delay c = (r, ds, ws) -> streak_of i k c ->
  (Z.of_nat k < reconnectMaxAttempts o <= Z.of_nat (k + fuel) ->
   r <> Err OutOfFuel /\ Z.of_nat (k + List.length ds) < reconnectMaxAttempts o) /\
  (0 < delay <= reconnectMax o -> 2 * reconnectMax o <= i64max -> forall n d, ds !! n = Some d -> d = nth_delay delay n) /\
  (forall w, w ∈ ws -> walk_due w) /\
  (forall p, r = Ok p -> exists n, (k <= n)%nat /\ pass n = Ok p /\ forall j, (k <= j < n)%nat -> is_ok (pass j) = false).
Proof.
  assert (forall d, 0 < d <= reconnectMax o -> nth_delay d 0 = d) as Hd0 by (intros d Hd; unfold nth_delay; cbn; lia).
  revert k delay c i r ds ws. induction fuel as [|fuel IH]; intros k delay c i r ds ws; cbn [reconnect_from].
  - intros [= <- <- <-] _. split_and!; try done; [intros; lia|by intros w ?%not_elem_of_nil].
  - destruct (pass k) as [p|err] eqn:Hp.
    { intros [= <- <- <-] _. split_and!; try done; [intros; cbn; split; [done|lia]|by intros w ?%not_elem_of_nil|].
      intros q [= <-]. exists k. split_and!; [lia|done|lia]. }
    intros Hr Hs. destruct (streak_after_spec i k c err Hp Hs) as [[i' Hs'] Hw].
    destruct (streak_after o mesh c err) as [c' walks] eqn:Hsa. cbn [fst snd] in *.
    assert (forall w, w ∈ (if walks then [k] else []) -> walk_due w) as Hk.
    { intros w. destruct walks; [|by intros ?%not_elem_of_nil]. intros ->%list_elem_of_singleton. by apply Hw. }
    destruct (walks && walk k) eqn:Hwk.
    { injection Hr as <- <- <-. destruct walks; [|done]. split_and!; try done. intros; cbn; split; [done|lia]. }
    destruct ((0 <? _) && (_ <=? _)) eqn:Hcap.
    { injection Hr as <- <- <-. split_and!; try done. intros; cbn; split; [done|lia]. }
    assert (0 < reconnectMaxAttempts o -> Z.of_nat (S k) < reconnectMaxAttempts o) as Hroom.
    { intros Hpos. apply andb_false_iff in Hcap as [Hc|Hc]; [apply Z.ltb_ge in Hc|apply Z.leb_gt in Hc]; lia. }
    destruct (negb (sleep k)).
    { injection Hr as <- <- <-. split_and!; try done; [intros; cbn; split; [done|lia]|].
      intros Hd _ [|n] d; [|done]. intros [= <-]. by rewrite Hd0. }
    destruct (reconnect_from _ _ _ _ _ _ _ _ _) as [[r1 ds1] ws1] eqn:Hrec. injection Hr as <- <- <-.
    apply (IH _ _ _ i') in Hrec as (H1 & H2 & H3 & H4); [|done]. split_and!.
    + intros Hf. destruct H1 as [Hne Hl]; [lia|]. split; [done|]. cbn [List.length]. lia.
    + intros Hd Hm [|n] d; cbn [lookup list_lookup]; [intros [= <-]; by rewrite Hd0|].
      intros Hn. rewrite <-delay_next by done. apply H2; [by apply delay_range|done|done].
    + intros w [Hin|Hin]%elem_of_app; auto.
    + intros p Hpr. destruct (H4 p Hpr) as (n & Hn & Hpn & Hj). exists n. split_and!; [lia|done|].
      intros j Hjn. destruct (decide (j = k)) as [->|]; [by rewrite Hp|]. apply Hj. lia.
Qed.
End ReconnectProofs.

(** Reconnecting is paced and, where a limit is set, ends. With at most [n] attempts
    configured, [n] passes always decide it; its waits double from the base up to the
    maximum; it returns the first path a pass established; and the mesh is walked only
    when recovery is configured, after a silent pass that makes the configured number of
    silent passes in a row, passes with a stale link neither counting nor breaking the row. *)
Theorem reconnect_is_paced o mesh pass walk sleep fuel r ds ws :
  reconnect o mesh pass walk sleep fuel = (r, ds, ws) ->
  (0 < reconnectMaxAttempts o <= Z.of_nat fuel -> r <> Err OutOfFuel /\ Z.of_nat (List.length ds) < reconnectMaxAttempts o) /\
  (0 < reconnectBase o <= reconnectMax o -> 2 * reconnectMax o <= i64max ->
   forall n d, ds !! n = Some d -> d = nth_delay o (reconnectBase o) n) /\
  (forall w, w ∈ ws -> walk_due o mesh pass w) /\
  (forall p, r = Ok p -> exists n, pass n = Ok p /\ forall j, (j < n)%nat -> is_ok (pass j) = false).
Proof.
  intros Hr. destruct (reconnect_from_spec _ _ _ _ _ _ _ _ _ 0%nat _ _ _ Hr (streak_none _ _)) as (H1 & H2 & H3 & H4).
  split_and!; [|done|done|].
  - intros Hf. destruct H1 as [? Hl]; [cbn; lia|]. split; [done|]. cbn in Hl. lia.
  - intros p Hp. destruct (H4 p Hp) as (n & _ & Hn & Hj). exists n. split; [done|]. intros j Hlt. apply Hj. lia.
Qed.

Definition demo_backoff : Backoff := MkBackoff (1 * Second) (30 * Second) (60 * Second) 6 2.
Definition demo_pass (k : nat) : result ConnectError connPath :=
  match k with
  | 1%nat => Err ErrCoordinatorLinkStale
  | 4%nat => Ok (MkPath "s" modeRelay "x" [] false)
  | _ => Err ErrNoCoordinatorReachable
  end.
Lemma reconnect_is_paced_witness :
  let '(r, ds, ws) := reconnect demo_backoff true demo_pass (fun _ => false) (fun _ => true) 6 in
  r <> Err OutOfFuel /\ ds = [1 * Second; 2 * Second; 4 * Second; 8 * Second] /\ ws = [2%nat].
Proof.
  destruct (reconnect _ _ _ _ _ _) as [[r ds] ws] eqn:Hr.
  destruct (reconnect_is_paced _ _ _ _ _ _ _ _ _ Hr) as [Hf _]. split; [apply Hf; cbn; lia|].
  vm_compute in Hr. injection Hr as _ <- <-. split; reflexivity.
Defined.

(** ** Rediscovery *)

Lemma count_all_lookup l s : default 0%nat (count_all l !! s) = List.length (filter (fun x => x = s) l).
Proof.
  unfold count_all. assert (forall m, default 0%nat (foldl (fun (m : gmap string nat) s => <[s := S (default 0%nat (m !! s))]> m) m l !! s) =
    (default 0 (m !! s) + List.length (filter (fun x => x = s) l))%nat) as Hg; [|by rewrite Hg, lookup_empty].
  induction l as [|x l IH]; intros m; cbn [foldl]; [cbn; lia|]. rewrite IH, filter_cons.
  destruct (decide (x = s)) as [->|Hne]; [rewrite lookup_insert_eq; cbn; lia|by rewrite lookup_insert_ne].
Qed.
Lemma used_up_perm l : forall counts a, (forall s, default 0%nat (counts !! s) = List.length (filter (fun x => x = s) a)) ->
  List.length a = List.length l -> used_up counts l = true <-> a ≡ₚ l.
Proof.
  induction l as [|x l IH]; intros counts a Hc Hl; cbn [used_up].
  - apply length_zero_iff_nil in Hl as ->. done.
  - rewrite Hc. destruct (decide (x ∈ a)) as [Hin|Hnin].
    + apply list_elem_of_split in Hin as (a1 & a2 & ->).
      assert (a1 ++ x :: a2 ≡ₚ x :: a1 ++ a2) as Hp by (symmetry; apply Permutation_middle).
      assert (forall s, List.length (filter (fun y => y = s) (a1 ++ x :: a2)) =
        ((if decide (x = s) then 1 else 0) + List.length (filter (fun y => y = s) (a1 ++ a2)))%nat) as Hcnt.
      { intros s. rewrite !filter_app, filter_cons, !length_app. destruct (decide (x = s)); cbn; lia. }
      rewrite Hcnt. destruct (decide (x = x)); [|done]. cbn [Nat.add]. rewrite (IH _ (a1 ++ a2)).
      * rewrite Hp. split; [by intros ->|]. apply Permutation_cons_inv.
      * intros s. destruct (decide (x = s)) as [<-|Hne]; [by rewrite lookup_insert_eq|].
        rewrite lookup_insert_ne, Hc, Hcnt by done. by destruct (decide (x = s)).
      * rewrite length_app in *. cbn in Hl. lia.
    + rewrite (filter_none _ a); [|by intros y Hy ->]. cbn. split; [done|]. intros Hp. exfalso. apply Hnin. rewrite Hp. by left.
Qed.
Lemma sameCoordSet_perm a b : sameCoordSet a b = true <-> a ≡ₚ b.
Proof.
  unfold sameCoordSet. rewrite andb_true_iff, Nat.eqb_eq. split.
  - intros [Hl Hu]. apply (used_up_perm b (count_all a) a); [intros; apply count_all_lookup|done|done].
  - intros Hp. split; [by apply Permutation_length|]. apply (used_up_perm b _ a); [intros; apply count_all_lookup|by apply Permutation_length|done].
Qed.

(** The coordinators a client rebuilds itself on are those of a directory signed by
    the key it was given and not expired when it was fetched, obtained from one of its own
    peers; there is at least one, and they are not just the ones it already has. *)
Theorem recovery_is_signed `{Ed25519} `{JSON Snapshot} stop net tx now m coordinators fresh signed :
  tryMeshRecovery stop net tx now m coordinators = Some (fresh, signed) ->
  meshProof m <> [] /\ ~ fresh ≡ₚ coordinators /\ fresh <> [] /\
  exists peer snap, peer ∈ map TrimSpace (meshPeers m) /\ peer <> "" /\
    VerifySigned (meshPubKey m) signed = Ok snap /\ now peer <= ExpiresAt snap /\ fresh = AddrsForRole snap "coordinator".
Proof.
  unfold tryMeshRecovery. destruct (negb (meshRecoveryConfigured m)); [done|]. unfold MeshWalk.
  destruct (negb _); [done|]. destruct (List.length (meshProof m) =? 0)%nat eqn:Hproof; [done|].
  destruct (dedupNonEmpty (meshPeers m)) as [|q peers] eqn:Hp; [done|].
  assert (forall ps res, walk_peers stop net tx now (meshProof m) (meshPubKey m) ps = Ok res ->
    exists peer, peer ∈ ps /\ FetchSnapshot (net peer) (tx peer) (meshProof m) (meshPubKey m) (now peer) = Ok res) as Hwalk.
  { induction ps as [|p ps IH]; intros res; cbn [walk_peers]; [done|]. destruct (stop p); [done|].
    destruct (FetchSnapshot _ _ _ _ _) as [res'|] eqn:Hf; [intros [= <-]; exists p; split; [by left|done]|].
    intros (peer & Hin & Hok)%IH. exists peer. split; [by right|done]. }
  destruct (walk_peers _ _ _ _ _ _ _) as [res|] eqn:Hw; [|done].
  destruct (_ || sameCoordSet _ _) eqn:Hsame; [done|]. intros [= <- <-]. b2p.
  apply Hwalk in Hw as (peer & Hin & Hf). rewrite <-Hp in Hin. unfold dedupNonEmpty in Hin.
  apply elem_of_keep_first in Hin as [[Hne Hin]%list_elem_of_filter _].
  unfold FetchSnapshot in Hf. inv_result.
  match goal with Hr : read_response _ _ _ _ = _ |- _ => apply read_response_Ok in Hr as (m' & _ & _ & _ & Hv & Hexp) end.
  split_and!.
  - intros Hz. by rewrite Hz in Hproof.
  - intros Hperm%sameCoordSet_perm. congruence.
  - intros Hz. rewrite Hz in *. done.
  - exists peer, (res_Snapshot res). done.
Qed.

(** ** Witnesses *)

Module Demo.
Import Toy Coldstart.Demo.
Definition quiet_round : Round := MkRound (Some (repeat "n"%char 16)) [] [] false false (fun _ => true).
Definition member (raw : string) (round : string -> Round) : Member := MkMember raw None round None (fun _ => false) false false false.
Definition engine : Engine :=
  MkEngine _ (MkIdentity "" None "d"%char) (RelayChain.MkConfig "" "" "" 0 "" [] [] [] true false) "SE" (MkVersion 1 0 0).
Definition error_reply : wire := msg_error "country-busy" "SE".
Definition members : list Member :=
  [member "a:1" (fun _ => quiet_round);
   member "b:1" (fun _ => MkRound (Some (repeat "n"%char 16)) [] [error_reply] false false (fun _ => true))].
Definition mesh : Mesh := MkMesh [" peer:1 "; ""] (Sign Coldstart.Demo.key Coldstart.Demo.snap) (Public Coldstart.Demo.key).
Definition serve (p : string) (req : bytes) : option bytes :=
  if String.eqb p "peer:1" then
    handleCourierRequest req Stun.Demo.addr (Public Coldstart.Demo.key) (Some (Sign Coldstart.Demo.key Coldstart.Demo.snap)) (Hour + Minute)
  else None.
End Demo.
Import Toy Coldstart.Demo.

Lemma establish_verdict_witness :
  let '(res, (bad, closed), s) := establish Demo.engine Demo.members "" [] (MkNet false "") in
  res = Err CouldNotConnect /\ bad = ["a:1"] /\ (directs (ps_attempts s) <= 1)%nat /\ accounted_for Demo.engine "" s.
Proof.
  destruct (establish Demo.engine Demo.members "" [] (MkNet false "")) as [[res [bad closed]] s] eqn:He.
  destruct (establish_verdict Demo.engine Demo.members "" [] (MkNet false "") res bad closed s He) as [[Hd _ _ _] Hq].
  assert ((establish Demo.engine Demo.members "" [] (MkNet false "")).1 = (Err CouldNotConnect, (["a:1"], []))) as Hr
    by (vm_compute; reflexivity).
  rewrite He in Hr. injection Hr as -> -> ->. split; [done|]. split; [done|]. split; [exact Hd|exact Hq].
Defined.
Example silent_after_both_modes :
  let s := (establish Demo.engine Demo.members "" [] (MkNet false "")).2 in
  ps_attempts s = [("a:1", modeDirect); ("a:1", modeRelay); ("b:1", modeRelay)] /\
  (ps_members s).*2 = [coordinatorSilent; coordinatorRefused].
Proof. by vm_compute. Qed.

Lemma recovery_is_signed_witness : exists snap,
  VerifySigned (Public key) (Sign key snap) = Ok snap /\ ["9.9.9.9:7000"] = AddrsForRole snap "coordinator".
Proof.
  destruct (recovery_is_signed (fun _ => None) Demo.serve (fun _ => Stun.Demo.tx) (fun _ => Hour + Minute) Demo.mesh ["1.1.1.1:7000"]
    ["9.9.9.9:7000"] (Sign key snap)) as (_ & _ & _ & p & snap' & _ & _ & Hv & _ & Hf).
  - vm_compute. reflexivity.
  - assert (VerifySigned (Public key) (Sign key snap) = Ok snap) as Hs by (vm_compute; reflexivity).
    change (meshPubKey Demo.mesh) with (Public key) in Hv. rewrite Hs in Hv. injection Hv as <-. exists snap. split; [exact Hs|exact Hf].
Defined.
