(* ===== verification/Pairing.v ===== *)
(** * A client and a coordinator together

    The connect a client sends is handled by a coordinator, and the client acts on the
    answers: what a session that comes up is, at both ends; and what a client takes a
    refusal for. *)

From S2P Require Import ASN.
From S2P Require Import Prelude GoStrings Base64 Crypto Hashes Net Version Delegation Admission DeviceCred.
From S2P Require Import GeoIP Stun Coldstart Capacity Estimator Rating Policy PolicyGate.
From S2P Require Import CoordState Challenges Geo Assign Coordinator.
From S2P Require Import RelayChain Selection Forward E2E ChainDial Client.
Local Open Scope Z_scope.

(** ** The answer to a connect *)

Section Answer.
Context `{FloatPlatform} `{Ed25519} `{JSON Credential} `{JSON IssuerCert} `{JSON DeviceCredential}.
Context (cfg : CoordState.Config) (i : Inputs).

(** How a session reply says the session is carried. *)
Inductive carried (s : state) (e : exitNode) : string -> string -> string -> Prop :=
| carried_plain relay : relay <> relayPeer -> carried s e relay "" ""
| carried_peer id r : (id, r) ∈ relay_order i (relays s) -> id <> e_id e -> carried s e relayPeer (relayTag (r_id r)) (r_id r).

Lemma mint_reply s m src limits e s1 out reply :
  mint cfg i s m src limits e = (s1, out) -> (src, reply) ∈ out -> Type_ reply = "session" ->
  exists x, sessions s1 !! rand_id i = Some x /\ client x = src /\ s_exitID x = exit_named m e /\
    Session reply = rand_id i /\ ExitID reply = exit_named m e /\ carried s e (Relay reply) (RelayTag reply) (relayID x).
Proof.
  intros Hm Hin Ht. unfold mint, pairAndReply in Hm.
  assert ((if negb (String.eqb (FirstHop m) "") then "" else e_id e) = exit_named m e) as Hx.
  { unfold exit_named. by destruct (String.eqb (FirstHop m) ""). }
  rewrite Hx in Hm.
  assert (forall p rid assign reply', Type_ assign = "assign" -> carried s e (Relay reply') (RelayTag reply') rid ->
     Session reply' = rand_id i -> ExitID reply' = exit_named m e ->
     (if String.eqb (Nonce m) "" then set_sessions s (<[rand_id i := MkSession src p rid (exit_named m e) false false (t_handle (clock i))]> (sessions s))
      else set_minted (set_sessions s (<[rand_id i := MkSession src p rid (exit_named m e) false false (t_handle (clock i))]> (sessions s)))
        (<[connectKey src (Nonce m) := MkMinted (Some p) assign reply' (t_handle (clock i))]> (mintedConnects s)),
      [(p, assign); (src, reply')]) = (s1, out) ->
     exists x, sessions s1 !! rand_id i = Some x /\ client x = src /\ s_exitID x = exit_named m e /\
       Session reply = rand_id i /\ ExitID reply = exit_named m e /\ carried s e (Relay reply) (RelayTag reply) (relayID x)) as Hgo.
  { intros p rid assign reply' Ha Hc Hs He [= <- <-].
    assert (reply = reply') as ->.
    { apply elem_of_cons in Hin as [Hin|Hin]; [injection Hin as _ ->; congruence|].
      apply list_elem_of_singleton in Hin. by injection Hin as ->. }
    exists (MkSession src p rid (exit_named m e) false false (t_handle (clock i))).
    split_and!; try done. destruct (String.eqb (Nonce m) ""); apply lookup_insert_eq. }
  assert ((s, [(src, msg_error "" "")]) = (s1, out) -> False) as Hbad.
  { intros [= <- <-]. apply list_elem_of_singleton in Hin. injection Hin as ->. discriminate Ht. }
  destruct (String.eqb (Mode m) "direct").
  - destruct (udp e) as [u|]; [|by destruct (Hbad Hm)].
    eapply Hgo; [..|exact Hm]; try done. by apply carried_plain.
  - destruct (pickRelay cfg i s (e_id e)) as [r|] eqn:Hr.
    + eapply Hgo; [..|exact Hm]; try done. unfold pickRelay in Hr. apply fmap_Some in Hr as ([id r'] & Hf & ->).
      apply find_some in Hf as [Hin' Hus]. rewrite <-list_elem_of_In in Hin'. eapply carried_peer; [exact Hin'|].
      unfold relay_usable in Hus. b2p. done.
    + destruct (udp e) as [u|]; [|by destruct (Hbad Hm)].
      eapply Hgo; [..|exact Hm]; try done. by apply carried_plain.
Qed.

(** A session in the first answer to a connect is a session just opened. *)
Lemma handle_reply s m src s1 out reply :
  handle cfg i s m src = (s1, out) -> Type_ m = "connect" -> (src, reply) ∈ out -> Type_ reply = "session" ->
  mintedConnects (prune s (t_handle (clock i))) !! connectKey src (Nonce m) = None ->
  exists m' cs limits e x, passed cfg i (prune s (t_handle (clock i))) m src m' cs limits e /\
    sessions s1 !! rand_id i = Some x /\ client x = src /\ s_exitID x = exit_named m' e /\
    Session reply = rand_id i /\ ExitID reply = exit_named m' e /\
    carried (set_challenges (prune s (t_handle (clock i))) cs) e (Relay reply) (RelayTag reply) (relayID x).
Proof.
  intros Hh Hty Hin Ht Hnew. unfold handle in Hh. rewrite Hty in Hh. change (handle_connect cfg i (prune s (t_handle (clock i))) m src = (s1, out)) in Hh.
  set (s0 := prune s _) in *. unfold handle_connect in Hh. set (m' := set_creds _ _ _) in *.
  assert (forall s' x, (s', [(src, x)]) = (s1, out) -> Type_ x = "session") as Hone.
  { intros s' x [= <- <-]. apply list_elem_of_singleton in Hin. by injection Hin as ->. }
  destruct (admit_ cfg i m' RoleClient "") as [cred|] eqn:Hadm; [|by apply Hone in Hh].
  destruct (policyAllowsAssignment (policyState cfg)) eqn:Hpol; simpl in Hh; [|by apply Hone in Hh].
  destruct (String.eqb (Nonce m) "" || _) eqn:Hn; [by apply Hone in Hh|].
  assert (replayMintedConnect s0 src (Nonce m) (t_handle (clock i)) = None) as Hrep.
  { unfold replayMintedConnect. destruct (String.eqb (Nonce m) ""); [done|]. by rewrite Hnew. }
  rewrite Hrep in Hh.
  destruct (admitDevice cfg (challenges s) m' src i) as [cs [[]|err]] eqn:Hdev; [|by apply Hone in Hh].
  destruct (resolveTier cfg cred) as [limits|] eqn:Htier; [|by apply Hone in Hh].
  destruct (connect_target cfg i (set_challenges s0 cs) m' src limits) as [e|] eqn:He; [|by apply Hone in Hh].
  destruct (mint_reply _ _ _ _ _ _ _ _ Hh Hin Ht) as (x & Hx).
  exists m', cs, limits, e, x. split; [|exact Hx]. b2p. split; try done; [by eauto|]. change (Nonce m') with (Nonce m).
  split; [|by apply Nat.ltb_ge]. destruct (Nonce m); [done|simpl; lia].
Qed.
End Answer.

(** ** What the client makes of it *)

Section Attempted.
Context `{Ed25519}.

Lemma awaitChallenge_rest ms c rest : awaitChallenge ms = (c, rest) -> forall m, m ∈ rest -> m ∈ ms.
Proof.
  revert c rest. induction ms as [|x ms IH]; intros c rest; cbn [awaitChallenge]; [by intros [= <- <-]|].
  repeat case_match; try (intros [= <- <-] m Hm; by right). intros Ha m Hm. right. by eapply IH.
Qed.
Lemma present_queue c raw ms sent f queue :
  presentDeviceCredential c raw ms = (sent, f, queue) ->
  (forall m, m ∈ queue -> m ∈ ms) /\ (forall m, m ∈ sent -> Type_ m = "challenge").
Proof.
  assert (forall m, m ∈ delivered ms -> m ∈ ms) as Hd by (intros m [_ Hm]%list_elem_of_filter; done).
  unfold presentDeviceCredential. destruct (deviceStore c) as [held|]; [|intros [= <- <- <-]; split; [done|by intros m ?%not_elem_of_nil]].
  destruct (negb (Presentable held)); [intros [= <- <- <-]; split; [done|by intros m ?%not_elem_of_nil]|].
  destruct (awaitChallenge (delivered ms)) as [ch rest] eqn:Ha. pose proof (awaitChallenge_rest _ _ _ Ha) as Hrest.
  repeat case_match; intros [= <- <- <-]; (split; [by auto|intros m ->%list_elem_of_singleton; done]).
Qed.
Lemma awaitSession_minted ms y : awaitSession ms = (y, pairMinted) ->
  exists m, m ∈ ms /\ Type_ m = "session" /\ y = MkReply (ExitID m) (Session m) (Relay m) (RelayTag m) "".
Proof.
  induction ms as [|x ms IH]; cbn [awaitSession]; [done|]. destruct (String.eqb_spec (Type_ x) "session") as [Hx|].
  - intros [= <-]. exists x. split; [by left|done].
  - destruct (String.eqb _ _); [done|]. intros (m & Hm & Hr)%IH. exists m. split; [by right|done].
Qed.

(** What a chained or a plain attempt that succeeded ends at. *)
Definition ends_at (req : connectReq) (a : attemptResult) (y : wire) : Prop :=
  match q_plan req with
  | None => a_exitID a = ExitID y /\ hex_DecodeString (ExitID y) = Some (a_exitPub a) /\ List.length (a_exitPub a) = 32%nat
  | Some p => a_exitID a = exitID p /\ a_exitPub a = exitPub p /\ Relay y = relayPeer /\
              verifyChainDisjoint (Some p) (RelayTag y) = Ok tt
  end.

Lemma use_reply_ok r req d y a d' dial :
  use_reply r req d y = (a, d', dial) -> a_outcome a = connectOK ->
  a_sid a = y_sid y /\ a_sess a = Some (y_sid y) /\
  match q_plan req with
  | None => a_exitID a = y_exitID y /\ hex_DecodeString (y_exitID y) = Some (a_exitPub a) /\ List.length (a_exitPub a) = 32%nat
  | Some p => a_exitID a = exitID p /\ a_exitPub a = exitPub p /\ y_relay y = relayPeer /\
              verifyChainDisjoint (Some p) (y_tag y) = Ok tt
  end.
Proof.
  unfold use_reply, ended. destruct (match q_plan req with Some _ => _ | None => _ end) as [[xid xpub]|] eqn:Hn;
    [|by intros [= <- <- <-]].
  destruct (bool_decide _ && negb _) eqn:Hp; [by intros [= <- <- <-]|].
  destruct (verifyChainDisjoint _ _) as [[]|] eqn:Hv; [|by intros [= <- <- <-]]. cbn [is_ok negb].
  destruct (_ && seen _ _); [by intros [= <- <- <-]|]. destruct (rnd_dial r _); [|by intros [= <- <- <-]].
  intros [= <- <- <-] _. cbn. split_and!; try done. destruct (q_plan req) as [p|].
  - injection Hn as <- <-. rewrite bool_decide_eq_true_2 in Hp by eauto. cbn in Hp. b2p. done.
  - destruct (hex_DecodeString (y_exitID y)) as [pub|]; [|done]. destruct (Nat.eqb_spec (List.length pub) 32); [|done].
    by injection Hn as <- <-.
Qed.

Lemma attemptWith_ok c raw r req d a d' dial sent :
  attemptWith c raw r req d = (a, d', dial, sent) -> a_outcome a = connectOK ->
  (exists y, y ∈ rnd_first r ++ rnd_then r /\ Type_ y = "session" /\ a_sid a = Session y /\ a_sess a = Some (Session y) /\
     ends_at req a y) /\
  (forall m, m ∈ sent -> Type_ m = "connect" -> exists nonce cred f, m = connect_wire req nonce cred f).
Proof.
  unfold attemptWith. destruct (newConnectNonce _) as [nonce|]; [|by intros [= <- <- <- <-]].
  destruct (presentDeviceCredential _ _ _) as [[sent0 f] queue] eqn:Hpr. apply present_queue in Hpr as [Hq Hs0].
  destruct (rnd_handshake r); [by intros [= <- <- <- <-]|].
  destruct (awaitSession _) as [y []] eqn:Hw; [|by intros [= <- <- <- <-]|].
  2:{ intros [= <- <- <- <-]. cbn. by repeat case_match. }
  intros Hu Hok. injection Hu as Hu <-. apply (use_reply_ok _ _ _ _ _ _ _ Hu) in Hok as (Hsid & Hsess & Hend).
  apply awaitSession_minted in Hw as (m & Hm & Ht & ->). cbn in *. split.
  - exists m. split_and!; try done. apply elem_of_app in Hm as [Hm|[_ Hm]%list_elem_of_filter]; apply elem_of_app; auto.
  - intros x [Hx|Hx]%elem_of_app Hty; [by rewrite (Hs0 x Hx) in Hty|]. set_solver.
Qed.
End Attempted.

(** ** The two together *)

Section Together.
Context `{FloatPlatform} `{Ed25519} `{JSON Credential} `{JSON IssuerCert} `{JSON DeviceCredential}.

(** C4: When a client's connect reaches a coordinator and the session the client then has is
    one the coordinator answered with, the two agree on it: it is in the coordinator's
    table under the client's address, and a plain client ends at an exit registered there,
    in the country it asked for, heard from recently and within its quota, whose static key
    is the one the client will authenticate; a chaining client ends at the exit of its own
    chain, which the coordinator is not told, through a relay that is none of the chain's
    hops. *)
Theorem client_and_coordinator_agree cfg i s src s1 out c raw r req d a d' dial sent m :
  walks_all i -> attemptWith c raw r req d = (a, d', dial, sent) -> a_outcome a = connectOK ->
  m ∈ sent -> Type_ m = "connect" -> handle cfg i s m src = (s1, out) ->
  mintedConnects (prune s (t_handle (clock i))) !! connectKey src (Nonce m) = None ->
  (forall y, y ∈ rnd_first r ++ rnd_then r -> Type_ y = "session" -> (src, y) ∈ out) ->
  (forall p, q_plan req = Some p -> firstHopID (Some p) <> "") ->
  exists x, a_sess a = Some (a_sid a) /\ sessions s1 !! a_sid a = Some x /\ client x = src /\
  match q_plan req with
  | None => exists id e, exits s !! id = Some e /\ a_exitID a = e_id e /\ s_exitID x = e_id e /\
      hex_DecodeString (e_id e) = Some (a_exitPub a) /\ List.length (a_exitPub a) = 32%nat /\
      e_country e = Canonical (q_country req) /\ e_exhausted e = false /\
      time_Sub (t_handle (clock i)) (e_lastSeen e) <= ttl
  | Some p => a_exitID a = exitID p /\ a_exitPub a = exitPub p /\ s_exitID x = "" /\
      relayID x ∉ h_id <$> p_hops p /\ exists id rl, relays s !! id = Some rl /\ relayID x = r_id rl
  end.
Proof.
  intros Hw Ha Hok Hm Hty Hh Hnew Hhonest Hhop.
  destruct (attemptWith_ok _ _ _ _ _ _ _ _ _ Ha Hok) as [(y & Hy & Hyt & Hsid & Hsess & Hend) Hsent].
  destruct (Hsent m Hm Hty) as (nonce & cred & f & ->).
  destruct (handle_reply _ _ _ _ _ _ _ _ Hh Hty (Hhonest y Hy Hyt) Hyt Hnew) as
    (m' & cs & limits & e & x & Hp & Hx & Hcl & Hxe & Hs & Hye & Hcar).
  exists x. rewrite Hsess, Hsid, Hs. split_and!; try done.
  pose proof (p_target _ _ _ _ _ _ _ _ _ Hp) as Ht. pose proof (p_message _ _ _ _ _ _ _ _ _ Hp) as Hm'.
  assert (FirstHop m' = firstHopID (q_plan req) /\ CoordState.Country m' = wireCountry req) as [Hf Hc] by by rewrite Hm'.
  unfold ends_at in Hend. destruct (q_plan req) as [p|] eqn:Hplan.
  - destruct Hend as (He1 & He2 & Hpeer & Hdis). unfold exit_named in Hxe. rewrite Hf in Hxe.
    rewrite (proj2 (String.eqb_neq _ _) (Hhop p eq_refl)) in Hxe. split_and!; try done.
    + destruct Hcar as [relay Hne|id rl Hin Hne]; [done|]. by apply (proj2 (assigned_relay_is_no_hop p (r_id rl))).
    + destruct Hcar as [relay Hne|id rl Hin Hne]; [done|]. exists id, rl. split; [|done].
      destruct Hw as [_ Hw]. rewrite Hw in Hin. apply elem_of_map_to_list in Hin. cbn in Hin.
      by apply map_lookup_filter_Some in Hin as [? _].
  - destruct Hend as (He1 & He2 & He3). rewrite Hye in *. unfold exit_named in *. rewrite Hf in *. cbn [firstHopID String.eqb] in *.
    assert (e_country e = Canonical (q_country req)) as Hcountry.
    { unfold connect_target in Ht. rewrite Hf, Hc in Ht. unfold wireCountry in Ht. rewrite Hplan in Ht. cbn in Ht.
      eapply chooseExit_candidate in Ht as (id & Hcand); [|apply Hw]. apply Hcand. }
    apply (connect_target_live cfg i (set_challenges s cs)) in Ht as (id & Hid & Hlive & Hex); [|done].
    exists id, e. split_and!; done.
Qed.
End Together.

(** ** A run: an enrolled client is challenged, admitted and paired *)

Module Demo.
Import Toy Estimator.Demo CoordDemo Coordinator.Demo.

(** A short text for the one issuer certificate, which the coordinator keeps with the
    challenge only below a size. *)
#[export] Instance cert_json : JSON IssuerCert := {|
  Marshal := fun _ => bytes_of "cert";
  Unmarshal := fun b => if bool_decide (b = bytes_of "cert") then Some (e_cert DeviceCred.Demo.e) else None;
  Crypto.Decode := fun b => if bool_decide (b = bytes_of "cert") then Some (e_cert DeviceCred.Demo.e) else None;
|}.
#[export] Instance credential_json : JSON Credential := toy_json.
#[export] Instance device_json : JSON DeviceCredential := toy_json.

Definition step (secs : Z) (id : string) (s : state) (m : wire) (src : UDPAddr) : state * sent :=
  handle full_cfg (at_ secs id) s m src.
Definition exit_id : string := hex_EncodeToString (repeat "x"%char 32).
Definition s_nodes : state :=
  (step 1 "" (step 0 "" state0 (register "exit" exit_id (issue_for Admission.Demo.operator_key exit_id RoleExit) 0) exit_src).1
     (register "relay" "r1" (issue_for Admission.Demo.operator_key "r1" RoleRelay) 9000) relay_src).1.
Definition issuer : string := EncodeIssuerCert (seal "r"%char TagIssuerCert (Marshal (e_cert DeviceCred.Demo.e))).
Definition client : Identity :=
  MkIdentity "" (Some (MkHeld (EncodeDeviceCredential (p_Credential DeviceCred.Demo.presented)) issuer
    (issue_for Admission.Demo.account_key "u1" RoleClient))) "d"%char.
Definition to (src : UDPAddr) (out : list (UDPAddr * wire)) : list wire := (filter (fun x => x.1 = src) out).*2.

Definition challenged : state * sent := step 2 "" s_nodes (challenge_request (admissionCred client) issuer) client_src.
Definition req : connectReq := MkReq "se" "relay" [] None.
Definition round (answers : list wire) : Round :=
  MkRound (Some (repeat "n"%char 16)) (to client_src challenged.2) answers false false (fun _ => true).
Definition asked : wire := List.nth 1 (attemptWith client "coord" (round []) req (Some ∅)).2 zero_wire.
Definition answered : state * sent := handle full_cfg (at_ 3 "s1") challenged.1 asked client_src.
Definition played := attemptWith client "coord" (round (to client_src answered.2)) req (Some ∅).
End Demo.
Import Toy Estimator.Demo CoordDemo Demo.

Example run_connects : a_outcome played.1.1.1 = connectOK /\ a_exitID played.1.1.1 = exit_id /\
  a_relay played.1.1.1 = relayPeer /\ asked ∈ played.2.
Proof. split_and!; [vm_compute; reflexivity..|]. vm_compute. right. left. Qed.

#[local] Strategy opaque [handle attemptWith Demo.step].

Lemma elem_of_to src out y : y ∈ to src out -> (src, y) ∈ out.
Proof. unfold to. intros ([x m] & -> & [Hx Hin]%list_elem_of_filter)%list_elem_of_fmap. cbn in *. by subst. Qed.
Lemma challenge_alone : Forall (fun y => Type_ y <> "session") (to Coordinator.Demo.client_src challenged.2).
Proof. vm_compute. repeat constructor. discriminate. Qed.

Lemma quad {A B C D} (x : A * B * C * D) : x = (x.1.1.1, x.1.1.2, x.1.2, x.2).
Proof. by destruct x as [[[? ?] ?] ?]. Qed.
Lemma played_eq : attemptWith Demo.client "coord" (round (to Coordinator.Demo.client_src answered.2)) req (Some ∅) =
  (played.1.1.1, played.1.1.2, played.1.2, played.2).
Proof. exact (quad _). Qed.
Lemma answered_eq : handle Coordinator.Demo.full_cfg (Coordinator.Demo.at_ 3 "s1") challenged.1 asked Coordinator.Demo.client_src =
  (answered.1, answered.2).
Proof. exact (surjective_pairing answered). Qed.

Lemma client_and_coordinator_agree_witness : exists x, sessions answered.1 !! "s1" = Some x /\ s_exitID x = exit_id.
Proof.
  assert (asked ∈ played.2) as Hin by apply run_connects.
  destruct (client_and_coordinator_agree Coordinator.Demo.full_cfg (Coordinator.Demo.at_ 3 "s1") challenged.1
    Coordinator.Demo.client_src answered.1 answered.2 Demo.client "coord" (round (to Coordinator.Demo.client_src answered.2)) req
    (Some ∅) played.1.1.1 played.1.1.2 played.1.2 played.2 asked) as (x & _ & Hx & _ & id & e & _ & He & Hxe & _).
  - apply CoordDemo.inputs_walk.
  - apply played_eq.
  - apply run_connects.
  - exact Hin.
  - vm_compute. reflexivity.
  - apply answered_eq.
  - vm_compute. reflexivity.
  - intros y [Hy|Hy]%elem_of_app Ht; [|by apply elem_of_to].
    destruct (proj1 (Forall_forall _ _) challenge_alone y Hy Ht).
  - intros p [=].
  - exists x. pose proof run_connects as (_ & Hr & _). rewrite Hr in He. split; [|congruence].
    assert (a_sid played.1.1.1 = "s1") as Hs by (vm_compute; reflexivity). by rewrite <-Hs.
Defined.

#[local] Strategy transparent [handle attemptWith Demo.step].

(** ** A reject is taken for silence *)

(** Whatever a coordinator answers with rejects alone, to a client that presented nothing
    wrong in form: the attempt is counted as silence. *)
Lemma reject_is_silence `{Ed25519} c raw r req d :
  is_Some (rnd_nonce r) -> rnd_first r = [] -> rnd_too_large r = false -> Forall (fun m => Type_ m = "reject") (rnd_then r) ->
  a_outcome (attemptWith c raw r req d).1.1.1 = coordinatorSilent.
Proof.
  intros [n Hn] Hf Hl Hrej. unfold attemptWith, newConnectNonce. rewrite Hn, Hf. cbn [fmap option_fmap option_map].
  destruct (presentDeviceCredential c raw []) as [[sent f] queue] eqn:Hp. apply present_queue in Hp as [Hq _].
  destruct (rnd_handshake r); [done|].
  assert (queue = []) as -> by (destruct queue as [|q l]; [done|]; specialize (Hq q ltac:(by left)); by apply not_elem_of_nil in Hq).
  assert (delivered (rnd_then r) = [] /\ existsb unroutable (rnd_then r) = false) as [-> Hu].
  { clear -Hrej. unfold delivered. induction Hrej as [|m ms Hm _ [IH1 IH2]]; [done|]. cbn [existsb].
    rewrite filter_cons, IH1, IH2. unfold to_client, unroutable, routed. rewrite Hm. done. }
  cbn. by rewrite Hl, Hu.
Qed.

(** A client whose admission credential the coordinator rejects reports that no
    coordinator is reachable, which is what a walk of the mesh waits for. *)
Definition refused_client : Identity := MkIdentity "expired" None "d"%char.
Definition refusal_round (answers : list wire) : Round := MkRound (Some (repeat "n"%char 16)) [] answers false false (fun _ => true).
Definition refused_ask (mode : string) : wire :=
  List.nth 0 (attemptWith refused_client "coord" (refusal_round []) (MkReq "se" mode [] None) (Some ∅)).2 zero_wire.
Definition refusing (mode : string) : list wire :=
  to Coordinator.Demo.client_src (step 2 "" s_nodes (refused_ask mode) Coordinator.Demo.client_src).2.
Definition refusing_member : Member :=
  MkMember "coord" None (fun mode => refusal_round (refusing mode)) None (fun _ => false) true true false.
Definition refused_engine : Engine := MkEngine _ refused_client (RelayChain.MkConfig "" "" "" 0 "" [] [] [] true false) "se" (MkVersion 1 2 0).

Example rejected_client_walks_the_mesh :
  map Type_ (refusing "relay") = ["reject"] /\ map Type_ (refusing "direct") = ["reject"] /\
  (establish refused_engine [refusing_member] "" [] (MkNet false "")).1.1 = Err ErrNoCoordinatorReachable.
Proof. split_and!; vm_compute; reflexivity. Qed.
