(* ===== verification/Pool.v ===== *)
(** * The client's transport pool: [core/pool.go], and the order of [core/coordpool.go]

    Candidates that failed are remembered for a while, coordinators that did not answer
    too. A selection races the ladder of candidates: dials run side by side, and what each
    of them, a timer, a cancellation or a stop does next is an event of [race_step]. A
    dial pairs an exit through the coordinators and proves that the path carries bytes;
    the sessions it opens and closes are recorded. *)

From S2P Require Import ASN.
From S2P Require Import Prelude GoStrings Base64 Crypto Net Version Delegation DeviceCred CoordState Coordinator.
From S2P Require Import GeoIP Stun Coldstart RelayChain Selection Forward ChainDial Client.
Local Open Scope Z_scope.

(** ** Cooling *)

Section Cooling.
Context `{Countable K}.
Definition mark (cool : gmap K Time) (k : K) (now : Time) : gmap K Time := <[k := now]> cool.
Definition cooling_for (cooldown : Duration) (cool : gmap K Time) (now : Time) (k : K) : bool :=
  match cool !! k with Some t => time_Sub now t <? cooldown | None => false end.
End Cooling.

Definition candCooldown : Duration := 30 * Second.
Definition markCandidateCooling (cool : gmap Candidate Time) (c : Candidate) (now : Time) : gmap Candidate Time :=
  mark cool c now.
Definition candidateCooling (cool : gmap Candidate Time) (now : Time) (c : Candidate) : bool :=
  cooling_for candCooldown cool now c.

Definition coordCooldown : Duration := 30 * Second.
Definition markUnhealthy (unhealthy : gmap string Time) (raw : string) (now : Time) : gmap string Time :=
  mark unhealthy raw now.
Definition rankCoordinators (addrs : list string) (unhealthy : gmap string Time) (now : Time) (cooldown : Duration) : list string :=
  filter (fun a => negb (cooling_for cooldown unhealthy now a)) addrs ++
  filter (fun a => cooling_for cooldown unhealthy now a) addrs.
(** [shuffle] is what [rand.Shuffle] does to the members. *)
Definition orderLinks (shuffle : list string -> list string) (links : list string) (unhealthy : gmap string Time) (now : Time) : list string :=
  rankCoordinators (shuffle links) unhealthy now coordCooldown.

(** ** The race *)

Record dialedPath := MkDialed { d_sess : option string; d_exitID : string; d_exitPub : bytes; d_rtt : Duration }.

Section Race.
Context {DialError : Type}.
(** What a dial returns; the goroutine sends it on the channel with its candidate, which
    is named here by its place in the ladder. *)
Definition Dialed : Type := result DialError dialedPath.

Inductive Verdict :=
| Racing
| Won (p : dialedPath) (slot : nat)
| NoCandidate
| RaceStopped (why : Stop).

Record Race := MkRace {
  launched : nat; received : nat;
  dialing : list nat;           (* the dials that have not returned *)
  resc : list (nat * Dialed);   (* the channel *)
  cooled : list nat;            (* the candidates marked cooling, in order *)
  verdict : Verdict;
  draining : nat;               (* results drainLosers still waits for *)
  closed : list string;         (* sessions it closed *)
}.

Inductive RaceEvent :=
| Returned (slot : nat) (r : Dialed)   (* a dial returns *)
| Stagger                              (* the timer fires *)
| Receive                              (* the race takes a result *)
| Cancelled (why : Stop)               (* the context ends, or the engine *)
| Drain                                (* drainLosers takes a result *)
| DrainStopped.                        (* drainLosers sees the engine stop *)

Definition winning (r : Dialed) : option dialedPath :=
  match r with Ok p => if d_sess p then Some p else None | Err _ => None end.
Definition session_of (r : Dialed) : option string := match r with Ok p => d_sess p | Err _ => None end.

Context (ladder : list Candidate) (poolParallel : Z).

Definition set_verdict (s : Race) (v : Verdict) : Race :=
  MkRace (launched s) (received s) (dialing s) (resc s) (cooled s) v (draining s) (closed s).
Definition launch (s : Race) : Race :=
  MkRace (S (launched s)) (received s) (launched s :: dialing s) (resc s) (cooled s) (verdict s) (draining s) (closed s).
Definition inflight (s : Race) : Z := Z.of_nat (launched s) - Z.of_nat (received s).

Definition race_start : Race := launch (MkRace 0 0 [] [] [] Racing 0 []).

Definition on_stagger (s : Race) : Race :=
  if (launched s <? List.length ladder)%nat && (inflight s <? poolParallel) then launch s else s.

Definition on_result (s : Race) (slot : nat) (r : Dialed) (rest : list (nat * Dialed)) : Race :=
  let s := MkRace (launched s) (S (received s)) (dialing s) rest (cooled s) (verdict s) (draining s) (closed s) in
  match winning r with
  | Some p =>
      MkRace (launched s) (received s) (dialing s) rest (cooled s) (Won p slot) (launched s - received s) (closed s)
  | None =>
      let s := MkRace (launched s) (received s) (dialing s) rest (cooled s ++ [slot]) (verdict s) (draining s) (closed s) in
      if (launched s <? List.length ladder)%nat then launch s
      else if inflight s =? 0 then set_verdict s NoCandidate
      else s
  end.

(** One thing that happens; [None] when it cannot. *)
Definition race_step (s : Race) (ev : RaceEvent) : option Race :=
  match ev with
  | Returned slot r =>
      if bool_decide (slot ∈ dialing s) then
        Some (MkRace (launched s) (received s) (filter (fun i => i <> slot) (dialing s)) (resc s ++ [(slot, r)])
                (cooled s) (verdict s) (draining s) (closed s))
      else None
  | Stagger => match verdict s with Racing => Some (on_stagger s) | _ => None end
  | Receive => match verdict s, resc s with Racing, (slot, r) :: rest => Some (on_result s slot r rest) | _, _ => None end
  | Cancelled why => match verdict s with Racing => Some (set_verdict s (RaceStopped why)) | _ => None end
  | Drain =>
      match draining s, resc s with
      | S n, (_, r) :: rest =>
          Some (MkRace (launched s) (received s) (dialing s) rest (cooled s) (verdict s) n (closed s ++ option_list (session_of r)))
      | _, _ => None
      end
  | DrainStopped =>
      match draining s with
      | S _ => Some (MkRace (launched s) (received s) (dialing s) (resc s) (cooled s) (verdict s) 0 (closed s))
      | O => None
      end
  end.
Definition raceLadder (evs : list RaceEvent) : option Race :=
  foldl (fun s ev => s ≫= fun s => race_step s ev) (Some race_start) evs.

(** What [raceLadder] returns; nothing while it runs. *)
Inductive RaceError := EmptyLadder | NoneConnected | RaceEnded (why : Stop).
Definition race_result (s : Race) : option (result RaceError (dialedPath * Candidate)) :=
  match verdict s with
  | Racing => None
  | Won p slot => Some (of_option EmptyLadder ((fun c => (p, c)) <$> ladder !! slot))
  | NoCandidate => Some (Err NoneConnected)
  | RaceStopped why => Some (Err (RaceEnded why))
  end.
End Race.
Arguments Race : clear implicits.
Arguments RaceEvent : clear implicits.
Arguments Dialed : clear implicits.

(** ** One candidate's dial *)

(** What a path proves itself with: the probe of [pool_probe.go]. *)
Definition probeSentinel : string := "bacchus-probe.invalid:0".
Definition probeBytes : nat := 32 * 1024.
Definition maxProbeEcho : nat := Z.to_nat (Z.shiftl 1 20).
(** The exit's side: what it echoes of what it is sent. *)
Definition handleProbeStream (sent : bytes) : bytes := take maxProbeEcho sent.

Inductive DialError :=
| NoTransport | ChainNotBuilt (e : ChainError) | PairStopped (why : Stop) | NotPaired
| NotOpened (o : ChainDial.Outcome) | NoRandom | ProbeRead | ProbeWrite.

(** [runProbe]: whether there is randomness for the payload, the bytes that come back
    before the stream ends, whether the write succeeds, and the time it takes. *)
Record Probe := MkProbe { pr_random : bool; pr_back : bytes; pr_wrote : bool; pr_time : Duration }.
Definition runProbe (p : Probe) : result DialError Duration :=
  if negb (pr_random p) then Err NoRandom
  else if (List.length (pr_back p) <? probeBytes)%nat then Err ProbeRead
  else if negb (pr_wrote p) then Err ProbeWrite
  else Ok (pr_time p).
(** [opened] is what [dialChainedStream] makes of the stream to the sentinel. *)
Definition validateSession (opened : ChainDial.Outcome) (p : Probe) : result DialError Duration :=
  match opened with ChainDial.Connected _ => runProbe p | o => Err (NotOpened o) end.

Section Dialing.
Context `{Ed25519} (id : Identity).

(** A coordinator's link while a candidate is paired through it. *)
Record PoolLink := MkPoolLink { pl_stop : option Stop; pl_round : Round }.

Fixpoint pair_links (order : list string) (link : string -> PoolLink) (req : connectReq)
    : result DialError attemptResult * list string :=
  match order with
  | [] => (Err NotPaired, [])
  | raw :: order =>
      match pl_stop (link raw) with
      | Some why => (Err (PairStopped why), [])
      | None =>
          let '(a, _, _, _) := attemptWith id raw (pl_round (link raw)) req None in
          match a_outcome a with
          | connectOK => (Ok a, [])
          | o =>
              let '(r, bad) := pair_links order link req in
              (r, match o with coordinatorSilent => raw :: bad | _ => bad end)
          end
      end
  end.
(** [pairInCountry]: also the coordinators marked unhealthy. *)
Definition pairInCountry (order : list string) (link : string -> PoolLink) (c : Candidate) (exclude : list string)
    (plan : option chainPlan) : result DialError attemptResult * list string :=
  pair_links order link (MkReq (c_Country c) (c_Mode c) exclude plan).

(** The circumstances of one try of a candidate. *)
Record Try := MkTry {
  t_dir : option relayDirectory; t_cooling : string -> bool; t_rand : Rand;
  t_order : list string; t_link : string -> PoolLink;
  t_opened : string -> bytes -> ChainDial.Outcome; t_probe : string -> Probe;
}.
(** What a dial did: the requests it made, the sessions it opened and closed, and the
    coordinators it marked. *)
Record DialLog := MkDialLog {
  dl_requests : list connectReq; dl_opened : list string; dl_closed : list string; dl_unhealthy : list string;
}.

Definition countryAttempts : nat := 2.

Fixpoint dial_attempts (cfg : RelayChain.Config) (c : Candidate) (try : nat -> Try) (n k : nat) (exclude : list string)
    (lastErr : option DialError) (l : DialLog) : result DialError dialedPath * DialLog :=
  match n with
  | O => (Err (default NotPaired lastErr), l)
  | S n =>
      let t := try k in
      match (chainFor cfg (t_dir t) (t_cooling t) (String.eqb (c_Mode c) modeRelay) (c_Country c) (t_rand t)).1 with
      | Err e => (Err (ChainNotBuilt e), l)
      | Ok plan =>
          let req := MkReq (c_Country c) (c_Mode c) exclude (fst <$> plan) in
          let '(r, bad) := pairInCountry (t_order t) (t_link t) c exclude (fst <$> plan) in
          let l := MkDialLog (dl_requests l ++ [req]) (dl_opened l) (dl_closed l) (dl_unhealthy l ++ bad) in
          match r with
          | Err e => (Err (default e lastErr), l)
          | Ok a =>
              let sess := default "" (a_sess a) in
              let l := MkDialLog (dl_requests l) (dl_opened l ++ option_list (a_sess a)) (dl_closed l) (dl_unhealthy l) in
              match validateSession (t_opened t sess (a_exitPub a)) (t_probe t sess) with
              | Ok rtt => (Ok (MkDialed (a_sess a) (a_exitID a) (a_exitPub a) rtt), l)
              | Err e =>
                  dial_attempts cfg c try n (S k)
                    (if String.eqb (a_sid a) "" then exclude else exclude ++ [a_sid a]) (Some e)
                    (MkDialLog (dl_requests l) (dl_opened l) (dl_closed l ++ option_list (a_sess a)) (dl_unhealthy l))
              end
          end
      end
  end.
(** [dialAndValidate]: [transports] are those the pool built. *)
Definition dialAndValidate (cfg : RelayChain.Config) (transports : list string) (c : Candidate) (try : nat -> Try)
    : result DialError dialedPath * DialLog :=
  if bool_decide (Transport c ∈ transports) then
    dial_attempts cfg c try countryAttempts 0 [] None (MkDialLog [] [] [] [])
  else (Err NoTransport, MkDialLog [] [] [] []).
End Dialing.

(** ** A selection *)

Definition chainableLadder (chaining : bool) (l : list Candidate) : list Candidate :=
  if chaining then filter (fun c => c_Mode c <> ModeDirect) l else l.

(** [poolCountries]: of what [ListCountries] gave, and whether an update is required then. *)
Definition poolCountries (listed : result ConnectError (list countryInfo)) (updateRequired : bool)
    : result ConnectError (list countryInfo) :=
  match listed with
  | Ok (c :: cs) => Ok (c :: cs)
  | _ =>
      if updateRequired then Err UpdateRequired
      else match listed with
           | Err ErrNoCoordinatorReachable => Err ErrNoCoordinatorReachable
           | Err ErrCoordinatorUnroutable => Err ErrCoordinatorUnroutable
           | _ => Ok []
           end
  end.

Inductive SelectError := Listing_failed (e : ConnectError) | NoCountryOffered | NoCandidates | RaceLost (e : RaceError).

(** What a selection finds: whether an update is required before it, the list of
    countries, the network's key, the clock, and the orders the memory is walked in. *)
Record Situation := MkSituation {
  si_update : bool; si_listed : result ConnectError (list countryInfo); si_update_after : bool;
  si_net : string; si_now : Time; si_walk : list Memory.Record_; si_rtt_walk : string -> list Memory.Record_;
}.

Section Select.
Context `{JSON (list Memory.Record_)} (geo : string) (transportOrder : list string) (chaining : bool).

Definition ladder_input (s : Memory.Store) (cooling : Candidate -> bool) (si : Situation) (countries : list countryInfo) : LadderInput :=
  MkLadderInput geo
    (map (fun c => MkCountry (ci_Country c) (Available c) (CoordState.Busy c)
            (Memory.RTT s (si_rtt_walk si (ci_Country c)) (si_net si) (ci_Country c) (si_now si))) countries)
    transportOrder (Memory.Best s (si_walk si) (si_net si) geo (si_now si)) (Some cooling).

(** [Duration.Milliseconds] *)
Definition Milliseconds (d : Duration) : Z := Z.quot d Memory.Millisecond.
Definition winner_record (si : Situation) (p : dialedPath) (c : Candidate) : Memory.Record_ :=
  let rttMs := Milliseconds (d_rtt p) in
  Memory.MkRecord (si_net si) geo (c_Country c) (Transport c) (c_Mode c) (if rttMs <? 1 then 1 else rttMs) (si_now si).

(** [selectPath]: [race] is what racing a ladder returns. The memory afterwards and what
    is written of it. *)
Definition selectPath (s : Memory.Store) (cooling : Candidate -> bool) (si : Situation)
    (race : list Candidate -> result RaceError (dialedPath * Candidate))
    : result SelectError (dialedPath * Candidate) * (Memory.Store * option bytes) :=
  let fails e := (Err e, (s, None)) in
  if si_update si then fails (Listing_failed UpdateRequired)
  else match poolCountries (si_listed si) (si_update_after si) with
       | Err e => fails (Listing_failed e)
       | Ok [] => fails NoCountryOffered
       | Ok countries =>
           let ladder := chainableLadder chaining (Ladder (ladder_input s cooling si countries)) in
           match ladder with
           | [] => fails NoCandidates
           | _ =>
               match race ladder with
               | Err e => fails (RaceLost e)
               | Ok (p, c) => (Ok (p, c), Memory.Put s (winner_record si p c))
               end
           end
       end.
End Select.

(** ** Keeping a path *)

Definition reselectRetries : nat := 4.
Inductive ReselectError := SelectFailed (e : SelectError) | ReselectStopped (why : Stop) | NoTry.
(** [reselect]: [wait k] is what interrupts the wait before try [k]. Also the tries made. *)
Fixpoint reselect_from (n k : nat) (wait : nat -> option Stop) (sel : nat -> result SelectError (dialedPath * Candidate))
    (last : ReselectError) : result ReselectError (dialedPath * Candidate) * nat :=
  match n with
  | O => (Err last, k)
  | S n =>
      match (if (0 <? k)%nat then wait k else None) with
      | Some why => (Err (ReselectStopped why), k)
      | None =>
          match sel k with
          | Ok won => (Ok won, S k)
          | Err e => reselect_from n (S k) wait sel (SelectFailed e)
          end
      end
  end.
Definition reselect (wait : nat -> option Stop) (sel : nat -> result SelectError (dialedPath * Candidate))
    : result ReselectError (dialedPath * Candidate) * nat :=
  reselect_from reselectRetries 0 wait sel NoTry.

(** The engine's active path: [setActivePath], [clearActivePath], [activePathServable]. *)
Record Active := MkActive { activeSess : option string; activeExitPub : bytes }.
Definition setActivePath (p : dialedPath) : Active := MkActive (d_sess p) (d_exitPub p).
Definition clearActivePath : Active := MkActive None [].
Definition activePathServable (a : Active) : bool :=
  bool_decide (is_Some (activeSess a)) && (0 <? List.length (activeExitPub a))%nat.

(** One round of [maintainPath]: what ends the wait for a drop, if not the drop; when it
    comes; the reselection; and whether a walk of the mesh finds new coordinators. *)
Record DropRound := MkDropRound {
  dr_stop : option Stop; dr_now : Time; dr_wait : nat -> option Stop;
  dr_select : nat -> result SelectError (dialedPath * Candidate); dr_recovers : bool;
}.
Record Maintained := MkMaintained {
  m_active : Active; m_current : Candidate; m_cooling : gmap Candidate Time;
}.
Inductive MaintainEnd := StillUp | MaintainStopped (why : Stop) | Recovering | ReselectGaveUp (e : ReselectError).
Definition all_silent (e : ReselectError) : bool :=
  match e with SelectFailed (Listing_failed ErrNoCoordinatorReachable) => true | _ => false end.
Fixpoint maintainPath (drops : list DropRound) (m : Maintained) : Maintained * MaintainEnd :=
  match drops with
  | [] => (m, StillUp)
  | d :: drops =>
      match dr_stop d with
      | Some why => (m, MaintainStopped why)
      | None =>
          let cool := markCandidateCooling (m_cooling m) (m_current m) (dr_now d) in
          match (reselect (dr_wait d) (dr_select d)).1 with
          | Err e =>
              (MkMaintained (m_active m) (m_current m) cool,
               if all_silent e && dr_recovers d then Recovering else ReselectGaveUp e)
          | Ok (p, c) => maintainPath drops (MkMaintained (setActivePath p) c cool)
          end
      end
  end.
(** [connectPooled]: the active path and the candidate to maintain, the SOCKS listener
    being bound or not, and a session closed. *)
Inductive PooledError := PoolSelect (e : SelectError) | SocksListen.
Definition connectPooled (sel : result SelectError (dialedPath * Candidate)) (bind : bool)
    : result PooledError (Active * Candidate) * Active * list string :=
  match sel with
  | Err e => (Err (PoolSelect e), clearActivePath, [])
  | Ok (p, c) =>
      if bind then (Ok (setActivePath p, c), setActivePath p, [])
      else (Err SocksListen, clearActivePath, option_list (d_sess p))
  end.

(** ** The race: its invariant *)

Section RaceProofs.
Context {DialError : Type} (ladder : list Candidate) (poolParallel : Z).
Implicit Types (s : Race DialError) (evs : list (RaceEvent DialError)).

(** What became of a dial that returned [r]. *)
Definition settled s (i : nat) (r : Dialed DialError) : Prop :=
  (winning r = None /\ i ∈ cooled s) \/ (exists p, verdict s = Won p i /\ winning r = Some p) \/
  (forall sess, session_of r = Some sess -> sess ∈ closed s).

Lemma winning_none_session (r : Dialed DialError) sess : winning r = None -> session_of r = Some sess -> False.
Proof. destruct r as [p|e]; cbn; [|done]. by destruct (d_sess p). Qed.

(** The counters in each phase. [lost] is whether the engine stopped the draining. *)
Definition phase (lost : Prop) s : Prop :=
  match verdict s with
  | Racing => launched s = (received s + List.length (dialing s) + List.length (resc s))%nat /\
              (received s < launched s)%nat /\ inflight s <= Z.max 1 poolParallel /\ draining s = 0%nat /\ closed s = []
  | Won _ _ => lost \/ draining s = (List.length (dialing s) + List.length (resc s))%nat
  | NoCandidate => dialing s = [] /\ resc s = [] /\ launched s = List.length ladder /\ draining s = 0%nat /\ closed s = []
  | RaceStopped _ => draining s = 0%nat
  end.

(** Who returned what, whatever the phase. *)
Record RaceCore evs s : Prop := {
  rc_launched : (1 <= launched s <= List.length ladder)%nat;
  rc_received : (received s <= launched s)%nat;
  rc_dialing : NoDup (dialing s);
  rc_dialed : forall i, i ∈ dialing s -> (i < launched s)%nat;
  rc_slots : forall i, (i < launched s)%nat -> i ∈ dialing s \/ exists r, Returned i r ∈ evs;
  rc_returned : forall i r, Returned i r ∈ evs ->
    (i < launched s)%nat /\ i ∉ dialing s /\ ((i, r) ∈ resc s \/ settled s i r);
  rc_once : forall i r r', Returned i r ∈ evs -> Returned i r' ∈ evs -> r = r';
  rc_resc : forall i r, (i, r) ∈ resc s -> Returned i r ∈ evs;
  rc_cooled : forall i, i ∈ cooled s -> exists r, Returned i r ∈ evs /\ winning r = None;
  rc_won : forall p i, verdict s = Won p i -> exists r, Returned i r ∈ evs /\ winning r = Some p;
  rc_stopped : forall why, verdict s = RaceStopped why -> Cancelled why ∈ evs;
}.
Definition RaceInv evs s : Prop := RaceCore evs s /\ phase (DrainStopped ∈ evs) s.

Lemma race_start_inv : ladder <> [] -> RaceInv [] race_start.
Proof.
  intros Hl. assert (1 <= List.length ladder)%nat by (destruct ladder; [done|cbn; lia]).
  split; [|unfold phase, inflight; cbn; split_and!; first [lia|done]].
  split; cbn; try (by intros * ?%not_elem_of_nil); try done.
  - lia.
  - repeat constructor. by intros ?%not_elem_of_nil.
  - intros i ->%list_elem_of_singleton. lia.
  - intros i Hi. left. apply list_elem_of_singleton. lia.
Qed.

(** An event that returns nothing leaves the record of the dials. *)
Definition quiet_event (ev : RaceEvent DialError) : Prop := match ev with Returned _ _ => False | _ => True end.
Lemma returned_snoc evs ev i r : quiet_event ev -> Returned i r ∈ evs ++ [ev] <-> Returned i r ∈ evs.
Proof.
  intros Hq. rewrite elem_of_app, list_elem_of_singleton. split; [|by left]. by intros [?|<-].
Qed.
Lemma core_quiet evs s ev : quiet_event ev -> RaceCore evs s -> RaceCore (evs ++ [ev]) s.
Proof.
  intros Hq []. pose proof (fun i r => returned_snoc evs ev i r Hq) as Hs.
  split; try done; try (intros * ?; setoid_rewrite Hs; by eauto).
  - intros i r. rewrite Hs. apply rc_returned0.
  - intros i r r'. rewrite !Hs. apply rc_once0.
  - intros why ?. apply elem_of_app. left. eauto.
Qed.
Lemma core_launch evs s : (launched s < List.length ladder)%nat -> RaceCore evs s -> RaceCore evs (launch s).
Proof.
  intros Hl []. split; cbn; try done; try lia.
  - constructor; [|done]. intros Hin. apply rc_dialed0 in Hin. lia.
  - intros i [->|Hin]%elem_of_cons; [lia|]. apply rc_dialed0 in Hin. lia.
  - intros i Hi. destruct (decide (i = launched s)) as [->|]; [left; left|].
    destruct (rc_slots0 i ltac:(lia)) as [?|?]; [left; by right|by right].
  - intros i r Hr. destruct (rc_returned0 i r Hr) as (Hi & Hn & Ho). split_and!; [lia| |done].
    intros [->|?]%elem_of_cons; [lia|done].
Qed.
(** Changing the phase and what is drained. *)
Lemma core_settle evs s v n cl :
  RaceCore evs s -> (forall p i, verdict s = Won p i -> v = Won p i) -> closed s ⊆ cl ->
  (forall p i, v = Won p i -> exists r, Returned i r ∈ evs /\ winning r = Some p) ->
  (forall why, v = RaceStopped why -> Cancelled why ∈ evs) ->
  RaceCore evs (MkRace (launched s) (received s) (dialing s) (resc s) (cooled s) v n cl).
Proof.
  intros [] Hw Hcl Hv Hs. split; cbn; try done.
  intros i r Hr. destruct (rc_returned0 i r Hr) as (Hi & Hn & Ho). split_and!; [done|done|].
  destruct Ho as [?|[[? ?]|[(p & Hp & ?)|Hd]]]; [by left|right; by left| |]; right; right.
  - left. exists p. cbn. auto.
  - right. cbn. intros sess Hs'. apply Hcl. eauto.
Qed.
(** Taking a result off the channel settles it. *)
Lemma core_take evs s i r rest n co v d cl :
  let s' := MkRace (launched s) n (dialing s) rest co v d cl in
  RaceCore evs s -> resc s = (i, r) :: rest -> (n <= launched s)%nat ->
  cooled s ⊆ co -> closed s ⊆ cl -> (forall p j, verdict s = Won p j -> v = Won p j) ->
  (forall j, j ∈ co -> j ∈ cooled s \/ j = i /\ winning r = None) ->
  (forall p j, v = Won p j -> verdict s = Won p j \/ j = i /\ winning r = Some p) ->
  (forall why, v = RaceStopped why -> verdict s = RaceStopped why) ->
  settled s' i r -> RaceCore evs s'.
Proof.
  intros s' [] Hr Hn Hco Hcl Hkeep Hcool Hwin Hstop Hset. assert (Returned i r ∈ evs) as Hev by (apply rc_resc0; rewrite Hr; left).
  split; cbn; try done.
  - intros j r' Hj. destruct (rc_returned0 j r' Hj) as (Hlt & Hnd & Ho). split_and!; [done|done|].
    destruct Ho as [Hin|[[? ?]|[(p & Hp & ?)|Hd]]].
    + rewrite Hr in Hin. apply elem_of_cons in Hin as [[= -> ->]|?]; [by right|by left].
    + right; left; auto.
    + right; right; left. exists p. cbn. auto.
    + right; right; right. cbn. intros sess Hs'. apply Hcl. eauto.
  - intros j r' Hin. apply rc_resc0. rewrite Hr. by right.
  - intros j [?|[-> ?]]%Hcool; eauto.
  - intros p j [?|[-> ?]]%Hwin; eauto.
  - auto.
Qed.

Lemma core_return evs s i r :
  RaceCore evs s -> i ∈ dialing s ->
  RaceCore (evs ++ [Returned i r])
    (MkRace (launched s) (received s) (filter (fun j => j <> i) (dialing s)) (resc s ++ [(i, r)])
      (cooled s) (verdict s) (draining s) (closed s)).
Proof.
  intros [] Hi.
  assert (forall j r', Returned j r' ∈ evs ++ [Returned i r] <-> Returned j r' ∈ evs \/ (j = i /\ r' = r)) as Hs.
  { intros j r'. rewrite elem_of_app, list_elem_of_singleton. split; intros [?|?]; try (by left); right; naive_solver. }
  assert (forall r', Returned i r' ∉ evs) as Hnew by (intros r' Hr'; by apply rc_returned0 in Hr' as (_ & ? & _)).
  assert (forall j r', Returned j r' ∈ evs -> Returned j r' ∈ evs ++ [Returned i r]) as Hold by (intros; apply Hs; auto).
  split; cbn; try done.
  - by apply NoDup_filter.
  - intros j [_ Hj]%list_elem_of_filter. eauto.
  - intros j Hj. destruct (decide (j = i)) as [->|Hne]; [right; exists r; apply Hs; auto|].
    destruct (rc_slots0 j Hj) as [?|[r' ?]]; [left; by apply list_elem_of_filter|right; eauto].
  - intros j r' [Hj|[-> ->]]%Hs.
    + destruct (rc_returned0 j r' Hj) as (Hlt & Hnd & Ho). split_and!; [done|by intros [_ ?]%list_elem_of_filter|].
      destruct Ho as [Hin|?]; [left; apply elem_of_app; by left|by right].
    + split_and!; [auto|by intros [? _]%list_elem_of_filter|]. left. apply elem_of_app. right. by left.
  - intros j r1 r2 [H1|[-> ->]]%Hs [H2|[H2 ->]]%Hs; [eauto|subst; by apply Hnew in H1|by apply Hnew in H2|done].
  - intros j r' [Hin|Hin]%elem_of_app; [eauto|]. apply list_elem_of_singleton in Hin as [= -> ->]. apply Hs. auto.
  - intros j (r' & ? & ?)%rc_cooled0. eauto.
  - intros p j (r' & ? & ?)%rc_won0. eauto.
  - intros why ?. apply elem_of_app. left. eauto.
Qed.

Lemma filter_out_length (l : list nat) i : NoDup l -> i ∈ l -> S (List.length (filter (fun j => j <> i) l)) = List.length l.
Proof.
  induction 1 as [|x l Hx Hl IH]; [by intros ?%not_elem_of_nil|]. intros [->|Hin]%elem_of_cons; rewrite filter_cons.
  - destruct (decide (x <> x)); [done|]. cbn. f_equal.
    assert (filter (fun j => j <> x) l = l) as ->; [|done]. clear -Hx. induction l as [|y l IH]; [done|].
    rewrite filter_cons. destruct (decide (y <> x)) as [|Hy]; [f_equal; apply IH; set_solver|]. apply dec_stable in Hy as ->. set_solver.
  - destruct (decide (x <> i)) as [|Hy]; [cbn; f_equal; by apply IH|]. apply dec_stable in Hy as ->. done.
Qed.
Lemma phase_mono (l l' : Prop) s : (l -> l') -> phase l s -> phase l' s.
Proof. unfold phase. destruct (verdict s); tauto. Qed.

Lemma on_result_inv evs s i r rest :
  RaceInv evs s -> verdict s = Racing -> resc s = (i, r) :: rest ->
  RaceInv evs (on_result ladder s i r rest).
Proof.
  intros [Hc Hp] Hv Hr. unfold phase in Hp. rewrite Hv, Hr in Hp. cbn in Hp. destruct Hp as (Hn & Hlt & Hfl & Hd & Hcl).
  pose proof (rc_launched _ _ Hc). unfold on_result, inflight in *. destruct (winning r) as [p|] eqn:Hw; cbn -[Nat.ltb].
  - split.
    + apply (core_take evs s i r rest); auto; try lia; try done; [congruence| |by right; left; exists p].
      intros q j [= <- <-]. auto.
    + unfold phase. cbn. right. lia.
  - assert (forall v, (forall p j, v <> Won p j) -> (forall why, v <> RaceStopped why) ->
      RaceCore evs (MkRace (launched s) (S (received s)) (dialing s) rest (cooled s ++ [i]) v (draining s) (closed s))) as Hcore.
    { intros v Hnw Hns. apply (core_take evs s i r rest); auto; try lia; try done.
      - set_solver.
      - congruence.
      - intros j [?| ->%list_elem_of_singleton]%elem_of_app; auto.
      - intros p j Heq. by apply Hnw in Heq.
      - intros why Heq. by apply Hns in Heq.
      - left. cbn. split; [done|]. apply elem_of_app. right. by left. }
    rewrite Hv. destruct (Nat.ltb_spec (launched s) (List.length ladder)); [|destruct (Z.eqb_spec (Z.of_nat (launched s) - Z.of_nat (S (received s))) 0) as [He|He]].
    + split; [apply core_launch; [done|by apply Hcore]|]. unfold phase, launch, inflight. cbn. split_and!; first [lia|done].
    + split; [by apply Hcore|]. unfold phase. cbn.
      split_and!; [apply length_zero_iff_nil; lia|apply length_zero_iff_nil; lia|lia|done|done].
    + split; [by apply Hcore|]. unfold phase, inflight. cbn. split_and!; first [lia|done].
Qed.

Lemma race_step_inv evs s ev s' : RaceInv evs s -> race_step ladder poolParallel s ev = Some s' -> RaceInv (evs ++ [ev]) s'.
Proof.
  intros [Hc Hp] Hs. assert (DrainStopped ∈ evs -> DrainStopped ∈ evs ++ [ev]) as Hmono by set_solver.
  assert (quiet_event ev -> RaceInv evs s' -> RaceInv (evs ++ [ev]) s') as Hquiet.
  { intros Hq [Hc' Hp']. split; [by apply core_quiet|by eapply phase_mono]. }
  destruct ev as [i r| | |why| |]; cbn in Hs.
  - case_bool_decide as Hi; [|done]. injection Hs as <-. split; [by apply core_return|].
    pose proof (filter_out_length _ _ (rc_dialing _ _ Hc) Hi) as Hlen. unfold phase in *. cbn. unfold inflight in *. cbn.
    destruct (verdict s); rewrite ?length_app; cbn.
    + destruct Hp as (? & ? & ? & ? & ?). split_and!; first [lia|done].
    + destruct Hp as [?|?]; [left; by apply Hmono|right; lia].
    + destruct Hp as (Hz & _). rewrite Hz in Hi. by apply not_elem_of_nil in Hi.
    + done.
  - destruct (verdict s) eqn:Hv; try done. injection Hs as <-. apply Hquiet; [done|]. unfold on_stagger.
    destruct (_ && _) eqn:Hg; [|by split]. b2p. apply Nat.ltb_lt in H. split; [by apply core_launch|].
    unfold phase, inflight in *. rewrite Hv in Hp. cbn. rewrite Hv. cbn. destruct Hp as (? & ? & ? & ? & ?). split_and!; first [lia|done].
  - destruct (verdict s) eqn:Hv; try done. destruct (resc s) as [|[i r] rest] eqn:Hr; [done|]. injection Hs as <-.
    apply Hquiet; [done|]. by apply on_result_inv.
  - destruct (verdict s) eqn:Hv; try done. injection Hs as <-. unfold phase in Hp. rewrite Hv in Hp. destruct Hp as (_ & _ & _ & Hd & _).
    split; [|by unfold phase; cbn]. apply core_settle; [by apply core_quiet|congruence|done|done|].
    intros ? [= <-]. set_solver.
  - destruct (draining s) as [|n] eqn:Hd; [done|]. destruct (resc s) as [|[i r] rest] eqn:Hr; [done|]. injection Hs as <-.
    apply Hquiet; [done|]. pose proof (rc_received _ _ Hc). split.
    + apply (core_take evs s i r rest); auto; try set_solver.
      right; right. cbn. intros sess ->. set_solver.
    + unfold phase in *. cbn. unfold inflight in *. rewrite Hr in Hp. cbn in Hp.
      destruct (verdict s); [destruct Hp as (? & ? & ? & ? & ?); lia|destruct Hp; [by left|right; lia]|by destruct Hp as (? & ? & _)|lia].
  - destruct (draining s) as [|n] eqn:Hd; [done|]. injection Hs as <-. split.
    + apply core_quiet; [done|]. apply core_settle; [done|congruence|done| |];
        intros *; [apply (rc_won _ _ Hc)|apply (rc_stopped _ _ Hc)].
    + unfold phase in *. cbn. unfold inflight in *. cbn.
      destruct (verdict s); [destruct Hp as (? & ? & ? & ? & ?); lia|left; set_solver|destruct Hp as (? & ? & ? & ? & ?); lia|done].
Qed.

Lemma race_inv evs s : ladder <> [] -> raceLadder ladder poolParallel evs = Some s -> RaceInv evs s.
Proof.
  intros Hl. revert s. induction evs as [|ev evs IH] using rev_ind; intros s.
  - intros [= <-]. by apply race_start_inv.
  - unfold raceLadder. rewrite foldl_snoc. intros (s0 & H0 & Hs)%bind_Some. eapply race_step_inv; [|done]. by apply IH.
Qed.
End RaceProofs.

Section RaceOutcome.
Context {DialError : Type} (ladder : list Candidate) (poolParallel : Z) (dial : nat -> Dialed DialError).
Context (evs : list (RaceEvent DialError)) (s : Race DialError).
Context (Hne : ladder <> []) (Hrun : raceLadder ladder poolParallel evs = Some s)
        (Hdial : forall i r, Returned i r ∈ evs -> r = dial i).

Lemma race_dialed i : i ∉ dialing s -> (i < launched s)%nat -> Returned i (dial i) ∈ evs.
Proof.
  intros Hn Hi. destruct (race_inv _ _ _ _ Hne Hrun) as [Hc _].
  destruct (rc_slots _ _ _ Hc i Hi) as [?|[r Hr]]; [done|]. by rewrite <-(Hdial _ _ Hr).
Qed.

Lemma race_won p i : verdict s = Won p i ->
  exists c sess, ladder !! i = Some c /\ dial i = Ok p /\ d_sess p = Some sess.
Proof.
  intros Hv. destruct (race_inv _ _ _ _ Hne Hrun) as [Hc _].
  destruct (rc_won _ _ _ Hc p i Hv) as (r & Hr & Hw). destruct (rc_returned _ _ _ Hc i r Hr) as (Hi & _).
  pose proof (rc_launched _ _ _ Hc). destruct (lookup_lt_is_Some_2 ladder i) as [c Hcd]; [lia|].
  rewrite (Hdial _ _ Hr) in Hw. unfold winning in Hw. destruct (dial i) as [p'|]; [|done].
  destruct (d_sess p') as [sess|] eqn:Hs; [|done]. injection Hw as ->. eauto.
Qed.

(** The losers' sessions are closed once the draining is over. *)
Lemma race_drained p i : verdict s = Won p i -> DrainStopped ∉ evs -> draining s = 0%nat ->
  forall j q, (j < launched s)%nat -> j <> i -> session_of (dial j) = Some q -> q ∈ closed s.
Proof.
  intros Hv Hn Hd j q Hj Hji Hq. destruct (race_inv _ _ _ _ Hne Hrun) as [Hc Hp].
  unfold phase in Hp. rewrite Hv in Hp. destruct Hp as [?|Hp]; [done|].
  assert (dialing s = []) as Hz by (apply length_zero_iff_nil; lia). assert (resc s = []) as Hr by (apply length_zero_iff_nil; lia).
  pose proof (race_dialed j ltac:(rewrite Hz; apply not_elem_of_nil) Hj) as Hev.
  destruct (rc_returned _ _ _ Hc j _ Hev) as (_ & _ & [Hin|[[Hw _]|[(p' & Hp' & _)|Hcl]]]).
  - rewrite Hr in Hin. by apply not_elem_of_nil in Hin.
  - exfalso. by eapply winning_none_session.
  - rewrite Hv in Hp'. congruence.
  - auto.
Qed.

Lemma race_lost : verdict s = NoCandidate -> forall i, (i < List.length ladder)%nat -> winning (dial i) = None.
Proof.
  intros Hv i Hi. destruct (race_inv _ _ _ _ Hne Hrun) as [Hc Hp].
  unfold phase in Hp. rewrite Hv in Hp. destruct Hp as (Hz & Hr & Hl & _ & Hcl0).
  pose proof (race_dialed i ltac:(rewrite Hz; apply not_elem_of_nil) ltac:(lia)) as Hev.
  destruct (rc_returned _ _ _ Hc i _ Hev) as (_ & _ & [Hin|[[Hw _]|[(p' & Hp' & _)|Hcl]]]).
  - rewrite Hr in Hin. by apply not_elem_of_nil in Hin.
  - done.
  - congruence.
  - destruct (winning (dial i)) as [p|] eqn:Hw; [|done]. exfalso.
    unfold winning in Hw. destruct (dial i) as [p'|]; [|done]. destruct (d_sess p') as [sess|] eqn:Hs; [|done].
    specialize (Hcl sess Hs). rewrite Hcl0 in Hcl. by apply not_elem_of_nil in Hcl.
Qed.
End RaceOutcome.

(** C17: Racing the ladder. Whatever order the timer, the results and a cancellation come
    in: at most [poolParallel] dials are out at once (at least one), and a race that is
    not over always has one out or a result to take, so it never waits for nothing. It is
    won only by a candidate whose dial came up, and when the losers have been drained
    every session another dial brought up is closed. It reports that nothing connected
    only if every candidate was dialed and failed, and only failures are marked cooling. *)
Theorem race_outcome {E} ladder poolParallel (dial : nat -> Dialed E) evs s :
  ladder <> [] -> raceLadder ladder poolParallel evs = Some s -> (forall i r, Returned i r ∈ evs -> r = dial i) ->
  (received s <= launched s <= List.length ladder)%nat /\
  (forall i, i ∈ cooled s -> winning (dial i) = None) /\
  match race_result ladder s with
  | None => (received s < launched s)%nat /\ inflight s <= Z.max 1 poolParallel /\ (dialing s <> [] \/ resc s <> [])
  | Some (Ok (p, c)) => exists i sess,
      ladder !! i = Some c /\ dial i = Ok p /\ d_sess p = Some sess /\
      (DrainStopped ∉ evs -> draining s <> 0%nat -> dialing s <> [] \/ resc s <> []) /\
      (DrainStopped ∉ evs -> draining s = 0%nat ->
       forall j q, (j < launched s)%nat -> j <> i -> session_of (dial j) = Some q -> q ∈ closed s)
  | Some (Err NoneConnected) => forall i, (i < List.length ladder)%nat -> winning (dial i) = None
  | Some (Err (RaceEnded why)) => Cancelled why ∈ evs
  | Some (Err EmptyLadder) => False
  end.
Proof.
  intros Hne Hrun Hdial. destruct (race_inv _ _ _ _ Hne Hrun) as [Hc Hp].
  pose proof (rc_launched _ _ _ Hc). pose proof (rc_received _ _ _ Hc).
  split; [lia|]. split; [intros i (r & Hr & Hw)%(rc_cooled _ _ _ Hc); by rewrite <-(Hdial _ _ Hr)|].
  assert (forall a b : nat, (a + b <> 0)%nat -> (a <> 0 \/ b <> 0)%nat) as Hsum by lia.
  assert ((List.length (dialing s) + List.length (resc s) <> 0)%nat -> dialing s <> [] \/ resc s <> []) as Hsome.
  { intros [Hl|Hl]%Hsum; [left|right]; intros Hz; by rewrite Hz in Hl. }
  unfold race_result, phase in *. destruct (verdict s) as [|p i| |why] eqn:Hv.
  - destruct Hp as (Hn & Hlt & Hfl & _). split_and!; [done|done|]. apply Hsome. lia.
  - destruct (race_won _ _ _ _ _ Hne Hrun Hdial p i Hv) as (c & sess & Hcd & Hok & Hs). rewrite Hcd. cbn.
    exists i, sess. split_and!; [done|done|done| |].
    + intros Hn Hd. destruct Hp as [?|Hp]; [done|]. apply Hsome. lia.
    + intros Hn Hd. by eapply race_drained.
  - by eapply race_lost.
  - by apply (rc_stopped _ _ _ Hc).
Qed.

Module Demo.
Definition ladder : list Candidate :=
  [MkCandidate "webrtc" "SE" "direct"; MkCandidate "reality" "SE" "direct"; MkCandidate "webrtc" "SE" "relay"].
Definition path (sess : string) : dialedPath := MkDialed (Some sess) "x" [] 1.
Definition dial (i : nat) : Dialed DialError :=
  match i with O => Err ProbeRead | 1%nat => Ok (path "a") | _ => Ok (path "b") end.
(** The first candidate freezes, the other two race, the last one comes up first. *)
Definition events : list (RaceEvent DialError) :=
  [Stagger; Returned 0 (dial 0); Receive; Stagger; Returned 2 (dial 2); Receive; Returned 1 (dial 1); Drain].
End Demo.

Lemma race_outcome_witness : exists s,
  raceLadder Demo.ladder 3 Demo.events = Some s /\ race_result Demo.ladder s = Some (Ok (Demo.path "b", MkCandidate "webrtc" "SE" "relay")) /\
  "a" ∈ closed s.
Proof.
  destruct (raceLadder Demo.ladder 3 Demo.events) as [s|] eqn:Hr; [|by vm_compute in Hr].
  exists s. split; [reflexivity|].
  assert (race_result Demo.ladder s = Some (Ok (Demo.path "b", MkCandidate "webrtc" "SE" "relay"))) as Hres.
  { vm_compute in Hr. injection Hr as <-. reflexivity. }
  split; [done|]. assert (draining s = 0%nat /\ launched s = 3%nat) as [Hd Hl] by (vm_compute in Hr; injection Hr as <-; by split).
  destruct (race_outcome Demo.ladder 3 Demo.dial Demo.events s) as (_ & _ & Ho); [done|done| |].
  { intros i r Hin. unfold Demo.events in Hin. rewrite !elem_of_cons, elem_of_nil in Hin.
    destruct Hin as [?|[[= -> ->]|[?|[?|[[= -> ->]|[?|[[= -> ->]|[?|[]]]]]]]]]; done. }
  rewrite Hres in Ho. destruct Ho as (i & sess & Hi & _ & _ & _ & Hcl). refine (Hcl _ Hd 1%nat "a" _ _ eq_refl).
  - unfold Demo.events. rewrite !elem_of_cons, elem_of_nil. intros Hin. decompose [or] Hin; done.
  - rewrite Hl. lia.
  - intros <-. vm_compute in Hi. discriminate.
Defined.

(** A race that is cancelled takes no more results: a session whose dial came up before
    stays open, and nothing waits for the dials still out. *)
Example cancelled_race_keeps_a_session : exists s,
  raceLadder Demo.ladder 3 [Returned 0 (Ok (Demo.path "a")); Cancelled CtxDone] = Some s /\
  race_result Demo.ladder s = Some (Err (RaceEnded CtxDone)) /\ resc s = [(0%nat, @Ok DialError _ (Demo.path "a"))] /\
  closed s = [] /\ race_step Demo.ladder 3 s Receive = None /\ race_step Demo.ladder 3 s Drain = None.
Proof. eexists. split; [vm_compute; reflexivity|]. by split_and!. Qed.

(** ** A candidate's dial *)

Section DialProofs.
Context `{Ed25519} (id : Identity).

Lemma pair_links_ok order link req a bad :
  pair_links id order link req = (Ok a, bad) ->
  exists raw dedup dial sent, raw ∈ order /\ pl_stop (link raw) = None /\
    attemptWith id raw (pl_round (link raw)) req None = (a, dedup, dial, sent) /\ a_outcome a = connectOK /\
    forall r, r ∈ bad -> r ∈ order.
Proof.
  revert a bad. induction order as [|raw order IH]; intros a bad; cbn [pair_links]; [done|].
  destruct (pl_stop (link raw)) eqn:Hs; [done|].
  destruct (attemptWith id raw (pl_round (link raw)) req None) as [[[a1 dedup] dial] sent] eqn:Ha.
  destruct (pair_links id order link req) as [r bad1] eqn:Hp.
  assert (forall bad', bad' = bad1 \/ bad' = raw :: bad1 -> (r, bad') = (Ok a, bad) -> a_outcome a1 <> connectOK ->
    exists raw0 dedup dial sent, raw0 ∈ raw :: order /\ pl_stop (link raw0) = None /\
      attemptWith id raw0 (pl_round (link raw0)) req None = (a, dedup, dial, sent) /\ a_outcome a = connectOK /\
      forall r, r ∈ bad -> r ∈ raw :: order) as Hgo.
  { intros bad' Hb [= -> <-] _. destruct (IH a bad1 eq_refl) as (raw0 & d0 & x0 & s0 & Hin & Hs0 & Ha0 & Ho0 & Hbad).
    exists raw0, d0, x0, s0. split_and!; [by right|done|done|done|].
    intros q Hq. destruct Hb as [->| ->]; [right; auto|]. apply elem_of_cons in Hq as [->|?]; [left|right; auto]. }
  destruct (a_outcome a1) eqn:Ho; try (intros Heq; apply (Hgo _ (or_introl eq_refl) Heq); by intros).
  - intros [= <- <-]. exists raw, dedup, dial, sent. split_and!; [left|done|done|done|]. by intros q ?%not_elem_of_nil.
  - intros Heq. apply (Hgo _ (or_intror eq_refl) Heq). by intros.
Qed.

(** An attempt that succeeds has a session, named like the coordinator's. *)
Lemma attemptWith_session raw r req dedup a d x sent :
  attemptWith id raw r req dedup = (a, d, x, sent) -> a_outcome a = connectOK ->
  a_sess a = Some (a_sid a) /\ rnd_dial r (a_sid a) = true.
Proof.
  unfold attemptWith. destruct (newConnectNonce _); [|by intros [= <- <- <- <-]].
  destruct (presentDeviceCredential _ _ _) as [[sn f] q]. destruct (rnd_handshake r); [by intros [= <- <- <- <-]|].
  destruct (awaitSession _) as [y []]; try (by intros [= <- <- <- <-]; cbn; repeat case_match).
  unfold use_reply. destruct (match q_plan req with Some _ => _ | None => _ end) as [[xid xpub]|]; [|by intros [= <- <- <- <-]].
  destruct (_ && _); [by intros [= <- <- <- <-]|]. destruct (negb _); [by intros [= <- <- <- <-]|].
  destruct (_ && seen _ _); [by intros [= <- <- <- <-]|]. destruct (rnd_dial r (y_sid y)) eqn:Hd; by intros [= <- <- <- <-].
Qed.

(** A request for candidate [c], with the sessions that failed before it. *)
Definition asks (cfg : RelayChain.Config) (c : Candidate) (failed : list string) (q : connectReq) : Prop :=
  q_country q = c_Country c /\ q_mode q = c_Mode c /\ q_exclude q = filter (fun x => x <> "") failed /\
  (chaining cfg = true -> c_Mode c = modeRelay -> is_Some (q_plan q)).
(** What a dial keeps to after [k] sessions failed. *)
Record going (cfg : RelayChain.Config) (c : Candidate) (k : nat) (exclude : list string) (l : DialLog) : Prop := {
  go_requests : List.length (dl_requests l) = k;
  go_closed : List.length (dl_closed l) = k;
  go_opened : dl_opened l = dl_closed l;
  go_exclude : exclude = filter (fun x => x <> "") (dl_closed l);
  go_asks : forall i q, dl_requests l !! i = Some q -> asks cfg c (take i (dl_closed l)) q;
}.

Lemma chainFor_plan cfg dir cooling country rs plan :
  (chainFor cfg dir cooling true country rs).1 = Ok plan -> chaining cfg = true -> is_Some plan.
Proof.
  unfold chainFor. intros Hp Hc. rewrite Hc in Hp. cbn in Hp. revert Hp.
  match goal with |- context [buildChain ?a ?b ?n ?d] => generalize (buildChain a b n d) end.
  intros m Hp. unfold mbind_, RelayChain.mret in Hp. cbn in Hp. destruct (m rs) as [[p|e] rs']; [|done]. injection Hp as <-. eauto.
Qed.

Lemma dial_attempts_spec cfg c try n : forall k exclude lastErr l r l',
  going cfg c k exclude l -> dial_attempts id cfg c try n k exclude lastErr l = (r, l') ->
  (List.length (dl_requests l') <= k + n)%nat /\
  dl_opened l' = dl_closed l' ++ option_list (session_of r) /\
  (forall i q, dl_requests l' !! i = Some q -> asks cfg c (take i (dl_closed l')) q) /\
  (forall p, r = Ok p -> exists j sess, (k <= j < k + n)%nat /\ d_sess p = Some sess /\
     validateSession (t_opened (try j) sess (d_exitPub p)) (t_probe (try j) sess) = Ok (d_rtt p)).
Proof.
  induction n as [|n IH]; intros k exclude lastErr l r l' Hg; cbn [dial_attempts].
  { intros [= <- <-]. destruct Hg. split_and!; [lia| |done|done]. cbn. by rewrite app_nil_r. }
  destruct (chainFor _ _ _ _ _ _).1 as [plan|e] eqn:Hplan.
  2:{ intros [= <- <-]. destruct Hg. split_and!; [lia| |done|done]. cbn. by rewrite app_nil_r. }
  set (req := MkReq _ _ _ _). destruct (pairInCountry _ _ _ _ _ _) as [pr bad] eqn:Hpair.
  assert (asks cfg c (dl_closed l) req) as Hreq.
  { destruct Hg. split_and!; [done|done|done|]. intros Hc Hm. rewrite Hm in Hplan. cbn in Hplan.
    destruct (chainFor_plan _ _ _ _ _ _ Hplan Hc) as [[? ?] ->]. by eexists. }
  assert (forall i q cl, dl_closed l `prefix_of` cl -> (dl_requests l ++ [req]) !! i = Some q -> asks cfg c (take i cl) q) as Hasks.
  { intros i q cl [rest ->] Hi. destruct Hg. apply lookup_app_Some in Hi as [Hi|[Hge Hi]].
    - rewrite take_app_le; [by apply go_asks0|]. apply lookup_lt_Some in Hi. lia.
    - apply list_lookup_singleton_Some in Hi as [Hz <-]. assert (i = List.length (dl_closed l)) as -> by lia. by rewrite take_app_length. }
  destruct pr as [a|e].
  2:{ intros [= <- <-]. destruct Hg. cbn [dl_requests dl_opened dl_closed]. split_and!; [rewrite length_app; cbn; lia| | |done].
      - cbn. by rewrite app_nil_r. - intros i q Hi. by apply (Hasks i q). }
  apply pair_links_ok in Hpair as (raw & d & x & sent & _ & _ & Ha & Ho & _).
  destruct (attemptWith_session _ _ _ _ _ _ _ _ Ha Ho) as [Hs _]. rewrite Hs. cbn [default option_list].
  destruct (validateSession _ _) as [rtt|e] eqn:Hv.
  - intros [= <- <-]. destruct Hg. cbn [dl_requests dl_opened dl_closed]. split_and!; [rewrite length_app; cbn; lia| | |].
    + cbn. by rewrite go_opened0.
    + intros i q Hi. by apply (Hasks i q).
    + intros p [= <-]. cbn. exists k, (a_sid a). split_and!; [lia|lia|done|done].
  - intros Hrec. apply IH in Hrec as (H1 & H2 & H3 & H4).
    + split_and!; [lia|done|done|]. intros p Hp. destruct (H4 p Hp) as (j & sess & Hj & Hrest). exists j, sess. split; [lia|done].
    + destruct Hg. split; cbn [dl_requests dl_opened dl_closed]; change (option_list (Some (a_sid a))) with [a_sid a] in *; rewrite ?length_app; cbn [List.length]; try lia.
      * by rewrite go_opened0.
      * subst exclude. rewrite filter_app. assert (filter (fun x => x <> "") [a_sid a] = if String.eqb (a_sid a) "" then [] else [a_sid a]) as ->.
        { rewrite filter_cons. destruct (String.eqb_spec (a_sid a) ""), (decide (a_sid a <> "")); done. }
        destruct (String.eqb (a_sid a) ""); [by rewrite app_nil_r|done].
      * intros i q Hi. apply (Hasks i q); [by eexists|done].
Qed.
End DialProofs.

(** A candidate that is dialed makes at most two requests, all for its country and mode
    and, when the client chains, through a chain; the second asks to be kept off the exit
    that failed the first. What comes back is a session over which the probe came back
    whole, and every other session the dial opened is closed. *)
Theorem dial_validated `{Ed25519} id cfg transports c try r l :
  dialAndValidate id cfg transports c try = (r, l) ->
  (List.length (dl_requests l) <= countryAttempts)%nat /\
  dl_opened l = dl_closed l ++ option_list (session_of r) /\
  (forall i q, dl_requests l !! i = Some q -> asks cfg c (take i (dl_closed l)) q) /\
  (forall p, r = Ok p -> Transport c ∈ transports /\ exists j sess, (j < countryAttempts)%nat /\ d_sess p = Some sess /\
     validateSession (t_opened (try j) sess (d_exitPub p)) (t_probe (try j) sess) = Ok (d_rtt p) /\
     (probeBytes <= List.length (pr_back (t_probe (try j) sess)))%nat).
Proof.
  unfold dialAndValidate. case_bool_decide as Ht; [|intros [= <- <-]; split_and!; [unfold countryAttempts; cbn; lia|done|done|done]].
  intros Hd. apply dial_attempts_spec in Hd as (H1 & H2 & H3 & H4); [|by split].
  split_and!; [done|done|done|]. intros p Hp. destruct (H4 p Hp) as (j & sess & Hj & Hs & Hv).
  split; [done|]. exists j, sess. split_and!; [lia|done|done|]. unfold validateSession, runProbe in Hv.
  destruct (t_opened _ _ _); [|done|done]. destruct (pr_random _); [|done].
  destruct (Nat.ltb_spec (List.length (pr_back (t_probe (try j) sess))) probeBytes); [done|lia].
Qed.

(** An exit that echoes what it is sent passes the probe. *)
Lemma probe_echo payload t : List.length payload = probeBytes ->
  runProbe (MkProbe true (handleProbeStream payload) true t) = Ok t.
Proof.
  intros Hl. unfold runProbe, handleProbeStream. cbn [pr_random pr_back pr_wrote pr_time negb].
  rewrite take_ge by (rewrite Hl; unfold probeBytes, maxProbeEcho; change (Z.shiftl 1 20) with 1048576; lia). by rewrite Hl, Nat.ltb_irrefl.
Qed.

(** ** Order, reselection and what is kept *)

(** A coordinator that failed lately is tried after those that did not, never dropped. *)
Lemma orderLinks_spec shuffle links unhealthy now :
  (forall l, shuffle l ≡ₚ l) ->
  orderLinks shuffle links unhealthy now ≡ₚ links /\
  exists healthy bad, orderLinks shuffle links unhealthy now = healthy ++ bad /\
    (forall a, a ∈ healthy -> cooling_for coordCooldown unhealthy now a = false) /\
    (forall a, a ∈ bad -> cooling_for coordCooldown unhealthy now a = true).
Proof.
  intros Hs. unfold orderLinks, rankCoordinators. set (f := cooling_for coordCooldown unhealthy now). split.
  - transitivity (shuffle links); [|apply Hs]. clear Hs. induction (shuffle links) as [|a l IH]; [done|]. rewrite !filter_cons.
    destruct (f a) eqn:Hf; cbn [negb]; repeat destruct decide; try done; [|by constructor].
    rewrite <-Permutation_middle. by constructor.
  - eexists _, _. split; [done|]. split; intros a [Ha _]%list_elem_of_filter; apply Is_true_true in Ha; by b2p.
Qed.

(** Reselection tries a bounded number of times and keeps the first path it finds; it
    reports the last failure only when every try failed. *)
Lemma reselect_from_spec n : forall k wait sel last r m,
  reselect_from n k wait sel last = (r, m) -> (forall why, last <> ReselectStopped why) ->
  (k <= m <= k + n)%nat /\
  match r with
  | Ok won => (k < m)%nat /\ sel (m - 1)%nat = Ok won
  | Err (ReselectStopped why) => (0 < m)%nat /\ wait m = Some why
  | Err e => m = (k + n)%nat /\ (n = 0%nat /\ e = last \/ exists f, e = SelectFailed f /\ sel (m - 1)%nat = Err f)
  end /\
  forall j won, (k <= j < m)%nat -> sel j = Ok won -> r = Ok won.
Proof.
  induction n as [|n IH]; intros k wait sel last r m; cbn [reselect_from].
  { intros [= <- <-] Hl. split_and!; [lia|lia| |intros; lia].
    destruct last; [split; [lia|by left]|by edestruct Hl|split; [lia|by left]]. }
  intros Hr Hl. destruct (if (0 <? k)%nat then wait k else None) as [why|] eqn:Hw.
  { injection Hr as <- <-. destruct (Nat.ltb_spec 0 k); [|done]. split_and!; [lia|lia|lia|done|intros; lia]. }
  destruct (sel k) as [won|e] eqn:Hs.
  { injection Hr as <- <-. split_and!; [lia|lia|lia|by replace (S k - 1)%nat with k by lia|].
    intros j won' Hj. replace j with k by lia. congruence. }
  apply IH in Hr as ((Hm1 & Hm2) & Hcase & Hfirst); [|done]. split_and!; [lia|lia| |].
  - destruct r as [won|[f|why|]]; [split; [lia|by destruct Hcase]| |done|].
    + destruct Hcase as [Hm [[Hn Hf]|Hf]]; (split; [lia|]; right); [|done].
      exists e. split; [done|]. by replace (m - 1)%nat with k by lia.
    + destruct Hcase as [Hm [[Hn Hf]|(? & ? & ?)]]; done.
  - intros j won Hj Hok. destruct (decide (j = k)) as [->|]; [congruence|]. apply (Hfirst j); [lia|done].
Qed.

(** A kept path: as long as what a selection returns can be served, so can the active
    path; a candidate whose path dropped is cooling for the reselection; and the mesh is
    walked only after every try found all coordinators silent at the last. *)
Lemma maintainPath_spec drops m m' e :
  maintainPath drops m = (m', e) ->
  (forall d k p c, d ∈ drops -> dr_select d k = Ok (p, c) -> activePathServable (setActivePath p) = true) ->
  activePathServable (m_active m) = true ->
  activePathServable (m_active m') = true /\
  (forall c, is_Some (m_cooling m !! c) -> is_Some (m_cooling m' !! c)) /\
  (e <> StillUp -> (forall why, e <> MaintainStopped why) -> is_Some (m_cooling m' !! m_current m')) /\
  (e = Recovering -> exists d, d ∈ drops /\ dr_select d (reselectRetries - 1)%nat = Err (Listing_failed ErrNoCoordinatorReachable)).
Proof.
  revert m. induction drops as [|d drops IH]; intros m; cbn [maintainPath]; [by intros [= <- <-]|].
  intros Hm Hsel Ha. destruct (dr_stop d) as [why|]; [injection Hm as <- <-; split_and!; try done; intros _ Hn; by edestruct Hn|].
  assert (forall c, is_Some (m_cooling m !! c) -> is_Some (markCandidateCooling (m_cooling m) (m_current m) (dr_now d) !! c)) as Hkeep.
  { intros c Hc. unfold markCandidateCooling, mark. destruct (decide (m_current m = c)) as [->|];
      [rewrite lookup_insert_eq; eauto|by rewrite lookup_insert_ne]. }
  destruct (reselect (dr_wait d) (dr_select d)) as [r n] eqn:Hr. cbn [fst] in Hm.
  apply reselect_from_spec in Hr as (Hn & Hcase & _); [|done]. destruct r as [[p c]|er].
  - apply IH in Hm as (H1 & H2 & H3 & H4).
    + split_and!; [done|auto|done|]. intros He. destruct (H4 He) as (d' & Hd' & ?). exists d'. split; [by right|done].
    + intros d' k p' c' Hd' Hok. apply (Hsel d' k p' c'); [by right|done].
    + apply (Hsel d (n - 1)%nat p c); [left|exact (proj2 Hcase)].
  - injection Hm as <- <-. split_and!; [done|done| |].
    + intros _ _. cbn. unfold markCandidateCooling, mark. rewrite lookup_insert_eq. eauto.
    + destruct (all_silent er && dr_recovers d) eqn:Hs; [|done]. intros _. b2p. exists d. split; [left|].
      destruct er as [[[]| | |]| |]; try done. destruct Hcase as [Hm [[? ?]|(f & [= <-] & Hf)]]; [done|].
      rewrite Hm in Hf. exact Hf.
Qed.

(** ** Witness *)

Module DialDemo.
Import Toy.
Definition exit_id : string := hex_EncodeToString (repeat "x"%char 32).
Definition paired (sid : string) : Round :=
  MkRound (Some (repeat "n"%char 16)) [] [msg_session sid exit_id "" "" ""] false false (fun _ => true).
Definition try (k : nat) : Try :=
  MkTry None (fun _ => false) [] ["a:1"] (fun _ => MkPoolLink None (paired (if (k =? 0)%nat then "s0" else "s1")))
    (fun _ _ => ChainDial.Connected [])
    (fun s => MkProbe true (repeat "z"%char (if String.eqb s "s0" then 16384 else probeBytes)) true 7).
Definition identity : Identity := MkIdentity "" None "d"%char.
Definition cfg : RelayChain.Config := RelayChain.MkConfig "" "" "" 0 "" [] [] [] true false.
Definition candidate : Candidate := MkCandidate "webrtc" "SE" "direct".
End DialDemo.

Lemma dial_validated_witness :
  let '(r, l) := dialAndValidate DialDemo.identity DialDemo.cfg ["webrtc"] DialDemo.candidate DialDemo.try in
  (exists p, r = Ok p /\ d_sess p = Some "s1" /\ d_rtt p = 7 /\
     (probeBytes <= List.length (pr_back (t_probe (DialDemo.try 1) "s1")))%nat) /\
  dl_closed l = ["s0"] /\ (q_exclude <$> dl_requests l) = [[]; ["s0"]].
Proof.
  destruct (dialAndValidate DialDemo.identity DialDemo.cfg ["webrtc"] DialDemo.candidate DialDemo.try) as [r l] eqn:Hd.
  destruct (dial_validated DialDemo.identity DialDemo.cfg ["webrtc"] DialDemo.candidate DialDemo.try r l Hd) as (_ & _ & _ & Hok).
  vm_compute in Hd. injection Hd as <- <-. split; [|split; reflexivity].
  eexists. split; [reflexivity|]. split; [reflexivity|]. split; [reflexivity|].
  destruct (Hok _ eq_refl) as (_ & j & sess & _ & [= <-] & _ & Hb). exact Hb.
Defined.
