(* ===== verification/Nft.v ===== *)
(** * The kill switch's ruleset: [cmd/bacchus-netd/nft.go]

    The lockdown is a chain that drops what no rule accepts. This file has the messages
    that build it, with their encoding, what the kernel makes of a batch of them, and
    which packets the ruleset lets out. The kernel is modelled as far as the code uses
    it: a batch is applied whole or not at all, and a rule is a program of expressions
    over one register ([run]), as [nft(8)] and the netlink documentation describe. The
    encoding is that of a little-endian machine. *)

From S2P Require Import ASN.
From S2P Require Import Prelude GoStrings Net GeoIP.
Local Open Scope Z_scope.

Fixpoint le_bytes (n : nat) (z : Z) : bytes :=
  match n with O => [] | S n => byte_of z :: le_bytes n (z / 256) end.

(** The zero [netip.Addr] is an absence. *)
Definition As4 (a : Addr) : bytes := be_bytes 4 (val a).

(** ** Netlink attributes: [attr] of [rtnetlink.go] and its users *)

Definition attr (typ : Z) (data : bytes) : bytes :=
  let l := (4 + List.length data)%nat in
  le_bytes 2 (Z.of_nat l) ++ le_bytes 2 typ ++ data ++ repeat Ascii.zero ((4 - l mod 4) mod 4).
Definition nftAttrU32 (typ v : Z) : bytes := attr typ (be_bytes 4 v).
Definition nftAttrStr (typ : Z) (s : string) : bytes := attr typ (bytes_of s ++ [Ascii.zero]).
Definition NLA_F_NESTED : Z := 32768.
Definition nftAttrNested (typ : Z) (children : bytes) : bytes := attr (Z.lor typ NLA_F_NESTED) children.
(** [nfgenmsg], for the [inet] family. *)
Definition nfgenmsg : bytes := byte_of 1 :: repeat Ascii.zero 3.

Definition nftTableName : string := "bacchus".
Definition nftChainName : string := "output".
Definition nftAllowSet : string := "allow4".
Definition nftServeSet : string := "serve4".

Definition nftMetaOIF : Z := 5.
Definition nftMetaNFProto : Z := 15.
Definition nftMetaL4Proto : Z := 16.
Definition nftPayloadNetworkHeader : Z := 1.
Definition nftPayloadTransportHeader : Z := 2.
Definition nfDrop : Z := 0.
Definition nfAccept : Z := 1.
Definition nfprotoIPv4 : Z := 2.

(** ** Expressions and rules *)

Inductive Expr :=
| exprMetaLoad (key : Z)
| exprCmpEq (value : bytes)
| exprPayloadLoad (base offset length : Z)
| exprBitwiseMask (mask : bytes)
| exprLookup (set : string)
| exprVerdict (code : Z).
#[export] Instance Expr_eq_dec : EqDecision Expr.
Proof. solve_decision. Defined.

Definition expr (name : string) (data : bytes) : bytes :=
  nftAttrNested 1 (nftAttrStr 1 name ++ nftAttrNested 2 data).
Definition expr_bytes (e : Expr) : bytes :=
  match e with
  | exprMetaLoad key => expr "meta" (nftAttrU32 2 key ++ nftAttrU32 1 1)
  | exprCmpEq value => expr "cmp" (nftAttrU32 1 1 ++ nftAttrU32 2 0 ++ nftAttrNested 3 (attr 1 value))
  | exprPayloadLoad base offset length =>
      expr "payload" (nftAttrU32 1 1 ++ nftAttrU32 2 base ++ nftAttrU32 3 offset ++ nftAttrU32 4 length)
  | exprBitwiseMask mask =>
      expr "bitwise" (nftAttrU32 1 1 ++ nftAttrU32 2 1 ++ nftAttrU32 3 (Z.of_nat (List.length mask)) ++
        nftAttrNested 4 (attr 1 mask) ++ nftAttrNested 5 (attr 1 (repeat Ascii.zero (List.length mask))))
  | exprLookup set => expr "lookup" (nftAttrStr 1 set ++ nftAttrU32 2 1)
  | exprVerdict code => expr "immediate" (nftAttrU32 1 0 ++ nftAttrNested 2 (nftAttrNested 2 (nftAttrU32 1 code)))
  end.

(** ** Messages *)

Inductive NftMsg :=
| NewTable | DelTable
| NewChain (policy : Z)
| NewSet (name : string) (id : Z)
| NewSetElem (set : string) (keys : list bytes)
| DelSetElem (set : string) (keys : list bytes)
| NewRule (exprs : list Expr).
#[export] Instance NftMsg_eq_dec : EqDecision NftMsg.
Proof. solve_decision. Defined.

(** The elements of a set, one nested attribute each. *)
Definition elems_bytes (keys : list bytes) : bytes :=
  List.concat (map (fun k => nftAttrNested 1 (nftAttrNested 1 (attr 1 k))) keys).
Definition elem_body (set : string) (keys : list bytes) : bytes :=
  nfgenmsg ++ nftAttrStr 1 nftTableName ++ nftAttrStr 2 set ++ nftAttrNested 3 (elems_bytes keys).
(** The [NFT_MSG_*] number, the flags and the body of a message. *)
Definition NLM_F_CREATE : Z := 1024.
Definition NLM_F_APPEND : Z := 2048.
Definition msg_parts (m : NftMsg) : Z * Z * bytes :=
  match m with
  | NewTable => (0, NLM_F_CREATE, nfgenmsg ++ nftAttrStr 1 nftTableName)
  | DelTable => (2, 0, nfgenmsg ++ nftAttrStr 1 nftTableName)
  | NewChain policy =>
      (3, NLM_F_CREATE,
       nfgenmsg ++ nftAttrStr 1 nftTableName ++ nftAttrStr 3 nftChainName ++
       nftAttrNested 4 (nftAttrU32 1 3 ++ nftAttrU32 2 0) ++ nftAttrStr 7 "filter" ++ nftAttrU32 5 policy)
  | NewSet name id =>
      (9, NLM_F_CREATE,
       nfgenmsg ++ nftAttrStr 1 nftTableName ++ nftAttrStr 2 name ++ nftAttrU32 4 7 ++ nftAttrU32 5 4 ++ nftAttrU32 10 id)
  | NewSetElem set keys => (12, NLM_F_CREATE, elem_body set keys)
  | DelSetElem set keys => (14, 0, elem_body set keys)
  | NewRule exprs =>
      (6, Z.lor NLM_F_CREATE NLM_F_APPEND,
       nfgenmsg ++ nftAttrStr 1 nftTableName ++ nftAttrStr 2 nftChainName ++
       nftAttrNested 4 (List.concat (map expr_bytes exprs)))
  end.

(** [elemMsg]: IPv6 addresses are left out, and nothing is sent for none. *)
Definition elemMsg (mk : list bytes -> NftMsg) (addrs : list Addr) : option NftMsg :=
  match filter Is4 addrs with [] => None | l => Some (mk (map As4 l)) end.
Definition setElemMsg (addrs : list Addr) : option NftMsg := elemMsg (NewSetElem nftAllowSet) addrs.
Definition serveElemMsg (addr : Addr) : option NftMsg := elemMsg (NewSetElem nftServeSet) [addr].
Definition serveElemDelMsg (addr : Addr) : option NftMsg := elemMsg (DelSetElem nftServeSet) [addr].

(** ** [enableKillSwitch] *)

Record killSwitchSpec := MkSpec {
  TunIfIndex : Z; LoIfIndex : Z; Hosts : list Addr; Nets : list Prefix; ServedSrc : option Addr;
}.

Definition hostU32 (v : Z) : bytes := le_bytes 4 v.
Definition bePort (p : Z) : bytes := be_bytes 2 p.

(** [net4Mask]: a negative shift count is a panic, a count of 32 gives zero. *)
Definition net4Mask (bits : Z) : option bytes :=
  if 32 - bits <? 0 then None else Some (be_bytes 4 (Z.shiftl 4294967295 (32 - bits) mod 4294967296)).
(** [As4] of a network, which panics on an address that is neither an IPv4 address nor
    one mapped into IPv6. *)
Definition network4 (p : Prefix) : option bytes :=
  let a := Unmap (Prefix_Addr (Masked p)) in if Is4 a then Some (As4 a) else None.

Definition oif_rule (index : Z) : NftMsg :=
  NewRule [exprMetaLoad nftMetaOIF; exprCmpEq (hostU32 index); exprVerdict nfAccept].
Definition ipv4_rule (es : list Expr) : NftMsg :=
  NewRule (exprMetaLoad nftMetaNFProto :: exprCmpEq [byte_of nfprotoIPv4] :: es ++ [exprVerdict nfAccept]).
Definition allow_rule : NftMsg := ipv4_rule [exprPayloadLoad nftPayloadNetworkHeader 16 4; exprLookup nftAllowSet].
Definition serve_rule : NftMsg := ipv4_rule [exprPayloadLoad nftPayloadNetworkHeader 12 4; exprLookup nftServeSet].
Definition net_rule (p : Prefix) : option NftMsg :=
  mask ← net4Mask (Bits p);
  network ← network4 p;
  Some (ipv4_rule [exprPayloadLoad nftPayloadNetworkHeader 16 4; exprBitwiseMask mask; exprCmpEq network]).
Definition dhcp_rule : NftMsg :=
  NewRule [exprMetaLoad nftMetaL4Proto; exprCmpEq [byte_of 17];
           exprPayloadLoad nftPayloadTransportHeader 0 2; exprCmpEq (bePort 68);
           exprPayloadLoad nftPayloadTransportHeader 2 2; exprCmpEq (bePort 67); exprVerdict nfAccept].

(** The batch; none when building it panics. *)
Definition killSwitchMsgs (spec : killSwitchSpec) : option (list NftMsg) :=
  nets ← mapM net_rule (Nets spec);
  Some ([NewTable; NewChain nfDrop; NewSet nftAllowSet 1] ++
        match ServedSrc spec with
        | Some src => NewSet nftServeSet 2 :: option_list (serveElemMsg src)
        | None => []
        end ++
        option_list (setElemMsg (Hosts spec)) ++
        [oif_rule (TunIfIndex spec); oif_rule (LoIfIndex spec); allow_rule] ++
        match ServedSrc spec with Some _ => [serve_rule] | None => [] end ++
        nets ++ [dhcp_rule]).

(** ** The kernel's side *)

Record Table := MkTable { t_policy : Z; t_sets : gmap string (gset bytes); t_rules : list (list Expr) }.
Inductive NftError := ENOENT | EEXIST | EOTHER.
#[export] Instance NftError_eq_dec : EqDecision NftError.
Proof. solve_decision. Defined.

(** One message of a batch. A new element that is there already is not an error; one
    that is deleted has to be there. *)
Definition apply_msg (t : option Table) (m : NftMsg) : result NftError (option Table) :=
  match m, t with
  | NewTable, None => Ok (Some (MkTable nfAccept ∅ []))
  | NewTable, Some t => Ok (Some t)
  | DelTable, Some _ => Ok None
  | NewChain p, Some t => Ok (Some (MkTable p (t_sets t) (t_rules t)))
  | NewSet name _, Some t => Ok (Some (MkTable (t_policy t) (<[name := default ∅ (t_sets t !! name)]> (t_sets t)) (t_rules t)))
  | NewSetElem set keys, Some t =>
      match t_sets t !! set with
      | Some s => Ok (Some (MkTable (t_policy t) (<[set := s ∪ list_to_set keys]> (t_sets t)) (t_rules t)))
      | None => Err ENOENT
      end
  | DelSetElem set keys, Some t =>
      match t_sets t !! set with
      | Some s => if bool_decide (Forall (fun k => k ∈ s) keys)
                  then Ok (Some (MkTable (t_policy t) (<[set := s ∖ list_to_set keys]> (t_sets t)) (t_rules t)))
                  else Err ENOENT
      | None => Err ENOENT
      end
  | NewRule es, Some t => Ok (Some (MkTable (t_policy t) (t_sets t) (t_rules t ++ [es])))
  | _, None => Err ENOENT
  end.
Fixpoint apply_batch (t : option Table) (ms : list NftMsg) : result NftError (option Table) :=
  match ms with
  | [] => Ok t
  | m :: ms => let? t := apply_msg t m in apply_batch t ms
  end.

(** A packet on its way out, as the expressions see it. *)
Record Packet := MkPacket { meta : Z -> bytes; payload : Z -> Z -> Z -> option bytes }.
Definition and_byte (a b : ascii) : ascii := byte_of (Z.land (octet a) (octet b)).

(** A rule: whether it reaches its verdict. *)
Fixpoint run (sets : gmap string (gset bytes)) (p : Packet) (reg : bytes) (es : list Expr) : option Z :=
  match es with
  | [] => None
  | exprMetaLoad key :: es => run sets p (meta p key) es
  | exprCmpEq v :: es => if bool_decide (reg = v) then run sets p reg es else None
  | exprPayloadLoad base offset length :: es =>
      match payload p base offset length with Some b => run sets p b es | None => None end
  | exprBitwiseMask mask :: es => run sets p (zip_with and_byte reg mask) es
  | exprLookup set :: es => if bool_decide (reg ∈ default ∅ (sets !! set)) then run sets p reg es else None
  | exprVerdict code :: _ => Some code
  end.
(** The first rule that reaches a verdict decides, else the chain's policy. *)
Fixpoint chain (sets : gmap string (gset bytes)) (p : Packet) (policy : Z) (rules : list (list Expr)) : Z :=
  match rules with
  | [] => policy
  | es :: rules => match run sets p [] es with Some v => v | None => chain sets p policy rules end
  end.
(** Whether a packet leaves: no table, no filter. *)
Definition passes (t : option Table) (p : Packet) : bool :=
  match t with Some t => chain (t_sets t) p (t_policy t) (t_rules t) =? nfAccept | None => true end.

(** ** A network's rule matches the network's addresses *)

Lemma land_div_pow2 a b n : 0 <= n -> Z.land a b / 2 ^ n = Z.land (a / 2 ^ n) (b / 2 ^ n).
Proof. intros Hn. rewrite <-!Z.shiftr_div_pow2 by done. apply Z.shiftr_land. Qed.
Lemma and_be_bytes n x y : zip_with and_byte (be_bytes n x) (be_bytes n y) = be_bytes n (Z.land x y).
Proof.
  induction n as [|n IH]; cbn [be_bytes zip_with]; [done|]. f_equal; [|done].
  unfold and_byte. rewrite !octet_byte_of. replace (256 ^ Z.of_nat n) with (2 ^ (8 * Z.of_nat n)) by (rewrite Z.pow_mul_r by lia; done).
  rewrite land_div_pow2 by lia. set (a := x / _). set (b := y / _). unfold byte_of. f_equal. f_equal.
  change 256 with (2 ^ 8). rewrite <-!Z.land_ones by lia. apply Z.bits_inj'. intros i Hi.
  rewrite !Z.land_spec. by destruct (Z.testbit a i), (Z.testbit b i), (Z.testbit (Z.ones 8) i).
Qed.

Lemma mask_clears v h : 0 <= v < 2 ^ 32 -> 0 <= h <= 32 ->
  Z.land v (Z.shiftl 4294967295 h mod 4294967296) = Z.shiftl (Z.shiftr v h) h.
Proof.
  intros Hv Hh. change 4294967296 with (2 ^ 32). change 4294967295 with (Z.ones 32). rewrite <-Z.land_ones by lia.
  apply Z.bits_inj'. intros i Hi. rewrite !Z.land_spec, !Z.shiftl_spec by lia.
  destruct (Z.ltb_spec i h) as [Hih|Hih].
  - rewrite !(Z.testbit_neg_r _ (i - h)) by lia. by rewrite andb_false_r.
  - rewrite Z.shiftr_spec by lia. replace (i - h + h) with i by lia.
    destruct (Z.ltb_spec i 32) as [Hlt|Hge].
    + rewrite !Z.ones_spec_low by lia. by rewrite andb_true_r.
    + rewrite (Z.ones_spec_high 32 i) by lia. rewrite !andb_false_r. symmetry.
      replace v with (v mod 2 ^ 32) by (rewrite Z.mod_small; lia). by apply Z.mod_pow2_bits_high.
Qed.

(** A network as [netip] parses it. *)
Definition net_ok (p : Prefix) : Prop :=
  0 <= val (Prefix_Addr p) < 2 ^ BitLen (Prefix_Addr p) /\ 0 <= Bits p <= BitLen (Prefix_Addr p).
Definition net_match (p : Prefix) (d : bytes) : Prop := Contains p (MkAddr true (be_value d)) = true.

Lemma prefix_eq a b h : 0 <= h -> Z.shiftr (Z.lxor a b) h = 0 <-> Z.shiftl (Z.shiftr a h) h = Z.shiftl (Z.shiftr b h) h.
Proof.
  intros Hh. rewrite Z.shiftr_lxor, Z.lxor_eq_0_iff. split; [by intros ->|]. intros Heq.
  apply (f_equal (fun z => Z.shiftr z h)) in Heq. by rewrite !Z.shiftr_shiftl_l, !Z.sub_diag, !Z.shiftl_0_r in Heq by done.
Qed.

Lemma net_rule_match p r : net_ok p -> net_rule p = Some r ->
  Is4 (Prefix_Addr p) = true /\
  exists mask network, r = ipv4_rule [exprPayloadLoad nftPayloadNetworkHeader 16 4; exprBitwiseMask mask; exprCmpEq network] /\
    forall d, List.length d = 4%nat -> zip_with and_byte d mask = network <-> net_match p d.
Proof.
  destruct p as [[is4 v] b]. unfold net_ok, net_rule, net4Mask, network4, net_match, Contains, Masked, host_bits, BitLen.
  cbn [Prefix_Addr Bits Is4 val]. intros [Hv Hb]. destruct (Z.ltb_spec (32 - b) 0); [done|]. cbn [mbind option_bind].
  destruct is4; [change (if true then 32 else 128) with 32 in *|change (if false then 32 else 128) with 128 in *].
  - unfold Unmap. cbn [Is4 val negb andb]. intros Hs%(inj Some). subst r. split; [done|]. eexists _, _. split; [done|]. intros d Hd.
    pose proof (be_bytes_value d) as Hbd. rewrite Hd in Hbd. rewrite <-Hbd at 1. rewrite and_be_bytes. unfold As4. cbn [val].
    assert (0 <= be_value d < 2 ^ 32) as Hr.
    { pose proof (be_value_bytes 4 (be_value d)) as Hbv. rewrite Hbd in Hbv. rewrite Hbv. by apply Z.mod_pos_bound. }
    rewrite mask_clears by lia. rewrite (Z.eqb_refl 32). cbn [andb]. rewrite Z.eqb_eq, prefix_eq by lia.
    split; [|by intros ->]. intros Heq. assert (forall x, 0 <= x < 2 ^ 32 -> 0 <= Z.shiftl (Z.shiftr x (32 - b)) (32 - b) < 2 ^ 32) as Hs.
    { intros x Hx. rewrite Z.shiftl_mul_pow2, Z.shiftr_div_pow2 by lia. assert (0 < 2 ^ (32 - b)) by (apply Z.pow_pos_nonneg; lia).
      pose proof (Z.mul_div_le x (2 ^ (32 - b))). assert (0 <= x / 2 ^ (32 - b)) by (apply Z.div_pos; lia). nia. }
    apply be_bytes_inj in Heq; [done|by apply Hs|by apply Hs].
  - unfold Unmap. cbn [Is4 val negb andb]. destruct (Z.eqb_spec (Z.shiftl (Z.shiftr v (128 - b)) (128 - b) / 2 ^ 32) 65535) as [H4|]; [|done].
    exfalso. rewrite Z.shiftl_mul_pow2 in H4 by lia. set (a := Z.shiftr v _) in H4.
    replace (2 ^ (128 - b)) with (2 ^ (32 - b) * 2 ^ 64 * 2 ^ 32) in H4 by (rewrite <-!Z.pow_add_r by lia; f_equal; lia).
    rewrite !Z.mul_assoc, Z.div_mul in H4 by lia. set (k := a * 2 ^ (32 - b)) in H4. lia.
Qed.

(** ** What the kill switch lets out *)

(** A packet's payload has the bytes that were asked for. *)
Definition packet_ok (p : Packet) : Prop :=
  forall base offset length b, payload p base offset length = Some b -> List.length b = Z.to_nat length.
Definition ipv4_packet (p : Packet) : Prop := meta p nftMetaNFProto = [byte_of nfprotoIPv4].
Definition destination (p : Packet) : option bytes := payload p nftPayloadNetworkHeader 16 4.
Definition source (p : Packet) : option bytes := payload p nftPayloadNetworkHeader 12 4.
Definition dhcp_packet (p : Packet) : Prop :=
  meta p nftMetaL4Proto = [byte_of 17] /\ payload p nftPayloadTransportHeader 0 2 = Some (bePort 68) /\
  payload p nftPayloadTransportHeader 2 2 = Some (bePort 67).

(** What an allowlist means: the tunnel, loopback, the hosts and networks listed, the
    address served from, and DHCP. *)
Inductive allowed (spec : killSwitchSpec) (p : Packet) : Prop :=
| allowed_tunnel : meta p nftMetaOIF = hostU32 (TunIfIndex spec) -> allowed spec p
| allowed_loopback : meta p nftMetaOIF = hostU32 (LoIfIndex spec) -> allowed spec p
| allowed_host a : ipv4_packet p -> a ∈ Hosts spec -> Is4 a = true -> destination p = Some (As4 a) -> allowed spec p
| allowed_net n d : ipv4_packet p -> n ∈ Nets spec -> destination p = Some d -> net_match n d -> allowed spec p
| allowed_served a : ipv4_packet p -> ServedSrc spec = Some a -> Is4 a = true -> source p = Some (As4 a) -> allowed spec p
| allowed_dhcp : dhcp_packet p -> allowed spec p.

Section Lockdown.
Context (p : Packet) (Hp : packet_ok p).

Lemma chain_accepts sets rules :
  (forall es v, es ∈ rules -> run sets p [] es = Some v -> v = nfAccept) ->
  chain sets p nfDrop rules = nfAccept <-> exists es, es ∈ rules /\ run sets p [] es = Some nfAccept.
Proof.
  induction rules as [|es rules IH]; intros Hv; cbn [chain].
  - split; [done|]. intros (es & Hin & _). by apply not_elem_of_nil in Hin.
  - destruct (run sets p [] es) as [v|] eqn:He.
    + assert (v = nfAccept) as -> by (apply (Hv es v); [left|done]). split; [|done]. intros _. exists es. split; [left|done].
    + rewrite IH by (intros es' v' Hin; apply Hv; by right). split; intros (es' & Hin & Hr); exists es'; (split; [|done]).
      * by right. * apply elem_of_cons in Hin as [->|]; [congruence|done].
Qed.
Lemma apply_rules t rs : apply_batch (Some t) (map NewRule rs) = Ok (Some (MkTable (t_policy t) (t_sets t) (t_rules t ++ rs))).
Proof.
  revert t. induction rs as [|r rs IH]; intros t; cbn [map apply_batch apply_msg rbind].
  - rewrite app_nil_r. by destruct t. - rewrite IH. cbn [t_policy t_sets t_rules]. by rewrite <-app_assoc.
Qed.
Lemma apply_app t ms ms' t' : apply_batch t ms = Ok t' -> apply_batch t (ms ++ ms') = apply_batch t' ms'.
Proof.
  revert t. induction ms as [|m ms IH]; intros t; cbn [apply_batch app]; [by intros [= ->]|].
  destruct (apply_msg t m); cbn [rbind]; [apply IH|done].
Qed.

(** The rules, and the programs in them. *)
Definition program (m : NftMsg) : list Expr := match m with NewRule es => es | _ => [] end.
Definition net_programs (nets : list NftMsg) : list (list Expr) := map program nets.

Lemma run_oif sets i : run sets p [] (program (oif_rule i)) = if bool_decide (meta p nftMetaOIF = hostU32 i) then Some nfAccept else None.
Proof. reflexivity. Qed.
Lemma run_ipv4 sets es : run sets p [] (program (ipv4_rule es)) =
  if bool_decide (ipv4_packet p) then run sets p [byte_of nfprotoIPv4] (es ++ [exprVerdict nfAccept]) else None.
Proof.
  unfold ipv4_rule. cbn [program run]. destruct (decide (ipv4_packet p)) as [H|H].
  - rewrite !bool_decide_true by done. unfold ipv4_packet in H. by rewrite H.
  - by rewrite !bool_decide_false.
Qed.
Lemma run_lookup sets reg base off set :
  run sets p reg ([exprPayloadLoad base off 4; exprLookup set] ++ [exprVerdict nfAccept]) = Some nfAccept <->
  exists b, payload p base off 4 = Some b /\ b ∈ default ∅ (sets !! set).
Proof.
  cbn [run app]. destruct (payload p base off 4) as [b|]; [|by split; [|intros (? & ? & ?)]].
  case_bool_decide; split; [intros _; eauto|done|done|by intros (? & [= <-] & ?)].
Qed.
Lemma run_net sets reg mask network :
  run sets p reg ([exprPayloadLoad nftPayloadNetworkHeader 16 4; exprBitwiseMask mask; exprCmpEq network] ++ [exprVerdict nfAccept])
    = Some nfAccept <-> exists d, destination p = Some d /\ zip_with and_byte d mask = network.
Proof.
  cbn [run app]. unfold destination. destruct (payload _ _ _ _) as [b|]; [|by split; [|intros (? & ? & ?)]].
  case_bool_decide; split; [intros _; eauto|done|done|by intros (? & [= <-] & ?)].
Qed.
Lemma run_dhcp sets : run sets p [] (program dhcp_rule) = Some nfAccept <-> dhcp_packet p.
Proof.
  unfold dhcp_packet. cbn [program dhcp_rule run]. case_bool_decide as H1; [|by split; [|intros (? & _)]].
  destruct (payload p nftPayloadTransportHeader 0 2) as [b|]; [|by split; [|intros (_ & ? & _)]].
  case_bool_decide as H2; [subst b|split; [done|by intros (_ & [= ->] & _)]].
  destruct (payload p nftPayloadTransportHeader 2 2) as [b|]; [|by split; [|intros (_ & _ & ?)]].
  case_bool_decide as H3; [by subst|split; [done|by intros (_ & _ & [= ->])]].
Qed.
(** Every program accepts or says nothing. *)
Lemma run_verdict sets reg es v : (forall c, exprVerdict c ∈ es -> c = nfAccept) -> run sets p reg es = Some v -> v = nfAccept.
Proof.
  revert reg. induction es as [|e es IH]; intros reg Hv; [done|].
  assert (forall c, exprVerdict c ∈ es -> c = nfAccept) as Hv' by (intros c Hc; apply Hv; by right).
  destruct e; cbn [run]; try (by apply IH); try (case_match; [by apply IH|done]). intros [= <-]. apply Hv. left.
Qed.
End Lockdown.

Definition kill_programs (spec : killSwitchSpec) (nets : list NftMsg) : list (list Expr) :=
  map program ([oif_rule (TunIfIndex spec); oif_rule (LoIfIndex spec); allow_rule] ++
    match ServedSrc spec with Some _ => [serve_rule] | None => [] end ++ nets ++ [dhcp_rule]).

Lemma nets_are_rules ns nets : mapM net_rule ns = Some nets -> map NewRule (map program nets) = nets.
Proof.
  revert nets. induction ns as [|n ns IH]; intros nets; cbn [mapM]; [by intros [= <-]|].
  intros (m & Hm & (ms & Hms & [= <-])%bind_Some)%bind_Some. cbn [map]. rewrite (IH _ Hms). f_equal.
  unfold net_rule in Hm. apply bind_Some in Hm as (mask & _ & (nw & _ & [= <-])%bind_Some). done.
Qed.

(** The elements of the two sets. *)
Definition set_holds (sets : gmap string (gset bytes)) (name : string) (addrs : list Addr) : Prop :=
  forall b, b ∈ default ∅ (sets !! name) <-> exists a, a ∈ addrs /\ Is4 a = true /\ b = As4 a.

Lemma elem_set (old : gset bytes) addrs b :
  b ∈ old ∪ list_to_set (map As4 (filter Is4 addrs)) <-> b ∈ old \/ exists a, a ∈ addrs /\ Is4 a = true /\ b = As4 a.
Proof.
  rewrite elem_of_union, elem_of_list_to_set, list_elem_of_fmap. split; (intros [?|H]; [by left|right]).
  - destruct H as (a & -> & [H4%Is_true_true Ha]%list_elem_of_filter). eauto.
  - destruct H as (a & Ha & H4 & ->). exists a. split; [done|]. apply list_elem_of_filter. by rewrite H4.
Qed.
(** Sending the elements of a set that is there. *)
Lemma apply_elems t set old addrs :
  t_sets t !! set = Some old ->
  exists sets, apply_batch (Some t) (option_list (elemMsg (NewSetElem set) addrs)) = Ok (Some (MkTable (t_policy t) sets (t_rules t))) /\
    (forall b, b ∈ default ∅ (sets !! set) <-> b ∈ old \/ exists a, a ∈ addrs /\ Is4 a = true /\ b = As4 a) /\
    (forall other, other <> set -> sets !! other = t_sets t !! other) /\ is_Some (sets !! set).
Proof.
  intros Hs. unfold elemMsg. pose proof (elem_set old addrs) as He. destruct (filter Is4 addrs) as [|a l] eqn:Hf.
  - exists (t_sets t). cbn. split_and!; [by destruct t| |done|by rewrite Hs].
    intros b. rewrite Hs, <-He. cbn. set_solver.
  - exists (<[set := old ∪ list_to_set (map As4 (a :: l))]> (t_sets t)). set (m := NewSetElem _ _). change (option_list (Some m)) with [m]. cbn [apply_batch]. unfold apply_msg, m. rewrite Hs. cbn [rbind].
    split_and!; [done| | |by rewrite lookup_insert_eq].
    + intros b. by rewrite lookup_insert_eq, <-He.
    + intros other Hne. by rewrite lookup_insert_ne.
Qed.

Lemma killSwitch_table spec ms : killSwitchMsgs spec = Some ms ->
  exists sets nets, mapM net_rule (Nets spec) = Some nets /\
    apply_batch None ms = Ok (Some (MkTable nfDrop sets (kill_programs spec nets))) /\
    set_holds sets nftAllowSet (Hosts spec) /\ set_holds sets nftServeSet (option_list (ServedSrc spec)).
Proof.
  unfold killSwitchMsgs. intros (nets & Hn & Hms)%bind_Some. apply (inj Some) in Hms. subst ms. pose proof (nets_are_rules _ _ Hn) as Hr.
  set (t0 := MkTable nfDrop {[nftAllowSet := ∅]} []).
  assert (apply_batch None [NewTable; NewChain nfDrop; NewSet nftAllowSet 1] = Ok (Some t0)) as H0 by done.
  rewrite (apply_app _ _ _ _ H0). clear H0.
  assert (exists t1, apply_batch (Some t0) match ServedSrc spec with Some src => NewSet nftServeSet 2 :: option_list (serveElemMsg src) | None => [] end
      = Ok (Some (MkTable nfDrop t1 [])) /\ t1 !! nftAllowSet = Some ∅ /\ set_holds t1 nftServeSet (option_list (ServedSrc spec))) as (t1 & H1 & Ha1 & Hs1).
  { destruct (ServedSrc spec) as [src|].
    - change (apply_batch (Some t0) (NewSet nftServeSet 2 :: option_list (serveElemMsg src)))
        with (apply_batch (Some (MkTable nfDrop (<[nftServeSet := ∅]> {[nftAllowSet := ∅]}) [])) (option_list (serveElemMsg src))).
      destruct (apply_elems (MkTable nfDrop (<[nftServeSet := ∅]> {[nftAllowSet := ∅]}) []) nftServeSet ∅ [src]) as (t1 & H1 & Hb & Ho & _);
        [done|]. exists t1. split_and!; [exact H1|by rewrite Ho|]. intros b. rewrite Hb. cbn [option_list]. set_solver.
    - exists {[nftAllowSet := ∅]}. split_and!; [done|done|]. intros b. split; [|intros (a & Ha & _); by apply not_elem_of_nil in Ha].
      unfold default. rewrite lookup_singleton_ne by done. set_solver. }
  rewrite (apply_app _ _ _ _ H1).
  destruct (apply_elems (MkTable nfDrop t1 []) nftAllowSet ∅ (Hosts spec) Ha1) as (t2 & H2 & Hb & Ho & _).
  unfold setElemMsg. rewrite (apply_app _ _ _ _ H2). exists t2, nets. split_and!; [done| | |].
  - transitivity (apply_batch (Some (MkTable nfDrop t2 [])) (map NewRule (kill_programs spec nets))); [|apply apply_rules].
    f_equal. unfold kill_programs. rewrite !map_app, Hr. by destruct (ServedSrc spec).
  - intros b. rewrite Hb. set_solver.
  - intros b. rewrite Ho by done. apply Hs1.
Qed.

Lemma elem_of_programs spec nets es :
  es ∈ kill_programs spec nets <->
  es = program (oif_rule (TunIfIndex spec)) \/ es = program (oif_rule (LoIfIndex spec)) \/ es = program allow_rule \/
  (is_Some (ServedSrc spec) /\ es = program serve_rule) \/ (exists m, m ∈ nets /\ es = program m) \/ es = program dhcp_rule.
Proof.
  unfold kill_programs. rewrite list_elem_of_fmap. setoid_rewrite elem_of_app. setoid_rewrite elem_of_app. setoid_rewrite elem_of_app.
  split.
  - intros (m & -> & [Hm|[Hm|[Hm|Hm]]]).
    + rewrite !elem_of_cons, elem_of_nil in Hm. naive_solver.
    + destruct (ServedSrc spec); [|by apply not_elem_of_nil in Hm]. apply list_elem_of_singleton in Hm as ->.
      right; right; right; left. eauto.
    + right; right; right; right; left. eauto.
    + apply list_elem_of_singleton in Hm as ->. auto 10.
  - intros [->|[->|[->|[[[src Hs] ->]|[(m & Hm & ->)| ->]]]]]; eexists; (split; [done|]).
    + left. left. + left. right. left. + left. right. right. left.
    + right. left. rewrite Hs. left. + right. right. by left. + right. right. right. left.
Qed.

Lemma lets_out spec sets nets p :
  packet_ok p -> Forall net_ok (Nets spec) -> mapM net_rule (Nets spec) = Some nets ->
  set_holds sets nftAllowSet (Hosts spec) -> set_holds sets nftServeSet (option_list (ServedSrc spec)) ->
  passes (Some (MkTable nfDrop sets (kill_programs spec nets))) p = true <-> allowed spec p.
Proof.
  intros Hp Hnets Hn Hallow Hserve. unfold passes. cbn [t_sets t_policy t_rules]. rewrite Z.eqb_eq.
  assert (forall m, m ∈ nets -> exists n, n ∈ Nets spec /\ net_rule n = Some m) as Hfrom.
  { apply mapM_Some_1 in Hn. intros m Hm. apply list_elem_of_lookup in Hm as [i Hi].
    destruct (Forall2_lookup_r _ _ _ _ _ Hn Hi) as (n & Hni & Hr). exists n. split; [by eapply list_elem_of_lookup_2|done]. }
  assert (forall n, n ∈ Nets spec -> exists m, m ∈ nets /\ net_rule n = Some m) as Hto.
  { apply mapM_Some_1 in Hn. intros n Hm. apply list_elem_of_lookup in Hm as [i Hi].
    destruct (Forall2_lookup_l _ _ _ _ _ Hn Hi) as (m & Hni & Hr). exists m. split; [by eapply list_elem_of_lookup_2|done]. }
  rewrite Forall_forall in Hnets.
  assert (forall m, m ∈ nets -> exists mask network, m = ipv4_rule [exprPayloadLoad nftPayloadNetworkHeader 16 4; exprBitwiseMask mask; exprCmpEq network]
    /\ exists n, n ∈ Nets spec /\ forall d, List.length d = 4%nat -> zip_with and_byte d mask = network <-> net_match n d) as Hrule.
  { intros m (n & Hn' & Hr)%Hfrom. destruct (net_rule_match n m (Hnets n Hn') Hr) as (_ & mask & nw & -> & Hd). eauto 10. }
  rewrite chain_accepts.
  2:{ intros es v Hes. apply run_verdict. intros c Hc. apply elem_of_programs in Hes as [->|[->|[->|[[_ ->]|[(m & Hm & ->)| ->]]]]].
      5: destruct (Hrule m Hm) as (mask & nw & -> & _).
      all: cbn in Hc; rewrite ?elem_of_cons, ?elem_of_nil in Hc; decompose [or] Hc; try done; congruence. }
  assert (forall d, destination p = Some d -> List.length d = 4%nat) as Hd4 by (intros d Hd; exact (Hp _ _ _ _ Hd)).
  split.
  - intros (es & Hes & Hr). apply elem_of_programs in Hes as [->|[->|[->|[[[src Hs] ->]|[(m & Hm & ->)| ->]]]]].
    + rewrite run_oif in Hr. case_bool_decide; [by apply allowed_tunnel|done].
    + rewrite run_oif in Hr. case_bool_decide; [by apply allowed_loopback|done].
    + unfold allow_rule in Hr. rewrite run_ipv4 in Hr. case_bool_decide as H4; [|done].
      apply run_lookup in Hr as (b & Hb & (a & Ha & Hi & ->)%Hallow). by eapply allowed_host.
    + unfold serve_rule in Hr. rewrite run_ipv4 in Hr. case_bool_decide as H4; [|done].
      apply run_lookup in Hr as (b & Hb & (a & Ha & Hi & ->)%Hserve). rewrite Hs in Ha. apply list_elem_of_singleton in Ha as ->.
      by eapply allowed_served.
    + destruct (Hrule m Hm) as (mask & nw & -> & n & Hn' & Hd). rewrite run_ipv4 in Hr. case_bool_decide as H4; [|done].
      apply run_net in Hr as (d & Hdd & Hz). eapply allowed_net; [done|done|done|]. by apply Hd; [apply Hd4|].
    + apply run_dhcp in Hr. by apply allowed_dhcp.
  - intros Ha. destruct Ha as [Ho|Ho|a H4 Hin Hi Hd|n d H4 Hin Hd Hm|a H4 Hs Hi Hd|Hd].
    + exists (program (oif_rule (TunIfIndex spec))). rewrite elem_of_programs, run_oif, bool_decide_true by done. auto.
    + exists (program (oif_rule (LoIfIndex spec))). rewrite elem_of_programs, run_oif, bool_decide_true by done. auto.
    + exists (program allow_rule). rewrite elem_of_programs. unfold allow_rule. rewrite run_ipv4, bool_decide_true by done.
      split; [auto|]. apply run_lookup. exists (As4 a). split; [exact Hd|]. apply Hallow. eauto.
    + destruct (Hto n Hin) as (m & Hmin & Hr). destruct (net_rule_match n m (Hnets n Hin) Hr) as (_ & mask & nw & -> & Hz).
      eexists. rewrite elem_of_programs, run_ipv4, bool_decide_true by done. split; [right; right; right; right; left; eauto|].
      apply run_net. exists d. split; [done|]. by apply Hz; [apply Hd4|].
    + exists (program serve_rule). rewrite elem_of_programs. unfold serve_rule. rewrite run_ipv4, bool_decide_true by done.
      split; [right; right; right; left; eauto|]. apply run_lookup. exists (As4 a). split; [exact Hd|]. apply Hserve.
      exists a. rewrite Hs. split; [left|done].
    + exists (program dhcp_rule). rewrite elem_of_programs. split; [auto 10|]. by apply run_dhcp.
Qed.

(** The lockdown lets out exactly what the allowlist means. Once the batch for a
    specification is applied, a packet passes if and only if it leaves through the tunnel
    or loopback, goes to a listed IPv4 host or network, is sent from the address served
    from, or is DHCP; everything else, IPv6 included, is dropped. *)
Theorem killswitch_lets_out spec ms p :
  packet_ok p -> Forall net_ok (Nets spec) -> killSwitchMsgs spec = Some ms ->
  exists t, apply_batch None ms = Ok (Some t) /\ (passes (Some t) p = true <-> allowed spec p).
Proof.
  intros Hp Hnets Hms. destruct (killSwitch_table spec ms Hms) as (sets & nets & Hn & Ht & Hallow & Hserve).
  eexists. split; [exact Ht|]. by apply lets_out.
Qed.

(** The batch can be built exactly when every network is an IPv4 one: one IPv6 network is
    a panic of the process. *)
Lemma killSwitchMsgs_panics spec : Forall net_ok (Nets spec) ->
  is_Some (killSwitchMsgs spec) <-> Forall (fun n => Is4 (Prefix_Addr n) = true) (Nets spec).
Proof.
  rewrite !Forall_forall. intros Hok. split.
  - intros [ms (nets & Hn & _)%bind_Some] n Hin. apply mapM_Some_1 in Hn.
    apply list_elem_of_lookup in Hin as [i Hi]. destruct (Forall2_lookup_l _ _ _ _ _ Hn Hi) as (m & _ & Hr).
    apply list_elem_of_lookup_2 in Hi. by destruct (net_rule_match n m (Hok n Hi) Hr).
  - intros H4. unfold killSwitchMsgs. assert (is_Some (mapM net_rule (Nets spec))) as [nets ->]; [|by eexists].
    apply mapM_is_Some, Forall_forall. intros n Hin. destruct (Hok n Hin) as [Hv Hb]. specialize (H4 n Hin).
    destruct n as [[is4 v] b]. cbn in *. subst is4. unfold net_rule, net4Mask, network4, Masked, Unmap, BitLen in *.
    cbn [Is4 Prefix_Addr Bits val] in *. destruct (Z.ltb_spec (32 - b) 0); [lia|]. by eexists.
Qed.

Module Demo.
Definition tun_addr : Addr := MkAddr true 167772161.
Definition spec : killSwitchSpec :=
  MkSpec 7 1 [MkAddr true 16909060] [MkPrefix (MkAddr true 2130706432) 8] (Some (MkAddr true 3232235777)).
(** A packet for an address, through an interface. *)
Definition packet (oif dst : Z) : Packet :=
  MkPacket (fun k => if k =? nftMetaOIF then hostU32 oif else if k =? nftMetaNFProto then [byte_of 2] else [byte_of 6])
    (fun base off len => if (base =? 1) && (off =? 16) && (len =? 4) then Some (be_bytes 4 dst) else None).
End Demo.

Lemma killswitch_lets_out_witness : exists ms t,
  killSwitchMsgs Demo.spec = Some ms /\ apply_batch None ms = Ok (Some t) /\
  (passes (Some t) (Demo.packet 2 16909060) = true <-> allowed Demo.spec (Demo.packet 2 16909060)) /\
  passes (Some t) (Demo.packet 2 16909060) = true /\ passes (Some t) (Demo.packet 2 16909061) = false /\
  passes (Some t) (Demo.packet 7 16909061) = true /\ passes (Some t) (Demo.packet 2 2130771969) = true.
Proof.
  destruct (killSwitchMsgs Demo.spec) as [ms|] eqn:Hms; [|by vm_compute in Hms].
  destruct (killswitch_lets_out Demo.spec ms (Demo.packet 2 16909060)) as (t & Ht & Hiff).
  - intros base off len b. cbn [payload Demo.packet]. destruct (_ && _) eqn:Hc; [|discriminate]. intros [= <-]. b2p. subst. reflexivity.
  - repeat constructor; cbn; lia.
  - exact Hms.
  - exists ms, t. split; [reflexivity|]. split; [exact Ht|]. split; [exact Hiff|].
    vm_compute in Hms. injection Hms as <-. vm_compute in Ht. injection Ht as <-. split_and!; vm_compute; reflexivity.
Defined.
