(* ===== verification/NetWire.v ===== *)
(** * The privileged helper's protocol: [cmd/bacchus-netd/netdwire]

    Requests and replies, one JSON object to a frame of four length bytes and a body. A
    frame is written in one piece and read back from the connection's byte stream. The
    text of an error, which is for people, is left out of the replies. *)

From S2P Require Import Prelude GoStrings Crypto.
Local Open Scope Z_scope.

Definition Version : Z := 2.
Definition MaxFrame : nat := Z.to_nat 65536.
Definition MaxList : nat := 512.

(** The verbs and the codes are strings on the wire. *)
Definition VerbOpen : string := "open".
Definition VerbClose : string := "close".
Definition VerbDefaultGateway : string := "default-gateway".
Definition VerbAddExclusionRoutes : string := "add-exclusion-routes".
Definition VerbAddExclusionRoutesV6 : string := "add-exclusion-routes-v6".
Definition VerbAddInclusionRoutes : string := "add-inclusion-routes".
Definition VerbRemoveRoutes : string := "remove-routes".
Definition VerbCreateTUN : string := "create-tun".
Definition VerbConfigureTUN : string := "configure-tun".
Definition VerbAddSplitDefaultRoute : string := "add-split-default-route".
Definition VerbDisablePhysicalIPv6 : string := "disable-physical-ipv6".
Definition VerbEnablePhysicalIPv6 : string := "enable-physical-ipv6".
Definition VerbEnableKillSwitch : string := "enable-kill-switch".
Definition VerbDisableKillSwitch : string := "disable-kill-switch".
Definition VerbRecoverKillSwitch : string := "recover-kill-switch".
Definition VerbRefreshAllowIP : string := "refresh-kill-switch-allow-ip".
Definition VerbCaptureDNS : string := "capture-dns".
Definition VerbReleaseDNS : string := "release-dns".
Definition VerbAllowServedEgress : string := "allow-served-egress".
Definition VerbRevokeServedEgress : string := "revoke-served-egress".

Inductive Code :=
  CodeBadRequest | CodeUnknownVerb | CodeVersion | CodeNoSession | CodeBadToken | CodeBusy | CodeDenied | CodeInternal.
#[export] Instance Code_eq_dec : EqDecision Code.
Proof. solve_decision. Defined.

Record Request := MkRequest {
  q_Version : Z; Verb : string; q_Token : string;
  Prefixes : list string; Control : list string; Bypass : list string;
  q_Addr : string; PrefixLen : Z; q_IP : string;
}.
Record Gateway := MkGateway { g_NextHop : string; g_IfIndex : Z; g_IfAlias : string; g_NextHopV6 : string }.
Record Reply := MkReply {
  r_OK : bool; r_Code : option Code; r_Token : string; r_Gateway : option Gateway; r_ServedSource : string; r_TUNCreated : bool;
}.
Definition ok_reply : Reply := MkReply true None "" None "" false.
Definition Failf (code : Code) : Reply := MkReply false (Some code) "" None "" false.
(** [Reply.Err] *)
Definition Err_ (r : Reply) : result (option Code) unit := if r_OK r then Ok tt else Err (r_Code r).

(** ** Frames *)

Inductive FrameError := ErrFrameTooLarge | Truncated | LengthMismatch | Malformed | EOF | Protocol (code : Code).

Section Frames.
Context {A : Type} `{JSON A}.
Definition frameBytes (v : A) : result FrameError bytes :=
  let body := Marshal v in
  if (MaxFrame <? List.length body)%nat then Err ErrFrameTooLarge else Ok (be_bytes 4 (Z.of_nat (List.length body)) ++ body).

(** [readFrame] from what the stream still holds before it ends: the body and the rest. *)
Definition readFrame (s : bytes) : result FrameError (bytes * bytes) :=
  if (List.length s <? 4)%nat then Err EOF
  else
    let n := be_value (take 4 s) in
    if Z.of_nat MaxFrame <? n then Err ErrFrameTooLarge
    else
      let rest := drop 4 s in
      if Z.of_nat (List.length rest) <? n then Err EOF else Ok (take (Z.to_nat n) rest, drop (Z.to_nat n) rest).

(** [decodeFrame], of the bytes of one datagram; [ReadReply], from a stream. *)
Definition decodeFrame (b : bytes) : result FrameError A :=
  if (List.length b <? 4)%nat then Err Truncated
  else
    let n := be_value (take 4 b) in
    if Z.of_nat MaxFrame <? n then Err ErrFrameTooLarge
    else if negb (n =? Z.of_nat (List.length b) - 4) then Err LengthMismatch
    else of_option Malformed (Unmarshal (drop 4 b)).
Definition ReadReply (s : bytes) : result FrameError (A * bytes) :=
  let? (body, rest) := readFrame s in let? v := of_option Malformed (Unmarshal body) in Ok (v, rest).
End Frames.

Definition validate (r : Request) : result FrameError unit :=
  check! fail_if (negb (q_Version r =? Version)) (Protocol CodeVersion);
  check! fail_if (String.eqb (Verb r) "") (Protocol CodeBadRequest);
  fail_if (existsb (fun l : list string => MaxList <? List.length l)%nat [Prefixes r; Control r; Bypass r]) (Protocol CodeBadRequest).

(** [ReadRequest]: [Decode] is a decoder that refuses unknown fields. *)
Definition ReadRequest `{JSON Request} (s : bytes) : result FrameError (Request * bytes) :=
  let? (body, rest) := readFrame s in
  let? r := of_option (Protocol CodeBadRequest) (Decode body) in
  check! validate r; Ok (r, rest).

(** ** Frames survive the stream *)

Section FrameProofs.
Context {A : Type} `{JSONLaws A}.

Lemma MaxFrame_value : Z.of_nat MaxFrame = 65536.
Proof. unfold MaxFrame. rewrite Z2Nat.id; lia. Qed.

Lemma frame_length n : (n <= MaxFrame)%nat -> be_value (be_bytes 4 (Z.of_nat n)) = Z.of_nat n.
Proof. intros Hn. pose proof MaxFrame_value. rewrite be_value_bytes. apply Z.mod_small. change (256 ^ Z.of_nat 4) with 4294967296. lia. Qed.

Lemma frameBytes_inv (v : A) f : frameBytes v = Ok f ->
  (List.length (Marshal v) <= MaxFrame)%nat /\ f = be_bytes 4 (Z.of_nat (List.length (Marshal v))) ++ Marshal v.
Proof.
  unfold frameBytes. destruct (Nat.ltb_spec MaxFrame (List.length (Marshal v))); [done|]. by intros [= <-].
Qed.

Lemma readFrame_frame (v : A) f rest : frameBytes v = Ok f -> readFrame (f ++ rest) = Ok (Marshal v, rest).
Proof.
  intros [Hl ->]%frameBytes_inv. unfold readFrame. rewrite <-app_assoc.
  set (n := List.length (Marshal v)) in *.
  assert (List.length (be_bytes 4 (Z.of_nat n)) = 4%nat) as H4 by apply be_bytes_length.
  rewrite length_app, H4. destruct (Nat.ltb_spec (4 + List.length (Marshal v ++ rest)) 4); [lia|].
  rewrite take_app_length', drop_app_length' by done. rewrite frame_length by done.
  pose proof MaxFrame_value. destruct (Z.ltb_spec (Z.of_nat MaxFrame) (Z.of_nat n)); [lia|].
  rewrite length_app. destruct (Z.ltb_spec (Z.of_nat (List.length (Marshal v) + List.length rest)) (Z.of_nat n)); [lia|].
  rewrite Nat2Z.id. unfold n. by rewrite take_app_length, drop_app_length.
Qed.

(** A message that can be framed is what the other side reads, whatever follows it. *)
Lemma frame_roundtrip (v : A) f rest : frameBytes v = Ok f ->
  ReadReply (f ++ rest) = Ok (v, rest) /\ decodeFrame f = Ok v.
Proof.
  intros Hf. pose proof (readFrame_frame v f rest Hf) as Hr. unfold ReadReply. rewrite Hr. cbn [rbind].
  rewrite Unmarshal_Marshal. split; [done|]. apply frameBytes_inv in Hf as [Hl ->]. unfold decodeFrame.
  set (n := List.length (Marshal v)) in *.
  assert (List.length (be_bytes 4 (Z.of_nat n)) = 4%nat) as H4 by apply be_bytes_length.
  rewrite length_app, H4. destruct (Nat.ltb_spec (4 + n) 4); [lia|].
  rewrite take_app_length', drop_app_length' by done. rewrite frame_length by done.
  pose proof MaxFrame_value. destruct (Z.ltb_spec (Z.of_nat MaxFrame) (Z.of_nat n)); [lia|].
  fold n. replace (Z.of_nat (4 + n) - 4) with (Z.of_nat n) by lia. rewrite Z.eqb_refl. cbn [negb]. by rewrite Unmarshal_Marshal.
Qed.
End FrameProofs.
