(* ===== verification/Netd.v ===== *)
(** * The privileged network helper: [cmd/bacchus-netd/server.go] and [dns.go]

    One session at a time, opened over a local socket by a user that is logged in, sets up
    routes, the kill switch, DNS and the rest of a tunnel's surroundings. The kernel and
    the resolver are a state ([Kernel]) that system calls change; each call draws a fate,
    so a statement about all lists of fates is about every failure. What the helper reads
    from the machine is in [Facts]. Connections are served at once, one request at a time
    each: an event is one request, or one connection's end. What [logind] and the
    addresses of an interface are read from is text or a list that is an argument. *)

From S2P Require Import ASN.
From S2P Require Import Prelude GoStrings Base64 Crypto Net GeoIP Nft NetWire.
Local Open Scope Z_scope.

#[export] Instance Prefix_countable : Countable Prefix.
Proof.
  refine (inj_countable' (fun p => (Is4 (Prefix_Addr p), val (Prefix_Addr p), Bits p)) (fun '(f, v, b) => MkPrefix (MkAddr f v) b) _).
  by intros [[] ?].
Defined.

(** ** Parsing what the client sends *)

(** [parseHostOrPrefix]: a host, or else a network. A zone is dropped where the address is
    used as a prefix and refused by nothing here. *)
Definition parseHostOrPrefix (s : string) : option (Addr + Prefix) :=
  let s := TrimSpace s in
  if String.eqb s "" then None
  else match ParseAddr s with
       | Some (a, _) => Some (inl (Unmap a))
       | None => (fun p => inr (Masked p)) <$> ParsePrefix s
       end.

(** [parsePrefixes]: the prefixes of one family; one bad entry refuses them all. *)
Definition full_prefix (x : Addr + Prefix) : Prefix := match x with inl a => MkPrefix a (BitLen a) | inr p => p end.
Definition of_family (wantV6 : bool) (p : Prefix) : bool := Bool.eqb (negb (Is4 (Prefix_Addr p))) wantV6.
Definition parsePrefixes (entries : list string) (wantV6 : bool) : result Code (list Prefix) :=
  match mapM parseHostOrPrefix entries with
  | Some xs => Ok (filter (of_family wantV6) (map full_prefix xs))
  | None => Err CodeBadRequest
  end.

(** [subtleCompare] *)
Definition subtleCompare (a b : string) : bool :=
  if negb (String.length a =? String.length b)%nat then false
  else foldl (fun v x => Z.lor v (Z.lxor (octet x.1) (octet x.2))) 0 (zip (bytes_of a) (bytes_of b)) =? 0.

(** ** Who may connect *)

(** [uidHasActiveSession]: whether logind's directory is there, and the user's file:
    absent, unreadable or its text. *)
Inductive UserFile := Absent | Unreadable | Text (s : string).
Fixpoint state_of (lines : list string) : bool :=
  match lines with
  | [] => false
  | line :: lines =>
      match strip_prefix "STATE=" line with
      | Some st => String.eqb (TrimSpace st) "active" || String.eqb (TrimSpace st) "online"
      | None => state_of lines
      end
  end.
Definition uidHasActiveSession (logind : bool) (file : UserFile) : option bool :=
  if negb logind then None
  else match file with
       | Absent => Some false
       | Unreadable => None
       | Text s => Some (state_of (Split (byte_of 10) s))
       end.
Definition checkPeer (allowNoLogin : bool) (active : option bool) : bool :=
  match active with Some a => a | None => allowNoLogin end.

(** ** The machine *)

Record routeSpec := MkRoute { rt_Gateway : option Addr; rt_OutIface : Z }.
Inductive Resolv := Symlink (target : string) | File (content : bytes) (mode : Z).
Record Kernel := MkKernel {
  k_table : option Table;              (* the kill switch *)
  k_routes : gmap Prefix routeSpec;    (* the helper's own routing table *)
  k_fib : bool * bool;                 (* the rules that consult it, by family *)
  k_served : list (Addr * Z);          (* the rules of the served-egress carve-out *)
  k_addrs : list (Z * Prefix);
  k_up : list Z;
  k_ipv6 : gmap string string;         (* disable_ipv6 of an interface *)
  k_linkdns : gmap Z Addr;             (* resolved: the server of a link *)
  k_domain : gset Z;                   (* and whether it takes every query *)
  k_default : gmap Z bool;             (* and whether it may be a default *)
  k_resolv : option Resolv;            (* /etc/resolv.conf *)
}.
Definition set_table (k : Kernel) (t : option Table) : Kernel :=
  MkKernel t (k_routes k) (k_fib k) (k_served k) (k_addrs k) (k_up k) (k_ipv6 k) (k_linkdns k) (k_domain k) (k_default k) (k_resolv k).
Definition set_routes (k : Kernel) (r : gmap Prefix routeSpec) : Kernel :=
  MkKernel (k_table k) r (k_fib k) (k_served k) (k_addrs k) (k_up k) (k_ipv6 k) (k_linkdns k) (k_domain k) (k_default k) (k_resolv k).
Definition set_fib (k : Kernel) (f : bool * bool) : Kernel :=
  MkKernel (k_table k) (k_routes k) f (k_served k) (k_addrs k) (k_up k) (k_ipv6 k) (k_linkdns k) (k_domain k) (k_default k) (k_resolv k).
Definition set_served (k : Kernel) (s : list (Addr * Z)) : Kernel :=
  MkKernel (k_table k) (k_routes k) (k_fib k) s (k_addrs k) (k_up k) (k_ipv6 k) (k_linkdns k) (k_domain k) (k_default k) (k_resolv k).
Definition set_link (k : Kernel) (a : list (Z * Prefix)) (u : list Z) : Kernel :=
  MkKernel (k_table k) (k_routes k) (k_fib k) (k_served k) a u (k_ipv6 k) (k_linkdns k) (k_domain k) (k_default k) (k_resolv k).
Definition set_ipv6 (k : Kernel) (m : gmap string string) : Kernel :=
  MkKernel (k_table k) (k_routes k) (k_fib k) (k_served k) (k_addrs k) (k_up k) m (k_linkdns k) (k_domain k) (k_default k) (k_resolv k).
Definition set_resolved (k : Kernel) (l : gmap Z Addr) (d : gset Z) (f : gmap Z bool) : Kernel :=
  MkKernel (k_table k) (k_routes k) (k_fib k) (k_served k) (k_addrs k) (k_up k) (k_ipv6 k) l d f (k_resolv k).
Definition set_resolv (k : Kernel) (r : option Resolv) : Kernel :=
  MkKernel (k_table k) (k_routes k) (k_fib k) (k_served k) (k_addrs k) (k_up k) (k_ipv6 k) (k_linkdns k) (k_domain k) (k_default k) r.

(** A program of system calls: the kernel, and the fates still to draw. *)
Definition Sys (A : Type) : Type := Kernel -> list bool -> A * Kernel * list bool.
Definition ret {A} (a : A) : Sys A := fun k fs => (a, k, fs).
Definition sbind {A B} (m : Sys A) (f : A -> Sys B) : Sys B := fun k fs => let '(a, k, fs) := m k fs in f a k fs.
Notation "'sys!' x := m 'in' k" := (sbind m (fun x => k))
  (at level 200, x pattern, m at level 100, k at level 200, right associativity).
Definition fate : Sys bool := fun k fs => match fs with [] => (true, k, []) | f :: fs => (f, k, fs) end.
(** A call that changes the kernel, or fails; one that reads it, or fails. *)
Definition change (f : Kernel -> Kernel) : Sys bool :=
  fun k fs => let '(ok, k, fs) := fate k fs in (ok, if ok : bool then f k else k, fs).
Definition read_of {A} (f : Kernel -> A) : Sys (option A) :=
  fun k fs => let '(ok, k, fs) := fate k fs in ((if ok : bool then Some (f k) else None), k, fs).
(** A sequence that ends at the first failure. *)
Fixpoint all_of (ms : list (Sys bool)) : Sys bool :=
  match ms with
  | [] => ret true
  | m :: ms => sys! ok := m in if ok : bool then all_of ms else ret false
  end.
(** One whose failures are only logged. *)
Fixpoint each_of (ms : list (Sys bool)) : Sys unit :=
  match ms with [] => ret tt | m :: ms => sys! _ := m in each_of ms end.

(** [nftConn]: a batch, whole or not at all. *)
Definition batch (ms : list NftMsg) : Sys (result NftError unit) :=
  fun k fs =>
    let '(ok, k, fs) := fate k fs in
    if ok : bool then
      match apply_batch (k_table k) ms with Ok t => (Ok tt, set_table k t, fs) | Err e => (Err e, k, fs) end
    else (Err EOTHER, k, fs).
Definition tableExists : Sys (option bool) := read_of (fun k => bool_decide (is_Some (k_table k))).
Definition forgive (e : NftError) (r : result NftError unit) : result NftError unit :=
  match r with Err e' => if decide (e = e') then Ok tt else r | _ => r end.
Definition deleteTable : Sys (result NftError unit) := sys! r := batch [DelTable] in ret (forgive ENOENT r).
Definition opt_batch (m : option NftMsg) (e : NftError) : Sys (result NftError unit) :=
  match m with None => ret (Ok tt) | Some m => sys! r := batch [m] in ret (forgive e r) end.
Definition nft_revokeServedEgress (a : Addr) : Sys (result NftError unit) := opt_batch (serveElemDelMsg a) ENOENT.
Definition nft_refreshAllowIP (a : Addr) : Sys (result NftError unit) := opt_batch (setElemMsg [a]) EEXIST.

(** [rtnetlink.go], over the helper's own table and rules. *)
Definition addRoute (dst : Prefix) (r : routeSpec) : Sys bool := change (fun k => set_routes k (<[dst := r]> (k_routes k))).
Definition delRoute (dst : Prefix) : Sys bool := change (fun k => set_routes k (delete dst (k_routes k))).
Definition listOwnRoutes : Sys (option (list Prefix)) := read_of (fun k => (map_to_list (k_routes k)).*1).
Definition set_family (f : bool * bool) (v6 b : bool) : bool * bool := if v6 then (f.1, b) else (b, f.2).
Definition addFibRule (v6 : bool) : Sys bool := change (fun k => set_fib k (set_family (k_fib k) v6 true)).
Definition delFibRule (v6 : bool) : Sys bool := change (fun k => set_fib k (set_family (k_fib k) v6 false)).
(** A rule that is there already is the one added before; one rule is deleted at a time. *)
Definition addServedRule (src : Addr) (uid : Z) : Sys bool :=
  if negb (Is4 src) then ret false
  else change (fun k => if bool_decide ((src, uid) ∈ k_served k) then k else set_served k (k_served k ++ [(src, uid)])).
Definition delServedRule : Sys bool := change (fun k => set_served k (tail (k_served k))).
Definition addAddr (index : Z) (p : Prefix) : Sys bool := change (fun k => set_link k (k_addrs k ++ [(index, p)]) (k_up k)).
Definition setLinkUp (index : Z) : Sys bool := change (fun k => set_link k (k_addrs k) (k_up k ++ [index])).

(** [netlinkPool.do]: nothing happens when there is no socket. *)
Definition nl_do {A} (m : Sys A) (no : A) : Sys A := sys! ok := fate in if ok : bool then m else ret no.

(** ** The session *)

Record gatewayInfo := MkGatewayInfo { NextHop : Addr; IfIndex : Z; IfName : string; NextHopV6 : option Addr }.
Record dnsState := MkDNS {
  captured : bool; viaResolved : bool; d_tunIndex : Z; d_physIndex : Z; d_physDefaultRoute : bool;
  resolvWasSymlink : bool; resolvTarget : string; resolvContent : option bytes; resolvMode : Z;
}.
Definition no_dns : dnsState := MkDNS false false 0 0 false false "" None 0.
Record session := MkSession {
  token : string; uid : Z; tunIndex : Z; tunAddr : option Addr; gw : option gatewayInfo;
  ipv6For : string; ipv6Was : string; dns : dnsState; killSwitchArmed : bool; servedSrc : option Addr;
}.
Definition new_session (tok : string) (u : Z) : session := MkSession tok u 0 None None "" "" no_dns false None.
Definition with_gw (s : session) (g : gatewayInfo) : session :=
  MkSession (token s) (uid s) (tunIndex s) (tunAddr s) (Some g) (ipv6For s) (ipv6Was s) (dns s) (killSwitchArmed s) (servedSrc s).
Definition with_tun (s : session) (i : Z) (a : option Addr) : session :=
  MkSession (token s) (uid s) i a (gw s) (ipv6For s) (ipv6Was s) (dns s) (killSwitchArmed s) (servedSrc s).
Definition with_ipv6 (s : session) (iface was : string) : session :=
  MkSession (token s) (uid s) (tunIndex s) (tunAddr s) (gw s) iface was (dns s) (killSwitchArmed s) (servedSrc s).
Definition with_dns (s : session) (d : dnsState) : session :=
  MkSession (token s) (uid s) (tunIndex s) (tunAddr s) (gw s) (ipv6For s) (ipv6Was s) d (killSwitchArmed s) (servedSrc s).
Definition with_armed (s : session) (b : bool) : session :=
  MkSession (token s) (uid s) (tunIndex s) (tunAddr s) (gw s) (ipv6For s) (ipv6Was s) (dns s) b (servedSrc s).
Definition with_served (s : session) (a : option Addr) : session :=
  MkSession (token s) (uid s) (tunIndex s) (tunAddr s) (gw s) (ipv6For s) (ipv6Was s) (dns s) (killSwitchArmed s) a.

(** What one request finds on the machine: the default gateway, the device it makes, the
    loopback interface, the addresses of the gateway's interface, random bytes, whether
    resolved is on the bus, and whether the descriptor reaches the client. *)
Record Facts := MkFacts {
  f_gateway : option gatewayInfo; f_tun : option Z; f_lo : option Z; f_addrs : option (list Addr);
  f_random : option bytes; f_resolved : bool; f_fd_sent : bool;
}.
(** [physicalSource]: the first routable IPv4 address of the interface. *)
Definition physicalSource (addrs : option (list Addr)) : option Addr :=
  l ← addrs; List.find (fun a => Is4 a && negb (IsLinkLocalUnicast a) && negb (IsLoopback a)) (map Unmap l).

(** ** DNS: [dns.go] *)

(** [tunDNSSink]: the last byte is 53, or 54 when the device has 53. *)
Definition tunDNSSink (a : Addr) : Addr :=
  let last := val a mod 256 in MkAddr true (val a - last + if last =? 53 then 54 else 53).

Definition dns_body (sink : Addr) : bytes :=
  bytes_of ("# Written by bacchus-netd while the tunnel is up." +:+ String (byte_of 10) "" +:+
    "# The previous configuration is restored when it goes down, including" +:+ String (byte_of 10) "" +:+
    "# if this client crashes. See ADR-0051." +:+ String (byte_of 10) "" +:+
    "nameserver ") ++ string4 (As4 sink) ++ [byte_of 10].

Definition captureViaResolved (s : session) (sink : Addr) : Sys (session * bool) :=
  let i := tunIndex s in
  sys! ok := change (fun k => set_resolved k (<[i := sink]> (k_linkdns k)) (k_domain k) (k_default k)) in
  if negb ok then ret (s, false)
  else
    sys! ok := change (fun k => set_resolved k (k_linkdns k) ({[i]} ∪ k_domain k) (k_default k)) in
    if negb ok then ret (s, false)
    else
      let d := dns s in
      let d := MkDNS true true i (d_physIndex d) (d_physDefaultRoute d) (resolvWasSymlink d) (resolvTarget d) (resolvContent d) (resolvMode d) in
      let s := with_dns s d in
      match gw s with
      | Some g =>
          if 0 <? IfIndex g then
            sys! prior := read_of (fun k => k_default k !! IfIndex g) in
            let prior := match prior with Some (Some b) => b | _ => true end in
            sys! ok := change (fun k => set_resolved k (k_linkdns k) (k_domain k) (<[IfIndex g := false]> (k_default k))) in
            if negb ok then ret (s, true)
            else ret (with_dns s (MkDNS true true i (IfIndex g) prior (resolvWasSymlink d) (resolvTarget d) (resolvContent d) (resolvMode d)), true)
          else ret (s, true)
      | None => ret (s, true)
      end.

(** The file is looked at, read or its link followed, and then replaced. *)
Definition captureViaResolvConf (s : session) (sink : Addr) : Sys (session * bool) :=
  let d := dns s in
  sys! st := read_of k_resolv in
  match st with
  | None => ret (s, false)
  | Some found =>
      sys! ok := match found with Some _ => fate | None => ret true end in
      if negb ok then ret (s, false)
      else
        let d := match found with
                 | Some (Symlink t) => MkDNS (captured d) (viaResolved d) (d_tunIndex d) (d_physIndex d) (d_physDefaultRoute d) true t (resolvContent d) (resolvMode d)
                 | Some (File c m) => MkDNS (captured d) (viaResolved d) (d_tunIndex d) (d_physIndex d) (d_physDefaultRoute d) (resolvWasSymlink d) (resolvTarget d) (Some c) m
                 | None => d
                 end in
        sys! ok := change (fun k => set_resolv k (Some (File (dns_body sink) 420))) in
        if negb ok then ret (with_dns s d, false)
        else ret (with_dns s (MkDNS true (viaResolved d) (d_tunIndex d) (d_physIndex d) (d_physDefaultRoute d)
                                (resolvWasSymlink d) (resolvTarget d) (resolvContent d) (resolvMode d)), true)
  end.

Definition captureDNS (f : Facts) (s : session) : Sys (session * bool) :=
  if captured (dns s) then ret (s, true)
  else match (if tunIndex s =? 0 then None else tunAddr s) with
       | None => ret (s, false)
       | Some a =>
           if f_resolved f then captureViaResolved s (tunDNSSink a) else captureViaResolvConf s (tunDNSSink a)
       end.

Definition releaseViaResolved (d : dnsState) : Sys unit :=
  sys! ok := fate in
  if negb ok then ret tt
  else
    sys! _ := (if 0 <? d_physIndex d
               then change (fun k => set_resolved k (k_linkdns k) (k_domain k) (<[d_physIndex d := d_physDefaultRoute d]> (k_default k)))
               else ret true) in
    sys! _ := (if 0 <? d_tunIndex d
               then change (fun k => set_resolved k (delete (d_tunIndex d) (k_linkdns k)) (k_domain k ∖ {[d_tunIndex d]}) (k_default k))
               else ret true) in
    ret tt.
Definition releaseViaResolvConf (d : dnsState) : Sys unit :=
  if resolvWasSymlink d then
    sys! ok := change (fun k => set_resolv k None) in
    if negb ok then ret tt
    else sys! _ := change (fun k => set_resolv k (Some (Symlink (resolvTarget d)))) in ret tt
  else match resolvContent d with
       | Some c => sys! _ := change (fun k => set_resolv k (Some (File c (if resolvMode d =? 0 then 420 else resolvMode d)))) in ret tt
       | None => sys! _ := change (fun k => set_resolv k None) in ret tt
       end.
Definition releaseDNS (s : session) : Sys session :=
  if negb (captured (dns s)) then ret s
  else
    sys! _ := (if viaResolved (dns s) then releaseViaResolved (dns s) else releaseViaResolvConf (dns s)) in
    ret (with_dns s no_dns).

(** ** The handlers *)

Definition tableDelete_logged : Sys unit := sys! _ := deleteTable in ret tt.

Definition reapRoutes : Sys unit :=
  nl_do (
    sys! routes := listOwnRoutes in
    match routes with
    | None => ret tt
    | Some routes =>
        sys! _ := each_of (map delRoute routes) in
        each_of [delFibRule false; delFibRule true; delServedRule]
    end) tt.
(** [reapOrphan]: without a netfilter socket only the routes are cleared. *)
Definition reapOrphan : Sys unit :=
  sys! dialed := fate in
  sys! _ := (if dialed : bool then
               sys! armed := tableExists in
               if bool_decide (armed = Some true) then tableDelete_logged else ret tt
             else ret tt) in
  reapRoutes.
Definition writeIPv6 (iface value : string) : Sys bool := change (fun k => set_ipv6 k (<[iface := value]> (k_ipv6 k))).
Definition restoreIPv6 (s : session) : Sys unit :=
  if String.eqb (ipv6For s) "" then ret tt else sys! _ := writeIPv6 (ipv6For s) (ipv6Was s) in ret tt.
Definition revokeServedEgress (s : session) : Sys session :=
  match servedSrc s with
  | None => ret s
  | Some src =>
      let s := with_served s None in
      sys! _ := nl_do delServedRule false in
      sys! dialed := fate in
      if negb dialed then ret s else sys! _ := nft_revokeServedEgress src in ret s
  end.

(** The helper: its session, the token check, [handleOpen], [handleClose] and what a
    connection's end does. *)
Definition authorize (h : option session) (req : Request) : result Code session :=
  match h with
  | None => Err CodeNoSession
  | Some s =>
      if String.eqb (q_Token req) "" then Err CodeBadToken
      else if negb (subtleCompare (q_Token req) (token s)) then Err CodeBadToken
      else Ok s
  end.
Definition newToken (random : option bytes) : option string := hex_EncodeToString <$> random.
Definition handleOpen (h : option session) (u : Z) (f : Facts) : Sys (Reply * option session) :=
  match h with
  | Some s => ret (Failf CodeBusy, Some s)
  | None =>
      sys! _ := reapOrphan in
      match newToken (f_random f) with
      | None => ret (Failf CodeInternal, None)
      | Some tok => ret (MkReply true None tok None "" false, Some (new_session tok u))
      end
  end.
Definition handleClose (h : option session) (req : Request) : Sys (Reply * option session) :=
  match h with
  | None => ret (ok_reply, None)
  | Some s =>
      if negb (subtleCompare (q_Token req) (token s)) then ret (Failf CodeBadToken, Some s)
      else sys! _ := releaseDNS s in ret (ok_reply, None)
  end.
Definition clientGone (h : option session) : Sys (option session) :=
  match h with
  | None => ret None
  | Some s =>
      sys! s := releaseDNS s in
      sys! s := revokeServedEgress s in
      if killSwitchArmed s then ret None
      else
        sys! _ := reapRoutes in
        sys! _ := restoreIPv6 s in
        ret None
  end.

(** A handler's outcome: the reply and the session, or a panic of the process. *)
Inductive Handled := Replied (r : Reply) (s : session) | Undelivered (s : session) | Panicked.

(** [netip.Addr.String], of an address without a zone. *)
Definition Addr_String (a : Addr) : string :=
  string_of (if Is4 a then string4 (As4 a) else string6 (be_bytes 16 (val a))).
Definition addrOrEmpty (a : option Addr) : string := match a with Some a => Addr_String a | None => "" end.

Definition handleDefaultGateway (s : session) (f : Facts) : Sys Handled :=
  sys! ok := fate in
  match (if ok : bool then f_gateway f else None) with
  | None => ret (Replied (Failf CodeInternal) s)
  | Some g =>
      ret (Replied (MkReply true None "" (Some (MkGateway (Addr_String (NextHop g)) (IfIndex g) (IfName g) (addrOrEmpty (NextHopV6 g)))) "" false)
             (with_gw s g))
  end.

(** [installRoutes]: failures are only logged. *)
Definition installRoutes (ps : list Prefix) (r : routeSpec) : Sys unit :=
  nl_do (each_of (map (fun p => addRoute p r) ps)) tt.

Definition handleExclusionRoutes (s : session) (req : Request) (v6 : bool) : Sys Handled :=
  match gw s with
  | None => ret (Replied (Failf CodeBadRequest) s)
  | Some g =>
      match (if v6 then NextHopV6 g else Some (NextHop g)) with
      | None => ret (Replied ok_reply s)
      | Some hop =>
          match parsePrefixes (Prefixes req) v6 with
          | Err c => ret (Replied (Failf c) s)
          | Ok ps => sys! _ := installRoutes ps (MkRoute (Some hop) (IfIndex g)) in ret (Replied ok_reply s)
          end
      end
  end.
Definition handleInclusionRoutes (s : session) (req : Request) : Sys Handled :=
  if tunIndex s =? 0 then ret (Replied (Failf CodeBadRequest) s)
  else match parsePrefixes (Prefixes req) false with
       | Err c => ret (Replied (Failf c) s)
       | Ok ps => sys! _ := installRoutes ps (MkRoute None (tunIndex s)) in ret (Replied ok_reply s)
       end.
Definition handleRemoveRoutes (s : session) (req : Request) : Sys Handled :=
  match parsePrefixes (Prefixes req) false with
  | Err c => ret (Replied (Failf c) s)
  | Ok ps =>
      let ps := ps ++ match parsePrefixes (Prefixes req) true with Ok v6 => v6 | Err _ => [] end in
      sys! _ := nl_do (each_of (map delRoute ps)) tt in ret (Replied ok_reply s)
  end.

(** The descriptor is passed on with the reply; when it cannot be, the connection ends. *)
Definition handleCreateTUN (s : session) (f : Facts) : Sys Handled :=
  match f_tun f with
  | None => ret (Replied (Failf CodeInternal) s)
  | Some i =>
      let s := with_tun s i (tunAddr s) in
      if f_fd_sent f then ret (Replied (MkReply true None "" None "" true) s) else ret (Undelivered s)
  end.
Definition handleConfigureTUN (s : session) (req : Request) : Sys Handled :=
  if tunIndex s =? 0 then ret (Replied (Failf CodeBadRequest) s)
  else match ParseAddr (q_Addr req) with
       | Some (a, _) =>
           if negb (Is4 a) then ret (Replied (Failf CodeBadRequest) s)
           else if (PrefixLen req <? 0) || (32 <? PrefixLen req) then ret (Replied (Failf CodeBadRequest) s)
           else
             sys! ok := nl_do (all_of [addAddr (tunIndex s) (MkPrefix a (PrefixLen req)); setLinkUp (tunIndex s); addFibRule false]) false in
             if negb ok then ret (Replied (Failf CodeInternal) s) else ret (Replied ok_reply (with_tun s (tunIndex s) (Some a)))
       | None => ret (Replied (Failf CodeBadRequest) s)
       end.
Definition half0 : Prefix := MkPrefix (MkAddr true 0) 1.
Definition half1 : Prefix := MkPrefix (MkAddr true 2147483648) 1.
Definition handleSplitDefaultRoute (s : session) (req : Request) : Sys Handled :=
  match (if tunIndex s =? 0 then None else tunAddr s) with
  | None => ret (Replied (Failf CodeBadRequest) s)
  | Some a =>
      if bool_decide (ParseAddr (q_Addr req) = Some (a, "")) then
        sys! ok := nl_do (all_of [addRoute half0 (MkRoute None (tunIndex s)); addRoute half1 (MkRoute None (tunIndex s))]) false in
        if negb ok then ret (Replied (Failf CodeInternal) s) else ret (Replied ok_reply s)
      else ret (Replied (Failf CodeBadRequest) s)
  end.

Definition handleDisableIPv6 (s : session) : Sys Handled :=
  match gw s with
  | None => ret (Replied ok_reply s)
  | Some g =>
      sys! prior := read_of (fun k => k_ipv6 k !! IfName g) in
      match prior with
      | Some (Some prior) =>
          sys! ok := writeIPv6 (IfName g) "1" in
          if negb ok then ret (Replied ok_reply s)
          else ret (Replied ok_reply (if String.eqb (ipv6For s) "" then with_ipv6 s (IfName g) prior else s))
      | _ => ret (Replied ok_reply s)
      end
  end.
Definition handleEnableIPv6 (s : session) : Sys Handled :=
  sys! _ := restoreIPv6 s in ret (Replied ok_reply (with_ipv6 s "" "")).

(** ** The kill switch *)

Definition hosts_of (xs : list (Addr + Prefix)) : list Addr := omap (fun x => match x with inl a => Some a | inr _ => None end) xs.
Definition nets_of (xs : list (Addr + Prefix)) : list Prefix := omap (fun x => match x with inl _ => None | inr p => Some p end) xs.
Definition loopback_net : Prefix := MkPrefix (MkAddr true 2130706432) 8.

Definition handleEnableKillSwitch (s : session) (req : Request) (f : Facts) : Sys Handled :=
  if tunIndex s =? 0 then ret (Replied (Failf CodeBadRequest) s)
  else match f_lo f with
       | None => ret (Replied (Failf CodeInternal) s)
       | Some lo =>
           match mapM parseHostOrPrefix (Control req ++ Bypass req) with
           | None => ret (Replied (Failf CodeBadRequest) s)
           | Some xs =>
               let spec := MkSpec (tunIndex s) lo (hosts_of xs) (nets_of xs ++ [loopback_net]) (servedSrc s) in
               sys! dialed := fate in
               if negb dialed then ret (Replied (Failf CodeInternal) s)
               else
                 sys! armed := tableExists in
                 sys! _ := (if bool_decide (armed = Some true) then tableDelete_logged else ret tt) in
                 match killSwitchMsgs spec with
                 | None => ret Panicked
                 | Some ms =>
                     sys! r := batch ms in
                     match r with
                     | Err _ => sys! _ := tableDelete_logged in ret (Replied (Failf CodeInternal) s)
                     | Ok _ => ret (Replied ok_reply (with_armed s true))
                     end
                 end
           end
       end.
Definition handleDisableKillSwitch (s : session) : Sys Handled :=
  sys! dialed := fate in
  if negb dialed then ret (Replied ok_reply s)
  else sys! _ := tableDelete_logged in ret (Replied ok_reply (with_armed s false)).
Definition handleRecoverKillSwitch (s : session) : Sys Handled :=
  sys! dialed := fate in
  if negb dialed then ret (Replied ok_reply s)
  else
    sys! armed := tableExists in
    if bool_decide (armed = Some true) && negb (killSwitchArmed s) then
      sys! _ := tableDelete_logged in
      sys! _ := reapRoutes in
      ret (Replied ok_reply s)
    else ret (Replied ok_reply s).
Definition handleRefreshAllowIP (s : session) (req : Request) : Sys Handled :=
  if negb (killSwitchArmed s) then ret (Replied ok_reply s)
  else match ParseAddr (q_IP req) with
       | Some (a, _) =>
           if negb (Is4 a) then ret (Replied (Failf CodeBadRequest) s)
           else
             sys! dialed := fate in
             if negb dialed then ret (Replied ok_reply s) else sys! _ := nft_refreshAllowIP a in ret (Replied ok_reply s)
       | None => ret (Replied (Failf CodeBadRequest) s)
       end.

(** ** DNS and served egress *)

Definition handleCaptureDNS (s : session) (f : Facts) : Sys Handled :=
  sys! (s, ok) := captureDNS f s in ret (Replied (if ok : bool then ok_reply else Failf CodeInternal) s).
Definition handleReleaseDNS (s : session) : Sys Handled := sys! s := releaseDNS s in ret (Replied ok_reply s).

Definition handleAllowServedEgress (s : session) (f : Facts) : Sys Handled :=
  if killSwitchArmed s then ret (Replied (Failf CodeBadRequest) s)
  else
    sys! ok := fate in
    match (if ok : bool then f_gateway f ≫= fun _ => physicalSource (f_addrs f) else None) with
    | None => ret (Replied (Failf CodeInternal) s)
    | Some src =>
        sys! ok := addServedRule src (uid s) in
        if negb ok then ret (Replied (Failf CodeInternal) s)
        else ret (Replied (MkReply true None "" None (Addr_String src) false) (with_served s (Some src)))
    end.
Definition handleRevokeServedEgress (s : session) : Sys Handled := sys! s := revokeServedEgress s in ret (Replied ok_reply s).

(** ** [dispatch] and [serve] *)

Definition dispatch_session (s : session) (req : Request) (f : Facts) : Sys Handled :=
  let v := String.eqb (Verb req) in
  if v VerbDefaultGateway then handleDefaultGateway s f
  else if v VerbAddExclusionRoutes then handleExclusionRoutes s req false
  else if v VerbAddExclusionRoutesV6 then handleExclusionRoutes s req true
  else if v VerbAddInclusionRoutes then handleInclusionRoutes s req
  else if v VerbRemoveRoutes then handleRemoveRoutes s req
  else if v VerbCreateTUN then handleCreateTUN s f
  else if v VerbConfigureTUN then handleConfigureTUN s req
  else if v VerbAddSplitDefaultRoute then handleSplitDefaultRoute s req
  else if v VerbDisablePhysicalIPv6 then handleDisableIPv6 s
  else if v VerbEnablePhysicalIPv6 then handleEnableIPv6 s
  else if v VerbEnableKillSwitch then handleEnableKillSwitch s req f
  else if v VerbDisableKillSwitch then handleDisableKillSwitch s
  else if v VerbRecoverKillSwitch then handleRecoverKillSwitch s
  else if v VerbRefreshAllowIP then handleRefreshAllowIP s req
  else if v VerbCaptureDNS then handleCaptureDNS s f
  else if v VerbReleaseDNS then handleReleaseDNS s
  else if v VerbAllowServedEgress then handleAllowServedEgress s f
  else if v VerbRevokeServedEgress then handleRevokeServedEgress s
  else ret (Replied (Failf CodeUnknownVerb) s).

(** What a request leads to: a reply, which reaches the client or does not, no reply, or
    the end of the process. *)
Inductive Answer := Sent (r : Reply) | Dropped | Crashed.
Definition dispatch (h : option session) (u : Z) (req : Request) (f : Facts) : Sys (Answer * option session) :=
  if String.eqb (Verb req) VerbOpen then sys! (r, h) := handleOpen h u f in ret (Sent r, h)
  else if String.eqb (Verb req) VerbClose then sys! (r, h) := handleClose h req in ret (Sent r, h)
  else match authorize h req with
       | Err c => ret (Sent (Failf c), h)
       | Ok s =>
           sys! o := dispatch_session s req f in
           ret match o with Replied r s => (Sent r, Some s) | Undelivered s => (Dropped, Some s) | Panicked => (Crashed, None) end
       end.

(** An event on the connection of a user that [checkPeer] let in: a request, well-formed
    or not, whose reply can be written or not; or the end of the connection. A crash
    leaves the kernel as it is and no session. *)
Inductive NetdEvent :=
| EvRequest (u : Z) (req : result Code Request) (f : Facts) (writes : bool)
| EvGone (u : Z).
Record World := MkWorld { w_sess : option session; w_kernel : Kernel }.
Definition serve (w : World) (ev : NetdEvent) (fates : list bool) : World * option Answer :=
  match ev with
  | EvGone _ => let '(h, k, _) := clientGone (w_sess w) (w_kernel w) fates in (MkWorld h k, None)
  | EvRequest _ (Err c) _ _ => (w, Some (Sent (Failf c)))
  | EvRequest u (Ok req) f writes =>
      let '((a, h), k, fates) := dispatch (w_sess w) u req f (w_kernel w) fates in
      match a with
      | Sent r => if writes then (MkWorld h k, Some (Sent r)) else let '(h, k, _) := clientGone h k fates in (MkWorld h k, Some Dropped)
      | Dropped => let '(h, k, _) := clientGone h k fates in (MkWorld h k, Some Dropped)
      | Crashed => (MkWorld None k, Some Crashed)
      end
  end.
Definition serve_all (w : World) (evs : list (NetdEvent * list bool)) : World :=
  foldl (fun w e => (serve w e.1 e.2).1) w evs.
