(* ===== verification/NetdSafety.v ===== *)
(** * The privileged helper: theorems

    Over the programs of [Netd], for every list of fates: who can open the filter, what
    arming it leaves, what a token protects, what the end of a connection undoes; and
    runs in which the helper does less than its design says. *)

From S2P Require Import ASN.
From S2P Require Import Prelude GoStrings Base64 Crypto Net GeoIP Nft NetWire Netd.
Local Open Scope Z_scope.

(** ** Programs that keep a relation on kernels *)

Section Keeps.
Context (R : Kernel -> Kernel -> Prop) `{!PreOrder R}.

Definition keeps {A} (m : Sys A) : Prop := forall k fs, R k (m k fs).1.2.

Lemma keeps_ret {A} (a : A) : keeps (ret a).
Proof. intros k fs. cbn. reflexivity. Qed.
Lemma keeps_bind {A B} (m : Sys A) (f : A -> Sys B) : keeps m -> (forall a, keeps (f a)) -> keeps (sbind m f).
Proof.
  intros Hm Hf k fs. unfold sbind. specialize (Hm k fs). destruct (m k fs) as [[a k1] fs1]. cbn in Hm.
  etransitivity; [exact Hm|]. apply Hf.
Qed.
Lemma keeps_fate : keeps fate.
Proof. intros k [|f fs]; cbn; reflexivity. Qed.
Lemma keeps_read {A} (f : Kernel -> A) : keeps (read_of f).
Proof. intros k [|[] fs]; cbn; reflexivity. Qed.
Lemma keeps_change f : (forall k, R k (f k)) -> keeps (change f).
Proof. intros Hf k [|[] fs]; cbn; [apply Hf|apply Hf|reflexivity]. Qed.
Lemma keeps_if {A} (b : bool) (m1 m2 : Sys A) : keeps m1 -> keeps m2 -> keeps (if b then m1 else m2).
Proof. by destruct b. Qed.
Lemma keeps_all ms : Forall keeps ms -> keeps (all_of ms).
Proof.
  induction 1 as [|m ms Hm _ IH]; cbn [all_of]; [apply keeps_ret|]. apply keeps_bind; [done|]. intros []; [done|apply keeps_ret].
Qed.
Lemma keeps_each ms : Forall keeps ms -> keeps (each_of ms).
Proof. induction 1 as [|m ms Hm _ IH]; cbn [each_of]; [apply keeps_ret|]. by apply keeps_bind. Qed.
Lemma keeps_nl {A} (m : Sys A) no : keeps m -> keeps (nl_do m no).
Proof. intros Hm. apply keeps_bind; [apply keeps_fate|]. intros []; [done|apply keeps_ret]. Qed.
Lemma keeps_map {A B} (f : A -> Sys B) l : (forall x, keeps (f x)) -> Forall keeps (map f l).
Proof. intros Hf. induction l; cbn; by constructor. Qed.
End Keeps.

(** Take a program apart down to the calls that change the kernel, and there [leaf]. *)
Ltac keep leaf :=
  lazymatch goal with
  | |- forall _, _ => intros ?; keep leaf
  | |- keeps _ (ret _) => apply keeps_ret; apply _
  | |- keeps _ fate => apply keeps_fate; apply _
  | |- keeps _ (read_of _) => apply keeps_read; apply _
  | |- keeps _ (sbind _ _) => apply keeps_bind; [apply _|keep leaf|keep leaf]
  | |- keeps _ (nl_do _ _) => apply keeps_nl; [apply _|keep leaf]
  | |- keeps _ (each_of (map _ _)) => apply keeps_each; [apply _|apply keeps_map; keep leaf]
  | |- keeps _ (each_of _) => apply keeps_each; [apply _|repeat (apply List.Forall_cons; [keep leaf|]); apply List.Forall_nil]
  | |- keeps _ (all_of _) => apply keeps_all; [apply _|repeat (apply List.Forall_cons; [keep leaf|]); apply List.Forall_nil]
  | |- keeps _ (match ?x with _ => _ end) => destruct x; keep leaf
  | _ => leaf
  end.

(** ** The filter *)

(** A table of the helper's: what no rule accepts is dropped, and rules only accept. *)
Definition lockdown (t : Table) : Prop :=
  t_policy t = nfDrop /\ forall es c, es ∈ t_rules t -> exprVerdict c ∈ es -> c = nfAccept.
Definition kernel_ok (k : Kernel) : Prop := forall t, k_table k = Some t -> lockdown t.

(** [k'] lets out no more than [k], and is locked down if [k] is. *)
Definition narrower (k k' : Kernel) : Prop :=
  kernel_ok k -> kernel_ok k' /\ (is_Some (k_table k) -> is_Some (k_table k')) /\
    forall p, passes (k_table k') p = true -> passes (k_table k) p = true.
#[export] Instance narrower_preorder : PreOrder narrower.
Proof.
  split; [by intros k Hk|]. intros k1 k2 k3 H12 H23 Hk. destruct (H12 Hk) as (Hk2 & Hs2 & Hp2).
  destruct (H23 Hk2) as (Hk3 & Hs3 & Hp3). split_and!; auto.
Qed.
(** Whatever it lets out, its table is the helper's. *)
Definition sane (k k' : Kernel) : Prop := kernel_ok k -> kernel_ok k'.
#[export] Instance sane_preorder : PreOrder sane.
Proof. split; unfold sane; auto. Qed.

Lemma same_table_narrower k k' : k_table k' = k_table k -> narrower k k'.
Proof. intros He Hk. unfold kernel_ok. by rewrite He. Qed.
Lemma narrower_sane k k' : narrower k k' -> sane k k'.
Proof. intros Hn Hk. by destruct (Hn Hk). Qed.
Lemma keeps_sane {A} (m : Sys A) : keeps narrower m -> keeps sane m.
Proof. intros Hm k fs. by apply narrower_sane. Qed.

(** Calls that leave the table alone. *)
Lemma keeps_route p r : keeps narrower (addRoute p r).
Proof. apply keeps_change; [apply _|]. intros k. by apply same_table_narrower. Qed.
Lemma keeps_delRoute p : keeps narrower (delRoute p).
Proof. apply keeps_change; [apply _|]. intros k. by apply same_table_narrower. Qed.
Lemma keeps_untabled f : (forall k, k_table (f k) = k_table k) -> keeps narrower (change f).
Proof. intros Hf. apply keeps_change; [apply _|]. intros k. by apply same_table_narrower. Qed.

Lemma run_sets_mono sets sets' p reg es v :
  (forall name b, b ∈ default ∅ (sets' !! name) -> b ∈ default ∅ (sets !! name)) ->
  run sets' p reg es = Some v -> run sets p reg es = Some v.
Proof.
  intros Hs. revert reg. induction es as [|e es IH]; intros reg; [done|]. destruct e; cbn [run]; auto.
  - case_bool_decide; try done; auto.
  - destruct (payload _ _ _ _); try done; auto.
  - case_bool_decide as Hin; [|done]. rewrite bool_decide_true by auto. auto.
Qed.

Lemma lockdown_passes t p : lockdown t ->
  passes (Some t) p = true <-> exists es, es ∈ t_rules t /\ run (t_sets t) p [] es = Some nfAccept.
Proof.
  intros [Hpol Hacc]. unfold passes. rewrite Z.eqb_eq, Hpol. apply chain_accepts. intros es v Hes. apply run_verdict. eauto.
Qed.

(** Taking addresses out of a set. *)
Lemma batch_del_narrower set keys : keeps narrower (batch [DelSetElem set keys]).
Proof.
  intros k fs. unfold batch. assert (narrower k k) as Hrefl by reflexivity.
  destruct fs as [|[] fs]; cbn [fate fst snd]; try exact Hrefl.
  all: cbn [apply_batch apply_msg]; destruct (k_table k) as [t|] eqn:Ht; [|exact Hrefl].
  all: destruct (t_sets t !! set) as [old|] eqn:Hs; [|exact Hrefl]; destruct (bool_decide _); [|exact Hrefl].
  all: cbn [rbind fst snd]; intros Hk; cbn [set_table k_table]; pose proof (Hk t Ht) as Hl; split_and!;
    [intros t' [= <-]; exact Hl|by eexists|].
  all: intros p; unfold kernel_ok; rewrite Ht, (lockdown_passes (MkTable _ _ _) p), (lockdown_passes t p) by exact Hl;
    cbn [t_rules t_sets]; intros (es & Hin & Hr); exists es; (split; [done|]); eapply run_sets_mono, Hr;
    intros name b; destruct (decide (name = set)) as [->|Hne];
    [rewrite lookup_insert_eq, Hs; cbn [default]; unfold id; by intros [? _]%elem_of_difference|by rewrite lookup_insert_ne].
Qed.
Lemma revoke_narrower a : keeps narrower (nft_revokeServedEgress a).
Proof.
  unfold nft_revokeServedEgress, opt_batch, serveElemDelMsg, elemMsg. destruct (filter Is4 [a]); [apply keeps_ret; apply _|].
  apply keeps_bind; [apply _|apply batch_del_narrower|intros; apply keeps_ret; apply _].
Qed.

Ltac narrow :=
  keep ltac:(first [ apply keeps_route | apply keeps_delRoute | apply revoke_narrower
                   | apply keeps_untabled; intros; by repeat case_match ]).

Lemma reapRoutes_narrower : keeps narrower reapRoutes.
Proof. unfold reapRoutes, listOwnRoutes, delFibRule, delServedRule. narrow. Qed.
Lemma releaseDNS_narrower s : keeps narrower (releaseDNS s).
Proof. unfold releaseDNS, releaseViaResolved, releaseViaResolvConf. narrow. Qed.
Lemma restoreIPv6_narrower s : keeps narrower (restoreIPv6 s).
Proof. unfold restoreIPv6, writeIPv6. narrow. Qed.
Lemma revokeServed_narrower s : keeps narrower (revokeServedEgress s).
Proof. unfold revokeServedEgress, delServedRule. narrow. Qed.
Lemma clientGone_narrower h : keeps narrower (clientGone h).
Proof.
  unfold clientGone. destruct h; [|apply keeps_ret; apply _].
  apply keeps_bind; [apply _|apply releaseDNS_narrower|intros ?]. apply keeps_bind; [apply _|apply revokeServed_narrower|intros ?].
  destruct (killSwitchArmed _); [apply keeps_ret; apply _|]. apply keeps_bind; [apply _|apply reapRoutes_narrower|intros ?].
  apply keeps_bind; [apply _|apply restoreIPv6_narrower|intros ?]. apply keeps_ret; apply _.
Qed.

(** Messages that leave a table locked down. *)
Definition msg_ok (m : NftMsg) : Prop :=
  match m with
  | NewRule es => forall c, exprVerdict c ∈ es -> c = nfAccept
  | NewChain p => p = nfDrop
  | NewTable => False
  | _ => True
  end.
Lemma apply_msg_ok t m t' : msg_ok m -> (forall t0, t = Some t0 -> lockdown t0) -> apply_msg t m = Ok t' ->
  forall t1, t' = Some t1 -> lockdown t1.
Proof.
  intros Hm Ht Ha t1 ->. destruct t as [t0|]; [|by destruct m]. specialize (Ht t0 eq_refl). destruct Ht as [Hp Hr].
  destruct m; cbn in Hm, Ha; repeat case_match; simplify_eq; split; cbn; try done.
  intros es' c [Hes|Hes%list_elem_of_singleton]%elem_of_app; [by apply Hr|subst; apply Hm].
Qed.
Lemma apply_batch_ok ms t t' : Forall msg_ok ms -> (forall t0, t = Some t0 -> lockdown t0) -> apply_batch t ms = Ok t' ->
  forall t1, t' = Some t1 -> lockdown t1.
Proof.
  intros Hms. revert t. induction Hms as [|m ms Hm _ IH]; intros t Ht; cbn [apply_batch].
  - by intros [= ->].
  - intros Ha. apply rbind_Ok_inv in Ha as (t2 & H2 & Ha). eapply IH, Ha. by eapply apply_msg_ok.
Qed.

Lemma kill_tail_ok spec ms : killSwitchMsgs spec = Some ms ->
  exists tail, ms = NewTable :: NewChain nfDrop :: tail /\ Forall msg_ok tail.
Proof.
  unfold killSwitchMsgs. intros (nets & Hn & Hms)%bind_Some. apply (inj Some) in Hms. subst ms.
  eexists. split; [reflexivity|].
  assert (forall es, (forall c, exprVerdict c ∈ es -> c = nfAccept) -> msg_ok (NewRule es)) as Hrule by done.
  assert (forall es, (forall c, exprVerdict c ∉ es) -> msg_ok (ipv4_rule es)) as Hip.
  { intros es He. apply Hrule. intros c Hc. apply elem_of_cons in Hc as [?|[?|[?|Hc]%elem_of_app]%elem_of_cons]; try done.
    - by apply He in H. - apply list_elem_of_singleton in Hc. by injection Hc. }
  assert (forall mk addrs, (forall l, msg_ok (mk l)) -> Forall msg_ok (option_list (elemMsg mk addrs))) as Hel.
  { intros mk addrs Hmk. unfold elemMsg. destruct (filter Is4 addrs); repeat constructor. apply Hmk. }
  repeat (apply Forall_cons; split); try done.
  apply Forall_app; split; [destruct (ServedSrc spec); repeat constructor; by apply Hel|].
  apply Forall_app; split; [by apply Hel|].
  apply Forall_app; split; [repeat (apply Forall_cons; split); try done|].
  1,2: intros c Hc; rewrite !elem_of_cons, elem_of_nil in Hc; decompose [or] Hc; try done; congruence.
  { apply Hip. intros c Hc. rewrite !elem_of_cons, elem_of_nil in Hc. decompose [or] Hc; done. }
  apply Forall_app; split.
  { destruct (ServedSrc spec); repeat constructor. apply Hip. intros c Hc. rewrite !elem_of_cons, elem_of_nil in Hc. decompose [or] Hc; done. }
  apply Forall_app; split; [|repeat constructor; intros c Hc; rewrite !elem_of_cons, elem_of_nil in Hc; decompose [or] Hc; try done; congruence].
  apply Forall_forall. intros m Hm. apply mapM_Some_1 in Hn. apply list_elem_of_lookup in Hm as [i Hi].
  destruct (Forall2_lookup_r _ _ _ _ _ Hn Hi) as (n & _ & Hr). unfold net_rule in Hr.
  apply bind_Some in Hr as (mask & _ & (nw & _ & Hx)%bind_Some). apply (inj Some) in Hx. subst m.
  apply Hip. intros c Hc. rewrite !elem_of_cons, elem_of_nil in Hc. decompose [or] Hc; done.
Qed.

(** Arming, lifting and extending leave the helper's own kind of table, or none. *)
Lemma batch_sane ms :
  (forall t t', (forall t0, t = Some t0 -> lockdown t0) -> apply_batch t ms = Ok t' -> forall t1, t' = Some t1 -> lockdown t1) ->
  keeps sane (batch ms).
Proof.
  intros Hms k fs Hk. unfold batch. destruct fs as [|[] fs]; cbn [fate fst snd]; try done.
  all: destruct (apply_batch (k_table k) ms) as [t|e] eqn:Ha; [|done]; cbn [fst snd]; intros t1 Ht1; exact (Hms _ _ Hk Ha t1 Ht1).
Qed.
Lemma batch_ok_sane ms : Forall msg_ok ms -> keeps sane (batch ms).
Proof. intros Hms. apply batch_sane. intros t t' Ht Ha. by eapply apply_batch_ok. Qed.
Lemma batch_kill_sane spec ms : killSwitchMsgs spec = Some ms -> keeps sane (batch ms).
Proof.
  intros (tl & -> & Htl)%kill_tail_ok. apply batch_sane. intros t t' Ht Ha. cbn [apply_batch] in Ha.
  apply rbind_Ok_inv in Ha as (t1 & H1 & Ha). apply rbind_Ok_inv in Ha as (t2 & H2 & Ha).
  eapply apply_batch_ok; [exact Htl| |exact Ha]. intros t3 ->. destruct t as [t0|]; cbn in H1; injection H1 as <-; cbn in H2; injection H2 as <-.
  - destruct (Ht t0 eq_refl) as [_ Hr]. by split.
  - split; [done|]. cbn. by intros es c ?%not_elem_of_nil.
Qed.
Lemma deleteTable_sane : keeps sane tableDelete_logged.
Proof.
  unfold tableDelete_logged, deleteTable. keep ltac:(apply batch_ok_sane; by repeat constructor).
Qed.
Lemma refresh_sane a : keeps sane (nft_refreshAllowIP a).
Proof.
  unfold nft_refreshAllowIP, opt_batch, setElemMsg, elemMsg. destruct (filter Is4 [a]); [apply keeps_ret; apply _|].
  keep ltac:(apply batch_ok_sane; by repeat constructor).
Qed.

(** ** The handlers *)

Definition opening_verb (v : string) : bool :=
  String.eqb v VerbEnableKillSwitch || String.eqb v VerbDisableKillSwitch || String.eqb v VerbRecoverKillSwitch
  || String.eqb v VerbRefreshAllowIP.

Ltac narrower_leaf :=
  first [ apply releaseDNS_narrower | apply revokeServed_narrower | apply reapRoutes_narrower | apply restoreIPv6_narrower
        | apply clientGone_narrower | narrow ].
Ltac by_narrow := keep narrower_leaf.

Lemma captureDNS_narrower f s : keeps narrower (captureDNS f s).
Proof. unfold captureDNS, captureViaResolved, captureViaResolvConf. by_narrow. Qed.
Lemma installRoutes_narrower ps r : keeps narrower (installRoutes ps r).
Proof. unfold installRoutes. by_narrow. Qed.

Lemma handlers_narrower s req f : opening_verb (Verb req) = false -> keeps narrower (dispatch_session s req f).
Proof.
  unfold opening_verb, dispatch_session. intros Hv. b2p. repeat match goal with H : _ <> _ |- _ => apply String.eqb_neq in H; rewrite H; clear H end.
  repeat match goal with |- keeps _ (if ?b then _ else _) => destruct b end.
  all: unfold handleDefaultGateway, handleExclusionRoutes, handleInclusionRoutes, handleRemoveRoutes, handleCreateTUN, handleConfigureTUN,
    handleSplitDefaultRoute, handleDisableIPv6, handleEnableIPv6, handleCaptureDNS, handleReleaseDNS, handleAllowServedEgress,
    handleRevokeServedEgress, addServedRule, addAddr, setLinkUp, addFibRule, writeIPv6.
  all: keep ltac:(first [apply captureDNS_narrower | apply installRoutes_narrower | narrower_leaf]).
Qed.

Lemma enable_sane s req f : keeps sane (handleEnableKillSwitch s req f).
Proof.
  unfold handleEnableKillSwitch, tableExists. destruct (_ =? _); [apply keeps_ret; apply _|].
  destruct (f_lo f); [|apply keeps_ret; apply _]. destruct (mapM _ _); [|apply keeps_ret; apply _].
  apply keeps_bind; [apply _|apply keeps_fate; apply _|intros []]; cbn [negb]; [|apply keeps_ret; apply _].
  apply keeps_bind; [apply _|apply keeps_read; apply _|intros armed].
  apply keeps_bind; [apply _|destruct (bool_decide _); [apply deleteTable_sane|apply keeps_ret; apply _]|intros _].
  destruct (killSwitchMsgs _) as [ms|] eqn:Hms; [|apply keeps_ret; apply _].
  apply keeps_bind; [apply _|by eapply batch_kill_sane|]. intros [u|e]; [apply keeps_ret; apply _|].
  apply keeps_bind; [apply _|apply deleteTable_sane|intros _]. apply keeps_ret; apply _.
Qed.
Lemma handlers_sane s req f : keeps sane (dispatch_session s req f).
Proof.
  destruct (opening_verb (Verb req)) eqn:Hv; [|by apply keeps_sane, handlers_narrower].
  unfold dispatch_session. repeat match goal with |- keeps _ (if ?b then _ else _) => destruct b eqn:? end.
  all: try (apply enable_sane).
  all: try (unfold handleDisableKillSwitch, handleRecoverKillSwitch, handleRefreshAllowIP, tableExists;
    keep ltac:(first [apply deleteTable_sane | apply refresh_sane | apply keeps_sane, reapRoutes_narrower]); done).
  all: unfold handleDefaultGateway, handleExclusionRoutes, handleInclusionRoutes, handleRemoveRoutes, handleCreateTUN, handleConfigureTUN,
    handleSplitDefaultRoute, handleDisableIPv6, handleEnableIPv6, handleCaptureDNS, handleReleaseDNS, handleAllowServedEgress,
    handleRevokeServedEgress, addServedRule, addAddr, setLinkUp, addFibRule, writeIPv6; apply keeps_sane;
    keep ltac:(first [apply captureDNS_narrower | apply installRoutes_narrower | narrower_leaf]).
Qed.
Lemma reapOrphan_sane : keeps sane reapOrphan.
Proof.
  unfold reapOrphan, tableExists. keep ltac:(first [apply deleteTable_sane | apply keeps_sane, reapRoutes_narrower]).
Qed.

(** ** What can open the filter *)

(** The requests that may: a session's token with one of four verbs, or an open while
    there is no session. *)
Definition may_open (h : option session) (ev : NetdEvent) : bool :=
  match ev with
  | EvRequest _ (Ok req) _ _ =>
      if String.eqb (Verb req) VerbOpen then bool_decide (h = None)
      else opening_verb (Verb req) && is_ok (authorize h req)
  | _ => false
  end.

Lemma handleClose_narrower h req : keeps narrower (handleClose h req).
Proof. unfold handleClose. destruct h; by_narrow. Qed.

Lemma opening_not_session v : String.eqb v VerbOpen = true \/ String.eqb v VerbClose = true -> opening_verb v = false.
Proof. intros [->%String.eqb_eq| ->%String.eqb_eq]; reflexivity. Qed.

Lemma dispatch_narrower h u req f ev : may_open h (EvRequest u (Ok req) f ev) = false -> keeps narrower (dispatch h u req f).
Proof.
  unfold may_open, dispatch. destruct (String.eqb (Verb req) VerbOpen); intros Hm.
  - destruct h; [|by rewrite bool_decide_true in Hm]. unfold handleOpen. by_narrow.
  - destruct (String.eqb (Verb req) VerbClose).
    + apply keeps_bind; [apply _|apply handleClose_narrower|intros []; apply keeps_ret; apply _].
    + destruct (authorize h req); [|apply keeps_ret; apply _].
      apply keeps_bind; [apply _|apply handlers_narrower; by destruct (opening_verb _)|intros ?; apply keeps_ret; apply _].
Qed.
Lemma dispatch_sane h u req f : keeps sane (dispatch h u req f).
Proof.
  unfold dispatch. destruct (String.eqb (Verb req) VerbOpen).
  - unfold handleOpen. destruct h; [apply keeps_bind; [apply _|apply keeps_ret; apply _|intros []; apply keeps_ret; apply _]|].
    keep ltac:(apply reapOrphan_sane).
  - destruct (String.eqb (Verb req) VerbClose).
    + apply keeps_bind; [apply _|apply keeps_sane, handleClose_narrower|intros []; apply keeps_ret; apply _].
    + destruct (authorize h req); [|apply keeps_ret; apply _].
      apply keeps_bind; [apply _|apply handlers_sane|intros ?; apply keeps_ret; apply _].
Qed.

Lemma serve_keeps (R : Kernel -> Kernel -> Prop) `{!PreOrder R} w ev fates w' a :
  (forall A (m : Sys A), keeps narrower m -> keeps R m) ->
  (match ev with EvRequest u (Ok req) f _ => keeps R (dispatch (w_sess w) u req f) | _ => True end) ->
  serve w ev fates = (w', a) -> R (w_kernel w) (w_kernel w').
Proof.
  intros HR Hd Hs. assert (forall h, keeps R (clientGone h)) as Hgone by (intros h; apply HR, clientGone_narrower).
  destruct ev as [u [req|c] f writes|u]; cbn in Hs.
  - specialize (Hd (w_kernel w) fates). destruct (dispatch _ _ _ _ _ _) as [[[an h] k] fs]. cbn in Hd.
    assert (forall h' k' fs', clientGone h k fs = (h', k', fs') -> R (w_kernel w) k') as Hg.
    { intros h' k' fs' Hc. etransitivity; [exact Hd|]. specialize (Hgone h k fs). by rewrite Hc in Hgone. }
    destruct an; [destruct writes|..]; repeat case_match; simplify_eq; cbn; eauto.
  - by injection Hs as <- <-.
  - specialize (Hgone (w_sess w) (w_kernel w) fates). destruct (clientGone _ _ _) as [[h k] fs]. by injection Hs as <- <-.
Qed.

Lemma serve_sane w ev fates : kernel_ok (w_kernel w) -> kernel_ok (w_kernel (serve w ev fates).1).
Proof.
  intros Hk. destruct (serve w ev fates) as [w1 a] eqn:Hs.
  refine (serve_keeps sane w ev fates w1 a _ _ Hs Hk); [intros A m; apply keeps_sane|].
  destruct ev as [u [req|c] f writes|u]; try done. apply dispatch_sane.
Qed.
Lemma serve_all_sane w evs : kernel_ok (w_kernel w) -> kernel_ok (w_kernel (serve_all w evs)).
Proof. revert w. induction evs as [|e evs IH]; intros w Hk; [done|]. by apply IH, serve_sane. Qed.

(** None of these events may open the filter, each judged in the session it finds. *)
Fixpoint no_opening (w : World) (evs : list (NetdEvent * list bool)) : Prop :=
  match evs with
  | [] => True
  | e :: evs => may_open (w_sess w) e.1 = false /\ no_opening (serve w e.1 e.2).1 evs
  end.

(** C6: Nothing opens the filter unasked. However the requests of all connections and
    their ends interleave and whatever system calls fail, a table the helper armed stays,
    and a packet it blocks stays blocked, as long as no request carries the session's
    token with one of the four kill-switch verbs and none opens a session while there is
    none; and the filter is always a table that drops what no rule accepts. *)
Theorem filter_never_opens w evs :
  kernel_ok (w_kernel w) ->
  kernel_ok (w_kernel (serve_all w evs)) /\
  (no_opening w evs ->
   (is_Some (k_table (w_kernel w)) -> is_Some (k_table (w_kernel (serve_all w evs)))) /\
   forall p, passes (k_table (w_kernel (serve_all w evs))) p = true -> passes (k_table (w_kernel w)) p = true).
Proof.
  revert w. induction evs as [|[ev fates] evs IH]; intros w Hk; [split; auto|]. cbn [serve_all foldl fst snd no_opening].
  pose proof (serve_sane w ev fates Hk) as Hk1. destruct (serve w ev fates) as [w1 a] eqn:Hs. cbn [fst] in *.
  destruct (IH w1 Hk1) as [H1 H2]. split; [done|]. intros [Hm Hn]. destruct (H2 Hn) as [H3 H4].
  assert (narrower (w_kernel w) (w_kernel w1)) as Hnar.
  { refine (serve_keeps narrower w ev fates w1 a _ _ Hs); [done|].
    destruct ev as [u [req|c] f writes|u]; try done. by eapply dispatch_narrower. }
  destruct (Hnar Hk) as (_ & Ht & Hp). split; auto.
Qed.

(** ** The token *)

Lemma subtleCompare_spec a b : subtleCompare a b = String.eqb a b.
Proof.
  assert (forall l v, 0 <= v -> foldl (fun v x => Z.lor v (Z.lxor (octet x.1) (octet x.2))) v l = 0 <->
    v = 0 /\ Forall (fun x : ascii * ascii => x.1 = x.2) l) as Hfold.
  { induction l as [|[x y] l IH]; intros v Hv; cbn [foldl fst snd]; [split; [by split; [|constructor]|by intros [? _]]|].
    pose proof (octet_range x). pose proof (octet_range y).
    assert (0 <= Z.lxor (octet x) (octet y)) as Hx by (apply Z.lxor_nonneg; lia).
    rewrite IH by (apply Z.lor_nonneg; lia). rewrite Z.lor_eq_0_iff, Z.lxor_eq_0_iff, Forall_cons. cbn.
    split; [intros [[-> ->%octet_inj] ?]; auto|intros (-> & -> & ?); auto]. }
  unfold subtleCompare. destruct (String.eqb_spec a b) as [->|Hne].
  - rewrite Nat.eqb_refl. cbn [negb]. apply Z.eqb_eq, Hfold; [lia|]. split; [done|].
    induction (bytes_of b) as [|c l IH]; cbn; constructor; [done|exact IH].
  - destruct (Nat.eqb_spec (String.length a) (String.length b)) as [Hl|]; [|done]. cbn [negb]. apply Z.eqb_neq. intros Hz.
    apply Hfold in Hz as [_ Hz]; [|lia]. apply Hne. revert b Hl Hz Hne. induction a as [|x a IH]; intros [|y b]; cbn; intros Hl Hz Hne; try done.
    apply Forall_cons in Hz as [Hx Hz]. cbn in Hx. subst y. f_equal. apply IH; [by injection Hl|exact Hz|congruence].
Qed.

(** A client whose reply cannot be written is one that has gone. *)
Lemma gone_ends_the_session w u fates w' a : serve w (EvGone u) fates = (w', a) ->
  w_sess w' = None /\ (kernel_ok (w_kernel w) -> narrower (w_kernel w) (w_kernel w')).
Proof.
  cbn [serve]. pose proof (clientGone_narrower (w_sess w) (w_kernel w) fates) as Hn.
  assert (forall s k fs, (clientGone (Some s) k fs).1.1 = None) as Hnone.
  { intros s k fs. unfold clientGone, sbind. repeat (case_match; cbn [fst snd]; try done). all: unfold ret in *; by simplify_eq/=. }
  destruct (w_sess w) as [s|]; [specialize (Hnone s (w_kernel w) fates)|]; destruct (clientGone _ _ _) as [[h k] fs] eqn:Hc;
    cbn [fst snd] in *; intros [= <- <-]; split; try done. by injection Hc as <- _ _.
Qed.

(** C7: Only the session's client is obeyed. While a session is open, a request that does
    not carry its token is refused, a second open as busy and everything else for its
    token, and changes nothing, in the helper or in the machine, when its refusal can be
    written; when it cannot, it does what the end of its connection does and no more: the
    session ends, and the machine's filter, if it only accepts and then drops, as the
    helper's does in every run, blocks what it blocked. Without a session
    nothing but an open has an effect. *)
Theorem token_is_required w u req f writes fates :
  (match w_sess w with Some s => token s <> "" /\ q_Token req <> token s | None => Verb req <> VerbOpen end) ->
  exists r,
    match w_sess w with
    | Some _ => r = Failf (if String.eqb (Verb req) VerbOpen then CodeBusy else CodeBadToken)
    | None => r = if String.eqb (Verb req) VerbClose then ok_reply else Failf CodeNoSession
    end /\
    (writes = true -> serve w (EvRequest u (Ok req) f writes) fates = (w, Some (Sent r))) /\
    (writes = false -> let w' := (serve w (EvGone u) fates).1 in
      serve w (EvRequest u (Ok req) f writes) fates = (w', Some Dropped) /\ w_sess w' = None /\
      (w_sess w = None -> w' = w) /\
      (kernel_ok (w_kernel w) -> forall p, passes (k_table (w_kernel w')) p = true -> passes (k_table (w_kernel w)) p = true)).
Proof.
  intros Hw. assert (exists r, dispatch (w_sess w) u req f (w_kernel w) fates = ((Sent r, w_sess w), w_kernel w, fates) /\
    match w_sess w with
    | Some _ => r = Failf (if String.eqb (Verb req) VerbOpen then CodeBusy else CodeBadToken)
    | None => r = if String.eqb (Verb req) VerbClose then ok_reply else Failf CodeNoSession
    end) as (r & Hd & Hr).
  { unfold dispatch. destruct w as [[s|] k]; cbn [w_sess w_kernel] in *.
    - destruct Hw as [Ht Hq]. destruct (String.eqb (Verb req) VerbOpen); [by eexists|].
      destruct (String.eqb (Verb req) VerbClose).
      + unfold handleClose. rewrite subtleCompare_spec, (proj2 (String.eqb_neq _ _) Hq). by eexists.
      + unfold authorize. rewrite subtleCompare_spec, (proj2 (String.eqb_neq (q_Token req) (token s)) Hq). cbn [negb].
        destruct (String.eqb (q_Token req) ""); by eexists.
    - rewrite (proj2 (String.eqb_neq _ _) Hw). destruct (String.eqb (Verb req) VerbClose); by eexists. }
  exists r. split; [exact Hr|]. split.
  - intros ->. unfold serve. rewrite Hd. by destruct w.
  - intros ->. cbv zeta. destruct (serve w (EvGone u) fates) as [w' a] eqn:Hg. cbn [fst].
    destruct (gone_ends_the_session _ _ _ _ _ Hg) as [Hs Hn]. split_and!; [|done| |].
    + cbn [serve] in Hg |- *. rewrite Hd. destruct (clientGone _ _ _) as [[h k] fs]. by injection Hg as <- _.
    + intros Hno. cbn [serve] in Hg. rewrite Hno in Hg. cbn in Hg. injection Hg as <- _. destruct w; cbn in *; by subst.
    + intros Hk p. by destruct (Hn Hk) as (_ & _ & Hp); [|apply Hp].
Qed.

(** ** Arming *)

Lemma parseIPv4_length s v4 : parseIPv4Fields s = Some v4 -> List.length v4 = 4%nat.
Proof.
  unfold parseIPv4Fields. destruct (List.length (Split "." s) =? 4)%nat eqn:Hl; [|done]. cbn [negb]. intros Hm.
  apply mapM_Some_1, Forall2_length in Hm. apply Nat.eqb_eq in Hl. congruence.
Qed.
Lemma parse_groups_length fuel : forall s ip e s' ip' e',
  parse_groups fuel s ip e = Some (s', ip', e') -> (List.length ip + 2 * fuel <= 16)%nat -> (List.length ip' <= 16)%nat.
Proof.
  induction fuel as [|fuel IH]; intros s ip e s' ip' e'; cbn [parse_groups]; [by intros [= <- <- <-]; lia|].
  destruct (scan_hex s 0 0) as [[acc off] rest]. destruct (_ || _); [done|].
  assert (forall r e'', parse_groups fuel r (ip ++ [byte_of (acc / 256); byte_of acc]) e'' = Some (s', ip', e') -> (List.length ip + 2 * S fuel <= 16)%nat -> (List.length ip' <= 16)%nat) as Hgo by
    (intros r e'' Hp Hl; eapply IH; [exact Hp|rewrite length_app; cbn; lia]).
  assert (forall e'', Some ([], ip ++ [byte_of (acc / 256); byte_of acc], e'') = Some (s', ip', e') -> (List.length ip + 2 * S fuel <= 16)%nat -> (List.length ip' <= 16)%nat) as Hend by
    (intros e'' [= <- <- <-] Hl; rewrite length_app; cbn; lia).
  repeat case_match; try discriminate; try (by apply Hgo); try (by apply Hend).
  intros (v4 & Hv4 & [= <- <- <-])%bind_Some Hl. apply parseIPv4_length in Hv4. rewrite length_app, Hv4.
  match goal with H : (12 <? _)%nat = false |- _ => apply Nat.ltb_ge in H; lia end.
Qed.
Lemma parseIPv6_length s ip : parseIPv6 s = Some ip -> List.length ip = 16%nat.
Proof.
  unfold parseIPv6. destruct (match s with ":"%char :: ":"%char :: s' => (s', Some O) | _ => (s, None) end) as [s0 e0].
  assert (forall r, ('(s, ip, ellipsis) ← parse_groups 8 s0 [] e0;
      if negb (bool_decide (s = [])) then None
      else if (List.length ip <? 16)%nat then
        match ellipsis with
        | None => None
        | Some e => Some (firstn e ip ++ repeat Ascii.zero (16 - List.length ip) ++ skipn e ip)
        end
      else if bool_decide (is_Some ellipsis) then None else Some ip) = Some r -> List.length r = 16%nat) as Hgo.
  { intros r ([[s1 ip1] e1] & Hp & Hr)%bind_Some. apply parse_groups_length in Hp; [|cbn; lia].
    destruct (negb _); [done|]. destruct (Nat.ltb_spec (List.length ip1) 16).
    - destruct e1 as [e1|]; [|done]. injection Hr as <-. rewrite !length_app, repeat_length.
      pose proof (firstn_skipn e1 ip1) as Hfs. apply (f_equal (@List.length _)) in Hfs. rewrite length_app in Hfs. lia.
    - destruct (bool_decide _); [done|]. injection Hr as <-. lia. }
  destruct s0 as [|c s0]; [|apply Hgo]. destruct e0; [by intros [= <-]|apply Hgo].
Qed.
Lemma ParseAddr_range s a z : ParseAddr s = Some (a, z) -> 0 <= val a < 2 ^ BitLen a.
Proof.
  assert (forall b v4, List.length b = 4%nat -> 0 <= val (MkAddr true (be_value b)) < 2 ^ BitLen (MkAddr true v4)) as H4.
  { intros b v4 Hl. pose proof (be_value_range b) as Hr. rewrite Hl in Hr. exact Hr. }
  assert (forall b v6, List.length b = 16%nat -> 0 <= val (MkAddr false (be_value b)) < 2 ^ BitLen (MkAddr false v6)) as H6.
  { intros b v6 Hl. pose proof (be_value_range b) as Hr. rewrite Hl in Hr. exact Hr. }
  unfold ParseAddr. intros Hp. repeat case_match; try discriminate Hp.
  all: try (destruct (String.eqb _ ""); [discriminate Hp|]); apply bind_Some in Hp as (ipb & Hipb & Hx); simplify_eq.
  all: first [apply H4; by eapply parseIPv4_length | apply H6; by eapply parseIPv6_length].
Qed.
Lemma ParsePrefix_ok s p : ParsePrefix s = Some p -> net_ok p.
Proof.
  unfold ParsePrefix. intros Hp. apply bind_Some in Hp as (i & _ & Hp). apply bind_Some in Hp as ([ip zone] & Ha & Hp).
  apply ParseAddr_range in Ha. destruct (String.eqb zone ""); [|done]. cbn [negb] in Hp.
  match type of Hp with (if ?c then _ else _) = _ => destruct c end; [done|].
  apply bind_Some in Hp as (bits & _ & Hp). destruct ((bits <? 0) || (BitLen ip <? bits)) eqn:Hb; [done|]. injection Hp as <-.
  b2p. split; cbn; lia.
Qed.
Lemma Masked_ok p : net_ok p -> net_ok (Masked p).
Proof.
  intros [Hv Hb]. unfold net_ok, Masked. cbn [Prefix_Addr val Bits]. unfold BitLen in *. cbn [Is4] in *. split; [|done].
  unfold host_bits, BitLen. set (w := if Is4 (Prefix_Addr p) then 32 else 128) in *. assert (0 <= w - Bits p) by lia.
  rewrite Z.shiftl_mul_pow2, Z.shiftr_div_pow2 by lia. assert (0 < 2 ^ (w - Bits p)) by (apply Z.pow_pos_nonneg; lia).
  pose proof (Z.mul_div_le (val (Prefix_Addr p)) (2 ^ (w - Bits p))). assert (0 <= val (Prefix_Addr p) / 2 ^ (w - Bits p)) by (apply Z.div_pos; lia).
  nia.
Qed.
Lemma parsed_nets_ok l xs : mapM parseHostOrPrefix l = Some xs -> Forall net_ok (nets_of xs).
Proof.
  intros Hm. apply mapM_Some_1 in Hm. apply Forall_forall. intros p Hp. unfold nets_of in Hp.
  apply list_elem_of_omap in Hp as ([a|q] & Hx & [= ->]). apply list_elem_of_lookup in Hx as [i Hi].
  destruct (Forall2_lookup_r _ _ _ _ _ Hm Hi) as (s & _ & Hs). unfold parseHostOrPrefix in Hs.
  destruct (String.eqb _ ""); [done|]. destruct (ParseAddr _) as [[? ?]|]; [done|].
  apply fmap_Some in Hs as (q & Hq & [= ->]). by eapply Masked_ok, ParsePrefix_ok.
Qed.

(** Programs none of whose calls fails. *)
Lemma sbind_eq {A B} (m : Sys A) (g : A -> Sys B) k fs a k1 fs1 : m k fs = (a, k1, fs1) -> sbind m g k fs = g a k1 fs1.
Proof. unfold sbind. by intros ->. Qed.
Lemma change_calm f k : change f k [] = (true, f k, []).
Proof. done. Qed.
Lemma delete_calm k : tableDelete_logged k [] = (tt, set_table k None, []).
Proof.
  unfold tableDelete_logged, deleteTable, sbind, batch. cbn [fate]. destruct (k_table k) as [t|] eqn:Ht; [by cbn|].
  cbn. destruct k. cbn in Ht. by subst.
Qed.
Lemma disarm_calm k : exists k0, k_table k0 = None /\
  (if bool_decide (Some (bool_decide (is_Some (k_table k))) = Some true) then tableDelete_logged else ret tt) k [] = (tt, k0, []).
Proof.
  destruct (k_table k) as [t|] eqn:Ht; cbn.
  - exists (set_table k None). split; [done|]. apply delete_calm.
  - by exists k.
Qed.

Lemma arming_spec s req f k r s' k' fs :
  handleEnableKillSwitch s req f k [] = (Replied r s', k', fs) -> r_OK r = true ->
  exists lo xs, f_lo f = Some lo /\ mapM parseHostOrPrefix (Control req ++ Bypass req) = Some xs /\
    s' = with_armed s true /\ is_Some (k_table k') /\
    forall p, packet_ok p ->
      passes (k_table k') p = true <->
      allowed (MkSpec (tunIndex s) lo (hosts_of xs) (nets_of xs ++ [loopback_net]) (servedSrc s)) p.
Proof.
  unfold handleEnableKillSwitch. destruct (tunIndex s =? 0); [by intros [= <- <- <- <-]|].
  destruct (f_lo f) as [lo|]; [|by intros [= <- <- <- <-]].
  destruct (mapM parseHostOrPrefix _) as [xs|] eqn:Hxs; [|by intros [= <- <- <- <-]].
  set (spec := MkSpec _ _ _ _ _). rewrite (sbind_eq fate _ k [] true k []) by done. cbn [negb].
  rewrite (sbind_eq tableExists _ k [] (Some (bool_decide (is_Some (k_table k)))) k []) by done.
  destruct (disarm_calm k) as (k0 & Hk0 & Hdel). rewrite (sbind_eq _ _ _ _ _ _ _ Hdel).
  destruct (killSwitchMsgs spec) as [ms|] eqn:Hms; [|done].
  assert (Forall net_ok (Nets spec)) as Hok.
  { apply Forall_app. split; [by eapply parsed_nets_ok|]. repeat constructor; cbn; lia. }
  intros Hr Hrok. assert (forall p, packet_ok p -> exists t, apply_batch None ms = Ok (Some t) /\ (passes (Some t) p = true <-> allowed spec p)) as Hall.
  { intros p Hp. destruct (killSwitch_table spec ms Hms) as (sets & nets & Hn & Ht & Ha & Hs). eexists. split; [exact Ht|].
    by eapply lets_out. }
  destruct (killSwitch_table spec ms Hms) as (sets & nets & _ & Ht & _).
  assert (batch ms k0 [] = (Ok tt, set_table k0 (Some (MkTable nfDrop sets (kill_programs spec nets))), [])) as Hb.
  { unfold batch. cbn [fate]. by rewrite Hk0, Ht. }
  rewrite (sbind_eq _ _ _ _ _ _ _ Hb) in Hr. injection Hr as <- <- <- <-.
  exists lo, xs. split_and!; [done|done|done|by eexists|]. intros p Hp. destruct (Hall p Hp) as (t & Ht' & Hiff).
  rewrite Ht in Ht'. injection Ht' as <-. exact Hiff.
Qed.

(** Arming the kill switch. When every call succeeds and the client is told the switch
    is on, the filter lets out exactly the tunnel, loopback, the IPv4 hosts and networks
    the request listed, loopback addresses, the address served from, and DHCP, whatever
    table was there before. *)
Theorem armed_filter_is_the_allowlist s req f k r s' k' fs :
  handleEnableKillSwitch s req f k [] = (Replied r s', k', fs) -> r_OK r = true ->
  exists lo xs, f_lo f = Some lo /\ mapM parseHostOrPrefix (Control req ++ Bypass req) = Some xs /\
    killSwitchArmed s' = true /\ is_Some (k_table k') /\
    forall p, packet_ok p ->
      passes (k_table k') p = true <->
      allowed (MkSpec (tunIndex s) lo (hosts_of xs) (nets_of xs ++ [loopback_net]) (servedSrc s)) p.
Proof.
  intros Hh Hr. destruct (arming_spec _ _ _ _ _ _ _ _ Hh Hr) as (lo & xs & Hlo & Hxs & -> & Ht & Hp). by exists lo, xs.
Qed.

(** ** What is put back *)

(** The resolver settings a capture may touch, but for the tunnel's own link. *)
Definition same_dns (tun : Z) (k k' : Kernel) : Prop :=
  k_resolv k' = k_resolv k /\ (forall i, i <> tun -> k_linkdns k' !! i = k_linkdns k !! i) /\
  (forall i, i <> tun -> i ∈ k_domain k' <-> i ∈ k_domain k) /\
  (forall i, default true (k_default k' !! i) = default true (k_default k !! i)).

(** Capturing the machine's DNS and releasing it leaves the resolver as it was: the
    file or the link it was, or none, and the flags of every link but the tunnel's own. *)
Theorem dns_roundtrip f s k s1 k1 fs1 s2 k2 fs2 :
  dns s = no_dns -> 0 < tunIndex s -> (forall c m, k_resolv k = Some (File c m) -> m <> 0) ->
  captureDNS f s k [] = ((s1, true), k1, fs1) -> releaseDNS s1 k1 [] = (s2, k2, fs2) ->
  captured (dns s1) = true /\ dns s2 = no_dns /\ same_dns (tunIndex s) k k2.
Proof.
  intros Hd Ht Hm. unfold captureDNS. rewrite Hd. cbn [captured no_dns].
  replace (tunIndex s =? 0) with false by (symmetry; apply Z.eqb_neq; lia).
  destruct (tunAddr s) as [a|]; [|by intros [= _]]. destruct (f_resolved f).
  - unfold captureViaResolved, sbind, change, read_of, ret. cbn. rewrite Hd. cbn.
    destruct (gw s) as [g|]; [destruct (Z.ltb_spec 0 (IfIndex g)) as [Hg|Hg]|]; intros [= <- <- <-];
      unfold releaseDNS, releaseViaResolved, sbind, change, ret; cbn;
      rewrite ?(proj2 (Z.ltb_lt 0 (IfIndex g)) Hg), ?(proj2 (Z.ltb_lt 0 (tunIndex s)) Ht); cbn; intros [= <- <- <-].
    all: split; [done|]; split; [done|]; split_and!; cbn; try done.
    all: try (intros i Hi; rewrite lookup_delete_ne, lookup_insert_ne by done; done).
    all: try (intros i Hi; set_solver).
    intros i. destruct (decide (i = IfIndex g)) as [->|Hne].
    + rewrite lookup_insert_eq. cbn. by destruct (k_default k !! IfIndex g).
    + by rewrite !lookup_insert_ne.
  - unfold captureViaResolvConf, sbind, change, read_of, ret. cbn. rewrite Hd. cbn.
    destruct (k_resolv k) as [[t|c m]|] eqn:Hr; cbn; intros [= <- <- <-];
      unfold releaseDNS, releaseViaResolvConf, sbind, change, ret; cbn; intros [= <- <- <-].
    all: split; [done|]; split; [done|]; split_and!; cbn; rewrite ?Hr; try done.
    by rewrite (proj2 (Z.eqb_neq m 0) (Hm c m eq_refl)).
Qed.

(** ** Runs *)

Module Demo.
Definition gateway : gatewayInfo := MkGatewayInfo (MkAddr true 3232235521) 2 "eth0" None.
Definition facts : Facts :=
  MkFacts (Some gateway) (Some 7) (Some 1) (Some [MkAddr true 3232235777]) (Some (repeat "r"%char 32)) true true.
Definition machine : Kernel := MkKernel None ∅ (false, false) [] [] [] {["eth0" := "0"]} ∅ ∅ ∅ None.
Definition tok : string := default "" (newToken (Some (repeat "r"%char 32))).
Definition request (verb : string) (bypass : list string) : Request :=
  MkRequest Version verb tok [] ["1.2.3.4"] bypass "" 0 "".
Definition ask (u : Z) (verb : string) : NetdEvent * list bool := (EvRequest u (Ok (request verb [])) facts true, []).
(** A client of user 1000 opens a session, turns IPv6 off and arms the kill switch. *)
Definition armed : World :=
  serve_all (MkWorld None machine)
    [ask 1000 VerbOpen; ask 1000 VerbDefaultGateway; ask 1000 VerbCreateTUN; ask 1000 VerbDisablePhysicalIPv6;
     ask 1000 VerbEnableKillSwitch].
Definition stranger : Request := MkRequest Version VerbOpen "" [] [] [] "" 0 "".
Definition blocked (w : World) : bool := negb (passes (k_table (w_kernel w)) (Nft.Demo.packet 2 16909061)).
End Demo.

(** The end of any connection ends the session, whoever opened it: a second user, refused
    as busy, disconnects, opens a session of its own and so lifts the lockdown of a
    client that is still there. *)
Example second_client_lifts_the_lockdown :
  Demo.blocked Demo.armed = true /\
  let busy := serve Demo.armed (EvRequest 1001 (Ok Demo.stranger) Demo.facts true) [] in
  busy.2 = Some (Sent (Failf CodeBusy)) /\
  let gone := serve busy.1 (EvGone 1001) [] in
  w_sess gone.1 = None /\ Demo.blocked gone.1 = true /\
  (serve gone.1 (EvRequest 1000 (Ok (Demo.request VerbRefreshAllowIP [])) Demo.facts true) []).2 = Some (Sent (Failf CodeNoSession)) /\
  let opened := serve gone.1 (EvRequest 1001 (Ok Demo.stranger) Demo.facts true) [] in
  uid <$> w_sess opened.1 = Some 1001 /\ Demo.blocked opened.1 = false.
Proof. by vm_compute. Qed.

(** The setting of IPv6 is lost with a session that ends under the lockdown: the next one
    lifts the filter, and finds and restores the value the first one wrote. *)
Example ipv6_stays_off :
  let gone := (serve Demo.armed (EvGone 1000) []).1 in
  let next := serve_all gone [Demo.ask 1000 VerbOpen; Demo.ask 1000 VerbDefaultGateway; Demo.ask 1000 VerbDisablePhysicalIPv6;
                              Demo.ask 1000 VerbEnablePhysicalIPv6; Demo.ask 1000 VerbClose] in
  k_ipv6 Demo.machine !! "eth0" = Some "0" /\ Demo.blocked next = false /\ k_ipv6 (w_kernel next) !! "eth0" = Some "1".
Proof. by vm_compute. Qed.

(** An IPv6 network in the allowlist ends the process, after the table was deleted. *)
Example ipv6_network_crashes_the_helper :
  let r := serve Demo.armed (EvRequest 1000 (Ok (Demo.request VerbEnableKillSwitch ["2001:db8::/32"])) Demo.facts true) [] in
  r.2 = Some Crashed /\ Demo.blocked Demo.armed = true /\ Demo.blocked r.1 = false.
Proof. by vm_compute. Qed.

(** When arming again fails, the filter is gone and the session still counts as armed. *)
Example failed_rearm_stays_armed :
  let r := serve Demo.armed (EvRequest 1000 (Ok (Demo.request VerbEnableKillSwitch [])) Demo.facts true) [true; true; true; false] in
  r.2 = Some (Sent (Failf CodeInternal)) /\ killSwitchArmed <$> w_sess r.1 = Some true /\ Demo.blocked r.1 = false.
Proof. by vm_compute. Qed.

(** A carve-out asked for again from another address leaves a rule behind. *)
Example second_carve_out_leaves_a_rule :
  let moved := MkFacts (Some Demo.gateway) (Some 7) (Some 1) (Some [MkAddr true 167772165]) None true true in
  let w := serve_all (MkWorld None Demo.machine)
    [Demo.ask 1000 VerbOpen; Demo.ask 1000 VerbAllowServedEgress;
     (EvRequest 1000 (Ok (Demo.request VerbAllowServedEgress [])) moved true, []); Demo.ask 1000 VerbRevokeServedEgress] in
  servedSrc <$> w_sess w = Some None /\ k_served (w_kernel w) = [(MkAddr true 167772165, 1000)].
Proof. by vm_compute. Qed.

(** ** Witnesses *)

Definition gone_by : list (NetdEvent * list bool) :=
  [(EvRequest 1001 (Ok Demo.stranger) Demo.facts true, []); (EvGone 1001, [false; true]);
   (EvRequest 1001 (Ok (Demo.request VerbDisableKillSwitch [])) Demo.facts false, [])].
Lemma demo_kernel_ok : kernel_ok (w_kernel Demo.armed).
Proof. apply serve_all_sane. by intros t. Qed.
Lemma filter_never_opens_witness :
  is_Some (k_table (w_kernel Demo.armed)) /\ is_Some (k_table (w_kernel (serve_all Demo.armed gone_by))) /\
  Demo.blocked (serve_all Demo.armed gone_by) = true.
Proof.
  destruct (filter_never_opens Demo.armed gone_by demo_kernel_ok) as [_ H]. destruct H as [Ht Hp].
  { split; [vm_compute; reflexivity|]. split; [vm_compute; reflexivity|]. split; [vm_compute; reflexivity|exact I]. }
  assert (is_Some (k_table (w_kernel Demo.armed))) as Hs by (by eexists). split; [exact Hs|]. split; [exact (Ht Hs)|].
  unfold Demo.blocked. destruct (passes (k_table (w_kernel (serve_all Demo.armed gone_by))) (Nft.Demo.packet 2 16909061)) eqn:He; [|reflexivity].
  apply Hp in He. vm_compute in He. discriminate He.
Defined.

Lemma token_is_required_witness : exists r,
  serve Demo.armed (EvRequest 1001 (Ok Demo.stranger) Demo.facts true) [] = (Demo.armed, Some (Sent r)) /\ r = Failf CodeBusy /\
  w_sess (serve Demo.armed (EvRequest 1001 (Ok Demo.stranger) Demo.facts false) []).1 = None.
Proof.
  assert (match w_sess Demo.armed with Some s => token s <> "" /\ "" <> token s | None => VerbOpen <> VerbOpen end) as Hw.
  { destruct (w_sess Demo.armed) as [s|] eqn:Hs; [|by vm_compute in Hs]. vm_compute in Hs. injection Hs as <-. by split. }
  assert (exists s, w_sess Demo.armed = Some s) as [s Hs].
  { destruct (w_sess Demo.armed) as [s|] eqn:Hs; [by exists s|by vm_compute in Hs]. }
  destruct (token_is_required Demo.armed 1001 Demo.stranger Demo.facts true [] Hw) as (r & He & Hr & _).
  destruct (token_is_required Demo.armed 1001 Demo.stranger Demo.facts false [] Hw) as (r' & _ & _ & Hn).
  exists r. split; [exact (Hr eq_refl)|]. split; [rewrite Hs in He; exact He|].
  destruct (Hn eq_refl) as (Hd & Hnone & _). apply (f_equal fst) in Hd. cbn [fst] in Hd. rewrite Hd. exact Hnone.
Defined.

Definition demo_session : session := with_tun (new_session Demo.tok 1000) 7 (Some (MkAddr true 167772161)).
Lemma armed_filter_is_the_allowlist_witness : exists s' k' xs,
  handleEnableKillSwitch demo_session (Demo.request VerbEnableKillSwitch ["10.1.0.0/16"]) Demo.facts Demo.machine [] = (Replied ok_reply s', k', []) /\
  mapM parseHostOrPrefix ["1.2.3.4"; "10.1.0.0/16"] = Some xs /\
  (passes (k_table k') (Nft.Demo.packet 2 167837697) = true <->
   allowed (MkSpec 7 1 (hosts_of xs) (nets_of xs ++ [loopback_net]) None) (Nft.Demo.packet 2 167837697)).
Proof.
  destruct (handleEnableKillSwitch demo_session (Demo.request VerbEnableKillSwitch ["10.1.0.0/16"]) Demo.facts Demo.machine [])
    as [[[r s'| |] k'] fs'] eqn:He; [|by vm_compute in He..].
  assert (r = ok_reply /\ fs' = []) as [-> ->] by (vm_compute in He; injection He as <- _ _ <-; by split).
  destruct (armed_filter_is_the_allowlist _ _ _ _ _ _ _ _ He eq_refl) as (lo & xs & Hlo & Hxs & _ & _ & Hp).
  exists s', k', xs. split; [reflexivity|]. split; [exact Hxs|]. vm_compute in Hlo. injection Hlo as <-. apply Hp.
  intros base off len b. cbn [payload Nft.Demo.packet]. destruct (_ && _) eqn:Hc; [|discriminate]. intros [= <-]. b2p. subst. reflexivity.
Defined.

Lemma dns_roundtrip_witness : exists s1 k1 s2 k2,
  captureDNS Demo.facts (with_gw demo_session Demo.gateway) Demo.machine [] = ((s1, true), k1, []) /\
  releaseDNS s1 k1 [] = (s2, k2, []) /\ k_default k1 !! 2 = Some false /\ same_dns 7 Demo.machine k2.
Proof.
  destruct (captureDNS Demo.facts (with_gw demo_session Demo.gateway) Demo.machine []) as [[[s1 ok] k1] fs1] eqn:Hc.
  destruct (releaseDNS s1 k1 []) as [[s2 k2] fs2] eqn:Hr.
  assert (ok = true /\ fs1 = []) as [-> ->] by (vm_compute in Hc; injection Hc as _ <- _ <-; by split).
  destruct (dns_roundtrip Demo.facts (with_gw demo_session Demo.gateway) Demo.machine s1 k1 [] s2 k2 fs2 eq_refl ltac:(cbn; lia) ltac:(intros c m; discriminate) Hc Hr) as (_ & _ & Hsame).
  exists s1, k1, s2, k2. split; [reflexivity|]. split; [|split; [vm_compute in Hc; injection Hc as _ <-; reflexivity|exact Hsame]].
  vm_compute in Hc. injection Hc as <- <-. vm_compute in Hr. injection Hr as <- <- <-. reflexivity.
Defined.
