(* ===== verification/Enforce.v ===== *)
(** * What stays outside the tunnel: [clients/internal/enforcement]

    The addresses of the control plane ([addrs.go]), the user's bypass list
    ([splittunnel.go]) and the addresses the transports dial while the tunnel is up
    ([poolroutes.go]). The resolver of the machine and the DNS message library are
    arguments. The walks of a Go map are in the order of [elements]: what is made of them
    is a set. [poolExcluder.reserve] runs on several goroutines beside the tunnel's own;
    its locked sections are the steps of [xstep]. *)

From S2P Require Import ASN.
From S2P Require Import Prelude GoStrings Net GeoIP.
Local Open Scope Z_scope.

(** ** Strings *)

(** The text after the first occurrence of [sub]. *)
Fixpoint after_first (sub s : string) : option string :=
  match strip_prefix sub s with
  | Some rest => Some rest
  | None => match s with "" => None | String _ s => after_first sub s end
  end.
Definition count_byte (c : ascii) (s : string) : nat := List.length (filter (fun d => d = c) (bytes_of s)).
Definition HasPrefix (p s : string) : bool := bool_decide (is_Some (strip_prefix p s)).
Definition string_rev (s : string) : string := string_of (rev (bytes_of s)).
Definition HasSuffix (p s : string) : bool := HasPrefix (string_rev p) (string_rev s).
Definition TrimSuffix (p s : string) : string :=
  match strip_prefix (string_rev p) (string_rev s) with Some r => string_rev r | None => s end.

(** [strings.ToLower], up to the identity of non-ASCII runes: the two runes whose lower
    case is an ASCII letter (U+0130, U+212A) become it. *)
Definition lower_byte (c : ascii) : ascii :=
  let z := octet c in if (65 <=? z) && (z <=? 90) then byte_of (z + 32) else c.
Fixpoint lower_bytes (b : bytes) : bytes :=
  match b with
  | [] => []
  | x :: b1 =>
      match b1 with
      | y :: b2 =>
          if (octet x =? 196) && (octet y =? 176) then "i"%char :: lower_bytes b2
          else match b2 with
               | z :: b3 => if (octet x =? 226) && (octet y =? 132) && (octet z =? 170) then "k"%char :: lower_bytes b3
                            else lower_byte x :: lower_bytes b1
               | [] => lower_byte x :: lower_bytes b1
               end
      | [] => [lower_byte x]
      end
  end.
Definition ToLower (s : string) : string := string_of (lower_bytes (bytes_of s)).

(** ** [addrs.go] *)

Definition is4 (ip : IP) : bool := bool_decide (is_Some (To4 ip)).
Definition ip_text (ip : IP) : string := string_of (ip_String ip).

(** [hostOf]: the host of "host:port", of a URL with one, of "stun:host:port". *)
Definition hostOf (endpoint : string) : string :=
  let s :=
    if HasPrefix "[" endpoint then endpoint
    else match after_first "://" endpoint with
         | Some rest => rest
         | None => if (2 <=? count_byte colon endpoint)%nat then default endpoint (after_first ":" endpoint) else endpoint
         end in
  match SplitHostPort s with Some (host, _) => host | None => "" end.

Section Resolver.
Context (LookupHost : string -> option (list string)).

Definition add_once (ips : list string) (ip : string) : list string :=
  if bool_decide (ip ∈ ips) then ips else ips ++ [ip].
(** The addresses of a family among the answers for a name. *)
Definition add_looked_up (want : IP -> bool) (ips : list string) (host : string) : list string :=
  match LookupHost host with
  | None => ips
  | Some addrs =>
      foldl (fun ips a => match ParseIP a with
                          | Some ip => if want ip then add_once ips (ip_text ip) else ips
                          | None => ips
                          end) ips addrs
  end.

Definition resolveExclusions (endpoints : list string) : list string :=
  foldl (fun ips ep =>
    let host := hostOf ep in
    if String.eqb host "" then ips
    else match ParseIP host with
         | Some ip => if is4 ip then add_once ips (ip_text ip) else add_looked_up is4 ips host
         | None => add_looked_up is4 ips host
         end) [] endpoints.

Definition resolveExclusionsV6 (endpoints : list string) : list string :=
  foldl (fun ips ep =>
    let host := hostOf ep in
    if String.eqb host "" then ips
    else match ParseIP host with
         | Some ip => if negb (is4 ip) then add_once ips (ip_text ip) else ips
         | None => add_looked_up (fun ip => negb (is4 ip)) ips host
         end) [] endpoints.
End Resolver.

Definition isIPv6Literal (ip : string) : bool :=
  match ParseIP ip with Some parsed => negb (is4 parsed) | None => false end.

(** ** [splittunnel.go]: the bypass list *)

Inductive splitTunnelMode := modeExclude | modeInclude.
#[export] Instance splitTunnelMode_eq_dec : EqDecision splitTunnelMode.
Proof. solve_decision. Defined.
(** No letter of "include" has a fold outside ASCII. *)
Definition parseSplitTunnelMode (s : string) : splitTunnelMode :=
  if String.eqb (string_of (map lower_byte (bytes_of (TrimSpace s)))) "include" then modeInclude else modeExclude.

Inductive classifiedBypass := bypassBlank | bypassPrefix (prefix : Prefix) | bypassDomain (name : string) | bypassUnusable (problem : string).

(** [net.ParseCIDR]: the address part ends at the first slash, and leading zeros of the
    length are accepted. *)
Definition ParseCIDR (s : string) : option Prefix :=
  '(addr, mask) ← Cut "/" s;
  '(ip, zone) ← ParseAddr addr;
  if negb (String.eqb zone "") then None
  else n ← parse_digits mask; if BitLen ip <? n then None else Some (Masked (MkPrefix ip n)).
(** The network as IPv4 sees it ([To4] of its address, the last four bytes of its mask). *)
Definition prefix4 (p : Prefix) : option Prefix :=
  let a := Prefix_Addr p in
  if Is4 a then Some p
  else if Is4 (Unmap a) then Some (MkPrefix (Unmap a) (Bits p - 96)) else None.

Fixpoint label_bytes (label : bytes) (allNumeric : bool) : option bool :=
  match label with
  | [] => Some allNumeric
  | c :: label =>
      let z := octet c in
      if ((97 <=? z) && (z <=? 122)) || ((65 <=? z) && (z <=? 90)) then label_bytes label false
      else if (48 <=? z) && (z <=? 57) then label_bytes label allNumeric
      else if z =? 45 then label_bytes label false
      else None
  end.
Fixpoint labels_ok (labels : list string) (allNumeric : bool) : option bool :=
  match labels with
  | [] => Some allNumeric
  | label :: labels =>
      if String.eqb label "" || (63 <? String.length label)%nat then None
      else if HasPrefix "-" label || HasSuffix "-" label then None
      else n ← label_bytes (bytes_of label) allNumeric; labels_ok labels n
  end.
Definition isHostName (name : string) : bool :=
  if String.eqb name "" || (253 <? String.length name)%nat then false
  else match labels_ok (Split dot name) true with Some allNumeric => negb allNumeric | None => false end.

Definition quoteEntry (e : string) : string := String (byte_of 34) e +:+ String (byte_of 34) "".

Definition noIPv6 : string := "and Bacchus carries IPv4 only and turns IPv6 off while connected, so it is ignored".
Definition classifyBypassEntry (entry : string) : classifiedBypass :=
  let unusable why := bypassUnusable (quoteEntry (TrimSpace entry) +:+ " " +:+ why) in
  let e := TrimSpace entry in
  if String.eqb e "" then bypassBlank
  else match ParseCIDR e with
       | Some p => match prefix4 p with Some p => bypassPrefix p | None => unusable ("is an IPv6 network, " +:+ noIPv6) end
       | None =>
           match ParseIP e with
           | Some ip =>
               match To4 ip with
               | Some v4 => bypassPrefix (MkPrefix (MkAddr true (be_value v4)) 32)
               | None => unusable ("is an IPv6 address, " +:+ noIPv6)
               end
           | None =>
               if bool_decide ("/"%char ∈ bytes_of e) || bool_decide (byte_of 92 ∈ bytes_of e)
               then unusable "is not a network prefix Bacchus can read — write one like 192.0.2.0/24 — so it is ignored"
               else
                 let name := ToLower (TrimSuffix "." e) in
                 if isHostName name then bypassDomain name
                 else unusable "is not a host name, an address or a network prefix like 192.0.2.0/24, so it is ignored"
           end
       end.

Record bypassPolicy := MkPolicy {
  mode : splitTunnelMode; nets : list Prefix; domains : list string; problems : list string;
  dynamic : gset string; p_armed : bool;
}.
Definition with_dynamic (p : bypassPolicy) (d : gset string) : bypassPolicy :=
  MkPolicy (mode p) (nets p) (domains p) (problems p) d (p_armed p).
Definition with_p_armed (p : bypassPolicy) : bypassPolicy :=
  MkPolicy (mode p) (nets p) (domains p) (problems p) (dynamic p) true.

Definition newBypassPolicy (mode : string) (entries : list string) : bypassPolicy :=
  let cs := map classifyBypassEntry entries in
  MkPolicy (parseSplitTunnelMode mode)
    (omap (fun c => match c with bypassPrefix p => Some p | _ => None end) cs)
    (omap (fun c => match c with bypassDomain d => Some d | _ => None end) cs)
    (omap (fun c => match c with bypassUnusable m => Some m | _ => None end) cs) ∅ false.
Definition CheckBypass (entries : list string) : list string :=
  omap (fun e => match classifyBypassEntry e with bypassUnusable m => Some m | _ => None end) entries.

(** [inSet] and [direct]: whether a destination leaves beside the tunnel. *)
Definition inSet (p : bypassPolicy) (ip : IP) : bool :=
  match To4 ip with
  | None => false
  | Some v4 =>
      bool_decide (ip_text v4 ∈ dynamic p)
      || existsb (fun n => Contains n (MkAddr true (be_value v4))) (nets p)
  end.
Definition direct (p : bypassPolicy) (ip : IP) : bool :=
  if negb (is4 ip) then false
  else if decide (mode p = modeInclude) then negb (inSet p ip) else inSet p ip.

Definition prefix_text (p : Prefix) : string :=
  string_of (string4 (be_bytes 4 (val (Prefix_Addr p)))) +:+ "/" +:+ Itoa (Bits p).
Definition staticEntries (p : bypassPolicy) : list string := map prefix_text (nets p).
Definition dynamicSnapshot (p : bypassPolicy) : list string := elements (dynamic p).

Lemma elem_of_learned p ip : ip ∈ dynamicSnapshot p <-> ip ∈ dynamic p.
Proof. unfold dynamicSnapshot. apply elem_of_elements. Qed.

(** [learn]: a new address is recorded, and handed on with whether the kill switch was
    armed at that moment. *)
Definition learn (p : bypassPolicy) (ip : IP) : bypassPolicy * option (string * bool) :=
  match To4 ip with
  | None => (p, None)
  | Some v4 =>
      let key := ip_text v4 in
      if bool_decide (key ∈ dynamic p) then (p, None)
      else (with_dynamic p ({[key]} ∪ dynamic p), Some (key, p_armed p))
  end.
Definition seed (p : bypassPolicy) (ip : IP) : bypassPolicy :=
  match To4 ip with None => p | Some v4 => with_dynamic p ({[ip_text v4]} ∪ dynamic p) end.
(** [arm]: [install] runs under the lock, so no address is learned while it does. *)
Definition arm {S E} (p : bypassPolicy) (install : list string -> S -> result E unit * S) (s : S) : result E bypassPolicy * S :=
  let '(r, s) := install (dynamicSnapshot p) s in
  (match r with Ok _ => Ok (with_p_armed p) | Err e => Err e end, s).

Definition resolveDomains (LookupHost : string -> option (list string)) (ds : list string) : list IP * list string :=
  foldl (fun acc d =>
    let ips := match LookupHost d with
               | Some addrs => omap (fun a => ip ← ParseIP a; if is4 ip then Some ip else None) addrs
               | None => []
               end in
    (acc.1 ++ ips, match ips with [] => acc.2 ++ [d] | _ => acc.2 end)) ([], []) ds.

(** ** DNS observation *)

(** What [dnsmessage] makes of a message: the name of its first question, and the answers
    up to the first it cannot read. *)
Inductive Answer := AnswerA (a : bytes) | AnswerOther | AnswerBad.
Class DNSMessage := { question : bytes -> option string; answers : bytes -> option (list Answer) }.

Section DNS.
Context `{DNSMessage}.

Definition dnsQuestionName (query : bytes) : string :=
  match question query with Some name => TrimSuffix "." name | None => "" end.
Fixpoint answer_ips (l : list Answer) : list IP :=
  match l with
  | AnswerA a :: l => a :: answer_ips l
  | AnswerOther :: l => answer_ips l
  | AnswerBad :: _ | [] => []
  end.
Definition dnsAnswerIPs (resp : bytes) : list IP :=
  match answers resp with Some l => answer_ips l | None => [] end.

Definition matchDomain (p : bypassPolicy) (name : string) : bool :=
  let name := ToLower (TrimSuffix "." name) in
  existsb (fun d => String.eqb name d || HasSuffix ("." +:+ d) name) (domains p).

(** [observeDNS]: the new policy and the addresses handed on, in order. *)
Definition learn_all (p : bypassPolicy) (ips : list IP) : bypassPolicy * list (string * bool) :=
  foldl (fun acc ip => let '(p, l) := learn acc.1 ip in (p, acc.2 ++ option_list l)) (p, []) ips.
Definition observeDNS (p : bypassPolicy) (query resp : bytes) : bypassPolicy * list (string * bool) :=
  match domains p with
  | [] => (p, [])
  | _ =>
      let name := dnsQuestionName query in
      if String.eqb name "" || negb (matchDomain p name) then (p, []) else learn_all p (dnsAnswerIPs resp)
  end.
End DNS.

(** ** [poolroutes.go]: addresses dialed while the tunnel is up *)

Record gatewayInfo := MkGateway { nextHop : string; ifIndex : Z; ifAlias : string; nextHopV6 : string }.
Record poolExcluder := MkExcluder {
  x_gw : gatewayInfo; routesLive : bool; x_armed : bool; closed : bool; seen : gset string; gwRefreshing : bool;
}.
Definition newPoolExcluder : poolExcluder := MkExcluder (MkGateway "" 0 "" "") false false false ∅ false.
Definition with_gw (p : poolExcluder) (g : gatewayInfo) (refreshing : bool) : poolExcluder :=
  MkExcluder g (routesLive p) (x_armed p) (closed p) (seen p) refreshing.
Definition with_seen (p : poolExcluder) (s : gset string) : poolExcluder :=
  MkExcluder (x_gw p) (routesLive p) (x_armed p) (closed p) s (gwRefreshing p).

(** [goLive] sets its flags before it installs what is reserved; [disable]; the flag
    [armAllowlist] sets once the allowlist is in force; [reserved]. *)
Definition live (p : poolExcluder) (g : gatewayInfo) : poolExcluder :=
  MkExcluder g true (x_armed p) (closed p) (seen p) (gwRefreshing p).
Definition disable (p : poolExcluder) : poolExcluder :=
  MkExcluder (x_gw p) (routesLive p) (x_armed p) true (seen p) (gwRefreshing p).
Definition armed_excluder (p : poolExcluder) : poolExcluder :=
  MkExcluder (x_gw p) (routesLive p) true (closed p) (seen p) (gwRefreshing p).
Definition reserved (p : poolExcluder) : list string := elements (seen p).
Definition armAllowlist {S E} (p : poolExcluder) (install : list string -> S -> result E unit * S) (s : S) : result E poolExcluder * S :=
  let '(r, s) := install (reserved p) s in
  (match r with Ok _ => Ok (armed_excluder p) | Err e => Err e end, s).

(** [reserve]'s first locked section: what it records, and what is left to install with
    the gateway and the flag it read. *)
Definition fresh_ips (old : gset string) (ips : list string) : list string :=
  foldl (fun acc ip => if bool_decide (ip ∈ old) then acc else add_once acc ip) [] ips.
Definition reserve_record (p : poolExcluder) (ips : list string) : poolExcluder * option (gatewayInfo * bool * list string) :=
  let fresh := fresh_ips (seen p) ips in
  let toInstall := if routesLive p then fresh else [] in
  (with_seen p (list_to_set fresh ∪ seen p),
   if closed p || bool_decide (toInstall = []) then None else Some (x_gw p, x_armed p, toInstall)).

(** The rest of [reserve], between whose locked sections and system calls others run: it
    asks for a fresh gateway; for each address it installs the route, looks whether the
    tunnel is being torn down, and then takes the route back or refreshes the allowlist. *)
Inductive thread :=
| Refreshing (g : gatewayInfo) (armed : bool) (ips : list string)
| Installing (g : gatewayInfo) (armed : bool) (ips : list string)
| Installed (g : gatewayInfo) (armed : bool) (ip : string) (ips : list string)
| Reaping (g : gatewayInfo) (armed : bool) (ip : string) (ips : list string)
| Allowing (g : gatewayInfo) (armed : bool) (ip : string) (ips : list string).

(** The machine as far as it concerns the excluder: the routes it put in, and the kill
    switch's allowlist. [missed] are the addresses for which a call failed. *)
Inductive phase := BringUp | Up | Closing | Down.
Record xstate := MkX {
  x : poolExcluder; x_routes : gset string; x_allow : option (gset string); missed : gset string;
  threads : list thread; main : phase;
}.
Definition set_x (s : xstate) (p : poolExcluder) : xstate := MkX p (x_routes s) (x_allow s) (missed s) (threads s) (main s).
Definition set_main (s : xstate) (m : phase) : xstate := MkX (x s) (x_routes s) (x_allow s) (missed s) (threads s) m.
Definition set_threads (s : xstate) (ts : list thread) : xstate := MkX (x s) (x_routes s) (x_allow s) (missed s) ts (main s).
(** A call for one address: it works, or the address is missed. *)
Definition add_route (s : xstate) (ip : string) (ok : bool) : xstate :=
  if ok then MkX (x s) ({[ip]} ∪ x_routes s) (x_allow s) (missed s) (threads s) (main s)
  else MkX (x s) (x_routes s) (x_allow s) ({[ip]} ∪ missed s) (threads s) (main s).
Definition allow_ip (s : xstate) (ip : string) (ok : bool) : xstate :=
  if ok then MkX (x s) (x_routes s) (({[ip]} ∪.) <$> x_allow s) (missed s) (threads s) (main s)
  else MkX (x s) (x_routes s) (x_allow s) ({[ip]} ∪ missed s) (threads s) (main s).
(** The removal of routes: of some it may fail, without a word. *)
Definition remove_routes (s : xstate) (ips : gset string) (ok : string -> bool) : xstate :=
  MkX (x s) (x_routes s ∖ filter (fun ip => ok ip = true) ips) (x_allow s)
    (filter (fun ip => ok ip = false) ips ∪ missed s) (threads s) (main s).

(** One step of a thread: what it becomes, if it has not returned. *)
Definition thread_step (t : thread) (ok : bool) (s : xstate) : option thread * xstate :=
  match t with
  | Refreshing g a ips => (Some (Installing g a ips), set_x s (with_gw (x s) (x_gw (x s)) true))
  | Installing g a [] => (None, s)
  | Installing g a (ip :: ips) => (Some (Installed g a ip ips), add_route s ip ok)
  | Installed g a ip ips => (Some (if closed (x s) then Reaping g a ip ips else if a then Allowing g a ip ips else Installing g a ips), s)
  | Reaping g a ip ips => (Some (Installing g a ips), remove_routes s {[ip]} (fun _ => ok))
  | Allowing g a ip ips => (Some (Installing g a ips), allow_ip s ip ok)
  end.

(** The steps: a call of [reserve]; a thread's; the answer of [gatewayFn]; and the
    tunnel's own: [goLive], arming, lifting the kill switch, [disable], and the removal of
    what is reserved. *)
Definition go_live (s : xstate) (g : gatewayInfo) (ok : string -> bool) : xstate :=
  foldl (fun s ip => add_route s ip (ok ip)) (set_x s (live (x s) g)) (reserved (x s)).
Definition arm_allowlist (s : xstate) (others : gset string) : xstate :=
  MkX (armed_excluder (x s)) (x_routes s) (Some (others ∪ list_to_set (reserved (x s)))) (missed s) (threads s) (main s).
Definition lift (s : xstate) : xstate := MkX (x s) (x_routes s) None (missed s) (threads s) (main s).

Inductive xstep : xstate -> xstate -> Prop :=
| step_reserve s ips p t : reserve_record (x s) ips = (p, t) ->
    xstep s (set_threads (set_x s p) (threads s ++ option_list ((fun '(g, a, l) => Refreshing g a l) <$> t)))
| step_thread s l1 t l2 ok t' s' : threads s = l1 ++ t :: l2 -> thread_step t ok s = (t', s') ->
    xstep s (set_threads s' (l1 ++ option_list t' ++ l2))
| step_refreshed s fresh : gwRefreshing (x s) = true ->
    xstep s (set_x s (with_gw (x s) (default (x_gw (x s)) fresh) false))
| step_goLive s g ok : main s = BringUp -> xstep s (set_main (go_live s g ok) Up)
| step_arm s others : main s = Up -> xstep s (arm_allowlist s others)
| step_lift s : main s = Up -> xstep s (lift s)
| step_disable s : main s = BringUp \/ main s = Up -> xstep s (set_main (set_x s (disable (x s))) Closing)
| step_remove s ok : main s = Closing -> xstep s (set_main (remove_routes s (list_to_set (reserved (x s))) ok) Down).
Definition x_init : xstate := MkX newPoolExcluder ∅ None ∅ [] BringUp.

(** ** The excluder misses no address and leaves no route *)

(** Addresses whose route a thread will still install; whose allowlist entry it will still
    refresh; whose route it will still take back once it sees the excluder closed. *)
Definition will_route (t : thread) (ip : string) : Prop :=
  match t with
  | Refreshing _ _ ips | Installing _ _ ips | Installed _ _ _ ips | Reaping _ _ _ ips | Allowing _ _ _ ips => ip ∈ ips
  end.
Definition will_allow (t : thread) (ip : string) : Prop :=
  match t with
  | Refreshing _ a ips | Installing _ a ips => a = true /\ ip ∈ ips
  | Installed _ a i ips | Allowing _ a i ips => a = true /\ (ip = i \/ ip ∈ ips)
  | Reaping _ a _ ips => a = true /\ ip ∈ ips
  end.
Definition will_reap (t : thread) (ip : string) : Prop :=
  match t with Installed _ _ i _ | Reaping _ _ i _ => ip = i | _ => False end.
Definition reaping (t : thread) : Prop := match t with Reaping _ _ _ _ => True | _ => False end.
Definition some_thread (P : thread -> string -> Prop) (s : xstate) (ip : string) : Prop := exists t, t ∈ threads s /\ P t ip.

Record x_inv (s : xstate) : Prop := {
  inv_phase : match main s with
              | BringUp => routesLive (x s) = false /\ closed (x s) = false /\ threads s = [] /\ x_routes s = ∅ /\ x_allow s = None
              | Up => routesLive (x s) = true /\ closed (x s) = false
              | Closing | Down => closed (x s) = true
              end;
  inv_armed : is_Some (x_allow s) -> x_armed (x s) = true;
  inv_reaping : forall t, t ∈ threads s -> reaping t -> closed (x s) = true;
  inv_seen : forall ip, ip ∈ x_routes s \/ some_thread will_route s ip \/ some_thread will_reap s ip -> ip ∈ seen (x s);
  inv_route : main s = Up -> forall ip, ip ∈ seen (x s) -> ip ∈ x_routes s \/ ip ∈ missed s \/ some_thread will_route s ip;
  inv_allow : main s = Up -> forall A, x_allow s = Some A ->
    forall ip, ip ∈ seen (x s) -> ip ∈ A \/ ip ∈ missed s \/ some_thread will_allow s ip;
  inv_reap : main s = Down -> forall ip, ip ∈ x_routes s -> ip ∈ missed s \/ some_thread will_reap s ip;
}.

Lemma elem_fresh old ips ip : ip ∈ fresh_ips old ips -> ip ∈ ips.
Proof.
  unfold fresh_ips. assert (forall acc, ip ∈ foldl (fun acc ip => if bool_decide (ip ∈ old) then acc else add_once acc ip) acc ips -> ip ∈ acc \/ ip ∈ ips) as Hf.
  { induction ips as [|i ips IH]; intros acc Hi; cbn in Hi; [by left|]. apply IH in Hi as [Hi|Hi]; [|by right; right].
    unfold add_once in Hi. repeat case_bool_decide; auto. apply elem_of_app in Hi as [?|?%list_elem_of_singleton]; [auto|subst; right; left]. }
  intros Hi. apply Hf in Hi as [Hi|]; [by inversion Hi|done].
Qed.

Lemma x_inv_init : x_inv x_init.
Proof.
  split; cbn; try done.
  - intros t Ht. inversion Ht.
  - intros ip [Hi|[(t & Ht & _)|(t & Ht & _)]]; [set_solver|inversion Ht..].
Qed.

Lemma some_thread_app P s ts ip : some_thread P (set_threads s ts) ip <-> exists t, t ∈ ts /\ P t ip.
Proof. done. Qed.

Lemma go_live_spec l s ok :
  let s' := foldl (fun s ip => add_route s ip (ok ip)) s l in
  x s' = x s /\ x_allow s' = x_allow s /\ threads s' = threads s /\
  (forall ip, ip ∈ x_routes s' -> ip ∈ x_routes s \/ ip ∈ l) /\
  (forall ip, ip ∈ l \/ ip ∈ x_routes s \/ ip ∈ missed s -> ip ∈ x_routes s' \/ ip ∈ missed s').
Proof.
  revert s. induction l as [|i l IH]; intros s; cbn [foldl]; [split_and!; auto; intros ip [Hi|?]; [inversion Hi|done]|].
  destruct (IH (add_route s i (ok i))) as (H1 & H2 & H3 & H5 & H6). cbn zeta.
  assert (x (add_route s i (ok i)) = x s /\ x_allow (add_route s i (ok i)) = x_allow s /\ threads (add_route s i (ok i)) = threads s /\
    (forall ip, ip ∈ x_routes (add_route s i (ok i)) -> ip ∈ x_routes s \/ ip = i) /\
    (forall ip, ip = i \/ ip ∈ x_routes s \/ ip ∈ missed s -> ip ∈ x_routes (add_route s i (ok i)) \/ ip ∈ missed (add_route s i (ok i)))) as (G1 & G2 & G3 & G4 & G5)
    by (destruct (ok i); cbn; split_and!; try done; set_solver).
  rewrite H1, H2, H3, G1, G2, G3. split_and!; try done.
  - intros ip [Hi|Hi]%H5; [apply G4 in Hi as [Hi|Hi]|]; rewrite elem_of_cons; auto.
  - intros ip [[Hi|Hi]%elem_of_cons|Hi]; apply H6; [destruct (G5 ip (or_introl Hi))|..|destruct (G5 ip (or_intror Hi))]; auto.
Qed.

(** What a thread's step changes. *)
Lemma thread_step_frame t ok s t' s' : thread_step t ok s = (t', s') ->
  threads s' = threads s /\ main s' = main s /\ seen (x s') = seen (x s) /\ routesLive (x s') = routesLive (x s) /\
  closed (x s') = closed (x s) /\ x_armed (x s') = x_armed (x s) /\ (is_Some (x_allow s') <-> is_Some (x_allow s)).
Proof.
  destruct t as [g a ips|g a [|ip ips]|g a ip ips|g a ip ips|g a ip ips]; cbn; intros [= <- <-]; try (by split_and!).
  - by destruct ok.
  - destruct ok; cbn; split_and!; try done. by rewrite fmap_is_Some.
Qed.
Lemma thread_step_reaping t ok s t' s' u : thread_step t ok s = (t', s') -> t' = Some u -> reaping u -> closed (x s') = true.
Proof.
  destruct t as [g a ips|g a [|ip ips]|g a ip ips|g a ip ips|g a ip ips]; cbn; intros [= <- <-]; try done; intros [= <-]; cbn; try done.
  destruct (closed (x s)); [done|by destruct a].
Qed.
(** What was waited for is waited for still, or has happened. *)
Lemma thread_step_route t ok s t' s' ip : thread_step t ok s = (t', s') -> closed (x s) = false -> ~ reaping t ->
  will_route t ip \/ ip ∈ x_routes s \/ ip ∈ missed s ->
  (exists u, t' = Some u /\ will_route u ip) \/ ip ∈ x_routes s' \/ ip ∈ missed s'.
Proof.
  intros Hs Hc Hr Hw. destruct t as [g a ips|g a [|i ips]|g a i ips|g a i ips|g a i ips]; cbn in Hs; simplify_eq; cbn in *.
  - destruct Hw as [?|?]; eauto.
  - destruct Hw as [Hw|?]; [inversion Hw|eauto].
  - destruct Hw as [[->|Hw]%elem_of_cons|Hw]; [destruct ok; cbn; set_solver|eauto|destruct ok; cbn; set_solver].
  - rewrite Hc. destruct Hw as [Hw|?]; [left; destruct a; eauto|eauto].
  - done.
  - destruct Hw as [?|?]; [eauto|destruct ok; cbn; set_solver].
Qed.
Local Ltac next_thread := left; eexists; split; [done|cbn; auto].
Lemma thread_step_allow t ok s t' s' A' ip : thread_step t ok s = (t', s') -> closed (x s) = false -> ~ reaping t ->
  x_allow s' = Some A' ->
  exists A, x_allow s = Some A /\
    (will_allow t ip \/ ip ∈ A \/ ip ∈ missed s -> (exists u, t' = Some u /\ will_allow u ip) \/ ip ∈ A' \/ ip ∈ missed s').
Proof.
  intros Hs Hc Hr HA. destruct t as [g a ips|g a [|i ips]|g a i ips|g a i ips|g a i ips]; cbn in Hs; simplify_eq; cbn in *.
  - exists A'. split; [done|]. intros [[-> ?]|?]; [next_thread|eauto].
  - exists A'. split; [done|]. intros [[_ Hw]|?]; [inversion Hw|eauto].
  - exists A'. split; [by destruct ok|]. intros [[-> Hw%elem_of_cons]|[?|?]]; [next_thread|destruct ok; cbn; set_solver..].
  - exists A'. split; [done|]. rewrite Hc. intros [[-> Hw]|?]; [next_thread|eauto].
  - done.
  - destruct ok; cbn in *.
    + apply fmap_Some in HA as (A & HA & ->). exists A. split; [done|]. intros [[-> [->|Hw]]|[?|?]]; [set_solver|next_thread|set_solver..].
    + exists A'. split; [done|]. intros [[-> [->|Hw]]|[?|?]]; [set_solver|next_thread|set_solver..].
Qed.
Lemma thread_step_will t ok s t' s' u ip : thread_step t ok s = (t', s') -> t' = Some u -> will_route u ip \/ will_reap u ip ->
  will_route t ip \/ will_reap t ip.
Proof.
  destruct t as [g a ips|g a [|i ips]|g a i ips|g a i ips|g a i ips]; cbn; intros [= <- <-]; try done; intros [= <-]; cbn; try tauto.
  - intros [?|?]; left; set_solver.
  - destruct (closed (x s)); [|destruct a]; cbn; tauto.
Qed.
Lemma thread_step_routes t ok s t' s' ip : thread_step t ok s = (t', s') -> ip ∈ x_routes s' -> ip ∈ x_routes s \/ exists u, t' = Some u /\ will_reap u ip.
Proof.
  destruct t as [g a ips|g a [|i ips]|g a i ips|g a i ips|g a i ips]; cbn; intros [= <- <-]; cbn; auto.
  - destruct ok; cbn; [|auto]. rewrite elem_of_union, elem_of_singleton. intros [->|?]; [by right; eexists|auto].
  - set_solver.
  - destruct ok; cbn; auto.
Qed.
Lemma thread_step_reap t ok s t' s' ip : thread_step t ok s = (t', s') -> closed (x s) = true ->
  will_reap t ip -> (exists u, t' = Some u /\ will_reap u ip) \/ ip ∉ x_routes s' \/ ip ∈ missed s'.
Proof.
  destruct t as [g a ips|g a [|i ips]|g a i ips|g a i ips|g a i ips]; cbn; intros [= <- <-] Hc; try done.
  - rewrite Hc. intros ->. left. by eexists.
  - intros ->. right. cbn. destruct ok; [left|right]; rewrite ?elem_of_difference, ?elem_of_union, !elem_of_filter, ?elem_of_singleton; tauto.
Qed.
Lemma thread_step_missed t ok s t' s' : thread_step t ok s = (t', s') -> missed s ⊆ missed s'.
Proof. destruct t as [g a ips|g a [|i ips]|g a i ips|g a i ips|g a i ips]; cbn; intros [= _ <-]; try destruct ok; cbn; set_solver. Qed.

Lemma some_thread_more P s s' ip : (forall t, t ∈ threads s -> t ∈ threads s') -> some_thread P s ip -> some_thread P s' ip.
Proof. intros Hm (t & Ht & HP). exists t. auto. Qed.
Lemma some_thread_other P s s' l1 t t' l2 ip : threads s = l1 ++ t :: l2 -> threads s' = l1 ++ option_list t' ++ l2 ->
  some_thread P s ip -> P t ip \/ some_thread P s' ip.
Proof.
  intros Hs Hs' (u & Hu & HP). rewrite Hs, elem_of_app, elem_of_cons in Hu. destruct Hu as [Hu|[->|Hu]]; [|by left|].
  all: right; exists u; rewrite Hs', !elem_of_app; auto.
Qed.
Lemma some_thread_next P s' l1 t' l2 ip : threads s' = l1 ++ option_list t' ++ l2 ->
  (exists u, t' = Some u /\ P u ip) -> some_thread P s' ip.
Proof. intros Hs' (u & -> & HP). exists u. rewrite Hs', !elem_of_app. cbn. split; [right; left; by left|done]. Qed.

Lemma x_inv_reserve s ips p t : x_inv s -> reserve_record (x s) ips = (p, t) ->
  x_inv (set_threads (set_x s p) (threads s ++ option_list ((fun '(g, a, l) => Refreshing g a l) <$> t))).
Proof.
  intros [Hp Ha Hg Hs Hr Hal Hd] Hrec. unfold reserve_record in Hrec. set (fresh := fresh_ips (seen (x s)) ips) in *. injection Hrec as <- <-.
  set (ts := _ ++ option_list _). assert (forall u, u ∈ threads s -> u ∈ ts) as Hmore by (intros u Hu; apply elem_of_app; by left).
  assert (forall u, u ∈ ts -> u ∈ threads s \/ (closed (x s) = false /\ routesLive (x s) = true /\ u = Refreshing (x_gw (x s)) (x_armed (x s)) fresh)) as Hnew.
  { intros u [Hu|Hu]%elem_of_app; [by left|]. right. destruct (closed (x s)); [inversion Hu|]. destruct (routesLive (x s)); [|inversion Hu].
    case_bool_decide; [inversion Hu|]. by apply list_elem_of_singleton in Hu as ->. }
  assert (main s = Up -> forall ip, ip ∈ fresh -> Refreshing (x_gw (x s)) (x_armed (x s)) fresh ∈ ts) as Hin.
  { intros Hm ip Hi. rewrite Hm in Hp. destruct Hp as [Hl Hc]. unfold ts. rewrite Hl, Hc. rewrite bool_decide_false by (by intros Hf; rewrite Hf in Hi; inversion Hi).
    apply elem_of_app. right. by left. }
  split; cbn.
  - destruct (main s); try done. destruct Hp as (Hl & Hc & Ht & Hrs & Hall). split_and!; try done. unfold ts.
    rewrite Ht, Hl, bool_decide_true by done. by rewrite orb_true_r.
  - done.
  - intros u Hu Hru. apply Hnew in Hu as [Hu|(_ & _ & ->)]; [by eapply Hg|done].
  - intros ip [Hi|[(u & Hu & Hw)|(u & Hu & Hw)]]; apply elem_of_union.
    + right. auto.
    + apply Hnew in Hu as [Hu|(_ & _ & ->)]; [right; apply Hs; right; left; by exists u|left]. by apply elem_of_list_to_set.
    + apply Hnew in Hu as [Hu|(_ & _ & ->)]; [right; apply Hs; right; right; by exists u|done].
  - intros Hm ip [Hi%elem_of_list_to_set|Hi]%elem_of_union.
    + right. right. eexists. split; [by eapply Hin|done].
    + destruct (Hr Hm ip Hi) as [?|[?|?]]; auto. right. right. by eapply some_thread_more.
  - intros Hm A HA ip [Hi%elem_of_list_to_set|Hi]%elem_of_union.
    + right. right. eexists. split; [by eapply Hin|]. cbn. rewrite Ha; [done|by eexists].
    + destruct (Hal Hm A HA ip Hi) as [?|[?|?]]; auto. right. right. by eapply some_thread_more.
  - intros Hm ip Hi. destruct (Hd Hm ip Hi) as [?|?]; [by left|]. right. eapply some_thread_more; [exact Hmore|done].
Qed.

Lemma x_inv_thread s l1 t l2 ok t' s' : x_inv s -> threads s = l1 ++ t :: l2 -> thread_step t ok s = (t', s') ->
  x_inv (set_threads s' (l1 ++ option_list t' ++ l2)).
Proof.
  intros [Hp Ha Hg Hs Hr Hal Hd] Hts Hth. destruct (thread_step_frame _ _ _ _ _ Hth) as (F1 & F2 & F3 & F4 & F5 & F6 & F7).
  assert (t ∈ threads s) as Hin by (rewrite Hts; apply elem_of_app; right; by left).
  set (s1 := set_threads s' _). assert (threads s1 = l1 ++ option_list t' ++ l2) as Hts1 by done.
  assert (forall P ip, some_thread P s1 ip -> some_thread P s ip \/ exists u, t' = Some u /\ P u ip) as Hold.
  { intros P ip (u & Hu & HP). rewrite Hts1, !elem_of_app in Hu. destruct Hu as [Hu|[Hu|Hu]].
    - left. exists u. rewrite Hts, elem_of_app. auto.
    - right. exists u. destruct t' as [u'|]; [|inversion Hu]. by apply list_elem_of_singleton in Hu as ->.
    - left. exists u. rewrite Hts, elem_of_app, elem_of_cons. auto. }
  assert (main s = Up -> closed (x s) = false /\ ~ reaping t) as Hup.
  { intros Hm. rewrite Hm in Hp. destruct Hp as [_ Hc]. split; [done|]. intros Hre. specialize (Hg t Hin Hre). congruence. }
  split; cbn [s1 set_threads x main x_allow x_routes missed threads]; rewrite ?F2, ?F3, ?F4, ?F5, ?F6.
  - destruct (main s); try done. destruct Hp as (_ & _ & Ht & _). rewrite Ht in Hin. inversion Hin.
  - intros H7. apply Ha. by apply F7.
  - intros u Hu Hru. rewrite <-F5. destruct (Hold (fun u _ => reaping u) "" ) as [(v & Hv & Hrv)|(v & Hv & Hrv)]; [by exists u| |].
    + rewrite F5. by eapply Hg.
    + by eapply thread_step_reaping.
  - intros ip Hi. assert (will_route t ip \/ will_reap t ip -> ip ∈ seen (x s)) as Ht by (intros [?|?]; apply Hs; right; [left|right]; by exists t).
    destruct Hi as [Hi|[Hi|Hi]].
    + destruct (thread_step_routes _ _ _ _ _ _ Hth Hi) as [?|(u & Hu & Hw)]; [auto|]. apply Ht. eapply thread_step_will; eauto.
    + apply Hold in Hi as [?|(u & Hu & Hw)]; [auto|]. apply Ht. eapply thread_step_will; eauto.
    + apply Hold in Hi as [?|(u & Hu & Hw)]; [auto|]. apply Ht. eapply thread_step_will; eauto.
  - intros Hm ip Hi. destruct (Hup Hm) as [Hc Hnr].
    assert (some_thread will_route s1 ip \/ will_route t ip \/ ip ∈ x_routes s \/ ip ∈ missed s) as [?|Hw].
    { destruct (Hr Hm ip Hi) as [?|[?|Ht]]; auto. destruct (some_thread_other _ s s1 l1 t t' l2 ip Hts Hts1 Ht); auto. }
    + auto.
    + destruct (thread_step_route _ _ _ _ _ ip Hth Hc Hnr Hw) as [?|[?|?]]; auto. right. right. by eapply some_thread_next.
  - intros Hm A' HA' ip Hi. destruct (Hup Hm) as [Hc Hnr].
    destruct (thread_step_allow _ _ _ _ _ A' ip Hth Hc Hnr HA') as (A & HA & Hw).
    assert (some_thread will_allow s1 ip \/ will_allow t ip \/ ip ∈ A \/ ip ∈ missed s) as [?|Hw'].
    { destruct (Hal Hm A HA ip Hi) as [?|[?|Ht]]; auto. destruct (some_thread_other _ s s1 l1 t t' l2 ip Hts Hts1 Ht); auto. }
    + auto.
    + destruct (Hw Hw') as [?|[?|?]]; auto. right. right. by eapply some_thread_next.
  - intros Hm ip Hi. assert (closed (x s) = true) as Hc by (by rewrite Hm in Hp).
    assert ((exists u, t' = Some u /\ will_reap u ip) \/ some_thread will_reap s1 ip \/ will_reap t ip \/ ip ∈ missed s') as [?|[?|[Ht|?]]].
    { destruct (thread_step_routes _ _ _ _ _ _ Hth Hi) as [Hi'|?]; [|auto].
      destruct (Hd Hm ip Hi') as [?|Hd']; [do 3 right; by eapply thread_step_missed|].
      destruct (some_thread_other _ s s1 l1 t t' l2 ip Hts Hts1 Hd'); auto. }
    + right. by eapply some_thread_next.
    + by right.
    + destruct (thread_step_reap _ _ _ _ _ _ Hth Hc Ht) as [?|[?|?]]; [right; by eapply some_thread_next|done|by left].
    + by left.
Qed.

Lemma elem_of_reserved p ip : ip ∈ reserved p <-> ip ∈ seen p.
Proof. unfold reserved. apply elem_of_elements. Qed.

Lemma x_inv_step s s' : x_inv s -> xstep s s' -> x_inv s'.
Proof.
  intros Hi Hst. destruct Hst as [s ips p t Hrec|s l1 t l2 ok t' s' Hts Hth|s fresh Hf|s g ok Hm|s others Hm|s Hm|s Hm|s ok Hm].
  1: by eapply x_inv_reserve. 1: by eapply x_inv_thread.
  all: destruct Hi as [Hp Ha Hg Hs Hr Hal Hd].
  - by split.
  - rewrite Hm in Hp. destruct Hp as (Hl & Hc & Ht & Hrs & Hall). unfold go_live.
    destruct (go_live_spec (reserved (x s)) (set_x s (live (x s) g)) ok) as (G1 & G2 & G3 & G5 & G6).
    split; cbn; rewrite ?G1, ?G2, ?G3; cbn; try done.
    + intros ip [Hi|[(u & Hu & _)|(u & Hu & _)]]; [|cbn in Hu; rewrite G3 in Hu; cbn in Hu; rewrite Ht in Hu; inversion Hu..].
      destruct (G5 ip Hi) as [Hx|Hx]; [cbn in Hx; rewrite Hrs in Hx; set_solver|]. by apply elem_of_reserved in Hx.
    + intros _ ip Hi. destruct (G6 ip) as [?|?]; auto. left. by apply elem_of_reserved.
    + intros _ A HA. congruence.
  - rewrite Hm in Hp. destruct Hp as (Hl & Hc). split; cbn; rewrite ?Hm; cbn; try done.
    { intros _. exact (Hr Hm). }
    intros _ A [= <-] ip Hi. left. apply elem_of_union. right. apply elem_of_list_to_set. by apply elem_of_reserved.
  - rewrite Hm in Hp. split; cbn; rewrite ?Hm; cbn; try done.
    intros _. exact (Hr Hm).
  - split; cbn; try done.
  - rewrite Hm in Hp. split; cbn; try done.
    + intros ip [Hi|Hi]; apply Hs; [left; set_solver|auto].
    + intros _ ip [Hi Hno]%elem_of_difference. left. apply elem_of_union_l. assert (ip ∈ seen (x s)) by (apply Hs; by left).
      rewrite elem_of_filter, elem_of_list_to_set, elem_of_reserved in Hno |- *. destruct (ok ip); tauto.
Qed.

Lemma x_inv_reach s : rtc xstep x_init s -> x_inv s.
Proof.
  assert (forall s0, x_inv s0 -> rtc xstep s0 s -> x_inv s) as Hall.
  { intros s0 H0 Hr. induction Hr as [|s1 s2 s3 H12 _ IH]; [done|]. by eapply IH, x_inv_step. }
  apply Hall, x_inv_init.
Qed.

(** C10: The underlay's addresses, however the calls of [reserve], the gateway refreshes and
    the tunnel's own steps interleave. While the tunnel is up and no call of [reserve] is
    under way, every address ever reserved has its route beside the tunnel and, with the
    kill switch armed, its entry in the allowlist, unless a call for it failed. Once the
    tunnel is down and the calls under way have returned, no route of the excluder is
    left, but of an address for which a call failed. *)
Theorem underlay_is_excluded s : rtc xstep x_init s -> threads s = [] ->
  (main s = Up -> forall ip, ip ∈ seen (x s) -> ip ∉ missed s ->
     ip ∈ x_routes s /\ forall A, x_allow s = Some A -> ip ∈ A) /\
  (main s = Down -> x_routes s ⊆ missed s).
Proof.
  intros Hreach Hq. destruct (x_inv_reach s Hreach) as [Hp Ha Hg Hs Hr Hal Hd].
  assert (forall P ip, ~ some_thread P s ip) as Hno by (intros P ip (t & Ht & _); rewrite Hq in Ht; inversion Ht).
  split.
  - intros Hm ip Hi Hmi. split; [|intros A HA; destruct (Hal Hm A HA ip Hi) as [?|[?|?]]; try done; by edestruct Hno].
    destruct (Hr Hm ip Hi) as [?|[?|?]]; try done. by edestruct Hno.
  - intros Hm ip Hi. destruct (Hd Hm ip Hi) as [?|?]; [done|by edestruct Hno].
Qed.

(** A call of [reserve] ends: each step of its thread is one nearer. *)
Definition steps_left (t : thread) : nat :=
  match t with
  | Refreshing _ _ ips => 2 + 3 * List.length ips
  | Installing _ _ ips => 1 + 3 * List.length ips
  | Installed _ _ _ ips => 3 + 3 * List.length ips
  | Reaping _ _ _ ips | Allowing _ _ _ ips => 2 + 3 * List.length ips
  end.
Lemma thread_step_left t ok s t' s' : thread_step t ok s = (Some t', s') -> (steps_left t' < steps_left t)%nat.
Proof. destruct t as [g a ips|g a [|ip ips]|g a ip ips|g a ip ips|g a ip ips]; cbn; intros [= <- <-]; cbn; try lia. destruct (closed _), a; cbn; lia. Qed.

Module Demo.
Definition gw : gatewayInfo := MkGateway "192.168.0.1" 2 "eth0" "".
(** An address reserved before the tunnel is up; one reserved while it is, and its thread
    run to its end; the kill switch armed in between. *)
Definition s1 : xstate := set_x x_init (reserve_record newPoolExcluder ["1.2.3.4"]).1.
Definition s2 : xstate := set_main (go_live s1 gw (fun _ => true)) Up.
Definition s3 : xstate := arm_allowlist s2 ∅.
Definition s4 : xstate := set_threads (set_x s3 (reserve_record (x s3) ["5.6.7.8"]).1) [Refreshing gw true ["5.6.7.8"]].
Fixpoint run (n : nat) (s : xstate) : xstate :=
  match n, threads s with
  | S n, [t] => let '(t', s) := thread_step t true s in run n (set_threads s (option_list t'))
  | _, _ => s
  end.
Definition s5 : xstate := run 5 s4.
Lemma run_steps n s : (List.length (threads s) <= 1)%nat -> rtc xstep s (run n s).
Proof.
  revert s. induction n as [|n IH]; intros s Hl; [apply rtc_refl|]. cbn. destruct (threads s) as [|t [|]] eqn:Ht; [apply rtc_refl| |apply rtc_refl].
  destruct (thread_step t true s) as [t' s'] eqn:Hs. eapply rtc_l.
  - apply (step_thread s [] t [] true t' s'); [exact Ht|exact Hs].
  - rewrite app_nil_l, app_nil_r. apply IH. cbn. destruct t'; cbn; lia.
Qed.
Lemma s5_reached : rtc xstep x_init s5.
Proof.
  refine (rtc_l _ _ _ _ (step_reserve x_init ["1.2.3.4"] _ None eq_refl) _).
  refine (rtc_l _ _ _ _ (step_goLive s1 gw (fun _ => true) eq_refl) _).
  refine (rtc_l _ _ _ _ (step_arm s2 ∅ eq_refl) _).
  refine (rtc_l _ _ _ _ (step_reserve s3 ["5.6.7.8"] _ (Some (gw, true, ["5.6.7.8"])) eq_refl) _).
  apply (run_steps 5 s4). vm_compute. lia.
Qed.
End Demo.

Lemma underlay_is_excluded_witness :
  "5.6.7.8" ∈ x_routes Demo.s5 /\ (forall A, x_allow Demo.s5 = Some A -> "5.6.7.8" ∈ A).
Proof.
  refine (proj1 (underlay_is_excluded Demo.s5 Demo.s5_reached _) _ "5.6.7.8" _ _); [by vm_compute|by vm_compute|by vm_compute|].
  by vm_compute.
Defined.

(** Two dials to one new address: the second call of [reserve] returns before the first
    has installed the route, so its dial can go into the tunnel. *)
Example second_dial_is_not_excluded :
  let s := set_threads (set_x Demo.s3 (reserve_record (x Demo.s3) ["5.6.7.8"]).1) [Refreshing Demo.gw true ["5.6.7.8"]] in
  xstep Demo.s3 s /\ (reserve_record (x s) ["5.6.7.8"]).2 = None /\ bool_decide ("5.6.7.8" ∈ x_routes s) = false.
Proof.
  split_and!; [|by vm_compute..].
  exact (step_reserve Demo.s3 ["5.6.7.8"] _ (Some (Demo.gw, true, ["5.6.7.8"])) eq_refl).
Qed.
