(* ===== verification/Tunnel.v ===== *)
(** * Routing a whole device: [clients/internal/enforcement/tunnel.go]

    Bringing the tunnel up is a sequence of changes to the machine, each with the clean-up
    that a later failure runs; taking it down is [Close]. The machine is reached through
    the interface [osNet] ([osnet.go]), and what a device and a netstack do through
    [tunLib]. Two machines implement them: [Host], which does what the interface's
    documentation says, any of its calls failing, those that undo as well; and [Linux]
    ([osnet_linux.go], [enforcement_linux.go]), which asks the privileged helper of
    [Netd]. While the tunnel comes up and down, answers of the resolver are observed and
    transports dial: the events of [interfere], between any two calls. *)

From S2P Require Import ASN.
From S2P Require Import Prelude GoStrings Net GeoIP Nft NetWire Netd NetdSafety Enforce.
Local Open Scope Z_scope.

(** ** [osnet.go]: the interface *)

Inductive Failure := ErrHelperUnreachable | ErrHelperBusy | ErrHelperVersion | Refused (c : option Code) | NoGateway | NoDescriptor | NoSource | CallFailed | BadAddress.

Class osNet (S : Type) := {
  defaultGateway : S -> result Failure Enforce.gatewayInfo * S;
  addExclusionRoutes : list string -> Enforce.gatewayInfo -> S -> S;
  addExclusionRoutesV6 : list string -> Enforce.gatewayInfo -> S -> S;
  addInclusionRoutes : list string -> string -> S -> S;
  removeRoutes : list string -> S -> S;
  createTUN : S -> result Failure unit * S;
  configureTunInterface : string -> Z -> S -> result Failure unit * S;
  addSplitDefaultRoute : string -> S -> result Failure unit * S;
  disablePhysicalIPv6 : string -> S -> S;
  enablePhysicalIPv6 : string -> S -> S;
  enableKillSwitch : list string -> list string -> S -> result Failure unit * S;
  disableKillSwitch : S -> S;
  recoverKillSwitch : S -> S;
  refreshKillSwitchAllowIP : string -> S -> S;
  os_captureDNS : S -> result Failure unit * S;
  os_releaseDNS : S -> S;
  allowServedEgress : S -> result Failure string * S;
  os_revokeServedEgress : S -> S;
}.
(** The device's [Close], and the netstack that forwards what the device delivers. *)
Class tunLib (S : Type) := {
  devClose : S -> S;
  startNetstack : string -> S -> result Failure unit * S;
  ntClose : S -> S;
}.

Definition tunIP : string := "10.66.0.2".
(** [v4Address] *)
Definition v4Address (s : string) : option IP := ip ← ParseIP s; To4 ip.

Record Policy := MkPolicyCfg {
  Coordinators : list string; STUNURL : string; TURNURL : string; DNSUpstream : string;
  pol_Bypass : list string; BypassMode : string; KillSwitch : bool; ServeEgress : bool;
}.

(** ** The steps of bringing it up *)

Section Tunnel.
Context {S : Type} `{osNet S} `{tunLib S}.
Context (LookupHost : string -> option (list string)) (cfg : Policy).

(** What happens beside the tunnel's own steps: an answer with an address for a bypass
    domain, a dial of a transport, a gateway lookup's end. *)
Inductive Event := EvLearn (ip : IP) | EvReserve (addr : string) | EvGateway.
Record TS := MkTS {
  t_policy : bypassPolicy; t_pe : poolExcluder; t_gw : Enforce.gatewayInfo; t_nt : bool; t_env : list (list Event); t_os : S;
}.
Definition with_policy (t : TS) (p : bypassPolicy) : TS := MkTS p (t_pe t) (t_gw t) (t_nt t) (t_env t) (t_os t).
Definition with_pe (t : TS) (p : poolExcluder) : TS := MkTS (t_policy t) p (t_gw t) (t_nt t) (t_env t) (t_os t).
Definition with_t_gw (t : TS) (g : Enforce.gatewayInfo) : TS := MkTS (t_policy t) (t_pe t) g (t_nt t) (t_env t) (t_os t).
Definition with_nt (t : TS) (b : bool) : TS := MkTS (t_policy t) (t_pe t) (t_gw t) b (t_env t) (t_os t).
Definition with_env (t : TS) (e : list (list Event)) : TS := MkTS (t_policy t) (t_pe t) (t_gw t) (t_nt t) e (t_os t).
Definition with_os (t : TS) (s : S) : TS := MkTS (t_policy t) (t_pe t) (t_gw t) (t_nt t) (t_env t) s.

(** [excludeFn]; the closure [policy.onLearn]. *)
Definition excludeFn (gw : Enforce.gatewayInfo) (ip : string) (s : S) : S :=
  if isIPv6Literal ip then addExclusionRoutesV6 [ip] gw s else addExclusionRoutes [ip] gw s.
Definition onLearn (gw : Enforce.gatewayInfo) (mode : splitTunnelMode) (ip : string) (armed : bool) (s : S) : S :=
  let s := if decide (mode = modeInclude) then addInclusionRoutes [ip] tunIP s else addExclusionRoutes [ip] gw s in
  if KillSwitch cfg && armed then refreshKillSwitchAllowIP ip s else s.

(** A whole call of [reserve], or of [learn] by the running netstack. *)
Definition reserve (addr : string) (t : TS) : TS :=
  let ips := resolveExclusions LookupHost [addr] ++ resolveExclusionsV6 LookupHost [addr] in
  match ips with
  | [] => t
  | _ =>
      let '(pe, todo) := reserve_record (t_pe t) ips in
      match todo with
      | None => with_pe t pe
      | Some (gw, armed, toInstall) =>
          with_os (with_pe t (Enforce.with_gw pe (x_gw pe) true))
            (foldl (fun s ip => let s := excludeFn gw ip s in if armed : bool then refreshKillSwitchAllowIP ip s else s) (t_os t) toInstall)
      end
  end.
Definition happen (t : TS) (e : Event) : TS :=
  match e with
  | EvLearn ip =>
      if t_nt t then
        match learn (t_policy t) ip with
        | (p, None) => with_policy t p
        | (p, Some (key, armed)) => with_os (with_policy t p) (onLearn (t_gw t) (mode p) key armed (t_os t))
        end
      else t
  | EvReserve addr => reserve addr t
  | EvGateway =>
      if gwRefreshing (t_pe t) then
        let '(r, s) := defaultGateway (t_os t) in
        with_os (with_pe t (Enforce.with_gw (t_pe t) (match r with Ok g => g | Err _ => x_gw (t_pe t) end) false)) s
      else t
  end.
Definition interfere (t : TS) : TS := foldl happen (with_env t (tail (t_env t))) (default [] (head (t_env t))).

(** The clean-ups a failing bring-up runs, the last deferred first. *)
Inductive cleanup := DropExclusions (ips : list string) | DropExcluder | DropBypass | CloseDevice | EnableIPv6 | CloseNetstack | ReleaseDNS | RevokeServed.
Definition call (f : S -> S) (t : TS) : TS := let t := interfere t in with_os t (f (t_os t)).
Definition run_cleanup (t : TS) (c : cleanup) : TS :=
  match c with
  | DropExclusions ips => call (removeRoutes ips) t
  | DropExcluder => let t := with_pe t (disable (t_pe t)) in let t := interfere t in with_os t (removeRoutes (reserved (t_pe t)) (t_os t))
  | DropBypass =>
      let t := call (removeRoutes (staticEntries (t_policy t))) t in
      let t := interfere t in with_os t (removeRoutes (dynamicSnapshot (t_policy t)) (t_os t))
  | CloseDevice => call devClose t
  | EnableIPv6 => call (enablePhysicalIPv6 (ifAlias (t_gw t))) t
  | CloseNetstack => with_nt (call ntClose t) false
  | ReleaseDNS => call os_releaseDNS t
  | RevokeServed => call os_revokeServedEgress t
  end.

(** A bring-up threads its state and its clean-ups, and ends at the first failure. *)
Definition M (A : Type) : Type := TS -> list cleanup -> result Failure A * TS * list cleanup.
Definition mret {A} (a : A) : M A := fun t ds => (Ok a, t, ds).
Definition mbind {A B} (m : M A) (f : A -> M B) : M B :=
  fun t ds => match m t ds with (Ok a, t, ds) => f a t ds | (Err e, t, ds) => (Err e, t, ds) end.
Notation "'up!' x := m 'in' k" := (mbind m (fun x => k)) (at level 200, x pattern, m at level 100, k at level 200, right associativity).
Notation "'run!' m ';' k" := (mbind m (fun _ : unit => k)) (at level 200, m at level 100, k at level 200, right associativity).
Definition defer (c : cleanup) : M unit := fun t ds => (Ok tt, t, c :: ds).
Definition get {A} (f : TS -> A) : M A := fun t ds => (Ok (f t), t, ds).
Definition put (f : TS -> TS) : M unit := fun t ds => (Ok tt, f t, ds).
Definition silent (f : S -> S) : M unit := fun t ds => (Ok tt, call f t, ds).
Definition fallible {A} (f : S -> result Failure A * S) : M A :=
  fun t ds => let t := interfere t in let '(r, s) := f (t_os t) in (r, with_os t s, ds).
Definition when_ (b : bool) (m : M unit) : M unit := if b then m else mret tt.

(** [goLive], under the excluder's lock. *)
Definition goLive (gw : Enforce.gatewayInfo) (t : TS) : TS :=
  let t := interfere t in
  with_os (with_pe t (live (t_pe t) gw)) (foldl (fun s ip => excludeFn gw ip s) (t_os t) (reserved (t_pe t))).
(** The kill switch is armed with both locks held, so nothing is learned or reserved
    between the allowlist's reading and its arming. *)
Definition arm_all (excluded : list string) : M unit :=
  fun t ds =>
    let t := interfere t in
    let p := t_policy t in
    let '(r, (s, pe)) :=
      arm p (fun dynamicSnapshot '(s, pe) =>
        let '(r, s) := armAllowlist pe (fun poolIPs s => enableKillSwitch (excluded ++ poolIPs) (staticEntries p ++ dynamicSnapshot) s) s in
        match r with Ok pe => (Ok tt, (s, pe)) | Err e => (Err e, (s, pe)) end) (t_os t, t_pe t) in
    match r with
    | Ok p => (Ok tt, with_os (with_pe (with_policy t p) pe) s, ds)
    | Err e => (Err e, with_os t s, ds)
    end.

Record tunnel := MkTunnel { gw : Enforce.gatewayInfo; excludedIPs : list string; killSwitch : bool; servedSource : string }.

(** [startTunnel] in three parts: what the control plane and the transports dial is kept
    out of the tunnel; the device takes the routes; the netstack carries what it delivers. *)
Definition exclude_underlay : M (Enforce.gatewayInfo * list string) :=
  up! gw := fallible defaultGateway in
  run! put (fun t => with_t_gw t gw);
  let excluded := resolveExclusions LookupHost (Coordinators cfg ++ [STUNURL cfg; TURNURL cfg]) in
  run! silent (addExclusionRoutes excluded gw);
  run! defer (DropExclusions excluded);
  run! put (goLive gw);
  run! defer DropExcluder;
  mret (gw, excluded).
Definition route_device (gw : Enforce.gatewayInfo) : M unit :=
  run! put (fun t => with_policy t (foldl seed (t_policy t) (resolveDomains LookupHost (domains (t_policy t))).1));
  up! include := get (fun t => bool_decide (mode (t_policy t) = modeInclude)) in
  up! bypassEntries := get (fun t => staticEntries (t_policy t) ++ dynamicSnapshot (t_policy t)) in
  run! when_ (negb include) (run! silent (addExclusionRoutes bypassEntries gw); defer DropBypass);
  run! fallible createTUN;
  run! defer CloseDevice;
  run! fallible (configureTunInterface tunIP 24);
  if include then run! silent (addInclusionRoutes bypassEntries tunIP); defer DropBypass
  else fallible (addSplitDefaultRoute tunIP).
Definition carry_traffic (gw : Enforce.gatewayInfo) : M string :=
  run! silent (disablePhysicalIPv6 (ifAlias gw));
  run! defer EnableIPv6;
  run! (fun t ds => (match v4Address tunIP with Some _ => Ok tt | None => Err BadAddress end, t, ds));
  run! fallible (startNetstack (DNSUpstream cfg));
  run! put (fun t => with_nt t true);
  run! defer CloseNetstack;
  run! fallible os_captureDNS;
  run! defer ReleaseDNS;
  if ServeEgress cfg then up! src := fallible allowServedEgress in run! defer RevokeServed; mret src
  else mret "".
Definition bring_up : M tunnel :=
  up! (gw, excluded) := exclude_underlay in
  run! route_device gw;
  up! servedSource := carry_traffic gw in
  run! when_ (KillSwitch cfg) (arm_all excluded);
  mret (MkTunnel gw excluded (KillSwitch cfg) servedSource).

Definition startTunnel (t : TS) : result Failure tunnel * TS :=
  match bring_up t [] with
  | (Ok tun, t, _) => (Ok tun, t)
  | (Err e, t, ds) => (Err e, foldl run_cleanup t ds)
  end.

(** [Close] *)
Definition Close (tun : tunnel) (t : TS) : TS :=
  let t := if String.eqb (servedSource tun) "" then t else call os_revokeServedEgress t in
  let t := if killSwitch tun then call disableKillSwitch t else t in
  let t := call os_releaseDNS t in
  let t := with_nt (call ntClose t) false in
  let t := call devClose t in
  let t := call (enablePhysicalIPv6 (ifAlias (gw tun))) t in
  let t := call (removeRoutes (excludedIPs tun)) t in
  let t := run_cleanup t DropExcluder in
  run_cleanup t DropBypass.
End Tunnel.

(** ** A machine that does what the interface says *)

(** A call happens, or fails and changes nothing, or happens and is reported as failed, as
    when its reply comes too late. A route that cannot be put in is left out, silently. *)
Inductive CallFate := Happens | Fails | FailsLate.

(** What no call will take back: what a call that undoes failed to undo, and what a call
    has done that was reported as failed. *)
Record Stuck := MkStuck {
  s_routes : gset string; s_device : bool; s_tunroutes : gset string; s_noipv6 : bool; s_netstack : bool;
  s_dns : bool; s_served : bool; s_kill : option (gset string);
}.
Definition nothing_stuck : Stuck := MkStuck ∅ false ∅ false false false false None.
Definition s_set (k : Stuck) (r : gset string) (d : bool) (tr : gset string) : Stuck :=
  MkStuck r d tr (s_noipv6 k) (s_netstack k) (s_dns k) (s_served k) (s_kill k).
Definition s_flags (k : Stuck) (v6 nt dns served : bool) : Stuck :=
  MkStuck (s_routes k) (s_device k) (s_tunroutes k) v6 nt dns served (s_kill k).
Definition s_lock (k : Stuck) (l : option (gset string)) : Stuck :=
  MkStuck (s_routes k) (s_device k) (s_tunroutes k) (s_noipv6 k) (s_netstack k) (s_dns k) (s_served k) l.

(** What the calls have done and can take back, and what is stuck beside it. Calls that do
    something draw from [h_fates], those that undo it from [h_undo]; the routes into the
    device go with it. *)
Record Host := MkHost {
  h_routes : gset string; h_device : bool; h_tunroutes : gset string; h_noipv6 : bool; h_netstack : bool;
  h_dns : bool; h_served : bool; h_kill : option (gset string); h_gateway : Enforce.gatewayInfo;
  h_fates : list CallFate; h_undo : list bool; h_stuck : Stuck;
}.
Definition h_set (h : Host) (r : gset string) (d : bool) (tr : gset string) : Host :=
  MkHost r d tr (h_noipv6 h) (h_netstack h) (h_dns h) (h_served h) (h_kill h) (h_gateway h) (h_fates h) (h_undo h) (h_stuck h).
Definition h_flags (h : Host) (v6 nt dns served : bool) : Host :=
  MkHost (h_routes h) (h_device h) (h_tunroutes h) v6 nt dns served (h_kill h) (h_gateway h) (h_fates h) (h_undo h) (h_stuck h).
Definition h_lock (h : Host) (k : option (gset string)) : Host :=
  MkHost (h_routes h) (h_device h) (h_tunroutes h) (h_noipv6 h) (h_netstack h) (h_dns h) (h_served h) k (h_gateway h) (h_fates h) (h_undo h) (h_stuck h).
Definition h_stick (k : Stuck) (h : Host) : Host :=
  MkHost (h_routes h) (h_device h) (h_tunroutes h) (h_noipv6 h) (h_netstack h) (h_dns h) (h_served h) (h_kill h) (h_gateway h) (h_fates h) (h_undo h) k.
Definition h_undos (l : list bool) (h : Host) : Host :=
  MkHost (h_routes h) (h_device h) (h_tunroutes h) (h_noipv6 h) (h_netstack h) (h_dns h) (h_served h) (h_kill h) (h_gateway h) (h_fates h) l (h_stuck h).
Definition h_draw (h : Host) : CallFate * Host :=
  (default Happens (head (h_fates h)),
   MkHost (h_routes h) (h_device h) (h_tunroutes h) (h_noipv6 h) (h_netstack h) (h_dns h) (h_served h) (h_kill h) (h_gateway h) (tail (h_fates h)) (h_undo h) (h_stuck h)).

(** A call that reports its end: [f] is what it does, [late] what that amounts to when it
    is reported as failed. *)
Definition h_try (f late : Host -> Host) (h : Host) : result Failure unit * Host :=
  let '(x, h) := h_draw h in
  match x with Happens => (Ok tt, f h) | Fails => (Err CallFailed, h) | FailsLate => (Err CallFailed, late h) end.
Definition h_best (f : Host -> Host) (h : Host) : Host :=
  let '(x, h) := h_draw h in match x with Fails => h | _ => f h end.
Definition h_add (ps : list string) (h : Host) : Host :=
  foldl (fun h p => h_best (fun h => h_set h ({[p]} ∪ h_routes h) (h_device h) (h_tunroutes h)) h) h ps.
Definition h_addtun (ps : list string) (h : Host) : Host :=
  foldl (fun h p => h_best (fun h => if h_device h then h_set h (h_routes h) true ({[p]} ∪ h_tunroutes h) else h) h) h ps.

(** A call that undoes, silently: [f] takes away what can be taken back; when the call
    succeeds nothing of it is stuck either, and when it fails all of it is. *)
Definition h_take (f : Host -> Host) (gone kept : Host -> Stuck) (h : Host) : Host :=
  let h0 := h_undos (tail (h_undo h)) (f h) in
  h_stick (if default true (head (h_undo h)) then gone h else kept h) h0.
(** The routes of [there] that are left after the removal of [ps], each of which may fail. *)
Fixpoint leftover (fates : list bool) (ps : list string) (there : gset string) : gset string :=
  match ps with
  | [] => there
  | p :: ps => leftover (tail fates) ps (if default true (head fates) then there ∖ {[p]} else there)
  end.
Definition h_remove (ps : list string) (h : Host) : Host :=
  let r := h_routes h ∖ list_to_set ps in let tr := h_tunroutes h ∖ list_to_set ps in
  let k := h_stuck h in let all := leftover (h_undo h) ps in
  h_stick (s_set k (all (h_routes h ∪ s_routes k) ∖ r) (s_device k) (all (h_tunroutes h ∪ s_tunroutes k) ∖ tr))
    (h_undos (drop (List.length ps) (h_undo h)) (h_set h r (h_device h) tr)).
Definition h_unlock : Host -> Host :=
  h_take (fun h => h_lock h None) (fun h => s_lock (h_stuck h) None)
    (fun h => s_lock (h_stuck h) (match h_kill h with Some l => Some l | None => s_kill (h_stuck h) end)).

Definition host_source : string := "192.0.2.7".

#[export] Instance host_os : osNet Host := {|
  defaultGateway h := let '(x, h) := h_draw h in (match x with Happens => Ok (h_gateway h) | _ => Err NoGateway end, h);
  addExclusionRoutes ps _ := h_add ps;
  addExclusionRoutesV6 ps g h := if String.eqb (nextHopV6 g) "" then h else h_add ps h;
  addInclusionRoutes ps _ := h_addtun ps;
  removeRoutes := h_remove;
  createTUN := h_try (fun h => h_set h (h_routes h) true ∅)
    (fun h => h_stick (s_set (h_stuck h) (s_routes (h_stuck h)) true (s_tunroutes (h_stuck h))) h);
  configureTunInterface _ _ := h_try id id;
  addSplitDefaultRoute _ h :=
    if h_device h then
      let add h := h_set h (h_routes h) (h_device h) ({["0.0.0.0/1"; "128.0.0.0/1"]} ∪ h_tunroutes h) in h_try add add h
    else (Err CallFailed, h);
  disablePhysicalIPv6 _ := h_best (fun h => h_flags h true (h_netstack h) (h_dns h) (h_served h));
  enablePhysicalIPv6 _ :=
    h_take (fun h => h_flags h false (h_netstack h) (h_dns h) (h_served h))
      (fun h => let k := h_stuck h in s_flags k false (s_netstack k) (s_dns k) (s_served k))
      (fun h => let k := h_stuck h in s_flags k (h_noipv6 h || s_noipv6 k) (s_netstack k) (s_dns k) (s_served k));
  enableKillSwitch control bypass :=
    let allow := Some (list_to_set (control ++ bypass)) in
    h_try (fun h => h_lock h allow) (fun h => h_stick (s_lock (h_stuck h) allow) h);
  disableKillSwitch := h_unlock;
  recoverKillSwitch := h_unlock;
  refreshKillSwitchAllowIP ip :=
    h_best (fun h => h_stick (s_lock (h_stuck h) (({[ip]} ∪.) <$> s_kill (h_stuck h))) (h_lock h (({[ip]} ∪.) <$> h_kill h)));
  os_captureDNS :=
    h_try (fun h => h_flags h (h_noipv6 h) (h_netstack h) true (h_served h))
      (fun h => let k := h_stuck h in h_stick (s_flags k (s_noipv6 k) (s_netstack k) true (s_served k)) h);
  os_releaseDNS :=
    h_take (fun h => h_flags h (h_noipv6 h) (h_netstack h) false (h_served h))
      (fun h => let k := h_stuck h in s_flags k (s_noipv6 k) (s_netstack k) false (s_served k))
      (fun h => let k := h_stuck h in s_flags k (s_noipv6 k) (s_netstack k) (h_dns h || s_dns k) (s_served k));
  allowServedEgress h :=
    let '(r, h) := h_try (fun h => h_flags h (h_noipv6 h) (h_netstack h) (h_dns h) true)
      (fun h => let k := h_stuck h in h_stick (s_flags k (s_noipv6 k) (s_netstack k) (s_dns k) true) h) h in
    (match r with Ok _ => Ok host_source | Err e => Err e end, h);
  os_revokeServedEgress :=
    h_take (fun h => h_flags h (h_noipv6 h) (h_netstack h) (h_dns h) false)
      (fun h => let k := h_stuck h in s_flags k (s_noipv6 k) (s_netstack k) (s_dns k) false)
      (fun h => let k := h_stuck h in s_flags k (s_noipv6 k) (s_netstack k) (s_dns k) (h_served h || s_served k));
|}.
#[export] Instance host_lib : tunLib Host := {|
  devClose :=
    h_take (fun h => h_set h (h_routes h) false ∅)
      (fun h => let k := h_stuck h in s_set k (s_routes k) false ∅)
      (fun h => let k := h_stuck h in s_set k (s_routes k) (h_device h || s_device k) (h_tunroutes h ∪ s_tunroutes k));
  startNetstack _ := h_try (fun h => h_flags h (h_noipv6 h) true (h_dns h) (h_served h)) id;
  ntClose :=
    h_take (fun h => h_flags h (h_noipv6 h) false (h_dns h) (h_served h))
      (fun h => let k := h_stuck h in s_flags k (s_noipv6 k) false (s_dns k) (s_served k))
      (fun h => let k := h_stuck h in s_flags k (s_noipv6 k) (h_netstack h || s_netstack k) (s_dns k) (s_served k));
|}.

(** All that is on the machine of a tunnel. *)
Definition on_machine (h : Host) : Stuck :=
  let k := h_stuck h in
  MkStuck (h_routes h ∪ s_routes k) (h_device h || s_device k) (h_tunroutes h ∪ s_tunroutes k) (h_noipv6 h || s_noipv6 k)
    (h_netstack h || s_netstack k) (h_dns h || s_dns k) (h_served h || s_served k)
    (match h_kill h with Some l => Some l | None => s_kill k end).
(** Nothing is left that is not stuck. *)
Definition clean (h : Host) : Prop :=
  h_routes h = ∅ /\ h_device h = false /\ h_tunroutes h = ∅ /\ h_noipv6 h = false /\ h_netstack h = false /\
  h_dns h = false /\ h_served h = false /\ h_kill h = None.
Lemma clean_stuck h : clean h -> on_machine h = h_stuck h.
Proof.
  destruct h as [r d tr v6 nt dns sv k g fs us [sr sd st sv6 snt sdns ssv sk]]. unfold clean, on_machine. cbn.
  intros (-> & -> & -> & -> & -> & -> & -> & ->). by rewrite !(left_id_L ∅ (∪)).
Qed.
Lemma nothing_clean h : on_machine h = nothing_stuck -> clean h /\ h_stuck h = nothing_stuck.
Proof.
  destruct h as [r d tr v6 nt dns sv k g fs us [sr sd st sv6 snt sdns ssv sk]]. unfold clean, on_machine, nothing_stuck. cbn. intros [= H1 H2 H3 H4 H5 H6 H7 H8].
  apply empty_union_L in H1 as [-> ->], H3 as [-> ->]. apply orb_false_iff in H2 as [-> ->], H4 as [-> ->], H5 as [-> ->], H6 as [-> ->], H7 as [-> ->].
  by destruct k; subst.
Qed.
(** No call is reported as failed that was not, and none that undoes fails. *)
Definition well_behaved (h : Host) : Prop := Forall (fun x => x <> FailsLate) (h_fates h) /\ Forall (fun ok => ok = true) (h_undo h).

(** ** What a bring-up still has to undo *)

Section Rollback.
Context (LookupHost : string -> option (list string)) (cfg : Policy).
Notation TSh := (TS (S := Host)).

(** The netstack is closed before the bypass routes are dropped: it learns addresses. *)
Definition nt_ok (ds : list cleanup) : Prop := exists i j, (i < j)%nat /\ ds !! i = Some CloseNetstack /\ ds !! j = Some DropBypass.

Record covered (armed : bool) (sts : list string) (ds : list cleanup) (t : TSh) : Prop := {
  cv_routes : forall p, p ∈ h_routes (t_os t) ->
    (exists ex, DropExclusions ex ∈ ds /\ p ∈ ex) \/ (DropExcluder ∈ ds /\ p ∈ seen (t_pe t)) \/
    (DropBypass ∈ ds /\ (p ∈ sts \/ p ∈ dynamic (t_policy t)));
  cv_device : h_device (t_os t) = true -> CloseDevice ∈ ds;
  cv_tunroutes : h_device (t_os t) = false -> h_tunroutes (t_os t) = ∅;
  cv_noipv6 : h_noipv6 (t_os t) = true -> EnableIPv6 ∈ ds;
  cv_netstack : h_netstack (t_os t) = true -> CloseNetstack ∈ ds;
  cv_learning : t_nt t = true -> nt_ok ds;
  cv_dns : h_dns (t_os t) = true -> ReleaseDNS ∈ ds;
  cv_served : h_served (t_os t) = true -> RevokeServed ∈ ds;
  cv_kill : armed = false -> h_kill (t_os t) = None;
  cv_live : routesLive (t_pe t) = true -> closed (t_pe t) = true \/ DropExcluder ∈ ds;
}.

(** Routes for [ps] and into the device may have come, and the allowlist may have grown. *)
Record grows (ps : list string) (h h' : Host) : Prop := {
  gr_routes : forall p, p ∈ h_routes h' -> p ∈ h_routes h \/ p ∈ ps;
  gr_device : h_device h' = h_device h;
  gr_tunroutes : h_device h = false -> h_tunroutes h' = h_tunroutes h;
  gr_flags : h_noipv6 h' = h_noipv6 h /\ h_netstack h' = h_netstack h /\ h_dns h' = h_dns h /\ h_served h' = h_served h;
  gr_kill : h_kill h = None -> h_kill h' = None;
}.
Lemma same_grows ps h : grows ps h h.
Proof. split; auto. Qed.
Lemma grows_trans ps h1 h2 h3 : grows ps h1 h2 -> grows ps h2 h3 -> grows ps h1 h3.
Proof.
  intros [A1 A2 A3 (A4 & A5 & A6 & A7) A8] [B1 B2 B3 (B4 & B5 & B6 & B7) B8]. split; try congruence; auto.
  - intros p Hp. apply B1 in Hp as [Hp|]; auto.
  - intros Hd. rewrite B3 by congruence. auto.
  - split_and!; congruence.
Qed.
Lemma grows_fold {A} (f : Host -> A -> Host) ps l h :
  (forall h x, x ∈ l -> grows ps h (f h x)) -> grows ps h (foldl f h l).
Proof.
  revert h. induction l as [|x l IH]; intros h Hf; cbn; [apply same_grows|].
  eapply grows_trans; [apply Hf; by left|]. apply IH. intros h' y Hy. apply Hf. by right.
Qed.
Lemma grows_best ps f h : (forall h, grows ps h (f h)) -> grows ps h (h_best f h).
Proof.
  intros Hf. unfold h_best, h_draw. destruct (default Happens (head (h_fates h))); [|by split; cbn; auto|];
    match goal with |- grows _ _ (f ?h') => eapply (grows_trans _ _ h'); [split; cbn; auto|apply Hf] end.
Qed.
Lemma grows_add ps h : grows ps h (h_add ps h).
Proof. apply grows_fold. intros h' p Hp. apply grows_best. intros h2. split; cbn; try done. set_solver. Qed.
Lemma grows_addtun qs ps h : grows ps h (h_addtun qs h).
Proof.
  apply grows_fold. intros h' p Hp. apply grows_best. intros h2. destruct (h_device h2) eqn:Hd; [|apply same_grows].
  split; cbn; try done; [auto|congruence].
Qed.
Lemma grows_allow ps ip h : grows ps h (refreshKillSwitchAllowIP ip h).
Proof.
  refine (grows_best ps (fun h => h_stick (s_lock (h_stuck h) (({[ip]} ∪.) <$> s_kill (h_stuck h))) (h_lock h (({[ip]} ∪.) <$> h_kill h))) h _).
  intros h2. split; cbn; auto. by intros ->.
Qed.
Lemma grows_exclude g ip h : grows [ip] h (excludeFn g ip h).
Proof.
  unfold excludeFn. destruct (isIPv6Literal ip); [|exact (grows_add [ip] h)].
  change (grows [ip] h (if String.eqb (nextHopV6 g) "" then h else h_add [ip] h)).
  destruct (String.eqb _ _); [apply same_grows|apply grows_add].
Qed.
Lemma grows_onLearn g m ip a h : grows [ip] h (onLearn cfg g m ip a h).
Proof.
  unfold onLearn. assert (grows [ip] h (if decide (m = modeInclude) then addInclusionRoutes [ip] tunIP h else addExclusionRoutes [ip] g h)) as Hg.
  { destruct (decide _); [exact (grows_addtun [ip] [ip] h)|exact (grows_add [ip] h)]. }
  destruct (_ && _); [|exact Hg]. eapply grows_trans; [exact Hg|apply grows_allow].
Qed.
Lemma grows_more ps qs h h' : (forall p, p ∈ ps -> p ∈ qs) -> grows ps h h' -> grows qs h h'.
Proof. intros Hm [A1 A2 A3 A4 A5]. split; auto. intros p Hp. destruct (A1 p Hp); auto. Qed.

(** What grew is covered if its routes are. *)
Lemma covered_grows armed sts ds t p' pe' ps s' :
  covered armed sts ds t -> grows ps (t_os t) s' ->
  (forall p, p ∈ dynamic (t_policy t) -> p ∈ dynamic p') ->
  (forall p, p ∈ seen (t_pe t) -> p ∈ seen pe') -> (routesLive pe' = true -> closed pe' = true \/ DropExcluder ∈ ds) ->
  (forall p, p ∈ ps -> (DropExcluder ∈ ds /\ p ∈ seen pe') \/ (DropBypass ∈ ds /\ p ∈ dynamic p')) ->
  covered armed sts ds (with_os (with_pe (with_policy t p') pe') s').
Proof.
  intros [C1 C2 C3 C4 C5 C6 C7 C8 C9 C10] [G1 G2 G3 (G4 & G5 & G6 & G7) G8] Hdyn Hseen Hlive Hps.
  split; cbn; rewrite ?G2, ?G4, ?G5, ?G6, ?G7; auto.
  - intros p Hp. apply G1 in Hp as [Hp|Hp].
    + destruct (C1 p Hp) as [?|[[? ?]|[? [?|?]]]]; auto 6.
    + destruct (Hps p Hp) as [[? ?]|[? ?]]; auto 6.
  - intros Hd. rewrite G3; auto.
Qed.

Lemma nt_ok_bypass ds : nt_ok ds -> DropBypass ∈ ds.
Proof. intros (i & j & _ & _ & Hj). by eapply list_elem_of_lookup_2. Qed.

Lemma reserve_record_spec pe ips pe' todo : reserve_record pe ips = (pe', todo) ->
  routesLive pe' = routesLive pe /\ closed pe' = closed pe /\ (forall p, p ∈ seen pe -> p ∈ seen pe') /\
  (forall g a l, todo = Some (g, a, l) -> routesLive pe = true /\ closed pe = false /\ forall p, p ∈ l -> p ∈ seen pe').
Proof.
  unfold reserve_record. intros [= <- <-]. cbn. split_and!; try done; [set_solver|]. intros g a l. destruct (closed pe); [done|].
  destruct (routesLive pe); [|by rewrite bool_decide_true]. destruct (bool_decide _); [done|]. intros [= <- <- <-]. split_and!; try done.
  intros p Hp. apply elem_of_union. left. by apply elem_of_list_to_set.
Qed.

Lemma happen_covered armed sts ds t e : covered armed sts ds t -> covered armed sts ds (happen LookupHost cfg t e).
Proof.
  intros Hc. destruct e as [ip|addr|]; cbn [happen].
  - destruct (t_nt t) eqn:Hnt; [|done]. unfold learn. destruct (To4 ip) as [v4|].
    + case_bool_decide; [by destruct t, Hc; split|].
      apply (covered_grows armed sts ds t (with_dynamic (t_policy t) ({[ip_text v4]} ∪ dynamic (t_policy t))) (t_pe t) [ip_text v4] _ Hc (grows_onLearn _ _ _ _ _)); cbn; auto.
      * set_solver.
      * apply (cv_live _ _ _ _ Hc).
      * intros p ->%list_elem_of_singleton. right. split; [by apply nt_ok_bypass, (cv_learning _ _ _ _ Hc)|set_solver].
    + by destruct t, Hc; split.
  - unfold reserve. destruct (_ ++ _) as [|i0 ips0] eqn:Hips; [done|]. destruct (reserve_record _ _) as [pe todo] eqn:Hrec.
    destruct (reserve_record_spec _ _ _ _ Hrec) as (R1 & R2 & R3 & R4). pose proof (cv_live _ _ _ _ Hc) as Hl. destruct todo as [[[g a] l]|].
    + destruct (R4 g a l eq_refl) as (L1 & L2 & L3).
      refine (covered_grows armed sts ds t (t_policy t) (Enforce.with_gw pe (x_gw pe) true) l _ Hc _ _ _ _ _); cbn; auto.
      * apply grows_fold. intros h p Hp. assert (grows l h (excludeFn g p h)) as Hg.
        { apply (grows_more [p]); [by intros q ->%list_elem_of_singleton|apply grows_exclude]. }
        destruct a; [|exact Hg]. eapply grows_trans; [exact Hg|apply grows_allow].
      * rewrite R1, R2. exact Hl.
      * intros p Hp. left. split; [|auto]. destruct (Hl L1); [congruence|done].
    + refine (covered_grows armed sts ds t (t_policy t) pe [] (t_os t) Hc (same_grows _ _) _ _ _ _); auto.
      * rewrite R1, R2. exact Hl.
      * intros p Hp. inversion Hp.
  - destruct (gwRefreshing (t_pe t)); [|done].
    change (defaultGateway (t_os t)) with (let '(x, h) := h_draw (t_os t) in (match x with Happens => Ok (h_gateway h) | _ => Err NoGateway end, h)).
    unfold h_draw. by destruct Hc; split.
Qed.
Lemma interfere_covered armed sts ds t : covered armed sts ds t -> covered armed sts ds (interfere LookupHost cfg t).
Proof.
  intros Hc. unfold interfere. assert (covered armed sts ds (with_env t (tail (t_env t)))) as Hc' by (by destruct Hc; split).
  revert Hc'. generalize (with_env t (tail (t_env t))). induction (default [] (head (t_env t))) as [|e l IH]; intros t' Ht'; [done|].
  cbn. by apply IH, happen_covered.
Qed.

(** Interference leaves the mode and the static entries, and an excluder closed. *)
Lemma happen_frame t e :
  staticEntries (t_policy (happen LookupHost cfg t e)) = staticEntries (t_policy t) /\
  (closed (t_pe t) = true -> closed (t_pe (happen LookupHost cfg t e)) = true) /\
  t_nt (happen LookupHost cfg t e) = t_nt t.
Proof.
  destruct e as [ip|addr|]; cbn [happen].
  - destruct (t_nt t) eqn:Hnt; [|done]. unfold learn. destruct (To4 ip); [case_bool_decide|]; done.
  - unfold reserve. destruct (_ ++ _); [done|]. destruct (reserve_record _ _) as [pe todo] eqn:Hrec.
    destruct (reserve_record_spec _ _ _ _ Hrec) as (_ & R2 & _). destruct todo as [[[? ?] ?]|]; cbn; by rewrite R2.
  - destruct (gwRefreshing _); [|done]. destruct (defaultGateway (t_os t)); done.
Qed.
Lemma interfere_frame t :
  staticEntries (t_policy (interfere LookupHost cfg t)) = staticEntries (t_policy t) /\
  (closed (t_pe t) = true -> closed (t_pe (interfere LookupHost cfg t)) = true) /\
  t_nt (interfere LookupHost cfg t) = t_nt t.
Proof.
  assert (forall l t', staticEntries (t_policy (foldl (happen LookupHost cfg) t' l)) = staticEntries (t_policy t') /\
    (closed (t_pe t') = true -> closed (t_pe (foldl (happen LookupHost cfg) t' l)) = true) /\
    t_nt (foldl (happen LookupHost cfg) t' l) = t_nt t') as Hall.
  { induction l as [|e l IH]; intros t'; [done|]. cbn [foldl].
    destruct (IH (happen LookupHost cfg t' e)) as (I1 & I2 & I3). destruct (happen_frame t' e) as (A1 & A2 & A3).
    rewrite I1, I3. auto. }
  exact (Hall (default [] (head (t_env t))) (with_env t (tail (t_env t)))).
Qed.

Lemma nt_ok_pop c ds : nt_ok (c :: ds) -> c <> CloseNetstack -> nt_ok ds.
Proof. intros ([|i] & [|j] & Hij & Hi & Hj) Hc; cbn in *; [lia|congruence|lia|]. exists i, j. split; [lia|done]. Qed.

Lemma on_stack {c d : cleanup} {ds} : d ∈ c :: ds -> c <> d -> d ∈ ds.
Proof. intros [->|?]%elem_of_cons Hd; [done|done]. Qed.

(** A clean-up may be taken off the stack once nothing needs it. *)
Lemma covered_pop armed sts c ds t s' :
  covered armed sts (c :: ds) t ->
  (forall p, p ∈ h_routes s' -> p ∈ h_routes (t_os t) /\ (forall ex, c = DropExclusions ex -> p ∉ ex) /\
     (c = DropExcluder -> p ∉ seen (t_pe t)) /\ (c = DropBypass -> p ∉ sts /\ p ∉ dynamic (t_policy t))) ->
  (h_device s' = true -> h_device (t_os t) = true /\ c <> CloseDevice) ->
  (h_device s' = false -> h_tunroutes s' = ∅) ->
  (h_noipv6 s' = true -> h_noipv6 (t_os t) = true /\ c <> EnableIPv6) ->
  (h_netstack s' = true -> h_netstack (t_os t) = true /\ c <> CloseNetstack) ->
  (h_dns s' = true -> h_dns (t_os t) = true /\ c <> ReleaseDNS) ->
  (h_served s' = true -> h_served (t_os t) = true /\ c <> RevokeServed) ->
  (h_kill (t_os t) = None -> h_kill s' = None) ->
  (c = CloseNetstack -> t_nt t = false) -> (c = DropExcluder -> closed (t_pe t) = true) ->
  covered armed sts ds (with_os t s').
Proof.
  intros [C1 C2 C3 C4 C5 C6 C7 C8 C9 C10] R D T V N Q U K L X. split; cbn; auto.
  - intros p Hp. destruct (R p Hp) as (Hp' & Re & Rx & Rb). destruct (C1 p Hp') as [(ex & He & Hx)|[[He Hx]|[He Hx]]].
    + left. exists ex. split; [|done]. apply (on_stack He). intros Hce. by apply (Re ex Hce).
    + right. left. split; [|done]. apply (on_stack He). intros Hce. by apply (Rx Hce).
    + right. right. split; [|done]. apply (on_stack He). intros Hce. destruct (Rb Hce). by destruct Hx.
  - intros Hd. destruct (D Hd). by apply (on_stack (C2 H)).
  - intros Hd. destruct (V Hd). by apply (on_stack (C4 H)).
  - intros Hd. destruct (N Hd). by apply (on_stack (C5 H)).
  - intros Hd. eapply nt_ok_pop; [by apply C6|]. intros Hcn. rewrite (L Hcn) in Hd. done.
  - intros Hd. destruct (Q Hd). by apply (on_stack (C7 H)).
  - intros Hd. destruct (U Hd). by apply (on_stack (C8 H)).
  - intros Hl. destruct (C10 Hl) as [|He]; [auto|]. destruct (decide (closed (t_pe t) = true)) as [|Hn]; [auto|]. right. apply (on_stack He). auto.
Qed.
Ltac pop := first [done | intros; split_and!; try done; by intros].

(** One clean-up undoes what it was deferred for. *)
Lemma cleanup_covered armed sts c ds t :
  covered armed sts (c :: ds) t -> (forall p, p ∈ sts -> p ∈ staticEntries (t_policy t)) ->
  covered armed sts ds (run_cleanup LookupHost cfg t c).
Proof.
  intros Hc Hsts. destruct c as [ips| | | | | | |]; cbn [run_cleanup]; unfold call.
  - apply interfere_covered in Hc. pose proof (cv_tunroutes _ _ _ _ Hc) as Htr. apply (covered_pop _ _ _ _ _ _ Hc); try pop; cbn.
    + intros p [Hp Hn]%elem_of_difference. split_and!; try done. intros ex [= <-] Hx. by apply Hn, elem_of_list_to_set.
    + intros Hd. rewrite Htr by done. set_solver.
  - assert (covered armed sts (DropExcluder :: ds) (with_pe t (disable (t_pe t)))) as Hc1 by (destruct Hc; split; cbn; auto).
    apply interfere_covered in Hc1. destruct (interfere_frame (with_pe t (disable (t_pe t)))) as (_ & Hcl & _). specialize (Hcl eq_refl).
    pose proof (cv_tunroutes _ _ _ _ Hc1) as Htr. apply (covered_pop _ _ _ _ _ _ Hc1); try pop; cbn.
    + intros p [Hp Hn]%elem_of_difference. split_and!; try done. intros _ Hx. apply Hn, elem_of_list_to_set. by apply elem_of_reserved.
    + intros Hd. rewrite Htr by done. set_solver.
  - apply interfere_covered in Hc. set (t1 := interfere LookupHost cfg t) in *.
    set (t2 := with_os t1 _). assert (covered armed [] (DropBypass :: ds) t2) as Hc2.
    { destruct Hc as [C1 C2 C3 C4 C5 C6 C7 C8 C9 C10]. split; cbn; auto.
      - intros p [Hp Hn]%elem_of_difference. destruct (C1 p Hp) as [?|[?|[He [Hx|Hx]]]]; auto.
        exfalso. apply Hn, elem_of_list_to_set. auto.
      - intros Hd. rewrite C3 by done. set_solver. }
    apply interfere_covered in Hc2. set (t3 := interfere LookupHost cfg t2) in *. pose proof (cv_tunroutes _ _ _ _ Hc2) as Htr.
    assert (covered armed [] ds (with_os t3 (removeRoutes (dynamicSnapshot (t_policy t3)) (t_os t3)))) as Hc3.
    { apply (covered_pop _ _ _ _ _ _ Hc2); try pop; cbn.
      + intros p [Hp Hn]%elem_of_difference. split_and!; try done. intros _. split; [by intros Hx; inversion Hx|]. intros Hx.
        apply Hn, elem_of_list_to_set. by apply elem_of_learned.
      + intros Hd. rewrite Htr by done. set_solver. }
    destruct Hc3 as [C1 C2 C3 C4 C5 C6 C7 C8 C9 C10]. split; auto.
    intros p Hp. destruct (C1 p Hp) as [?|[?|[He [Hx|Hx]]]]; auto. inversion Hx.
  - apply interfere_covered in Hc. by apply (covered_pop _ _ _ _ _ _ Hc); try pop.
  - apply interfere_covered in Hc. pose proof (cv_tunroutes _ _ _ _ Hc) as Htr. by apply (covered_pop _ _ _ _ _ _ Hc); try pop.
  - apply interfere_covered in Hc. pose proof (cv_tunroutes _ _ _ _ Hc) as Htr.
    assert (covered armed sts (CloseNetstack :: ds) (with_nt (interfere LookupHost cfg t) false)) as Hc1 by (destruct Hc; by split).
    by apply (covered_pop _ _ _ _ _ _ Hc1); try pop.
  - apply interfere_covered in Hc. pose proof (cv_tunroutes _ _ _ _ Hc) as Htr. by apply (covered_pop _ _ _ _ _ _ Hc); try pop.
  - apply interfere_covered in Hc. pose proof (cv_tunroutes _ _ _ _ Hc) as Htr. by apply (covered_pop _ _ _ _ _ _ Hc); try pop.
Qed.

Lemma run_cleanup_static t c : staticEntries (t_policy (run_cleanup LookupHost cfg t c)) = staticEntries (t_policy t).
Proof.
  destruct c; cbn [run_cleanup call with_nt with_os t_policy]; try apply (interfere_frame _).
  - destruct (interfere_frame (with_pe t (disable (t_pe t)))) as (-> & _). done.
  - match goal with |- staticEntries (t_policy (interfere _ _ ?t2)) = _ => destruct (interfere_frame t2) as (-> & _) end.
    cbn. apply (interfere_frame t).
Qed.
Lemma covered_nil armed sts t : covered armed sts [] t -> (armed = false -> clean (t_os t)) /\ t_nt t = false.
Proof.
  intros [C1 C2 C3 C4 C5 C6 C7 C8 C9 C10]. assert (forall c : cleanup, c ∉ []) as Hno by (intros c Hc; inversion Hc).
  assert (forall (b : bool) c, (b = true -> c ∈ []) -> b = false) as Hb by (intros [] c Hc; [by destruct (Hno c); apply Hc|done]).
  split; [|apply (not_true_is_false _); intros Hn; destruct (C6 Hn) as (i & _ & _ & Hi & _); by rewrite lookup_nil in Hi].
  intros Ha. pose proof (Hb _ _ C2) as Hd. split_and!; [|exact Hd|exact (C3 Hd)|exact (Hb _ _ C4)|exact (Hb _ _ C5)|exact (Hb _ _ C7)|exact (Hb _ _ C8)|exact (C9 Ha)].
  apply set_eq. intros p. split; [|set_solver]. intros Hp. destruct (C1 p Hp) as [(ex & He & _)|[[He _]|[He _]]]; by destruct (Hno _ He).
Qed.
Lemma unwind sts ds t : covered false sts ds t -> (forall p, p ∈ sts -> p ∈ staticEntries (t_policy t)) ->
  clean (t_os (foldl (run_cleanup LookupHost cfg) t ds)).
Proof.
  revert t. induction ds as [|c ds IH]; intros t Hc Hs; cbn [foldl]; [by apply (covered_nil _ _ _ Hc)|].
  apply IH; [by apply cleanup_covered|]. by rewrite run_cleanup_static.
Qed.

(** ** Every step of a bring-up is covered *)

Definition wp {A} (m : M A) (Q : A -> TSh -> list cleanup -> Prop) (sts : list string) (t : TSh) (ds : list cleanup) : Prop :=
  match m t ds with
  | (Ok a, t', ds') => Q a t' ds'
  | (Err _, t', ds') => covered false sts ds' t' /\ staticEntries (t_policy t') = sts
  end.
Lemma wp_seq {A B} (m : M A) (k : A -> M B) Q sts t ds :
  wp m (fun a t ds => wp (k a) Q sts t ds) sts t ds -> wp (mbind m k) Q sts t ds.
Proof. unfold wp, mbind. destruct (m t ds) as [[[a|e] t'] ds']; auto. Qed.
(** A state whose clean-ups are on the stack. *)
Definition good (sts : list string) (ds : list cleanup) (t : TSh) : Prop :=
  covered false sts ds t /\ staticEntries (t_policy t) = sts.
Lemma good_interfere sts ds t : good sts ds t -> good sts ds (interfere LookupHost cfg t).
Proof. intros [Hc Hs]. split; [by apply interfere_covered|]. by rewrite (proj1 (interfere_frame t)). Qed.
Lemma wp_silent f Q sts t ds : good sts ds t -> (forall t, good sts ds t -> Q tt (with_os t (f (t_os t))) ds) -> wp (silent LookupHost cfg f) Q sts t ds.
Proof. intros Hg HQ. unfold wp, silent, call. apply HQ. by apply good_interfere. Qed.
Lemma wp_fallible {A} (f : Host -> result Failure A * Host) Q sts t ds : good sts ds t ->
  (forall t r s, good sts ds t -> f (t_os t) = (r, s) ->
     match r with Ok a => Q a (with_os t s) ds | Err _ => good sts ds (with_os t s) end) ->
  wp (fallible LookupHost cfg f) Q sts t ds.
Proof.
  intros Hg HQ. unfold wp, fallible. apply good_interfere in Hg. specialize (HQ (interfere LookupHost cfg t)).
  destruct (f _) as [r s] eqn:Hf. specialize (HQ r s Hg eq_refl). by destruct r.
Qed.

(** Calls whose failure changes nothing, and whose success is covered by a clean-up that is
    deferred at once. *)
Lemma good_draw sts ds t : good sts ds t -> good sts ds (with_os t (h_draw (t_os t)).2).
Proof. intros [[C1 C2 C3 C4 C5 C6 C7 C8 C9 C10] Hs]. by split; [split|]. Qed.
(** A call that happens late changes only what is stuck. *)
Definition only_sticks (late : Host -> Host) : Prop := forall h, exists k, late h = h_stick k h.
Lemma id_sticks : only_sticks id.
Proof. intros h. exists (h_stuck h). by destruct h. Qed.
Lemma stick_sticks k : only_sticks (fun h => h_stick (k h) h).
Proof. intros h. by exists (k h). Qed.
Hint Resolve id_sticks stick_sticks : core.
Lemma good_stick sts ds t k : good sts ds t -> good sts ds (with_os t (h_stick k (t_os t))).
Proof. intros [[C1 C2 C3 C4 C5 C6 C7 C8 C9 C10] Hs]. by split; [split|]. Qed.
Lemma wp_attempt f late Q sts t ds : only_sticks late -> good sts ds t -> (forall t, good sts ds t -> Q tt (with_os t (f (t_os t))) ds) ->
  wp (fallible LookupHost cfg (h_try f late)) Q sts t ds.
Proof.
  intros Hlate Hg HQ. apply wp_fallible; [done|]. intros t1 r s Hg1 Hf. unfold h_try in Hf. pose proof (good_draw _ _ _ Hg1) as Hd.
  destruct (h_draw (t_os t1)) as [x h] eqn:He. cbn in Hd. destruct x; injection Hf as <- <-; [|done|].
  - change (with_os t1 (f h)) with (with_os (with_os t1 h) (f (t_os (with_os t1 h)))). by apply HQ.
  - destruct (Hlate h) as [k ->]. by apply (good_stick _ _ _ k) in Hd.
Qed.

Lemma nt_ok_push c ds : nt_ok ds -> nt_ok (c :: ds).
Proof. intros (i & j & Hij & Hi & Hj). exists (S i), (S j). split; [lia|done]. Qed.
Lemma good_push sts c ds t : good sts ds t -> good sts (c :: ds) t.
Proof.
  intros [[C1 C2 C3 C4 C5 C6 C7 C8 C9 C10] Hs]. split; [|done]. split; auto; try (intros Hx; apply elem_of_cons; by auto).
  - intros p Hp. destruct (C1 p Hp) as [(ex & He & Hx)|[[He Hx]|[He Hx]]].
    + left. exists ex. split; [by right|done].
    + right. left. split; [by right|done].
    + right. right. split; [by right|done].
  - intros Hx. by apply nt_ok_push, C6.
  - intros Hx. destruct (C10 Hx); [auto|]. right. by right.
Qed.
(** Routes that a clean-up on the stack takes back. *)
Definition backed (sts ps : list string) (ds : list cleanup) (t : TSh) : Prop :=
  forall p, p ∈ ps -> (exists ex, DropExclusions ex ∈ ds /\ p ∈ ex) \/ (DropExcluder ∈ ds /\ p ∈ seen (t_pe t)) \/
                     (DropBypass ∈ ds /\ (p ∈ sts \/ p ∈ dynamic (t_policy t))).
Lemma good_grows sts ps ds t s' : good sts ds t -> grows ps (t_os t) s' -> backed sts ps ds t -> good sts ds (with_os t s').
Proof.
  intros [[C1 C2 C3 C4 C5 C6 C7 C8 C9 C10] Hs] [G1 G2 G3 (G4 & G5 & G6 & G7) G8] Hb. split; [|done].
  split; cbn; rewrite ?G2, ?G4, ?G5, ?G6, ?G7; auto.
  - intros p Hp. apply G1 in Hp as [Hp|Hp]; [by apply C1|by apply Hb].
  - intros Hd. rewrite G3; auto.
Qed.

Lemma seeds_frame p ips : nets (foldl seed p ips) = nets p /\ forall q, q ∈ dynamic p -> q ∈ dynamic (foldl seed p ips).
Proof.
  revert p. induction ips as [|ip ips IH]; intros p; [done|]. cbn. destruct (IH (seed p ip)) as [I1 I2]. unfold seed in *.
  destruct (To4 ip); [|done]. rewrite I1. split; [done|]. intros q Hq. apply I2. cbn. set_solver.
Qed.
Lemma good_policy sts ds t p : good sts ds t -> nets p = nets (t_policy t) -> (forall q, q ∈ dynamic (t_policy t) -> q ∈ dynamic p) ->
  good sts ds (with_policy t p).
Proof.
  intros [[C1 C2 C3 C4 C5 C6 C7 C8 C9 C10] Hs] Hn Hd. split; [|cbn; unfold staticEntries; by rewrite Hn]. split; auto.
  intros q Hq. destruct (C1 q Hq) as [?|[?|[? [?|?]]]]; cbn; auto 6.
Qed.
Lemma good_live sts ds t g : good sts ds t -> good sts (DropExcluder :: ds) (with_pe t (live (t_pe t) g)).
Proof. intros Hg. apply (good_push _ DropExcluder) in Hg as [[] Hs]. split; [|done]. split; auto. intros _. right. by left. Qed.

(** What interference adds to what is learned stays learned. *)
Lemma interfere_dynamic t q : q ∈ dynamic (t_policy t) -> q ∈ dynamic (t_policy (interfere LookupHost cfg t)).
Proof.
  unfold interfere. change (t_policy t) with (t_policy (with_env t (tail (t_env t)))). generalize (with_env t (tail (t_env t))).
  induction (default [] (head (t_env t))) as [|e l IH]; intros t' Hq; [done|]. cbn. apply IH. destruct e as [ip|addr|]; cbn [happen].
  - destruct (t_nt t'); [|done]. unfold learn. destruct (To4 ip); [case_bool_decide|]; cbn; set_solver.
  - unfold reserve. destruct (_ ++ _); [done|]. destruct (reserve_record _ _) as [pe [[[? ?] ?]|]]; done.
  - destruct (gwRefreshing _); [|done]. by destruct (defaultGateway (t_os t')).
Qed.

Lemma wp_put (f : TSh -> TSh) Q sts t ds : Q tt (f t) ds -> wp (put f) Q sts t ds.
Proof. done. Qed.
Lemma wp_defer c Q sts t ds : Q tt t (c :: ds) -> wp (defer c) Q sts t ds.
Proof. done. Qed.
Lemma wp_get {A} (f : TSh -> A) Q sts t ds : Q (f t) t ds -> wp (get f) Q sts t ds.
Proof. done. Qed.

(** What is on the stack once the tunnel is on its way. *)
Definition stacked (ex : list string) (ds : list cleanup) : Prop :=
  (forall e, DropExclusions e ∈ ds -> e = ex) /\ RevokeServed ∉ ds.
Lemma stacked_push c ex ds : stacked ex ds -> (forall e, c <> DropExclusions e) -> c <> RevokeServed -> stacked ex (c :: ds).
Proof. intros [H1 H2] Hc Hr. split; [intros e [He|He]%elem_of_cons; [by destruct (Hc e)|auto]|]. by intros [?|?]%elem_of_cons. Qed.

Lemma exclude_underlay_wp sts t : good sts [] t ->
  wp (exclude_underlay LookupHost cfg) (fun r t ds => good sts ds t /\ stacked r.2 ds) sts t [].
Proof.
  intros Hg. unfold exclude_underlay. apply wp_seq, wp_fallible; [done|]. clear t Hg. intros t r s Hg Hr.
  apply good_draw in Hg. unfold defaultGateway, host_os in Hr. destruct (h_draw (t_os t)) as [ok h]. cbn in Hg. injection Hr as <- <-.
  destruct ok; [|done..]. set (gw := h_gateway h). apply wp_seq, wp_put. set (t0 := with_t_gw _ _).
  assert (good sts [] t0) as Hg0 by (destruct Hg as [[] ?]; by split; [split|]). clearbody t0 gw. clear t h Hg.
  set (excluded := resolveExclusions _ _). apply wp_seq, wp_silent; [done|]. clear t0 Hg0. intros t Hg.
  apply wp_seq, wp_defer, wp_seq, wp_put, wp_seq, wp_defer. cbn [wp mret].
  assert (good sts [DropExclusions excluded] (with_os t (h_add excluded (t_os t)))) as Hg1.
  { apply (good_grows _ excluded); [by apply good_push|apply grows_add|]. intros p Hp. left. exists excluded. split; [by left|done]. }
  apply good_interfere in Hg1. split.
  - unfold goLive. change (addExclusionRoutes excluded gw (t_os t)) with (h_add excluded (t_os t)). set (t1 := interfere _ _ _) in *.
    apply (good_live _ _ _ gw) in Hg1. apply (good_grows _ (reserved (t_pe t1)) _ (with_pe t1 (live (t_pe t1) gw)) _ Hg1).
    + apply grows_fold. intros h p Hp. apply (grows_more [p]); [by intros q ->%list_elem_of_singleton|apply grows_exclude].
    + intros p Hp. right. left. split; [by left|]. by apply elem_of_reserved in Hp.
  - apply stacked_push; [|done|done]. split; [by intros e [[= ->]|Hx]%elem_of_cons; [|inversion Hx]|]. intros [Hx|Hx]%elem_of_cons; [done|inversion Hx].
Qed.

(** The entries read before the device exists are known still, or learned. *)
Definition known (be sts : list string) (t : TSh) : Prop := forall p, p ∈ be -> p ∈ sts \/ p ∈ dynamic (t_policy t).
Lemma known_interfere be sts t : known be sts t -> known be sts (interfere LookupHost cfg t).
Proof. intros Hk p Hp. destruct (Hk p Hp) as [?|?]; [auto|]. right. by apply interfere_dynamic. Qed.

Lemma good_device sts ds t : good sts ds t ->
  good sts (CloseDevice :: ds) (with_os t (h_set (t_os t) (h_routes (t_os t)) true ∅)).
Proof.
  intros Hg. apply (good_push _ CloseDevice) in Hg as [[C1 C2 C3 C4 C5 C6 C7 C8 C9 C10] Hs]. split; [|done]. split; cbn; auto.
  intros _. by left.
Qed.
Lemma good_split sts ds t g : good sts ds t -> h_device (t_os t) = true -> good sts ds (with_os t (h_set (t_os t) (h_routes (t_os t)) true g)).
Proof. intros [[C1 C2 C3 C4 C5 C6 C7 C8 C9 C10] Hs] Hd. split; [|done]. split; cbn; auto. done. Qed.

Lemma route_device_wp gw ex sts t ds : good sts ds t -> stacked ex ds ->
  wp (route_device LookupHost cfg gw) (fun _ t ds => good sts ds t /\ stacked ex ds /\ DropBypass ∈ ds) sts t ds.
Proof.
  intros Hg Hst. unfold route_device. apply wp_seq, wp_put.
  match goal with |- context [foldl seed ?p ?l] => destruct (seeds_frame p l) as [Hn Hd]; pose proof (good_policy _ _ _ (foldl seed p l) Hg Hn Hd) as Hg1; set (t1 := with_policy t (foldl seed p l)) in * end.
  clearbody t1. clear Hn Hd Hg t. apply wp_seq, wp_get, wp_seq, wp_get.
  assert (known (staticEntries (t_policy t1) ++ dynamicSnapshot (t_policy t1)) sts t1) as Hk.
  { intros p [Hp|Hp]%elem_of_app; [left; by rewrite (proj2 Hg1) in Hp|]. right. by apply elem_of_learned. }
  set (be := _ ++ _) in *. clearbody be.
  destruct (bool_decide (mode (t_policy t1) = modeInclude)); cbn [negb when_].
  - apply wp_seq. cbn [wp mret]. apply wp_seq, wp_attempt; [by auto|done|]. clear t1 Hg1 Hk. intros t Hg. apply wp_seq, wp_defer.
    apply wp_seq, (wp_attempt id id); [by auto|by apply good_device|]. clear t Hg. intros t Hg. unfold id.
    apply wp_seq, wp_silent; [by destruct t|]. clear t Hg. intros t Hg. apply wp_defer. split; [|split; [|by left]].
    + change (addInclusionRoutes be tunIP (t_os t)) with (h_addtun be (t_os t)).
      apply (good_grows _ []); [by apply good_push|apply grows_addtun|]. intros p Hp. inversion Hp.
    + by apply stacked_push; [apply stacked_push|..].
  - apply wp_seq. apply wp_seq. assert (wp (silent LookupHost cfg (addExclusionRoutes be gw)) (fun _ t ds' => ds' = ds /\ good sts (DropBypass :: ds) t) sts t1 ds) as Hx.
    { unfold wp, silent, call. split; [done|]. apply good_interfere in Hg1. apply known_interfere in Hk. revert Hg1 Hk. generalize (interfere LookupHost cfg t1). intros t Hg Hk.
      change (addExclusionRoutes be gw (t_os t)) with (h_add be (t_os t)). apply (good_grows _ be); [by apply good_push|apply grows_add|].
      intros p Hp. right. right. split; [by left|auto]. }
    unfold wp in Hx |- *. destruct (silent LookupHost cfg _ t1 ds) as [[[[]|e] t2] ds2]; [|done]. destruct Hx as [-> Hg]. cbn [defer]. clear t1 Hg1 Hk.
    apply wp_seq, wp_attempt; [by auto|done|]. clear t2 Hg. intros t Hg. apply wp_seq, wp_defer. apply good_device in Hg.
    apply wp_seq, (wp_attempt id id); [by auto|done|]. clear t Hg. intros t Hg. unfold id.
    apply wp_fallible; [by destruct t|]. clear t Hg. intros t r s Hg Hr.
    change (addSplitDefaultRoute tunIP (t_os t)) with
      (if h_device (t_os t) then
         let add h := h_set h (h_routes h) (h_device h) ({["0.0.0.0/1"; "128.0.0.0/1"]} ∪ h_tunroutes h) in h_try add add (t_os t)
       else (Err CallFailed, t_os t)) in Hr.
    destruct (h_device (t_os t)) eqn:Hd; [|injection Hr as <- <-; by destruct t]. unfold h_try in Hr.
    pose proof (good_draw _ _ _ Hg) as Hgd. assert (h_device (h_draw (t_os t)).2 = true) as Hdd by done.
    destruct (h_draw (t_os t)) as [ok h]. cbn in Hgd, Hdd. destruct ok; injection Hr as <- <-; [|done|].
    2:{ rewrite Hdd. exact (good_split _ _ _ _ Hgd Hdd). }
    split; [|split; [by apply stacked_push; [apply stacked_push|..]|right; by left]].
    rewrite Hdd. exact (good_split _ _ _ _ Hgd Hdd).
Qed.

Lemma good_flag sts c ds t s' :
  good sts ds t -> h_routes s' = h_routes (t_os t) -> h_device s' = h_device (t_os t) -> h_tunroutes s' = h_tunroutes (t_os t) -> h_kill s' = h_kill (t_os t) ->
  (h_noipv6 s' = h_noipv6 (t_os t) \/ c = EnableIPv6) -> (h_netstack s' = h_netstack (t_os t) \/ c = CloseNetstack) ->
  (h_dns s' = h_dns (t_os t) \/ c = ReleaseDNS) -> (h_served s' = h_served (t_os t) \/ c = RevokeServed) ->
  good sts (c :: ds) (with_os t s').
Proof.
  intros Hg R D T K V N Q U. apply (good_push _ c) in Hg as [[C1 C2 C3 C4 C5 C6 C7 C8 C9 C10] Hs]. split; [|done].
  split; cbn; rewrite ?R, ?D, ?T, ?K; auto.
  - destruct V as [->| ->]; [auto|]. intros _. by left.
  - destruct N as [->| ->]; [auto|]. intros _. by left.
  - destruct Q as [->| ->]; [auto|]. intros _. by left.
  - destruct U as [->| ->]; [auto|]. intros _. by left.
Qed.

(** A tunnel that is up. *)
Definition running (sts ex : list string) (tun : tunnel) (t : TSh) (ds : list cleanup) : Prop :=
  covered (KillSwitch cfg) sts ds t /\ staticEntries (t_policy t) = sts /\ excludedIPs tun = ex /\ killSwitch tun = KillSwitch cfg /\
  (forall e, DropExclusions e ∈ ds -> e = ex) /\ (RevokeServed ∈ ds -> servedSource tun <> "").

Lemma arm_all_wp ex Q sts t ds : good sts ds t ->
  (forall t, covered true sts ds t -> staticEntries (t_policy t) = sts -> Q tt t ds) ->
  wp (arm_all LookupHost cfg ex) Q sts t ds.
Proof.
  intros Hg HQ. unfold wp, arm_all, arm, armAllowlist. apply good_interfere in Hg. revert Hg. generalize (interfere LookupHost cfg t). clear t. intros t Hg.
  change (enableKillSwitch ?c ?b ?s) with (let allow := Some (list_to_set (c ++ b)) in
    h_try (fun h => h_lock h allow) (fun h => h_stick (s_lock (h_stuck h) allow) h) s). unfold h_try.
  apply good_draw in Hg. destruct (h_draw (t_os t)) as [ok h]. cbn in Hg. cbv zeta. destruct ok; [|exact Hg|exact (good_stick _ _ _ _ Hg)]. cbn.
  destruct Hg as [[C1 C2 C3 C4 C5 C6 C7 C8 C9 C10] Hs]. apply HQ; [|exact Hs]. split; cbn in *; auto. done.
Qed.

Definition carrying (sts ex : list string) (src : string) (t : TSh) (ds : list cleanup) : Prop :=
  good sts ds t /\ (forall e, DropExclusions e ∈ ds -> e = ex) /\ (RevokeServed ∈ ds -> src <> "").
Lemma carry_traffic_wp gw ex sts t ds : good sts ds t -> stacked ex ds -> DropBypass ∈ ds ->
  wp (carry_traffic LookupHost cfg gw) (carrying sts ex) sts t ds.
Proof.
  intros Hg Hst Hb. unfold carry_traffic. apply wp_seq, wp_silent; [done|]. clear t Hg. intros t Hg. apply wp_seq, wp_defer.
  assert (good sts (EnableIPv6 :: ds) (with_os t (disablePhysicalIPv6 (ifAlias gw) (t_os t)))) as Hg1.
  { change (disablePhysicalIPv6 (ifAlias gw) (t_os t)) with (h_best (fun h => h_flags h true (h_netstack h) (h_dns h) (h_served h)) (t_os t)).
    unfold h_best. destruct (h_draw (t_os t)) as [ok h] eqn:Hdr. assert (h = (h_draw (t_os t)).2) as -> by by rewrite Hdr. clear Hdr.
    destruct ok; apply good_flag; auto. }
  apply (stacked_push EnableIPv6) in Hst; [|done..]. apply (list_elem_of_further _ EnableIPv6) in Hb. revert Hg1. generalize (with_os t (disablePhysicalIPv6 (ifAlias gw) (t_os t))).
  generalize dependent (EnableIPv6 :: ds). clear t Hg ds. intros ds Hst Hb t Hg.
  apply wp_seq. unfold wp at 1. replace (v4Address tunIP) with (Some (map byte_of [10; 66; 0; 2])) by (by vm_compute).
  apply wp_seq, wp_attempt; [by auto|done|]. clear t Hg. intros t Hg. apply wp_seq, wp_put, wp_seq, wp_defer.
  set (t1 := with_nt _ true). assert (good sts (CloseNetstack :: ds) t1) as Hg1.
  { assert (good sts (CloseNetstack :: ds) (with_os t (h_flags (t_os t) (h_noipv6 (t_os t)) true (h_dns (t_os t)) (h_served (t_os t))))) as [[C1 C2 C3 C4 C5 C6 C7 C8 C9 C10] Hs]
      by (apply good_flag; auto).
    split; [|exact Hs]. split; auto. intros _. apply list_elem_of_lookup in Hb as [j Hj]. exists O, (S j). split; [lia|done]. }
  apply (stacked_push CloseNetstack) in Hst; [|done..]. generalize dependent (CloseNetstack :: ds). clearbody t1. clear t Hg Hb ds. intros ds Hst Hg.
  apply wp_seq, wp_attempt; [by auto|done|]. clear t1 Hg. intros t Hg. apply wp_seq, wp_defer. apply (stacked_push ReleaseDNS) in Hst; [|done..].
  apply (good_flag _ ReleaseDNS _ _ (h_flags (t_os t) (h_noipv6 (t_os t)) (h_netstack (t_os t)) true (h_served (t_os t)))) in Hg; auto.
  revert Hg. generalize (with_os t (h_flags (t_os t) (h_noipv6 (t_os t)) (h_netstack (t_os t)) true (h_served (t_os t)))).
  generalize dependent (ReleaseDNS :: ds). clear t ds. intros ds [He Hr] t Hg. destruct (ServeEgress cfg); [|done].
  apply wp_seq, wp_fallible; [done|]. clear t Hg. intros t r s Hg Hx.
  change (allowServedEgress (t_os t)) with
    (let '(r, h) := h_try (fun h => h_flags h (h_noipv6 h) (h_netstack h) (h_dns h) true)
       (fun h => let k := h_stuck h in h_stick (s_flags k (s_noipv6 k) (s_netstack k) (s_dns k) true) h) (t_os t) in (match r with Ok _ => Ok host_source | Err e => Err e end, h)) in Hx.
  unfold h_try in Hx. pose proof (good_draw _ _ _ Hg) as Hgd. destruct (h_draw (t_os t)) as [ok h]. cbn in Hgd. destruct ok; injection Hx as <- <-; [|done|exact (good_stick _ _ _ _ Hgd)].
  apply wp_seq, wp_defer. cbn [wp mret]. split; [|split; [|done]].
  - apply (good_flag _ RevokeServed _ (with_os t h)); auto.
  - intros e [Hx|Hx]%elem_of_cons; [done|auto].
Qed.

Lemma bring_up_wp t : clean (t_os t) -> t_nt t = false -> routesLive (t_pe t) = false ->
  exists ex, wp (bring_up LookupHost cfg) (running (staticEntries (t_policy t)) ex) (staticEntries (t_policy t)) t [].
Proof.
  intros (K1 & K2 & K3 & K4 & K5 & K6 & K7 & K8) Hn Hl. set (sts := staticEntries _).
  assert (good sts [] t) as Hg. { split; [|done]. split; rewrite ?K1, ?K2, ?K3, ?K4, ?K5, ?K6, ?K7, ?K8, ?Hn, ?Hl; done. }
  unfold bring_up. pose proof (exclude_underlay_wp sts t Hg) as H1. unfold wp, mbind in *.
  destruct (exclude_underlay _ _ t []) as [[[[gw ex]|e] t1] ds1]; [|by exists []]. destruct H1 as [Hg1 Hs1]. cbn in Hs1. exists ex.
  pose proof (route_device_wp gw ex sts t1 ds1 Hg1 Hs1) as H2. unfold wp in H2.
  destruct (route_device _ _ gw t1 ds1) as [[[[]|e] t2] ds2]; [|done]. destruct H2 as (Hg2 & Hs2 & Hb2).
  pose proof (carry_traffic_wp gw ex sts t2 ds2 Hg2 Hs2 Hb2) as H3. unfold wp in H3.
  destruct (carry_traffic _ _ gw t2 ds2) as [[[src|e] t3] ds3]; [|done]. destruct H3 as (Hg3 & He & Hr).
  destruct (KillSwitch cfg) eqn:Hk; cbn [when_]; unfold running; rewrite Hk; [|by destruct Hg3].
  assert (wp (arm_all LookupHost cfg ex) (fun _ t ds => covered true sts ds t /\ staticEntries (t_policy t) = sts /\ ds = ds3) sts t3 ds3) as H4
    by (apply arm_all_wp; auto).
  unfold wp in H4. destruct (arm_all _ _ ex t3 ds3) as [[[[]|e] t4] ds4]; [|done]. by destruct H4 as (? & ? & ->).
Qed.

Lemma covered_restack armed sts ds ds' t : covered armed sts ds t -> (forall c, c ∈ ds -> c ∈ ds') -> nt_ok ds' -> covered armed sts ds' t.
Proof.
  intros [C1 C2 C3 C4 C5 C6 C7 C8 C9 C10] Hi Hn. split; auto.
  - intros p Hp. destruct (C1 p Hp) as [(ex & He & Hx)|[[He Hx]|[He Hx]]]; eauto 8.
  - intros Hl. destruct (C10 Hl); auto.
Qed.
Lemma lift_covered sts ds t : covered true sts ds t -> covered false sts ds (call LookupHost cfg disableKillSwitch t).
Proof. intros Hc. unfold call. apply interfere_covered in Hc as []. by split. Qed.

(** [Close] runs the clean-ups a bring-up would, in its own order. *)
Definition close_stack (tun : tunnel) : list cleanup :=
  [ReleaseDNS; CloseNetstack; CloseDevice; EnableIPv6; DropExclusions (excludedIPs tun); DropExcluder; DropBypass].
Lemma Close_runs tun t :
  Close LookupHost cfg tun t =
  foldl (run_cleanup LookupHost cfg)
    (let t := if String.eqb (servedSource tun) "" then t else run_cleanup LookupHost cfg t RevokeServed in
     if killSwitch tun then call LookupHost cfg disableKillSwitch t else t) (close_stack tun).
Proof.
  unfold Close, close_stack. set (t0 := if String.eqb _ _ then t else _). set (t1 := if killSwitch tun then _ else t0).
  change (if String.eqb (servedSource tun) "" then t else run_cleanup LookupHost cfg t RevokeServed) with t0. cbv zeta.
  fold t1. clearbody t1. clear t0. cbn [foldl run_cleanup]. reflexivity.
Qed.

Lemma close_clean sts ex tun t ds : running sts ex tun t ds -> clean (t_os (Close LookupHost cfg tun t)).
Proof.
  intros (Hc & Hs & Hex & Hk & He & Hr). rewrite Close_runs. cbn zeta.
  assert (nt_ok (close_stack tun)) as Hn by (exists 1%nat, 6%nat; split; [lia|done]).
  assert (covered (KillSwitch cfg) sts (RevokeServed :: close_stack tun) t) as Hc1.
  { eapply covered_restack; [exact Hc| |by apply nt_ok_push]. intros c Hx. unfold close_stack. rewrite Hex.
    destruct c; try (rewrite (He _ Hx)); repeat (first [by left|right]). }
  set (t1 := if String.eqb _ _ then t else _).
  assert (covered (KillSwitch cfg) sts (close_stack tun) t1 /\ staticEntries (t_policy t1) = sts) as [Hc2 Hs1].
  { unfold t1. destruct (String.eqb_spec (servedSource tun) "") as [Hz|Hz]; [|split; [by apply cleanup_covered; [|intros p; by rewrite Hs]|by rewrite run_cleanup_static]].
    split; [|done]. eapply covered_restack; [exact Hc| |done]. intros c Hx. unfold close_stack. rewrite Hex.
    destruct c; try (rewrite (He _ Hx)); try (repeat (first [by left|right]); done). by destruct (Hr Hx). }
  rewrite Hk. apply (unwind sts).
  - destruct (KillSwitch cfg); [by apply lift_covered|done].
  - destruct (KillSwitch cfg); [|by rewrite Hs1]. unfold call. cbn. by rewrite (proj1 (interfere_frame t1)), Hs1.
Qed.
End Rollback.

(** ** What holds of every machine behind the interface *)

(** A property of machines that no call of the interface ends. *)
Class Kept {S : Type} `{osNet S} `{tunLib S} (I : S -> Prop) : Prop := {
  kept_gateway : forall s, I s -> I (defaultGateway s).2;
  kept_exclude : forall ps g s, I s -> I (addExclusionRoutes ps g s);
  kept_exclude6 : forall ps g s, I s -> I (addExclusionRoutesV6 ps g s);
  kept_include : forall ps n s, I s -> I (addInclusionRoutes ps n s);
  kept_remove : forall ps s, I s -> I (removeRoutes ps s);
  kept_create : forall s, I s -> I (createTUN s).2;
  kept_configure : forall a l s, I s -> I (configureTunInterface a l s).2;
  kept_split : forall a s, I s -> I (addSplitDefaultRoute a s).2;
  kept_ipv6 : forall a s, I s -> I (disablePhysicalIPv6 a s);
  kept_refresh : forall ip s, I s -> I (refreshKillSwitchAllowIP ip s);
  kept_dns : forall s, I s -> I (os_captureDNS s).2;
  kept_served : forall s, I s -> I (allowServedEgress s).2;
  kept_netstack : forall d s, I s -> I (startNetstack d s).2;
}.

Section Client.
Context {S : Type} `{osNet S} `{tunLib S} (I : S -> Prop) `{!Kept I}.
Context (LookupHost : string -> option (list string)) (cfg : Policy).

Definition keepsM {A} (m : M A) : Prop := forall (t : TS) ds, I (t_os t) -> I (t_os (m t ds).1.2).
Lemma fold_kept {A} (f : S -> A -> S) l s : (forall s x, I s -> I (f s x)) -> I s -> I (foldl f s l).
Proof. intros Hf. revert s. induction l as [|x l IH]; intros s Hs; [done|]. by apply IH, Hf. Qed.
Lemma excludeFn_kept g ip s : I s -> I (excludeFn g ip s).
Proof. intros Hs. unfold excludeFn. destruct (isIPv6Literal ip); [by apply kept_exclude6|by apply kept_exclude]. Qed.
Lemma happen_kept t e : I (t_os t) -> I (t_os (happen LookupHost cfg t e)).
Proof.
  intros Hs. destruct e as [ip|addr|]; cbn [happen].
  - destruct (t_nt t); [|done]. destruct (learn (t_policy t) ip) as [p [[key a]|]]; [|done]. cbn. unfold onLearn.
    assert (I (if decide (mode p = modeInclude) then addInclusionRoutes [key] tunIP (t_os t) else addExclusionRoutes [key] (t_gw t) (t_os t)))
      by (destruct (decide _); [by apply kept_include|by apply kept_exclude]).
    destruct (_ && _); [by apply kept_refresh|done].
  - unfold reserve. destruct (_ ++ _) as [|i0 ips]; [done|]. destruct (reserve_record _ _) as [pe [[[g a] l]|]]; [|done]. cbn.
    apply fold_kept; [|done]. intros s x Hx. pose proof (excludeFn_kept g x s Hx). destruct a; [by apply kept_refresh|done].
  - destruct (gwRefreshing _); [|done]. pose proof (kept_gateway (t_os t) Hs). by destruct (defaultGateway (t_os t)).
Qed.
Lemma interfere_kept t : I (t_os t) -> I (t_os (interfere LookupHost cfg t)).
Proof.
  unfold interfere. change (t_os t) with (t_os (with_env t (tail (t_env t)))). generalize (with_env t (tail (t_env t))).
  induction (default [] (head (t_env t))) as [|e l IH]; intros t' Ht'; [done|]. cbn. by apply IH, happen_kept.
Qed.
Lemma keepsM_bind {A B} (m : M A) (k : A -> M B) : keepsM m -> (forall a, keepsM (k a)) -> keepsM (mbind m k).
Proof.
  intros Hm Hk t ds Ht. unfold mbind. specialize (Hm t ds Ht). destruct (m t ds) as [[[a|e] t1] ds1]; [by apply Hk|done].
Qed.
Lemma keepsM_put f : (forall t, I (t_os t) -> I (t_os (f t))) -> keepsM (put f).
Proof. intros Hf t ds Ht. by apply Hf. Qed.
Lemma keepsM_silent f : (forall s, I s -> I (f s)) -> keepsM (silent LookupHost cfg f).
Proof. intros Hf t ds Ht. cbn. by apply Hf, interfere_kept. Qed.
Lemma keepsM_fallible {A} (f : S -> result Failure A * S) : (forall s, I s -> I (f s).2) -> keepsM (fallible LookupHost cfg f).
Proof.
  intros Hf t ds Ht. unfold fallible. apply interfere_kept in Ht. specialize (Hf _ Ht). by destruct (f _).
Qed.
Lemma keepsM_pure {A} (f : TS -> list cleanup -> result Failure A) (g : list cleanup -> list cleanup) : keepsM (fun t ds => (f t ds, t, g ds)).
Proof. by intros t ds Ht. Qed.

Ltac kept_step :=
  lazymatch goal with
  | |- keepsM (mbind _ _) => apply keepsM_bind; [|intros ?]
  | |- keepsM (silent _ _ _) => apply keepsM_silent; intros ?
  | |- keepsM (fallible _ _ _) => apply keepsM_fallible; intros ?
  | |- keepsM (put _) => apply keepsM_put; intros ? ?; try done
  | |- keepsM (if ?b then _ else _) => destruct b
  | |- keepsM (when_ ?b _) => unfold when_; destruct b
  | |- keepsM _ => by intros ? ? ?
  end.
Lemma exclude_underlay_kept : keepsM (exclude_underlay LookupHost cfg).
Proof.
  unfold exclude_underlay. repeat kept_step; try first [apply kept_gateway|apply kept_exclude].
  unfold goLive. cbn. apply fold_kept; [intros s x; apply excludeFn_kept|by apply interfere_kept].
Qed.
Lemma route_device_kept g : keepsM (route_device LookupHost cfg g).
Proof. unfold route_device. repeat kept_step; first [apply kept_exclude|apply kept_create|apply kept_configure|apply kept_include|apply kept_split]. Qed.
Lemma carry_traffic_kept g : keepsM (carry_traffic LookupHost cfg g).
Proof. unfold carry_traffic. repeat kept_step; first [apply kept_ipv6|apply kept_netstack|apply kept_dns|apply kept_served]. Qed.

Lemma mbind_Ok {A B} (m : M (S := S) A) (k : A -> M (S := S) B) (t : TS) ds b t' ds' :
  mbind m k t ds = (Ok b, t', ds') -> exists a t1 ds1, m t ds = (Ok a, t1, ds1) /\ k a t1 ds1 = (Ok b, t', ds').
Proof. unfold mbind. destruct (m t ds) as [[[a|e] t1] ds1]; [|done]. eauto. Qed.
Lemma keepsM_use {A} (m : M (S := S) A) t ds a t1 ds1 : keepsM m -> m t ds = (a, t1, ds1) -> I (t_os t) -> I (t_os t1).
Proof. intros Hm He Ht. specialize (Hm t ds Ht). by rewrite He in Hm. Qed.

(** Arming is the last thing a bring-up does, with what is reserved and learned by then. *)
Lemma start_arms_last t tun t' : I (t_os t) -> startTunnel LookupHost cfg t = (Ok tun, t') -> KillSwitch cfg = true ->
  exists s0, I s0 /\
    enableKillSwitch (excludedIPs tun ++ reserved (t_pe t')) (staticEntries (t_policy t') ++ dynamicSnapshot (t_policy t')) s0 = (Ok tt, t_os t').
Proof.
  intros Hi Hs Hk. unfold startTunnel in Hs. destruct (bring_up LookupHost cfg t []) as [[[tun'|e] t1] ds1] eqn:Hb; [|done].
  injection Hs as <- <-. unfold bring_up in Hb.
  apply mbind_Ok in Hb as ([g ex] & t2 & ds2 & H1 & Hb). apply (keepsM_use _ _ _ _ _ _ exclude_underlay_kept H1) in Hi.
  apply mbind_Ok in Hb as ([] & t3 & ds3 & H2 & Hb). apply (keepsM_use _ _ _ _ _ _ (route_device_kept g) H2) in Hi.
  apply mbind_Ok in Hb as (src & t4 & ds4 & H3 & Hb). apply (keepsM_use _ _ _ _ _ _ (carry_traffic_kept g) H3) in Hi.
  rewrite Hk in Hb. apply mbind_Ok in Hb as ([] & t5 & ds5 & H4 & [= <- <- <-]). cbn [when_ excludedIPs] in *.
  unfold arm_all, arm, armAllowlist in H4. apply interfere_kept in Hi. exists (t_os (interfere LookupHost cfg t4)). split; [done|].
  destruct (enableKillSwitch _ _ _) as [[[]|e] s1] eqn:He; [|done]. injection H4 as <- <-. exact He.
Qed.

(** ** What no call ends, the calls that undo included *)

Class Undoes : Prop := {
  un_arm : forall c b s, I s -> I (enableKillSwitch c b s).2;
  un_kill : forall s, I s -> I (disableKillSwitch s);
  un_ipv6 : forall a s, I s -> I (enablePhysicalIPv6 a s);
  un_dns : forall s, I s -> I (os_releaseDNS s);
  un_served : forall s, I s -> I (os_revokeServedEgress s);
  un_device : forall s, I s -> I (devClose s);
  un_netstack : forall s, I s -> I (ntClose s);
}.
Context `{!Undoes}.

Lemma call_kept f t : (forall s, I s -> I (f s)) -> I (t_os t) -> I (t_os (call LookupHost cfg f t)).
Proof. intros Hf Ht. unfold call. cbn. by apply Hf, interfere_kept. Qed.
Lemma run_cleanup_kept t c : I (t_os t) -> I (t_os (run_cleanup LookupHost cfg t c)).
Proof.
  intros Ht. destruct c; cbn [run_cleanup with_nt t_os]; unfold call; cbn [with_os with_nt t_os];
    repeat first [apply kept_remove|apply un_device|apply un_ipv6|apply un_netstack|apply un_dns|apply un_served|apply interfere_kept|progress cbn [with_os with_nt with_pe t_os]]; done.
Qed.
Lemma arm_all_kept ex : keepsM (arm_all LookupHost cfg ex).
Proof.
  intros t ds Ht. unfold arm_all, arm, armAllowlist. apply (interfere_kept t) in Ht. revert Ht. generalize (interfere LookupHost cfg t). clear t. intros t Ht.
  pose proof (un_arm (ex ++ reserved (t_pe t)) (staticEntries (t_policy t) ++ dynamicSnapshot (t_policy t)) (t_os t) Ht) as Ha.
  by destruct (enableKillSwitch _ _ _) as [[[]|e] s1].
Qed.
Lemma bring_up_kept : keepsM (bring_up LookupHost cfg).
Proof.
  unfold bring_up. apply keepsM_bind; [apply exclude_underlay_kept|intros [g ex]].
  apply keepsM_bind; [apply route_device_kept|intros _]. apply keepsM_bind; [apply carry_traffic_kept|intros src].
  apply keepsM_bind; [|intros _; by intros ? ? ?]. unfold when_. destruct (KillSwitch cfg); [apply arm_all_kept|by intros ? ? ?].
Qed.
Lemma start_kept t : I (t_os t) -> I (t_os (startTunnel LookupHost cfg t).2).
Proof.
  intros Ht. unfold startTunnel. pose proof (bring_up_kept t [] Ht) as Hb.
  destruct (bring_up LookupHost cfg t []) as [[[tun|e] t1] ds]; cbn [fst snd] in *; [done|].
  revert t1 Hb. induction ds as [|c ds IH]; intros t1 Hb; [done|]. cbn [foldl]. by apply IH, run_cleanup_kept.
Qed.
Lemma Close_kept tun t : I (t_os t) -> I (t_os (Close LookupHost cfg tun t)).
Proof.
  intros Ht. unfold Close. apply run_cleanup_kept, run_cleanup_kept. apply call_kept; [intros; by apply kept_remove|].
  apply call_kept; [intros; by apply un_ipv6|]. apply call_kept; [intros; by apply un_device|]. cbn [with_nt t_os].
  apply call_kept; [intros; by apply un_netstack|]. apply call_kept; [intros; by apply un_dns|].
  destruct (killSwitch tun); [apply call_kept; [intros; by apply un_kill|]|];
    (destruct (String.eqb _ _); [done|apply call_kept; [intros; by apply un_served|done]]).
Qed.
End Client.

(** ** What a tunnel leaves behind *)

(** A machine with nothing stuck whose calls behave. *)
Definition orderly (h : Host) : Prop := h_stuck h = nothing_stuck /\ well_behaved h.
Lemma orderly_draw h : orderly h -> (h_draw h).1 <> FailsLate /\ orderly (h_draw h).2.
Proof.
  intros (Hk & Hf & Hu). unfold h_draw, orderly, well_behaved. cbn. destruct (h_fates h) as [|x l]; cbn; [done|].
  by apply Forall_cons in Hf as [Hx Hl].
Qed.
Lemma orderly_try f late h : (forall h, orderly h -> orderly (f h)) -> orderly h -> orderly (h_try f late h).2.
Proof. intros Hf Hh. apply orderly_draw in Hh as [Hx Hh]. unfold h_try. destruct (h_draw h) as [[] h']; cbn in *; [by apply Hf|done|done]. Qed.
Lemma orderly_best f h : (forall h, orderly h -> orderly (f h)) -> orderly h -> orderly (h_best f h).
Proof. intros Hf Hh. apply orderly_draw in Hh as [Hx Hh]. unfold h_best. destruct (h_draw h) as [[] h']; cbn in *; [by apply Hf|done|done]. Qed.
Lemma orderly_add ps h : orderly h -> orderly (h_add ps h).
Proof. intros Hh. apply (fold_kept orderly); [|done]. intros h' p Hh'. by apply orderly_best. Qed.
Lemma orderly_addtun ps h : orderly h -> orderly (h_addtun ps h).
Proof. intros Hh. apply (fold_kept orderly); [|done]. intros h' p Hh'. apply orderly_best; [|done]. intros h2 H2. by destruct (h_device h2). Qed.
Lemma orderly_take f gone kept h : (forall h, orderly h -> orderly (f h)) -> gone h = nothing_stuck -> orderly h -> orderly (h_take f gone kept h).
Proof.
  intros Hf Hg Hh. destruct (Hf h Hh) as (_ & Hfa & _). destruct Hh as (_ & _ & Hu). unfold h_take, orderly, well_behaved. cbn.
  destruct (h_undo h) as [|ok l]; cbn; [done|]. apply Forall_cons in Hu as [-> Hl]. done.
Qed.
Lemma leftover_all us ps m : Forall (fun ok => ok = true) us -> leftover us ps m = m ∖ list_to_set ps.
Proof.
  revert us m. induction ps as [|p ps IH]; intros us m Hu; cbn [leftover]; [set_solver|].
  rewrite IH by (destruct us; [done|by apply Forall_cons in Hu as [_ Hu]]).
  assert (default true (head us) = true) as -> by (destruct us; [done|by apply Forall_cons in Hu as [-> _]]). cbn. set_solver.
Qed.
Lemma orderly_remove ps h : orderly h -> orderly (h_remove ps h).
Proof.
  intros (Hk & Hf & Hu). unfold h_remove, orderly, well_behaved. cbn. split_and!; [|done|by apply Forall_drop].
  rewrite Hk, !leftover_all by done. cbn. unfold s_set, nothing_stuck. cbn. f_equal; set_solver.
Qed.
#[local] Instance orderly_kept : Kept orderly.
Proof.
  split.
  - intros s Hs. change (defaultGateway s).2 with (h_draw s).2. by apply orderly_draw.
  - intros ps g s. apply orderly_add.
  - intros ps g s Hs. change (orderly (if String.eqb (nextHopV6 g) "" then s else h_add ps s)). destruct (String.eqb _ _); [done|by apply orderly_add].
  - intros ps n s. apply orderly_addtun.
  - intros ps s. apply orderly_remove.
  - intros s. by apply orderly_try.
  - intros a l s. by apply orderly_try.
  - intros a s Hs. change (orderly (if h_device s then
      let add h := h_set h (h_routes h) (h_device h) ({["0.0.0.0/1"; "128.0.0.0/1"]} ∪ h_tunroutes h) in h_try add add s else (Err CallFailed, s)).2).
    destruct (h_device s); [|done]. by apply orderly_try.
  - intros a s. by apply orderly_best.
  - intros ip s Hs. apply orderly_best; [|done]. intros h (Hk & Hb). by split; [cbn; rewrite Hk|].
  - intros s. by apply orderly_try.
  - intros s Hs. change (allowServedEgress s) with
      (let '(r, h) := h_try (fun h => h_flags h (h_noipv6 h) (h_netstack h) (h_dns h) true)
         (fun h => let k := h_stuck h in h_stick (s_flags k (s_noipv6 k) (s_netstack k) (s_dns k) true) h) s in (match r with Ok _ => Ok host_source | Err e => Err (A:=string) e end, h)).
    pose proof (orderly_try (fun h => h_flags h (h_noipv6 h) (h_netstack h) (h_dns h) true)
         (fun h => let k := h_stuck h in h_stick (s_flags k (s_noipv6 k) (s_netstack k) (s_dns k) true) h) s ltac:(done) Hs) as Ho.
    by destruct (h_try _ _ s) as [r h].
  - intros d s. by apply orderly_try.
Qed.
#[local] Instance orderly_undoes : Undoes orderly.
Proof.
  split; try (intros; apply orderly_take; [done| |done]; match goal with H : orderly _ |- _ => destruct H as [-> _] end; done).
  intros c b s. by apply orderly_try.
Qed.

(** C9: Nothing of a tunnel is left behind but what a call has failed to take back, or has
    done and reported as failed. On a machine with no tunnel, whatever calls fail, those
    that undo included, and whatever the netstack learns and the transports dial meanwhile:
    after a bring-up that fails, and after the [Close] of one that came up, whatever was
    learned and dialed until then, all that is on the machine of the tunnel is stuck; and
    when no call that undoes fails, and none fails after it has happened, that is nothing,
    no route, no device, no filter and no setting changed. *)
Theorem tunnel_leaves_nothing LookupHost cfg (t : TS (S := Host)) :
  on_machine (t_os t) = nothing_stuck -> t_nt t = false -> routesLive (t_pe t) = false ->
  let left_by h := on_machine h = h_stuck h /\ (well_behaved (t_os t) -> on_machine h = nothing_stuck) in
  match startTunnel LookupHost cfg t with
  | (Err _, t') => left_by (t_os t')
  | (Ok tun, t') => forall env, left_by (t_os (Close LookupHost cfg tun (with_env t' env)))
  end.
Proof.
  intros [Hc Hk]%nothing_clean Hn Hl. cbv zeta. destruct (bring_up_wp LookupHost cfg t Hc Hn Hl) as [ex Hw].
  pose proof (fun Hw => start_kept orderly LookupHost cfg t (conj Hk Hw)) as Ho.
  assert (forall h, clean h -> (well_behaved (t_os t) -> orderly h) -> on_machine h = h_stuck h /\ (well_behaved (t_os t) -> on_machine h = nothing_stuck)) as Hleft.
  { intros h Hh Hb. rewrite (clean_stuck h Hh). split; [done|]. intros Hw'. by destruct (Hb Hw'). }
  unfold wp in Hw. unfold startTunnel in *. destruct (bring_up LookupHost cfg t []) as [[[tun|e] t'] ds].
  - intros env. apply Hleft; [|intros Hb; apply Close_kept; [apply _|apply _|by apply Ho]].
    apply (close_clean _ _ (staticEntries (t_policy t)) ex tun _ ds). destruct Hw as ([] & Hw). split; [|exact Hw]. by split.
  - destruct Hw as [Hw Hs]. apply Hleft; [|done]. apply (unwind _ _ (staticEntries (t_policy t)) ds); [done|]. intros p. by rewrite Hs.
Qed.

Module HostDemo.
Definition lookup (h : string) : option (list string) := if String.eqb h "news.example" then Some ["198.51.100.9"] else None.
Definition cfg : Policy :=
  MkPolicyCfg ["203.0.113.5:3478"] "stun:203.0.113.6:3478" "" "9.9.9.9" ["news.example"; "192.0.2.0/24"] "exclude" true true.
Definition machine (fates : list CallFate) (undo : list bool) : Host :=
  MkHost ∅ false ∅ false false false false None (Enforce.MkGateway "192.168.0.1" 2 "eth0" "") fates undo nothing_stuck.
Definition start (fates : list CallFate) (undo : list bool) : TS :=
  MkTS (newBypassPolicy "" (pol_Bypass cfg)) newPoolExcluder (Enforce.MkGateway "" 0 "" "") false [[EvReserve "203.0.113.77:443"]] (machine fates undo).
(** The tunnel up, and what is learned and dialed while it is taken down. *)
Definition up : result Failure tunnel * TS := startTunnel lookup cfg (start [] []).
Definition later : list (list Event) := [[EvLearn (map byte_of [198; 51; 100; 10]); EvReserve "203.0.113.78:443"]].
(** The tunnel taken down, with calls that undo failing. *)
Definition down (undo : list bool) : Stuck :=
  match startTunnel lookup cfg (start [] undo) with
  | (Ok tun, t) => on_machine (t_os (Close lookup cfg tun (with_env t later)))
  | (Err _, t) => on_machine (t_os t)
  end.
End HostDemo.

(** The first call of [Close] that fails leaves its own behind: the carve-out of the served
    egress, the filter; a reply to the arming that comes too late leaves the filter. *)
Example stuck_undoings :
  HostDemo.down [] = nothing_stuck /\ s_served (HostDemo.down [false]) = true /\
  is_Some (s_kill (HostDemo.down [true; false])) /\ s_kill (HostDemo.down [false]) = None.
Proof. vm_compute. split_and!; try done. by eexists. Qed.

Lemma tunnel_leaves_nothing_witness :
  (exists tun, fst HostDemo.up = Ok tun) /\ h_device (t_os (snd HostDemo.up)) = true /\
  match HostDemo.up with
  | (Err _, t') => on_machine (t_os t') = nothing_stuck
  | (Ok tun, t') => forall env, on_machine (t_os (Close HostDemo.lookup HostDemo.cfg tun (with_env t' env))) = nothing_stuck
  end.
Proof.
  split; [vm_compute; by eexists|]. split; [by vm_compute|].
  pose proof (tunnel_leaves_nothing HostDemo.lookup HostDemo.cfg (HostDemo.start [] [])
    (ltac:(by vm_compute)) (ltac:(by vm_compute)) (ltac:(by vm_compute))) as H. cbv zeta in H. unfold HostDemo.up.
  assert (well_behaved (t_os (HostDemo.start [] []))) as Hb by (split; constructor).
  destruct (startTunnel _ _ _) as [[tun|e] t']; [intros env; exact (proj2 (H env) Hb)|exact (proj2 H Hb)].
Defined.
