(* ===== verification/LinuxOS.v ===== *)
(** * Enforcement through the helper: [osnet_linux.go], [enforcement_linux.go]

    The machine of [Tunnel]'s interface on Linux: every call is a request to the privileged
    helper of [Netd] over one connection, and a reply read within five seconds. A reply
    that comes later stays in the connection, where the next request's reader finds it:
    [c_pending]. What the outside does in each exchange is a [Move]. [Start] is the
    enforcer's, around [startTunnel]. *)

From S2P Require Import ASN.
From S2P Require Import Prelude GoStrings Net GeoIP Nft NetWire Netd NetdSafety Enforce Tunnel.
Local Open Scope Z_scope.

(** What happens in one exchange: whether the socket can be dialed, what the helper finds
    and which of its calls work, whether it can write its reply, whether the reply comes in
    time; and of the client's libraries, whether the device can be wrapped and the
    netstack started. *)
Record Move := MkMove { m_dial : bool; m_facts : Facts; m_fates : list bool; m_writes : bool; m_timely : bool; m_lib : bool }.
Record Conn := MkConn { c_pending : list Reply; c_open : bool }.
Record Linux := MkLinux { l_world : World; l_conn : option Conn; l_token : string; l_tun : Z; l_clock : nat }.

Section LinuxOS.
Context (uid : Z) (moves : nat -> Move).

Definition move (s : Linux) : Move := moves (l_clock s).
Definition with_world (s : Linux) (w : World) (c : option Conn) : Linux := MkLinux w c (l_token s) (l_tun s) (S (l_clock s)).

Definition received (req : Request) : result Code Request :=
  match validate req with
  | Ok _ => Ok req
  | Err (Protocol c) => Err c
  | Err _ => Err CodeBadRequest
  end.
(** [roundTrip] on an open connection. *)
Definition roundTrip (c : Conn) (req : Request) (s : Linux) : result Failure Reply * Linux :=
  if negb (c_open c) then (Err CallFailed, with_world s (l_world s) (l_conn s))
  else
    let m := move s in
    let '(w, a) := serve (l_world s) (EvRequest uid (received req) (m_facts m) (m_writes m)) (m_fates m) in
    let answer := match a with Some (Sent r) => [r] | _ => [] end in
    let still := match a with Some (Sent _) => true | _ => false end in
    match c_pending c with
    | q :: rest => (Ok q, with_world s w (Some (MkConn (rest ++ answer) still)))
    | [] =>
        match answer with
        | [r] => if m_timely m then (Ok r, with_world s w (Some (MkConn [] still)))
                 else (Err CallFailed, with_world s w (Some (MkConn [r] still)))
        | _ => (Err CallFailed, with_world s w (Some (MkConn [] still)))
        end
    end.
(** The helper learns of a connection's end, unless it ended it. *)
Definition hang_up (c : Conn) (s : Linux) : Linux :=
  if c_open c then with_world s (serve (l_world s) (EvGone uid) (m_fates (move s))).1 None else with_world s (l_world s) None.

Definition request (verb : string) (tok : string) : Request := MkRequest Version verb tok [] [] [] "" 0 "".
Definition refusal (r : Reply) : result Failure unit := match Err_ r with Ok _ => Ok tt | Err c => Err (Refused c) end.
Definition translateRefusal (e : Failure) : Failure :=
  match e with
  | Refused (Some CodeBusy) => ErrHelperBusy
  | Refused (Some CodeVersion) => ErrHelperVersion
  | Refused (Some CodeDenied) => ErrHelperUnreachable
  | _ => e
  end.

(** A peer the helper does not let in is refused as one that cannot reach it. *)
Definition connect (s : Linux) : result Failure unit * Linux :=
  match l_conn s with
  | Some _ => (Ok tt, s)
  | None =>
      if negb (m_dial (move s)) then (Err ErrHelperUnreachable, with_world s (l_world s) None)
      else
        let '(r, s1) := roundTrip (MkConn [] true) (request VerbOpen "") s in
        let c := default (MkConn [] false) (l_conn s1) in
        match r with
        | Err _ => (Err ErrHelperUnreachable, hang_up c s1)
        | Ok rep =>
            match refusal rep with
            | Err e => (Err (translateRefusal e), hang_up c s1)
            | Ok _ => (Ok tt, MkLinux (l_world s1) (l_conn s1) (r_Token rep) (l_tun s1) (l_clock s1))
            end
        end
  end.
Definition close (s : Linux) : Linux :=
  match l_conn s with
  | None => MkLinux (l_world s) None "" (l_tun s) (l_clock s)
  | Some c =>
      let tok := l_token s in
      let s := MkLinux (l_world s) None "" (l_tun s) (l_clock s) in
      let '(_, s) := roundTrip c (request VerbClose tok) s in
      hang_up (default c (l_conn s)) s
  end.
(** [do]: a request of the session, and the helper's refusal as an error. *)
Definition do_ (req : string -> Request) (s : Linux) : result Failure Reply * Linux :=
  match l_conn s with
  | None => (Err ErrHelperUnreachable, s)
  | Some c =>
      let '(r, s) := roundTrip c (req (l_token s)) s in
      (match r with Ok rep => match refusal rep with Ok _ => Ok rep | Err e => Err e end | Err e => Err e end, s)
  end.
Definition silent_ (req : string -> Request) (s : Linux) : Linux := (do_ req s).2.
Definition done_ (x : result Failure Reply * Linux) : result Failure unit * Linux :=
  (match x.1 with Ok _ => Ok tt | Err e => Err e end, x.2).

Definition with_prefixes (verb : string) (ps : list string) (tok : string) : Request := MkRequest Version verb tok ps [] [] "" 0 "".
Definition routes_request (verb : string) (ps : list string) (s : Linux) : Linux :=
  match ps with [] => s | _ => silent_ (with_prefixes verb ps) s end.

(** The reply with the device's descriptor is read as one message, all that is there. *)
Definition create_tun (s : Linux) : result Failure unit * Linux :=
  match l_conn s with
  | None => (Err ErrHelperUnreachable, s)
  | Some c =>
      let lib := m_lib (move s) in
      let tun := f_tun (m_facts (move s)) in
      let '(r, s) := roundTrip (MkConn (match c_pending c with q :: _ => [q] | [] => [] end) (c_open c)) (request VerbCreateTUN (l_token s)) s in
      match (match c_pending c with _ :: _ :: _ => Err CallFailed | _ => r end) with
      | Err e => (Err e, s)
      | Ok rep =>
          match refusal rep with
          | Err e => (Err (translateRefusal e), s)
          | Ok _ =>
              if negb (r_TUNCreated rep) then (Err NoDescriptor, s)
              else if lib then (Ok tt, MkLinux (l_world s) (l_conn s) (l_token s) (default 0 tun) (l_clock s))
              else (Err CallFailed, s)
          end
      end
  end.
Definition default_gateway (s : Linux) : result Failure Enforce.gatewayInfo * Linux :=
  let '(r, s) := do_ (request VerbDefaultGateway) s in
  (match r with
   | Err e => Err e
   | Ok rep => match r_Gateway rep with
               | None => Err NoGateway
               | Some g => Ok (Enforce.MkGateway (g_NextHop g) (g_IfIndex g) (g_IfAlias g) (g_NextHopV6 g))
               end
   end, s).
Definition allow_served (s : Linux) : result Failure string * Linux :=
  let '(r, s) := do_ (request VerbAllowServedEgress) s in
  (match r with
   | Err e => Err e
   | Ok rep => if String.eqb (r_ServedSource rep) "" then Err NoSource else Ok (r_ServedSource rep)
   end, s).

#[export] Instance linux_os : osNet Linux := {|
  defaultGateway := default_gateway;
  addExclusionRoutes ps _ := routes_request VerbAddExclusionRoutes ps;
  addExclusionRoutesV6 ps _ := routes_request VerbAddExclusionRoutesV6 ps;
  addInclusionRoutes ps _ := routes_request VerbAddInclusionRoutes ps;
  removeRoutes ps := routes_request VerbRemoveRoutes ps;
  createTUN := create_tun;
  configureTunInterface a l s := done_ (do_ (fun tok => MkRequest Version VerbConfigureTUN tok [] [] [] a l "") s);
  addSplitDefaultRoute a s := done_ (do_ (fun tok => MkRequest Version VerbAddSplitDefaultRoute tok [] [] [] a 0 "") s);
  disablePhysicalIPv6 _ := silent_ (request VerbDisablePhysicalIPv6);
  enablePhysicalIPv6 _ := silent_ (request VerbEnablePhysicalIPv6);
  enableKillSwitch control bypass s := done_ (do_ (fun tok => MkRequest Version VerbEnableKillSwitch tok [] control bypass "" 0 "") s);
  disableKillSwitch := silent_ (request VerbDisableKillSwitch);
  recoverKillSwitch := silent_ (request VerbRecoverKillSwitch);
  refreshKillSwitchAllowIP ip := silent_ (fun tok => MkRequest Version VerbRefreshAllowIP tok [] [] [] "" 0 ip);
  os_captureDNS s := done_ (do_ (request VerbCaptureDNS) s);
  os_releaseDNS := silent_ (request VerbReleaseDNS);
  allowServedEgress := allow_served;
  os_revokeServedEgress := silent_ (request VerbRevokeServedEgress);
|}.
(** Closing the device deletes it, and with it its routes and addresses. *)
Definition drop_device (i : Z) (k : Kernel) : Kernel :=
  set_routes (set_link k (filter (fun a => a.1 <> i) (k_addrs k)) (filter (fun j => j <> i) (k_up k)))
    (filter (fun r => rt_OutIface r.2 <> i) (k_routes k)).
#[export] Instance linux_lib : tunLib Linux := {|
  devClose s := with_world s (MkWorld (w_sess (l_world s)) (drop_device (l_tun s) (w_kernel (l_world s)))) (l_conn s);
  startNetstack _ s := (if m_lib (move s) then Ok tt else Err CallFailed, with_world s (l_world s) (l_conn s));
  ntClose s := s;
|}.

(** ** [linuxEnforcer] *)

Record linuxEnforcer := MkEnforcer { e_pe : option poolExcluder; servedSrc : string; e_os : Linux }.
Definition excluder (e : linuxEnforcer) : poolExcluder := default newPoolExcluder (e_pe e).
(** [Recover] lifts the lockdown a crashed session left. *)
Definition Recover (e : linuxEnforcer) : linuxEnforcer :=
  match connect (e_os e) with
  | (Err _, s) => MkEnforcer (e_pe e) (servedSrc e) s
  | (Ok _, s) => MkEnforcer (e_pe e) (servedSrc e) (close (recoverKillSwitch s))
  end.
Definition ReserveUnderlay (LookupHost : string -> option (list string)) (cfg : Policy) (e : linuxEnforcer) (addr : string) : linuxEnforcer :=
  let t := reserve LookupHost addr (MkTS (newBypassPolicy "" []) (excluder e) (Enforce.MkGateway "" 0 "" "") false [] (e_os e)) in
  MkEnforcer (Some (t_pe t)) (servedSrc e) (t_os t).
(** [Start] with what happens meanwhile; its session is the tunnel and its state. *)
Definition Start (LookupHost : string -> option (list string)) (cfg : Policy) (env : list (list Event)) (e : linuxEnforcer)
    : result Failure (tunnel * TS) * linuxEnforcer :=
  match connect (e_os e) with
  | (Err x, s) => (Err x, MkEnforcer (e_pe e) (servedSrc e) s)
  | (Ok _, s) =>
      match startTunnel LookupHost cfg (MkTS (newBypassPolicy (BypassMode cfg) (pol_Bypass cfg)) (excluder e) (Enforce.MkGateway "" 0 "" "") false env s) with
      | (Err x, t) => (Err x, MkEnforcer None (servedSrc e) (close (t_os t)))
      | (Ok tun, t) => (Ok (tun, t), MkEnforcer (Some (t_pe t)) (servedSource tun) (t_os t))
      end
  end.
(** [linuxSession.Close], once; the excluder is the enforcer's own unless another session
    replaced it. *)
Definition SessionClose (LookupHost : string -> option (list string)) (cfg : Policy) (tun : tunnel) (t : TS) (same : bool) (e : linuxEnforcer) : linuxEnforcer :=
  let t := Close LookupHost cfg tun t in
  MkEnforcer (if same then None else e_pe e) "" (close (t_os t)).
End LinuxOS.

(** ** Replies in time stay with their requests *)

Section InSync.
Context (uid : Z) (moves : nat -> Move) (Htimely : forall n, m_timely (moves n) = true).

Definition in_sync (s : Linux) : Prop := match l_conn s with Some c => c_pending c = [] | None => True end.
Lemma roundTrip_sync c req s : c_pending c = [] -> in_sync s -> in_sync (roundTrip uid moves c req s).2.
Proof.
  intros Hp Hs. unfold roundTrip. destruct (negb (c_open c)); [exact Hs|].
  destruct (serve _ _ _) as [w [[r| |]|]]; rewrite Hp; cbn; try done. unfold move. by rewrite Htimely.
Qed.
Lemma do_sync req s : in_sync s -> in_sync (do_ uid moves req s).2.
Proof.
  intros Hs. unfold do_. unfold in_sync in Hs. destruct (l_conn s) as [c|] eqn:Hc; [|cbn; unfold in_sync; by rewrite Hc].
  pose proof (roundTrip_sync c (req (l_token s)) s Hs) as Hr. destruct (roundTrip _ _ _ _ _). apply Hr. unfold in_sync. by rewrite Hc.
Qed.
Lemma silent_sync req s : in_sync s -> in_sync (silent_ uid moves req s).
Proof. apply do_sync. Qed.
Lemma done_sync req s : in_sync s -> in_sync (done_ (do_ uid moves req s)).2.
Proof. apply do_sync. Qed.
Lemma routes_sync v ps s : in_sync s -> in_sync (routes_request uid moves v ps s).
Proof. destruct ps; [done|]. apply silent_sync. Qed.
Lemma create_sync s : in_sync s -> in_sync (create_tun uid moves s).2.
Proof.
  intros Hs. unfold create_tun. pose proof Hs as Hs'. unfold in_sync in Hs'. destruct (l_conn s) as [c|] eqn:Hc; [|done].
  rewrite Hs'. pose proof (roundTrip_sync (MkConn [] (c_open c)) (request VerbCreateTUN (l_token s)) s eq_refl Hs) as Hr.
  destruct (roundTrip _ _ _ _ _) as [[rep|e] s1]; [|done]. destruct (refusal rep); [|done]. destruct (negb _); [done|]. by destruct (m_lib _).
Qed.
#[local] Instance in_sync_kept : Kept (H := linux_os uid moves) (H0 := linux_lib moves) in_sync.
Proof.
  split; intros; try (by apply done_sync); try (by apply silent_sync); try (by apply routes_sync); try done.
  - unfold defaultGateway, linux_os, default_gateway. pose proof (do_sync (request VerbDefaultGateway) s H). by destruct (do_ _ _ _ _).
  - by apply create_sync.
  - unfold allowServedEgress, linux_os, allow_served. pose proof (do_sync (request VerbAllowServedEgress) s H). by destruct (do_ _ _ _ _).
Qed.



End InSync.


Module Demo.
Definition lookup (h : string) : option (list string) := if String.eqb h "news.example" then Some ["198.51.100.9"] else None.
Definition cfg : Policy :=
  MkPolicyCfg ["203.0.113.5:3478"] "stun:203.0.113.6:3478" "" "9.9.9.9" ["news.example"; "192.0.2.0/24"] "exclude" true false.
Definition calm : Move := MkMove true NetdSafety.Demo.facts [] true true true.
Definition enforcer : linuxEnforcer := MkEnforcer None "" (MkLinux (MkWorld None NetdSafety.Demo.machine) None "" 0 0).
Definition env : list (list Event) := [[EvReserve "203.0.113.77:443"]].
Definition started : result Failure (tunnel * TS) * linuxEnforcer := Start 1000 (fun _ => calm) lookup cfg env enforcer.
Definition blocked (e : linuxEnforcer) (dst : Z) : bool := negb (passes (k_table (w_kernel (l_world (e_os e)))) (Nft.Demo.packet 2 dst)).
End Demo.

Example started_filter :
  Demo.blocked (snd Demo.started) 3405803855 = true /\ Demo.blocked (snd Demo.started) 3405803853 = false /\ Demo.blocked (snd Demo.started) 3221225985 = false.
Proof. by vm_compute. Qed.

(** A reply that comes too late is read as the answer to the next request. When the one
    to turn IPv6 off is late, whose failure is only logged, every later reply is one
    behind: the refusal to arm the kill switch is never read, and the tunnel comes up
    "armed" without a filter. *)
Definition slow (late bad : nat) (n : nat) : Move :=
  MkMove true NetdSafety.Demo.facts (if Nat.eqb n bad then [false] else []) true (negb (Nat.eqb n late)) true.
Example late_reply_reports_a_lockdown :
  let r := Start 1000 (slow 8 11) Demo.lookup Demo.cfg Demo.env Demo.enforcer in
  (exists tun t, r.1 = Ok (tun, t) /\ killSwitch tun = true) /\ k_table (w_kernel (l_world (e_os r.2))) = None.
Proof. vm_compute. split; [by do 2 eexists|done]. Qed.

(** When the answer to the arming itself is late, the bring-up fails and undoes all but the
    filter: the machine stays locked down with no tunnel. *)
Example late_arming_stays_locked :
  let r := Start 1000 (slow 11 100) Demo.lookup Demo.cfg Demo.env Demo.enforcer in
  r.1 = Err CallFailed /\ w_sess (l_world (e_os r.2)) = None /\ Demo.blocked r.2 3405803781 = false /\ Demo.blocked r.2 134744072 = true.
Proof. by vm_compute. Qed.

(** More than 512 learned addresses: the request to take their routes back is refused. *)
Example many_routes_stay :
  let ps := map (fun n => "198.18." +:+ Itoa (Z.of_nat n / 256) +:+ "." +:+ Itoa (Z.of_nat n mod 256)) (seq 0 513) in
  received (with_prefixes VerbRemoveRoutes ps "t") = Err CodeBadRequest /\
  is_ok (received (with_prefixes VerbRemoveRoutes (take 512 ps) "t")) = true.
Proof. by vm_compute. Qed.
