(* ===== verification/Settings.v ===== *)
(** * The desktop client's settings: [clients/fyne/internal/appstate]

    The configuration file and where it is looked for ([config.go]), the values the
    settings window accepts ([connection.go], [countries.go]), what a volunteer's choice
    amounts to ([volunteer.go]), and the signed directory that can move the coordinators
    ([directory.go]). Programs run over the disk of [FileSys]; the network of the
    directory's fetch is that of [Coldstart]. The texts of log lines are left out. *)

From S2P Require Import Prelude GoStrings Base64 Crypto Net FileSys GeoIP Stun Coldstart.
From S2P Require RelayChain Enforce CoordState Client UpdateFS.
Local Open Scope Z_scope.

(** ** [config.go]: the settings *)

Record UpdateConfig := MkUpdateConfig { u_Source : string; u_RootPubKey : string; u_StatePath : string }.
Definition Enabled (u : UpdateConfig) : bool := negb (String.eqb (TrimSpace (u_Source u)) "").

Record Config := MkConfig {
  Coordinators : list string; STUN : string; TURN : string; TURNUser : string; TURNPass : string;
  c_Invite : string;
  c_Country : string;
  AdmissionPubKey : string; AdmissionCRLPath : string;
  Bypass : list string; BypassMode : string; DisableKillSwitch : bool; DNS : string;
  AutoConnect : bool; LaunchOnBoot : bool;
  TransportPool : list string;
  RelayHops : Z; RelayDirectoryPath : string; RelayDirectoryKey : string;
  VolunteerRelay : bool; VolunteerExit : bool; VolunteerAdvertise : string; VolunteerExitKey : string;
  AccountServiceURLs : list string; AccountServiceURL : string; AccountServiceAudience : string;
  AccountServiceCA : string;
  DeviceCredDir : string; ClaimCode : string; DeviceLabel : string;
  Update : UpdateConfig;
}.

(** The zero value of the struct. *)
Definition zero_Config : Config :=
  MkConfig [] "" "" "" "" "" "" "" "" [] "" false "" false false [] 0 "" "" false false "" "" [] "" "" "" "" "" ""
    (MkUpdateConfig "" "" "").

(** [c.ClaimCode = ""] *)
Definition without_claim (c : Config) : Config :=
  MkConfig (Coordinators c) (STUN c) (TURN c) (TURNUser c) (TURNPass c) (c_Invite c) (c_Country c) (AdmissionPubKey c)
    (AdmissionCRLPath c) (Bypass c) (BypassMode c) (DisableKillSwitch c) (DNS c) (AutoConnect c) (LaunchOnBoot c)
    (TransportPool c) (RelayHops c) (RelayDirectoryPath c) (RelayDirectoryKey c) (VolunteerRelay c) (VolunteerExit c)
    (VolunteerAdvertise c) (VolunteerExitKey c) (AccountServiceURLs c) (AccountServiceURL c) (AccountServiceAudience c)
    (AccountServiceCA c) (DeviceCredDir c) "" (DeviceLabel c) (Update c).
(** [cfg.VolunteerRelay, cfg.VolunteerExit = r, x] *)
Definition with_volunteer (c : Config) (r x : bool) : Config :=
  MkConfig (Coordinators c) (STUN c) (TURN c) (TURNUser c) (TURNPass c) (c_Invite c) (c_Country c) (AdmissionPubKey c)
    (AdmissionCRLPath c) (Bypass c) (BypassMode c) (DisableKillSwitch c) (DNS c) (AutoConnect c) (LaunchOnBoot c)
    (TransportPool c) (RelayHops c) (RelayDirectoryPath c) (RelayDirectoryKey c) r x (VolunteerAdvertise c)
    (VolunteerExitKey c) (AccountServiceURLs c) (AccountServiceURL c) (AccountServiceAudience c) (AccountServiceCA c)
    (DeviceCredDir c) (ClaimCode c) (DeviceLabel c) (Update c).
(** [cfg.Country = cc] *)
Definition with_country (c : Config) (cc : string) : Config :=
  MkConfig (Coordinators c) (STUN c) (TURN c) (TURNUser c) (TURNPass c) (c_Invite c) cc (AdmissionPubKey c)
    (AdmissionCRLPath c) (Bypass c) (BypassMode c) (DisableKillSwitch c) (DNS c) (AutoConnect c) (LaunchOnBoot c)
    (TransportPool c) (RelayHops c) (RelayDirectoryPath c) (RelayDirectoryKey c) (VolunteerRelay c) (VolunteerExit c)
    (VolunteerAdvertise c) (VolunteerExitKey c) (AccountServiceURLs c) (AccountServiceURL c) (AccountServiceAudience c)
    (AccountServiceCA c) (DeviceCredDir c) (ClaimCode c) (DeviceLabel c) (Update c).

(** [strings.TrimSpace(s)], or a default when nothing is left. *)
Definition trimmed_or (dflt s : string) : string :=
  let t := TrimSpace s in if String.eqb t "" then dflt else t.
(** The entries that are not blank, trimmed. *)
Definition trimmed (l : list string) : list string :=
  filter (fun s => s <> "") (TrimSpace <$> l).

Definition AccountServiceAddresses (c : Config) : list string :=
  match trimmed (AccountServiceURLs c) with
  | [] => let s := TrimSpace (AccountServiceURL c) in if String.eqb s "" then [] else [s]
  | out => out
  end.
Definition AccountServiceConfigured (c : Config) : bool := negb (bool_decide (AccountServiceAddresses c = [])).

Definition BypassModeInclude : string := "include".
Definition BypassModeExclude : string := "exclude".
Definition DefaultDNSUpstream : string := "1.1.1.1:53".
Definition DefaultDeviceLabel : string := "desktop".
Definition EffectiveDeviceLabel (c : Config) : string := trimmed_or DefaultDeviceLabel (DeviceLabel c).

(** No letter of "include" has a fold outside ASCII. *)
Definition NormalizeBypassMode (mode : string) : string :=
  if String.eqb (string_of (map Enforce.lower_byte (bytes_of (TrimSpace mode)))) BypassModeInclude
  then BypassModeInclude else BypassModeExclude.

Definition SplitBypassLines (s : string) : list string := trimmed (Split "010" s).
Definition JoinBypassLines (bypass : list string) : string := join_with (String "010" "") bypass.
Definition CheckConfig (c : Config) : list string := Enforce.CheckBypass (Bypass c).

(** ** [config.go]: the files *)

Section Places.
(** [os.Executable] and [os.UserConfigDir]: the path, if the system names one. *)
Context (exe userdir : option string).

(** A file of this client in the user's configuration directory. *)
Definition user_file (name : string) : string :=
  match userdir with Some dir => Join [dir; "Bacchus"; name] | None => "" end.
Definition DefaultSelectionDir : string := user_file "selection".
Definition DefaultDeviceCredDir : string := user_file "device".
Definition DefaultDirectoryCachePath : string := user_file "directory.snapshot".
Definition EffectiveDeviceCredDir (c : Config) : string := trimmed_or DefaultDeviceCredDir (DeviceCredDir c).

Definition exePath : string :=
  match exe with Some e => Join [Dir e; "bacchus-fyne.config.json"] | None => "" end.
Definition userPath : string := user_file "fyne-client.json".
Definition configPaths : list string := filter (fun p => p <> "") [exePath; userPath].

Definition utf8BOM : bytes := List.map byte_of [239; 187; 191].
Definition TrimBOM (b : bytes) : bytes := default b (strip_list utf8BOM b).

Inductive LoadError := LoadIO (e : IOErr) | ConfigUnreadable (path : string).
Inductive SaveError := errNoConfigPath | SaveIO.

Section Json.
Context `{JSON Config}.

(** [LoadConfig]: the configuration and the path it is from; an error that is not an
    I/O error names its path. [lastErr] is the variable. *)
Fixpoint load_from (paths : list string) (lastErr : IOErr) : prog (result LoadError (Config * string)) :=
  match paths with
  | [] => Ret (Err (LoadIO lastErr))
  | p :: ps =>
      run! r := call (ReadFile p) in
      match r with
      | Err e => load_from ps e
      | Ok b => Ret match Unmarshal (TrimBOM b) with
                    | None => Err (ConfigUnreadable p)
                    | Some c => Ok (c, p)
                    end
      end
  end.
Definition LoadConfig : prog (result LoadError (Config * string)) := load_from configPaths ErrNotExist.

(** [Marshal] stands for the indented form. *)
Definition SaveConfig (path : string) (c : Config) : prog (result SaveError unit) :=
  if String.eqb path "" then Ret (Err errNoConfigPath)
  else fails_as (fun _ => SaveIO)
         (try! _ := call (MkdirAll (Dir path)) in Write path (Marshal c)).

Inductive ClearError := ClearLoad (e : LoadError) | ClearSave (e : SaveError).
Definition ClearClaimCode : prog (result ClearError unit) :=
  run! r := LoadConfig in
  match r with
  | Err (LoadIO ErrNotExist) => Ret (Ok tt)
  | Err e => Ret (Err (ClearLoad e))
  | Ok (c, path) =>
      if String.eqb (ClaimCode c) "" then Ret (Ok tt)
      else fails_as ClearSave (SaveConfig path (without_claim c))
  end.
End Json.

Definition exists_ (p : string) : prog bool :=
  if String.eqb p "" then Ret false else run! r := call (Stat p) in Ret (is_ok r).

Definition DefaultConfigPath : prog string :=
  run! e := exists_ exePath in
  Ret (if e then exePath else if negb (String.eqb userPath "") then userPath else exePath).

(** [ConfigSource]: which of its sentences it returns. *)
Inductive SourceVerdict := NowhereToLook | OneExistsUnread | NoneExists | AheadOfUser | PassedOver | PlainlyRead.
Definition ConfigSource (loaded : string) : prog SourceVerdict :=
  if String.eqb loaded "" then
    run! e := exists_ exePath in
    run! u := exists_ userPath in
    Ret (if bool_decide (configPaths = []) then NowhereToLook else if e || u then OneExistsUnread else NoneExists)
  else
    run! shadowing := (if String.eqb loaded exePath then exists_ userPath else Ret false) in
    if shadowing then Ret AheadOfUser
    else run! passed := (if String.eqb loaded userPath then exists_ exePath else Ret false) in
         Ret (if passed then PassedOver else PlainlyRead).

(** ** [directory.go] *)

Record Directory := MkDir { d_Snapshot : Snapshot; d_Signed : bytes }.
Definition zero_Directory : Directory := MkDir (MkSnapshot 0 time_zero time_zero []) [].
Definition roleCoordinator : string := "coordinator".
Definition roleAccount : string := "account".

Definition d_Held (d : Directory) : bool := negb (bool_decide (d_Signed d = [])).
Definition d_Expired (d : Directory) (now : Time) : bool := negb (d_Held d) || After now (ExpiresAt (d_Snapshot d)).
Definition d_Coordinators (d : Directory) : list string :=
  if d_Held d then AddrsForRole (d_Snapshot d) roleCoordinator else [].
Definition d_AccountServiceURLs (d : Directory) : list string :=
  if d_Held d then AddrsForRole (d_Snapshot d) roleAccount else [].

Definition merge_one (out : list string) (a : string) : list string :=
  let a := TrimSpace a in
  if String.eqb a "" || bool_decide (a ∈ out) then out else out ++ [a].
Definition mergeAddrs (first second : list string) : list string := foldl merge_one [] (first ++ second).
Definition EffectiveCoordinators (fromDirectory configured : list string) : list string :=
  mergeAddrs fromDirectory configured.
Definition EffectiveAccountServiceURLs (fromDirectory configured : list string) : list string :=
  match mergeAddrs fromDirectory [] with [] => mergeAddrs configured [] | d => d end.
Definition effectiveAddrs (cfg : Config) (dir : Directory) : list string * list string :=
  (EffectiveCoordinators (d_Coordinators dir) (Coordinators cfg),
   EffectiveAccountServiceURLs (d_AccountServiceURLs dir) (AccountServiceAddresses cfg)).

(** [None] is [errNoInvite]. *)
Definition decodeInvite (cfg : Config) : option (result InviteError Invite) :=
  let s := TrimSpace (c_Invite cfg) in
  if String.eqb s "" then None else Some (DecodeInvite s).

Section Signed.
Context `{Ed25519} `{JSON Snapshot}.

Definition saveDirectoryCache (path : string) (signed : bytes) : prog (result IOErr unit) :=
  try! _ := call (MkdirAll (Dir path)) in Write path signed.

Definition loadCachedDirectory (path : string) (inv : Invite) (now : Time) : prog (option Directory) :=
  if String.eqb path "" then Ret None
  else run! r := call (ReadFile path) in
       Ret match r with
           | Err _ => None
           | Ok signed => match Verify (PublicKey inv) signed now with
                          | Ok snap => Some (MkDir snap signed)
                          | Err _ => None
                          end
           end.

(** One fetch: what the coordinator's exchange gives and the readings of the clock, in
    the order they are made. *)
Record Fetch := MkFetch {
  f_net : bytes -> option bytes; f_tx : txID; f_held : Time; f_cached : Time; f_now : Time;
}.

Definition fetchDirectory (f : Fetch) (cachePath : string) (inv : Invite) : prog Directory :=
  match Bootstrap (f_net f) (f_tx f) (SecretID inv) (Some (Secret inv)) (PublicKey inv) (f_now f) with
  | Err _ => Ret zero_Directory
  | Ok res =>
      let d := MkDir (res_Snapshot res) (res_Signed res) in
      if String.eqb cachePath "" then Ret d
      else run! _ := saveDirectoryCache cachePath (res_Signed res) in Ret d
  end.

(** The directory in memory is used while it is fresh and signed for this invite. *)
Definition usable_held (f : Fetch) (inv : Invite) (held : Directory) : bool :=
  negb (d_Expired held (f_held f)) && is_ok (VerifySigned (PublicKey inv) (d_Signed held)).

Definition AcquireDirectory (f : Fetch) (cfg : Config) (held : Directory) : prog (result InviteError Directory) :=
  match decodeInvite cfg with
  | None => Ret (Ok zero_Directory)
  | Some (Err e) => Ret (Err e)
  | Some (Ok inv) =>
      if usable_held f inv held then Ret (Ok held)
      else
        run! cached := loadCachedDirectory DefaultDirectoryCachePath inv (f_cached f) in
        match cached with
        | Some d => Ret (Ok d)
        | None => run! d := fetchDirectory f DefaultDirectoryCachePath inv in Ret (Ok d)
        end
  end.
End Signed.
End Places.

(** ** [connection.go] *)

Definition NormalizeRelayHops (hops : Z) : Z :=
  if hops <? 1 then 1 else if RelayChain.RelayHopsMax <? hops then RelayChain.RelayHopsMax else hops.
Definition RelayHopChoices : list string :=
  (fun i => Itoa (1 + Z.of_nat i)) <$> seq 0 (Z.to_nat RelayChain.RelayHopsMax).
Definition ParseRelayHops (s : string) : Z :=
  match Atoi (TrimSpace s) with None => 1 | Some n => NormalizeRelayHops n end.

Inductive ConnError := ErrRelayChainConfig | ErrAdmissionConfig | RelayDirRead (e : IOErr) | RelayDirKey.
Definition ValidateRelayChainConfig (hops : Z) (dirPath dirKey : string) : result ConnError (string * string) :=
  let dirPath := TrimSpace dirPath in
  let dirKey := TrimSpace dirKey in
  check! fail_if ((2 <=? hops) && (String.eqb dirPath "" || String.eqb dirKey "")) ErrRelayChainConfig;
  Ok (dirPath, dirKey).
Definition ValidateAdmissionConfig (pubKey crlPath : string) : result ConnError (string * string) :=
  let pubKey := TrimSpace pubKey in
  let crlPath := TrimSpace crlPath in
  check! fail_if (negb (String.eqb crlPath "") && String.eqb pubKey "") ErrAdmissionConfig;
  Ok (pubKey, crlPath).

Definition TransportWebRTC : string := "webrtc".
Definition TransportReality : string := "reality".
Definition allowedPoolTransports : list string := [TransportWebRTC; TransportReality].
Definition knownPoolTransports : list string := [TransportWebRTC; TransportReality].
Definition poolTransportBase (name : string) : string :=
  match Cut "/" name with Some (base, _) => base | None => name end.

Definition sanitize_one (out : list string) (t : string) : list string :=
  if negb (bool_decide (poolTransportBase t ∈ poolTransportBase <$> allowedPoolTransports)) || bool_decide (t ∈ out)
  then out else out ++ [t].
Definition SanitizePoolOrder (order : list string) : list string := foldl sanitize_one [] order.

Definition LadderDisplayOrder (saved : list string) : list string :=
  saved ++ filter (fun t => poolTransportBase t ∉ poolTransportBase <$> saved) knownPoolTransports.

(** [dir] is -1 or 1; an index the move would leave the list by changes nothing. *)
Definition MoveLadderItem (order : list string) (idx dir : Z) : list string :=
  let j := idx + dir in
  let n := Z.of_nat (List.length order) in
  if (idx <? 0) || (n <=? idx) || (j <? 0) || (n <=? j) then order
  else match order !! Z.to_nat idx, order !! Z.to_nat j with
       | Some a, Some b => <[Z.to_nat j := a]> (<[Z.to_nat idx := b]> order)
       | _, _ => order
       end.

(** The bytes and the key, both empty below two hops. *)
Definition LoadRelayDirectory (hops : Z) (dirPath dirKey : string) : prog (result ConnError (bytes * bytes)) :=
  if hops <? 2 then Ret (Ok ([], []))
  else try! b := fails_as RelayDirRead (call (ReadFile dirPath)) in
       Ret match hex_DecodeString (TrimSpace dirKey) with
           | Some k => if (List.length k =? PublicKeySize)%nat then Ok (b, k) else Err RelayDirKey
           | None => Err RelayDirKey
           end.

(** ** [countries.go] *)

Definition CountryAutomatic : string := "".
Definition NormalizeCountry (raw : string) : string := Canonical raw.
(** [None] is [ErrCountryConfig]. *)
Definition ValidateCountry (raw : string) : option string :=
  if String.eqb (TrimSpace raw) "" then Some CountryAutomatic
  else let cc := NormalizeCountry raw in if String.eqb cc "" then None else Some cc.

Inductive CountryStatus := CountryNotOffered | CountryAvailable | CountryBusy.
Definition StatusOf (code : string) (l : list CoordState.countryInfo) : CountryStatus :=
  let cc := NormalizeCountry code in
  if String.eqb cc "" then CountryNotOffered
  else match List.find (fun c => String.eqb (NormalizeCountry (CoordState.ci_Country c)) cc) l with
       | None => CountryNotOffered
       | Some c => if Client.Assignable c then CountryAvailable else CountryBusy
       end.

(** ** [volunteer.go] *)

Inductive VolunteerError := ErrVolunteerWhileRouted | ErrVolunteerExitNeedsAddress | ErrVolunteerAddressForm
  | ErrVolunteerAddressUnreachable | ErrVolunteerExitNeedsKey | ErrVolunteerExitKeyForm.
Inductive VolunteerWarning := WarnVolunteerAddressPrivate | WarnVolunteerAddressCGNAT | WarnVolunteerAddressName.
Inductive Role := RoleClient | RoleRelay | RoleExit.
#[export] Instance Role_eq_dec : EqDecision Role.
Proof. solve_decision. Defined.

Record VolunteerPlan := MkPlan {
  v_Roles : list Role; v_Advertise : string; v_ListenAddr : string; v_ExitKeyHex : string;
  v_Warnings : list VolunteerWarning;
}.
Definition Serving (p : VolunteerPlan) : bool :=
  existsb (fun r => bool_decide (r = RoleRelay) || bool_decide (r = RoleExit)) (v_Roles p).

Definition ClearVolunteeringIfRouted (cfg : Config) (routedWithoutCarveOut : bool) : Config * bool :=
  if negb routedWithoutCarveOut then (cfg, false)
  else (with_volunteer cfg false false, VolunteerRelay cfg || VolunteerExit cfg).

(** The address classes of [net.IP], of a parsed address. *)
Definition byte_at (ip : IP) (i : nat) : Z := match ip !! i with Some c => octet c | None => -1 end.
Definition IsUnspecified (ip : IP) : bool :=
  match To4 ip with
  | Some v4 => bool_decide (v4 = repeat Ascii.zero 4)
  | None => bool_decide (ip = repeat Ascii.zero 16)
  end.
Definition IsLinkLocalUnicast (ip : IP) : bool :=
  match To4 ip with
  | Some v4 => (byte_at v4 0 =? 169) && (byte_at v4 1 =? 254)
  | None => (byte_at ip 0 =? 254) && (Z.land (byte_at ip 1) 192 =? 128)
  end.
Definition IsLinkLocalMulticast (ip : IP) : bool :=
  match To4 ip with
  | Some v4 => (byte_at v4 0 =? 224) && (byte_at v4 1 =? 0) && (byte_at v4 2 =? 0)
  | None => (byte_at ip 0 =? 255) && (Z.land (byte_at ip 1) 15 =? 2)
  end.
Definition IsPrivate (ip : IP) : bool :=
  match To4 ip with
  | Some v4 => (byte_at v4 0 =? 10) || ((byte_at v4 0 =? 172) && (Z.land (byte_at v4 1) 240 =? 16))
               || ((byte_at v4 0 =? 192) && (byte_at v4 1 =? 168))
  | None => Z.land (byte_at ip 0) 254 =? 252
  end.
(** 100.64.0.0/10 *)
Definition cgnat_Contains (ip : IP) : bool :=
  match To4 ip with Some v4 => (byte_at v4 0 =? 100) && (Z.land (byte_at v4 1) 192 =? 64) | None => false end.

(** The port, and the warnings. *)
Definition classifyAdvertise (advertise : string) : result VolunteerError (string * list VolunteerWarning) :=
  let? (host, port) := of_option ErrVolunteerAddressForm (SplitHostPort advertise) in
  check! fail_if (String.eqb host "") ErrVolunteerAddressForm;
  let? p := of_option ErrVolunteerAddressForm (Atoi port) in
  check! fail_if ((p <? 1) || (65535 <? p)) ErrVolunteerAddressForm;
  match ParseIP host with
  | None => Ok (port, [WarnVolunteerAddressName])
  | Some ip =>
      if IsUnspecified ip || UpdateFS.IsLoopback ip || IsLinkLocalUnicast ip || IsLinkLocalMulticast ip
      then Err ErrVolunteerAddressUnreachable
      else if cgnat_Contains ip then Ok (port, [WarnVolunteerAddressCGNAT])
      else if IsPrivate ip then Ok (port, [WarnVolunteerAddressPrivate])
      else Ok (port, [])
  end.

Definition exitKeyHexLen : nat := 64.
Definition validExitKeyHex (key : string) : bool :=
  (String.length key =? exitKeyHexLen)%nat && bool_decide (is_Some (hex_DecodeString key)).
(** What [rand.Read] fills, if it does. *)
Definition NewExitKeyHex (random : option bytes) : option string := hex_EncodeToString <$> random.

Definition PlanVolunteer (cfg : Config) (routedWithoutCarveOut : bool) : result VolunteerError VolunteerPlan :=
  let plan := MkPlan (RoleClient :: (if VolunteerRelay cfg then [RoleRelay] else [])
                                  ++ (if VolunteerExit cfg then [RoleExit] else [])) "" "" "" [] in
  if negb (Serving plan) then Ok plan
  else
    check! fail_if routedWithoutCarveOut ErrVolunteerWhileRouted;
    if negb (VolunteerExit cfg) then Ok plan
    else
      let advertise := TrimSpace (VolunteerAdvertise cfg) in
      check! fail_if (String.eqb advertise "") ErrVolunteerExitNeedsAddress;
      let? (port, warnings) := classifyAdvertise advertise in
      let key := TrimSpace (VolunteerExitKey cfg) in
      check! fail_if (String.eqb key "") ErrVolunteerExitNeedsKey;
      check! fail_if (negb (validExitKeyHex key)) ErrVolunteerExitKeyForm;
      Ok (MkPlan (v_Roles plan) advertise (":" +:+ port) key warnings).

(** ** Names *)

Lemma last_component_Join3 dir sub n :
  sub <> "" -> free_of slash n = true -> n <> "" -> n <> "." -> n <> ".." -> last_component (Join [dir; sub; n]) = n.
Proof.
  intros Hs Hf H0 H1 H2. destruct dir as [|a dir].
  - change (Join [""; sub; n]) with (Join [sub; n]). by apply last_component_Join.
  - assert (Join [String a dir; sub; n] = Join [String a dir +:+ "/" +:+ sub; n]) as ->.
    { cbn [Join join_with]. f_equal. by rewrite !string_app_assoc. }
    by apply last_component_Join.
Qed.

(** A named file of the user's directory is not hidden, and its name has no slash. *)
Lemma user_file_plain userdir n :
  free_of slash n = true -> n <> "" -> dotted n = false -> user_file userdir n <> "" ->
  hidden (user_file userdir n) = false /\ Base (user_file userdir n) = n.
Proof.
  unfold user_file. destruct userdir as [dir|]; [|done]. intros Hf Hn Hd Hne.
  assert (last_component (Join [dir; "Bacchus"; n]) = n) as Hl by (apply last_component_Join3; [done..|by intros ->|by intros ->]).
  split; [unfold hidden; by rewrite Hl|]. rewrite Base_last_component; by rewrite Hl.
Qed.

(** ** The directory that is used is a signed one *)

Section DirectoryProofs.
Context `{Ed25519} `{JSON Snapshot} (userdir : option string).
Local Abbreviation cache := (DefaultDirectoryCachePath userdir).

(** What is held in memory was signed by someone. *)
Definition holds_signed (d : Directory) : Prop :=
  d_Held d = true -> exists k, VerifySigned k (d_Signed d) = Ok (d_Snapshot d).

(** A directory the configured invite's key signed, not expired when it was looked at. *)
Definition directory_ok (f : Fetch) (inv : Invite) (dir : Directory) : Prop :=
  VerifySigned (PublicKey inv) (d_Signed dir) = Ok (d_Snapshot dir) /\
  exists now, now ∈ [f_held f; f_cached f; f_now f] /\ now <= ExpiresAt (d_Snapshot dir).

Lemma VerifySigned_unique k k' signed s s' :
  VerifySigned k signed = Ok s -> VerifySigned k' signed = Ok s' -> s = s'.
Proof.
  unfold VerifySigned. destruct (split_signed signed) as [[body sig]|]; [|done]. simpl.
  intros H1 H2. inv_result. congruence.
Qed.

Lemma VerifySigned_nonempty k signed s : VerifySigned k signed = Ok s -> signed <> [].
Proof. unfold VerifySigned. by intros Hv ->. Qed.

Lemma Verify_inv k signed now s : Verify k signed now = Ok s -> VerifySigned k signed = Ok s /\ now <= ExpiresAt s.
Proof. unfold Verify, After. intros Hv. inv_result. b2p. done. Qed.

Lemma usable_held_ok f inv held :
  holds_signed held -> usable_held f inv held = true -> directory_ok f inv held.
Proof.
  unfold usable_held, d_Expired, After. intros Hs Hu. b2p. destruct (Hs ltac:(done)) as [k Hk].
  destruct (VerifySigned (PublicKey inv) _) as [s|] eqn:Hv; [|done].
  assert (d_Snapshot held = s) as <- by (by eapply VerifySigned_unique).
  split; [done|]. exists (f_held f). split; [by left|done].
Qed.

Lemma Bootstrap_ok f inv res :
  Bootstrap (f_net f) (f_tx f) (SecretID inv) (Some (Secret inv)) (PublicKey inv) (f_now f) = Ok res ->
  directory_ok f inv (MkDir (res_Snapshot res) (res_Signed res)).
Proof.
  unfold Bootstrap, read_response. intros Hb. inv_result. simpl. apply Verify_inv in E4 as [Hv Hn].
  split; [done|]. exists (f_now f). split; [set_solver|done].
Qed.

(** The cache may be replaced by a directory the invite's key signed, and nothing else
    changes. *)
Definition cache_kept (f : Fetch) (inv : Invite) (d d' : Disk) : Prop :=
  d' = d \/ exists res, Bootstrap (f_net f) (f_tx f) (SecretID inv) (Some (Secret inv)) (PublicKey inv) (f_now f) = Ok res /\
            cache <> "" /\ replaced cache (res_Signed res) d d'.

Lemma wp_fetchDirectory f inv d :
  wp any_fate (fetchDirectory f cache inv) (cache_kept f inv d)
    (fun dir d' => cache_kept f inv d d' /\
       match Bootstrap (f_net f) (f_tx f) (SecretID inv) (Some (Secret inv)) (PublicKey inv) (f_now f) with
       | Ok res => dir = MkDir (res_Snapshot res) (res_Signed res)
       | Err _ => dir = zero_Directory
       end) d.
Proof.
  assert (cache_kept f inv d d) as Hsame by by left.
  unfold fetchDirectory. destruct (Bootstrap _ _ _ _ _ _) as [res|e] eqn:Hb; [|by split].
  destruct (String.eqb_spec cache "") as [|Hc]; [by split|].
  destruct (user_file_plain userdir "directory.snapshot" eq_refl ltac:(done) eq_refl Hc) as [Hh _].
  assert (forall d', replaced cache (res_Signed res) d d' -> cache_kept f inv d d') as Hk by (right; eauto).
  assert (forall d', noise d d' -> cache_kept f inv d d') as Hold by (intros; apply Hk, noise_replaced; auto).
  apply wp_bind. unfold saveDirectoryCache. apply wp_try, wp_flush; [done|done|by intros|]. apply wp_Write; [done|by split; auto|].
  intros d' Hn. assert (cache_kept f inv d d') by (apply Hk, noise_replaced; auto). by split.
Qed.

(** What a run of [AcquireDirectory] may come to. *)
Definition acquired (f : Fetch) (cfg : Config) (d d' : Disk) (r : option (result InviteError Directory)) : Prop :=
  match decodeInvite cfg with
  | None => r = Some (Ok zero_Directory) /\ d' = d
  | Some (Err e) => r = Some (Err e) /\ d' = d
  | Some (Ok inv) =>
      cache_kept f inv d d' /\
      forall res, r = Some res -> exists dir, res = Ok dir /\ holds_signed dir /\ (d_Held dir = true -> directory_ok f inv dir) /\
        (is_ok (Bootstrap (f_net f) (f_tx f) (SecretID inv) (Some (Secret inv)) (PublicKey inv) (f_now f)) = true ->
         d_Held dir = true)
  end.

Lemma AcquireDirectory_run f cfg held fs d :
  holds_signed held -> let '(d', r, _) := run (AcquireDirectory userdir f cfg held) fs d in acquired f cfg d d' r.
Proof.
  intros Hheld. unfold AcquireDirectory, acquired. destruct (decodeInvite cfg) as [[inv|e]|]; [|done..].
  set (boot := Bootstrap _ _ _ _ _ _).
  pose (good := fun dir => holds_signed dir /\ (d_Held dir = true -> directory_ok f inv dir) /\ (is_ok boot = true -> d_Held dir = true)).
  assert (Hok : forall dir, directory_ok f inv dir -> good dir).
  { intros dir Hd. assert (d_Held dir = true) as Hh.
    { unfold d_Held. apply negb_true_iff, bool_decide_eq_false_2, (VerifySigned_nonempty _ _ _ (proj1 Hd)). }
    split; [intros _; eexists; apply Hd|]. by split. }
  pose proof (wp_run any_fate (if usable_held f inv held then Ret (Ok held) else
      run! cached := loadCachedDirectory cache inv (f_cached f) in
      match cached with Some d => Ret (Ok d) | None => run! d := fetchDirectory f cache inv in Ret (Ok d) end)
    (cache_kept f inv d) (fun (r : result InviteError Directory) d' => cache_kept f inv d d' /\ exists dir, r = Ok dir /\ good dir) d fs) as HW.
  destruct (run _ fs d) as [[d' r] fs'].
  assert (match r with Some a => cache_kept f inv d d' /\ exists dir, a = Ok dir /\ good dir | None => cache_kept f inv d d' end) as Hres.
  { apply HW; [|apply allowed_any]. assert (cache_kept f inv d d) as Hsame by by left.
    destruct (usable_held f inv held) eqn:Hu; [split; [done|]; eexists; split; [done|]; by apply Hok, usable_held_ok|].
    assert (wp any_fate (run! d := fetchDirectory f cache inv in Ret (Ok d : result InviteError Directory)) (cache_kept f inv d)
      (fun r d' => cache_kept f inv d d' /\ exists dir, r = Ok dir /\ good dir) d) as Hfetch.
    { apply wp_bind. eapply wp_mono; [apply wp_fetchDirectory|done|]. intros dir d1 [Hk Hdir]. split; [done|].
      exists dir. split; [done|]. fold boot in Hdir. destruct boot as [res|e] eqn:Hb; subst dir; [by apply Hok, Bootstrap_ok|].
      unfold good. done. }
    apply wp_bind. unfold loadCachedDirectory. destruct (String.eqb cache ""); [exact Hfetch|].
    apply wp_bind, wp_ReadFile; [done|by intros|done|]. intros b Hb. simpl.
    destruct (Verify (PublicKey inv) b (f_cached f)) as [s|] eqn:Hv; [|exact Hfetch]. apply Verify_inv in Hv as [Hv Hn].
    split; [done|]. eexists. split; [done|]. apply Hok. split; [done|]. exists (f_cached f). split; [set_solver|done]. }
  split; [by destruct r; [apply Hres|]|]. intros res ->. destruct Hres as (_ & dir & -> & Hg). by exists dir.
Qed.
(** Whatever is on the disk and in memory, whatever the network answers, whatever fails
    and wherever the process dies: the directory that is used is one the configured
    invite's key signed and was not expired; without an invite there is none, and only a
    malformed invite is an error; the only file that changes is the cache, and only to a
    signed directory just fetched; and a coordinator that serves one is never in vain. *)
Theorem used_directory_is_signed f cfg held fs d :
  holds_signed held -> let '(d', r, _) := run (AcquireDirectory userdir f cfg held) fs d in acquired f cfg d d' r.
Proof. apply AcquireDirectory_run. Qed.
End DirectoryProofs.

(** ** Settings are neither lost nor mixed *)

Section ConfigProofs.
Context `{JSONLaws Config} (exe userdir : option string).
(** A JSON text does not begin with a byte order mark. *)
Context (Hbom : forall c : Config, strip_list utf8BOM (Marshal c) = None).
Local Abbreviation exeP := (exePath exe).
Local Abbreviation userP := (userPath userdir).

Lemma exePath_plain : exeP <> "" -> hidden exeP = false /\ free_of slash (Base exeP) = true.
Proof.
  unfold exePath. destruct exe as [e|]; [|done]. intros _.
  assert (last_component (Join [Dir e; "bacchus-fyne.config.json"]) = "bacchus-fyne.config.json") as Hl.
  { apply last_component_Join; [apply Dir_nonempty|done..]. }
  split; [unfold hidden; by rewrite Hl|]. rewrite Base_last_component; by rewrite Hl.
Qed.
Lemma userPath_plain : userP <> "" -> hidden userP = false /\ free_of slash (Base userP) = true.
Proof.
  intros Hn. destruct (user_file_plain userdir "fyne-client.json" eq_refl ltac:(done) eq_refl Hn) as [Hh Hb].
  unfold userPath. by rewrite Hb.
Qed.

Lemma path_plain p : p ∈ [exeP; userP] -> p <> "" -> hidden p = false /\ free_of slash (Base p) = true.
Proof. intros [->|[->|[]%not_elem_of_nil]%elem_of_cons]%elem_of_cons; [apply exePath_plain|apply userPath_plain]. Qed.

Lemma exe_place : exeP ∈ [exeP; userP].
Proof. by left. Qed.
Lemma user_place : userP ∈ [exeP; userP].
Proof. right. by left. Qed.

(** What reading the places in order gives when no read fails. *)
Fixpoint read_from (d : Disk) (paths : list string) : result LoadError (Config * string) :=
  match paths with
  | [] => Err (LoadIO ErrNotExist)
  | p :: ps => match d !! p with
               | None => read_from d ps
               | Some b => match Unmarshal (TrimBOM b) with None => Err (ConfigUnreadable p) | Some c => Ok (c, p) end
               end
  end.

Lemma load_run fs d paths :
  Forall (fun f => read_fault f = None) fs -> (List.length paths <= List.length fs)%nat ->
  (run (load_from paths ErrNotExist) fs d).1.2 = Some (read_from d paths).
Proof.
  revert fs. induction paths as [|p ps IH]; intros fs Hq Hl; [done|]. destruct fs as [|f fs]; simpl in Hl; [lia|].
  apply Forall_cons in Hq as [Hf Hq]. cbn [load_from run pbind call exec read_from]. unfold reading. rewrite Hf.
  destruct (d !! p) as [b|]; [done|]. apply IH; [done|lia].
Qed.

Lemma wp_load_from ok paths last (C : Disk -> Prop) Q d :
  C d -> (forall e, Q (Err e) d) ->
  (forall b c p, p ∈ paths -> d !! p = Some b -> Unmarshal (TrimBOM b) = Some c -> Q (Ok (c, p)) d) ->
  wp ok (load_from paths last) C Q d.
Proof.
  intros HC HE HQ. revert last. induction paths as [|p ps IH]; intros last; [apply HE|].
  assert (forall e, wp ok (load_from ps e) C Q d) as Hps by (intros e; apply IH; intros; eapply HQ; eauto; by right).
  apply wp_bind, wp_ReadFile; [done|by intros; apply Hps|by intros; apply Hps|]. intros b Hb. simpl.
  destruct (Unmarshal (TrimBOM b)) eqn:Hu; [|apply HE]. eapply HQ; eauto. by left.
Qed.

Lemma wp_SaveConfig ok p c (C : Disk -> Prop) (Q : result SaveError unit -> Disk -> Prop) d :
  p ∈ [exeP; userP] -> (forall d', noise d d' -> C d') ->
  (p = "" \/ wfail ok -> forall d' e, noise d d' -> Q (Err e) d') ->
  (forall d', noise (<[p := Marshal c]> d) d' -> C d' /\ Q (Ok tt) d') -> wp ok (SaveConfig p c) C Q d.
Proof.
  intros Hin HC HE HQ. unfold SaveConfig. destruct (String.eqb_spec p "") as [->|Hp]; [by apply HE; auto|].
  destruct (path_plain p Hin Hp) as [Hh Hf].
  apply wp_fails_as, wp_try, wp_flush; [done|apply HC, noise_refl|by intros; apply HE; auto with bacchus|].
  apply wp_Write; [done| |done]. intros [Hw|?] d' e Hn; [by apply HE; auto|congruence].
Qed.

Lemma read_after_noise d d' p :
  noise d d' -> p ∈ [exeP; userP] -> p <> "" -> d' !! p = d !! p.
Proof. intros Hn Hin Hp. apply noise_plain; [done|]. by apply path_plain. Qed.

Lemma Marshal_reads c : Unmarshal (TrimBOM (Marshal c)) = Some c.
Proof. unfold TrimBOM. rewrite Hbom. simpl. apply Unmarshal_Marshal. Qed.

Definition save_settings (c : Config) : prog (string * result SaveError unit) :=
  run! p := DefaultConfigPath exe userdir in
  run! r := SaveConfig p c in
  Ret (p, r).

(** The place chosen for a save is the one that is read first of those that will be there. *)
Definition chosen (d : Disk) (p : string) : Prop :=
  p ∈ [exeP; userP] /\ (p <> "" -> forall x, read_from (<[p := x]> d) (configPaths exe userdir) = 
    match Unmarshal (TrimBOM x) with None => Err (ConfigUnreadable p) | Some c => Ok (c, p) end).

Lemma read_from_noise d d' : noise d d' -> read_from d' (configPaths exe userdir) = read_from d (configPaths exe userdir).
Proof.
  intros Hn. assert (forall p, p ∈ configPaths exe userdir -> d' !! p = d !! p) as Hs.
  { unfold configPaths. intros p [Hp Hin]%list_elem_of_filter. by apply read_after_noise. }
  revert Hs. induction (configPaths exe userdir) as [|p ps IH]; intros Hs; [done|]. simpl. rewrite Hs by by left.
  rewrite IH; [done|]. intros q Hq. apply Hs. by right.
Qed.

Lemma wp_DefaultConfigPath ok (C : Disk -> Prop) Q d :
  C d -> (forall p, p ∈ [exeP; userP] -> (~ rfail ok -> chosen d p) -> (p = "" -> exeP = "" /\ userP = "") -> Q p d) ->
  wp ok (DefaultConfigPath exe userdir) C Q d.
Proof.
  intros HC HQ. unfold DefaultConfigPath, exists_.
  assert (Hins : forall p x, p ∈ [exeP; userP] -> p <> "" -> (exeP = "" \/ exeP = p \/ d !! exeP = None) ->
    read_from (<[p := x]> d) (configPaths exe userdir) =
    match Unmarshal (TrimBOM x) with None => Err (ConfigUnreadable p) | Some c => Ok (c, p) end).
  { intros p x Hin Hp Hexe. unfold configPaths. destruct (decide (exeP = p)) as [<-|Hne].
    - rewrite filter_cons_True by done. cbn. by rewrite lookup_insert_eq.
    - assert (p = userP) as -> by (by apply elem_of_cons in Hin as [?|Hin%list_elem_of_singleton]).
      assert (read_from (<[userP := x]> d) [userP] = match Unmarshal (TrimBOM x) with
        None => Err (ConfigUnreadable userP) | Some c => Ok (c, userP) end) as Huser by (cbn; by rewrite lookup_insert_eq).
      assert (filter (fun p => p <> "") [userP] = [userP]) as Hf by (by rewrite filter_cons_True).
      destruct (decide (exeP = "")) as [He|He].
      + by rewrite filter_cons_False, Hf by (by intros []).
      + rewrite filter_cons_True, Hf by done. cbn [read_from]. rewrite lookup_insert_ne by done.
        by destruct Hexe as [?|[?| ->]]. }
  pose proof exe_place as Hine. pose proof user_place as Hinu.
  destruct (String.eqb_spec exeP "") as [He|He].
  - cbn [pbind]. destruct (String.eqb_spec userP "") as [Hu|Hu]; cbn [negb wp]; (apply HQ; [done| |done]); intros _; split; auto.
  - apply wp_bind, wp_bind, wp_Stat; [done| | |]; cbn [wp is_ok].
    + intros Hr. destruct (String.eqb_spec userP "") as [Hu|Hu]; cbn [negb]; (apply HQ; [done|by intros Hn; destruct (Hn Hr)|done]).
    + intros Hn. destruct (String.eqb_spec userP "") as [Hu|Hu]; cbn [negb]; (apply HQ; [done| |done]); intros _; split; auto.
    + intros _. apply HQ; [done| |done]. intros _. split; auto.
Qed.

(** Saving settings leaves, whatever fails and wherever the process dies, the whole old
    file or the whole new one, in one of the two places; and when nothing fails, what the
    next start reads is what was saved, from the place it was saved to. *)
Theorem settings_are_kept c fs d again :
  exeP <> "" \/ userP <> "" -> Forall (fun f => read_fault f = None) again -> (2 <= List.length again)%nat ->
  let '(d', r, _) := run (save_settings c) fs d in
  (d' = d \/ exists p, p ∈ [exeP; userP] /\ replaced p (Marshal c) d d') /\
  (allowed calm (save_settings c) fs d -> (9 <= List.length fs)%nat ->
   exists p, r = Some (p, Ok tt) /\ (run (LoadConfig exe userdir) again d').1.2 = Some (Ok (c, p))).
Proof.
  intros Hsome Hq Hl.
  pose (kept := fun d' : Disk => d' = d \/ exists p, p ∈ [exeP; userP] /\ replaced p (Marshal c) d d').
  assert (Hk : forall p d', p ∈ [exeP; userP] -> noise d d' \/ noise (<[p := Marshal c]> d) d' -> p <> "" -> kept d').
  { intros p d' Hin Hn Hp. right. exists p. split; [done|]. apply noise_replaced; [by apply path_plain|done]. }
  assert (Hgen : forall ok, wp ok (save_settings c) kept
    (fun x d' => kept d' /\ (~ rfail ok -> ~ wfail ok -> x.2 = Ok tt /\ read_from d' (configPaths exe userdir) = Ok (c, x.1))) d).
  { intros ok. assert (kept d) as Hsame by by left. apply wp_bind, wp_DefaultConfigPath; [done|].
    intros p Hin Hch Hempty. apply wp_bind. destruct (decide (p = "")) as [->|Hp].
    { cbn. split; [done|]. intros _ _. exfalso. tauto. }
    apply wp_SaveConfig; [done|by intros; eapply Hk; eauto| |].
    - intros [?|Hw] d' e Hn; [done|]. split; [by eapply Hk; eauto|done].
    - intros d' Hn. assert (kept d') by (by eapply Hk; eauto). split; [done|]. split; [done|]. intros Hr _. split; [done|].
      rewrite (read_from_noise _ _ Hn). destruct (Hch Hr) as [_ Hread]. by rewrite (Hread Hp), Marshal_reads. }
  pose proof (wp_run any_fate _ _ _ d fs (Hgen any_fate)) as HW. pose proof (wp_run calm _ _ _ d fs (Hgen calm)) as HC.
  assert (calls_at_most 9 (save_settings c)) as Hcalls.
  { unfold save_settings. apply (calls_bind _ _ 1 8).
    - unfold DefaultConfigPath, exists_. destruct (String.eqb exeP ""); [done|]. by intros [].
    - intros p. apply (calls_bind _ _ 8 0); [|done]. unfold SaveConfig. destruct (String.eqb p ""); [done|].
      apply (calls_bind _ _ 8 0); [|done]. apply (calls_try _ _ 1 7); [by intros []|intros _; apply calls_Write]. }
  pose proof (calls_return _ 9 fs d Hcalls) as HR.
  destruct (run (save_settings c) fs d) as [[d' r] fs']. specialize (HW (allowed_any _ _ _)).
  split; [by destruct r; [apply HW|]|]. intros Hcalm Hlen. destruct (HR Hlen) as [[p r0] Ha]. simpl in Ha. subst r.
  destruct (HC Hcalm) as (_ & Hx & Hread); [apply calm_reads|apply calm_writes|]. simpl in Hx, Hread. subst r0.
  exists p. split; [done|]. unfold LoadConfig. rewrite load_run; [by rewrite Hread|done|].
  etrans; [apply length_filter|done].
Qed.

Lemma read_from_first d paths c p x :
  read_from d paths = Ok (c, p) ->
  p ∈ paths /\ (exists b, d !! p = Some b /\ Unmarshal (TrimBOM b) = Some c) /\
  read_from (<[p := x]> d) paths = match Unmarshal (TrimBOM x) with None => Err (ConfigUnreadable p) | Some c => Ok (c, p) end.
Proof.
  induction paths as [|q ps IH]; [done|]. simpl. destruct (d !! q) as [b|] eqn:Hq.
  - destruct (Unmarshal (TrimBOM b)) eqn:Hu; [|done]. intros [= -> ->]. rewrite lookup_insert_eq. eauto using list_elem_of_here.
  - intros Hr. destruct (IH Hr) as (Hin & (b & Hb & Hu) & Hread). rewrite lookup_insert_ne by congruence. rewrite Hq.
    split; [by right|]. eauto.
Qed.

Lemma wp_load_quiet ok paths (C : Disk -> Prop) Q d :
  ~ rfail ok -> C d -> Q (read_from d paths) d -> wp ok (load_from paths ErrNotExist) C Q d.
Proof.
  intros Hr HC. induction paths as [|p ps IH]; intros HQ; [done|]. simpl in HQ.
  apply wp_bind, wp_ReadFile; [done|done| |].
  - intros Hn. rewrite Hn in HQ. by apply IH.
  - intros b Hb. by rewrite Hb in HQ.
Qed.

(** Clearing the claim code changes nothing but the claim code, in the file that is in
    force: whatever fails, that file is whole and as it was, or whole without the code. *)
Theorem only_the_claim_is_cleared fs d again :
  Forall (fun f => read_fault f = None) again -> (2 <= List.length again)%nat ->
  let '(d', r, _) := run (ClearClaimCode exe userdir) fs d in
  (d' = d \/ exists p b c, p ∈ [exeP; userP] /\ d !! p = Some b /\ Unmarshal (TrimBOM b) = Some c /\
              replaced p (Marshal (without_claim c)) d d') /\
  (r = Some (Ok tt) -> allowed quiet_reads (ClearClaimCode exe userdir) fs d ->
   forall c p, (run (LoadConfig exe userdir) again d').1.2 = Some (Ok (c, p)) -> ClaimCode c = "").
Proof.
  intros Hq Hl.
  pose (kept := fun d' : Disk => d' = d \/ exists p b c, p ∈ [exeP; userP] /\ d !! p = Some b /\ Unmarshal (TrimBOM b) = Some c /\
              replaced p (Marshal (without_claim c)) d d').
  pose (cleared := fun d' : Disk => forall c p, read_from d' (configPaths exe userdir) = Ok (c, p) -> ClaimCode c = "").
  assert (kept d) as Hsame by by left.
  assert (Hsave : forall ok b c p, p ∈ configPaths exe userdir -> d !! p = Some b -> Unmarshal (TrimBOM b) = Some c ->
    (~ rfail ok -> read_from d (configPaths exe userdir) = Ok (c, p)) ->
    wp ok (fails_as ClearSave (SaveConfig p (without_claim c))) kept
      (fun r d' => kept d' /\ (~ rfail ok -> r = Ok tt -> cleared d')) d).
  { intros ok b c p [Hp Hin]%list_elem_of_filter Hb Hu Hread.
    assert (Hk : forall d', noise d d' \/ noise (<[p := Marshal (without_claim c)]> d) d' -> kept d').
    { intros d' Hn. right. exists p, b, c. split_and!; [done..|]. apply noise_replaced; [by apply path_plain|done]. }
    apply wp_fails_as, wp_SaveConfig; [done|auto|intros _ d' e Hn; by split; [auto|]|].
    intros d' Hn. split; [auto|]. split; [auto|]. intros Hr _ c' p' Hc'. rewrite (read_from_noise _ _ Hn) in Hc'.
    destruct (read_from_first _ _ _ _ (Marshal (without_claim c)) (Hread Hr)) as (_ & _ & Hafter).
    rewrite Hafter, Marshal_reads in Hc'. by injection Hc' as <- _. }
  pose proof (wp_run any_fate (ClearClaimCode exe userdir) kept (fun r d' => kept d') d fs) as HW.
  pose proof (wp_run quiet_reads (ClearClaimCode exe userdir) (fun _ => True) (fun r d' => r = Ok tt -> cleared d') d fs) as HC.
  destruct (run (ClearClaimCode exe userdir) fs d) as [[d' r] fs']. split.
  - assert (match r with Some _ => kept d' | None => kept d' end) as Hres; [|by destruct r].
    apply HW; [|apply allowed_any]. apply wp_bind, wp_load_from; [done|by intros [[]|]|].
    intros b c p Hin Hb Hu. simpl. destruct (String.eqb (ClaimCode c) ""); [done|].
    eapply wp_mono; [eapply Hsave|done|by intros ? ? []]; eauto. intros Hn. exfalso. apply Hn.
    exists _, (ReadFile p), (MkFate (Some O) None 0), d. done.
  - intros -> Hquiet. specialize (HC). assert (cleared d') as Hcl.
    { apply HC; [|done|done]. apply wp_bind, wp_load_quiet; [apply quiet_no_rfail|done|].
      destruct (read_from d (configPaths exe userdir)) as [[c p]|[[]|]] eqn:Hread; simpl; try done.
      - destruct (String.eqb_spec (ClaimCode c) "") as [He|He].
        + intros _ c' p' Hc'. congruence.
        + destruct (read_from_first _ _ _ _ [] Hread) as (Hin & (b & Hb & Hu) & _).
          eapply wp_mono; [by eapply Hsave|done|]. intros a d1 [_ Hd1] ->. by apply Hd1; [apply quiet_no_rfail|].
      - intros _ c p Hc. congruence. }
    intros c p Hread. apply (Hcl c p). unfold LoadConfig in Hread. rewrite load_run in Hread; [by injection Hread|done|].
    etrans; [apply length_filter|done].
Qed.
End ConfigProofs.

(** ** Lists of addresses and transports; what a volunteer's plan was checked for *)

Lemma merge_one_spec out a :
  NoDup out -> "" ∉ out ->
  NoDup (merge_one out a) /\ "" ∉ merge_one out a /\
  (forall x, x ∈ merge_one out a <-> x ∈ out \/ (x = TrimSpace a /\ x <> "")) /\ exists rest, merge_one out a = out ++ rest.
Proof.
  intros Hnd He. unfold merge_one. destruct (String.eqb_spec (TrimSpace a) "") as [Ha|Ha]; simpl.
  { split_and!; [done|done| |exists []; by rewrite app_nil_r]. intros x. split; [by left|intros [?|[-> ?]]; congruence]. }
  case_bool_decide as Hin.
  { split_and!; [done|done| |exists []; by rewrite app_nil_r]. intros x. split; [by left|intros [?|[-> ?]]; done]. }
  split_and!; [|rewrite elem_of_app, list_elem_of_singleton; intros [?|?]; congruence| |by eexists].
  - apply NoDup_app. split_and!; [done| |apply NoDup_singleton]. intros x Hx ->%list_elem_of_singleton. done.
  - intros x. rewrite elem_of_app, list_elem_of_singleton. split; [intros [?| ->]; auto|intros [?|[-> _]]; auto].
Qed.

(** The merged list: no address twice, none blank, those of the first list before the
    others. *)
Lemma mergeAddrs_spec first second :
  NoDup (mergeAddrs first second) /\ "" ∉ mergeAddrs first second /\
  (forall x, x ∈ mergeAddrs first second <-> x <> "" /\ exists a, a ∈ first ++ second /\ x = TrimSpace a) /\
  exists rest, mergeAddrs first second = mergeAddrs first [] ++ rest.
Proof.
  assert (Hgen : forall l out, NoDup out -> "" ∉ out ->
    NoDup (foldl merge_one out l) /\ "" ∉ foldl merge_one out l /\
    (forall x, x ∈ foldl merge_one out l <-> x ∈ out \/ (x <> "" /\ exists a, a ∈ l /\ x = TrimSpace a)) /\
    exists rest, foldl merge_one out l = out ++ rest).
  { induction l as [|a l IH]; intros out Hnd He; simpl.
    - split_and!; [done|done| |exists []; by rewrite app_nil_r]. intros x. split; [by left|].
      intros [?|(_ & a & []%not_elem_of_nil & _)]; done.
    - destruct (merge_one_spec out a Hnd He) as (Hnd' & He' & Hx & r1 & Hr1).
      destruct (IH _ Hnd' He') as (H1 & H2 & H3 & r2 & Hr2). split_and!; [done|done| |].
      + intros x. rewrite H3, Hx. split.
        * intros [[?|[-> Hn]]|(Hn & b & Hb & ->)]; [by left|right..]; (split; [done|]); eexists; (split; [|done]); [by left|by right].
        * intros [?|(Hn & b & [->|Hb]%elem_of_cons & Hxb)]; [by left; left|left; right; done|right; eauto].
      + exists (r1 ++ r2). by rewrite Hr2, Hr1, app_assoc. }
  unfold mergeAddrs. destruct (Hgen (first ++ second) []) as (H1 & H2 & H3 & _); [constructor|apply not_elem_of_nil|].
  split_and!; [done|done| |].
  - intros x. rewrite H3. split; [intros [[]%not_elem_of_nil|?]; done|by right].
  - rewrite app_nil_r, foldl_app. destruct (Hgen first []) as (G1 & G2 & _); [constructor|apply not_elem_of_nil|].
    destruct (Hgen second (foldl merge_one [] first) G1 G2) as (_ & _ & _ & rest & Hrest). by exists rest.
Qed.

Lemma SanitizePoolOrder_spec order :
  NoDup (SanitizePoolOrder order) /\
  forall t, t ∈ SanitizePoolOrder order <-> t ∈ order /\ poolTransportBase t ∈ [TransportWebRTC; TransportReality].
Proof.
  unfold SanitizePoolOrder.
  assert (Hgen : forall l out, NoDup out ->
    NoDup (foldl sanitize_one out l) /\
    forall t, t ∈ foldl sanitize_one out l <-> t ∈ out \/ (t ∈ l /\ poolTransportBase t ∈ [TransportWebRTC; TransportReality])).
  { induction l as [|a l IH]; intros out Hnd; simpl.
    - split; [done|]. intros t. split; [by left|]. intros [?|[[]%not_elem_of_nil _]]; done.
    - assert (NoDup (sanitize_one out a) /\ forall t, t ∈ sanitize_one out a <->
        t ∈ out \/ (t = a /\ poolTransportBase t ∈ [TransportWebRTC; TransportReality])) as [Hn Hs].
      { unfold sanitize_one. change (poolTransportBase <$> allowedPoolTransports) with [TransportWebRTC; TransportReality].
        case_bool_decide as Ha; simpl.
        - case_bool_decide as Hin.
          + split; [done|]. intros t. split; [by left|]. intros [?|[-> _]]; done.
          + split; [apply NoDup_app; split_and!; [done| |apply NoDup_singleton]; intros x Hx ->%list_elem_of_singleton; done|].
            intros t. rewrite elem_of_app, list_elem_of_singleton. split; [intros [?| ->]; auto|intros [?|[-> _]]; auto].
        - split; [done|]. intros t. split; [by left|]. intros [?|[-> ?]]; done. }
      destruct (IH _ Hn) as [H1 H2]. split; [done|]. intros t. rewrite H2, Hs, (elem_of_cons l). tauto. }
  destruct (Hgen order []) as [H1 H2]; [constructor|]. split; [done|]. intros t. rewrite H2.
  split; [intros [[]%not_elem_of_nil|?]; done|by right].
Qed.

(** What a plan that serves was checked for. *)
Record plan_checked (cfg : Config) (routed : bool) (p : VolunteerPlan) : Prop := {
  pc_client : RoleClient ∈ v_Roles p;
  pc_relay : RoleRelay ∈ v_Roles p <-> VolunteerRelay cfg = true;
  pc_exit : RoleExit ∈ v_Roles p <-> VolunteerExit cfg = true;
  pc_serving : Serving p = true -> routed = false;
  pc_reachable : RoleExit ∈ v_Roles p ->
    exists host port n, SplitHostPort (v_Advertise p) = Some (host, port) /\ host <> "" /\ Atoi port = Some n /\ 1 <= n <= 65535 /\
      v_ListenAddr p = ":" +:+ port /\ validExitKeyHex (v_ExitKeyHex p) = true /\
      forall ip, ParseIP host = Some ip ->
        IsUnspecified ip = false /\ UpdateFS.IsLoopback ip = false /\ IsLinkLocalUnicast ip = false /\ IsLinkLocalMulticast ip = false;
}.

Lemma classifyAdvertise_Ok a port ws :
  classifyAdvertise a = Ok (port, ws) ->
  exists host n, SplitHostPort a = Some (host, port) /\ host <> "" /\ Atoi port = Some n /\ 1 <= n <= 65535 /\
    forall ip, ParseIP host = Some ip ->
      IsUnspecified ip = false /\ UpdateFS.IsLoopback ip = false /\ IsLinkLocalUnicast ip = false /\ IsLinkLocalMulticast ip = false.
Proof.
  unfold classifyAdvertise. intros Hc. inv_result. destruct a0 as [host p]. inv_result. b2p.
  destruct (ParseIP host) as [ip|] eqn:Hip.
  - destruct (_ || _ || _ || _) eqn:Hcls; [done|]. b2p.
    assert (p = port) as -> by (repeat case_match; congruence). exists host, a1.
    split_and!; try done; try lia. intros ? Heq. rewrite Hip in Heq. by injection Heq as <-.
  - injection Hc as <- _. exists host, a1. split_and!; try done; try lia. intros ?. by rewrite Hip.
Qed.

Lemma PlanVolunteer_checked cfg routed p : PlanVolunteer cfg routed = Ok p -> plan_checked cfg routed p.
Proof.
  unfold PlanVolunteer. set (roles := RoleClient :: _).
  assert (RoleClient ∈ roles /\ (RoleRelay ∈ roles <-> VolunteerRelay cfg = true) /\ (RoleExit ∈ roles <-> VolunteerExit cfg = true))
    as (H1 & H2 & H3).
  { unfold roles. rewrite !list_elem_of_In. destruct (VolunteerRelay cfg), (VolunteerExit cfg); simpl; intuition congruence. }
  assert (Hserv : Serving (MkPlan roles "" "" "" []) = VolunteerRelay cfg || VolunteerExit cfg).
  { unfold roles, Serving. by destruct (VolunteerRelay cfg), (VolunteerExit cfg). }
  clearbody roles. rewrite Hserv. destruct (VolunteerRelay cfg || VolunteerExit cfg) eqn:Hany; cbn [negb].
  2:{ intros [= <-]. b2p. split; [done|done|done|by rewrite Hserv|]. intros Hx%H3. congruence. }
  intros Hp. inv_result. subst routed. destruct (VolunteerExit cfg) eqn:Hx; cbn [negb] in Hp.
  2:{ injection Hp as <-. split; [done|done|by rewrite Hx|done|]. intros He%H3. done. }
  inv_result. destruct a0 as [port ws]. inv_result. b2p.
  destruct (classifyAdvertise_Ok _ _ _ E0) as (host & n & Hh & Hne & Hn & Hr & Hip).
  split; cbn [v_Roles v_Advertise v_ListenAddr v_ExitKeyHex]; [done|done|by rewrite Hx|done|].
  intros _. exists host, port, n. split_and!; try done; lia.
Qed.

(** ** Witnesses *)

#[export] Instance UpdateConfig_eq_dec : EqDecision UpdateConfig.
Proof. solve_decision. Defined.
#[export] Instance UpdateConfig_countable : Countable UpdateConfig.
Proof.
  refine (inj_countable
    (fun r => [encode (u_Source r); encode (u_RootPubKey r); encode (u_StatePath r)])
    (fun l => match l with
              | [x0; x1; x2] => x0 ← decode x0; x1 ← decode x1; x2 ← decode x2;
                  Some (MkUpdateConfig x0 x1 x2)
              | _ => None
              end) _).
  intros []. cbv beta iota. by rewrite !decode_encode.
Defined.

#[export] Instance Config_eq_dec : EqDecision Config.
Proof. solve_decision. Defined.
#[export] Instance Config_countable : Countable Config.
Proof.
  refine (inj_countable
    (fun r => [encode (Coordinators r); encode (STUN r); encode (TURN r); encode (TURNUser r); encode (TURNPass r); encode (c_Invite r); encode (c_Country r); encode (AdmissionPubKey r); encode (AdmissionCRLPath r); encode (Bypass r); encode (BypassMode r); encode (DisableKillSwitch r); encode (DNS r); encode (AutoConnect r); encode (LaunchOnBoot r); encode (TransportPool r); encode (RelayHops r); encode (RelayDirectoryPath r); encode (RelayDirectoryKey r); encode (VolunteerRelay r); encode (VolunteerExit r); encode (VolunteerAdvertise r); encode (VolunteerExitKey r); encode (AccountServiceURLs r); encode (AccountServiceURL r); encode (AccountServiceAudience r); encode (AccountServiceCA r); encode (DeviceCredDir r); encode (ClaimCode r); encode (DeviceLabel r); encode (Update r)])
    (fun l => match l with
              | [x0; x1; x2; x3; x4; x5; x6; x7; x8; x9; x10; x11; x12; x13; x14; x15; x16; x17; x18; x19; x20; x21; x22; x23; x24; x25; x26; x27; x28; x29; x30] => x0 ← decode x0; x1 ← decode x1; x2 ← decode x2; x3 ← decode x3; x4 ← decode x4; x5 ← decode x5; x6 ← decode x6; x7 ← decode x7; x8 ← decode x8; x9 ← decode x9; x10 ← decode x10; x11 ← decode x11; x12 ← decode x12; x13 ← decode x13; x14 ← decode x14; x15 ← decode x15; x16 ← decode x16; x17 ← decode x17; x18 ← decode x18; x19 ← decode x19; x20 ← decode x20; x21 ← decode x21; x22 ← decode x22; x23 ← decode x23; x24 ← decode x24; x25 ← decode x25; x26 ← decode x26; x27 ← decode x27; x28 ← decode x28; x29 ← decode x29; x30 ← decode x30;
                  Some (MkConfig x0 x1 x2 x3 x4 x5 x6 x7 x8 x9 x10 x11 x12 x13 x14 x15 x16 x17 x18 x19 x20 x21 x22 x23 x24 x25 x26 x27 x28 x29 x30)
              | _ => None
              end) _).
  intros []. cbv beta iota. by rewrite !decode_encode.
Defined.


Module Demo.
Import Crypto.Toy.
#[export] Existing Instance toy_json.
#[export] Existing Instance toy_json_laws.
Definition invite : Invite :=
  MkInvite "9.9.9.9:7000" "0011223344556677" Coldstart.Demo.secret (Public Coldstart.Demo.key) (repeat "a"%char 32) [].
Definition invite_text : string := match EncodeInvite invite with Ok s => s | Err _ => "" end.
Definition signed : bytes := Sign Coldstart.Demo.key Coldstart.Demo.snap.

Definition cfg : Config :=
  MkConfig ["COORDINATOR_HOST:7000"; " 9.9.9.9:7000 "] "stun:9.9.9.9:3478" "" "" "" invite_text "se" "" "" [] "" false "" false false
    ["reality"; "quic"; "reality"] 0 "" "" false false "" "" [] "" "" "" "" "BC1-CODE" "" (MkUpdateConfig "" "" "").
Definition fetch (net : bytes -> option bytes) : Fetch := MkFetch net Stun.Demo.tx (Hour + Minute) (Hour + Minute) (Hour + Minute).
(** The coordinator serves the directory. *)
Definition served : bytes -> option bytes :=
  fun req => handleRequest req Stun.Demo.addr Coldstart.Demo.secrets (Some signed).
Definition fates : list Fate := (fun k => MkFate None None (Z.of_nat k)) <$> seq 0 16.
Definition exe : option string := Some "/opt/bacchus/bacchus".
Definition userdir : option string := Some "/home/u/.config".
Definition disk : Disk := {["/home/u/.config/Bacchus/fyne-client.json" := Marshal cfg]}.
End Demo.
Import Crypto.Toy Demo.

(** Without a cache the directory is fetched, and kept. *)
Lemma used_directory_is_signed_witness :
  let '(d', r, _) := run (AcquireDirectory Demo.userdir (Demo.fetch Demo.served) Demo.cfg zero_Directory) Demo.fates ∅ in
  exists dir, r = Some (Ok dir) /\ d_Held dir = true /\ directory_ok (Demo.fetch Demo.served) Demo.invite dir.
Proof.
  pose proof (used_directory_is_signed Demo.userdir (Demo.fetch Demo.served) Demo.cfg zero_Directory Demo.fates ∅ ltac:(discriminate)) as H.
  assert (decodeInvite Demo.cfg = Some (Ok Demo.invite)) as Hinv by (vm_compute; reflexivity).
  assert (is_ok (Bootstrap (f_net (Demo.fetch Demo.served)) (f_tx (Demo.fetch Demo.served)) (SecretID Demo.invite)
    (Some (Secret Demo.invite)) (PublicKey Demo.invite) (f_now (Demo.fetch Demo.served))) = true) as Hb by (vm_compute; reflexivity).
  assert (is_Some (run (AcquireDirectory Demo.userdir (Demo.fetch Demo.served) Demo.cfg zero_Directory) Demo.fates ∅).1.2) as [r Hr]
    by (vm_compute; by eexists).
  destruct (run _ _ _) as [[d' x] fs']. cbn in Hr. subst x. unfold acquired in H. rewrite Hinv in H. destruct H as [_ H].
  destruct (H r eq_refl) as (dir & -> & _ & Hok & Hheld). exists dir. split; [reflexivity|]. split; [exact (Hheld Hb)|exact (Hok (Hheld Hb))].
Defined.

Lemma toy_no_bom (c : Config) : strip_list utf8BOM (Marshal c) = None.
Proof. unfold Marshal, toy_json. generalize (encode c). by intros [p|p|]. Qed.

Lemma settings_are_kept_witness :
  let '(d', r, _) := run (save_settings Demo.exe Demo.userdir (without_claim Demo.cfg)) Demo.fates Demo.disk in
  exists p, r = Some (p, Ok tt) /\ (run (LoadConfig Demo.exe Demo.userdir) Demo.fates d').1.2 = Some (Ok (without_claim Demo.cfg, p)).
Proof.
  pose proof (settings_are_kept Demo.exe Demo.userdir toy_no_bom (without_claim Demo.cfg) Demo.fates Demo.disk Demo.fates
    ltac:(left; discriminate) ltac:(by repeat constructor) ltac:(cbn; lia)) as H.
  assert (allowed calm (save_settings Demo.exe Demo.userdir (without_claim Demo.cfg)) Demo.fates Demo.disk) as Hc.
  { vm_compute. repeat split. }
  destruct (run _ _ Demo.disk) as [[d' x] fs']. destruct H as [_ H]. exact (H Hc ltac:(cbn; lia)).
Defined.

Lemma only_the_claim_is_cleared_witness :
  let '(d', r, _) := run (ClearClaimCode Demo.exe Demo.userdir) Demo.fates Demo.disk in
  r = Some (Ok tt) /\ exists c p, (run (LoadConfig Demo.exe Demo.userdir) Demo.fates d').1.2 = Some (Ok (c, p)) /\ ClaimCode c = "".
Proof.
  pose proof (only_the_claim_is_cleared Demo.exe Demo.userdir toy_no_bom Demo.fates Demo.disk Demo.fates
    ltac:(by repeat constructor) ltac:(cbn; lia)) as H.
  assert (allowed quiet_reads (ClearClaimCode Demo.exe Demo.userdir) Demo.fates Demo.disk) as Hq by (vm_compute; repeat split).
  assert ((run (ClearClaimCode Demo.exe Demo.userdir) Demo.fates Demo.disk).1.2 = Some (Ok tt)) as Hr by (vm_compute; reflexivity).
  assert (match (run (LoadConfig Demo.exe Demo.userdir) Demo.fates (run (ClearClaimCode Demo.exe Demo.userdir) Demo.fates Demo.disk).1.1).1.2 with
    Some (Ok _) => True | _ => False end) as Hl by (vm_compute; exact I).
  destruct (run (ClearClaimCode _ _) _ _) as [[d' x] fs']. cbn [fst snd] in Hr, Hl. subst x. split; [reflexivity|]. destruct H as [_ H].
  specialize (H eq_refl Hq). destruct (run (LoadConfig _ _) _ d').1.2 as [[[c p]|]|]; [|done|done]. exists c, p. split; [reflexivity|].
  exact (H c p eq_refl).
Defined.
