(* ===== verification/Account.v ===== *)
(** * The device's identity and the account service

    The device key and the credential store ([core/devicestore]), the enrollment that owns
    both and the renewal of what it holds ([core/devicecred_connect.go]), and the client of
    the account service's three verbs ([core/accountclient]). Keys and credentials are
    programs over the disk of [FileSys]. The service is [serve]: what it answers to the
    last of the requests sent so far. The error strings are constructors, and log lines are
    left out. [net/url]'s parser is a parameter, as is the reading of a PEM bundle. *)

From S2P Require Import Prelude GoStrings Base64 Crypto FileSys DeviceCred.
Local Open Scope Z_scope.

(** ** [devicestore.go]: the key *)

(** [ed25519.NewKeyFromSeed] and [priv.Seed()]. *)
Class Seeds `{Ed25519} := {
  from_seed : bytes -> PrivateKey;
  Seed : PrivateKey -> bytes;
}.
Definition SeedSize : nat := 32.
Class SeedsLaws `{Seeds} := {
  Seed_length : forall k, List.length (Seed k) = SeedSize;
  from_seed_Seed : forall k, from_seed (Seed k) = k;
}.

Definition keyFileName : string := "device.key".
Definition CredFileName : string := "credential.json".
Definition legacyAdmissionFileName : string := "admission.cred".

Inductive KeyError := KeyGenerate | KeyMalformed | KeyRead | ErrOrphanedCredential | KeyUnknown | KeyWrite.

Definition refuseIfCredentialSurvives (dir : string) : prog (result KeyError unit) :=
  run! r := call (Stat (Join [dir; CredFileName])) in
  Ret match r with
      | Ok _ => Err ErrOrphanedCredential
      | Err ErrNotExist => Ok tt
      | Err _ => Err KeyUnknown
      end.

(** The new key's file: created exclusively, written, flushed and closed. *)
Definition write_new (path : string) (b : bytes) : prog (result IOErr unit) :=
  try! _ := call (CreateExcl path) in
  run! filled := (try! _ := call (Append path b) in call (Sync path)) in
  match filled with
  | Err e => run! _ := call (Close path) in Ret (Err e)
  | Ok _ => call (Close path)
  end.

Section Keys.
Context `{Seeds}.

(** What the key file says. *)
Definition key_of (b : bytes) : option PrivateKey :=
  match hex_DecodeString (TrimSpace (string_of b)) with
  | Some seed => if (List.length seed =? SeedSize)%nat then Some (from_seed seed) else None
  | None => None
  end.

(** [gen] is what [ed25519.GenerateKey] gives. *)
Definition LoadOrGenerateKey (dir : string) (gen : option PrivateKey) : prog (result KeyError PrivateKey) :=
  if String.eqb dir "" then Ret (of_option KeyGenerate gen)
  else
    let path := Join [dir; keyFileName] in
    run! r := call (ReadFile path) in
    match r with
    | Ok b => Ret (of_option KeyMalformed (key_of b))
    | Err ErrNotExist =>
        try! _ := refuseIfCredentialSurvives dir in
        match gen with
        | None => Ret (Err KeyGenerate)
        | Some priv =>
            try! _ := fails_as (fun _ => KeyWrite) (call (MkdirAll dir)) in
            try! _ := fails_as (fun _ => KeyWrite) (write_new path (bytes_of (hex_EncodeToString (Seed priv)))) in
            try! _ := fails_as (fun _ => KeyWrite) (call (SyncDir dir)) in
            Ret (Ok priv)
        end
    | Err _ => Ret (Err KeyRead)
    end.
End Keys.

(** ** [store.go]: the credential *)

Record Credential := MkCredential { Device : string; IssuerCert : string; Admission : string }.
Definition zero_Credential : Credential := MkCredential "" "" "".
Definition Presentable (c : Credential) : bool :=
  negb (String.eqb (Device c) "") && negb (String.eqb (IssuerCert c) "").
Definition with_admission (c : Credential) (a : string) : Credential := MkCredential (Device c) (IssuerCert c) a.

(** The JSON form. *)
Record record := MkRecord { r_Cred : string; r_IssuerCert : string; r_Admission : string }.

Record Store := MkStore { s_path : string; s_cred : Credential }.

(** [strings.ContainsAny(s, "\r\n")] *)
Definition has_newline (s : string) : bool := negb (free_of "010" s) || negb (free_of "013" s).

Definition adoptLegacyAdmission (dir : string) : prog string :=
  if String.eqb dir "" then Ret ""
  else run! r := call (ReadFile (Join [dir; legacyAdmissionFileName])) in
       Ret match r with
           | Err _ => ""
           | Ok b => let s := TrimSpace (string_of b) in if has_newline s then "" else s
           end.

Section Stores.
Context `{JSON record}.

Definition Open (path : string) : prog Store :=
  let empty := MkStore path zero_Credential in
  if String.eqb path "" then Ret empty
  else run! r := call (ReadFile path) in
       match r with
       | Err _ => Ret empty
       | Ok b => match Unmarshal b with
                 | None => Ret empty
                 | Some rec =>
                     let c := MkCredential (r_Cred rec) (r_IssuerCert rec) (r_Admission rec) in
                     if String.eqb (Admission c) "" then
                       run! a := adoptLegacyAdmission (Dir path) in Ret (MkStore path (with_admission c a))
                     else Ret (MkStore path c)
                 end
       end.

Definition Get (s : Store) : Credential * bool := (s_cred s, Presentable (s_cred s)).

Definition save (path : string) (rec : record) : prog (result IOErr unit) :=
  try! _ := call (MkdirAll (Dir path)) in Write path (Marshal rec).

(** Memory first, then the disk. *)
Definition Put (s : Store) (c : Credential) : prog (result IOErr unit * Store) :=
  let s := MkStore (s_path s) c in
  if String.eqb (s_path s) "" then Ret (Ok tt, s)
  else run! r := save (s_path s) (MkRecord (Device c) (IssuerCert c) (Admission c)) in Ret (r, s).

(** ** [devicecred_connect.go]: the enrollment *)

Definition DeviceCredPath (dir : string) : string :=
  if String.eqb dir "" then "" else Join [dir; CredFileName].

Context `{Seeds}.

Record DeviceEnrollment := MkEnrollment { de_key : PrivateKey; de_store : Store; de_dir : string }.
Definition with_store (d : DeviceEnrollment) (s : Store) : DeviceEnrollment := MkEnrollment (de_key d) s (de_dir d).

Definition OpenDeviceEnrollment (dir : string) (gen : option PrivateKey) : prog (result KeyError DeviceEnrollment) :=
  try! key := LoadOrGenerateKey dir gen in
  run! store := Open (DeviceCredPath dir) in
  Ret (Ok (MkEnrollment key store dir)).

Definition purposeRenew : string := "bacchus/assert-renew/v1".
Definition purposeEnroll : string := "bacchus/assert-enroll/v1".

Definition DevicePub (d : DeviceEnrollment) : bytes := Public (de_key d).
Definition Current (d : DeviceEnrollment) : Credential * bool := Get (de_store d).
Definition Enrolled (d : DeviceEnrollment) : bool := (Current d).2.
Definition SignEnroll (d : DeviceEnrollment) (audience : string) (challenge : bytes) :=
  SignAssertion (de_key d) purposeEnroll audience challenge.
Definition SignRenew (d : DeviceEnrollment) (audience : string) (challenge : bytes) :=
  SignAssertion (de_key d) purposeRenew audience challenge.
Definition Put_ (d : DeviceEnrollment) (c : Credential) : prog (result IOErr unit * DeviceEnrollment) :=
  run! x := Put (de_store d) c in Ret (x.1, with_store d x.2).

(** ** [store.go]: expiry. The clock's zero time is no expiry. *)

Context `{JSON Time}.
(** The codec of times stands for that of [expiryBody], the object with one field. *)
Definition Expiry (encodedCred : string) : option Time :=
  match DecodeDeviceCredential encodedCred with
  | Err _ => None
  | Ok signed =>
      if (List.length signed <=? SignatureSize)%nat then None
      else match Unmarshal (take (List.length signed - SignatureSize) signed) with
           | Some exp => if IsZero exp then None else Some exp
           | None => None
           end
  end.
Definition NeedsRenewal (encodedCred : string) (now : Time) (margin : Duration) : bool :=
  match Expiry encodedCred with
  | None => true
  | Some exp => negb (Before (time_Add now margin) exp)
  end.

Definition defaultDeviceRenewMargin : Duration := 6 * Hour.
Definition deviceRenewMargin (configured : Duration) : Duration :=
  if 0 <? configured then configured else defaultDeviceRenewMargin.

Inductive RenewOutcome := NotDue | RenewFailed | RenewIncomplete | RenewUnsaved | Renewed.

(** [maybeRenewDeviceCred]; [renew] is what [Config.DeviceRenew] answers for what is held,
    if it answers. *)
Definition maybeRenewDeviceCred (renew : option (Credential -> option Credential)) (margin : Duration) (s : Store) (now : Time)
    : prog (RenewOutcome * Store) :=
  match renew with
  | None => Ret (NotDue, s)
  | Some renew =>
      let '(current, ok) := Get s in
      if negb ok then Ret (NotDue, s)
      else if negb (NeedsRenewal (Device current) now (deviceRenewMargin margin)) then Ret (NotDue, s)
      else match renew current with
           | None => Ret (RenewFailed, s)
           | Some fresh =>
               if negb (Presentable fresh) then Ret (RenewIncomplete, s)
               else
                 let fresh := if String.eqb (Admission fresh) "" then with_admission fresh (Admission current) else fresh in
                 run! x := Put s fresh in
                 Ret (if is_ok x.1 then Renewed else RenewUnsaved, x.2)
           end
  end.
End Stores.

(** ** [errors.go] *)

Definition CodeMalformedRequest : string := "malformed_request".
Definition CodeMalformedSecret : string := "malformed_secret".
Definition CodeUnknownChallenge : string := "unknown_challenge".
Definition CodeBadAssertion : string := "bad_assertion".
Definition CodeClaimRejected : string := "claim_rejected".
Definition CodeEntitlementExpired : string := "entitlement_expired".
Definition CodeNoSlots : string := "no_slots".
Definition CodeDeviceRevoked : string := "device_revoked".
Definition CodeAlreadyEnrolled : string := "already_enrolled".
Definition CodeChallengesFull : string := "challenges_full".
Definition CodeUnknownVerb : string := "unknown_verb".
Definition CodeMethodNotAllowed : string := "method_not_allowed".
Definition CodePayloadTooLarge : string := "payload_too_large".
Definition CodeRateLimited : string := "rate_limited".
Definition CodeInternal : string := "internal".
Definition CodeUnavailable : string := "unavailable".

Definition known : list string :=
  [CodeMalformedRequest; CodeMalformedSecret; CodeUnknownChallenge; CodeBadAssertion; CodeClaimRejected;
   CodeEntitlementExpired; CodeNoSlots; CodeDeviceRevoked; CodeAlreadyEnrolled; CodeChallengesFull; CodeUnknownVerb;
   CodeMethodNotAllowed; CodePayloadTooLarge; CodeRateLimited; CodeInternal; CodeUnavailable].

Record Refusal := MkRefusal { e_Code : string; e_Status : Z; e_RetryAfter : Duration; e_Recognized : bool }.

(** [EUnreachable] is any error that wraps [ErrUnreachable]. *)
Inductive AccountError := EUnreachable | ERefused (r : Refusal) | ESign | EPersist | ErrAlreadyHaveCredential | ENoClaim.

Definition is_unreachable (e : AccountError) : bool := match e with EUnreachable => true | _ => false end.
Definition CodeOf (e : AccountError) : option string := match e with ERefused r => Some (e_Code r) | _ => None end.

Definition terminal_codes : list string :=
  [CodeMalformedSecret; CodeClaimRejected; CodeEntitlementExpired; CodeNoSlots; CodeDeviceRevoked; CodeAlreadyEnrolled;
   CodeBadAssertion; CodeMalformedRequest; CodeMethodNotAllowed; CodePayloadTooLarge; CodeUnknownVerb].
Definition Terminal (e : AccountError) : bool :=
  match CodeOf e with None => false | Some code => bool_decide (code ∈ terminal_codes) end.

(** ** [client.go] *)

Record URL := MkURL { u_Scheme : string; u_Host : string; u_Path : string; u_String : string }.
Record ClientConfig := MkClientConfig { BaseURLs : list string; Audience : string; ServerCAFile : string }.
Record AccountClient := MkAccountClient { bases : list string; audience : string }.
Inductive NewError := BadURL | NotHTTPS | NoHost | HasPath | NoBase | NoAudience | NoCA | CARead | CAEmpty.

(** [strings.TrimRight(s, "/")] *)
Fixpoint drop_slashes (l : bytes) : bytes :=
  match l with "/"%char :: l => drop_slashes l | _ => l end.
Definition TrimRightSlash (s : string) : string := string_of (rev (drop_slashes (rev (bytes_of s)))).

Section Client.
(** [url.Parse]; and whether a bundle holds a certificate. *)
Context (ParseURL : string -> option URL) (has_cert : bytes -> bool).

Fixpoint collect_bases (raws : list string) (bases : list string) : result NewError (list string) :=
  match raws with
  | [] => Ok bases
  | raw :: rest =>
      let trimmed := TrimRightSlash (TrimSpace raw) in
      if String.eqb trimmed "" then collect_bases rest bases
      else
        let? u := of_option BadURL (ParseURL trimmed) in
        check! fail_if (negb (String.eqb (u_Scheme u) "https")) NotHTTPS;
        check! fail_if (String.eqb (u_Host u) "") NoHost;
        check! fail_if (negb (String.eqb (u_Path u) "") && negb (String.eqb (u_Path u) "/")) HasPath;
        collect_bases rest (if bool_decide (u_String u ∈ bases) then bases else bases ++ [u_String u])
  end.

(** [New], without a caller's own HTTP client: the time limit and the transport are that
    client's. *)
Definition NewClient (cfg : ClientConfig) : prog (result NewError AccountClient) :=
  match collect_bases (BaseURLs cfg) [] with
  | Err e => Ret (Err e)
  | Ok [] => Ret (Err NoBase)
  | Ok bs =>
      if String.eqb (TrimSpace (Audience cfg)) "" then Ret (Err NoAudience)
      else if String.eqb (TrimSpace (ServerCAFile cfg)) "" then Ret (Err NoCA)
      else run! r := call (ReadFile (ServerCAFile cfg)) in
           Ret match r with
               | Err _ => Err CARead
               | Ok pem => if has_cert pem then Ok (MkAccountClient bs (TrimSpace (Audience cfg))) else Err CAEmpty
               end
  end.
End Client.

(** ** The exchanges *)

Inductive Request :=
| RqChallenge (base : string)
| RqEnroll (base claim : string) (pub : bytes) (label : string) (challenge sig : bytes)
| RqCredential (base : string) (pub challenge sig : bytes).
Definition base_of (r : Request) : string :=
  match r with RqChallenge b | RqEnroll b _ _ _ _ _ | RqCredential b _ _ _ => b end.

(** What a POST gives: nothing (or a body that could not be read), or a status and the
    body. *)
Inductive Reply := NoAnswer | Answer (status : Z) (raw : bytes).

Record challengeResponse := MkChallengeResponse { cr_Challenge : bytes; cr_ExpiresAt : Time }.
Record credentialsResponse := MkCredentialsResponse { cs_Device : string; cs_Admission : string; cs_IssuerCert : string }.
Record errorEnvelope := MkEnvelope { env_Code : string; env_RetryAfterMS : Z }.
Definition zero_credentials : credentialsResponse := MkCredentialsResponse "" "" "".
Definition credential (r : credentialsResponse) : Credential :=
  MkCredential (cs_Device r) (cs_IssuerCert r) (cs_Admission r).

(** The requests made so far, the latest first, and the addresses that did not answer. *)
Record Net := MkNet { sent : list Request; unhealthy : gmap string Time }.

Definition unreachableCooldown : Duration := 30 * Second.
Definition maxResponseBytes : nat := Z.to_nat (Z.shiftl 1 20).

Section Exchange.
Context `{JSON challengeResponse} `{JSON credentialsResponse} `{JSON errorEnvelope}.
(** What the service answers to the last of the requests, and when they are made. *)
Context (serve : list Request -> Reply) (clock : list Request -> Time).

Definition decodeError (status : Z) (raw : bytes) : AccountError :=
  match Unmarshal raw with
  | Some env =>
      if String.eqb (env_Code env) "" then EUnreachable
      else ERefused (MkRefusal (env_Code env) status (wrapi64 (env_RetryAfterMS env * 1000000))
                       (bool_decide (env_Code env ∈ known)))
  | None => EUnreachable
  end.

Definition post {A} `{JSON A} (rq : Request) (n : Net) : result AccountError A * Net :=
  let n := MkNet (rq :: sent n) (unhealthy n) in
  (match serve (sent n) with
   | NoAnswer => Err EUnreachable
   | Answer status raw =>
       let raw := take maxResponseBytes raw in
       if negb (status =? 200) then Err (decodeError status raw) else of_option EUnreachable (Unmarshal raw)
   end, n).

Definition challengeFrom (base : string) (n : Net) : result AccountError bytes * Net :=
  let '(r, n) := post (A := challengeResponse) (RqChallenge base) n in
  (let? resp := r in
   check! fail_if (bool_decide (cr_Challenge resp = [])) EUnreachable;
   Ok (cr_Challenge resp), n).

Definition cooling (n : Net) (base : string) : bool :=
  match unhealthy n !! base with
  | Some t => time_Sub (clock (sent n)) t <? unreachableCooldown
  | None => false
  end.
Definition baseOrder (c : AccountClient) (n : Net) : list string :=
  filter (fun b => cooling n b = false) (bases c) ++ filter (fun b => cooling n b = true) (bases c).
Definition markUnreachable (base : string) (n : Net) : Net :=
  MkNet (sent n) (<[base := clock (sent n)]> (unhealthy n)).

(** The loop's last error, at first none. *)
Fixpoint over_from {A} (exchange : string -> Net -> result AccountError A * Net) (order : list string)
    (last : result AccountError A) (n : Net) : result AccountError A * Net :=
  match order with
  | [] => (last, n)
  | base :: order =>
      let '(r, n) := exchange base n in
      match r with
      | Err e => if is_unreachable e then over_from exchange order r (markUnreachable base n) else (r, n)
      | Ok _ => (r, n)
      end
  end.
Definition overExchanges {A} (c : AccountClient) (zero : A) (exchange : string -> Net -> result AccountError A * Net) (n : Net)
    : result AccountError A * Net :=
  over_from exchange (baseOrder c n) (Ok zero) n.

Definition Challenge (c : AccountClient) (n : Net) : result AccountError bytes * Net :=
  overExchanges c [] challengeFrom n.

(** A public key, and what signs under one purpose. *)
Record signer := MkSigner { sg_pub : bytes; sg_sign : string -> bytes -> result DeviceCred.Error bytes }.

Definition issueCredentialOnce (c : AccountClient) (s : signer) (base : string) (n : Net)
    : result AccountError credentialsResponse * Net :=
  let '(r, n) := challengeFrom base n in
  match r with
  | Err e => (Err e, n)
  | Ok challenge =>
      match sg_sign s (audience c) challenge with
      | Err _ => (Err ESign, n)
      | Ok sig => post (RqCredential base (sg_pub s) challenge sig) n
      end
  end.

Definition is_code (code : string) (e : AccountError) : bool := bool_decide (CodeOf e = Some code).

Definition issue_at (c : AccountClient) (s : signer) (base : string) (n : Net)
    : result AccountError credentialsResponse * Net :=
  let '(r, n) := issueCredentialOnce c s base n in
  match r with
  | Err e => if is_code CodeUnknownChallenge e then issueCredentialOnce c s base n else (r, n)
  | Ok _ => (r, n)
  end.
Definition issueCredential (c : AccountClient) (s : signer) (n : Net) : result AccountError credentialsResponse * Net :=
  overExchanges c zero_credentials (issue_at c s) n.

(** ** [renew.go] *)

Definition Renew (c : AccountClient) (s : signer) (n : Net) : result AccountError Credential * Net :=
  let '(r, n) := issueCredential c s n in
  (let? resp := r in
   let cred := credential resp in
   check! fail_if (negb (Presentable cred)) EUnreachable;
   Ok cred, n).

(** ** [enroll.go] *)

Context `{JSON record} `{Seeds}.

Definition persist (d : DeviceEnrollment) (resp : credentialsResponse) : prog (result AccountError Credential * DeviceEnrollment) :=
  let issued := credential resp in
  if negb (Presentable issued) then Ret (Err EUnreachable, d)
  else
    let issued := if String.eqb (Admission issued) "" then with_admission issued (Admission (Current d).1) else issued in
    run! x := Put_ d issued in
    Ret (match x.1 with Err _ => Err EPersist | Ok _ => Ok issued end, x.2).

Definition renew_signer (d : DeviceEnrollment) : signer := MkSigner (DevicePub d) (SignRenew d).

Definition Collect (c : AccountClient) (d : DeviceEnrollment) (n : Net)
    : prog (result AccountError Credential * DeviceEnrollment * Net) :=
  let '(r, n) := issueCredential c (renew_signer d) n in
  match r with
  | Err e => Ret (Err e, d, n)
  | Ok resp => run! x := persist d resp in Ret (x, n)
  end.

(** The addresses are tried until one gives a challenge. *)
Fixpoint first_challenge (order : list string) (last : result AccountError (string * bytes)) (n : Net)
    : result AccountError (string * bytes) * Net :=
  match order with
  | [] => (last, n)
  | base :: order =>
      let '(r, n) := challengeFrom base n in
      match r with
      | Ok challenge => (Ok (base, challenge), n)
      | Err e => if is_unreachable e then first_challenge order (Err e) (markUnreachable base n) else (Err e, n)
      end
  end.

Definition collect_or (c : AccountClient) (d : DeviceEnrollment) (e : AccountError) (n : Net)
    : prog (result AccountError Credential * DeviceEnrollment * Net) :=
  run! x := Collect c d n in
  Ret match x with
      | (Ok res, d, n) => (Ok res, d, n)
      | (Err _, d, n) => (Err e, d, n)
      end.

Definition Enroll (c : AccountClient) (d : DeviceEnrollment) (claim label : string) (n : Net)
    : prog (result AccountError Credential * DeviceEnrollment * Net) :=
  if String.eqb claim "" then Ret (Err ENoClaim, d, n)
  else if Enrolled d then Ret (Err ErrAlreadyHaveCredential, d, n)
  else
    let '(r, n) := first_challenge (baseOrder c n) (Ok ("", [])) n in
    match r with
    | Err e => Ret (Err e, d, n)
    | Ok (base, challenge) =>
        if String.eqb base "" then Ret (Ok zero_Credential, d, n)
        else
          match SignEnroll d (audience c) challenge with
          | Err _ => Ret (Err ESign, d, n)
          | Ok sig =>
              let '(r, n) := post (RqEnroll base claim (DevicePub d) label challenge sig) n in
              match r with
              | Ok resp => run! x := persist d resp in Ret (x, n)
              | Err e =>
                  if is_unreachable e || is_code CodeAlreadyEnrolled e then collect_or c d e n
                  else Ret (Err e, d, n)
              end
          end
    end.
End Exchange.

(** ** The key *)

Section KeyProofs.
Context `{SeedsLaws}.

Lemma hex_char_visible v : 0 <= v < 16 -> visible (hex_char v) = true.
Proof.
  intros Hv. apply (bool_decide_eq_true_1 (visible (hex_char v) = true)).
  revert v Hv. by apply (forall_below 16).
Qed.

Lemma hex_visible b : forallb visible (bytes_of (hex_EncodeToString b)) = true.
Proof.
  unfold hex_EncodeToString. rewrite bytes_of_string_of. induction b as [|c b IH]; [done|].
  pose proof (octet_range c). simpl. by rewrite !hex_char_visible by (Z.to_euclidean_division_equations; lia).
Qed.

Lemma hex_length b : List.length (bytes_of (hex_EncodeToString b)) = (2 * List.length b)%nat.
Proof.
  unfold hex_EncodeToString. rewrite bytes_of_string_of. induction b as [|c b IH]; [done|]. simpl in *. lia.
Qed.

(** A key file is the whole text of its key, or it is no key. *)
Lemma key_of_torn priv n :
  key_of (take n (bytes_of (hex_EncodeToString (Seed priv)))) = None \/
  take n (bytes_of (hex_EncodeToString (Seed priv))) = bytes_of (hex_EncodeToString (Seed priv)).
Proof.
  pose proof (hex_visible (Seed priv)) as Hv. pose proof (hex_length (Seed priv)) as Hl. rewrite Seed_length in Hl.
  set (t := bytes_of _) in *. destruct (decide (List.length t <= n)%nat) as [Hn|Hn]; [right; by rewrite take_ge|left].
  unfold key_of. rewrite TrimSpace_visible.
  2:{ rewrite bytes_of_string_of. rewrite forallb_forall in *. intros x Hx. apply Hv.
      rewrite <-(take_drop n t). apply in_or_app. by left. }
  unfold hex_DecodeString. rewrite bytes_of_string_of. destruct (hex_decode _) as [seed|] eqn:Hd; [|done].
  assert (List.length (take n t) = 2 * List.length seed)%nat as Hs.
  { clear -Hd. revert seed Hd. generalize (take n t). fix IH 1. intros [|a [|b l]] seed; simpl; [by intros [= <-]|done|].
    destruct (hex_value a), (hex_value b); simpl; try done. destruct (hex_decode l) eqn:E; simpl; [|done].
    intros [= <-]. simpl. rewrite (IH l _ E). lia. }
  rewrite length_take in Hs. unfold SeedSize in *. destruct (Nat.eqb_spec (List.length seed) 32) as [He|]; [|done]. lia.
Qed.

Lemma key_of_text priv : key_of (bytes_of (hex_EncodeToString (Seed priv))) = Some priv.
Proof.
  unfold key_of. rewrite string_of_bytes_of, TrimSpace_visible by apply hex_visible. rewrite hex_roundtrip, Seed_length.
  simpl. by rewrite from_seed_Seed.
Qed.

(** ** Creating the file: [t] is the text *)

Definition partly (path : string) (t : bytes) (d d' : Disk) : Prop := exists n, d' = <[path := take n t]> d.

Lemma wp_write_new ok path t (C : Disk -> Prop) (Q : result IOErr unit -> Disk -> Prop) d :
  d !! path = None -> C d -> (forall d', partly path t d d' -> C d') ->
  (wfail ok -> Q (Err EIO) d /\ forall d', partly path t d d' -> Q (Err EIO) d') -> Q (Ok tt) (<[path := t]> d) ->
  wp ok (write_new path t) C Q d.
Proof.
  intros Hd HC HCp HE HQ.
  assert (partly path t d (<[path := t]> d)) as Hfull by (exists (List.length t); by rewrite take_ge).
  assert (partly path t d (<[path := []]> d)) as Hempty by (by exists O).
  unfold write_new. apply wp_try, wp_CreateExcl; [done|intros [Hw|Hn]; [exact (proj1 (HE Hw))|done]|intros _].
  apply wp_bind, wp_try, (wp_Append ok path t C _ _ []); [by rewrite lookup_insert_eq|auto|..].
  - intros Hw n. rewrite insert_insert_eq. assert (partly path t d (<[path := take n t]> d)) as Hp by (by exists n).
    apply wp_flush_ignored; [done|auto|]. exact (proj2 (HE Hw) _ Hp).
  - rewrite insert_insert_eq. change ([] ++ t) with t. apply wp_flush; [done|auto| |].
    + intros Hw. apply wp_flush_ignored; [done|auto|]. exact (proj2 (HE Hw) _ Hfull).
    + apply wp_flush; [done|auto| |done]. intros Hw. exact (proj2 (HE Hw) _ Hfull).
Qed.

Definition key_path (dir : string) : string := Join [dir; keyFileName].
Definition cred_path (dir : string) : string := Join [dir; CredFileName].

(** What a call may leave of the disk: nothing changed, or a first run's key file. *)
Definition key_kept (dir : string) (gen : option PrivateKey) (d d' : Disk) : Prop :=
  d' = d \/ (d !! key_path dir = None /\ d !! cred_path dir = None /\
    exists priv, gen = Some priv /\ partly (key_path dir) (bytes_of (hex_EncodeToString (Seed priv))) d d').

Lemma wp_LoadOrGenerateKey ok dir gen d :
  dir <> "" ->
  wp ok (LoadOrGenerateKey dir gen) (key_kept dir gen d)
    (fun r d' => key_kept dir gen d d' /\
       (forall k, r = Ok k -> exists b, d' !! key_path dir = Some b /\ key_of b = Some k) /\
       (~ rfail ok -> ~ wfail ok -> d !! key_path dir = None -> d !! cred_path dir = None -> forall k, gen = Some k -> r = Ok k)) d.
Proof.
  intros Hdir. assert (key_kept dir gen d d) as Hsame by by left.
  unfold LoadOrGenerateKey. destruct (String.eqb_spec dir ""); [done|].
  apply wp_bind, wp_ReadFile; [done|by intros; simpl; naive_solver| |].
  2:{ intros b Hb. simpl. split; [done|]. split; [|by unfold key_path; intros; congruence].
      intros k Hk%of_option_Ok_inv. by exists b. }
  intros Hkey. unfold refuseIfCredentialSurvives. apply wp_try, wp_bind, wp_Stat; [done|by intros; simpl; naive_solver| |].
  2:{ intros [b Hb]. simpl. unfold cred_path. naive_solver congruence. }
  intros Hcred. simpl. destruct gen as [priv|]; [|simpl; naive_solver].
  assert (forall d', partly (key_path dir) (bytes_of (hex_EncodeToString (Seed priv))) d d' -> key_kept dir (Some priv) d d') as Hp.
  { intros d' Hp. right. unfold key_path, cred_path. eauto. }
  apply wp_try, wp_fails_as, wp_flush; [done|done|by intros; simpl; naive_solver|].
  apply wp_try, wp_fails_as, wp_write_new; [done|done|by intros; apply Hp| |].
  { intros Hw. split; [|intros d' ?%Hp]; simpl; naive_solver. }
  assert (key_kept dir (Some priv) d (<[key_path dir := bytes_of (hex_EncodeToString (Seed priv))]> d)) as Hfull.
  { apply Hp. exists (List.length (bytes_of (hex_EncodeToString (Seed priv)))). by rewrite take_ge. }
  apply wp_try, wp_fails_as, wp_flush; [done|done|by intros; simpl; naive_solver|].
  split; [done|]. split; [|by intros _ _ _ _ k [= ->]]. intros k [= <-]. eexists. split; [by rewrite lookup_insert_eq|].
  apply key_of_text.
Qed.

Lemma calls_LoadOrGenerateKey dir gen : calls_at_most 8 (LoadOrGenerateKey dir gen).
Proof.
  unfold LoadOrGenerateKey. destruct (String.eqb dir ""); [done|]. simpl. intros [b|[|]]; [done| |done].
  simpl. intros [u|[|]]; simpl; [done| |done]. destruct gen; [|done]. by repeat (intros [] || simpl).
Qed.

(** Whatever fails and wherever the process dies, a key file that is there is never
    changed, and no key is made beside a credential; the file of a first run is the whole
    key or no key at all; the key returned is the one on the disk; and a first run on
    which nothing fails makes one. *)
Theorem key_is_never_replaced dir gen fs d :
  dir <> "" ->
  let '(d', r, _) := run (LoadOrGenerateKey dir gen) fs d in
  key_kept dir gen d d' /\
  (forall b, d !! key_path dir = Some b -> d' !! key_path dir = Some b) /\
  (d !! key_path dir = None -> forall b k, d' !! key_path dir = Some b -> key_of b = Some k -> gen = Some k) /\
  (forall k, r = Some (Ok k) -> exists b, d' !! key_path dir = Some b /\ key_of b = Some k) /\
  (forall k, d !! key_path dir = None -> d !! cred_path dir = None -> gen = Some k ->
     allowed calm (LoadOrGenerateKey dir gen) fs d -> (8 <= List.length fs)%nat -> r = Some (Ok k)).
Proof.
  intros Hdir. pose proof (wp_run any_fate _ _ _ d fs (wp_LoadOrGenerateKey any_fate dir gen d Hdir)) as HW.
  pose proof (wp_run calm _ _ _ d fs (wp_LoadOrGenerateKey calm dir gen d Hdir)) as HC.
  pose proof (calls_return _ 8 fs d (calls_LoadOrGenerateKey dir gen)) as HR.
  destruct (run _ fs d) as [[d' r] fs']. specialize (HW (allowed_any _ _ _)).
  assert (key_kept dir gen d d') as Hk by (destruct r; [apply HW|done]).
  split_and!; [done| | | |].
  - intros b Hb. destruct Hk as [->|(Hn & _)]; congruence.
  - intros Hn b k Hb Hkey. destruct Hk as [->|(_ & _ & priv & -> & n & ->)]; [congruence|].
    rewrite lookup_insert_eq in Hb. injection Hb as <-. rewrite <-Hkey.
    destruct (key_of_torn priv n) as [Ht|Ht]; [by rewrite Ht in Hkey|]. by rewrite Ht, key_of_text.
  - intros k ->. by apply HW.
  - intros k Hkey Hcred Hgen Hcalm Hlen. destruct (HR Hlen) as [a Ha]. simpl in Ha. subst r. specialize (HC Hcalm).
    f_equal. apply HC; [apply calm_reads|apply calm_writes|done..].
Qed.
End KeyProofs.

(** ** The requests an exchange makes *)

Definition is_enroll (r : Request) : bool := match r with RqEnroll _ _ _ _ _ _ => true | _ => false end.

(** From [n] to [n'] only requests of the kind [P] were made. *)
Definition asked (P : Request -> Prop) (n n' : Net) : Prop := exists new, sent n' = new ++ sent n /\ Forall P new.

Lemma asked_refl P n n' : sent n' = sent n -> asked P n n'.
Proof. intros Hs. by exists []. Qed.
Lemma asked_one (P : Request -> Prop) rq n n' : sent n' = rq :: sent n -> P rq -> asked P n n'.
Proof. intros Hs Hp. exists [rq]. split; [done|by constructor]. Qed.
Lemma asked_trans P n1 n2 n3 : asked P n1 n2 -> asked P n2 n3 -> asked P n1 n3.
Proof.
  intros (a & Ha & Pa) (b & Hb & Pb). exists (b ++ a). rewrite Hb, Ha, app_assoc. split; [done|]. by apply Forall_app.
Qed.
Lemma asked_mono (P Q : Request -> Prop) n n' : asked P n n' -> (forall r, P r -> Q r) -> asked Q n n'.
Proof. intros (a & Ha & Pa) HPQ. exists a. split; [done|]. by eapply Forall_impl. Qed.

Section ExchangeProofs.
Context `{JSON challengeResponse} `{JSON credentialsResponse} `{JSON errorEnvelope}.
Context (serve : list Request -> Reply) (clock : list Request -> Time).

(** A request to an address of the client that spends nothing. *)
Definition spends_nothing (c : AccountClient) (r : Request) : Prop := base_of r ∈ bases c /\ is_enroll r = false.
Definition plain_at (b : string) (r : Request) : Prop := base_of r = b /\ is_enroll r = false.

Lemma challengeFrom_sent b n : sent (challengeFrom serve b n).2 = RqChallenge b :: sent n.
Proof. reflexivity. Qed.

Lemma issueCredentialOnce_grows c s b n : asked (plain_at b) n (issueCredentialOnce serve c s b n).2.
Proof.
  unfold issueCredentialOnce. pose proof (challengeFrom_sent b n) as Hs. destruct (challengeFrom serve b n) as [r n1]. simpl in Hs.
  assert (asked (plain_at b) n n1) as Hg by (eapply asked_one; [exact Hs|done]).
  destruct r as [ch|e]; [|done]. destruct (sg_sign s (audience c) ch) as [sig|e]; [|done].
  eapply asked_trans; [exact Hg|]. eapply asked_one; [reflexivity|done].
Qed.

Lemma issue_at_grows c s b n : asked (plain_at b) n (issue_at serve c s b n).2.
Proof.
  unfold issue_at. pose proof (issueCredentialOnce_grows c s b n) as Hg.
  destruct (issueCredentialOnce serve c s b n) as [[r|e] n1]; [done|]. case_match; [|done].
  eapply asked_trans; [exact Hg|apply issueCredentialOnce_grows].
Qed.

Lemma over_from_grows {A} (ex : string -> Net -> result AccountError A * Net) order last n :
  (forall b n, asked (plain_at b) n (ex b n).2) ->
  asked (fun r => base_of r ∈ order /\ is_enroll r = false) n (over_from clock ex order last n).2.
Proof.
  intros Hex. revert last n. induction order as [|b order IH]; intros last n; simpl; [by apply asked_refl|].
  pose proof (Hex b n) as Hg. destruct (ex b n) as [r n1].
  assert (asked (fun r => base_of r ∈ b :: order /\ is_enroll r = false) n n1) as Hb.
  { eapply asked_mono; [exact Hg|]. intros rq [-> Hn]. split; [by left|done]. }
  destruct r as [a|e]; [done|]. case_match; [|done]. eapply asked_trans; [exact Hb|].
  eapply asked_trans; [by apply (asked_refl _ n1 (markUnreachable clock b n1))|].
  eapply asked_mono; [apply IH|]. intros rq [Hin Hn]. split; [by right|done].
Qed.

Lemma baseOrder_perm c n : baseOrder clock c n ≡ₚ bases c.
Proof.
  unfold baseOrder. induction (bases c) as [|b l IH]; [done|].
  rewrite !filter_cons. destruct (cooling clock n b); simpl; [|by rewrite IH].
  by rewrite <-Permutation_middle, IH.
Qed.

Lemma overExchanges_grows {A} c (zero : A) ex n :
  (forall b n, asked (plain_at b) n (ex b n).2) -> asked (spends_nothing c) n (overExchanges clock c zero ex n).2.
Proof.
  intros Hex. eapply asked_mono; [by apply over_from_grows|]. intros r [Hin Hn]. split; [|done].
  by rewrite baseOrder_perm in Hin.
Qed.

Lemma issueCredential_grows c s n : asked (spends_nothing c) n (issueCredential serve clock c s n).2.
Proof. apply overExchanges_grows, issue_at_grows. Qed.

(** The service answered the last request with this challenge. *)
Definition challenged (rqs : list Request) (ch : bytes) : Prop :=
  exists raw resp, serve rqs = Answer 200 raw /\ Unmarshal (take maxResponseBytes raw) = Some resp /\ cr_Challenge resp = ch /\ ch <> [].

Lemma challengeFrom_Ok b n ch n' : challengeFrom serve b n = (Ok ch, n') -> challenged (sent n') ch.
Proof.
  unfold challengeFrom, post. intros [= Hr <-]. simpl. destruct (serve _) as [|st raw] eqn:Hs; [done|].
  destruct (Z.eqb_spec st 200) as [->|]; [|done]. simpl in Hr. inv_result. b2p. by exists raw, a.
Qed.

Lemma first_challenge_grows order last n :
  let '(r, n') := first_challenge serve clock order last n in
  asked (fun r => base_of r ∈ order /\ is_enroll r = false) n n' /\
  (forall b ch, r = Ok (b, ch) -> (last = Ok (b, ch) /\ order = []) \/
     b ∈ order /\ challenged (sent n') ch /\ exists before, sent n' = RqChallenge b :: before).
Proof.
  revert last n. induction order as [|a order IH]; intros last n; cbn [first_challenge]; [split; [by apply asked_refl|by left]|].
  pose proof (challengeFrom_sent a n) as Hs. destruct (challengeFrom serve a n) as [[ch|e] n1] eqn:Hc; simpl in Hs; cbv beta iota.
  - split; [by eapply asked_one; [exact Hs|split; [left|done]]|]. intros b ch' [= <- <-]. right. split; [by left|].
    split; [by eapply challengeFrom_Ok|]. by eexists.
  - destruct (is_unreachable e).
    + specialize (IH (Err e) (markUnreachable clock a n1)). destruct (first_challenge serve clock order _ _) as [r n2].
      destruct IH as [Hg Hr]. split.
      * eapply asked_trans; [by eapply (asked_one _ _ n n1 Hs); split; [left|done]|].
        eapply asked_trans; [by apply (asked_refl _ n1 (markUnreachable clock a n1))|].
        eapply asked_mono; [exact Hg|]. intros rq [Hin Hn]. split; [by right|done].
      * intros b ch Hb. destruct (Hr b ch Hb) as [[? _]|(Hin & Hrest)]; [done|]. right. split; [by right|done].
    + split; [by eapply asked_one; [exact Hs|split; [left|done]]|done].
Qed.
End ExchangeProofs.

(** ** What [Put] leaves *)

Section Saving.
Context `{JSON record}.

Definition saved (cred : Credential) : bytes := Marshal (MkRecord (Device cred) (IssuerCert cred) (Admission cred)).

(** Whichever call fails and wherever it is killed, [Put] leaves the file as it was or whole,
    and whole when it succeeds. *)
Lemma Put_saves (s : Store) cred fs dk :
  s_path s <> "" -> hidden (s_path s) = false ->
  let '(dk', r, _) := run (Put s cred) fs dk in
  replaced (s_path s) (saved cred) dk dk' /\
  forall res s', r = Some (res, s') -> s' = MkStore (s_path s) cred /\ (is_ok res = true -> dk' !! s_path s = Some (saved cred)).
Proof.
  intros Hp Hh. pose (kept := fun d' : Disk => replaced (s_path s) (saved cred) dk d').
  pose proof (wp_run any_fate (Put s cred) kept
    (fun r d' => kept d' /\ r.2 = MkStore (s_path s) cred /\ (is_ok r.1 = true -> d' !! s_path s = Some (saved cred))) dk fs) as HW.
  assert (Hold : forall d', noise dk d' -> kept d') by (intros; apply noise_replaced; auto).
  destruct (run (Put s cred) fs dk) as [[dk' r] fs'].
  assert (match r with Some a => kept dk' /\ a.2 = MkStore (s_path s) cred /\ (is_ok a.1 = true -> dk' !! s_path s = Some (saved cred))
          | None => kept dk' end) as Hres.
  { apply HW; [|apply allowed_any]. unfold Put. cbn [s_path]. rewrite (proj2 (String.eqb_neq _ "") Hp).
    assert (kept dk) as Hsame by auto with bacchus.
    apply wp_bind. unfold save. apply wp_try, wp_flush; [done|done|done|]. apply wp_Write; [done| |].
    - intros _ d' e Hn. by split; [auto|].
    - intros d' Hn. assert (kept d') by (apply noise_replaced; auto). split; [done|]. split; [done|]. split; [done|]. intros _.
      rewrite (noise_plain _ _ _ Hn Hh). by rewrite lookup_insert_eq. }
  destruct r as [[res s']|]; [|done]. destruct Hres as (Hk & [= ->] & Hok). split; [done|]. by intros ? ? [= <- <-].
Qed.
End Saving.

Section Renewal.
Context `{JSON record} `{JSON Time}.

Lemma Put_run (s : Store) cred fs dk :
  match run (Put s cred) fs dk with
  | (_, Some (_, s'), _) => s' = MkStore (s_path s) cred
  | _ => True
  end.
Proof.
  unfold Put. destruct (String.eqb _ _); [done|]. rewrite run_bind.
  by destruct (run (save _ _) fs dk) as [[dk' [r|]] fs'].
Qed.

(** A renewal never takes a credential away: whatever the service answers and whichever
    writes fail, what is held stays as it was, or is the whole fresh credential with an
    admission credential if one was held or issued; and it is that when one is due and
    the service gives it. *)
Theorem renewal_keeps_access renew margin s now fs dk :
  match run (maybeRenewDeviceCred renew margin s now) fs dk with
  | (_, Some (o, s'), _) =>
      s_path s' = s_path s /\
      (Presentable (s_cred s) = true -> Presentable (s_cred s') = true) /\
      (Admission (s_cred s) <> "" -> Admission (s_cred s') <> "") /\
      (s' = s \/ exists r fresh, renew = Some r /\ r (s_cred s) = Some fresh /\ Presentable fresh = true /\
         Device (s_cred s') = Device fresh /\ IssuerCert (s_cred s') = IssuerCert fresh /\
         NeedsRenewal (Device (s_cred s)) now (deviceRenewMargin margin) = true) /\
      (forall r fresh, renew = Some r -> r (s_cred s) = Some fresh -> Presentable fresh = true -> Presentable (s_cred s) = true ->
         NeedsRenewal (Device (s_cred s)) now (deviceRenewMargin margin) = true -> Device (s_cred s') = Device fresh)
  | _ => True
  end.
Proof.
  unfold maybeRenewDeviceCred. destruct renew as [renew|]; [|by split_and!; auto].
  unfold Get. destruct (Presentable (s_cred s)) eqn:Hp; cbn [negb]; [|by split_and!; auto].
  destruct (NeedsRenewal _ now _) eqn:Hdue; cbn [negb]; [|by split_and!; auto].
  destruct (renew (s_cred s)) as [fresh|] eqn:Hr; [|split_and!; auto; intros ? ? [= <-]; congruence].
  destruct (Presentable fresh) eqn:Hf; cbn [negb]; [|split_and!; auto; intros ? ? [= <-]; congruence].
  set (issued := if String.eqb _ _ then _ else _). rewrite run_bind. pose proof (Put_run s issued fs dk) as HP.
  destruct (run (Put _ _) fs dk) as [[dk' [[r s']|]] fs']; [|done]. subst s'. cbn [run s_path s_cred snd].
  assert (Device issued = Device fresh /\ IssuerCert issued = IssuerCert fresh) as [Hd Hi] by (unfold issued; by case_match).
  split_and!; [done| | | |].
  - intros _. unfold Presentable in *. by rewrite Hd, Hi.
  - intros Ha. unfold issued. destruct (String.eqb_spec (Admission fresh) ""); [by simpl|done].
  - right. by exists renew, fresh.
  - intros ? ? [= <-] Hr' _ _ _. rewrite Hd. congruence.
Qed.
End Renewal.

(** ** A claim code is spent once *)

Section EnrollProofs.
Context `{Ed25519Laws} `{!Seeds} `{JSON record}.
Context `{JSON challengeResponse} `{JSON credentialsResponse} `{JSON errorEnvelope}.
Context (serve : list Request -> Reply) (clock : list Request -> Time).
Context (c : AccountClient) (d : DeviceEnrollment) (claim label : string).

Lemma SignAssertion_verifies p a ch sig :
  SignAssertion (de_key d) p a ch = Ok sig -> VerifyAssertion (DevicePub d) p a ch sig = Ok tt.
Proof.
  unfold SignAssertion, VerifyAssertion. intros Hs. inv_result. rewrite E.
  unfold bad_key_length, DevicePub. rewrite Public_length. simpl. by rewrite Verify_Sign.
Qed.

(** The one enrollment among the requests, if there is one: [before] it came the
    challenge it answers, at the same address. *)
Record enrolled_once (before after : list Request) (rq : Request) : Prop := {
  eo_request : exists b ch sig, rq = RqEnroll b claim (DevicePub d) label ch sig /\ b ∈ bases c /\
    VerifyAssertion (DevicePub d) purposeEnroll (audience c) ch sig = Ok tt /\
    challenged serve before ch /\ exists earlier, before = RqChallenge b :: earlier;
  eo_after : after = [] \/ serve (rq :: before) = NoAnswer \/ exists e status raw, serve (rq :: before) = Answer status raw /\
    e = fst (post (A := credentialsResponse) serve rq (MkNet before ∅)) /\
    match e with Err e => is_unreachable e || is_code CodeAlreadyEnrolled e | Ok _ => false end = true;
}.

(** What the requests made from [n] on are: none that spends anything, or one enrollment. *)
Definition spent_once (n n' : Net) : Prop :=
  asked (spends_nothing c) n n' \/
  exists n1 rq after, asked (spends_nothing c) n n1 /\ sent n' = after ++ rq :: sent n1 /\
    Forall (spends_nothing c) after /\ enrolled_once (sent n1) after rq.

Definition cred_file : string := s_path (de_store d).
(** The credential's file is as it was, or holds a whole credential. *)
Definition file_kept (dk dk' : Disk) : Prop :=
  dk' !! cred_file = dk !! cred_file \/ exists cred, Presentable cred = true /\ dk' !! cred_file = Some (saved cred).
(** After a call: if it succeeded, its credential is held and is what the file holds; if
    not, nothing has changed, or a whole credential is held that could not be saved. *)
Definition stored (r : result AccountError Credential) (d' : DeviceEnrollment) (dk dk' : Disk) : Prop :=
  match r with
  | Ok cred => Presentable cred = true /\ Current d' = (cred, true) /\ dk' !! cred_file = Some (saved cred)
  | Err _ => d' = d /\ dk' = dk \/ Enrolled d' = true
  end /\ de_key d' = de_key d /\ s_path (de_store d') = cred_file.

Lemma file_same dk : file_kept dk dk.
Proof. by left. Qed.
Lemma stored_same e dk : stored (Err e) d dk dk.
Proof. split; [by left|done]. Qed.
Hint Resolve file_same stored_same : core.

Context (Hfile : cred_file <> "") (Hplain : hidden cred_file = false).

Lemma persist_stored resp fs dk :
  let '(dk', r, _) := run (persist d resp) fs dk in
  file_kept dk dk' /\ match r with Some (r, d') => stored r d' dk dk' | None => True end.
Proof.
  unfold persist. destruct (Presentable (credential resp)) eqn:Hp; cbn [negb]; [|by auto].
  set (issued := if String.eqb _ _ then _ else _).
  assert (Presentable issued = true) as Hi by (unfold issued; by case_match). clearbody issued.
  unfold Put_. rewrite !run_bind. pose proof (Put_saves (de_store d) issued fs dk Hfile Hplain) as HP.
  destruct (run (Put _ _) fs dk) as [[dk' r] fs']. destruct HP as [[Hpath _] Hr].
  assert (file_kept dk dk') as Hk by (destruct Hpath; [by left|right; by exists issued]).
  destruct r as [[r s']|]; [|done]. destruct (Hr _ _ eq_refl) as [-> Hok].
  assert (Current (with_store d (MkStore (s_path (de_store d)) issued)) = (issued, true)) as Hcur.
  { unfold Current, Get. simpl. by rewrite Hi. }
  destruct r as [u|e]; simpl; (split; [done|split; [|done]]).
  - split_and!; try done. by apply Hok.
  - right. unfold Enrolled. by rewrite Hcur.
Qed.

Lemma collect_or_run e n fs dk :
  let '(dk', x, _) := run (collect_or serve clock c d e n) fs dk in
  file_kept dk dk' /\ match x with Some (r, d', n') => asked (spends_nothing c) n n' /\ stored r d' dk dk' | None => True end.
Proof.
  unfold collect_or, Collect. pose proof (issueCredential_grows serve clock c (renew_signer d) n) as Hg.
  destruct (issueCredential serve clock c (renew_signer d) n) as [[resp|e'] n1]; cbn [snd] in Hg; cbv beta iota; [|by auto].
  rewrite !run_bind. pose proof (persist_stored resp fs dk) as Hs.
  destruct (run (persist d resp) fs dk) as [[dk' [[r d']|]] fs']; destruct Hs as [Hk Hs]; simpl; [|done].
  destruct r as [cred|e']; simpl; split_and!; try done.
Qed.

(** C14: Whatever the service answers, whichever writes fail and wherever the process is
    killed: an enrollment is asked for at most once, with the claim code and this device's
    key, signed for the audience over a challenge that the address it is sent to has just
    given; every other request spends nothing; after an answer that is a refusal other than
    "already enrolled" there is no request at all. The credential's file is as it was or
    holds a whole credential; when the call succeeds it holds the credential that is
    reported, and when it fails the device is as it was or holds a whole credential that
    could not be saved. *)
Theorem enrollment_spends_once n fs dk :
  bases c <> [] -> "" ∉ bases c ->
  let '(dk', x, _) := run (Enroll serve clock c d claim label n) fs dk in
  file_kept dk dk' /\
  match x with
  | Some (r, d', n') => spent_once n n' /\ stored r d' dk dk'
  | None => True
  end.
Proof.
  intros Hne Hempty.
  assert (spent_once n n) as Hnone by (left; by apply asked_refl).
  unfold Enroll. destruct (String.eqb claim ""); [by split|]. destruct (Enrolled d); [by split|].
  pose proof (first_challenge_grows serve clock (baseOrder clock c n) (Ok ("", [])) n) as Hf.
  destruct (first_challenge serve clock _ _ n) as [r n1] eqn:Hr. destruct Hf as [Hg Hch].
  assert (asked (spends_nothing c) n n1) as Hg1.
  { eapply asked_mono; [exact Hg|]. intros rq [Hin Hn]. split; [by rewrite baseOrder_perm in Hin|done]. }
  destruct r as [[base ch]|e]; [|by split; [auto|split; [left|auto]]].
  destruct (Hch base ch eq_refl) as [[_ Hnil]|(Hin & Hcd & before & Hb)].
  { pose proof (baseOrder_perm clock c n) as Hperm. rewrite Hnil in Hperm. by apply Permutation_nil_l in Hperm. }
  rewrite baseOrder_perm in Hin. destruct (String.eqb_spec base "") as [->|_]; [done|].
  destruct (SignEnroll d (audience c) ch) as [sig|e] eqn:Hsig; [|by split; [auto|split; [left|auto]]].
  set (rq := RqEnroll base claim (DevicePub d) label ch sig).
  destruct (post serve rq n1) as [resp n2] eqn:Hpost. pose proof (f_equal fst Hpost) as Hresp.
  assert (sent n2 = rq :: sent n1) as Hs2 by (by injection Hpost as _ <-).
  assert (forall after, (after = [] \/ serve (rq :: sent n1) = NoAnswer \/ exists e status raw, serve (rq :: sent n1) = Answer status raw /\
    e = fst (post (A := credentialsResponse) serve rq (MkNet (sent n1) ∅)) /\
    match e with Err e => is_unreachable e || is_code CodeAlreadyEnrolled e | Ok _ => false end = true) ->
    enrolled_once (sent n1) after rq) as Honce.
  { intros after Ha. split; [|done]. exists base, ch, sig. split_and!; [done|done|by apply SignAssertion_verifies|done|by eexists]. }
  assert (spent_once n n2) as Hspent.
  { right. exists n1, rq, []. split_and!; [done|done|by constructor|]. apply Honce. by left. }
  destruct resp as [resp|e].
  - rewrite run_bind. pose proof (persist_stored resp fs dk) as Hst.
    destruct (run (persist d resp) fs dk) as [[dk' [[r d']|]] fs']; destruct Hst as [Hk Hst]; by split.
  - destruct (is_unreachable e || is_code CodeAlreadyEnrolled e) eqn:He; [|by split].
    pose proof (collect_or_run e n2 fs dk) as Hc.
    destruct (run (collect_or serve clock c d e n2) fs dk) as [[dk' [[[r d'] n']|]] fs']; [|done].
    destruct Hc as (Hk & (after & Ha & Haf) & Hst). split; [exact Hk|]. split; [|done]. right. exists n1, rq, after.
    split_and!; [done|by rewrite Ha, Hs2|done|]. apply Honce. right.
    destruct (serve (rq :: sent n1)) as [|status raw] eqn:Hserve; [by left|right].
    exists (Err e), status, raw. split_and!; [done| |done]. revert Hresp. unfold post. simpl. by rewrite Hserve.
Qed.
End EnrollProofs.

(** ** The credential across restarts *)

Section StoreProofs.
Context `{JSONLaws record}.

Definition legacy_path (path : string) : string := Join [Dir path; legacyAdmissionFileName].

(** The credential in a file that may not be there, and the older admission file. *)
Definition read_cred (file legacy : option bytes) : Credential :=
  match file with
  | None => zero_Credential
  | Some b => match Unmarshal b with
              | None => zero_Credential
              | Some rec =>
                  let c := MkCredential (r_Cred rec) (r_IssuerCert rec) (r_Admission rec) in
                  if String.eqb (Admission c) "" then
                    with_admission c match legacy with
                                     | None => ""
                                     | Some l => let s := TrimSpace (string_of l) in if has_newline s then "" else s
                                     end
                  else c
              end
  end.

Lemma Open_run path fs dk :
  path <> "" -> Forall (fun f => read_fault f = None) fs -> (2 <= List.length fs)%nat ->
  (run (Open path) fs dk).1.2 = Some (MkStore path (read_cred (dk !! path) (dk !! legacy_path path))).
Proof.
  intros Hp Hq Hl. destruct fs as [|f [|g fs]]; simpl in Hl; [lia..|].
  apply Forall_cons in Hq as [Hf [Hg _]%Forall_cons].
  unfold Open. rewrite (proj2 (String.eqb_neq path "") Hp). cbn [run pbind call exec]. unfold reading. rewrite Hf.
  destruct (dk !! path) as [b|]; [|done]. cbn [id read_cred]. destruct (Unmarshal b) as [rec|]; [|done]. cbn [Admission].
  destruct (String.eqb (r_Admission rec) ""); [|done].
  unfold adoptLegacyAdmission. destruct (String.eqb_spec (Dir path) ""); [by apply Dir_nonempty in e|].
  cbn [run pbind call exec]. unfold reading. rewrite Hg. unfold legacy_path. by destruct (dk !! _).
Qed.

Lemma read_saved cred legacy :
  let c := read_cred (Some (saved cred)) legacy in
  Device c = Device cred /\ IssuerCert c = IssuerCert cred /\ (Admission cred <> "" -> c = cred).
Proof.
  unfold saved. simpl. rewrite Unmarshal_Marshal. simpl. destruct (String.eqb_spec (Admission cred) "") as [He|He]; [done|].
  by destruct cred.
Qed.

Lemma hidden_legacy path : hidden (legacy_path path) = false.
Proof. unfold hidden, legacy_path. rewrite last_component_Join; [done|apply Dir_nonempty|done..]. Qed.

Lemma cred_path_ok dir :
  dir <> "" -> let p := DeviceCredPath dir in p <> "" /\ hidden p = false /\ legacy_path p <> p.
Proof.
  intros Hd. unfold DeviceCredPath. rewrite (proj2 (String.eqb_neq dir "") Hd). cbv zeta.
  assert (last_component (Join [dir; CredFileName]) = CredFileName) as Hl by (by apply last_component_Join).
  split_and!.
  - intros He. by rewrite He in Hl.
  - unfold hidden. by rewrite Hl.
  - intros He. assert (last_component (legacy_path (Join [dir; CredFileName])) = legacyAdmissionFileName) as Hleg.
    { apply last_component_Join; [apply Dir_nonempty|done..]. }
    rewrite He, Hl in Hleg. done.
Qed.

(** Whichever writes of a [Put] fail and wherever it is killed, the next start reads the
    credential that was there or the whole new one, and the new one when [Put] succeeded;
    in memory it is the new one from the start. *)
Theorem credential_survives_restart dir (s : Store) cred fs dk again :
  dir <> "" -> s_path s = DeviceCredPath dir ->
  Forall (fun f => read_fault f = None) again -> (2 <= List.length again)%nat ->
  let '(dk', r, _) := run (Put s cred) fs dk in
  exists old new, (run (Open (s_path s)) again dk).1.2 = Some old /\ (run (Open (s_path s)) again dk').1.2 = Some new /\
    let is_new := Device (s_cred new) = Device cred /\ IssuerCert (s_cred new) = IssuerCert cred /\
                  (Admission cred <> "" -> s_cred new = cred) in
    (new = old \/ is_new) /\
    forall res s', r = Some (res, s') -> Get s' = (cred, Presentable cred) /\ (is_ok res = true -> is_new).
Proof.
  intros Hdir Hpath Hq Hl. destruct (cred_path_ok dir Hdir) as (Hp & Hh & Hne). rewrite <-Hpath in Hp, Hh, Hne. clear Hpath.
  rewrite (Open_run _ again dk Hp Hq Hl).
  pose proof (Put_saves s cred fs dk Hp Hh) as Hput.
  destruct (run (Put s cred) fs dk) as [[dk' r] fs']. rewrite (Open_run _ again dk' Hp Hq Hl). destruct Hput as [[Hpath Hoth] Hres].
  destruct (Hoth (legacy_path (s_path s))) as [Hleg|[Hhid _]]; [done| |].
  2:{ by rewrite hidden_legacy in Hhid. }
  rewrite Hleg. eexists _, _. split; [done|]. split; [done|]. cbn [s_cred].
  pose proof (read_saved cred (dk !! legacy_path (s_path s))) as Hnew. cbv zeta in Hnew.
  split; [destruct Hpath as [->| ->]; [by left|by right]|].
  intros res s' Hr0. destruct (Hres _ _ Hr0) as [-> Hok]. split; [done|]. intros Hr. by rewrite (Hok Hr).
Qed.
End StoreProofs.

(** ** Witnesses *)

#[export] Instance record_eq_dec : EqDecision record.
Proof. solve_decision. Defined.
#[export] Instance record_countable : Countable record.
Proof.
  refine (inj_countable
    (fun r => [encode (r_Cred r); encode (r_IssuerCert r); encode (r_Admission r)])
    (fun l => match l with
              | [x0; x1; x2] => x0 ← decode x0; x1 ← decode x1; x2 ← decode x2;
                  Some (MkRecord x0 x1 x2)
              | _ => None
              end) _).
  intros []. cbv beta iota. by rewrite !decode_encode.
Defined.

#[export] Instance challengeResponse_eq_dec : EqDecision challengeResponse.
Proof. solve_decision. Defined.
#[export] Instance challengeResponse_countable : Countable challengeResponse.
Proof.
  refine (inj_countable
    (fun r => [encode (cr_Challenge r); encode (cr_ExpiresAt r)])
    (fun l => match l with
              | [x0; x1] => x0 ← decode x0; x1 ← decode x1;
                  Some (MkChallengeResponse x0 x1)
              | _ => None
              end) _).
  intros []. cbv beta iota. by rewrite !decode_encode.
Defined.

#[export] Instance credentialsResponse_eq_dec : EqDecision credentialsResponse.
Proof. solve_decision. Defined.
#[export] Instance credentialsResponse_countable : Countable credentialsResponse.
Proof.
  refine (inj_countable
    (fun r => [encode (cs_Device r); encode (cs_Admission r); encode (cs_IssuerCert r)])
    (fun l => match l with
              | [x0; x1; x2] => x0 ← decode x0; x1 ← decode x1; x2 ← decode x2;
                  Some (MkCredentialsResponse x0 x1 x2)
              | _ => None
              end) _).
  intros []. cbv beta iota. by rewrite !decode_encode.
Defined.

#[export] Instance errorEnvelope_eq_dec : EqDecision errorEnvelope.
Proof. solve_decision. Defined.
#[export] Instance errorEnvelope_countable : Countable errorEnvelope.
Proof.
  refine (inj_countable
    (fun r => [encode (env_Code r); encode (env_RetryAfterMS r)])
    (fun l => match l with
              | [x0; x1] => x0 ← decode x0; x1 ← decode x1;
                  Some (MkEnvelope x0 x1)
              | _ => None
              end) _).
  intros []. cbv beta iota. by rewrite !decode_encode.
Defined.


Module Demo.
Export Crypto.Toy.
#[export] Existing Instance toy_json.
#[export] Existing Instance toy_json_laws.
#[export] Instance toy_seeds : Seeds := {
  from_seed b := match b with k :: _ => k | [] => Ascii.zero end;
  Seed k := repeat k SeedSize;
}.
#[export] Instance toy_seeds_laws : SeedsLaws.
Proof. split; done. Qed.

Definition client : AccountClient := MkAccountClient ["https://a"; "https://b"] "account.test".
Definition cred : Credential := MkCredential "bacchusd1:d" "bacchusi1:i" "bacchusc1:a".
Definition device : DeviceEnrollment := MkEnrollment "d"%char (MkStore "/home/u/device/credential.json" zero_Credential) "/home/u/device".

(** The first address is gone; the second takes the enrollment and its answer is lost. *)
Definition serve (rqs : list Request) : Reply :=
  match rqs with
  | RqChallenge b :: _ =>
      if String.eqb b "https://a" then NoAnswer else Answer 200 (Marshal (MkChallengeResponse (repeat "c"%char 32) 0))
  | RqCredential _ _ _ _ :: _ => Answer 200 (Marshal (MkCredentialsResponse "bacchusd1:d" "bacchusc1:a" "bacchusi1:i"))
  | _ => NoAnswer
  end.
Definition clock (_ : list Request) : Time := 0.
Definition start : Net := MkNet [] ∅.
Definition fates : list Fate := (fun k => MkFate None None (Z.of_nat k)) <$> seq 0 8.
Definition enrollment := run (Enroll serve clock client device "BC1" "desktop" start) fates ∅.
End Demo.
Import Demo.

(** The answer to the enrollment is lost, and the credential is collected. *)
Example lost_answer_is_recovered :
  let '(_, r, _) := Demo.enrollment in
  match r with
  | Some (res, d', n') => res = Ok Demo.cred /\ Current d' = (Demo.cred, true) /\
      List.length (filter (fun r => is_enroll r = true) (sent n')) = 1%nat
  | None => False
  end.
Proof. vm_compute. repeat split. Qed.

Lemma enrollment_spends_once_witness :
  exists r d' n', Demo.enrollment.1.2 = Some (r, d', n') /\
    spent_once Demo.serve Demo.client Demo.device "BC1" "desktop" Demo.start n' /\ stored Demo.device r d' ∅ Demo.enrollment.1.1.
Proof.
  pose proof (enrollment_spends_once Demo.serve Demo.clock Demo.client Demo.device "BC1" "desktop" ltac:(discriminate) ltac:(by vm_compute)
    Demo.start Demo.fates ∅ ltac:(discriminate) ltac:(by apply (bool_decide_unpack _); vm_compute)) as H.
  change (run _ _ _) with Demo.enrollment in H. assert (exists x, Demo.enrollment.1.2 = Some x) as [[[r d'] n'] Hx] by (vm_compute; by eexists).
  exists r, d', n'. split; [exact Hx|]. destruct Demo.enrollment as [[dk x] fs]. cbn in Hx. subst x. exact (proj2 H).
Defined.

Lemma key_is_never_replaced_witness :
  let '(d', r, _) := run (LoadOrGenerateKey "/home/u/device" (Some "k"%char)) Demo.fates ∅ in
  r = Some (Ok "k"%char) /\ exists b, d' !! key_path "/home/u/device" = Some b /\ key_of b = Some "k"%char.
Proof.
  pose proof (key_is_never_replaced "/home/u/device" (Some "k"%char) Demo.fates ∅ ltac:(discriminate)) as H.
  assert ((run (LoadOrGenerateKey "/home/u/device" (Some "k"%char)) Demo.fates ∅).1.2 = Some (Ok "k"%char)) as Hr by (by vm_compute).
  destruct (run _ _ _) as [[d' r] fs']. cbn in Hr. destruct H as (_ & _ & _ & H & _). split; [exact Hr|]. exact (H _ Hr).
Defined.

Lemma credential_survives_restart_witness :
  let '(dk', r, _) := run (Put (de_store Demo.device) Demo.cred) (take 2 Demo.fates) ∅ in
  r = None /\ exists new, (run (Open "/home/u/device/credential.json") Demo.fates dk').1.2 = Some new /\
    (s_cred new = zero_Credential \/ s_cred new = Demo.cred).
Proof.
  pose proof (credential_survives_restart "/home/u/device" (de_store Demo.device) Demo.cred (take 2 Demo.fates) ∅ Demo.fates
    ltac:(discriminate) ltac:(by vm_compute) ltac:(by repeat constructor) ltac:(cbn; lia)) as H.
  assert ((run (Put (de_store Demo.device) Demo.cred) (take 2 Demo.fates) ∅).1.2 = None) as Hr by (by vm_compute).
  destruct (run (Put _ _) _ _) as [[dk' r] fs']. cbn in Hr. split; [exact Hr|].
  destruct H as (old & new & Hold & Hnew & Hor & _). exists new. split; [exact Hnew|].
  destruct Hor as [->|(_ & _ & Ha)]; [left|right; apply Ha; discriminate].
  assert (old = MkStore "/home/u/device/credential.json" zero_Credential) as ->; [|reflexivity].
  apply (inj Some). rewrite <-Hold. by vm_compute.
Defined.
