(* ===== verification/AppState.v ===== *)
(** * The desktop client's decisions: [clients/fyne/internal/appstate]

    What the user is shown of an engine's events ([state.go]), what is said about the
    device's credential and its enrollment, and what a connect is built from
    ([controller.go]): the checks made before an engine exists, the configuration it is
    given, and the policy the device is routed under. The controller's concurrency is
    [Controller]. An [error] of the engine is its text. *)

From S2P Require Import Prelude GoStrings Base64 Crypto Net FileSys GeoIP Stun Coldstart Settings.
From S2P Require Account Enforce Tunnel CoordState RelayChain.
Local Open Scope Z_scope.

(** ** [state.go] *)

Inductive ConnState := Disconnected | Connecting | Protected | Blocked.
#[export] Instance ConnState_eq_dec : EqDecision ConnState.
Proof. solve_decision. Defined.

Inductive EventKind := EventError | EventInfo | EventICE | EventOther.
#[export] Instance EventKind_eq_dec : EqDecision EventKind.
Proof. solve_decision. Defined.
Record Event := MkEvent { ev_Kind : EventKind; ev_Message : string }.

(** [strings.Contains]; [strings.Cut] around a string. *)
Definition Contains (sub s : string) : bool := bool_decide (is_Some (Enforce.after_first sub s)).
Fixpoint CutString (sep s : string) : option (string * string) :=
  match strip_prefix sep s with
  | Some rest => Some ("", rest)
  | None => match s with
            | "" => None
            | String c s => match CutString sep s with Some (a, b) => Some (String c a, b) | None => None end
            end
  end.

Definition up (s : ConnState) : bool := match s with Protected | Blocked => true | _ => false end.

Definition StateFor (cur : ConnState) (ev : Event) : ConnState :=
  if negb (bool_decide (ev_Kind ev = EventICE)) || negb (up cur) then cur
  else
    let m := ev_Message ev in
    if Contains ": disconnected" m || Contains ": failed" m || Contains ": closed" m then Blocked
    else if Contains ": connected" m || Contains ": completed" m then Protected
    else cur.

Inductive DetailKind := DetailVerbatim | DetailCountryBusy | DetailNoSuchCountry | DetailCountryConfig
  | DetailRenewalFailing | DetailRenewalUrgent | DetailRenewalExpired | DetailRenewalUnknownExpiry
  | DetailSubscriptionExpired | DetailDeviceRevoked | DetailRenewalRecovered | DetailEnrolled | DetailEnrollUnreachable.
#[export] Instance DetailKind_eq_dec : EqDecision DetailKind.
Proof. solve_decision. Defined.
Record Detail := MkDetail { dt_Kind : DetailKind; dt_Text : string; dt_Country : string; dt_Remaining : Duration }.
Definition zero_Detail : Detail := MkDetail DetailVerbatim "" "" 0.
Definition said (kind : DetailKind) (text : string) : Detail := MkDetail kind text "" 0.
Definition verbatim (text : string) : Detail := said DetailVerbatim text.

Definition relayChainFailedPrefix : string := "[relay] chain not built: ".
Definition deviceRenewFailedPrefix : string := "device credential: renewal failed".
Definition coordinatorRefusedPrefix : string := "coordinator refused to pair in ".

Definition countryRefusal (msg : string) : option Detail :=
  rest ← strip_prefix coordinatorRefusedPrefix msg;
  '(country, reason) ← CutString ": " rest;
  if String.eqb country "" then None
  else if Enforce.HasPrefix "country-busy" reason then
    Some (MkDetail DetailCountryBusy
      (country +:+ " is busy right now — everything there is full. Choose another country, or try again in a moment.") country 0)
  else if Enforce.HasPrefix "no-such-country" reason then
    Some (MkDetail DetailNoSuchCountry
      ("Bacchus has nothing in " +:+ country +:+ " to connect you through. Choose another country from the list.") country 0)
  else None.

(** [None]: nothing is shown. *)
Definition DetailFor (ev : Event) (cur : ConnState) : option Detail :=
  match ev_Kind ev with
  | EventError =>
      if Enforce.HasPrefix deviceRenewFailedPrefix (ev_Message ev) then None
      else match strip_prefix relayChainFailedPrefix (ev_Message ev) with
           | Some reason => Some (verbatim ("Not connected — no path met your relay-hops setting: " +:+ reason))
           | None => match countryRefusal (ev_Message ev) with
                     | Some d => Some d
                     | None => Some (verbatim (ev_Message ev))
                     end
           end
  | EventInfo => if bool_decide (cur = Protected) then None else Some (verbatim (ev_Message ev))
  | _ => None
  end.

(** ** The credential's state *)

Record CredentialState := MkCredState {
  cs_Enrolled : bool; cs_ExpiresAt : Time; cs_RenewalFailing : bool; cs_Attention : bool; cs_Detail : Detail;
}.
Definition zero_CredentialState : CredentialState := MkCredState false time_zero false false zero_Detail.
Definition credentialWarnAt : Duration := 6 * Hour.

Inductive DurationUnit := DurationHours | DurationAnHour | DurationMinutes | DurationAMoment.
#[export] Instance DurationUnit_eq_dec : EqDecision DurationUnit.
Proof. solve_decision. Defined.

(** [d.Round(m)] of a positive duration, for an even unit: half is rounded up. The sum
    does not reach 64 bits below 2^62. *)
Definition Round (d m : Duration) : Duration :=
  let r := d mod m in if r + r <? m then d - r else d + m - r.
Definition RoughRemaining (d : Duration) : Z * DurationUnit :=
  if 2 * Hour <=? d then (Z.quot (Round d Hour) Hour, DurationHours)
  else if Hour <=? d then (1, DurationAnHour)
  else if 2 * Minute <=? d then (Z.quot (Round d Minute) Minute, DurationMinutes)
  else (0, DurationAMoment).
Definition RoughDuration (d : Duration) : string :=
  let '(n, unit) := RoughRemaining d in
  match unit with
  | DurationHours => Itoa n +:+ " hours"
  | DurationAnHour => "an hour"
  | DurationMinutes => Itoa n +:+ " minutes"
  | DurationAMoment => "a moment"
  end.

(** [exp] is the stored expiry, the zero time when there is none. *)
Definition renewalFailureDetail (e : Account.AccountError) (exp : Time) (left : Duration) : Detail :=
  let code := Account.CodeOf e in
  if bool_decide (code = Some Account.CodeEntitlementExpired) then
    said DetailSubscriptionExpired "Your subscription has expired. This device will stop connecting when its current access runs out."
  else if bool_decide (code = Some Account.CodeDeviceRevoked) then
    said DetailDeviceRevoked "This device's access was withdrawn. It will stop connecting when its current access runs out."
  else if IsZero exp then
    said DetailRenewalUnknownExpiry "Bacchus could not refresh this device's access, and cannot tell how long the current one lasts. If connecting starts failing, this is why."
  else if left <=? 0 then
    said DetailRenewalExpired "This device's access has run out and could not be refreshed. Connecting will be refused until it is."
  else if left <=? credentialWarnAt then
    MkDetail DetailRenewalUrgent
      ("Your subscription needs attention: Bacchus could not refresh this device's access, which runs out in about "
       +:+ RoughDuration left +:+ ".") "" left
  else said DetailRenewalFailing "Bacchus could not refresh this device's access and will keep trying. Your connection is unaffected for now.".

(** The new state, and what is announced. [now] is [time.Now()]. *)
Definition recordRenewalFailure (c : CredentialState) (currentCred : string) (exp : Time) (e : Account.AccountError) (now : Time)
    : CredentialState * option Detail :=
  let left := time_Sub exp now in
  let d := renewalFailureDetail e exp left in
  let repeat := cs_RenewalFailing c && bool_decide (dt_Kind (cs_Detail c) = dt_Kind d) in
  (MkCredState (negb (String.eqb currentCred "")) exp true (IsZero exp || (left <=? credentialWarnAt)) d,
   if repeat then None else Some d).

Definition recordRenewalSuccess (c : CredentialState) (cred : string) (exp : Time) : CredentialState * option Detail :=
  (MkCredState (negb (String.eqb cred "")) exp false false zero_Detail,
   if cs_RenewalFailing c then Some (said DetailRenewalRecovered "Your subscription is up to date again.") else None).

(** What is on the disk: whether it can be presented, and its expiry. *)
Definition publishCredentialFromStore (c : CredentialState) (ok : bool) (exp now : Time) : CredentialState :=
  if ok then MkCredState ok exp (cs_RenewalFailing c)
               (cs_RenewalFailing c && (IsZero exp || (time_Sub exp now <=? credentialWarnAt))) (cs_Detail c)
  else MkCredState ok exp false false zero_Detail.

(** ** What a connect is built from *)

Definition templatePlaceholderHosts : list string := ["COORDINATOR_HOST"; "COORDINATOR_HOST_2"].
Definition isTemplatePlaceholder (addr : string) : bool :=
  let host := match SplitHostPort addr with Some (h, _) => h | None => addr end in
  bool_decide (host ∈ templatePlaceholderHosts).
Definition hasCoordinator (addrs : list string) : bool :=
  existsb (fun a => let a := TrimSpace a in negb (String.eqb a "") && negb (isTemplatePlaceholder a)) addrs.

Definition enrollmentRefusalText (e : Account.AccountError) (error_text : string) : string :=
  match Account.CodeOf e with
  | None => "Could not register this device: " +:+ error_text
  | Some code =>
      if String.eqb code Account.CodeMalformedSecret then "That does not look like a Bacchus claim code — check what you entered."
      else if String.eqb code Account.CodeClaimRejected then "That claim code was not accepted. It may have been mistyped, or already used."
      else if String.eqb code Account.CodeEntitlementExpired then "Your subscription has expired, so this device cannot be registered."
      else if String.eqb code Account.CodeNoSlots then "Your plan has no device slots left. Remove a device, or add slots, and try again."
      else "Your account service refused to register this device."
  end.

Definition SocksAddr : string := "127.0.0.1:1080".

(** The fields of [core.Config] that this client sets; hooks by whether they are set. *)
Record EngineConfig := MkEngineConfig {
  ec_Coordinators : list string; ec_Roles : list Settings.Role; ec_SocksAddr : string;
  ec_Advertise : string; ec_ListenAddr : string; ec_ExitKeyHex : string; ec_Geo : string;
  ec_STUNURL : string; ec_TURNURL : string; ec_TURNUser : string; ec_TURNPass : string;
  ec_AdmissionPubKey : string; ec_AdmissionCRLPath : string;
  ec_DeviceCredDir : string; ec_DeviceRenew : bool;
  ec_TransportPool : list string; ec_SelectionDir : string; ec_ForceRelay : bool;
  ec_RelayHops : Z; ec_RelayDirectory : bytes; ec_RelayDirectoryKey : bytes; ec_RelayDirectoryPath : string;
  ec_OnUnderlayDial : bool; ec_ServedSource : bool;
}.

(** Why a connect ends before there is an engine. *)
Inductive Refusal :=
| RefuseInvite (e : InviteError) | RefuseNoCoordinators | RefuseCountry (country : string) | RefuseRelayDirectory (e : ConnError)
| RefuseVolunteer (e : VolunteerError) | RefuseDeviceKey (e : Account.KeyError) | RefuseAccount (e : Account.NewError)
| RefuseEnrollment (e : Account.AccountError).

Section Connect.
Context `{Account.SeedsLaws} `{JSON Snapshot} `{JSON Config} `{JSON Account.record}.
Context `{JSON Account.challengeResponse} `{JSON Account.credentialsResponse} `{JSON Account.errorEnvelope}.
(** The machine's paths; whether the platform routes the device, and whether it can carve
    served traffic out; the account service; the key a first run would make. *)
Context (exe userdir : option string) (enf serves : bool).
Context (ParseURL : string -> option Account.URL) (has_cert : bytes -> bool).
Context (serve : list Account.Request -> Account.Reply) (clock : list Account.Request -> Time).
Context (gen : option PrivateKey).

Definition DeviceEnforced : bool := enf.
Definition VolunteeringRefused : bool := enf && negb serves.

Record deviceCredential := MkDeviceCredential {
  dc_dev : Account.DeviceEnrollment; dc_client : option Account.AccountClient; dc_dir : string;
}.

Definition openDeviceCredential (cfg : Config) (addrs : list string) : prog (result Refusal deviceCredential) :=
  let dir := EffectiveDeviceCredDir userdir cfg in
  try! dev := fails_as RefuseDeviceKey (Account.OpenDeviceEnrollment dir gen) in
  if negb (AccountServiceConfigured cfg) || bool_decide (addrs = []) then Ret (Ok (MkDeviceCredential dev None dir))
  else
    try! cl := fails_as RefuseAccount
                 (Account.NewClient ParseURL has_cert
                    (Account.MkClientConfig addrs (TrimSpace (AccountServiceAudience cfg)) (TrimSpace (AccountServiceCA cfg)))) in
    Ret (Ok (MkDeviceCredential dev (Some cl) dir)).

(** A fresh client of the account service: nothing sent, nothing known of the addresses. *)
Definition new_net : Account.Net := Account.MkNet [] ∅.

(** Whether the connect is abandoned, and what is said meanwhile. *)
Definition enrollIfNeeded (cfg : Config) (dc : deviceCredential)
    : prog (result Refusal (deviceCredential * list Detail)) :=
  let claim := TrimSpace (ClaimCode cfg) in
  match dc_client dc with
  | None => Ret (Ok (dc, []))
  | Some cl =>
      if String.eqb claim "" || Account.Enrolled (dc_dev dc) then Ret (Ok (dc, []))
      else
        run! x := Account.Enroll serve clock cl (dc_dev dc) claim (EffectiveDeviceLabel cfg) new_net in
        let '(r, dev, _) := x in
        let dc := MkDeviceCredential dev (dc_client dc) (dc_dir dc) in
        let registered :=
          run! _ := ClearClaimCode exe userdir in
          Ret (Ok (dc, [said DetailEnrolled "This device is now registered to your account."])) in
        match r with
        | Ok _ | Err Account.ErrAlreadyHaveCredential => registered
        | Err e =>
            if Account.Terminal e then Ret (Err (RefuseEnrollment e))
            else Ret (Ok (dc, [said DetailEnrollUnreachable "Could not reach your account service to register this device — connecting with what this device already has."]))
        end
  end.

(** [acquireDirectory]: the directory, and the one that is held from now on. *)
Definition acquireDirectory (f : Fetch) (cfg : Config) (held : Directory) : prog (result InviteError Directory * Directory) :=
  run! r := AcquireDirectory userdir f cfg held in
  Ret (r, match r with Ok dir => if d_Held dir then dir else held | Err _ => held end).

Record Prepared := MkPrepared {
  p_engine : EngineConfig; p_serving : bool; p_dir : Directory; p_held : Directory; p_said : list Detail;
  p_dc : deviceCredential;
}.

(** [connectAsync], up to the engine. [c.cfg] is read without the lock, and each of the
    readings may find another configuration: [cfg k] is what the [k]th finds. The first is
    that of [acquireDirectory], under the lock. *)
Definition prepare (f : Fetch) (cfg : nat -> Config) (held : Directory) : prog (result Refusal Prepared * Directory) :=
  run! x := acquireDirectory f (cfg 0%nat) held in
  let '(d, held) := x in
  run! r :=
    match d with
    | Err e => Ret (Err (RefuseInvite e))
    | Ok dir =>
        let '(coords, accountURLs) := effectiveAddrs (cfg 1%nat) dir in
        if negb (hasCoordinator coords) then Ret (Err RefuseNoCoordinators)
        else
          match ValidateCountry (c_Country (cfg 2%nat)) with
          | None => Ret (Err (RefuseCountry (TrimSpace (c_Country (cfg 2%nat)))))
          | Some country =>
              try! rd := fails_as RefuseRelayDirectory
                (LoadRelayDirectory (RelayHops (cfg 3%nat)) (RelayDirectoryPath (cfg 3%nat)) (RelayDirectoryKey (cfg 3%nat))) in
              let pool := SanitizePoolOrder (TransportPool (cfg 4%nat)) in
              let selectionDir := match pool with [] => "" | _ => DefaultSelectionDir userdir end in
              match PlanVolunteer (cfg 5%nat) VolunteeringRefused with
              | Err e => Ret (Err (RefuseVolunteer e))
              | Ok volunteer =>
                  try! dc := openDeviceCredential (cfg 6%nat) accountURLs in
                  try! (dc, notes) := enrollIfNeeded (cfg 7%nat) dc in
                  let c := cfg 8%nat in
                  Ret (Ok (MkPrepared
                    (MkEngineConfig coords (v_Roles volunteer) SocksAddr (v_Advertise volunteer) (v_ListenAddr volunteer)
                       (v_ExitKeyHex volunteer) country (STUN c) (TURN c) (TURNUser c) (TURNPass c) (AdmissionPubKey c)
                       (AdmissionCRLPath c) (dc_dir dc) (bool_decide (is_Some (dc_client dc))) pool selectionDir enf
                       (RelayHops c) rd.1 rd.2 (RelayDirectoryPath c) enf enf)
                    (Serving volunteer) dir held notes dc))
              end
          end
    end in
  Ret (r, held).

(** [startEnforcement]: the policy of the session. *)
Definition session_policy (cfg : Config) (serving : bool) (coords : list string) : Tunnel.Policy :=
  Tunnel.MkPolicyCfg coords (STUN cfg) (TURN cfg) (if String.eqb (DNS cfg) "" then DefaultDNSUpstream else DNS cfg)
    (Bypass cfg) (NormalizeBypassMode (BypassMode cfg)) (negb (DisableKillSwitch cfg)) serving.
End Connect.

(** ** What a connect that goes ahead was checked for *)

Lemma hasCoordinator_spec addrs :
  hasCoordinator addrs = true -> exists a, a ∈ addrs /\ TrimSpace a <> "" /\ isTemplatePlaceholder (TrimSpace a) = false.
Proof.
  unfold hasCoordinator. rewrite existsb_exists. intros (a & Ha & Hb). cbv zeta in Hb. b2p. exists a.
  split; [by apply list_elem_of_In|done].
Qed.

Lemma ValidateCountry_spec raw cc :
  ValidateCountry raw = Some cc -> (cc = "" /\ TrimSpace raw = "") \/ (cc <> "" /\ cc = Canonical raw).
Proof.
  unfold ValidateCountry, NormalizeCountry, CountryAutomatic. destruct (String.eqb_spec (TrimSpace raw) ""); [intros [= <-]; by left|].
  destruct (String.eqb_spec (Canonical raw) ""); [done|]. intros [= <-]. by right.
Qed.

Lemma LoadRelayDirectory_key hops p k fs d d' b key fs' :
  run (LoadRelayDirectory hops p k) fs d = (d', Some (Ok (b, key)), fs') -> 2 <= hops -> List.length key = PublicKeySize.
Proof.
  unfold LoadRelayDirectory. destruct (Z.ltb_spec hops 2); [lia|].
  intros (x & d1 & fs1 & _ & Hk)%run_ptry_inv _. injection Hk as _ Hk _.
  destruct (hex_DecodeString _) as [key'|]; [|done]. destruct (Nat.eqb_spec (List.length key') PublicKeySize); [|done].
  by injection Hk as _ <-.
Qed.

Section ConnectProofs.
Context `{Account.SeedsLaws} `{JSON Snapshot} `{JSON Config} `{JSON Account.record}.
Context `{JSON Account.challengeResponse} `{JSON Account.credentialsResponse} `{JSON Account.errorEnvelope}.
Context (exe userdir : option string) (enf serves : bool).
Context (ParseURL : string -> option Account.URL) (has_cert : bytes -> bool).
Context (serve : list Account.Request -> Account.Reply) (clock : list Account.Request -> Time).
Context (gen : option PrivateKey).

(** An address of the engine's pool: the configuration's, or one a directory names that
    the invite's key signed and that was not expired. *)
Definition known_coordinator (f : Fetch) (cfg : nat -> Config) (p : Prepared) (a : string) : Prop :=
  (exists x, x ∈ Coordinators (cfg 1%nat) /\ a = TrimSpace x) \/
  exists inv x, decodeInvite (cfg 0%nat) = Some (Ok inv) /\ directory_ok f inv (p_dir p) /\
    x ∈ AddrsForRole (d_Snapshot (p_dir p)) roleCoordinator /\ a = TrimSpace x.

Record prepared_ok (f : Fetch) (cfg : nat -> Config) (p : Prepared) : Prop := {
  po_pool : NoDup (ec_Coordinators (p_engine p)) /\ "" ∉ ec_Coordinators (p_engine p) /\
            exists a, a ∈ ec_Coordinators (p_engine p) /\ isTemplatePlaceholder (TrimSpace a) = false;
  po_known : forall a, a ∈ ec_Coordinators (p_engine p) -> known_coordinator f cfg p a;
  po_country : (ec_Geo (p_engine p) = "" /\ TrimSpace (c_Country (cfg 2%nat)) = "") \/
               (ec_Geo (p_engine p) <> "" /\ ec_Geo (p_engine p) = Canonical (c_Country (cfg 2%nat)));
  po_transports : forall t, t ∈ ec_TransportPool (p_engine p) -> poolTransportBase t ∈ [TransportWebRTC; TransportReality];
  po_serving : p_serving p = true -> enf = true -> serves = true;
  po_roles : exists plan, PlanVolunteer (cfg 5%nat) (VolunteeringRefused enf serves) = Ok plan /\
             plan_checked (cfg 5%nat) (VolunteeringRefused enf serves) plan /\ p_serving p = Serving plan /\
             ec_Roles (p_engine p) = v_Roles plan /\ ec_Advertise (p_engine p) = v_Advertise plan /\
             ec_ListenAddr (p_engine p) = v_ListenAddr plan /\ ec_ExitKeyHex (p_engine p) = v_ExitKeyHex plan;
  po_relay_only : ec_ForceRelay (p_engine p) = enf;
  po_hops : 2 <= RelayHops (cfg 3%nat) -> List.length (ec_RelayDirectoryKey (p_engine p)) = PublicKeySize;
}.

Local Abbreviation prepare := (prepare exe userdir enf serves ParseURL has_cert serve clock gen).

(** A connect reaches the engine only with a coordinator that is not the template's, from
    the configuration or from a signed directory; in the country that was chosen or, if
    none was, in any; over transports a tunnel can be made safe for; serving others only
    where their traffic can be carved out; and pinned to the relay where the device is
    routed. *)
Theorem prepare_sound f cfg held fs d :
  holds_signed held ->
  match run (prepare f cfg held) fs d with
  | (_, Some (Ok p, held'), _) => prepared_ok f cfg p /\ holds_signed held'
  | (_, Some (Err _, held'), _) => holds_signed held'
  | _ => True
  end.
Proof.
  intros Hheld. destruct (run (prepare f cfg held) fs d) as [[d' [[r held']|]] fs'] eqn:Hrun; [|done].
  unfold AppState.prepare in Hrun. apply run_pbind_inv in Hrun as ((ad & held1) & d1 & fs1 & Hacq & Hrun).
  apply run_pbind_inv in Hrun as (r' & d2 & fs2 & Hrest & Hret). simplify_eq/=.
  unfold acquireDirectory in Hacq. apply run_pbind_inv in Hacq as (ad' & d3 & fs3 & Hacq & Hret). simplify_eq/=.
  pose proof (AcquireDirectory_run userdir f (cfg 0%nat) held fs d Hheld) as Hdir. rewrite Hacq in Hdir.
  assert (Hgood : forall dir, ad = Ok dir -> holds_signed dir /\ (d_Held dir = true -> exists inv, decodeInvite (cfg 0%nat) = Some (Ok inv) /\ directory_ok f inv dir)).
  { intros dir ->. unfold acquired in Hdir. destruct (decodeInvite (cfg 0%nat)) as [[inv|e]|].
    - destruct Hdir as [_ Hdir]. destruct (Hdir _ eq_refl) as (dir' & [= <-] & Hs & Hok & _). eauto.
    - by destruct Hdir as [[=] _].
    - destruct Hdir as [[= ->] _]. split; intros Hz; vm_compute in Hz; discriminate. }
  assert (holds_signed (match ad with Ok dir => if d_Held dir then dir else held | Err _ => held end)) as Hheld'.
  { destruct ad as [dir|e]; [|done]. destruct (d_Held dir); [|done]. by apply Hgood. }
  destruct r as [p|e]; [|done]. split; [|done].
  destruct ad as [dir|e]; [|done]. destruct (Hgood dir eq_refl) as [_ Hsigned]. clear Hgood Hdir Hacq.
  unfold effectiveAddrs in Hrest. set (coords := EffectiveCoordinators _ _) in Hrest.
  destruct (hasCoordinator coords) eqn:Hhas; cbn [negb] in Hrest; [|done].
  destruct (ValidateCountry _) as [cc|] eqn:Hcc; [|done].
  apply run_ptry_inv in Hrest as ([rdir rkey] & d4 & fs4 & Hrd%run_fails_as_inv & Hrest).
  destruct (PlanVolunteer _ _) as [plan|e] eqn:Hplan; [|done].
  apply run_ptry_inv in Hrest as (dc & d5 & fs5 & _ & Hrest).
  apply run_ptry_inv in Hrest as ([dc' notes] & d6 & fs6 & _ & Hrest). simplify_eq/=.
  destruct (mergeAddrs_spec (d_Coordinators dir) (Coordinators (cfg 1%nat))) as (Hnd & Hnb & Hin & _). fold coords in Hnd, Hnb, Hin.
  pose proof (PlanVolunteer_checked _ _ _ Hplan) as Hchk.
  split; cbn [p_engine p_serving p_dir ec_Coordinators ec_Geo ec_TransportPool ec_ForceRelay ec_RelayDirectoryKey ec_Roles ec_Advertise ec_ListenAddr ec_ExitKeyHex].
  - split_and!; [done|done|]. apply hasCoordinator_spec in Hhas as (a & Ha & _ & Hp). eauto.
  - intros a (_ & x & [Hx|Hx]%elem_of_app & ->)%Hin; [right|left; eauto]. unfold d_Coordinators in Hx.
    destruct (d_Held dir) eqn:Hheld2; [|by apply not_elem_of_nil in Hx]. destruct (Hsigned eq_refl) as (inv & Hinv & Hok). by exists inv, x.
  - apply ValidateCountry_spec in Hcc. naive_solver.
  - intros t. by intros [_ ?]%SanitizePoolOrder_spec.
  - intros Hs He. apply (pc_serving _ _ _ Hchk) in Hs. unfold VolunteeringRefused in Hs. rewrite He in Hs. by destruct serves.
  - exists plan. by split_and!.
  - done.
  - intros Hh. by eapply LoadRelayDirectory_key.
Qed.
End ConnectProofs.

(** ** Witnesses *)

Module Demo.
Export Account.Demo.
#[export] Existing Instance Account.record_countable.
#[export] Existing Instance Account.challengeResponse_countable.
#[export] Existing Instance Account.credentialsResponse_countable.
#[export] Existing Instance Account.errorEnvelope_countable.
Definition serve (_ : list Account.Request) : Account.Reply := Account.NoAnswer.
Definition clock (_ : list Account.Request) : Time := 0.
Definition certs (_ : bytes) : bool := false.
Definition url (_ : string) : option Account.URL := None.
(** The settings while the connect runs: saved over once, late, with another TURN server. *)
Definition saved : Config :=
  let c := Settings.Demo.cfg in
  MkConfig (Coordinators c) (STUN c) "turn:7.7.7.7:3478" (TURNUser c) (TURNPass c) (c_Invite c) (c_Country c) (AdmissionPubKey c)
    (AdmissionCRLPath c) (Bypass c) (BypassMode c) (DisableKillSwitch c) (DNS c) (AutoConnect c) (LaunchOnBoot c) (TransportPool c)
    (RelayHops c) (RelayDirectoryPath c) (RelayDirectoryKey c) (VolunteerRelay c) (VolunteerExit c) (VolunteerAdvertise c)
    (VolunteerExitKey c) (AccountServiceURLs c) (AccountServiceURL c) (AccountServiceAudience c) (AccountServiceCA c)
    (DeviceCredDir c) (ClaimCode c) (DeviceLabel c) (Update c).
Definition settings (k : nat) : Config := if (k <? 9)%nat then Settings.Demo.cfg else saved.
Definition fates : list Fate := (fun k => MkFate None None (Z.of_nat k)) <$> seq 0 64.
Definition connect :=
  run (prepare Settings.Demo.exe Settings.Demo.userdir true false url certs serve clock (Some "k"%char)
         (Settings.Demo.fetch Settings.Demo.served) settings zero_Directory) fates ∅.
End Demo.
Import Demo.

Lemma prepare_sound_witness :
  exists p held', Demo.connect.1.2 = Some (Ok p, held') /\
    ec_Coordinators (p_engine p) = ["9.9.9.9:7000"; "COORDINATOR_HOST:7000"] /\
    prepared_ok true false (Settings.Demo.fetch Settings.Demo.served) Demo.settings p.
Proof.
  pose proof (prepare_sound Settings.Demo.exe Settings.Demo.userdir true false Demo.url Demo.certs Demo.serve Demo.clock (Some "k"%char)
    (Settings.Demo.fetch Settings.Demo.served) Demo.settings zero_Directory Demo.fates ∅ ltac:(discriminate)) as H.
  change (run _ _ _) with Demo.connect in H.
  assert (match Demo.connect.1.2 with
          | Some (Ok p, _) => ec_Coordinators (p_engine p) = ["9.9.9.9:7000"; "COORDINATOR_HOST:7000"]
          | _ => False
          end) as Hc by (vm_compute; reflexivity).
  destruct Demo.connect as [[d' [[[p|e] held']|]] fs']; cbn in Hc; [|destruct Hc..]. exists p, held'. split_and!; [reflexivity|exact Hc|apply H].
Defined.

(** The settings are saved between the engine's configuration and the policy: the engine
    has no TURN server, and the device is routed around one. *)
Example settings_saved_meanwhile :
  match Demo.connect.1.2 with
  | Some (Ok p, _) =>
      ec_TURNURL (p_engine p) = "" /\
      Tunnel.TURNURL (session_policy (Demo.settings 9) (p_serving p) (ec_Coordinators (p_engine p))) = "turn:7.7.7.7:3478"
  | _ => False
  end.
Proof. vm_compute. split; reflexivity. Qed.
