(* ===== verification/Controller.v ===== *)
(** * The desktop client's controller: [clients/fyne/internal/appstate/controller.go]

    The goroutines of [Connect], [Disconnect] and the engine's events, interleaved: one
    step per critical section of [c.mu] and one per call made outside it. What the
    attempts decide is [AppState]; here is what they hold. An engine, its SOCKS listener
    and its session are named by the attempt ([gen]) that made them. *)

From S2P Require Import Prelude GoStrings.
From S2P Require AppState.
Import AppState.

(** ** The state *)

(** The controller under its lock, and what the machine holds for it: [socks] is the
    engine that listens on [SocksAddr], [sessions] the enforcement sessions that are open,
    [published] and [details] the calls of [OnState] and [OnDetail], the last one first.
    [c.cancel] is set and cleared with [c.eng]. [gen] is a [uint64] that only counts. *)
Record Ctl := MkCtl {
  gen : nat; state : ConnState; eng : option nat; sess : option nat;
  socks : option nat; sessions : list nat;
  published : list ConnState; details : list Detail;
}.
Definition NewController : Ctl := MkCtl 0 Disconnected None None None [] [] [].

Definition publishLocked (s : ConnState) (c : Ctl) : Ctl :=
  MkCtl (gen c) (state c) (eng c) (sess c) (socks c) (sessions c) (s :: published c) (details c).
Definition notifyDetail (d : Detail) (c : Ctl) : Ctl :=
  MkCtl (gen c) (state c) (eng c) (sess c) (socks c) (sessions c) (published c) (d :: details c).
(** [c.eng, c.cancel, c.sess, c.state = ...] *)
Definition become (e s : option nat) (st : ConnState) (c : Ctl) : Ctl :=
  MkCtl (gen c) st e s (socks c) (sessions c) (published c) (details c).
Definition bump (c : Ctl) : Ctl :=
  MkCtl (S (gen c)) (state c) (eng c) (sess c) (socks c) (sessions c) (published c) (details c).
Definition machine (so : option nat) (se : list nat) (c : Ctl) : Ctl :=
  MkCtl (gen c) (state c) (eng c) (sess c) so se (published c) (details c).

(** [net.Listen] of an address that is in use fails; [eng.Stop] closes the listener. *)
Definition listen (g : nat) (c : Ctl) : option Ctl :=
  match socks c with Some _ => None | None => Some (machine (Some g) (sessions c) c) end.
Definition unlisten (g : nat) (c : Ctl) : Ctl :=
  machine (if decide (socks c = Some g) then None else socks c) (sessions c) c.
Fixpoint remove_one (g : nat) (l : list nat) : list nat :=
  match l with [] => [] | x :: l => if Nat.eqb x g then l else x :: remove_one g l end.
Definition open_session (g : nat) (c : Ctl) : Ctl := machine (socks c) (g :: sessions c) c.
Definition close_session (g : nat) (c : Ctl) : Ctl := machine (socks c) (remove_one g (sessions c)) c.

(** ** The goroutines *)

(** Where a goroutine is: what it does next. *)
Inductive thread :=
| Announce (g : nat)                               (* [Connect]'s goroutine, publishing [Connecting] *)
| Prepare (g : nat)                                (* [connectAsync], up to and with [eng.Start] *)
| Dial (g : nat)                                   (* [eng.Connect] *)
| Enforce (g : nat)                                (* [startEnforcement] *)
| Install (g : nat) (s : option nat)               (* the last critical section *)
| CloseStale (g : nat) (s : nat)                   (* superseded: [sess.Close] *)
| StopStale (g : nat)                              (* superseded: [eng.Stop], [cancel] *)
| StopFailed (g : nat) (bound : bool) (d : Detail) (* failed: [eng.Stop], [cancel] *)
| AbortCheck (g : nat) (d : Detail) | AbortShow (g : nat) (d : Detail) | AbortWrite (g : nat)
| DisLock                                          (* [disconnectNow] *)
| DisClose (s : nat) (e : option nat) | DisCancel (e : nat) | DisStop (e : nat) (bound : bool)
| Notify (d : Detail).                             (* [onEvent], after its critical section *)

Definition cancel_next (e : option nat) : list thread := match e with Some e => [DisCancel e] | None => [] end.

Section Controller.
(** Whether there is an enforcer, and what the failures of an attempt say. *)
Context (enf : bool) (prepareFails dialFails enforceFails : nat -> Detail).

(** One step of a goroutine: the new state, and the goroutine's rest. [ok] is the outcome
    of the call: of the preparation, of dialing, of [enf.Start]; for [cancel], whether the
    engine lets go of its listener before [eng.Stop] is called. *)
Definition thread_step (ok : bool) (t : thread) (c : Ctl) : Ctl * list thread :=
  match t with
  | Announce g =>
      (if Nat.eqb (gen c) g && bool_decide (state c = Connecting) then publishLocked Connecting c else c, [Prepare g])
  | Prepare g => (c, [if ok then Dial g else AbortCheck g (prepareFails g)])
  | Dial g =>
      match (if ok then listen g c else None) with
      | Some c' => (c', [Enforce g])
      | None => (c, [StopFailed g false (dialFails g)])
      end
  | Enforce g =>
      if negb enf then (c, [Install g None])
      else if ok then (open_session g c, [Install g (Some g)])
      else (c, [StopFailed g true (enforceFails g)])
  | Install g s =>
      if negb (Nat.eqb (gen c) g) || negb (bool_decide (state c = Connecting))
      then (c, match s with Some s => [CloseStale g s] | None => [StopStale g] end)
      else (publishLocked Protected (become (Some g) s Protected c), [])
  | CloseStale g s => (close_session s c, [StopStale g])
  | StopStale g => (unlisten g c, [])
  | StopFailed g bound d => (if bound then unlisten g c else c, [AbortCheck g d])
  | AbortCheck g d => (c, if Nat.eqb (gen c) g then [AbortShow g d] else [])
  | AbortShow g d => (notifyDetail d c, [AbortWrite g])
  | AbortWrite g =>
      (if Nat.eqb (gen c) g then publishLocked Disconnected (become None None Disconnected c) else c, [])
  | DisLock =>
      (publishLocked Disconnected (bump (become None None Disconnected c)),
       match sess c with Some s => [DisClose s (eng c)] | None => cancel_next (eng c) end)
  | DisClose s e => (close_session s c, cancel_next e)
  | DisCancel e => if ok then (unlisten e c, [DisStop e false]) else (c, [DisStop e true])
  | DisStop e bound => (if bound then unlisten e c else c, [])
  | Notify d => (notifyDetail d c, [])
  end.

(** [Connect], which returns after its critical section. *)
Definition Connect (c : Ctl) : Ctl * list thread :=
  if negb (bool_decide (state c = Disconnected)) then (c, [])
  else let c := bump c in (become (eng c) (sess c) Connecting c, [Announce (gen c)]).
(** [Disconnect] starts a goroutine; [DisconnectAndWait] is the same steps, in the caller's. *)
Definition Disconnect : list thread := [DisLock].
(** [onEvent], called by the engine that attempt [g] made. *)
Definition onEvent (g : nat) (ev : Event) (c : Ctl) : Ctl * list thread :=
  if negb (Nat.eqb (gen c) g) then (c, [])
  else
    let cur := state c in
    let next := StateFor cur ev in
    (if bool_decide (next = cur) then c else publishLocked next (become (eng c) (sess c) next c),
     match DetailFor ev cur with Some d => [Notify d] | None => [] end).

(** ** Runs *)

Inductive label := LConnect | LDisconnect | LEvent (g : nat) (ev : Event) | LThread (i : nat) (ok : bool).
Definition world : Type := Ctl * list thread.
Definition init : world := (NewController, []).

Definition exec (w : world) (l : label) : world :=
  let '(c, ts) := w in
  match l with
  | LConnect => let '(c, new) := Connect c in (c, ts ++ new)
  | LDisconnect => (c, ts ++ Disconnect)
  | LEvent g ev => let '(c, new) := onEvent g ev c in (c, ts ++ new)
  | LThread i ok =>
      match ts !! i with
      | Some t => let '(c, new) := thread_step ok t c in (c, take i ts ++ new ++ drop (S i) ts)
      | None => (c, ts)
      end
  end.
Definition runs (tr : list label) (w : world) : world := foldl exec w tr.
End Controller.

(** ** What the goroutines own *)

(** The engine whose listener a goroutine answers for, the session it answers for, and the
    attempt it is. *)
Definition holds (t : thread) : option nat :=
  match t with
  | Enforce g | Install g _ | CloseStale g _ | StopStale g | StopFailed g true _ => Some g
  | DisClose _ e => e
  | DisCancel e | DisStop e true => Some e
  | _ => None
  end.
Definition opens (t : thread) : option nat :=
  match t with Install _ s => s | CloseStale _ s | DisClose s _ => Some s | _ => None end.
Definition attempt (t : thread) : option nat :=
  match t with
  | Announce g | Prepare g | Dial g | Enforce g | Install g _ | StopFailed g _ _ | AbortCheck g _ | AbortShow g _ | AbortWrite g => Some g
  | _ => None
  end.

(** What the user was last shown; before the first call, that nothing is connected. *)
Definition shown (c : Ctl) : ConnState := hd Disconnected (published c).
Definition follows (prev next : ConnState) : bool :=
  match prev, next with
  | _, Disconnected | Disconnected, Connecting | Connecting, Protected | Protected, Blocked | Blocked, Protected => true
  | _, _ => false
  end.
Fixpoint legal (p : list ConnState) : Prop :=
  match p with [] => True | x :: l => follows (hd Disconnected l) x = true /\ legal l end.

(** The session an engine of this client comes with. *)
Definition due (enf : bool) (g : nat) : option nat := if enf then Some g else None.
Definition well_owned (enf : bool) (t : thread) : Prop :=
  match t with
  | Install g s => s = due enf g
  | CloseStale g s => s = g /\ enf = true
  | DisClose s e => e = Some s /\ enf = true
  | _ => True
  end.

Record Inv (enf : bool) (c : Ctl) (ts : list thread) : Prop := {
  i_held : omap holds ts ++ option_list (eng c) ≡ₚ option_list (socks c);
  i_open : omap opens ts ++ option_list (sess c) ≡ₚ sessions c;
  i_own : Forall (well_owned enf) ts;
  i_sess : sess c = (eng c ≫= due enf);
  i_up : is_Some (eng c) <-> up (state c) = true;
  i_old : Forall (fun g => g <= gen c)%nat (omap attempt ts);
  i_once : NoDup (omap attempt ts);
  i_connecting : state c = Connecting <-> gen c ∈ omap attempt ts;
  i_waiting : Announce (gen c) ∈ ts -> shown c = Disconnected;
  i_shown : Announce (gen c) ∉ ts -> shown c = state c;
  i_legal : legal (published c);
}.

Lemma Inv_reorder enf c ts ts' : ts ≡ₚ ts' -> Inv enf c ts -> Inv enf c ts'.
Proof.
  intros Hp []. split; rewrite <-?Hp; try done.
Qed.

Lemma singleton_held {x : nat} {l o} : x :: l ≡ₚ option_list o -> o = Some x /\ l = [].
Proof.
  destruct o as [y|]; cbn; intros Hp.
  - apply symmetry, Permutation_singleton_l in Hp. by simplify_eq.
  - by apply symmetry, Permutation_nil_l in Hp.
Qed.

Lemma remove_one_perm g l l' : g :: l ≡ₚ l' -> l ≡ₚ remove_one g l'.
Proof.
  revert l. induction l' as [|x l' IH]; intros l Hp; [by apply Permutation_nil_r in Hp|].
  cbn. destruct (Nat.eqb_spec x g) as [->|Hne]; [by apply Permutation_cons_inv in Hp|].
  assert (x ∈ l) as (l1 & l2 & ->)%list_elem_of_split.
  { assert (x ∈ g :: l) as Hx by (rewrite Hp; by left). apply elem_of_cons in Hx as [->|Hx]; done. }
  rewrite <-Permutation_middle in *. f_equiv. apply IH.
  rewrite (Permutation_swap x g) in Hp. by apply Permutation_cons_inv in Hp.
Qed.

Lemma remove_one_perm' g l l' : l' ≡ₚ g :: l -> remove_one g l' ≡ₚ l.
Proof. intros Hp. symmetry. by apply remove_one_perm. Qed.

Lemma StateFor_follows cur ev : StateFor cur ev <> cur -> follows cur (StateFor cur ev) = true /\ up cur = true /\ up (StateFor cur ev) = true.
Proof.
  unfold StateFor. destruct (bool_decide _); cbn; [|done]. destruct cur; cbn; try done; intros Hne;
    repeat case_match; done.
Qed.

Lemma up_Connecting s : up s = true -> s <> Connecting.
Proof. by intros Hu ->. Qed.

Section Preservation.
Context (enf : bool) (prepareFails dialFails enforceFails : nat -> Detail).
Local Abbreviation thread_step := (thread_step enf prepareFails dialFails enforceFails).

(** A goroutine that goes on as the same attempt, with nothing but the attempt. *)
Lemma Inv_goes_on c t t' rest :
  holds t = holds t' -> opens t = opens t' -> attempt t = attempt t' -> well_owned enf t' ->
  (forall g, t <> Announce g) -> (forall g, t' <> Announce g) ->
  Inv enf c (t :: rest) -> Inv enf c (t' :: rest).
Proof.
  intros Hh Ho Ha Hw Hn Hn' []. 
  assert (forall g, Announce g ∈ t' :: rest <-> Announce g ∈ t :: rest) as Hann.
  { intros g. rewrite !elem_of_cons. split; intros [<-|?]; [by destruct (Hn' g)|by right|by destruct (Hn g)|by right]. }
  split; cbn [omap list_omap] in *; rewrite <-?Hh, <-?Ho, <-?Ha, ?Hann; try done.
  by apply Forall_cons in i_own0 as [_ ?]; constructor.
Qed.

(** A goroutine that ends, and was no attempt of this generation. *)
Lemma Inv_ends c t rest :
  holds t = None -> opens t = None -> attempt t <> Some (gen c) -> Inv enf c (t :: rest) -> Inv enf c rest.
Proof.
  intros Hh Ho Ha [].
  assert (Announce (gen c) ∈ t :: rest <-> Announce (gen c) ∈ rest) as Hann.
  { rewrite elem_of_cons. split; [intros [<-|?]; [by destruct Ha|done]|by right]. }
  split; cbn [omap list_omap] in *; rewrite ?Hh in i_held0; rewrite ?Ho in i_open0; rewrite <-?Hann; try done.
  - by apply Forall_cons in i_own0 as [_ ?].
  - destruct (attempt t); [by apply Forall_cons in i_old0 as [_ ?]|done].
  - destruct (attempt t); [by apply NoDup_cons in i_once0 as [_ ?]|done].
  - rewrite i_connecting0. destruct (attempt t) as [g|]; [|done]. rewrite elem_of_cons. split; [intros [<-|?]; [by destruct Ha|done]|by right].
Qed.

(** The listener is let go of by the goroutine that answered for it. *)
Lemma Inv_held c t g rest :
  holds t = Some g -> Inv enf c (t :: rest) -> socks c = Some g /\ omap holds rest = [] /\ eng c = None.
Proof.
  intros Hh [Hi]. cbn in Hi. rewrite Hh in Hi. apply singleton_held in Hi as [Hs Hn].
  apply app_eq_nil in Hn as [? Hn]. by destruct (eng c).
Qed.

Lemma Inv_unlistens c t t' g rest :
  holds t = Some g -> holds t' = None -> opens t = opens t' -> attempt t = attempt t' -> well_owned enf t' ->
  (forall g, t <> Announce g) -> (forall g, t' <> Announce g) ->
  Inv enf c (t :: rest) -> Inv enf (unlisten g c) (t' :: rest).
Proof.
  intros Hh Hh' Ho Ha Hw Hn Hn' HI. destruct (Inv_held _ _ _ _ Hh HI) as (Hs & Hr & He). destruct HI.
  assert (forall g, Announce g ∈ t' :: rest <-> Announce g ∈ t :: rest) as Hann.
  { intros x. rewrite !elem_of_cons. split; intros [<-|?]; [by destruct (Hn' x)|by right|by destruct (Hn x)|by right]. }
  unfold unlisten. rewrite decide_True by done.
  split; cbn [machine gen state eng sess socks sessions published] in *; cbn [omap list_omap] in *; unfold shown in *; cbn [machine published];
    rewrite ?Hh', <-?Ho, <-?Ha, ?Hann; try done.
  - by rewrite Hr, He.
  - by apply Forall_cons in i_own0 as [_ ?]; constructor.
Qed.

(** The session is closed by the goroutine that answered for it. *)
Lemma Inv_closes c t t' s rest :
  opens t = Some s -> opens t' = None -> holds t = holds t' -> attempt t = attempt t' -> well_owned enf t' ->
  (forall g, t <> Announce g) -> (forall g, t' <> Announce g) ->
  Inv enf c (t :: rest) -> Inv enf (close_session s c) (t' :: rest).
Proof.
  intros Ho Ho' Hh Ha Hw Hn Hn' [].
  assert (forall g, Announce g ∈ t' :: rest <-> Announce g ∈ t :: rest) as Hann.
  { intros x. rewrite !elem_of_cons. split; intros [<-|?]; [by destruct (Hn' x)|by right|by destruct (Hn x)|by right]. }
  split; unfold close_session, shown in *; cbn [machine gen state eng sess socks sessions published] in *; cbn [omap list_omap] in *;
    rewrite ?Ho', <-?Hh, <-?Ha, ?Hann; try done.
  - rewrite Ho in i_open0. cbn in i_open0. by apply remove_one_perm.
  - by apply Forall_cons in i_own0 as [_ ?]; constructor.
Qed.

(** A goroutine that is done with everything may go. *)
Lemma Inv_gone c t rest :
  holds t = None -> opens t = None -> attempt t = None -> Inv enf c (t :: rest) -> Inv enf c rest.
Proof. intros Hh Ho Ha. apply Inv_ends; [done..|by rewrite Ha]. Qed.

Lemma Announce_attempt g (ts : list thread) : Announce g ∈ ts -> g ∈ omap attempt ts.
Proof. intros Hg. apply list_elem_of_omap. by exists (Announce g). Qed.

(** While the state is [Connecting] nothing is installed. *)
Lemma Inv_connecting c ts : state c = Connecting -> Inv enf c ts -> eng c = None /\ sess c = None.
Proof.
  intros Hs [_ _ _ Hsess Hup]. rewrite Hs in Hup. destruct (eng c) as [g|]; [by pose proof (proj1 Hup (ltac:(done)))|].
  by rewrite Hsess.
Qed.

(** The current attempt, seen from its goroutine. *)
Lemma Inv_current c t rest :
  attempt t = Some (gen c) -> Inv enf c (t :: rest) ->
  state c = Connecting /\ gen c ∉ omap attempt rest /\ Announce (gen c) ∉ rest.
Proof.
  intros Ha []. cbn in *. rewrite Ha in *. apply NoDup_cons in i_once0 as [Hni _]. split_and!; [apply i_connecting0; by left|done|].
  intros Hr. by apply Hni, Announce_attempt.
Qed.

(** An attempt that ends the state it made, in either way. *)
Lemma Inv_concludes c t rest e s st so se :
  attempt t = Some (gen c) -> (forall g, t <> Announce g) ->
  omap holds rest ++ option_list e ≡ₚ option_list so -> omap opens rest ++ option_list s ≡ₚ se ->
  s = (e ≫= due enf) -> (is_Some e <-> up st = true) -> st <> Connecting -> follows Connecting st = true ->
  Inv enf c (t :: rest) -> Inv enf (MkCtl (gen c) st e s so se (st :: published c) (details c)) rest.
Proof.
  intros Ha Hn Hh Ho Hs Hu Hst Hf HI. destruct (Inv_current _ _ _ Ha HI) as (Hc & Hni & Hna).
  assert (shown c = Connecting) as Hsh.
  { rewrite <-Hc. apply HI. rewrite elem_of_cons. intros [He|?]; [by destruct (Hn (gen c))|done]. }
  destruct HI. split; cbn [gen state eng sess socks sessions published]; cbn [omap list_omap] in *; try done.
  - by apply Forall_cons in i_own0 as [_ ?].
  - rewrite Ha in i_old0. by apply Forall_cons in i_old0 as [_ ?].
  - rewrite Ha in i_once0. by apply NoDup_cons in i_once0 as [_ ?].
  - unfold shown in Hsh. cbn. by rewrite Hsh.
Qed.

(** A superseded attempt goes on as the clean-up of what it holds. *)
Lemma Inv_stale c t t' rest :
  holds t = holds t' -> opens t = opens t' -> attempt t <> Some (gen c) -> attempt t' = None -> well_owned enf t' ->
  Inv enf c (t :: rest) -> Inv enf c (t' :: rest).
Proof.
  intros Hh Ho Ha Ha' Hw [].
  assert (Announce (gen c) ∈ t' :: rest <-> Announce (gen c) ∈ t :: rest) as Hann.
  { rewrite !elem_of_cons. split; intros [<-|?]; [done|by right|by destruct Ha|by right]. }
  split; cbn [omap list_omap] in *; rewrite <-?Hh, <-?Ho, ?Ha', ?Hann; try done.
  - by apply Forall_cons in i_own0 as [_ ?]; constructor.
  - destruct (attempt t); [by apply Forall_cons in i_old0 as [_ ?]|done].
  - destruct (attempt t); [by apply NoDup_cons in i_once0 as [_ ?]|done].
  - rewrite i_connecting0. destruct (attempt t) as [g|]; [|done]. rewrite elem_of_cons. split; [intros [<-|?]; [by destruct Ha|done]|by right].
Qed.

Lemma Inv_announces c g rest :
  Inv enf c (Announce g :: rest) ->
  Inv enf (if Nat.eqb (gen c) g && bool_decide (state c = Connecting) then publishLocked Connecting c else c) (Prepare g :: rest).
Proof.
  intros HI. destruct (Nat.eqb_spec (gen c) g) as [<-|Hne]; cbn [andb].
  - destruct (Inv_current _ (Announce (gen c)) _ eq_refl HI) as (Hc & _ & Hna). rewrite bool_decide_eq_true_2 by done.
    pose proof (i_waiting _ _ _ HI ltac:(by left)) as Hsh. destruct HI.
    split; cbn [publishLocked gen state eng sess socks sessions published]; cbn [omap list_omap] in *; try done.
    + by apply Forall_cons in i_own0 as [_ ?]; constructor.
    + by intros [?|?]%elem_of_cons.
    + cbn. unfold shown in Hsh. by rewrite Hsh.
  - destruct HI.
    assert (Announce (gen c) ∈ Prepare g :: rest <-> Announce (gen c) ∈ Announce g :: rest) as Hann.
    { rewrite !elem_of_cons. split; intros [?|?]; try done; try (by right). by simplify_eq. }
    split; cbn [omap list_omap] in *; rewrite ?Hann; try done. by apply Forall_cons in i_own0 as [_ ?]; constructor.
Qed.

Lemma Inv_dials c c' g rest :
  listen g c = Some c' -> Inv enf c (Dial g :: rest) -> Inv enf c' (Enforce g :: rest).
Proof.
  unfold listen. destruct (socks c) eqn:Hs; [done|]. intros [= <-] [].
  assert (forall x, Announce x ∈ Enforce g :: rest <-> Announce x ∈ Dial g :: rest) as Hann.
  { intros x. rewrite !elem_of_cons. split; intros [?|?]; try done; by right. }
  rewrite Hs in i_held0. cbn in i_held0. apply Permutation_nil_r, app_eq_nil in i_held0 as [Hr He].
  split; unfold shown in *; cbn [machine gen state eng sess socks sessions published]; cbn [omap list_omap holds opens attempt] in *; rewrite ?Hann; try done.
  - cbn. by rewrite Hr, He.
  - by apply Forall_cons in i_own0 as [_ ?]; constructor.
Qed.

Lemma Inv_enforces c g rest :
  enf = true -> Inv enf c (Enforce g :: rest) -> Inv enf (open_session g c) (Install g (Some g) :: rest).
Proof.
  intros He [].
  assert (forall x, Announce x ∈ Install g (Some g) :: rest <-> Announce x ∈ Enforce g :: rest) as Hann.
  { intros x. rewrite !elem_of_cons. split; intros [?|?]; try done; by right. }
  split; unfold shown in *; cbn [open_session machine gen state eng sess socks sessions published]; cbn [omap list_omap holds opens attempt] in *; rewrite ?Hann; try done.
  - cbn. by f_equiv.
  - apply Forall_cons in i_own0 as [_ ?]; constructor; [|done]. by rewrite He.
Qed.

Lemma Inv_details c d ts : Inv enf c ts -> Inv enf (notifyDetail d c) ts.
Proof. intros []. by split. Qed.

Lemma Inv_installs c g s rest :
  s = due enf g -> Inv enf c (Install g s :: rest) ->
  let '(c', new) := thread_step true (Install g s) c in Inv enf c' (new ++ rest).
Proof.
  intros Hd HI. cbn [Controller.thread_step].
  destruct (negb (Nat.eqb (gen c) g) || negb (bool_decide (state c = Connecting))) eqn:Hst.
  - assert (gen c <> g) as Hne.
    { intros <-. destruct (Inv_current _ (Install (gen c) s) rest eq_refl HI) as (Hc & _). by rewrite Nat.eqb_refl, bool_decide_eq_true_2 in Hst. }
    assert (attempt (Install g s) <> Some (gen c)) as Ha by (cbn; congruence).
    destruct s as [s|]; cbn [app]; (eapply Inv_stale; [..|exact HI]); try done.
    unfold due in Hd. cbn. by destruct enf; simplify_eq.
  - apply orb_false_iff in Hst as [Hg%negb_false_iff%Nat.eqb_eq Hc%negb_false_iff%bool_decide_eq_true]. subst g. destruct (Inv_connecting _ _ ltac:(done) HI) as [He Hs]. pose proof (i_held _ _ _ HI) as Hh. pose proof (i_open _ _ _ HI) as Ho.
    rewrite He in Hh. rewrite Hs in Ho. cbn [omap list_omap holds opens app] in Hh, Ho. 
    refine (Inv_concludes c (Install (gen c) s) rest (Some (gen c)) s Protected (socks c) (sessions c) _ _ _ _ _ _ _ _ HI); try done.
    + cbn in *. rewrite <-Hh. by rewrite app_nil_r, Permutation_app_comm.
    + destruct s as [s|]; cbn in *; rewrite <-Ho; by rewrite ?app_nil_r, ?(Permutation_app_comm _ [s]).
Qed.

Lemma Inv_aborts c rest :
  Inv enf c (AbortWrite (gen c) :: rest) -> Inv enf (publishLocked Disconnected (become None None Disconnected c)) rest.
Proof.
  intros HI. destruct (Inv_current _ (AbortWrite (gen c)) rest eq_refl HI) as (Hc & _). destruct (Inv_connecting _ _ Hc HI) as [He Hs].
  pose proof (i_held _ _ _ HI) as Hh. pose proof (i_open _ _ _ HI) as Ho. rewrite He in Hh. rewrite Hs in Ho.
  refine (Inv_concludes c (AbortWrite (gen c)) rest None None Disconnected (socks c) (sessions c) _ _ _ _ _ _ _ _ HI); done.
Qed.

(** [disconnectNow]'s critical section: what was installed is the goroutine's. *)
Lemma Inv_disconnects c rest :
  Inv enf c (DisLock :: rest) ->
  let '(c', new) := thread_step true DisLock c in Inv enf c' (new ++ rest).
Proof.
  intros []. cbn [Controller.thread_step].
  set (new := match sess c with Some s => [DisClose s (eng c)] | None => cancel_next (eng c) end).
  assert (omap holds new = option_list (eng c) /\ omap opens new = option_list (sess c) /\ omap attempt new = [] /\ Forall (well_owned enf) new)
    as (Hh & Ho & Ha & Hw).
  { unfold new. rewrite i_sess0. unfold due. destruct (eng c) as [e|]; [|by cbn]. destruct enf; cbn; split_and!; repeat constructor. }
  assert (S (gen c) ∉ omap attempt (new ++ rest)) as Hni.
  { rewrite omap_app, Ha. intros Hin. cbn in *. rewrite Forall_forall in i_old0. apply i_old0 in Hin. lia. }
  split; cbn [publishLocked bump become gen state eng sess socks sessions published]; try done; rewrite ?omap_app, ?Hh, ?Ho, ?Ha; cbn [omap list_omap holds opens attempt app] in *.
  - by rewrite app_nil_r, Permutation_app_comm.
  - by rewrite app_nil_r, Permutation_app_comm.
  - apply Forall_app. split; [done|]. by apply Forall_cons in i_own0 as [_ ?].
  - eapply Forall_impl; [done|]. cbn. lia.
  - done.
  - split; [by destruct (hd Disconnected (published c))|done].
Qed.

Lemma thread_step_Inv ok c t rest :
  Inv enf c (t :: rest) -> let '(c', new) := thread_step ok t c in Inv enf c' (new ++ rest).
Proof.
  intros HI. pose proof (i_own _ _ _ HI) as [Hw _]%Forall_cons.
  destruct t as [g|g|g|g|g s|g s|g|g b d|g d|g d|g| |s e|e|e b|d]; cbn [Controller.thread_step app well_owned] in *.
  - by apply Inv_announces.
  - destruct ok; by eapply Inv_goes_on; [..|exact HI].
  - destruct ok; [destruct (listen g c) eqn:Hl|]; cbn [app]; [by eapply Inv_dials|by eapply Inv_goes_on; [..|exact HI]..].
  - destruct (negb enf) eqn:He; [apply negb_true_iff in He|apply negb_false_iff in He].
    { eapply Inv_goes_on; [..|exact HI]; try done. cbn. by rewrite He. }
    destruct ok; cbn [app]; [by apply Inv_enforces|by eapply Inv_goes_on; [..|exact HI]].
  - by apply Inv_installs.
  - destruct Hw as [-> _]. by eapply Inv_closes; [..|exact HI].
  - eapply Inv_gone with (t := DisStop g false); [done..|]. by eapply Inv_unlistens; [..|exact HI].
  - destruct b; [by eapply Inv_unlistens; [..|exact HI]|by eapply Inv_goes_on; [..|exact HI]].
  - destruct (Nat.eqb_spec (gen c) g) as [<-|Hne]; cbn [app]; [by eapply Inv_goes_on; [..|exact HI]|].
    eapply Inv_ends; [| | |exact HI]; try done. cbn. congruence.
  - eapply Inv_goes_on; [..|by eapply Inv_details]; done.
  - destruct (Nat.eqb_spec (gen c) g) as [<-|Hne]; cbn [app].
    + by apply Inv_aborts.
    + eapply Inv_ends; [| | |exact HI]; try done. cbn. congruence.
  - by apply Inv_disconnects.
  - destruct Hw as [-> He]. change (cancel_next (Some s)) with [DisCancel s]. by eapply Inv_closes; [..|exact HI].
  - destruct ok; cbn [app]; [by eapply Inv_unlistens; [..|exact HI]|by eapply Inv_goes_on; [..|exact HI]].
  - destruct b; [eapply Inv_gone with (t := DisStop e false); [done..|]; by eapply Inv_unlistens; [..|exact HI]|].
    by eapply Inv_gone; [..|exact HI].
  - eapply Inv_gone; [..|by eapply Inv_details]; done.
Qed.

Lemma Connect_Inv c ts : Inv enf c ts -> let '(c', new) := Connect c in Inv enf c' (ts ++ new).
Proof.
  intros HI. unfold Connect. case_bool_decide as Hs; cbn [negb]; [|by rewrite app_nil_r].
  cbn [bump gen]. apply (Inv_reorder _ _ (Announce (S (gen c)) :: ts)); [by rewrite Permutation_app_comm|]. destruct HI.
  assert (S (gen c) ∉ omap attempt ts) as Hni.
  { intros Hin. rewrite Forall_forall in i_old0. apply i_old0 in Hin. lia. }
  assert (Announce (gen c) ∉ ts) as Hna.
  { intros Ha%Announce_attempt. apply i_connecting0 in Ha. congruence. }
  split; cbn [bump become gen state eng sess socks sessions published]; cbn [omap list_omap holds opens attempt]; try done.
  - by constructor.
  - rewrite Hs in i_up0. done.
  - constructor; [lia|]. eapply Forall_impl; [done|]. cbn. lia.
  - by constructor.
  - split; [|done]. intros _. by left.
  - intros _. unfold shown in *. cbn. rewrite i_shown0 by done. done.
  - intros Hn. destruct Hn. by left.
Qed.

Lemma onEvent_Inv g ev c ts : Inv enf c ts -> let '(c', new) := onEvent g ev c in Inv enf c' (ts ++ new).
Proof.
  intros HI. unfold onEvent. destruct (Nat.eqb_spec (gen c) g) as [_|]; cbn [negb]; [|by rewrite app_nil_r].
  set (new := match DetailFor ev (state c) with Some d => [Notify d] | None => [] end).
  assert (omap holds new = [] /\ omap opens new = [] /\ omap attempt new = [] /\ Forall (well_owned enf) new /\ forall x, Announce x ∉ new)
    as (Hh & Ho & Ha & Hw & Hn).
  { unfold new. destruct (DetailFor ev (state c)); split_and!; try done; [by repeat constructor| |]; intros x Hx; [|by apply not_elem_of_nil in Hx].
    by apply list_elem_of_singleton in Hx. }
  assert (Hann : forall x, Announce x ∈ ts ++ new <-> Announce x ∈ ts).
  { intros x. rewrite elem_of_app. naive_solver. }
  clearbody new. case_bool_decide as Hsame; destruct HI.
  - split; rewrite ?omap_app, ?Hh, ?Ho, ?Ha, ?app_nil_r, ?Hann; try done. by apply Forall_app.
  - destruct (StateFor_follows _ _ Hsame) as (Hf & Hup & Hup'). pose proof (up_Connecting _ Hup) as Hnc. pose proof (up_Connecting _ Hup') as Hnc'.
    assert (Announce (gen c) ∉ ts) as Hna by (intros Hx%Announce_attempt; by apply Hnc, i_connecting0).
    split; unfold shown in *; cbn [publishLocked become gen state eng sess socks sessions published]; rewrite ?omap_app, ?Hh, ?Ho, ?Ha, ?app_nil_r, ?Hann; try done.
    + by apply Forall_app.
    + rewrite i_up0. by split.
    + split; [done|]. by intros Hx%i_connecting0.
    + cbn. split; [|done]. by rewrite i_shown0.
Qed.

Local Abbreviation exec := (exec enf prepareFails dialFails enforceFails).
Local Abbreviation runs := (runs enf prepareFails dialFails enforceFails).

Lemma exec_Inv w l : Inv enf w.1 w.2 -> Inv enf (exec w l).1 (exec w l).2.
Proof.
  destruct w as [c ts]. cbn [fst snd]. intros HI. destruct l as [| |g ev|i ok]; cbn [Controller.exec].
  - pose proof (Connect_Inv _ _ HI) as Hc. by destruct (Connect c).
  - cbn [fst snd]. apply (Inv_reorder _ _ (DisLock :: ts)); [by rewrite Permutation_app_comm|]. destruct HI.
    assert (forall g, Announce g ∈ DisLock :: ts <-> Announce g ∈ ts) as Hann.
    { intros x. rewrite elem_of_cons. naive_solver. }
    split; cbn [omap list_omap holds opens attempt]; rewrite ?Hann; try done. by constructor.
  - pose proof (onEvent_Inv g ev _ _ HI) as Hc. by destruct (onEvent g ev c).
  - destruct (ts !! i) as [t|] eqn:Ht; [|done].
    apply (Inv_reorder enf c ts (t :: take i ts ++ drop (S i) ts)) in HI;
      [|rewrite <-(take_drop_middle ts i t) at 1 by done; by rewrite Permutation_middle].
    apply (thread_step_Inv ok) in HI. destruct (thread_step ok t c) as [c' new]. cbn [fst snd].
    eapply Inv_reorder; [|exact HI]. by rewrite !(assoc_L (++)), (Permutation_app_comm new).
Qed.

Lemma runs_Inv tr w : Inv enf w.1 w.2 -> Inv enf (runs tr w).1 (runs tr w).2.
Proof. revert w. induction tr as [|l tr IH]; intros w HI; [done|]. apply IH. by apply exec_Inv. Qed.

Lemma init_Inv : Inv enf init.1 init.2.
Proof. split; cbn; try done; try constructor; try done. intros Hx. by apply not_elem_of_nil in Hx. Qed.

Lemma reachable_Inv tr : Inv enf (runs tr init).1 (runs tr init).2.
Proof. apply runs_Inv, init_Inv. Qed.
End Preservation.

(** ** Runs end *)

(** How many steps a goroutine can still take. *)
Definition work_of (t : thread) : nat :=
  match t with
  | Announce _ => 8 | Prepare _ => 7 | Dial _ => 6 | Enforce _ => 5 | Install _ _ => 3
  | CloseStale _ _ => 2 | StopStale _ => 1 | StopFailed _ _ _ => 4
  | AbortCheck _ _ => 3 | AbortShow _ _ => 2 | AbortWrite _ => 1
  | DisLock => 4 | DisClose _ _ => 3 | DisCancel _ => 2 | DisStop _ _ => 1
  | Notify _ => 1
  end.
Definition work (ts : list thread) : nat := sum_list_with work_of ts.

(** A run of goroutines only, in which each label is a step that one of them takes. *)
Fixpoint moves (step : world -> label -> world) (tr : list label) (w : world) : bool :=
  match tr with
  | [] => true
  | LThread i ok :: tr => (i <? List.length w.2)%nat && moves step tr (step w (LThread i ok))
  | _ => false
  end.
(** A label that is nobody's [Connect]. *)
Definition no_connect (l : label) : bool := match l with LConnect => false | _ => true end.

(** Nothing is in flight: what is installed is all there is, and the user is shown it. *)
Definition settled (enf : bool) (c : Ctl) : Prop :=
  socks c = eng c /\ sessions c = (if enf then option_list (eng c) else []) /\
  (is_Some (eng c) <-> up (state c) = true) /\ state c <> Connecting /\ shown c = state c.

Section Runs.
Context (enf : bool) (prepareFails dialFails enforceFails : nat -> Detail).
Local Abbreviation thread_step := (thread_step enf prepareFails dialFails enforceFails).
Local Abbreviation exec := (exec enf prepareFails dialFails enforceFails).
Local Abbreviation runs := (runs enf prepareFails dialFails enforceFails).

Lemma thread_step_work ok t c : (work (thread_step ok t c).2 < work_of t)%nat.
Proof.
  destruct t; cbn; unfold work, cancel_next; repeat case_match; simplify_eq; cbn; try lia.
Qed.

Lemma exec_work c ts i ok : (i < List.length ts)%nat -> (work (exec (c, ts) (LThread i ok)).2 < work ts)%nat.
Proof.
  intros Hi. destruct (lookup_lt_is_Some_2 ts i Hi) as [t Ht]. cbn. rewrite Ht.
  pose proof (thread_step_work ok t c) as Hw. destruct (thread_step ok t c) as [c' new]. cbn in *.
  rewrite <-(take_drop_middle ts i t) at 3 by done. unfold work in *. rewrite !sum_list_with_app. cbn. lia.
Qed.

Lemma moves_work tr w : moves exec tr w = true -> (List.length tr + work (runs tr w).2 <= work w.2)%nat.
Proof.
  revert w. induction tr as [|l tr IH]; intros [c ts] Hm; [done|]. destruct l as [| | |i ok]; try done.
  cbn [moves] in Hm. apply andb_true_iff in Hm as [Hi%Nat.ltb_lt Hm]. cbn [snd] in *. apply IH in Hm.
  pose proof (exec_work c ts i ok Hi). change (runs (LThread i ok :: tr) (c, ts)) with (runs tr (exec (c, ts) (LThread i ok))). cbn [List.length]. lia.
Qed.

Lemma settles_in n w : (work w.2 <= n)%nat -> forall ok, (runs (replicate n (LThread 0 ok)) w).2 = [].
Proof.
  revert w. induction n as [|n IH]; intros [c ts] Hw ok.
  - destruct ts as [|t ts]; [done|]. cbn in Hw. destruct t; cbn in Hw; lia.
  - cbn [replicate]. change (runs (?l :: ?tr) ?w) with (runs tr (exec w l)). apply IH.
    destruct ts as [|t ts]; [cbn; lia|]. pose proof (exec_work c (t :: ts) 0 ok ltac:(cbn; lia)). cbn [snd] in *. lia.
Qed.

Lemma Inv_settled c : Inv enf c [] -> settled enf c.
Proof.
  intros []. cbn in *. split_and!; try done.
  - destruct (eng c) as [g|]; cbn in i_held0; [by apply singleton_held in i_held0 as [-> _]|].
    destruct (socks c); [|done]. by apply Permutation_nil_l in i_held0.
  - rewrite i_sess0 in i_open0. unfold due in *. destruct (eng c) as [g|], enf; cbn in *;
      (by apply Permutation_length_1_inv in i_open0) || by apply Permutation_nil_l in i_open0.
  - intros Hx%i_connecting0. by apply not_elem_of_nil in Hx.
  - apply i_shown0, not_elem_of_nil.
Qed.

Lemma Announce_dec g (ts : list thread) : Announce g ∈ ts \/ Announce g ∉ ts.
Proof.
  induction ts as [|t ts [IH|IH]]; [right; apply not_elem_of_nil|left; by right|].
  assert (t = Announce g \/ t <> Announce g) as [->|Hne] by (destruct t as [x| | | | | | | | | | | | | | |]; try (by right);
    destruct (decide (x = g)) as [->|]; [by left|right; congruence]).
  - left. by left.
  - right. rewrite elem_of_cons. intros [?|?]; [by destruct Hne|done].
Qed.

(** A [Disconnect] that is asked for stays so until it is done, and then so does its effect. *)
Definition disconnecting (w : world) : Prop := DisLock ∈ w.2 \/ state w.1 = Disconnected.

Lemma exec_disconnecting w l : no_connect l = true -> disconnecting w -> disconnecting (exec w l).
Proof.
  destruct w as [c ts]. unfold disconnecting. cbn [fst snd]. intros Hl Hd. destruct l as [| |g ev|i ok]; cbn [Controller.exec]; [done|..].
  - left. cbn. rewrite elem_of_app. right. by left.
  - unfold onEvent. destruct (negb _); [cbn [fst snd]; by rewrite app_nil_r|]. cbn [fst snd]. destruct Hd as [Hd|Hd]; [left; rewrite elem_of_app; by left|].
    right. rewrite Hd. unfold StateFor. cbn. rewrite orb_true_r. case_bool_decide; done.
  - destruct (ts !! i) as [t|] eqn:Ht; [|done].
    assert (t = DisLock \/ t <> DisLock) as [->|Hne] by (destruct t; (by left) || by right); [by right|].
    assert (state (thread_step ok t c).1 = state c \/ state (thread_step ok t c).1 = Disconnected \/ state c = Connecting) as Hs.
    { destruct t; cbn; unfold listen, unlisten; repeat case_match; simplify_eq; cbn; try by left.
      all: try by (right; left). apply orb_false_iff in H as [_ Hc%negb_false_iff%bool_decide_eq_true]. auto. }
    destruct (thread_step ok t c) as [c' new]. cbn [fst snd] in *. destruct Hd as [Hd|Hd]; [left|right; destruct Hs as [?|[?|?]]; congruence].
    apply list_elem_of_lookup in Hd as [j Hj]. rewrite !elem_of_app.
    assert (DisLock ∈ t :: take i ts ++ drop (S i) ts) as Hin.
    { rewrite Permutation_middle. rewrite take_drop_middle by done. by eapply list_elem_of_lookup_2. }
    apply elem_of_cons in Hin as [?|Hin]; [by subst|]. apply elem_of_app in Hin. tauto.
Qed.

Lemma runs_disconnecting tr w : forallb no_connect tr = true -> disconnecting w -> disconnecting (runs tr w).
Proof.
  revert w. induction tr as [|l tr IH]; intros w Hn Hd; [done|]. cbn in Hn. apply andb_true_iff in Hn as [Hl Hn].
  apply IH; [done|]. by apply exec_disconnecting.
Qed.

Lemma opens_holds t s : well_owned enf t -> opens t = Some s -> holds t = Some s /\ enf = true.
Proof.
  destruct t; cbn; try done; intros Hw Ho; try (destruct Hw as [-> ?]; by simplify_eq).
  subst. unfold due in Ho. destruct enf; by simplify_eq.
Qed.

Lemma opens_le ts : Forall (well_owned enf) ts -> (List.length (omap opens ts) <= List.length (omap holds ts))%nat.
Proof.
  induction 1 as [|t ts Hw _ IH]; [done|]. cbn. destruct (opens t) as [s|] eqn:Ho.
  - destruct (opens_holds _ _ Hw Ho) as [-> _]. cbn. lia.
  - destruct (holds t); cbn; lia.
Qed.

(** The sessions that are open are the listening engine's, and there is one at most. *)
Definition one_session (c : Ctl) : Prop :=
  (List.length (sessions c) <= 1)%nat /\
  (forall g, g ∈ sessions c -> socks c = Some g /\ enf = true) /\
  (forall g, eng c = Some g -> socks c = Some g /\ (enf = true -> sessions c = [g])).

Lemma Inv_one_session c ts : Inv enf c ts -> one_session c.
Proof.
  intros [Hh Ho Hw Hs]. assert (forall g, g ∈ omap holds ts ++ option_list (eng c) -> socks c = Some g) as Hsocks.
  { intros g. rewrite Hh. destruct (socks c); cbn; [|by intros ?%not_elem_of_nil]. by intros ->%list_elem_of_singleton. }
  assert (forall g, eng c = Some g -> socks c = Some g) as Heng.
  { intros g Hg. apply Hsocks, elem_of_app. right. rewrite Hg. by left. }
  assert (List.length (sessions c) <= 1)%nat as Hlen.
  { rewrite <-Ho, length_app, Hs. pose proof (opens_le _ Hw). apply Permutation_length in Hh. rewrite length_app in Hh.
    destruct (eng c), (socks c), enf; cbn in *; lia. }
  split_and!; [done| |].
  - intros g Hg. rewrite <-Ho in Hg. apply elem_of_app in Hg as [Hg|Hg].
    + apply list_elem_of_omap in Hg as (t & Ht & Hg). rewrite Forall_forall in Hw. destruct (opens_holds _ _ (Hw _ Ht) Hg) as [Hg' He].
      split; [|done]. apply Hsocks, elem_of_app. left. apply list_elem_of_omap. eauto.
    + rewrite Hs in Hg. unfold due in Hg. destruct (eng c) as [x|], enf; cbn in Hg; try by apply not_elem_of_nil in Hg.
      apply list_elem_of_singleton in Hg as ->. auto.
  - intros g Hg. split; [auto|]. intros He. rewrite Hs, Hg in Ho. unfold due in Ho. rewrite He in Ho. cbn in Ho.
    assert (g ∈ sessions c) as Hin by (rewrite <-Ho, elem_of_app; right; by left).
    destruct (sessions c) as [|x [|y l]]; [by apply not_elem_of_nil in Hin|by apply list_elem_of_singleton in Hin as ->|cbn in Hlen; lia].
Qed.

(** C11: However connects, disconnects and the engines' events interleave, at most one
    enforcement session is open at any time, and it is that of the engine that listens for
    it; an installed engine listens, and has its session. *)
Theorem one_session_at_a_time tr : one_session (runs tr init).1.
Proof. eapply Inv_one_session, reachable_Inv. Qed.

(** The states the user is shown follow each other the way a connection goes: connected
    only after connecting, and blocked only after connected. While one is shown as
    connected or blocked its engine is installed and listens, and its session is open;
    while connecting is shown an attempt is under way; and when nothing is shown to be
    connected nothing is installed. *)
Theorem shown_truthfully tr :
  let '(c, ts) := runs tr init in
  legal (published c) /\
  (up (shown c) = true -> exists g, eng c = Some g /\ socks c = Some g /\ (enf = true -> sessions c = [g])) /\
  (shown c = Connecting -> exists t, t ∈ ts /\ attempt t = Some (gen c)) /\
  (shown c = Disconnected -> eng c = None).
Proof.
  pose proof (reachable_Inv enf prepareFails dialFails enforceFails tr) as HI. destruct (runs tr init) as [c ts]. cbn in HI.
  destruct (Inv_one_session _ _ HI) as (_ & _ & Hone).
  assert (shown c = state c \/ shown c = Disconnected /\ state c = Connecting) as Hsh.
  { destruct (Announce_dec (gen c) ts) as [Ha|Ha]; [right|left; by apply HI].
    split; [by apply HI|]. apply HI. by apply Announce_attempt. }
  split_and!; [apply HI|..].
  - intros Hu. assert (up (state c) = true) as [g Hg]%HI by (destruct Hsh as [<-|[Hd _]]; [done|by rewrite Hd in Hu]).
    exists g. split; [done|]. by apply Hone.
  - intros Hc. assert (state c = Connecting) as Hin%HI by (destruct Hsh as [<-|[_ ?]]; done). apply list_elem_of_omap in Hin as (t & ? & ?). eauto.
  - intros Hd. destruct (eng c) as [g|] eqn:He; [|done]. assert (is_Some (eng c)) as Hu%HI by (by rewrite He).
    destruct Hsh as [Hs|[_ Hs]]; [rewrite <-Hs, Hd in Hu|rewrite Hs in Hu]; done.
Qed.

(** Goroutines come to an end: from wherever a run has got to, they take no more steps
    than can be counted; whichever goes first, none is stuck; and when they are done
    nothing is in flight, held or shown but what is installed. *)
Theorem every_run_settles tr :
  let w := runs tr init in
  (forall tr', moves exec tr' w = true ->
     (List.length tr' <= work w.2)%nat /\ ((runs tr' w).2 = [] -> settled enf (runs tr' w).1)) /\
  (forall ok, (runs (replicate (work w.2) (LThread 0 ok)) w).2 = []).
Proof.
  intros w. split; [|intros ok; by apply settles_in]. intros tr' Hm. split; [pose proof (moves_work _ _ Hm); lia|].
  intros He. apply Inv_settled. rewrite <-He. apply runs_Inv, reachable_Inv.
Qed.

Definition released (c : Ctl) : Prop :=
  eng c = None /\ socks c = None /\ sessions c = [] /\ state c = Disconnected /\ shown c = Disconnected.

Lemma settled_released c : settled enf c -> state c = Disconnected -> released c.
Proof.
  intros (Hs & Hse & Hu & _ & Hsh) Hd. assert (eng c = None) as He.
  { destruct (eng c) as [g|]; [|done]. rewrite Hd in Hu. by pose proof (proj1 Hu (ltac:(done))). }
  rewrite He in *. split_and!; try done; [by destruct enf|by rewrite Hsh].
Qed.

(** After a [Disconnect], and until the next [Connect], whatever attempts were under way
    and whatever their engines report: the goroutines end, and then no engine listens, no
    session is open, and the user is shown that nothing is connected. *)
Theorem disconnect_releases tr tr' :
  forallb no_connect tr' = true ->
  let w := runs tr' (exec (runs tr init) LDisconnect) in
  (w.2 = [] -> released w.1) /\
  forall ok, let w' := runs (replicate (work w.2) (LThread 0 ok)) w in w'.2 = [] /\ released w'.1.
Proof.
  intros Hn w.
  assert (forall tr'', forallb no_connect tr'' = true -> (runs tr'' w).2 = [] -> released (runs tr'' w).1) as Hr.
  { intros tr'' Hn' He. apply settled_released.
    - apply Inv_settled. rewrite <-He. apply runs_Inv, runs_Inv, exec_Inv, reachable_Inv.
    - assert (disconnecting (runs tr'' w)) as [Hd|Hd]; [|rewrite He in Hd; by apply not_elem_of_nil in Hd|done].
      apply runs_disconnecting; [done|]. apply runs_disconnecting; [done|]. left. destruct (runs tr init) as [c ts]. cbn.
      rewrite elem_of_app. right. by left. }
  split; [by apply (Hr [])|]. intros ok. split; [by apply settles_in|]. apply Hr; [|by apply settles_in].
  generalize (work w.2). intros n. by induction n.
Qed.
End Runs.

(** ** Witnesses *)

Local Open Scope nat_scope.

Module Demo.
Definition why (_ : nat) : Detail := AppState.verbatim "dial failed".
Definition go (tr : list label) : world := runs true why why why tr init.
(** The first goroutine, four times: announced, prepared, dialed, enforced. *)
Definition attempt_to (k : nat) : list label := LConnect :: replicate k (LThread 0 true).
Definition ice_down : Event := AppState.MkEvent AppState.EventICE "ice: disconnected".
End Demo.
Import Demo.

Example connects :
  let c := (go (attempt_to 5)).1 in
  state c = Protected /\ eng c = Some 1 /\ sess c = Some 1 /\ socks c = Some 1 /\ sessions c = [1] /\ published c = [Protected; Connecting].
Proof. vm_compute. repeat split. Qed.

Lemma disconnect_releases_witness :
  let w := runs true why why why [LEvent 1 ice_down; LThread 0 true] (exec true why why why (go (attempt_to 5)) LDisconnect) in
  published w.1 = [Disconnected; Blocked; Protected; Connecting] /\
  released (runs true why why why (replicate (work w.2) (LThread 0 true)) w).1.
Proof.
  intros w. split; [vm_compute; reflexivity|].
  exact (proj2 (proj2 (disconnect_releases true why why why (attempt_to 5) [LEvent 1 ice_down; LThread 0 true] eq_refl) true)).
Defined.

(** [DisconnectAndWait] returns while an attempt is about to enforce: the session is opened
    after it has, and is open until the attempt's goroutine gets to close it. *)
Example quit_leaves_a_session :
  let w := go (attempt_to 3 ++ [LDisconnect; LThread 1 true]) in
  w.2 = [Enforce 1] /\
  let w := exec true why why why w (LThread 0 true) in sessions w.1 = [1] /\ state w.1 = Disconnected.
Proof. vm_compute. repeat split. Qed.

(** A [Disconnect] before the attempt is installed cancels nothing of it: it prepares, and
    dials, all the same. *)
Example disconnect_cancels_nothing :
  let w := go (attempt_to 1 ++ [LDisconnect; LThread 1 true]) in
  w.2 = [Prepare 1] /\ (runs true why why why (replicate 2 (LThread 0 true)) w).2 = [Enforce 1].
Proof. vm_compute. repeat split. Qed.

(** Connecting again while a superseded attempt still listens fails, and leaves the user
    disconnected. *)
Example reconnecting_too_soon_fails :
  let w := go (attempt_to 3 ++ [LDisconnect; LThread 1 true; LConnect] ++ replicate 7 (LThread 1 true)) in
  w.2 = [Enforce 1] /\ state w.1 = Disconnected /\ details w.1 = [why 2].
Proof. vm_compute. repeat split. Qed.
