(* ===== verification/Engine.v ===== *)
(** * The node engine's life: [core/engine.go], [core/forwarder.go]

    What an engine holds — its coordinator links, its listeners, the sessions it serves
    or uses — and the goroutines that open, serve and close it: [Start], the loops it
    starts, the assignments that arrive, the listeners and sessions a connect adds while
    the engine runs, and [Stop], in any interleaving. One step per critical section and
    per call that opens or closes something. A call that waits is a step that cannot be
    taken yet. Listeners and transport sessions are named by a counter. *)

From S2P Require Import Prelude GoStrings.
From S2P Require Import Net.
Local Open Scope nat_scope.

(** ** The state *)

(** A tracked session: the transport session, whether the reaper may close it, and when
    bytes last moved on it. *)
Record trackedSession := MkTracked { sess : nat; reap : bool; last : Time }.

(** The engine's fields ([once] is [stopOnce], [stop] and [done] the closed channels,
    [links] whether there are links that are open), and, of the machine, the listeners and
    transport sessions that are open. *)
Record Engine := MkEngine {
  started : bool; once : bool; stop : bool; stopped : bool; done_ : bool;
  links : bool; listeners : list nat;
  sigs : gmap string nat; sessions : gmap string trackedSession;
  listening : list nat; open : list nat; next : nat;
}.
Definition newEngine : Engine := MkEngine false false false false false false [] ∅ ∅ [] [] 0.

Definition set_started (e : Engine) : Engine :=
  MkEngine true (once e) (stop e) (stopped e) (done_ e) (links e) (listeners e) (sigs e) (sessions e) (listening e) (open e) (next e).
Definition set_stop (e : Engine) : Engine :=
  MkEngine (started e) true true (stopped e) (done_ e) (links e) (listeners e) (sigs e) (sessions e) (listening e) (open e) (next e).
Definition set_done (e : Engine) : Engine :=
  MkEngine (started e) (once e) (stop e) (stopped e) true (links e) (listeners e) (sigs e) (sessions e) (listening e) (open e) (next e).
Definition set_links (b : bool) (e : Engine) : Engine :=
  MkEngine (started e) (once e) (stop e) (stopped e) (done_ e) b (listeners e) (sigs e) (sessions e) (listening e) (open e) (next e).
(** [e.stopped = true; e.listeners = nil] *)
Definition latch (e : Engine) : Engine :=
  MkEngine (started e) (once e) (stop e) true (done_ e) (links e) [] (sigs e) (sessions e) (listening e) (open e) (next e).
Definition set_sigs (s : gmap string nat) (e : Engine) : Engine :=
  MkEngine (started e) (once e) (stop e) (stopped e) (done_ e) (links e) (listeners e) s (sessions e) (listening e) (open e) (next e).
Definition set_sessions (s : gmap string trackedSession) (e : Engine) : Engine :=
  MkEngine (started e) (once e) (stop e) (stopped e) (done_ e) (links e) (listeners e) (sigs e) s (listening e) (open e) (next e).
Definition set_listening (l : list nat) (e : Engine) : Engine :=
  MkEngine (started e) (once e) (stop e) (stopped e) (done_ e) (links e) (listeners e) (sigs e) (sessions e) l (open e) (next e).
Definition set_open (l : list nat) (e : Engine) : Engine :=
  MkEngine (started e) (once e) (stop e) (stopped e) (done_ e) (links e) (listeners e) (sigs e) (sessions e) (listening e) l (next e).
Definition add_registered (l : nat) (e : Engine) : Engine :=
  MkEngine (started e) (once e) (stop e) (stopped e) (done_ e) (links e) (listeners e ++ [l]) (sigs e) (sessions e) (listening e) (open e) (next e).
Definition bump (e : Engine) : Engine :=
  MkEngine (started e) (once e) (stop e) (stopped e) (done_ e) (links e) (listeners e) (sigs e) (sessions e) (listening e) (open e) (S (next e)).

Definition without (xs l : list nat) : list nat := filter (fun x => x ∉ xs) l.
(** [net.Listen]; a transport session that comes up; closing them. *)
Definition listen (e : Engine) : nat * Engine := (next e, bump (set_listening (next e :: listening e) e)).
Definition dial (e : Engine) : nat * Engine := (next e, bump (set_open (next e :: open e) e)).
Definition close_listeners (ls : list nat) (e : Engine) : Engine := set_listening (without ls (listening e)) e.
Definition close_sessions (xs : list nat) (e : Engine) : Engine := set_open (without xs (open e)) e.

(** [addListener] *)
Definition addListener (l : nat) (e : Engine) : bool * Engine :=
  if stopped e then (false, close_listeners [l] e) else (true, add_registered l e).

(** ** The goroutines *)

(** [Start], up to its loops; [readLoop] of a link, idle or in [startFwdSession]; [Stop]. *)
Inductive startStage := SDial | SExit | SExitReg (l : nat) | SIngress | SIngressReg (l : nat) | SSpawn.
Inductive readStage := RIdle | RCheck (sid : string) | RSig (sid : string) | RAccept (sid : string) | RTrack (sid : string) (x : nat).
Inductive stopStage := PClose | PLinks | PLatch | PListeners (ls : list nat) | PSnapshot | PSessions (xs : list nat) | PWait | PFlush.

Inductive thread :=
| TStart (s : startStage)
| TBind | TRegister (l : nat)                  (* a connect that binds the SOCKS listener *)
| TAdded (l : nat)                             (* registered, [wg.Add] not called yet *)
| TServe (l : nat)                             (* an accept loop *)
| TRead (r : readStage)
| TLoop                                        (* a loop on a ticker: it ends when [stop] is closed *)
| TTrack (sid : string) (x : nat)              (* a connect whose session came up: [trackSession] *)
| TFollow (sid : string) (x : nat)             (* tracked, [wg.Add] not called yet *)
| TWatch (sid : string) (x : nat) | TUnsig (sid : string) | TDelete (sid : string)
| TStreams (x : nat)                           (* accepting the streams of a session *)
| TStop (s : stopStage) | TJoin.

(** What [wg] counts. *)
Definition tracked (t : thread) : bool :=
  match t with
  | TServe _ | TRead _ | TLoop | TWatch _ _ | TUnsig _ | TDelete _ | TStreams _ => true
  | _ => false
  end.

Section Engine.
(** Whether the node has the exit role, and whether it serves a relay ingress; how many
    coordinator links there are, and how many loops on a ticker. *)
Context (exit forward : bool) (members loops : nat).

(** One step of a goroutine, given the others: the engine after it and the goroutine's
    rest, or [None] while it has to wait. [ok] is the outcome of a call that can fail,
    [now] the clock. *)
Definition thread_step (ok : bool) (now : Time) (t : thread) (others : list thread) (e : Engine) : option (Engine * list thread) :=
  match t with
  | TStart SDial =>
      if started e then Some (e, [])
      else let e := set_started e in
           Some (if ok then (set_links true e, [TStart SExit]) else (e, []))
  | TStart SExit =>
      if negb exit then Some (e, [TStart SIngress])
      else Some (if ok then let '(l, e) := listen e in (e, [TStart (SExitReg l)]) else (set_links false e, []))
  | TStart (SExitReg l) =>
      let '(taken, e) := addListener l e in
      Some (if taken then (e, [TServe l; TStart SIngress]) else (set_links false e, []))
  | TStart SIngress =>
      if negb forward then Some (e, [TStart SSpawn])
      else Some (if ok then let '(l, e) := listen e in (e, [TStart (SIngressReg l)]) else (set_links false e, []))
  | TStart (SIngressReg l) =>
      let '(taken, e) := addListener l e in
      Some (if taken then (e, [TServe l; TStart SSpawn]) else (set_links false e, []))
  | TStart SSpawn => Some (e, replicate members (TRead RIdle) ++ replicate loops TLoop)
  | TBind => Some (if ok then let '(l, e) := listen e in (e, [TRegister l]) else (e, []))
  | TRegister l => let '(taken, e) := addListener l e in Some (e, if taken then [TAdded l] else [])
  | TAdded l => Some (e, [TServe l])
  | TServe l =>
      if bool_decide (l ∈ listening e) then None else Some (e, if stop e then [] else [TServe l])
  | TRead RIdle => if links e then None else Some (e, [])
  | TRead (RCheck sid) => Some (e, [TRead match sessions e !! sid with Some _ => RIdle | None => RSig sid end])
  | TRead (RSig sid) => Some (bump (set_sigs (<[sid := next e]> (sigs e)) e), [TRead (RAccept sid)])
  | TRead (RAccept sid) =>
      Some (if ok then let '(x, e) := dial e in (e, [TRead (RTrack sid x)])
            else (set_sigs (delete sid (sigs e)) e, [TRead RIdle]))
  | TRead (RTrack sid x) =>
      Some (set_sessions (<[sid := MkTracked x true now]> (sessions e)) e, [TRead RIdle; TWatch sid x; TStreams x])
  | TLoop => if stop e then Some (e, []) else None
  | TTrack sid x => Some (set_sessions (<[sid := MkTracked x false now]> (sessions e)) e, [TFollow sid x])
  | TFollow sid x => Some (e, [TWatch sid x])
  | TWatch sid x =>
      if bool_decide (x ∈ open e) && negb (stop e) then None else Some (close_sessions [x] e, [TUnsig sid])
  | TUnsig sid => Some (set_sigs (delete sid (sigs e)) e, [TDelete sid])
  | TDelete sid => Some (set_sessions (delete sid (sessions e)) e, [])
  | TStreams x => if bool_decide (x ∈ open e) then None else Some (e, [])
  | TStop PClose => Some (if once e then (e, [TJoin]) else (set_stop e, [TStop PLinks]))
  | TStop PLinks => Some (set_links false e, [TStop PLatch])
  | TStop PLatch => Some (latch e, [TStop (PListeners (listeners e))])
  | TStop (PListeners ls) => Some (close_listeners ls e, [TStop PSnapshot])
  | TStop PSnapshot => Some (e, [TStop (PSessions (sess <$> (map_to_list (sessions e)).*2))])
  | TStop (PSessions xs) => Some (close_sessions xs e, [TStop PWait])
  | TStop PWait => if existsb tracked others then None else Some (e, [TStop PFlush])
  | TStop PFlush => Some (set_done e, [])
  | TJoin => if done_ e then Some (e, []) else None
  end.

(** [ts.touch()]; [reapIdle]: the sessions it closes. *)
Definition touch (sid : string) (now : Time) (e : Engine) : Engine :=
  match sessions e !! sid with
  | Some ts => set_sessions (<[sid := MkTracked (sess ts) (reap ts) now]> (sessions e)) e
  | None => e
  end.
Definition idleTTL : Duration := (5 * Minute)%Z.
Definition idle (now : Time) (ts : trackedSession) : bool := reap ts && (last ts <? now - idleTTL)%Z.
Definition reapIdle (now : Time) (e : Engine) : Engine :=
  close_sessions (sess <$> filter (fun ts => idle now ts = true) (map_to_list (sessions e)).*2) e.

(** ** Runs *)

(** A call of [Start] or [Stop]; a connect that binds, or whose session came up; an
    assignment read from a link; a peer closing a session; bytes moving; the reaper's
    tick; a step of the goroutine at a place. *)
Inductive label :=
| LStart | LStop | LBind | LDial (sid : string) | LAssign (i : nat) (sid : string)
| LPeerCloses (x : nat) | LTouch (sid : string) (now : Time) | LReap (now : Time)
| LThread (i : nat) (ok : bool) (now : Time).
Definition world : Type := Engine * list thread.
Definition init : world := (newEngine, []).

Definition exec (w : world) (l : label) : world :=
  let '(e, ts) := w in
  match l with
  | LStart => (e, ts ++ [TStart SDial])
  | LStop => (e, ts ++ [TStop PClose])
  | LBind => (e, ts ++ [TBind])
  | LDial sid => let '(x, e) := dial e in (e, ts ++ [TTrack sid x])
  | LAssign i sid =>
      match ts !! i with
      | Some (TRead RIdle) => if links e then (e, <[i := TRead (RCheck sid)]> ts) else (e, ts)
      | _ => (e, ts)
      end
  | LPeerCloses x => (close_sessions [x] e, ts)
  | LTouch sid now => (touch sid now e, ts)
  | LReap now => (reapIdle now e, ts)
  | LThread i ok now =>
      match ts !! i with
      | Some t =>
          let others := take i ts ++ drop (S i) ts in
          match thread_step ok now t others e with
          | Some (e, new) => (e, take i ts ++ new ++ drop (S i) ts)
          | None => (e, ts)
          end
      | None => (e, ts)
      end
  end.
Definition runs (tr : list label) (w : world) : world := foldl exec w tr.
End Engine.

(** ** What the goroutines answer for *)

(** The listener a goroutine has opened and not registered; the one it serves or will; the
    listeners it is closing. *)
Definition reg (t : thread) : option nat :=
  match t with TRegister l | TStart (SExitReg l) | TStart (SIngressReg l) => Some l | _ => None end.
Definition serving (t : thread) : option nat :=
  match t with TRegister l | TStart (SExitReg l) | TStart (SIngressReg l) | TAdded l | TServe l => Some l | _ => None end.
Definition closing (t : thread) : list nat := match t with TStop (PListeners ls) => ls | _ => [] end.
(** The transport session it will close; the inbox and the entry of the table it will
    remove. *)
Definition owner (t : thread) : option nat :=
  match t with TRead (RTrack _ x) | TTrack _ x | TFollow _ x | TWatch _ x => Some x | _ => None end.
Definition sig_owner (t : thread) : option string :=
  match t with TRead (RAccept sid) | TRead (RTrack sid _) | TTrack sid _ | TFollow sid _ | TWatch sid _ | TUnsig sid => Some sid | _ => None end.
Definition entry_owner (t : thread) : option string :=
  match t with TFollow sid _ | TWatch sid _ | TUnsig sid | TDelete sid => Some sid | _ => None end.
(** Where the [Stop] that does the work is; a call of [Start]; a call of [Stop]. *)
Definition stage (t : thread) : option stopStage :=
  match t with TStop PClose => None | TStop s => Some s | _ => None end.
Definition starts (t : thread) : option startStage := match t with TStart s => Some s | _ => None end.
Definition stops (t : thread) : option stopStage := match t with TStop s => Some s | _ => None end.

Definition stage_ok (e : Engine) (s : stopStage) : Prop :=
  match s with
  | PClose | PLinks => True
  | PLatch => links e = false
  | _ => links e = false /\ stopped e = true
  end.

Record Inv (e : Engine) (ts : list thread) : Prop := {
  v_listening : forall l, l ∈ listening e -> l ∈ omap reg ts \/ l ∈ listeners e \/ l ∈ ts ≫= closing;
  v_stopped : stopped e = true -> listeners e = [] /\ stop e = true;
  v_stop : stop e = once e;
  v_done : done_ e = true -> once e = true /\ stopped e = true /\ links e = false;
  v_serving : stop e = false -> forall l, l ∈ omap serving ts -> l ∈ listening e;
  v_open : forall x, x ∈ open e -> x ∈ omap owner ts;
  v_sigs : forall sid, is_Some (sigs e !! sid) -> sid ∈ omap sig_owner ts;
  v_sessions : forall sid, is_Some (sessions e !! sid) -> sid ∈ omap entry_owner ts;
  v_stage : if once e && negb (done_ e) then exists s, omap stage ts = [s] /\ stage_ok e s else omap stage ts = [];
  v_start : omap starts ts = [] \/ once e = false /\ omap stops ts = [];
}.

Lemma omap_singleton_perm {A B} (f : A -> option B) l k x : l ≡ₚ k -> omap f l = [x] -> omap f k = [x].
Proof. intros Hp Hl. assert (omap f l ≡ₚ omap f k) as Hk by by rewrite Hp. rewrite Hl in Hk. by apply Permutation_singleton_l in Hk. Qed.
Lemma omap_nil_perm {A B} (f : A -> option B) l k : l ≡ₚ k -> omap f l = [] -> omap f k = [].
Proof. intros Hp Hl. assert (omap f l ≡ₚ omap f k) as Hk by by rewrite Hp. rewrite Hl in Hk. by apply Permutation_nil_l in Hk. Qed.

Lemma Inv_reorder_threads e ts ts' : ts ≡ₚ ts' -> Inv e ts -> Inv e ts'.
Proof.
  intros Hp []. split; try done; try (by setoid_rewrite <-Hp).
  - destruct (once e && negb (done_ e)); [|by eapply omap_nil_perm]. destruct v_stage0 as (s & Hs & Hok). exists s.
    split; [by eapply omap_singleton_perm|done].
  - destruct v_start0 as [Hn|[Ho Hn]]; [left|right; split; [done|]]; by eapply omap_nil_perm.
Qed.

Lemma without_spec xs l x : x ∈ without xs l <-> x ∈ l /\ x ∉ xs.
Proof. unfold without. rewrite list_elem_of_filter. tauto. Qed.

(** A listener, a session, an inbox or an entry that went away needs no one to answer for
    it; with the engine otherwise as it was, the same goroutines will do. *)
Lemma Inv_fewer e e' ts :
  once e' = once e -> stop e' = stop e -> stopped e' = stopped e -> done_ e' = done_ e -> links e' = links e -> listeners e' = listeners e ->
  (forall l, l ∈ listening e' -> l ∈ listening e) -> (stop e = false -> listening e' = listening e) ->
  (forall x, x ∈ open e' -> x ∈ open e) ->
  (forall sid, is_Some (sigs e' !! sid) -> is_Some (sigs e !! sid)) ->
  (forall sid, is_Some (sessions e' !! sid) -> is_Some (sessions e !! sid)) ->
  Inv e ts -> Inv e' ts.
Proof.
  intros Ho Hs Hst Hd Hl Hls Hg Hg' Hop Hsi Hse []. split; rewrite ?Ho, ?Hs, ?Hst, ?Hd, ?Hl, ?Hls; auto.
  - intros Hf l Hin. rewrite Hg' by done. auto.
  - destruct (once e && negb (done_ e)); [|done]. destruct v_stage0 as (s & Hss & Hok). exists s. split; [done|].
    unfold stage_ok. by rewrite Hl, Hst.
Qed.

(** A goroutine that goes on answering for as much. *)
Lemma Inv_goes e t new rest :
  (forall l, reg t = Some l -> l ∈ omap reg new) ->
  (forall l, l ∈ omap serving new -> serving t = Some l) ->
  closing t = [] ->
  (forall x, owner t = Some x -> x ∈ omap owner new) ->
  (forall sid, sig_owner t = Some sid -> sid ∈ omap sig_owner new) ->
  (forall sid, entry_owner t = Some sid -> sid ∈ omap entry_owner new) ->
  stage t = None -> omap stage new = [] ->
  (starts t = None -> omap starts new = []) -> (stops t = None -> omap stops new = []) ->
  Inv e (t :: rest) -> Inv e (new ++ rest).
Proof.
  intros Hr Hse Hc Ho Hsi Hen Hst Hst' Hss Hsp [].
  assert (forall {A} (f : thread -> option A) x, x ∈ omap f (t :: rest) -> (forall y, f t = Some y -> y ∈ omap f new) -> x ∈ omap f (new ++ rest)) as Hin.
  { intros A f x Hx Hf. rewrite omap_app, elem_of_app. cbn in Hx. destruct (f t) as [y|] eqn:Hy; [|by right].
    apply elem_of_cons in Hx as [->|?]; [left; by apply Hf|by right]. }
  split; try done.
  - intros l Hl. destruct (v_listening0 l Hl) as [H|[H|H]]; [left; by eapply Hin|right; by left|right; right].
    cbn in H. rewrite Hc in H. cbn in H. rewrite bind_app, elem_of_app. by right.
  - intros Hf l Hl. apply v_serving0; [done|]. rewrite omap_app, elem_of_app in Hl. cbn.
    destruct Hl as [Hl%Hse|Hl]; [rewrite Hl; by left|]. destruct (serving t); [by right|done].
  - intros x Hx. eapply Hin; auto.
  - intros x Hx. eapply Hin; auto.
  - intros x Hx. eapply Hin; auto.
  - cbn in v_stage0. rewrite omap_app, Hst'. by rewrite Hst in v_stage0.
  - rewrite !omap_app. destruct v_start0 as [Hx|[Hn Hx]]; cbn in Hx.
    + left. destruct (starts t); [done|]. by rewrite Hss, Hx.
    + right. split; [done|]. destruct (stops t); [done|]. by rewrite Hsp, Hx.
Qed.

Section Steps.
Context (exit forward : bool) (members loops : nat).
Local Abbreviation thread_step := (thread_step exit forward members loops).
Local Abbreviation exec := (exec exit forward members loops).
Local Abbreviation runs := (runs exit forward members loops).

(** [net.Listen], by a goroutine that goes on to register the listener. *)
Lemma Inv_listens e t t' rest :
  reg t = None -> serving t = None -> closing t = [] -> owner t = None -> sig_owner t = None -> entry_owner t = None -> stage t = None -> stops t = None ->
  (forall l, reg (t' l) = Some l /\ serving (t' l) = Some l /\ closing (t' l) = [] /\ stage (t' l) = None /\ stops (t' l) = None) ->
  (starts t = None -> forall l, starts (t' l) = None) ->
  Inv e (t :: rest) -> let '(l, e') := listen e in Inv e' (t' l :: rest).
Proof.
  intros H1 H2 H3 H4 H5 H6 H7 H8 Ht' Hss []. cbn [listen].
  destruct (Ht' (next e)) as (K1 & K2 & K3 & K4 & K5). specialize (Hss).
  split; cbn [bump set_listening started once stop stopped done_ links listeners sigs sessions listening open next] in *; 
    cbn [omap list_omap mbind list_bind] in *; rewrite ?H1, ?H2, ?H3, ?H4, ?H5, ?H6, ?H7, ?H8, ?K1, ?K2, ?K3, ?K4, ?K5 in *; cbn [app] in *; try done.
  - intros l [->|Hl]%elem_of_cons; [left; by left|]. destruct (v_listening0 l Hl) as [?|[?|?]]; [left; by right|right; by left|right; by right].
  - intros Hf l [->|Hl]%elem_of_cons; [by left|right; auto].
  - intros x Hx. destruct (owner (t' (next e))); [right|]; auto.
  - intros x Hx. destruct (sig_owner (t' (next e))); [right|]; auto.
  - intros x Hx. destruct (entry_owner (t' (next e))); [right|]; auto.
  - destruct (starts t) as [st|]; [destruct v_start0 as [?|?]; [done|by right]|]. rewrite Hss by done. by destruct v_start0; [left|right].
Qed.

(** [addListener], by the goroutine that opened it. *)
Lemma Inv_adds e t l new rest :
  reg t = Some l -> closing t = [] -> owner t = None -> sig_owner t = None -> entry_owner t = None -> stage t = None -> stops t = None ->
  (forall x, x ∈ omap serving new -> x = l) -> omap stage new = [] -> omap stops new = [] -> (starts t = None -> omap starts new = []) ->
  stopped e = false -> Inv e (t :: rest) -> Inv (add_registered l e) (new ++ rest).
Proof.
  intros H1 H3 H4 H5 H6 H7 H8 Hse Hst Hsp Hss Hs [].
  assert (serving t = Some l) as H2 by (destruct t as [[]| | | | | | | | | | | | | |]; by simplify_eq/=).
  split; cbn [add_registered started once stop stopped done_ links listeners sigs sessions listening open next] in *; rewrite ?omap_app, ?bind_app;
    cbn [omap list_omap mbind list_bind] in *; rewrite ?H1, ?H2, ?H3, ?H4, ?H5, ?H6, ?H7, ?H8, ?Hst, ?Hsp in *; cbn [app] in *; try done.
  - intros x Hx. destruct (v_listening0 x Hx) as [[->|?]%elem_of_cons|[?|?]]; rewrite !elem_of_app; [right; left; right; by left|auto..].
  - congruence.
  - intros Hf x Hx. apply v_serving0; [done|]. apply elem_of_app in Hx as [->%Hse|?]; [by left|by right].
  - intros x Hx. rewrite elem_of_app. auto.
  - intros x Hx. rewrite elem_of_app. auto.
  - intros x Hx. rewrite elem_of_app. auto.
  - destruct (starts t) as [st|]; [destruct v_start0 as [?|?]; [done|by right]|]. rewrite Hss by done. done.
Qed.

Lemma Inv_refuses e l rest :
  stopped e = true -> Inv e (TRegister l :: rest) -> Inv (close_listeners [l] e) rest.
Proof.
  intros Hs []. pose proof (proj2 (v_stopped0 Hs)) as Hst.
  split; cbn [close_listeners set_listening started once stop stopped done_ links listeners sigs sessions listening open next] in *; try done.
  - intros x [Hx Hn]%without_spec. destruct (v_listening0 x Hx) as [[->|?]%elem_of_cons|[?|?]]; [|by left|by right; left|by right; right].
    destruct Hn. by left.
  - congruence.
Qed.

Lemma Inv_links_down e ts : Inv e ts -> Inv (set_links false e) ts.
Proof.
  intros []. split; cbn [set_links started once stop stopped done_ links listeners sigs sessions listening open next]; try done.
  - intros Hd. by destruct (v_done0 Hd) as (? & ? & _).
  - destruct (once e && negb (done_ e)); [|done]. destruct v_stage0 as (s & Hs & Hok). exists s. split; [done|].
    unfold stage_ok in *. cbn. destruct s; naive_solver.
Qed.

Lemma Inv_starting e s rest : Inv e (TStart s :: rest) -> once e = false /\ stop e = false /\ stopped e = false /\ done_ e = false.
Proof.
  intros []. destruct v_start0 as [?|[Ho _]]; [done|]. rewrite Ho in *. split_and!; [done|done|..].
  - destruct (stopped e); [|done]. destruct (v_stopped0 eq_refl). congruence.
  - destruct (done_ e); [|done]. destruct (v_done0 eq_refl). done.
Qed.

Lemma Inv_dials_links e rest : Inv e (TStart SDial :: rest) -> Inv (set_links true (set_started e)) (TStart SExit :: rest).
Proof.
  intros HI. destruct (Inv_starting _ _ _ HI) as (Ho & Hs & Hst & Hd). destruct HI.
  split; cbn [set_links set_started started once stop stopped done_ links listeners sigs sessions listening open next] in *;
    cbn [omap list_omap mbind list_bind reg serving closing owner sig_owner entry_owner stage starts stops] in *; try done.
  - intros Hx. congruence.
  - rewrite Ho, Hd in *. done.
  - right. split; [done|]. by destruct v_start0 as [?|[_ ?]].
Qed.

Lemma Inv_started e ts : Inv e ts -> Inv (set_started e) ts.
Proof. by intros []. Qed.

(** A transport session comes up, for a goroutine that will close it. *)
Lemma Inv_opens e t t' rest :
  owner t = None -> (forall x, owner (t' x) = Some x /\ reg (t' x) = reg t /\ serving (t' x) = serving t /\ closing (t' x) = closing t /\
    sig_owner (t' x) = sig_owner t /\ entry_owner (t' x) = entry_owner t /\ stage (t' x) = stage t /\ starts (t' x) = starts t /\ stops (t' x) = stops t) ->
  Inv e (t :: rest) -> let '(x, e') := dial e in Inv e' (t' x :: rest).
Proof.
  intros Ho Ht' []. cbn [dial]. destruct (Ht' (next e)) as (K1 & K2 & K3 & K4 & K5 & K6 & K7 & K8 & K9).
  split; cbn [bump set_open started once stop stopped done_ links listeners sigs sessions listening open next] in *; 
    cbn [omap list_omap mbind list_bind] in *; rewrite ?Ho, ?K1, ?K2, ?K3, ?K4, ?K5, ?K6, ?K7, ?K8, ?K9 in *; cbn [app] in *; try done.
  intros x [->|Hx]%elem_of_cons; [by left|right; auto].
Qed.

Lemma Inv_opens' e t sid rest :
  t = TBind -> Inv e (t :: rest) -> let '(x, e') := dial e in Inv e' (TTrack sid x :: rest).
Proof.
  intros -> []. cbn [dial].
  split; cbn [bump set_open started once stop stopped done_ links listeners sigs sessions listening open next] in *;
    cbn [omap list_omap mbind list_bind reg serving closing owner sig_owner entry_owner stage starts stops app] in *; try done.
  - intros x [->|Hx]%elem_of_cons; [by left|right; auto].
  - intros x Hx. right. auto.
Qed.

(** An inbox, or an entry of the table, for a goroutine that will remove it. *)
Lemma Inv_signals e sid t t' rest :
  sig_owner t' = Some sid -> sig_owner t = None ->
  reg t' = reg t -> serving t' = serving t -> closing t' = closing t -> owner t' = owner t -> entry_owner t' = entry_owner t -> stage t' = stage t ->
  starts t' = starts t -> stops t' = stops t ->
  Inv e (t :: rest) -> Inv (bump (set_sigs (<[sid := next e]> (sigs e)) e)) (t' :: rest).
Proof.
  intros K1 K2 K3 K4 K5 K6 K7 K8 K9 K10 [].
  split; cbn [bump set_sigs started once stop stopped done_ links listeners sigs sessions listening open next] in *; 
    cbn [omap list_omap mbind list_bind] in *; rewrite ?K1, ?K2, ?K3, ?K4, ?K5, ?K6, ?K7, ?K8, ?K9, ?K10 in *; cbn [app] in *; try done.
  intros x [<-|[_ Hx]]%lookup_insert_is_Some; [by left|right; auto].
Qed.

Lemma Inv_tracks e sid ts_ t new rest :
  sid ∈ omap entry_owner new -> entry_owner t = None ->
  reg t = None -> closing t = [] -> serving t = None -> omap serving new = [] -> (forall x, owner t = Some x -> x ∈ omap owner new) ->
  (forall x, sig_owner t = Some x -> x ∈ omap sig_owner new) -> stage t = None -> omap stage new = [] -> omap starts new = [] -> omap stops new = [] ->
  Inv e (t :: rest) -> Inv (set_sessions (<[sid := ts_]> (sessions e)) e) (new ++ rest).
Proof.
  intros K1 K2 K3 K4 K5 K6 K7 K8 K9 K10 K11 K12 [].
  split; cbn [set_sessions started once stop stopped done_ links listeners sigs sessions listening open next] in *; rewrite ?omap_app, ?bind_app;
    cbn [omap list_omap mbind list_bind] in *; rewrite ?K2, ?K3, ?K4, ?K5, ?K9, ?K6, ?K10, ?K11, ?K12 in *; cbn [app] in *; try done.
  - intros l Hl. destruct (v_listening0 l Hl) as [?|[?|?]]; rewrite !elem_of_app; auto.
  - intros x Hx. rewrite elem_of_app. apply v_open0 in Hx. destruct (owner t) as [y|]; [|by right].
    apply elem_of_cons in Hx as [->|?]; [left; by apply K7|by right].
  - intros x Hx. rewrite elem_of_app. apply v_sigs0 in Hx. destruct (sig_owner t) as [y|]; [|by right].
    apply elem_of_cons in Hx as [->|?]; [left; by apply K8|by right].
  - intros x [<-|[_ Hx]]%lookup_insert_is_Some; rewrite elem_of_app; [by left|right; auto].
  - destruct (starts t), (stops t); destruct v_start0 as [?|[? ?]]; try done; try (by left); by right.
Qed.

Lemma Inv_unsigns e sid t t' rest :
  sig_owner t = Some sid -> sig_owner t' = None ->
  reg t' = reg t -> serving t' = serving t -> closing t' = closing t -> owner t' = owner t -> entry_owner t' = entry_owner t -> stage t' = stage t ->
  starts t' = starts t -> stops t' = stops t ->
  Inv e (t :: rest) -> Inv (set_sigs (delete sid (sigs e)) e) (t' :: rest).
Proof.
  intros K1 K2 K3 K4 K5 K6 K7 K8 K9 K10 [].
  split; cbn [set_sigs started once stop stopped done_ links listeners sigs sessions listening open next] in *; 
    cbn [omap list_omap mbind list_bind] in *; rewrite ?K1, ?K2, ?K3, ?K4, ?K5, ?K6, ?K7, ?K8, ?K9, ?K10 in *; cbn [app] in *; try done.
  intros x Hx. apply lookup_delete_is_Some in Hx as [Hne Hx]. by apply v_sigs0, elem_of_cons in Hx as [->|?].
Qed.

Lemma Inv_deletes e sid rest : Inv e (TDelete sid :: rest) -> Inv (set_sessions (delete sid (sessions e)) e) rest.
Proof.
  intros []. split; cbn [set_sessions started once stop stopped done_ links listeners sigs sessions listening open next] in *;
    cbn [omap list_omap mbind list_bind reg serving closing owner sig_owner entry_owner stage starts stops app] in *; try done.
  intros x Hx. apply lookup_delete_is_Some in Hx as [Hne Hx]. by apply v_sessions0, elem_of_cons in Hx as [->|?].
Qed.

Lemma Inv_shuts e sid x rest : Inv e (TWatch sid x :: rest) -> Inv (close_sessions [x] e) (TUnsig sid :: rest).
Proof.
  intros []. split; cbn [close_sessions set_open started once stop stopped done_ links listeners sigs sessions listening open next] in *;
    cbn [omap list_omap mbind list_bind reg serving closing owner sig_owner entry_owner stage starts stops app] in *; try done.
  intros y [Hy Hne]%without_spec. apply v_open0, elem_of_cons in Hy as [->|?]; [|done]. destruct Hne. by left.
Qed.

Lemma omap_idle {A} (f : thread -> option A) n t : f t = None -> omap f (replicate n t) = [].
Proof. intros Hf. induction n as [|n IH]; [done|]. cbn. by rewrite Hf. Qed.

(** [Stop], at work. *)
Lemma Inv_stopping e s rest :
  s <> PClose -> Inv e (TStop s :: rest) ->
  once e = true /\ done_ e = false /\ stop e = true /\ omap stage rest = [] /\ stage_ok e s /\ omap starts rest = [].
Proof.
  intros Hs []. assert (stage (TStop s) = Some s) as Hst by (by destruct s). cbn [omap list_omap] in *. rewrite Hst in *.
  destruct (once e) eqn:Ho, (done_ e) eqn:Hd; try done. destruct v_stage0 as (s' & [= -> Hr] & Hok).
  split_and!; try done. by destruct v_start0 as [?|[? _]].
Qed.

Lemma Inv_stage e e' s new rest :
  s <> PClose -> Inv e (TStop s :: rest) ->
  once e' = once e -> stop e' = stop e -> sigs e' = sigs e -> sessions e' = sessions e ->
  (stopped e' = true -> listeners e' = []) -> (forall x, x ∈ open e' -> x ∈ open e) ->
  (forall l, l ∈ listening e' -> l ∈ listening e) ->
  (forall l, l ∈ listening e' -> l ∈ listeners e \/ l ∈ closing (TStop s) -> l ∈ listeners e' \/ l ∈ new ≫= closing) ->
  omap reg new = [] -> omap starts new = [] ->
  (if negb (done_ e') then exists s', omap stage new = [s'] /\ stage_ok e' s' else omap stage new = [] /\ stopped e' = true /\ links e' = false) ->
  Inv e' (new ++ rest).
Proof.
  intros Hne HI Ho Hs Hsi Hse Hst Hop Hl Hcl Hr Hss Hstg. destruct (Inv_stopping _ _ _ Hne HI) as (Ho' & Hd' & Hs' & Hrs & _ & Hrst). destruct HI.
  assert (reg (TStop s) = None /\ owner (TStop s) = None /\ sig_owner (TStop s) = None /\ entry_owner (TStop s) = None) as (E1 & E2 & E3 & E4) by done.
  cbn [omap list_omap mbind list_bind] in *. rewrite E1 in *. rewrite E2 in *. rewrite E3 in *. rewrite E4 in *.
  split; rewrite ?omap_app, ?bind_app, ?Ho, ?Hs, ?Hr, ?Hss, ?Hrs, ?Hsi, ?Hse; cbn [app].
  - intros l Hin. destruct (v_listening0 l (Hl l Hin)) as [?|[H|H]]; [by left|..].
    + destruct (Hcl l Hin (or_introl H)); [right; by left|]. right; right. rewrite elem_of_app. by left.
    + apply elem_of_app in H as [H|H]; [|right; right; rewrite elem_of_app; by right].
      destruct (Hcl l Hin (or_intror H)); [right; by left|]. right; right. rewrite elem_of_app. by left.
  - intros Hx. split; [by apply Hst|done].
  - done.
  - intros Hd. rewrite Hd in Hstg. cbn in Hstg. naive_solver.
  - congruence.
  - intros x Hx%Hop%v_open0. rewrite elem_of_app. by right.
  - intros x Hx%v_sigs0. rewrite elem_of_app. by right.
  - intros x Hx%v_sessions0. rewrite elem_of_app. by right.
  - rewrite Ho'. cbn [andb]. destruct (negb (done_ e')); [|by rewrite (proj1 Hstg)]. destruct Hstg as (s' & -> & Hok). by exists s'.
  - left. done.
Qed.

Lemma Inv_stops e rest : once e = false -> Inv e (TStop PClose :: rest) -> Inv (set_stop e) (TStop PLinks :: rest).
Proof.
  intros Ho []. destruct (done_ e) eqn:Hd; [by destruct (v_done0 eq_refl); congruence|].
  split; cbn [set_stop started once stop stopped done_ links listeners sigs sessions listening open next] in *;
    cbn [omap list_omap mbind list_bind reg serving closing owner sig_owner entry_owner stage starts stops] in *; try done.
  - intros Hs. destruct (v_stopped0 Hs). done.
  - rewrite Hd. done.
  - rewrite Hd. cbn. rewrite Ho in v_stage0. cbn in v_stage0. rewrite v_stage0. by exists PLinks.
  - left. by destruct v_start0 as [?|[_ ?]].
Qed.

Ltac at_stage HI s :=
  destruct (Inv_stopping _ s _ ltac:(discriminate) HI) as (_ & Hd & _ & _ & Hok & _); pose proof (v_stopped _ _ HI) as Hv; cbn [stage_ok] in Hok;
  eapply (Inv_stage _ _ s); [discriminate|exact HI|reflexivity..| | | | |reflexivity|reflexivity|]; cbn [app];
  [first [reflexivity | intros Hx; exact (proj1 (Hv Hx))]
  |intros ? Hx; first [exact Hx | by apply without_spec in Hx as [? _]]
  |intros ? Hx; first [exact Hx | by apply without_spec in Hx as [? _]]
  |intros ? Hin [Hx|Hx]; cbn in Hx |- *; rewrite ?app_nil_r; first [by left | by right | by apply not_elem_of_nil in Hx | by apply without_spec in Hin as [_ ?]]
  |cbn [set_links latch close_listeners close_sessions set_done set_listening set_open done_]; rewrite ?Hd; cbn [negb];
   first [eexists; split; [reflexivity|]; cbn [stage_ok]; cbn; tauto | cbn; tauto]].
Ltac going HI :=
  eapply Inv_goes; [..|exact HI]; cbn [omap list_omap reg serving closing owner sig_owner entry_owner stage starts stops app];
  try done; intros; simplify_eq; set_solver.

Lemma thread_keeps_Inv ok now t rest e e' new :
  thread_step ok now t rest e = Some (e', new) -> Inv e (t :: rest) -> Inv e' (new ++ rest).
Proof.
  intros Hstep HI. destruct t as [[]| |l|l|l|[| | | |]| |sid x|sid x|sid x|sid|sid|x|[| | |ls| |xs| |]|]; cbn [Engine.thread_step] in Hstep.
  - destruct (started e); [injection Hstep as <- <-; going HI|].
    destruct ok; injection Hstep as <- <-; [by apply Inv_dials_links|]. apply Inv_started. going HI.
  - destruct exit; [|injection Hstep as <- <-; going HI]. destruct ok; injection Hstep as <- <-.
    + refine (Inv_listens e _ (fun l => TStart (SExitReg l)) rest _ _ _ _ _ _ _ _ _ _ HI); done.
    + apply Inv_links_down. going HI.
  - destruct (Inv_starting _ _ _ HI) as (_ & _ & Hs & _). unfold addListener in Hstep. rewrite Hs in Hstep. injection Hstep as <- <-.
    eapply (Inv_adds _ _ _ [_; _]); [..|exact HI]; cbn; try done; set_solver.
  - destruct forward; [|injection Hstep as <- <-; going HI]. destruct ok; injection Hstep as <- <-.
    + refine (Inv_listens e _ (fun l => TStart (SIngressReg l)) rest _ _ _ _ _ _ _ _ _ _ HI); done.
    + apply Inv_links_down. going HI.
  - destruct (Inv_starting _ _ _ HI) as (_ & _ & Hs & _). unfold addListener in Hstep. rewrite Hs in Hstep. injection Hstep as <- <-.
    eapply (Inv_adds _ _ _ [_; _]); [..|exact HI]; cbn; try done; set_solver.
  - injection Hstep as <- <-. eapply Inv_goes; [..|exact HI]; intros; rewrite ?omap_app, ?omap_idle in * by done; done || set_solver.
  - destruct ok; injection Hstep as <- <-; [|going HI]. refine (Inv_listens e _ TRegister rest _ _ _ _ _ _ _ _ _ _ HI); done.
  - unfold addListener in Hstep. destruct (stopped e) eqn:Hs; injection Hstep as <- <-.
    + by apply Inv_refuses.
    + eapply (Inv_adds _ _ _ [_]); [..|exact HI]; cbn; try done; set_solver.
  - injection Hstep as <- <-. going HI.
  - destruct (bool_decide _); [done|]. injection Hstep as <- <-. destruct (stop e); going HI.
  - destruct (links e); [done|]. injection Hstep as <- <-. going HI.
  - injection Hstep as <- <-. destruct (sessions e !! sid); going HI.
  - injection Hstep as <- <-. by eapply Inv_signals; [..|exact HI].
  - destruct ok; injection Hstep as <- <-; [refine (Inv_opens e _ (fun x => TRead (RTrack sid x)) rest _ _ HI); done|].
    by eapply Inv_unsigns; [..|exact HI].
  - injection Hstep as <- <-. eapply (Inv_tracks _ _ _ _ [_; _; _]); [..|exact HI]; cbn; try done; intros; simplify_eq; set_solver.
  - destruct (stop e); [|done]. injection Hstep as <- <-. going HI.
  - injection Hstep as <- <-. eapply (Inv_tracks _ _ _ _ [_]); [..|exact HI]; cbn; try done; intros; simplify_eq; set_solver.
  - injection Hstep as <- <-. going HI.
  - destruct (bool_decide _ && _); [done|]. injection Hstep as <- <-. by apply Inv_shuts.
  - injection Hstep as <- <-. by eapply Inv_unsigns; [..|exact HI].
  - injection Hstep as <- <-. by apply Inv_deletes.
  - destruct (bool_decide _); [done|]. injection Hstep as <- <-. going HI.
  - destruct (once e) eqn:Ho; injection Hstep as <- <-; [going HI|by apply Inv_stops].
  - injection Hstep as <- <-. at_stage HI PLinks.
  - injection Hstep as <- <-. at_stage HI PLatch.
  - injection Hstep as <- <-. at_stage HI (PListeners ls).
  - injection Hstep as <- <-. at_stage HI PSnapshot.
  - injection Hstep as <- <-. at_stage HI (PSessions xs).
  - destruct (existsb tracked rest); [done|]. injection Hstep as <- <-. at_stage HI PWait.
  - injection Hstep as <- <-. at_stage HI PFlush.
  - destruct (done_ e); [|done]. injection Hstep as <- <-. going HI.
Qed.

(** A goroutine that begins, answering for nothing but, it may be, a session that came up. *)
Lemma Inv_begins e t ts :
  reg t = None -> serving t = None -> closing t = [] -> stage t = None ->
  (starts t = None \/ once e = false /\ omap stops ts = [] /\ stops t = None) -> (stops t = None \/ omap starts ts = [] /\ starts t = None) ->
  Inv e ts -> Inv e (t :: ts).
Proof.
  intros H1 H2 H3 H4 H5 H6 [].
  assert (forall {A} (f : thread -> option A) x, x ∈ omap f ts -> x ∈ omap f (t :: ts)) as Hin.
  { intros A f x Hx. cbn. destruct (f t); [by right|done]. }
  split; cbn [mbind list_bind] in *; rewrite ?H3; auto.
  - intros l Hl. destruct (v_listening0 l Hl) as [?|[?|?]]; [left; auto|right; by left|right; by right].
  - intros Hf l. cbn. rewrite H2. auto.
  - cbn. by rewrite H4.
  - cbn. destruct (starts t), (stops t); naive_solver.
Qed.

Lemma split_at (ts : list thread) i t : ts !! i = Some t -> ts ≡ₚ t :: take i ts ++ drop (S i) ts.
Proof. intros Ht. rewrite <-(take_drop_middle ts i t) at 1 by done. by rewrite Permutation_middle. Qed.

(** [Start] is not called once [Stop] has been, nor [Stop] before [Start] has returned. *)
Definition in_order (l : label) (w : world) : bool :=
  match l with
  | LStart => negb (once w.1) && match omap stops w.2 with [] => true | _ => false end
  | LStop => match omap starts w.2 with [] => true | _ => false end
  | _ => true
  end.
Fixpoint orderly (tr : list label) (w : world) : bool :=
  match tr with [] => true | l :: tr => in_order l w && orderly tr (exec w l) end.

Lemma exec_keeps_Inv w l : in_order l w = true -> Inv w.1 w.2 -> Inv (exec w l).1 (exec w l).2.
Proof.
  destruct w as [e ts]. cbn [fst snd]. intros Hord HI. destruct l as [| | |sid|i sid|x|sid now|now|i ok now]; cbn [Engine.exec in_order fst snd] in *.
  - apply andb_true_iff in Hord as [Ho%negb_true_iff Hn]. apply (Inv_reorder_threads _ (TStart SDial :: ts)); [by rewrite Permutation_app_comm|].
    apply Inv_begins; try done; [right|by left]. by destruct (omap stops ts).
  - apply (Inv_reorder_threads _ (TStop PClose :: ts)); [by rewrite Permutation_app_comm|].
    apply Inv_begins; try done; [by left|right]. by destruct (omap starts ts).
  - apply (Inv_reorder_threads _ (TBind :: ts)); [by rewrite Permutation_app_comm|]. apply Inv_begins; try done; by left.
  - destruct (dial e) as [x e'] eqn:Hd. cbn [fst snd]. apply (Inv_reorder_threads _ (TTrack sid x :: ts)); [by rewrite Permutation_app_comm|].
    apply (Inv_begins _ TBind) in HI; [|done|done|done|done|by left|by left].
    pose proof (Inv_opens' e TBind sid ts eq_refl HI) as Hop. by rewrite Hd in Hop.
  - destruct (ts !! i) as [t|] eqn:Ht; [|done]. destruct t as [| | | | |[]| | | | | | | | |]; try done.
    destruct (links e); [|done]. cbn [fst snd]. pose proof (split_at _ _ _ Ht) as Hp.
    apply (Inv_reorder_threads _ _ _ Hp) in HI.
    apply (Inv_reorder_threads _ ([TRead (RCheck sid)] ++ take i ts ++ drop (S i) ts)).
    + rewrite insert_take_drop by by eapply lookup_lt_Some. cbn. by rewrite Permutation_middle.
    + going HI.
  - eapply Inv_fewer; [..|exact HI]; try done; cbn; intros y Hy; by apply without_spec in Hy as [? _].
  - unfold touch. destruct (sessions e !! sid) eqn:Hs; [|done]. eapply Inv_fewer; [..|exact HI]; try done; cbn.
    intros y [<-|[_ ?]]%lookup_insert_is_Some; [by rewrite Hs|done].
  - eapply Inv_fewer; [..|exact HI]; try done; cbn; intros y Hy; by apply without_spec in Hy as [? _].
  - destruct (ts !! i) as [t|] eqn:Ht; [|done]. pose proof (split_at _ _ _ Ht) as Hp. apply (Inv_reorder_threads _ _ _ Hp) in HI.
    destruct (thread_step ok now t _ e) as [[e' new]|] eqn:Hst; [|by eapply Inv_reorder_threads].
    cbn [fst snd]. eapply Inv_reorder_threads; [|by eapply thread_keeps_Inv]. by rewrite !(assoc_L (++)), (Permutation_app_comm new).
Qed.

Lemma runs_keep_Inv tr w : orderly tr w = true -> Inv w.1 w.2 -> Inv (runs tr w).1 (runs tr w).2.
Proof.
  revert w. induction tr as [|l tr IH]; intros w Ho HI; [done|]. cbn in Ho. apply andb_true_iff in Ho as [Hl Ho].
  apply IH; [done|]. by apply exec_keeps_Inv.
Qed.

Lemma init_has_Inv : Inv init.1 init.2.
Proof.
  split; cbn; try done; try by intros ? ?%not_elem_of_nil. all: try (intros sid; rewrite lookup_empty; by intros [? [=]]). by left.
Qed.

(** ** Stopping ends *)

(** What a goroutine waits for. *)
Definition blocked (t : thread) (others : list thread) (e : Engine) : bool :=
  match t with
  | TServe l => bool_decide (l ∈ listening e)
  | TRead RIdle => links e
  | TLoop => negb (stop e)
  | TWatch _ x => bool_decide (x ∈ open e) && negb (stop e)
  | TStreams x => bool_decide (x ∈ open e)
  | TStop PWait => existsb tracked others
  | TJoin => negb (done_ e)
  | _ => false
  end.

Lemma thread_step_blocked ok now t others e : blocked t others e = false -> is_Some (thread_step ok now t others e).
Proof.
  destruct t as [[]| | | | |[]| | | | | | | |[]|]; cbn; intros Hb; unfold listen, addListener, dial;
    repeat (rewrite Hb || case_match); try done; try (eexists; reflexivity); by rewrite ?negb_false_iff in *; simplify_eq.
Qed.

(** How many steps a goroutine, and what it leaves, can take at most. *)
Definition work_of (t : thread) : nat :=
  match t with
  | TStart s => members + loops + match s with SDial => 9 | SExit => 8 | SExitReg _ => 7 | SIngress => 5 | SIngressReg _ => 4 | SSpawn => 1 end
  | TBind => 4 | TRegister _ => 3 | TAdded _ => 2 | TServe _ => 1
  | TRead r => match r with RIdle => 1 | RCheck _ => 9 | RSig _ => 8 | RAccept _ => 7 | RTrack _ _ => 6 end
  | TLoop => 1
  | TTrack _ _ => 5 | TFollow _ _ => 4 | TWatch _ _ => 3 | TUnsig _ => 2 | TDelete _ => 1
  | TStreams _ => 1
  | TStop s => match s with PClose => 8 | PLinks => 7 | PLatch => 6 | PListeners _ => 5 | PSnapshot => 4 | PSessions _ => 3 | PWait => 2 | PFlush => 1 end
  | TJoin => 1
  end.
Definition work (ts : list thread) : nat := sum_list_with work_of ts.

Lemma work_app ts1 ts2 : work (ts1 ++ ts2) = work ts1 + work ts2.
Proof. apply sum_list_with_app. Qed.
Lemma work_replicate n t : work (replicate n t) = n * work_of t.
Proof. unfold work. induction n as [|n IH]; [done|]. cbn. by rewrite IH. Qed.

Lemma thread_does_work ok now t rest e e' new :
  thread_step ok now t rest e = Some (e', new) -> Inv e (t :: rest) -> work new < work_of t.
Proof.
  intros Hstep HI. destruct t as [[]| |l|l|l|[| | | |]| |sid x|sid x|sid x|sid|sid|x|[]|]; cbn [Engine.thread_step] in Hstep;
    unfold listen, addListener, dial in Hstep; repeat case_match; simplify_eq; rewrite ?work_app, ?work_replicate; cbn; try lia.
  pose proof (v_serving _ _ HI ltac:(done) l ltac:(by left)). by rewrite bool_decide_eq_true_2 in * by done.
Qed.

(** A run of goroutines only, each label a step that one of them takes. *)
Definition can_step (w : world) (i : nat) : bool :=
  match w.2 !! i with Some t => negb (blocked t (take i w.2 ++ drop (S i) w.2) w.1) | None => false end.
Fixpoint moves (tr : list label) (w : world) : bool :=
  match tr with
  | [] => true
  | LThread i ok now :: tr => can_step w i && moves tr (exec w (LThread i ok now))
  | _ => false
  end.

Lemma exec_does_work w i ok now : can_step w i = true -> Inv w.1 w.2 -> work (exec w (LThread i ok now)).2 < work w.2.
Proof.
  destruct w as [e ts]. unfold can_step. cbn [fst snd Engine.exec]. destruct (ts !! i) as [t|] eqn:Ht; [|done].
  intros Hb%negb_true_iff HI. pose proof (split_at _ _ _ Ht) as Hp. apply (Inv_reorder_threads _ _ _ Hp) in HI.
  destruct (thread_step_blocked ok now _ _ _ Hb) as [[e' new] Hst]. rewrite Hst. cbn [snd].
  pose proof (thread_does_work _ _ _ _ _ _ _ Hst HI). rewrite <-(take_drop_middle ts i t) at 3 by done.
  rewrite !work_app. cbn. fold (work (drop (S i) ts)). lia.
Qed.

Lemma exec_thread_Inv w i ok now : Inv w.1 w.2 -> Inv (exec w (LThread i ok now)).1 (exec w (LThread i ok now)).2.
Proof. by apply exec_keeps_Inv. Qed.

Lemma exec_once w i ok now : once w.1 = true -> once (exec w (LThread i ok now)).1 = true.
Proof.
  destruct w as [e ts]. cbn. intros Ho. destruct (ts !! i) as [t|]; [|done].
  destruct (thread_step ok now t _ e) as [[e' new]|] eqn:Hst; [|done]. cbn.
  destruct t as [[]| |l|l|l|[| | | |]| |sid x|sid x|sid x|sid|sid|x|[]|]; cbn [Engine.thread_step] in Hst;
    unfold listen, addListener, dial in Hst; repeat case_match; by simplify_eq.
Qed.

Lemma moves_all tr w : moves tr w = true -> Inv w.1 w.2 -> once w.1 = true ->
  List.length tr + work (runs tr w).2 <= work w.2 /\ Inv (runs tr w).1 (runs tr w).2 /\ once (runs tr w).1 = true.
Proof.
  revert w. induction tr as [|l tr IH]; intros w Hm HI Ho; [done|]. destruct l; try done.
  cbn [moves] in Hm. apply andb_true_iff in Hm as [Hc Hm]. pose proof (exec_does_work w i ok now Hc HI).
  destruct (IH _ Hm (exec_thread_Inv _ _ _ _ HI) (exec_once _ _ _ _ Ho)) as (Hw & ? & ?).
  change (runs (LThread i ok now :: tr) w) with (runs tr (exec w (LThread i ok now))). cbn [List.length]. split; [lia|done].
Qed.

(** The engine holds nothing and says so. *)
Definition over (e : Engine) : Prop :=
  done_ e = true /\ links e = false /\ listening e = [] /\ open e = [] /\ sigs e = ∅ /\ sessions e = ∅.

(** A goroutine of [ts] that waits. *)
Definition waits (e : Engine) (ts : list thread) (t : thread) : Prop :=
  exists others, blocked t others e = true /\ forall t', t' ∈ others -> t' ∈ ts.

Section Waiting.
Context (e : Engine) (ts : list thread) (HI : Inv e ts) (Ho : once e = true) (Hall : forall t, t ∈ ts -> waits e ts t).

Lemma waiting_stop : stop e = true.
Proof. by rewrite (v_stop _ _ HI). Qed.

Lemma waiting_open : open e = [].
Proof.
  destruct (open e) as [|x l] eqn:Hx; [done|]. exfalso.
  assert (x ∈ omap owner ts) as (t & Ht & Hown)%list_elem_of_omap by (apply (v_open _ _ HI); rewrite Hx; by left).
  destruct (Hall t Ht) as (others & Hb & _). destruct t as [| | | | |[]| | | | | | | | |]; cbn in *; try done.
  by rewrite waiting_stop, andb_false_r in Hb.
Qed.

Lemma waiting_stopped : links e = false /\ stopped e = true.
Proof.
  destruct (done_ e) eqn:Hd; [by destruct (v_done _ _ HI Hd) as (_ & ? & ?)|].
  pose proof (v_stage _ _ HI) as Hs. rewrite Ho, Hd in Hs. cbn in Hs. destruct Hs as (s & Hs & Hok).
  assert (s ∈ omap stage ts) as (t & Ht & Hst)%list_elem_of_omap by (rewrite Hs; by left).
  destruct (Hall t Ht) as (others & Hb & _). destruct t as [| | | | | | | | | | | | |[]|]; cbn in *; try done. by simplify_eq.
Qed.

Lemma waiting_listening : listening e = [].
Proof.
  destruct (listening e) as [|l ls] eqn:Hl; [done|]. exfalso. destruct waiting_stopped as [_ Hs].
  assert (l ∈ listening e) as Hin%(v_listening _ _ HI) by (rewrite Hl; by left).
  destruct Hin as [Hin|[Hin|Hin]].
  - apply list_elem_of_omap in Hin as (t & Ht & Hr). destruct (Hall t Ht) as (others & Hb & _). by destruct t as [[]| | | | |[]| | | | | | | |[]|].
  - destruct (v_stopped _ _ HI Hs) as [Hn _]. rewrite Hn in Hin. by apply not_elem_of_nil in Hin.
  - apply list_elem_of_bind in Hin as (t & Hin & Ht). destruct (Hall t Ht) as (others & Hb & _).
    destruct t as [| | | | | | | | | | | | |[]|]; cbn in *; try done; by apply not_elem_of_nil in Hin.
Qed.

Lemma waiting_untracked t : t ∈ ts -> tracked t = false.
Proof.
  intros Ht. destruct (Hall t Ht) as (others & Hb & _). pose proof waiting_stop as Hs. pose proof waiting_open as Hop.
  pose proof waiting_listening as Hl. destruct waiting_stopped as [Hln _].
  destruct t as [| | | | |[]| | | | | | | |[]|]; cbn in *; try done; exfalso.
  - rewrite Hl in Hb. by rewrite bool_decide_eq_false_2 in Hb by apply not_elem_of_nil.
  - congruence.
  - by rewrite Hs in Hb.
  - by rewrite Hs, andb_false_r in Hb.
  - rewrite Hop in Hb. by rewrite bool_decide_eq_false_2 in Hb by apply not_elem_of_nil.
Qed.

Lemma waiting_no_wait t : t ∈ ts -> t <> TStop PWait.
Proof.
  intros Ht ->. destruct (Hall _ Ht) as (others & Hb & Hsub). cbn in Hb. apply existsb_exists in Hb as (t' & Hin & Htr).
  apply list_elem_of_In in Hin. by rewrite (waiting_untracked t') in Htr by auto.
Qed.

Lemma waiting_done : done_ e = true.
Proof.
  destruct (done_ e) eqn:Hd; [done|]. exfalso. pose proof (v_stage _ _ HI) as Hs. rewrite Ho, Hd in Hs. cbn in Hs. destruct Hs as (s & Hs & _).
  assert (s ∈ omap stage ts) as (t & Ht & Hst)%list_elem_of_omap by (rewrite Hs; by left).
  destruct (Hall t Ht) as (others & Hb & _). pose proof (waiting_no_wait _ Ht). destruct t as [| | | | | | | | | | | | |[]|]; cbn in *; by simplify_eq.
Qed.

Lemma waiting_none : ts = [].
Proof.
  assert (forall t, t ∈ ts -> False) as Hno; [|destruct ts as [|t l]; [done|destruct (Hno t); by left]]. intros t Ht.
  destruct (Hall t Ht) as (others & Hb & _). pose proof (waiting_untracked _ Ht) as Hu. pose proof (waiting_no_wait _ Ht).
  pose proof waiting_done. destruct t as [[]| | | | |[]| | | | | | | |[]|]; cbn in *; try done. rewrite negb_true_iff in Hb. congruence.
Qed.
End Waiting.

Lemma Inv_over e : Inv e [] -> once e = true -> over e.
Proof.
  intros HI Ho. assert (forall t, t ∈ [] -> waits e [] t) as Hall by by intros t ?%not_elem_of_nil.
  destruct (waiting_stopped e [] HI Ho Hall). split_and!; [by eapply waiting_done|done|by eapply waiting_listening|by eapply waiting_open|..];
    apply map_eq; intros sid; rewrite lookup_empty; apply eq_None_not_Some; intros Hx.
  - by apply (v_sigs _ _ HI), not_elem_of_nil in Hx.
  - by apply (v_sessions _ _ HI), not_elem_of_nil in Hx.
Qed.

Lemma progress e ts : Inv e ts -> once e = true -> ts <> [] -> exists i, can_step (e, ts) i = true.
Proof.
  intros HI Ho Hne. destruct (List.find (can_step (e, ts)) (seq 0 (List.length ts))) as [i|] eqn:Hf;
    [exists i; by destruct (find_some _ _ Hf)|]. exfalso. apply Hne, (waiting_none e ts HI Ho). intros t Ht.
  apply list_elem_of_lookup in Ht as [i Hi]. pose proof (find_none _ _ Hf i) as Hn. unfold can_step in Hn. cbn in Hn. rewrite Hi in Hn.
  exists (take i ts ++ drop (S i) ts). split.
  - apply negb_false_iff, Hn, in_seq. apply lookup_lt_Some in Hi. lia.
  - intros t' Hin. rewrite (split_at ts i t Hi), elem_of_cons. by right.
Qed.

(** C12: A [Stop] that is called after [Start] has returned ends, and nothing outlives it: from
    wherever a run has got to once it has begun, the goroutines take no more steps than can
    be counted; while there are any, one of them can step; and when there are none, no
    link, listener or session is open, no inbox or entry is left, and the engine is done —
    whatever assignments, connects and listeners were under way, and although an accept
    loop ends only when its listener is closed and [Stop] waits for it. *)
Theorem stop_completes tr :
  orderly tr init = true -> once (runs tr init).1 = true ->
  forall tr', moves tr' (runs tr init) = true ->
    List.length tr' <= work (runs tr init).2 /\
    let w := runs tr' (runs tr init) in
    (w.2 <> [] -> exists i, can_step w i = true) /\ (w.2 = [] -> over w.1).
Proof.
  intros Hord Ho tr' Hm. pose proof (runs_keep_Inv tr init Hord init_has_Inv) as HI.
  destruct (moves_all _ _ Hm HI Ho) as (Hw & HI' & Ho'). split; [lia|]. destruct (runs tr' (runs tr init)) as [e ts]. cbn [fst snd] in *. split.
  - by apply progress.
  - intros ->. by apply Inv_over.
Qed.

(** Once the engine has said it is done, a listener that is still open is one that a
    connect has just opened and is about to be refused, and a session that is still open is
    one whose goroutine is about to close it. *)
Theorem done_leaves_nothing_served tr :
  orderly tr init = true ->
  let w := runs tr init in
  done_ w.1 = true ->
  links w.1 = false /\ stopped w.1 = true /\ listeners w.1 = [] /\
  (forall l, l ∈ listening w.1 -> l ∈ omap reg w.2) /\ (forall x, x ∈ open w.1 -> x ∈ omap owner w.2).
Proof.
  intros Hord w. pose proof (runs_keep_Inv tr init Hord init_has_Inv) as HI. fold w in HI. destruct w as [e ts]. cbn in *. intros Hd.
  destruct (v_done _ _ HI Hd) as (Ho & Hs & Hl). split_and!; [done|done|by destruct (v_stopped _ _ HI Hs)| |apply HI].
  intros l [?|[Hin|Hin]]%(v_listening _ _ HI); [done|..].
  - destruct (v_stopped _ _ HI Hs) as [Hn _]. rewrite Hn in Hin. by apply not_elem_of_nil in Hin.
  - exfalso. apply list_elem_of_bind in Hin as (t & Hin & Ht). pose proof (v_stage _ _ HI) as Hst. rewrite Ho, Hd in Hst. cbn in Hst.
    destruct t as [| | | | | | | | | | | | |[]|]; cbn in Hin; try by apply not_elem_of_nil in Hin.
    assert (PListeners ls ∈ omap stage ts) as Hx by (apply list_elem_of_omap; by eexists (TStop (PListeners ls))).
    rewrite Hst in Hx. by apply not_elem_of_nil in Hx.
Qed.

(** The reaper closes the idle sessions it may close, and no other. *)
Lemma reapIdle_spec now e x :
  x ∈ open (reapIdle now e) <-> x ∈ open e /\ forall sid ts, sessions e !! sid = Some ts -> sess ts = x -> idle now ts = false.
Proof.
  unfold reapIdle. cbn [close_sessions set_open open]. rewrite without_spec. split; intros [Hx Hn]; (split; [done|]).
  - intros sid ts Hts Hs. destruct (idle now ts) eqn:Hi; [|done]. destruct Hn. apply list_elem_of_fmap. exists ts. split; [done|].
    apply list_elem_of_filter. split; [done|]. apply list_elem_of_fmap. exists (sid, ts). split; [done|]. by apply elem_of_map_to_list.
  - intros (ts & -> & Hin)%list_elem_of_fmap. apply list_elem_of_filter in Hin as [Hi Hin].
    apply list_elem_of_fmap in Hin as ([sid ts'] & -> & Hin%elem_of_map_to_list). pose proof (Hn sid _ Hin eq_refl). cbn in Hi. congruence.
Qed.
End Steps.

(** ** Witnesses *)

Module Demo.
(** A node with the exit role and a relay ingress, two links, one loop. *)
Definition run_ (tr : list label) : world := runs true true 2 1 tr init.
Definition step (i : nat) : label := LThread i true 0.
(** [Start] to its end: the two accept loops, the two links and the loop. *)
Definition start : list label := [LStart; step 0; step 0; step 0; step 1; step 1; step 2].
(** An assignment is read and accepted; a connect is about to bind; [Stop] begins. *)
Definition busy : list label := start ++ [LAssign 2 "s"; step 2; step 2; step 2; LBind; LStop; step 6].
Fixpoint settle (fuel : nat) (w : world) : list label :=
  match fuel with
  | 0 => []
  | S k => match List.find (can_step w) (seq 0 (List.length w.2)) with
           | Some i => step i :: settle k (exec true true 2 1 w (step i))
           | None => []
           end
  end.
End Demo.
Import Demo.

Example it_runs :
  let w := Demo.run_ (Demo.start ++ [LAssign 2 "s"; Demo.step 2; Demo.step 2; Demo.step 2; Demo.step 2]) in
  listening w.1 = [1; 0] /\ open w.1 = [3] /\ (sess <$> sessions w.1 !! "s") = Some 3.
Proof. vm_compute. repeat split. Qed.

Lemma stop_completes_witness :
  let w := runs true true 2 1 Demo.busy init in
  List.length (settle 60 w) = 21 /\ over (runs true true 2 1 (settle 60 w) w).1.
Proof.
  intros w. split; [vm_compute; reflexivity|].
  assert (moves true true 2 1 (settle 60 w) w = true) as Hm by (vm_compute; reflexivity).
  assert (orderly true true 2 1 Demo.busy init = true) as Ho by (vm_compute; reflexivity).
  assert (once (runs true true 2 1 Demo.busy init).1 = true) as Hs by (vm_compute; reflexivity).
  assert ((runs true true 2 1 (settle 60 w) w).2 = []) as He by (vm_compute; reflexivity).
  exact (proj2 (proj2 (stop_completes true true 2 1 Demo.busy Ho Hs (settle 60 w) Hm)) He).
Defined.

Lemma done_leaves_nothing_served_witness :
  let w := runs true true 2 1 (Demo.busy ++ settle 60 (Demo.run_ Demo.busy) ++ [LBind; step 0]) init in
  done_ w.1 = true /\ listening w.1 = [5] /\ forall l, l ∈ listening w.1 -> l ∈ omap reg w.2.
Proof.
  set (tr := Demo.busy ++ settle 60 (Demo.run_ Demo.busy) ++ [LBind; step 0]). intros w.
  assert (orderly true true 2 1 tr init = true) as Ho by (vm_compute; reflexivity).
  assert (done_ w.1 = true) as Hd by (vm_compute; reflexivity). split; [exact Hd|]. split; [vm_compute; reflexivity|].
  exact (proj1 (proj2 (proj2 (proj2 (done_leaves_nothing_served true true 2 1 tr Ho Hd))))).
Defined.

(** The relay ingress cannot be bound: [Start] fails, and the exit's listener stays open
    with its accept loop. *)
Example ingress_failure_leaves_the_exit :
  let w := Demo.run_ [LStart; step 0; step 0; step 0; LThread 1 false 0] in
  listening w.1 = [0] /\ w.2 = [TServe 0] /\ links w.1 = false /\ once w.1 = false.
Proof. vm_compute. repeat split. Qed.

(** [Stop] overtakes the [Start] of a client: the links that [Start] dials are never
    closed, and [Stop] waits for their readers for ever. *)
Example stop_overtakes_start :
  let w := runs false false 1 0 [LStart; LStop; step 1; step 1; step 0; step 0; step 0; step 0; step 1; step 1; step 1; step 1] init in
  w.2 = [TRead RIdle; TStop PWait] /\ links w.1 = true /\ can_step w 0 = false /\ can_step w 1 = false.
Proof. vm_compute. repeat split. Qed.

(** An assignment for a session that is open is not taken up again. *)
Example an_assignment_is_taken_once :
  let w := Demo.run_ (Demo.start ++ [LAssign 2 "s"; step 2; step 2; step 2; step 2; LAssign 2 "s"; step 2]) in
  w.2 !! 2%nat = Some (TRead RIdle) /\ open w.1 = [3].
Proof. vm_compute. repeat split. Qed.
