(* ===== verification/Node.v ===== *)
(** * A node: what it is built from and how it registers

    [New] of [core/engine.go] with the transport names of [core/transport.go], what
    [Start] registers, and the registrations a coordinator receives, with
    [nodeBuildRevision] and the served session's handler of [core/forwarder.go]. The
    engine's goroutines are [Engine]; the registration meets the coordinator of
    [Coordinator] here. Noise's key pairs, the reality transport's construction and the
    opening of the accounting stores are parameters. *)

From S2P Require Import ASN.
From S2P Require Import Prelude GoStrings Base64 Crypto Hashes Net FileSys Version Delegation Admission DeviceCred.
From S2P Require Import GeoIP Stun Coldstart Capacity Estimator Rating Policy PolicyGate.
From S2P Require Import CoordState Challenges Geo Assign Coordinator.
From S2P Require RelayChain E2E Forward Client Account Quota Accounting.
Local Open Scope Z_scope.

(** ** [core/transport.go]: names *)

Definition transportVersionSep : ascii := "/".
Definition defaultTransportVersion : Z := 1.
Definition TransportWebRTC : string := "webrtc".
Definition TransportReality : string := "reality".
Definition transportVersions (base : string) : option Z :=
  if String.eqb base TransportWebRTC || String.eqb base TransportReality then Some 1 else None.

Definition splitTransportName (name : string) : option (string * Z) :=
  match Cut "/" name with
  | None => Some (name, defaultTransportVersion)
  | Some (base, raw) => match Atoi raw with
                        | Some v => if v <? 1 then None else Some (base, v)
                        | None => None
                        end
  end.
Definition transportName (base : string) (version : Z) : string :=
  if version =? defaultTransportVersion then base else base +:+ "/" +:+ Itoa version.

(** [newTransport]: whether there is a transport of the name. *)
Definition newTransport (reality : bool) (name : string) : bool :=
  match splitTransportName name with
  | None => false
  | Some (base, _) =>
      if String.eqb base "" || String.eqb base TransportWebRTC then true
      else if String.eqb base TransportReality then reality else false
  end.

(** Whether building the transport reports that the name asks for another version of it
    than this build has; it is built all the same. *)
Definition reportsVersion (name : string) : bool :=
  match splitTransportName name with
  | Some (base, v) => match transportVersions base with Some impl => negb (v =? impl) | None => false end
  | None => false
  end.

(** ** [New] *)

Record Config := MkConfig {
  Coordinators : list string; Roles : list string; c_ID : string; Advertise : string; c_Country : string; ExitKeyHex : string;
  Transport : string; TransportPool : list string; AcctDir : string;
  c_Limits : Capacity.Limits; QuotaPath : bool;
  AdmissionPubKey : string; AdmissionCRL : string; AdmissionCRLPath : string; AdmissionRequireCRL : bool;
  RelayHops : Z; RelayIngress : string; RelayDirectory : bytes; RelayDirectoryKey : bytes; MeshPubKey : bytes;
  DeviceCredDir : string;
}.
Record roleset := MkRoles { client : bool; relay : bool; exit : bool }.

Inductive NewError :=
| NoCoordinator | UnknownRole (r : string) | NoRole | NoAdvertise | BadExitKey | NoEntropy | BadAccounting
| BadAdmission (e : E2E.SetupError) | BadChaining (e : RelayChain.ChainError) | BadDevice (e : Account.KeyError)
| BadLimits (e : LimitsError) | BadQuota (e : Quota.QuotaError) | BadTransport | BadPool (name : string).

Fixpoint parse_roles (l : list string) (acc : roleset) : result NewError roleset :=
  match l with
  | [] => Ok acc
  | r :: l =>
      let r := TrimSpace r in
      if String.eqb r "" then parse_roles l acc
      else if String.eqb r "client" then parse_roles l (MkRoles true (relay acc) (exit acc))
      else if String.eqb r "relay" then parse_roles l (MkRoles (client acc) true (exit acc))
      else if String.eqb r "exit" then parse_roles l (MkRoles (client acc) (relay acc) true)
      else Err (UnknownRole r)
  end.

(** What an engine is made of. The key is the private and the public half; the quota and
    its file are those of [Quota]. *)
Record Node `{Ed25519} := MkNode {
  n_id : string; n_coordinators : list string; n_roles : roleset; n_key : option (bytes * bytes);
  n_acct_key : option PrivateKey; n_acct_client : bool; n_verifier : option (bytes * ClientCRL);
  n_dir : option RelayChain.relayDirectory; n_device : option (PrivateKey * Account.Store);
  n_limits : Capacity.Limits; n_quota : option Quota.Quota; n_transports : list string;
}.
Arguments MkNode {_}.

Section New.
Context `{Account.SeedsLaws} `{JSON Account.record} `{JSON CRL} `{JSON Snapshot}.
(** The public half of an X25519 key, and what [crypto/rand] gives for the private half of
    a new one, for an id and for a device key; whether a reality transport can be built of
    the configuration; whether an accounting store can be opened. *)
Context (public : bytes -> bytes) (fresh : option bytes) (randID : string) (gen : option PrivateKey).
Context (reality : bool) (openStore : string -> bool) (embedded : option ASN.Table).
(** The file at the list's path, the zone's offset and the quota's file. *)
Context (read : string -> option bytes) (zone : Duration) (quota_file : Quota.File).

Definition exitStaticKey (hexKey : string) : result NewError (bytes * bytes) :=
  let h := TrimSpace hexKey in
  if String.eqb h "" then match fresh with Some k => Ok (k, public k) | None => Err NoEntropy end
  else match hex_DecodeString h with
       | Some priv => if (List.length priv =? 32)%nat then Ok (priv, public priv) else Err BadExitKey
       | None => Err BadExitKey
       end.

Definition chain_config (cfg : Config) (id : string) (rs : roleset) : RelayChain.Config :=
  RelayChain.MkConfig id (RelayIngress cfg) (Advertise cfg) (RelayHops cfg) (ExitKeyHex cfg) (RelayDirectory cfg)
    (RelayDirectoryKey cfg) (MeshPubKey cfg) (client rs) (relay rs).

(** The exit's signing key, when it keeps receipts, and whether a client keeps them; there
    is a key pair whenever there is the exit role. *)
Definition setupAccounting (cfg : Config) (rs : roleset) (key : option (bytes * bytes)) : result NewError (option PrivateKey * bool) :=
  if String.eqb (AcctDir cfg) "" then Ok (None, false)
  else
    let? k :=
      (if exit rs
       then let? k := of_option BadAccounting (key ≫= fun key => Accounting.AcctKeyFromSeed Account.from_seed key.1) in
            check! fail_if (negb (openStore (Join [AcctDir cfg; "receipts-exit.jsonl"]))) BadAccounting;
            Ok (Some k)
       else Ok None) in
    check! fail_if (client rs && negb (openStore (Join [AcctDir cfg; "receipts-client.jsonl"]))) BadAccounting;
    Ok (k, client rs).

Definition setupDeviceCredential (cfg : Config) (rs : roleset) : prog (result NewError (option (PrivateKey * Account.Store))) :=
  if negb (client rs) then Ret (Ok None)
  else
    try! key := fails_as BadDevice (Account.LoadOrGenerateKey (DeviceCredDir cfg) gen) in
    run! store := Account.Open (Account.DeviceCredPath (DeviceCredDir cfg)) in
    Ret (Ok (Some (key, store))).

(** [setupPool]: the names, or the first that no transport can be built of. Opening the
    store of what worked never fails. *)
Definition setupPool (cfg : Config) : result NewError (list string) :=
  let order := Client.dedupNonEmpty (TransportPool cfg) in
  match List.find (fun n => negb (newTransport reality n)) order with
  | Some n => Err (BadPool n)
  | None => Ok order
  end.

(** The part of [newEngine] that can fail: the limits, the quota, the transports. *)
Definition newEngine (cfg : Config) (now : Time) : result NewError (option Quota.Quota * list string) :=
  let? _ := map_err BadLimits (Limits_Validate (c_Limits cfg)) in
  let? q := map_err BadQuota (Quota.NewQuota zone (c_Limits cfg) (QuotaPath cfg) quota_file now) in
  check! fail_if (negb (newTransport reality (Transport cfg))) BadTransport;
  let? names := setupPool cfg in
  Ok (q, names).

Definition no_role (rs : roleset) : bool := negb (client rs || relay rs || exit rs).

(** [t1], [t2] and [t3] are the readings of the clock. *)
Definition New (cfg : Config) (t1 t2 t3 : Time) : prog (result NewError Node) :=
  let coords := Client.dedupNonEmpty (Coordinators cfg) in
  match (
    check! fail_if (bool_decide (coords = [])) NoCoordinator;
    let? rs := parse_roles (Roles cfg) (MkRoles false false false) in
    check! fail_if (no_role rs) NoRole;
    check! fail_if (exit rs && String.eqb (Advertise cfg) "") NoAdvertise;
    let? (key, id) :=
      (if exit rs || (relay rs && negb (String.eqb (RelayIngress cfg) ""))
       then let? k := exitStaticKey (ExitKeyHex cfg) in Ok (Some k, hex_EncodeToString k.2)
       else Ok (None, if String.eqb (c_ID cfg) "" then randID else c_ID cfg)) in
    let? acct := setupAccounting cfg rs key in
    let? v := map_err BadAdmission
      (E2E.buildExitVerifier (AdmissionPubKey cfg) (AdmissionCRL cfg) (AdmissionCRLPath cfg) (AdmissionRequireCRL cfg) t1 read) in
    let? dir := map_err BadChaining (RelayChain.setupRelayChaining embedded (chain_config cfg id rs) t2) in
    Ok (rs, key, id, acct, v, dir))
  with
  | Err e => Ret (Err e)
  | Ok (rs, key, id, acct, v, dir) =>
      try! dev := setupDeviceCredential cfg rs in
      Ret (let? (q, names) := newEngine cfg t3 in
           Ok (MkNode id coords rs key acct.1 acct.2 v dir dev (c_Limits cfg) q names))
  end.
End New.

(** ** Registering *)

(** [renderBuildRevision] of the settings, keys and values. *)
Definition render_step (acc : string * bool) (kv : string * string) : string * bool :=
  if String.eqb kv.1 "vcs.revision" then (kv.2, acc.2)
  else if String.eqb kv.1 "vcs.modified" then (acc.1, String.eqb kv.2 "true") else acc.
Definition renderBuildRevision (settings : list (string * string)) : string :=
  let '(revision, dirty) := foldl render_step ("", false) settings in
  if String.eqb revision "" then ""
  else
    let revision := if (12 <? String.length revision)%nat then String.substring 0 12 revision else revision in
    if dirty then revision +:+ "-dirty" else revision.

Definition helloWire : wire :=
  MkWire "hello" "" "" "" "" "" "" "" "" "" [] "" [] "" [] (h_Magic Local) (h_Version Local) (h_Capabilities Local) "" "" "" "" "" "" 0 0 0 0 "" None [] "" "" "" "".

Definition register_wire (role id country addr release build : string) (l : Capacity.Limits) (port : Z) : wire :=
  MkWire "register" role id country addr "" "" "" "" "" [] "" [] "" [] "" 0 [] "" "" release build "" "" port (SpeedCap l) (MonthlyQuota l) 0 "" None [] "" "" "" "".

(** The registrations [Start] keeps; [port] is the one its relay ingress is bound to, zero
    when it has none. *)
Definition regs `{Ed25519} (n : Node) (advertise country release build : string) (port : Z) : list wire :=
  (if exit (n_roles n) then [register_wire "exit" (n_id n) country advertise release build (n_limits n) 0] else []) ++
  (if relay (n_roles n) then [register_wire "relay" (n_id n) country "" release build (n_limits n) port] else []).

Definition quotaOK : string := "ok".
(** [quotaState], and the quota after it was asked. *)
Definition quotaState (zone : Duration) (q : option Quota.Quota) (file : Quota.File) (now : Time) (ok : bool)
    : string * (option Quota.Quota * Quota.File) :=
  match q with
  | None => ("", (None, file))
  | Some q => let '(x, (q, file)) := Quota.Exhausted zone q file now ok in
              (if x then quotaExhausted else quotaOK, (Some q, file))
  end.

(** [r.QuotaState = qs; r.Cred = cred] *)
Definition stamp (qs cred : string) (r : wire) : wire :=
  MkWire (Type_ r) (Role r) (ID r) (CoordState.Country r) (Addr r) (Mode r) (Session r) (ExitID r) (FirstHop r) (Nonce r)
    (ExcludeSessions r) (ExitAddr r) (Countries r) (SDP r) (Cand r) (Magic r) (w_Version r) (Capabilities r) (Reason r) cred
    (Release r) (Build r) (Relay r) (RelayTag r) (IngressPort r) (w_SpeedCap r) (DeclaredQuotaBytes r) (SessionCapBps r) qs
    (w_Receipt r) (ReportSig r) (Challenge r) (w_DeviceCred r) (w_IssuerCert r) (DeviceAssert r).
(** [sendRegisters]: what goes to every coordinator of the pool. *)
Definition sendRegisters (rs : list wire) (qs cred : string) : list wire := stamp qs cred <$> rs.

(** ** Serving an assignment *)

(** [handlerFor]: what is done with the streams of the session, each paced to the cap the
    coordinator stamped. *)
Inductive Handler := PipeTo (exitAddr : string) (pace : Z) | Terminate (sid : string) (pace : Z).
Definition handlerFor (m : wire) : Handler :=
  if negb (String.eqb (ExitAddr m) "") then PipeTo (ExitAddr m) (SessionCapBps m) else Terminate (Session m) (SessionCapBps m).

(** ** Transport names *)

Lemma Cut_none sep base : free_of sep base = true -> Cut sep base = None.
Proof.
  induction base as [|c base IH]; [done|]. cbn [free_of Cut]. intros [Hc Hf]%andb_true_iff. apply negb_true_iff in Hc.
  rewrite Hc, IH by done. done.
Qed.
Lemma Cut_at sep base rest : free_of sep base = true -> Cut sep (base +:+ String sep rest) = Some (base, rest).
Proof.
  induction base as [|c base IH]; [intros _; simpl; by rewrite ?Ascii.eqb_refl|].
  cbn [free_of]. intros [Hc Hf]%andb_true_iff. apply negb_true_iff in Hc. simpl. by rewrite Hc, IH.
Qed.

(** A transport's name is read back as the base and the version it was made of. *)
Theorem transport_names_round_trip base version :
  free_of transportVersionSep base = true -> 1 <= version <= i64max ->
  splitTransportName (transportName base version) = Some (base, version).
Proof.
  unfold transportName, splitTransportName, transportVersionSep. intros Hf Hv.
  destruct (Z.eqb_spec version defaultTransportVersion) as [->|Hne]; [by rewrite Cut_none|].
  change (base +:+ "/" +:+ Itoa version) with (base +:+ String "/" (Itoa version)). rewrite Cut_at by done.
  rewrite Atoi_Itoa by lia. destruct (Z.ltb_spec version 1); [lia|done].
Qed.

(** ** What a node that was built is *)

Section Built.
Context `{Account.SeedsLaws} `{JSON Account.record} `{JSON CRL} `{JSON Snapshot}.
Context (public : bytes -> bytes) (fresh : option bytes) (randID : string) (gen : option PrivateKey).
Context (reality : bool) (openStore : string -> bool) (embedded : option ASN.Table).
Context (read : string -> option bytes) (zone : Duration) (quota_file : Quota.File).
Local Abbreviation New := (New public fresh randID gen reality openStore embedded read zone quota_file).

Definition has_role (cfg : Config) (r : string) : Prop := exists x, x ∈ Roles cfg /\ TrimSpace x = r.

Lemma parse_roles_spec l acc rs :
  parse_roles l acc = Ok rs ->
  (forall x, x ∈ l -> TrimSpace x ∈ [""; "client"; "relay"; "exit"]) /\
  (client rs = true <-> client acc = true \/ exists x, x ∈ l /\ TrimSpace x = "client") /\
  (relay rs = true <-> relay acc = true \/ exists x, x ∈ l /\ TrimSpace x = "relay") /\
  (exit rs = true <-> exit acc = true \/ exists x, x ∈ l /\ TrimSpace x = "exit").
Proof.
  revert acc. induction l as [|x l IH]; intros acc; cbn [parse_roles].
  - intros [= ->]. split; [by intros x ?%not_elem_of_nil|]. split_and!; (split; [by left|]); intros [?|(x & ?%not_elem_of_nil & _)]; done.
  - assert (forall (P : string -> Prop), (forall y, y ∈ x :: l -> P y) <-> P x /\ forall y, y ∈ l -> P y) as Hall.
    { intros P. setoid_rewrite elem_of_cons. naive_solver. }
    assert (forall r, (exists y, y ∈ x :: l /\ TrimSpace y = r) <-> TrimSpace x = r \/ exists y, y ∈ l /\ TrimSpace y = r) as Hex.
    { intros r. setoid_rewrite elem_of_cons. naive_solver. }
    rewrite Hall, !Hex. clear Hall Hex. cbv zeta.
    destruct (String.eqb_spec (TrimSpace x) ""); [|destruct (String.eqb_spec (TrimSpace x) "client");
      [|destruct (String.eqb_spec (TrimSpace x) "relay"); [|destruct (String.eqb_spec (TrimSpace x) "exit"); [|done]]]];
      intros (K1 & K2 & K3 & K4)%IH; cbn in *; rewrite K2, K3, K4, e; split_and!; try done; try (rewrite !list_elem_of_In; simpl; tauto);
      intuition congruence.
Qed.

(** The identity of a node that others authenticate is its key's, and the key is the
    configured one when one is configured. *)
Definition identified (cfg : Config) (n : Node) : Prop :=
  match n_key n with
  | Some (priv, pub) =>
      pub = public priv /\ n_id n = hex_EncodeToString pub /\
      (TrimSpace (ExitKeyHex cfg) <> "" -> hex_DecodeString (TrimSpace (ExitKeyHex cfg)) = Some priv /\ List.length priv = 32%nat)
  | None => c_ID cfg <> "" -> n_id n = c_ID cfg
  end.

(** An exit that keeps receipts signs them with the key derived from its identity, the one
    [ExitAcctIdentity] tells the operator. *)
Definition receipts_signed (cfg : Config) (n : Node) : Prop :=
  match n_acct_key n with
  | Some k => AcctDir cfg <> "" /\ exit (n_roles n) = true /\ exists key, n_key n = Some key /\ Accounting.AcctKeyFromSeed Account.from_seed key.1 = Some k
  | None => AcctDir cfg = "" \/ exit (n_roles n) = false
  end.

Record built (cfg : Config) (n : Node) : Prop := {
  bt_pool : n_coordinators n <> [] /\ NoDup (n_coordinators n) /\
            forall a, a ∈ n_coordinators n <-> a <> "" /\ exists x, x ∈ Coordinators cfg /\ a = TrimSpace x;
  bt_roles : (client (n_roles n) = true <-> has_role cfg "client") /\ (relay (n_roles n) = true <-> has_role cfg "relay") /\
             (exit (n_roles n) = true <-> has_role cfg "exit") /\ no_role (n_roles n) = false;
  bt_exit : exit (n_roles n) = true -> Advertise cfg <> "";
  bt_identity : identified cfg n;
  bt_keyed : (exists k, n_key n = Some k) <-> exit (n_roles n) = true \/ relay (n_roles n) = true /\ RelayIngress cfg <> "";
  bt_receipts : receipts_signed cfg n;
  bt_ingress : RelayIngress cfg <> "" -> relay (n_roles n) = true /\ TrimSpace (ExitKeyHex cfg) <> "" /\ is_Some (n_dir n);
  bt_chain : RelayHops cfg <= RelayChain.RelayHopsMax /\ (client (n_roles n) = true -> 2 <= RelayHops cfg -> is_Some (n_dir n));
  bt_admission : (n_verifier n = None <-> TrimSpace (AdmissionPubKey cfg) = "") /\
                 (AdmissionRequireCRL cfg = true -> is_Some (n_verifier n));
  bt_device : is_Some (n_device n) <-> client (n_roles n) = true;
  bt_limits : n_limits n = c_Limits cfg /\ Limits_Validate (n_limits n) = Ok tt /\ (n_quota n = None <-> MonthlyQuota (c_Limits cfg) = 0);
  bt_transports : newTransport reality (Transport cfg) = true /\ forall t, t ∈ n_transports n -> newTransport reality t = true;
}.

Lemma dedupNonEmpty_spec l a : a ∈ Client.dedupNonEmpty l <-> a <> "" /\ exists x, x ∈ l /\ a = TrimSpace x.
Proof.
  unfold Client.dedupNonEmpty. rewrite Selection.elem_of_keep_first, list_elem_of_filter, list_elem_of_fmap. set_solver.
Qed.

Lemma exitStaticKey_spec h k :
  exitStaticKey public fresh h = Ok k ->
  k.2 = public k.1 /\ (TrimSpace h <> "" -> hex_DecodeString (TrimSpace h) = Some k.1 /\ List.length k.1 = 32%nat).
Proof.
  unfold exitStaticKey. destruct (String.eqb_spec (TrimSpace h) "") as [He|He].
  - destruct fresh as [f|]; [|done]. intros [= <-]. done.
  - destruct (hex_DecodeString (TrimSpace h)) as [p|]; [|done]. destruct (Nat.eqb_spec (List.length p) 32); [|done].
    intros [= <-]. done.
Qed.

Lemma verifier_present pub crl path require now v :
  E2E.buildExitVerifier pub crl path require now read = Ok v ->
  (v = None <-> TrimSpace pub = "") /\ (require = true -> is_Some v).
Proof.
  unfold E2E.buildExitVerifier. intros Hv. inv_result. destruct (String.eqb_spec (TrimSpace pub) "") as [He|He]; inv_result; [done|].
  split; [done|by eexists].
Qed.

Lemma chaining_checked emb c now v :
  RelayChain.setupRelayChaining emb c now = Ok v ->
  RelayChain.RelayHops c <= RelayChain.RelayHopsMax /\
  (RelayChain.RelayIngress c <> "" -> RelayChain.role_relay c = true /\ TrimSpace (RelayChain.ExitKeyHex c) <> "" /\ is_Some v) /\
  (RelayChain.role_client c = true -> 2 <= RelayChain.RelayHops c -> is_Some v).
Proof.
  unfold RelayChain.setupRelayChaining. cbv zeta. intros Hv. inv_result. b2p.
  destruct (String.eqb_spec (RelayChain.RelayIngress c) ""), (RelayChain.role_relay c), (RelayChain.role_client c),
    (String.eqb_spec (TrimSpace (RelayChain.ExitKeyHex c)) ""), (bool_decide (RelayChain.RelayDirectory c = [])),
    (Z.leb_spec 2 (RelayChain.RelayHops c)); try done; inv_result; split_and!; (done || lia || by eexists).
Qed.

Lemma setupPool_spec cfg names : setupPool reality cfg = Ok names -> forall t, t ∈ names -> newTransport reality t = true.
Proof.
  unfold setupPool. cbv zeta. destruct (List.find _ _) eqn:Hf; [done|]. intros [= <-] t Ht%list_elem_of_In.
  pose proof (List.find_none _ _ Hf t Ht) as Hn. by apply negb_false_iff.
Qed.

Lemma receipts_key cfg rs key acct :
  setupAccounting openStore cfg rs key = Ok acct ->
  match acct.1 with
  | Some k => AcctDir cfg <> "" /\ exit rs = true /\ exists kp, key = Some kp /\ Accounting.AcctKeyFromSeed Account.from_seed kp.1 = Some k
  | None => AcctDir cfg = "" \/ exit rs = false
  end.
Proof.
  unfold setupAccounting. destruct (String.eqb_spec (AcctDir cfg) ""); [intros [= <-]; by left|].
  intros Ha. inv_result. cbn. destruct (exit rs); inv_result; [|by right]. destruct key as [kp|]; [|done]. cbn in *. naive_solver.
Qed.

Lemma newEngine_spec cfg now q names :
  newEngine reality zone quota_file cfg now = Ok (q, names) ->
  Limits_Validate (c_Limits cfg) = Ok tt /\ (q = None <-> MonthlyQuota (c_Limits cfg) = 0) /\
  newTransport reality (Transport cfg) = true /\ forall t, t ∈ names -> newTransport reality t = true.
Proof.
  unfold newEngine. intros He. inv_result. b2p. split; [done|]. split; [|by split; [|eapply setupPool_spec]].
  match goal with H : Quota.NewQuota _ _ _ _ _ = _ |- _ => revert H end. unfold Quota.NewQuota.
  destruct (Z.eqb_spec (MonthlyQuota (c_Limits cfg)) 0); cbv zeta; [naive_solver|].
  destruct (negb _); [naive_solver|]. destruct quota_file; naive_solver.
Qed.

Lemma device_only_for_clients cfg rs fs d d' dev fs' :
  run (setupDeviceCredential gen cfg rs) fs d = (d', Some (Ok dev), fs') -> is_Some dev <-> client rs = true.
Proof.
  unfold setupDeviceCredential. destruct (client rs); cbn [negb].
  - intros (k & d1 & fs1 & _ & (st & d2 & fs2 & _ & Hr)%run_pbind_inv)%run_ptry_inv. cbn [run] in Hr. injection Hr as _ <- _. done.
  - cbn [run]. intros [= _ <- _]. split; [by intros [? ?]|done].
Qed.

(** The identity chosen, and whether there is a key. *)
Lemma identity_chosen cfg (keyed : bool) key id :
  (if keyed then let? k := exitStaticKey public fresh (ExitKeyHex cfg) in Ok (Some k, hex_EncodeToString k.2)
   else Ok (None, if String.eqb (c_ID cfg) "" then randID else c_ID cfg)) = Ok (key, id) ->
  ((exists k, key = Some k) <-> keyed = true) /\
  match key with
  | Some (priv, pub) =>
      pub = public priv /\ id = hex_EncodeToString pub /\
      (TrimSpace (ExitKeyHex cfg) <> "" -> hex_DecodeString (TrimSpace (ExitKeyHex cfg)) = Some priv /\ List.length priv = 32%nat)
  | None => c_ID cfg <> "" -> id = c_ID cfg
  end.
Proof.
  destruct keyed; intros Hk; inv_result.
  - destruct a as [priv pub]. split; [split; [done|by eexists]|].
    match goal with H : exitStaticKey _ _ _ = _ |- _ => apply exitStaticKey_spec in H as [? ?] end. done.
  - split; [naive_solver|]. destruct (String.eqb_spec (c_ID cfg) ""); done.
Qed.

Lemma roles_parsed cfg rs :
  parse_roles (Roles cfg) (MkRoles false false false) = Ok rs ->
  (client rs = true <-> has_role cfg "client") /\ (relay rs = true <-> has_role cfg "relay") /\ (exit rs = true <-> has_role cfg "exit").
Proof. intros (_ & Hc & Hr & He)%parse_roles_spec. cbn in *. unfold has_role. rewrite Hc, Hr, He. naive_solver. Qed.

(** A node that is built is what its configuration says: its pool is the coordinators
    given, its roles are the ones named, each with what it needs; the id it goes by is that
    of the key it proves, and the configured key when there is one; an onion forwarder has a
    verified directory and a key of its own; an exit that keeps receipts signs them with the key of its identity; a client has a
    device key; and a client told to check revocation checks it. *)
Theorem New_sound cfg t1 t2 t3 fs d d' n fs' :
  run (New cfg t1 t2 t3) fs d = (d', Some (Ok n), fs') -> built cfg n.
Proof.
  unfold Node.New. cbv zeta. intros Hrun.
  match type of Hrun with run (match ?x with _ => _ end) _ _ = _ => destruct x as [[[[[[rs key] id] acct] v] dir]|e] eqn:Hpre end; [|done].
  apply run_ptry_inv in Hrun as (dev & d1 & fs1 & Hdev%device_only_for_clients & Hret). cbn [run] in Hret. injection Hret as <- Hret <-.
  inv_result. destruct a4 as [key0 id0]. inv_result.
  match goal with H : (let '(_, _) := ?x in _) = Ok n |- _ => destruct x as [q names] end. injection Hret as <-.
  apply identity_chosen in E4 as [Hkey Hid]. apply verifier_present in E6. apply roles_parsed in E1.
  apply chaining_checked in E7 as (? & Hing & Hch). apply newEngine_spec in E as (? & ? & ? & ?). b2p.
  cbn [chain_config RelayChain.RelayIngress RelayChain.RelayHops RelayChain.role_relay RelayChain.role_client RelayChain.ExitKeyHex] in *.
  split; cbn [n_id n_coordinators n_roles n_key n_verifier n_dir n_device n_limits n_quota n_transports]; try done; try tauto.
  - split_and!; [done|apply Selection.NoDup_keep_first|apply dedupNonEmpty_spec].
  - intros Hx. rewrite Hx in E3. by apply String.eqb_neq.
  - rewrite Hkey, orb_true_iff, andb_true_iff, negb_true_iff, String.eqb_neq. done.
  - apply receipts_key in E5. done.
Qed.
End Built.

(** ** Registering with a coordinator *)

(** Whether the node's own quota is spent. *)
Definition spent (zone : Duration) (q : option Quota.Quota) (file : Quota.File) (now : Time) (ok : bool) : bool :=
  match q with Some q => (Quota.Exhausted zone q file now ok).1 | None => false end.

Section Registering.
Context `{FloatPlatform} `{Ed25519} `{JSON Credential} `{JSON IssuerCert} `{JSON DeviceCredential}.
Context (cfg : CoordState.Config) (i : Inputs).
Context (zone : Duration) (file : Quota.File) (now : Time) (ok : bool).

(** What the coordinator keeps of an exit and of a relay, from the node's side. *)
Record exit_registered (n : Node) (advertise : string) (src : UDPAddr) (e : exitNode) : Prop := {
  er_id : e_id e = n_id n;
  er_addr : tcpAddr e = advertise /\ udp e = Some src;
  er_limits : e_speedCap e = SpeedCap (n_limits n) /\ e_declaredQuota e = MonthlyQuota (n_limits n);
  er_seen : e_lastSeen e = t_handle (clock i);
  er_spent : e_exhausted e = spent zone (n_quota n) file now ok;
}.
Record relay_registered (n : Node) (port : Z) (src : UDPAddr) (r : relayNode) : Prop := {
  rr_id : r_id r = n_id n;
  rr_addr : r_addr r = src /\ ingressPort r = if validIngressPort port then port else 0;
  rr_limits : r_speedCap r = SpeedCap (n_limits n) /\ r_declaredQuota r = MonthlyQuota (n_limits n);
  rr_seen : r_lastSeen r = t_handle (clock i);
  rr_spent : r_exhausted r = spent zone (n_quota n) file now ok;
}.

Lemma quotaState_spent q : String.eqb (quotaState zone q file now ok).1 quotaExhausted = spent zone q file now ok.
Proof. unfold quotaState, spent. destruct q as [q|]; [|done]. by destruct (Quota.Exhausted zone q file now ok) as [[] [? ?]]. Qed.

Lemma spent_exit_unassignable rt e n l : e_exhausted e = true -> exitAssignable cfg rt e n l = false.
Proof. unfold exitAssignable. by intros ->. Qed.
Lemma spent_relay_unusable rt ex t r id : r_exhausted r = true -> relay_usable cfg rt ex t (id, r) = false.
Proof. unfold relay_usable. intros ->. cbn. by rewrite andb_false_r. Qed.

(** A greeting is accepted: it changes nothing and is not answered. *)
Lemma hello_accepted s src : handle cfg i s helloWire src = (prune s (t_handle (clock i)), []).
Proof. done. Qed.

Lemma elem_of_regs n advertise country release build port r :
  r ∈ regs n advertise country release build port <->
  (exit (n_roles n) = true /\ r = register_wire "exit" (n_id n) country advertise release build (n_limits n) 0) \/
  (relay (n_roles n) = true /\ r = register_wire "relay" (n_id n) country "" release build (n_limits n) port).
Proof.
  unfold regs. rewrite elem_of_app.
  destruct (exit (n_roles n)), (relay (n_roles n)); rewrite ?list_elem_of_singleton, ?elem_of_nil; naive_solver.
Qed.

Lemma handle_register_cases s m src :
  let out := handle_register cfg i s m src in
  (exists reason, out = (s, [(src, msg_reject reason)])) \/
  out = (if String.eqb (Role m) "relay" then register_relay cfg i s m src
         else if String.eqb (Role m) "exit" then register_exit cfg i s m src else s, []).
Proof.
  unfold handle_register. destruct (admit_ _ _ _ _ _); [|left; by eexists]. destruct (servingCheck _ _ _ _ _); [|left; by eexists].
  destruct (negb _); [left; by eexists|]. right. by repeat case_match.
Qed.

Lemma valid_port_kept p : (if negb (p =? 0) && negb (validIngressPort p) then 0 else p) = if validIngressPort p then p else 0.
Proof. destruct (Z.eqb_spec p 0) as [->|]; [done|]. by destruct (validIngressPort p). Qed.

(** C13: A node and a coordinator agree on what was registered: each registration is either
    refused with a reason, and changes nothing, or enters the node under the id and with the
    caps, the address or the ingress port it declared, seen now; and while the node's own
    quota is spent, what is entered is neither assigned nor picked as a relay. *)
Theorem registered_as_declared n advertise country release build port cred s m src s' out :
  m ∈ sendRegisters (regs n advertise country release build port) (quotaState zone (n_quota n) file now ok).1 cred ->
  handle cfg i s m src = (s', out) ->
  let s1 := prune s (t_handle (clock i)) in
  (exists reason, out = [(src, msg_reject reason)] /\ s' = s1) \/
  (out = [] /\ sessions s' = sessions s1 /\
   ((exists e, exit (n_roles n) = true /\ s' = set_exits s1 (<[n_id n := e]> (exits s1)) /\ exit_registered n advertise src e /\
               (spent zone (n_quota n) file now ok = true -> forall rt k l, exitAssignable cfg rt e k l = false)) \/
    (exists r, relay (n_roles n) = true /\ s' = set_relays s1 (<[n_id n := r]> (relays s1)) /\ relay_registered n port src r /\
               (spent zone (n_quota n) file now ok = true -> forall rt ex t, relay_usable cfg rt ex t (n_id n, r) = false)))).
Proof.
  intros (r & -> & Hr%elem_of_regs)%list_elem_of_fmap Hh s1.
  assert (handle_register cfg i s1 (stamp (quotaState zone (n_quota n) file now ok).1 cred r) src = (s', out)) as Hreg.
  { rewrite <-Hh. unfold handle. cbn [stamp Type_]. by destruct Hr as [[_ ->]|[_ ->]]. }
  clear Hh. destruct (handle_register_cases s1 (stamp (quotaState zone (n_quota n) file now ok).1 cred r) src) as [[reason Hc]|Hc];
    rewrite Hc in Hreg; injection Hreg as <- <-; [left; by eexists|].
  right. destruct Hr as [[Hx ->]|[Hx ->]]; cbn [stamp register_wire Role String.eqb Ascii.eqb Bool.eqb]; (split; [done|]).
  - split; [done|]. left. eexists. split; [done|]. split; [done|]. split.
    + split; cbn; [done..|apply quotaState_spent].
    + intros Hs *. apply spent_exit_unassignable. cbn. by rewrite quotaState_spent.
  - split; [done|]. right. eexists. split; [done|]. split; [done|]. split.
    + split; cbn; [done| |done..|apply quotaState_spent]. split; [done|apply valid_port_kept].
    + intros Hs *. apply spent_relay_unusable. cbn. by rewrite quotaState_spent.
Qed.
End Registering.

(** ** A node built, registered, and refused when its quota is spent *)

Module Demo.
Export Crypto.Toy Estimator.Demo Coordinator.Demo.
#[export] Existing Instance toy_json.
#[export] Existing Instance Account.record_countable.
#[export] Existing Instance Account.Demo.toy_seeds.
#[export] Existing Instance Account.Demo.toy_seeds_laws.

Definition cfg : Node.Config := {|
  Coordinators := ["c1.test:7000"; ""; " c1.test:7000"; "c2.test:7000"]; Roles := ["exit"; "client"]; c_ID := "mine";
  Advertise := "9.9.9.1:443"; c_Country := "SE"; ExitKeyHex := hex_EncodeToString (repeat "k"%char 32);
  Transport := ""; TransportPool := ["webrtc/2"; ""; "webrtc"]; AcctDir := "/var/acct";
  c_Limits := Capacity.MkLimits 1000 5000 0; QuotaPath := true;
  AdmissionPubKey := ""; AdmissionCRL := ""; AdmissionCRLPath := ""; AdmissionRequireCRL := false;
  RelayHops := 1; RelayIngress := ""; RelayDirectory := []; RelayDirectoryKey := []; MeshPubKey := [];
  DeviceCredDir := "" |}.
Definition device_key : PrivateKey := "d"%char.
Definition quota_file (used : Z) : Quota.File := Quota.Saved (Quota.MkState 0 used 5000 1).
Definition build (used : Z) :=
  run (New (fun k => k) None "random" (Some device_key) false (fun _ => true) None (fun _ => None) 0 (quota_file used)
         cfg Hour Hour Hour) [] ∅.
Definition node (used : Z) : Node :=
  match build used with
  | (_, Some (Ok n), _) => n
  | _ => MkNode "" [] (MkRoles false false false) None None false None None None (c_Limits cfg) None []
  end.
End Demo.
Import Demo.

Lemma transport_names_round_trip_witness :
  transportName "reality" 12 = "reality/12" /\ splitTransportName (transportName "reality" 12) = Some ("reality", 12) /\
  splitTransportName "reality/two" = None /\ splitTransportName "reality" = Some ("reality", 1).
Proof.
  split; [reflexivity|]. split; [|by vm_compute]. apply transport_names_round_trip; [reflexivity|]. split; [done|]. by vm_compute.
Defined.

Lemma New_sound_witness :
  n_coordinators (node 10) = ["c1.test:7000"; "c2.test:7000"] /\ n_id (node 10) = hex_EncodeToString (repeat "k"%char 32) /\
  built (fun k => k) false Demo.cfg (node 10).
Proof.
  split; [by vm_compute|]. split; [by vm_compute|].
  apply (New_sound (fun k => k) None "random" (Some device_key) false (fun _ => true) None (fun _ => None) 0 (quota_file 10)
           Demo.cfg Hour Hour Hour [] ∅ ∅ (node 10) []). by vm_compute.
Defined.

(** Registered with its quota spent, the exit is entered and not assigned. *)
Definition spent_register : list wire :=
  sendRegisters (regs (node 6000) "9.9.9.1:443" "SE" "1.1.0" "" 0)
    (quotaState 0 (n_quota (node 6000)) (quota_file 6000) Hour true).1
    (issue_for Admission.Demo.operator_key (n_id (node 6000)) RoleExit).
Definition registered : state * sent :=
  match spent_register with
  | m :: _ => handle full_cfg (at_ 0 "") CoordState.CoordDemo.state0 m exit_src
  | [] => (CoordState.CoordDemo.state0, [])
  end.
Lemma registered_as_declared_witness :
  exists e, exits registered.1 !! n_id (node 6000) = Some e /\ e_exhausted e = true /\
            forall rt k l, exitAssignable full_cfg rt e k l = false.
Proof.
  assert (exists m, spent_register = [m]) as [m Hm] by (eexists; vm_compute; reflexivity).
  assert (m ∈ spent_register) as Hin by (rewrite Hm; apply list_elem_of_here).
  assert (registered = handle full_cfg (at_ 0 "") CoordState.CoordDemo.state0 m exit_src) as Hr by (unfold registered; by rewrite Hm).
  destruct registered as [s' out] eqn:Hs.
  assert (out = [] /\ e_exhausted <$> exits s' !! n_id (node 6000) = Some true) as [Ho He].
  { assert (registered.2 = [] /\ e_exhausted <$> exits registered.1 !! n_id (node 6000) = Some true) as Hv by (split; vm_compute; reflexivity).
    by rewrite Hs in Hv. }
  destruct (registered_as_declared full_cfg (at_ 0 "") 0 (quota_file 6000) Hour true (node 6000) "9.9.9.1:443" "SE" "1.1.0" "" 0
    (issue_for Admission.Demo.operator_key (n_id (node 6000)) RoleExit) CoordState.CoordDemo.state0 m exit_src s' out Hin (eq_sym Hr))
    as [(? & Hx & _)|(_ & _ & [(e & _ & Hs' & _ & Hsp)|(r & Hx & _)])].
  - by rewrite Ho in Hx.
  - exists e. cbn [fst]. assert (exits s' !! n_id (node 6000) = Some e) as Hl by (rewrite Hs'; cbn [set_exits exits]; by rewrite lookup_insert_eq).
    split; [exact Hl|]. rewrite Hl in He. split; [by injection He|]. apply Hsp. by vm_compute.
  - exfalso. revert Hx. vm_compute. discriminate.
Defined.

Example build_revisions :
  renderBuildRevision [("vcs", "git"); ("vcs.revision", "0123456789abcdef"); ("vcs.modified", "true")] = "0123456789ab-dirty" /\
  renderBuildRevision [("vcs.modified", "true")] = "" /\ renderBuildRevision [("vcs.revision", "0123")] = "0123".
Proof. by vm_compute. Qed.
