(* ===== verification/Reality.v ===== *)
(** * The reality transport: [core/reality_clienthello.go], [reality_auth.go], [transport_reality.go]

    How an exit that listens as an ordinary TLS server tells its clients from everyone
    else: the ClientHello it reads off the wire, the sealed session id that
    authenticates it, the guard against replays, the inner handshake, and what becomes of
    a connection in each case; with the limits of [transport_reality_meter.go] on the
    connections handed on to the impersonated site. The bounds-checked reader
    ([cryptobyte]), X25519, AES-GCM, TLS and the token bucket are libraries: they are
    classes and parameters, with what they document as laws. *)

From S2P Require Import Prelude GoStrings Base64 Hashes Net.
Local Open Scope Z_scope.

(** ** The ClientHello *)

(** [cryptobyte.String]: an integer of [n] bytes, [n] bytes, and bytes behind their length
    in [n] bytes; each with the rest of the string. *)
Class Cryptobyte := {
  ReadUint : nat -> bytes -> option (Z * bytes);
  ReadBytes : nat -> bytes -> option (bytes * bytes);
  ReadPrefixed : nat -> bytes -> option (bytes * bytes);
}.
Definition fits (n : nat) (b : bytes) : Prop := Z.of_nat (List.length b) < 256 ^ Z.of_nat n.
Definition prefixed (n : nat) (b : bytes) : bytes := be_bytes n (Z.of_nat (List.length b)) ++ b.
Class CryptobyteLaws `{Cryptobyte} := {
  ReadUint_spec n s v r : ReadUint n s = Some (v, r) <-> s = be_bytes n v ++ r /\ 0 <= v < 256 ^ Z.of_nat n;
  ReadBytes_spec n s b r : ReadBytes n s = Some (b, r) <-> s = b ++ r /\ List.length b = n;
  ReadPrefixed_spec n s b r : ReadPrefixed n s = Some (b, r) <-> s = prefixed n b ++ r /\ fits n b;
}.

Definition tlsRecordHandshake : Z := 22.
Definition tlsMsgClientHello : Z := 1.
Definition tlsExtKeyShare : Z := 0x0033.
Definition tlsGroupX25519 : Z := 29.
Definition tlsMaxRecordLen : Z := 16384.

Record realityClientHello := MkHello { random : bytes; sessionID : bytes; x25519 : option bytes }.

Section Hello.
Context `{Cryptobyte}.

(** A loop that reads a 16-bit number and the bytes behind a 16-bit length until the string
    is empty; [step] is its body. Each round takes at least a byte. *)
Fixpoint each {A} (step : Z -> bytes -> A -> option A) (fuel : nat) (s : bytes) (a : A) : option A :=
  match s with
  | [] => Some a
  | _ => match fuel with
         | O => None
         | S fuel => '(t, s) ← ReadUint 2 s; '(d, s) ← ReadPrefixed 2 s; a ← step t d a; each step fuel s a
         end
  end.

Definition take_share (group : Z) (ke : bytes) (h : option bytes) : option (option bytes) :=
  Some (if (group =? tlsGroupX25519) && (List.length ke =? 32)%nat then Some ke else h).
Definition take_ext (extType : Z) (extData : bytes) (h : option bytes) : option (option bytes) :=
  if negb (extType =? tlsExtKeyShare) then Some h
  else '(shares, _) ← ReadPrefixed 2 extData; each take_share (List.length shares) shares h.

Definition parseClientHello (body : bytes) : option realityClientHello :=
  '(msgType, s) ← ReadUint 1 body;
  if negb (msgType =? tlsMsgClientHello) then None else
  '(hs, _) ← ReadPrefixed 3 s;
  '(_, hs) ← ReadUint 2 hs;
  '(random, hs) ← ReadBytes 32 hs;
  '(session, hs) ← ReadPrefixed 1 hs;
  '(_, hs) ← ReadPrefixed 2 hs;
  '(_, hs) ← ReadPrefixed 1 hs;
  if bool_decide (hs = []) then Some (MkHello random session None)
  else
    '(exts, _) ← ReadPrefixed 2 hs;
    share ← each take_ext (List.length exts) exts None;
    Some (MkHello random session share).

(** [io.ReadFull] of a connection that has these bytes to give and then ends or times out:
    what was read, whether it was all, and the bytes after it. *)
Definition ReadFull (n : nat) (c : bytes) : bytes * bool * bytes :=
  (firstn n c, (n <=? List.length c)%nat, skipn n c).

(** [peekClientHello]: the bytes it consumed, the ClientHello if they hold one, and the
    bytes that are left. *)
Definition peekClientHello (c : bytes) : bytes * option realityClientHello * bytes :=
  let '(hdr, ok, c) := ReadFull 5 c in
  if negb ok then (hdr, None, c)
  else if negb (be_value (firstn 1 hdr) =? tlsRecordHandshake) then (hdr, None, c)
  else
    let recLen := be_value (firstn 2 (skipn 3 hdr)) in
    if (recLen <? 4) || (tlsMaxRecordLen <? recLen) then (hdr, None, c)
    else
      let '(body, ok, c) := ReadFull (Z.to_nat recLen) c in
      if negb ok then (hdr ++ body, None, c) else (hdr ++ body, parseClientHello body, c).
End Hello.

(** ** What a ClientHello is *)

Definition item (x : Z * bytes) : bytes := be_bytes 2 x.1 ++ prefixed 2 x.2.
Definition item_ok (x : Z * bytes) : Prop := 0 <= x.1 < 65536 /\ fits 2 x.2.
Definition items (l : list (Z * bytes)) : bytes := List.concat (item <$> l).

(** The last X25519 key of 32 bytes among the shares. *)
Definition last_share (h : option bytes) (l : list (Z * bytes)) : option bytes :=
  foldl (fun h x => if (x.1 =? tlsGroupX25519) && (List.length x.2 =? 32)%nat then Some x.2 else h) h l.

(** The key shares of a list of extensions: a key_share extension holds a list of them, and
    whatever follows it is ignored. *)
Inductive shares_of : list (Z * bytes) -> list (Z * bytes) -> Prop :=
| shares_nil : shares_of [] []
| shares_other t d es l : t <> tlsExtKeyShare -> shares_of es l -> shares_of ((t, d) :: es) l
| shares_key ss junk es l : Forall item_ok ss -> fits 2 (items ss) -> shares_of es l ->
    shares_of ((tlsExtKeyShare, prefixed 2 (items ss) ++ junk) :: es) (ss ++ l).

(** A ClientHello body and what is in it. *)
Inductive hello_body : bytes -> realityClientHello -> Prop :=
| hello_body_intro ver rnd sid suites compr tail share junk :
    0 <= ver < 65536 -> List.length rnd = 32%nat -> fits 1 sid -> fits 2 suites -> fits 1 compr ->
    hello_tail tail share ->
    let hs := be_bytes 2 ver ++ rnd ++ prefixed 1 sid ++ prefixed 2 suites ++ prefixed 1 compr ++ tail in
    fits 3 hs ->
    hello_body (be_bytes 1 tlsMsgClientHello ++ prefixed 3 hs ++ junk) (MkHello rnd sid share)
with hello_tail : bytes -> option bytes -> Prop :=
| no_extensions : hello_tail [] None
| extensions es ss junk : Forall item_ok es -> fits 2 (items es) -> shares_of es ss ->
    hello_tail (prefixed 2 (items es) ++ junk) (last_share None ss).

(** ** Authentication *)

(** X25519: private keys, their public halves, and the shared secret; [None] where
    [NewPublicKey] or [ECDH] refuses the bytes. *)
Class ECDH := {
  DHKey : Type;
  PublicBytes : DHKey -> bytes;
  DH : DHKey -> bytes -> option bytes;
}.
Class ECDHLaws `{ECDH} := {
  DH_shared a b : DH a (PublicBytes b) = DH b (PublicBytes a);
  PublicBytes_length a : List.length (PublicBytes a) = 32%nat;
}.

(** AES-256-GCM: key, nonce, text and additional data. *)
Class GCM := {
  Seal : bytes -> bytes -> bytes -> bytes -> bytes;
  Open : bytes -> bytes -> bytes -> bytes -> option bytes;
}.
Class GCMLaws `{GCM} := {
  Open_Seal k n p a : Open k n (Seal k n p a) a = Some p;
  Seal_length k n p a : List.length (Seal k n p a) = (List.length p + 16)%nat;
}.

(** [crypto/hmac] and [crypto/hkdf] with SHA-256; at most one block of output. *)
Definition hmac_sha256 (key msg : bytes) : bytes :=
  let k := if (64 <? List.length key)%nat then SHA256.sum key else key in
  let k := k ++ repeat Ascii.zero (64 - List.length k) in
  SHA256.sum ((xor_byte (byte_of 0x5c) <$> k) ++ SHA256.sum ((xor_byte (byte_of 0x36) <$> k) ++ msg)).
Definition hkdf_Key (secret salt : bytes) (info : string) (keyLength : nat) : bytes :=
  firstn keyLength (hmac_sha256 (hmac_sha256 salt secret) (bytes_of info ++ [byte_of 1])).

Definition realitySessionIDLen : nat := 32.
Definition realityAuthPlainLen : nat := 16.
Definition realityAuthWindow : Duration := 90 * Second.
Definition realityAuthInfoKey : string := "bacchus-reality-v1 sid-key".
Definition realityAuthInfoNonce : string := "bacchus-reality-v1 sid-nonce".

(** [time.Unix] and [Time.Unix]. *)
Definition Unix (t : Time) : Z := t / Second.
Definition of_Unix (sec : Z) : Time := sec * Second.

Section Auth.
Context `{GCM}.

(** [realityAuthGCM]: the key and the nonce. *)
Definition realityAuthGCM (secret random : bytes) : bytes * bytes :=
  (hkdf_Key secret random realityAuthInfoKey 32, hkdf_Key secret random realityAuthInfoNonce 12).

Definition realitySealSessionID (secret random : bytes) (now : Time) : bytes :=
  let '(key, nonce) := realityAuthGCM secret random in
  let pt := be_bytes 8 (Unix now) ++ repeat Ascii.zero (realityAuthPlainLen - 8) in
  Seal key nonce pt random.

Definition realityOpenSessionID (secret random sessionID : bytes) : option Time :=
  if negb (List.length sessionID =? realitySessionIDLen)%nat then None
  else
    let '(key, nonce) := realityAuthGCM secret random in
    pt ← Open key nonce sessionID random;
    Some (of_Unix (wrapi64 (be_value (firstn 8 pt)))).
End Auth.

(** [realityReplayGuard]: the sealed session ids, and when each was first seen. *)
Record realityReplayGuard := MkGuard { seen : gmap string Time }.
Definition newRealityReplayGuard : realityReplayGuard := MkGuard ∅.

Definition admit_ (g : realityReplayGuard) (sessionID : bytes) (ts now : Time) : bool * realityReplayGuard :=
  let d := time_Sub now ts in
  if (realityAuthWindow <? d) || (d <? - realityAuthWindow) then (false, g)
  else
    let kept := filter (fun kv => negb (realityAuthWindow <? time_Sub now kv.2)) (seen g) in
    match kept !! string_of sessionID with
    | Some _ => (false, MkGuard kept)
    | None => (true, MkGuard (<[string_of sessionID := now]> kept))
    end.

(** Attempts: a session id, the time sealed in it, and when it arrives. *)
Fixpoint admits (g : realityReplayGuard) (l : list (bytes * Time * Time)) : list bool * realityReplayGuard :=
  match l with
  | [] => ([], g)
  | (sid, ts, now) :: l =>
      let '(ok, g) := admit_ g sid ts now in
      let '(oks, g) := admits g l in (ok :: oks, g)
  end.

(** ** The inner handshake *)

Definition realityMagic : string := "BKR1".
Definition realityTokenLen : nat := 16.
Definition realityAckOK : Z := 1.

Definition writeInnerHandshake (token : bytes) (label : string) : option bytes :=
  if (0xffff <? Z.of_nat (String.length label)) then None
  else Some (bytes_of realityMagic ++ token ++ be_bytes 2 (Z.of_nat (String.length label)) ++ bytes_of label).

(** What was read of the decrypted stream, and the token and the label if they came whole. *)
Definition readInnerHandshake (c : bytes) : bytes * option (string * string) :=
  let '(hdr, ok, c) := ReadFull (String.length realityMagic + realityTokenLen + 2) c in
  if negb ok then (hdr, None)
  else if negb (bool_decide (firstn (String.length realityMagic) hdr = bytes_of realityMagic)) then (hdr, None)
  else
    let tok := firstn realityTokenLen (skipn (String.length realityMagic) hdr) in
    let llen := be_value (skipn (String.length realityMagic + realityTokenLen) hdr) in
    let '(lb, ok, _) := ReadFull (Z.to_nat llen) c in
    (hdr ++ lb, if ok then Some (hex_EncodeToString tok, string_of lb) else None).

(** ** Connections handed on to the impersonated site *)

(** [rate.Limiter]: made full, asked for one token at a time. *)
Class TokenBucket := {
  Limiter : Type;
  NewLimiter : Limiter;
  AllowN : Limiter -> Time -> bool * Limiter;
}.

Definition spliceMaxConcurrent : Z := 512.
Definition spliceGateSweep : Duration := 1 * Minute.
Definition spliceGateIdle : Duration := 10 * Minute.

Record ipBucket `{TokenBucket} := MkBucket { lim : Limiter; b_seen : Time }.
Arguments MkBucket {_}.
Record spliceGate `{TokenBucket} := MkGate {
  maxConcurrent : Z; perIP : gmap string ipBucket; concurrent : Z; lastSweep : Time;
}.
Arguments MkGate {_}.

Section Gate.
Context `{TokenBucket}.

Definition newSpliceGate : spliceGate := MkGate spliceMaxConcurrent ∅ 0 time_zero.

Definition sweep (now : Time) (g : spliceGate) : spliceGate :=
  if time_Sub now (lastSweep g) <? spliceGateSweep then g
  else MkGate (maxConcurrent g) (filter (fun kv => negb (spliceGateIdle <? time_Sub now (b_seen kv.2))) (perIP g)) (concurrent g) now.

Definition gate_admit (ip : string) (now : Time) (g : spliceGate) : bool * spliceGate :=
  let g := sweep now g in
  if maxConcurrent g <=? concurrent g then (false, g)
  else
    let l := match perIP g !! ip with Some b => lim b | None => NewLimiter end in
    let '(ok, l) := AllowN l now in
    (ok, MkGate (maxConcurrent g) (<[ip := MkBucket l now]> (perIP g)) (if ok then concurrent g + 1 else concurrent g) (lastSweep g)).

(** The function [admit] returns; it counts once. *)
Definition release (g : spliceGate) : spliceGate :=
  MkGate (maxConcurrent g) (perIP g) (concurrent g - 1) (lastSweep g).

(** [admitSplice]: without declared limits there is no gate; [exhausted] is what the quota
    says. A connection that is let through holds a place of the gate until it is done. *)
Definition admitSplice (gate : option spliceGate) (exhausted : bool) (ip : string) (now : Time) : bool * option spliceGate :=
  match gate with
  | None => (true, None)
  | Some g => if exhausted then (false, Some g) else let '(ok, g) := gate_admit ip now g in (ok, Some g)
  end.
End Gate.

(** ** A connection *)

Definition realityProbeOff : string := "off".
Definition defaultRealitySNI : string := "www.microsoft.com".
Definition defaultRealityListen : string := ":443".
Definition ctrlLabel : string := "control".

Record realityConfig := MkConfig {
  RealitySNI : string; RealityListen : string; RealityAdvertise : string; Advertise : string; RealityProbeOrigin : string;
}.
Record realityAnswer := MkAnswer { ra_Addr : string; ra_Token : string; ra_SNI : string; ra_Pub : string }.

(** The transport under its lock: [pending] are the sessions that wait for their
    connections, by token. *)
Record realityTransport `{ECDH} `{TokenBucket} := MkTransport {
  sni : string; listenAddr : string; advertise : string; probeOrigin : string; realityKey : DHKey;
  replay : realityReplayGuard; splice : option spliceGate; pending : gmap string nat;
}.
Arguments MkTransport {_ _}.

(** What a peer does: the bytes it sends, its address; and what the libraries and the site
    make of it: [tls] decrypts the stream it is given, if the handshake succeeds. *)
Record Inbound := MkInbound {
  in_bytes : bytes; in_ip : string; tls : bytes -> option bytes;
  ack_written : bool; origin_up : bool; origin_takes : bool;
}.

(** What becomes of it: closed at once; drained in silence, having been let through by the
    gate or not; handed on to the site after these bytes of it, raw or decrypted; closed
    because the site or the peer was lost; or taken into a session. *)
Inductive Outcome :=
| Rejected | Drained (let_through : bool) | Spliced (replayed : bytes) | Bridged (replayed : bytes) | Lost
| Attached (s : nat) (label : string).

Section Transport.
Context `{Cryptobyte} `{ECDH} `{GCM} `{TokenBucket}.

Definition newRealityTransport (cfg : realityConfig) (key : DHKey) (gate : option spliceGate) : realityTransport :=
  let sni := if String.eqb (RealitySNI cfg) "" then defaultRealitySNI else RealitySNI cfg in
  let listen := if String.eqb (RealityListen cfg) "" then defaultRealityListen else RealityListen cfg in
  let adv := if String.eqb (RealityAdvertise cfg) "" then Advertise cfg else RealityAdvertise cfg in
  let origin := if String.eqb (RealityProbeOrigin cfg) "" then string_of (JoinHostPort (bytes_of sni) (bytes_of "443"))
                else if String.eqb (RealityProbeOrigin cfg) realityProbeOff then "" else RealityProbeOrigin cfg in
  MkTransport sni listen adv origin key newRealityReplayGuard gate ∅.

Definition set_replay (g : realityReplayGuard) (t : realityTransport) : realityTransport :=
  MkTransport (sni t) (listenAddr t) (advertise t) (probeOrigin t) (realityKey t) g (splice t) (pending t).
Definition set_splice (g : option spliceGate) (t : realityTransport) : realityTransport :=
  MkTransport (sni t) (listenAddr t) (advertise t) (probeOrigin t) (realityKey t) (replay t) g (pending t).

Definition authenticated (t : realityTransport) (hello : realityClientHello) (now : Time) : bool * realityTransport :=
  match x25519 hello with
  | None => (false, t)
  | Some share =>
      if negb (List.length (sessionID hello) =? realitySessionIDLen)%nat then (false, t)
      else
        match (secret ← DH (realityKey t) share; realityOpenSessionID secret (random hello) (sessionID hello)) with
        | None => (false, t)
        | Some ts => let '(ok, g) := admit_ (replay t) (sessionID hello) ts now in (ok, set_replay g t)
        end
  end.

(** [onUnauthenticated] and [onProbe]: [made] is how the connection is handed on. *)
Definition hand_on (t : realityTransport) (c : Inbound) (exhausted : bool) (made : Outcome) (now : Time) : Outcome * realityTransport :=
  if String.eqb (probeOrigin t) "" then (Rejected, t)
  else
    let '(ok, gate) := admitSplice (splice t) exhausted (in_ip c) now in
    let t := set_splice gate t in
    if negb ok then (Drained false, t)
    else if negb (origin_up c) then (Drained true, t)
    else if negb (origin_takes c) then (Lost, set_splice (release <$> splice t) t)
    else (made, t).

(** [serveInbound], up to where the copying or the draining begins: a connection that was
    let through holds its place of the gate until that ends ([ended]). *)
Definition serveInbound (t : realityTransport) (c : Inbound) (exhausted : bool) (now : Time) : Outcome * realityTransport :=
  let '(peeked, hello, rest) := peekClientHello (in_bytes c) in
  let '(ok, t) := match hello with Some hello => authenticated t hello now | None => (false, t) end in
  if negb ok then hand_on t c exhausted (Spliced peeked) now
  else
    match tls c (peeked ++ rest) with
    | None => (Rejected, t)
    | Some inner =>
        let '(consumed, hs) := readInnerHandshake inner in
        match hs with
        | None => hand_on t c exhausted (Bridged consumed) now
        | Some (tok, label) =>
            match pending t !! tok with
            | None => hand_on t c exhausted (Bridged consumed) now
            | Some s => if ack_written c then (Attached s label, t) else (Lost, t)
            end
        end
    end.

(** The deferred [release], when the connection has ended. *)
Definition ended (o : Outcome) (t : realityTransport) : realityTransport :=
  match o with
  | Spliced _ | Bridged _ | Drained true => set_splice (release <$> splice t) t
  | _ => t
  end.

(** The client: [dialInner] up to the dial, and what it writes: the session id of its
    ClientHello and, once TLS is up, the inner handshake. *)
Inductive DialError := MalformedToken | NoAddress | NoExitKey | NoSecret | LabelTooLong.
Definition dialInner (ans : realityAnswer) (label : string) (ephemeral : DHKey) (random : bytes) (now : Time)
    : result DialError (bytes * bytes) :=
  let? tok := of_option MalformedToken (hex_DecodeString (ra_Token ans)) in
  check! fail_if (negb (List.length tok =? realityTokenLen)%nat) MalformedToken;
  check! fail_if (String.eqb (ra_Addr ans) "") NoAddress;
  let? exitPub := of_option NoExitKey (hex_DecodeString (ra_Pub ans)) in
  check! fail_if (negb (List.length exitPub =? 32)%nat) NoExitKey;
  let? secret := of_option NoSecret (DH ephemeral exitPub) in
  let? inner := of_option LabelTooLong (writeInnerHandshake tok label) in
  Ok (realitySealSessionID secret random now, inner).

(** [answer]: what the exit tells the client, over the coordinator; [bound] is the address
    its listener got. *)
Definition answer_of (t : realityTransport) (bound : string) (token : bytes) : realityAnswer :=
  MkAnswer (if String.eqb (advertise t) "" then bound else advertise t) (hex_EncodeToString token) (sni t)
    (hex_EncodeToString (PublicBytes (realityKey t))).
End Transport.

Fixpoint over_items {A} (step : Z -> bytes -> A -> option A) (l : list (Z * bytes)) (a : A) : option A :=
  match l with [] => Some a | x :: l => a ← step x.1 x.2 a; over_items step l a end.

Lemma length_prefixed n b : List.length (prefixed n b) = (n + List.length b)%nat.
Proof. unfold prefixed. by rewrite length_app, be_bytes_length. Qed.
Lemma length_item x : List.length (item x) = (4 + List.length x.2)%nat.
Proof. unfold item. rewrite length_app, be_bytes_length, length_prefixed. lia. Qed.
Lemma items_cons x l : items (x :: l) = item x ++ items l.
Proof. done. Qed.
Lemma items_app l k : items (l ++ k) = items l ++ items k.
Proof. unfold items. by rewrite fmap_app, List.concat_app. Qed.

Section Parsing.
Context `{CryptobyteLaws}.

Lemma read_uint n v r : 0 <= v < 256 ^ Z.of_nat n -> ReadUint n (be_bytes n v ++ r) = Some (v, r).
Proof. intros Hv. by apply ReadUint_spec. Qed.
Lemma read_prefixed n b r : fits n b -> ReadPrefixed n (prefixed n b ++ r) = Some (b, r).
Proof. intros Hb. by apply ReadPrefixed_spec. Qed.

Lemma read_item s t d r :
  (exists s1, ReadUint 2 s = Some (t, s1) /\ ReadPrefixed 2 s1 = Some (d, r)) <-> s = item (t, d) ++ r /\ item_ok (t, d).
Proof.
  unfold item, item_ok. cbn [fst snd]. split.
  - intros (s1 & [-> Ht]%ReadUint_spec & [-> Hd]%ReadPrefixed_spec). by rewrite app_assoc.
  - intros [-> [Ht Hd]]. exists (prefixed 2 d ++ r). split; [apply ReadUint_spec|by apply ReadPrefixed_spec]. by rewrite app_assoc.
Qed.

Lemma each_spec {A} (step : Z -> bytes -> A -> option A) fuel s a b :
  (List.length s <= fuel)%nat ->
  each step fuel s a = Some b <-> exists l, s = items l /\ Forall item_ok l /\ over_items step l a = Some b.
Proof.
  revert s a. induction fuel as [|fuel IH]; intros [|c s] a Hl; cbn [each]; cbn [List.length] in Hl; try lia.
  1,2: split; [intros [= <-]; by exists []|]. 1,2: intros ([|[t d] l] & Hs & _ & Ho); [by injection Ho as ->|by rewrite items_cons in Hs].
  set (cs := c :: s) in *. split.
  - intros Hr. destruct (ReadUint 2 cs) as [[t s1]|] eqn:H1; cbn in Hr; [|done]. destruct (ReadPrefixed 2 s1) as [[d s2]|] eqn:H2; cbn in Hr; [|done].
    destruct (step t d a) as [a'|] eqn:Hst; cbn in Hr; [|done].
    destruct (proj1 (read_item cs t d s2) (ex_intro _ s1 (conj H1 H2))) as [Hs Hi].
    assert (List.length s2 <= fuel)%nat as Hl2.
    { apply (f_equal List.length) in Hs. rewrite length_app, length_item in Hs. unfold cs in Hs. cbn in Hs. lia. }
    apply (IH s2 a' Hl2) in Hr as (l & -> & Hl' & Ho). exists ((t, d) :: l). split; [done|]. split; [by constructor|]. cbn. by rewrite Hst.
  - intros ([|[t d] l] & Hs & Hf & Ho); [by cbn in Hs|]. apply Forall_cons in Hf as [Hi Hf]. rewrite items_cons in Hs.
    destruct (proj2 (read_item cs t d (items l)) (conj Hs Hi)) as (s1 & -> & Hr). cbn. rewrite Hr. cbn. cbn in Ho.
    destruct (step t d a) as [a'|]; cbn in Ho |- *; [|done]. apply IH; [|by exists l].
    apply (f_equal List.length) in Hs. rewrite length_app, length_item in Hs. unfold cs in Hs. cbn in Hs. lia.
Qed.

Lemma take_shares ss h : over_items take_share ss h = Some (last_share h ss).
Proof. revert h. induction ss as [|x ss IH]; intros h; [done|]. cbn [over_items]. unfold take_share at 1. cbn. by rewrite IH. Qed.

Lemma take_ext_spec t d h h' :
  take_ext t d h = Some h' <->
  (t <> tlsExtKeyShare /\ h' = h) \/
  (t = tlsExtKeyShare /\ exists ss junk, d = prefixed 2 (items ss) ++ junk /\ fits 2 (items ss) /\ Forall item_ok ss /\ h' = last_share h ss).
Proof.
  unfold take_ext. destruct (Z.eqb_spec t tlsExtKeyShare) as [->|Hne]; cbn [negb]; [|naive_solver].
  split.
  - intros Hr. right. split; [done|]. destruct (ReadPrefixed 2 d) as [[sh junk]|] eqn:Hp; cbn in Hr; [|done].
    apply ReadPrefixed_spec in Hp as [-> Hf]. apply each_spec in Hr as (ss & -> & Ho & Hx); [|done].
    rewrite take_shares in Hx. injection Hx as <-. by exists ss, junk.
  - intros [[? _]|[_ (ss & junk & -> & Hf & Ho & ->)]]; [done|].
    assert (ReadPrefixed 2 (prefixed 2 (items ss) ++ junk) = Some (items ss, junk)) as -> by by apply ReadPrefixed_spec.
    cbn. apply each_spec; [done|]. exists ss. by rewrite take_shares.
Qed.

Lemma last_share_app h l k : last_share h (l ++ k) = last_share (last_share h l) k.
Proof. unfold last_share. by rewrite foldl_app. Qed.

Lemma take_exts es h h' :
  over_items take_ext es h = Some h' <-> exists ss, shares_of es ss /\ h' = last_share h ss.
Proof.
  revert h. induction es as [|[t d] es IH]; intros h; cbn [over_items fst snd].
  - split; [intros [= <-]; exists []; by split; [constructor|]|]. intros (ss & Hs & ->). by inversion Hs.
  - split.
    + intros Hr. destruct (take_ext t d h) as [h1|] eqn:He; cbn in Hr; [|done]. apply IH in Hr as (ss & Hs & ->).
      apply take_ext_spec in He as [[Hne ->]|[-> (s1 & junk & -> & Hf & Ho & ->)]].
      * exists ss. split; [by constructor|done].
      * exists (s1 ++ ss). split; [by constructor|by rewrite last_share_app].
    + intros (ss & Hs & ->). inversion Hs as [|? ? ? ? Hne Hs'|s1 junk ? l Ho Hf Hs']; subst.
      * assert (take_ext t d h = Some h) as -> by (apply take_ext_spec; by left). cbn. apply IH. by exists ss.
      * match goal with |- context [take_ext ?t ?d h] => assert (take_ext t d h = Some (last_share h s1)) as -> end.
        { apply take_ext_spec. right. split; [done|]. by exists s1, junk. }
        cbn. apply IH. exists l. by rewrite last_share_app.
Qed.

Lemma parse_exact body h : parseClientHello body = Some h <-> hello_body body h.
Proof.
  split.
  - unfold parseClientHello. intros Hp.
    destruct (ReadUint 1 body) as [[mt s]|] eqn:H1; cbn in Hp; [|done]. apply ReadUint_spec in H1 as [-> _].
    destruct (Z.eqb_spec mt tlsMsgClientHello) as [->|]; cbn [negb] in Hp; [|done].
    destruct (ReadPrefixed 3 s) as [[hs junk]|] eqn:H2; cbn in Hp; [|done]. apply ReadPrefixed_spec in H2 as [-> Hhs].
    destruct (ReadUint 2 hs) as [[ver h1]|] eqn:H3; cbn in Hp; [|done]. apply ReadUint_spec in H3 as [-> Hver].
    destruct (ReadBytes 32 h1) as [[rnd h2]|] eqn:H4; cbn in Hp; [|done]. apply ReadBytes_spec in H4 as [-> Hrnd].
    destruct (ReadPrefixed 1 h2) as [[sid h3]|] eqn:H5; cbn in Hp; [|done]. apply ReadPrefixed_spec in H5 as [-> Hsid].
    destruct (ReadPrefixed 2 h3) as [[su h4]|] eqn:H6; cbn in Hp; [|done]. apply ReadPrefixed_spec in H6 as [-> Hsu].
    destruct (ReadPrefixed 1 h4) as [[co tail]|] eqn:H7; cbn in Hp; [|done]. apply ReadPrefixed_spec in H7 as [-> Hco].
    case_bool_decide as Ht.
    + injection Hp as <-. subst tail. by apply hello_body_intro; try done; constructor.
    + destruct (ReadPrefixed 2 tail) as [[exts j2]|] eqn:H8; cbn in Hp; [|done]. apply ReadPrefixed_spec in H8 as [-> Hex].
      destruct (each take_ext (List.length exts) exts None) as [share|] eqn:H9; cbn in Hp; [|done]. injection Hp as <-.
      apply each_spec in H9 as (es & -> & Hok & (ss & Hss & ->)%take_exts); [|done].
      apply hello_body_intro; try done. by apply extensions.
  - intros Hb. destruct Hb as [ver rnd sid su co tail share junk Hver Hrnd Hsid Hsu Hco Htail hs Hhs].
    unfold parseClientHello.
    rewrite read_uint by (unfold tlsMsgClientHello; lia). cbn [mbind option_bind].
    replace (negb (tlsMsgClientHello =? tlsMsgClientHello)) with false by done.
    rewrite read_prefixed by done. cbn [mbind option_bind]. unfold hs.
    rewrite read_uint by done. cbn [mbind option_bind].
    assert (forall r, ReadBytes 32 (rnd ++ r) = Some (rnd, r)) as -> by (intros r; by apply ReadBytes_spec). cbn [mbind option_bind].
    rewrite !read_prefixed by done. cbn [mbind option_bind].
    rewrite read_prefixed by done. cbn [mbind option_bind]. rewrite read_prefixed by done. cbn [mbind option_bind].
    destruct Htail as [|es ss j2 Hok Hf Hss]; [done|].
    rewrite bool_decide_false by by (destruct (prefixed 2 (items es)) eqn:He; [apply (f_equal List.length) in He; by rewrite length_prefixed in He|]).
    rewrite read_prefixed by done. cbn [mbind option_bind].
    assert (each take_ext (List.length (items es)) (items es) None = Some (last_share None ss)) as ->; [|done].
    apply each_spec; [done|]. exists es. split; [done|]. split; [done|]. apply take_exts. by exists ss.
Qed.

(** C27: The parser accepts exactly the ClientHello bodies, and reads what is in them: the
    random, the session id, and the last X25519 key of 32 bytes that any key_share extension
    offers; whatever the bytes, it ends. *)
Theorem parseClientHello_exact body h : parseClientHello body = Some h <-> hello_body body h.
Proof. apply parse_exact. Qed.
End Parsing.

(** ** The seal and the guard *)

Lemma seal_opens `{GCMLaws} secret random now :
  - 2 ^ 63 <= Unix now < 2 ^ 63 ->
  realityOpenSessionID secret random (realitySealSessionID secret random now) = Some (of_Unix (Unix now)) /\
  List.length (realitySealSessionID secret random now) = realitySessionIDLen.
Proof.
  intros Hu. unfold realityOpenSessionID, realitySealSessionID, realityAuthGCM.
  assert (forall k n, List.length (Seal k n (be_bytes 8 (Unix now) ++ repeat Ascii.zero (realityAuthPlainLen - 8)) random) = realitySessionIDLen) as Hl.
  { intros k n. by rewrite Seal_length, length_app, be_bytes_length. }
  rewrite Hl. cbn [Nat.eqb negb realitySessionIDLen]. rewrite Open_Seal. cbn [mbind option_bind]. split; [|done].
  rewrite firstn_app, be_bytes_length, Nat.sub_diag, firstn_O, app_nil_r, firstn_all2 by (by rewrite be_bytes_length).
  rewrite be_value_bytes. do 2 f_equal. unfold wrapi64. change (256 ^ Z.of_nat 8) with (2 ^ 64).
  change 18446744073709551616 with (2 ^ 64). change 9223372036854775808 with (2 ^ 63).
  rewrite Zplus_mod_idemp_l, Z.mod_small; lia.
Qed.

Section Guard.
Implicit Types (g : realityReplayGuard) (sid : bytes).

Lemma window_gt a b : (realityAuthWindow <? time_Sub a b) = (realityAuthWindow <? a - b).
Proof. apply time_Sub_gt; by vm_compute. Qed.

Lemma fresh_spec ts now :
  (realityAuthWindow <? time_Sub now ts) || (time_Sub now ts <? - realityAuthWindow) = false <->
  ts - realityAuthWindow <= now <= ts + realityAuthWindow.
Proof.
  rewrite orb_false_iff, !Z.ltb_ge. unfold time_Sub, realityAuthWindow, Second, i64min, i64max. lia.
Qed.

Lemma admit_kept g sid t sid' ts now :
  seen g !! string_of sid = Some t -> now <= t + realityAuthWindow ->
  seen (admit_ g sid' ts now).2 !! string_of sid = Some t /\ (sid' = sid -> (admit_ g sid' ts now).1 = false).
Proof.
  intros Hg Hn. unfold admit_. cbv zeta. destruct (_ || _); [done|]. set (kept := filter _ _).
  assert (kept !! string_of sid = Some t) as Hf.
  { apply map_lookup_filter_Some. split; [done|]. cbn. apply Is_true_true. rewrite window_gt, negb_true_iff, Z.ltb_ge. lia. }
  destruct (decide (sid' = sid)) as [->|Hne]; [by rewrite Hf|]. split; [|done].
  destruct (kept !! string_of sid'); [done|]. cbn. rewrite lookup_insert_ne; [done|].
  intros Heq%(f_equal bytes_of). by rewrite !bytes_of_string_of in Heq.
Qed.

Lemma admit_true g sid ts now :
  (admit_ g sid ts now).1 = true ->
  ts - realityAuthWindow <= now <= ts + realityAuthWindow /\ seen (admit_ g sid ts now).2 !! string_of sid = Some now.
Proof.
  unfold admit_. cbv zeta. destruct (_ || _) eqn:Hf; [done|]. apply fresh_spec in Hf.
  destruct (_ !! _); [done|]. cbn. by rewrite lookup_insert_eq.
Qed.

(** A session id that is taken was not taken within the last window; it is remembered from
    now on, beside exactly the others that were. *)
Lemma admit_taken g sid ts now :
  (admit_ g sid ts now).1 = true ->
  (forall t0, seen g !! string_of sid = Some t0 -> t0 + realityAuthWindow < now) /\
  forall k t0, seen (admit_ g sid ts now).2 !! k = Some t0 <->
    if decide (k = string_of sid) then t0 = now else seen g !! k = Some t0 /\ now <= t0 + realityAuthWindow.
Proof.
  unfold admit_. cbv zeta. destruct (_ || _); [done|]. set (kept := filter _ _).
  assert (forall k t0, kept !! k = Some t0 <-> seen g !! k = Some t0 /\ now <= t0 + realityAuthWindow) as Hkept.
  { intros k t0. unfold kept. rewrite map_lookup_filter_Some. cbn. rewrite Is_true_true, window_gt, negb_true_iff, Z.ltb_ge.
    split; intros [? ?]; split; (done || lia). }
  destruct (kept !! string_of sid) as [x|] eqn:Hx; [done|]. cbn. intros _. split.
  - intros t0 Ht0. destruct (Z.le_gt_cases now (t0 + realityAuthWindow)) as [Hle|]; [|lia].
    assert (kept !! string_of sid = Some t0) by by apply Hkept. congruence.
  - intros k t0. destruct (decide (k = string_of sid)) as [->|Hne]; [rewrite lookup_insert_eq|by rewrite lookup_insert_ne].
    split; [by intros [= <-]|by intros ->].
Qed.

Lemma admit_fresh g sid ts now :
  seen g !! string_of sid = None -> ts - realityAuthWindow <= now <= ts + realityAuthWindow -> (admit_ g sid ts now).1 = true.
Proof.
  intros Hn Hf%fresh_spec. unfold admit_. cbv zeta. rewrite Hf.
  assert (forall m : gmap string Time, m ⊆ seen g -> m !! string_of sid = None) as Hsub.
  { intros m Hm. destruct (m !! string_of sid) as [x|] eqn:Hx; [|done]. pose proof (lookup_weaken _ _ _ _ Hx Hm). congruence. }
  by rewrite Hsub by apply map_filter_subseteq.
Qed.

(** While no attempt is later than a window after a session id was taken, it is refused. *)
Lemma kept_refused g sid t l j ts now :
  seen g !! string_of sid = Some t -> (forall k x, (k <= j)%nat -> l !! k = Some x -> x.2 <= t + realityAuthWindow) ->
  l !! j = Some (sid, ts, now) -> (admits g l).1 !! j = Some false.
Proof.
  revert g j. induction l as [|[[sid' ts'] now'] l IH]; intros g j Hg Hl Hj; [done|]. cbn [admits].
  assert (now' <= t + realityAuthWindow) as Hn by by apply (Hl O (sid', ts', now')); [lia|].
  destruct (admit_kept g sid t sid' ts' now' Hg Hn) as [Hk Hf]. destruct (admit_ g sid' ts' now') as [ok g1]. cbn in Hk, Hf.
  destruct j as [|j]; cbn in Hj.
  - injection Hj as -> -> ->. destruct (admits g1 l). cbn. by rewrite Hf.
  - assert ((admits g1 l).1 !! j = Some false) as Hx; [|by destruct (admits g1 l)].
    apply IH; [done| |done]. intros k x Hkj Hx. apply (Hl (S k)); [lia|done].
Qed.

Lemma admits_length g l : List.length (admits g l).1 = List.length l.
Proof.
  revert g. induction l as [|[[sid ts] now] l IH]; intros g; [done|]. cbn. destruct (admit_ g sid ts now) as [ok g1].
  specialize (IH g1). destruct (admits g1 l). cbn in *. by rewrite IH.
Qed.

Lemma admits_fresh g l j sid ts n :
  l !! j = Some (sid, ts, n) -> (admits g l).1 !! j = Some true -> n <= ts + realityAuthWindow.
Proof.
  revert g j. induction l as [|[[sid' ts'] now'] l IH]; intros g j Hj; [done|]. cbn [admits].
  pose proof (admit_true g sid' ts' now') as Ht. destruct (admit_ g sid' ts' now') as [ok g1]. cbn in Ht.
  destruct j as [|j]; cbn in Hj.
  - injection Hj as -> -> ->. destruct (admits g1 l). intros Hv. injection Hv as ->. destruct (Ht eq_refl) as [[_ Hx] _]. exact Hx.
  - intros Hv. apply (IH g1 j Hj). by destruct (admits g1 l).
Qed.

(** The clock does not go back from one attempt to the next. *)
Definition in_time (l : list (bytes * Time * Time)) : Prop :=
  forall x y a b, (x < y)%nat -> l !! x = Some a -> l !! y = Some b -> a.2 <= b.2.

(** A session id is taken again only when more than a window has passed since it was taken
    before, and no later than a window after the time sealed in it. *)
Lemma taken_again g l i j sid ts n1 n2 :
  in_time l -> (i < j)%nat -> l !! i = Some (sid, ts, n1) -> l !! j = Some (sid, ts, n2) ->
  (admits g l).1 !! i = Some true -> (admits g l).1 !! j = Some true ->
  ts - realityAuthWindow <= n1 /\ n1 + realityAuthWindow < n2 <= ts + realityAuthWindow.
Proof.
  revert g i j. induction l as [|[[sid' ts'] now'] l IH]; intros g i j Hs Hij Hi Hj; [done|]. cbn [admits].
  destruct (admit_ g sid' ts' now') as [ok g1] eqn:Ha. destruct (admits g1 l) as [oks g2] eqn:Hl. cbn.
  assert (oks = (admits g1 l).1) as -> by by rewrite Hl. clear Hl.
  destruct j as [|j]; [lia|]. change (l !! j = Some (sid, ts, n2)) in Hj. destruct i as [|i]; cbn in Hi |- *.
  - injection Hi as -> -> ->. intros [= ->] Hok. pose proof (admit_true g sid ts n1) as Ht. rewrite Ha in Ht. destruct (Ht eq_refl) as [Hf Hg].
    split; [lia|]. split.
    + destruct (Z_lt_le_dec (n1 + realityAuthWindow) n2) as [|Hle]; [done|]. exfalso.
      assert ((admits g1 l).1 !! j = Some false) as Hfalse; [|by discriminate (eq_trans (eq_sym Hfalse) Hok)].
      eapply kept_refused; [exact Hg| |exact Hj]. intros k x Hk Hx. destruct (decide (k = j)) as [Hkj|].
      * rewrite Hkj in Hx. assert (x = (sid, ts, n2)) as -> by congruence. cbn. lia.
      * pose proof (Hs (S k) (S j) x (sid, ts, n2) ltac:(lia) Hx Hj). cbn in *. lia.
    + by apply (admits_fresh g1 l j sid ts n2 Hj Hok).
  - apply IH; [|lia|done..]. intros x y a b Hxy Hx Hy. apply (Hs (S x) (S y)); [lia|done..].
Qed.
End Guard.

(** C26: The guard over any run, the clock never going back: a session id that was sealed once is
    taken at most twice; twice only when the client's clock was ahead of the exit's as it
    was first taken, and then more than a window later and within a window of the time
    sealed. A client whose clock is not ahead is never replayed. *)
Theorem replay_needs_a_clock_ahead l i j sid ts n1 n2 :
  in_time l -> (i < j)%nat -> l !! i = Some (sid, ts, n1) -> l !! j = Some (sid, ts, n2) ->
  (admits newRealityReplayGuard l).1 !! i = Some true -> (admits newRealityReplayGuard l).1 !! j = Some true ->
  n1 < ts /\ n1 + realityAuthWindow < n2 <= ts + realityAuthWindow /\
  forall k n3, (j < k)%nat -> l !! k = Some (sid, ts, n3) -> (admits newRealityReplayGuard l).1 !! k = Some false.
Proof.
  intros Hs Hij Hi Hj Hvi Hvj. destruct (taken_again _ l i j sid ts n1 n2 Hs Hij Hi Hj Hvi Hvj) as (H1 & H2 & H3).
  split; [lia|]. split; [lia|]. intros k n3 Hjk Hk.
  destruct (lookup_lt_is_Some_2 (admits newRealityReplayGuard l).1 k) as [[] Hv]; [rewrite admits_length; by eapply lookup_lt_Some| |done].
  exfalso. destruct (taken_again _ l j k sid ts n2 n3 Hs Hjk Hj Hk Hvj Hv) as (? & ? & ?). lia.
Qed.

(** ** The handshake inside, and what is handed on *)

Lemma read_full n (a b : bytes) : List.length a = n -> ReadFull n (a ++ b) = (a, true, b).
Proof.
  intros <-. unfold ReadFull. rewrite take_app_length, drop_app_length.
  by rewrite (proj2 (Nat.leb_le _ _)) by (rewrite length_app; lia).
Qed.
Lemma read_full_app n (c : bytes) : let '(a, _, b) := ReadFull n c in a ++ b = c.
Proof. unfold ReadFull. apply take_drop. Qed.

(** The inner handshake is read as it was written, and no byte after it is taken. *)
Theorem inner_handshake_round_trip token label b rest :
  List.length token = realityTokenLen -> writeInnerHandshake token label = Some b ->
  readInnerHandshake (b ++ rest) = (b, Some (hex_EncodeToString token, label)).
Proof.
  intros Ht. unfold writeInnerHandshake. destruct (Z.ltb_spec 0xffff (Z.of_nat (String.length label))) as [|Hl]; [done|].
  intros Hb. unfold readInnerHandshake.
  set (hdr := bytes_of realityMagic ++ token ++ be_bytes 2 (Z.of_nat (String.length label))).
  assert (List.length hdr = String.length realityMagic + realityTokenLen + 2)%nat as Hh
    by (unfold hdr; rewrite !length_app, be_bytes_length, length_bytes_of, Ht; lia).
  assert (b = hdr ++ bytes_of label) as -> by (unfold hdr; rewrite <-!app_assoc; congruence). clear Hb.
  rewrite <-app_assoc, read_full by done. cbn [negb].
  assert (firstn (String.length realityMagic) hdr = bytes_of realityMagic) as -> by by (unfold hdr; rewrite take_app_length').
  rewrite bool_decide_true by done. cbn [negb].
  assert (skipn (String.length realityMagic) hdr = token ++ be_bytes 2 (Z.of_nat (String.length label))) as ->
    by by (unfold hdr; rewrite drop_app_length').
  assert (skipn (String.length realityMagic + realityTokenLen) hdr = be_bytes 2 (Z.of_nat (String.length label))) as ->.
  { unfold hdr. rewrite app_assoc, drop_app_length'; [done|]. rewrite length_app, length_bytes_of, Ht. done. }
  rewrite take_app_length' by done. rewrite be_value_bytes, Z.mod_small by (change (256 ^ Z.of_nat 2) with 65536; lia).
  rewrite Nat2Z.id, read_full by by rewrite length_bytes_of. by rewrite string_of_bytes_of.
Qed.

Section Serving.
Context `{CryptobyteLaws} `{ECDHLaws} `{GCMLaws} `{TokenBucket}.
Implicit Types (t : realityTransport) (c : Inbound).

(** Nothing of what the peer sent is lost by looking at it. *)
Lemma peek_loses_nothing b : let '(raw, _, rest) := peekClientHello b in raw ++ rest = b.
Proof.
  unfold peekClientHello. pose proof (read_full_app 5 b) as Hhd. destruct (ReadFull 5 b) as [[hdr ok] b1].
  destruct (negb ok); [done|]. destruct (negb _); [done|]. cbv zeta. destruct (_ || _); [done|].
  pose proof (read_full_app (Z.to_nat (be_value (firstn 2 (skipn 3 hdr)))) b1) as Hn.
  destruct (ReadFull _ b1) as [[body ok2] b2]. destruct (negb ok2); rewrite <-app_assoc; by rewrite Hn.
Qed.

(** A handshake record that holds a ClientHello. *)
Definition record_of (body : bytes) : bytes := byte_of tlsRecordHandshake :: be_bytes 2 0x0301 ++ prefixed 2 body.

Lemma peek_reads body h rest :
  hello_body body h -> 4 <= Z.of_nat (List.length body) <= tlsMaxRecordLen ->
  peekClientHello (record_of body ++ rest) = (record_of body, Some h, rest).
Proof.
  intros Hb Hl. unfold peekClientHello.
  set (hdr := byte_of tlsRecordHandshake :: be_bytes 2 0x0301 ++ be_bytes 2 (Z.of_nat (List.length body))).
  assert (record_of body = hdr ++ body) as -> by (unfold record_of, hdr, prefixed; cbn [app]; by rewrite <-!app_assoc).
  rewrite <-app_assoc, read_full by done. cbn [negb]. 
  assert (be_value (firstn 1 hdr) = tlsRecordHandshake) as -> by by vm_compute. rewrite Z.eqb_refl. cbn [negb].
  assert (be_value (firstn 2 (skipn 3 hdr)) = Z.of_nat (List.length body)) as ->.
  { unfold hdr. change (skipn 3 _) with (be_bytes 2 (Z.of_nat (List.length body))). rewrite firstn_all2 by (by rewrite be_bytes_length).
    rewrite be_value_bytes, Z.mod_small; [done|]. unfold tlsMaxRecordLen in Hl. change (256 ^ Z.of_nat 2) with 65536. lia. }
  rewrite (proj2 (Z.ltb_ge _ 4)), (proj2 (Z.ltb_ge tlsMaxRecordLen _)) by lia. cbn [orb].
  rewrite Nat2Z.id, read_full by done. cbn [negb]. by rewrite (proj2 (parse_exact body h) Hb).
Qed.

(** What is checked of a ClientHello that is authenticated. *)
Lemma authenticated_sound t h now t' :
  authenticated t h now = (true, t') ->
  exists share secret ts, x25519 h = Some share /\ DH (realityKey t) share = Some secret /\
    realityOpenSessionID secret (random h) (sessionID h) = Some ts /\
    ts - realityAuthWindow <= now <= ts + realityAuthWindow /\ t' = set_replay (admit_ (replay t) (sessionID h) ts now).2 t /\
    (admit_ (replay t) (sessionID h) ts now).1 = true.
Proof.
  unfold authenticated. destruct (x25519 h) as [share|]; [|done]. destruct (negb _); [done|].
  destruct (DH (realityKey t) share) as [secret|] eqn:Hd; cbn [mbind option_bind]; [|done].
  destruct (realityOpenSessionID _ _ _) as [ts|] eqn:Ho; [|done].
  pose proof (admit_true (replay t) (sessionID h) ts now) as Ha. destruct (admit_ _ _ _ _) as [ok g] eqn:Hg.
  intros [= -> <-]. exists share, secret, ts. rewrite Hg. split_and!; try done; apply Ha; by rewrite ?Hg.
Qed.
Lemma authenticated_keeps t h now : let t' := (authenticated t h now).2 in
  probeOrigin t' = probeOrigin t /\ splice t' = splice t /\ pending t' = pending t.
Proof. unfold authenticated. repeat case_match; done. Qed.

Lemma hand_on_cases t c ex made now o t' :
  hand_on t c ex made now = (o, t') ->
  (probeOrigin t = "" /\ o = Rejected) \/ (probeOrigin t <> "" /\ ((exists b, o = Drained b) \/ o = Lost \/ o = made)).
Proof.
  unfold hand_on. destruct (String.eqb_spec (probeOrigin t) "") as [He|He]; [intros [= <- _]; by left|].
  right. split; [done|]. repeat case_match; simplify_eq; eauto.
Qed.

(** C23: Whoever cannot authenticate sees the impersonated site: its connection is handed on
    to the site after exactly the bytes that were read of it, or drained in silence, or was
    lost. Only an exit whose response is switched off closes it at once, whatever it sent.
    Either way it never enters a session, and which tokens are known makes no difference
    to it. *)
Theorem probe_sees_the_site t c ex now :
  let '(peeked, hello, rest) := peekClientHello (in_bytes c) in
  match hello with Some h => (authenticated t h now).1 = false | None => True end ->
  peeked ++ rest = in_bytes c /\
  (let o := (serveInbound t c ex now).1 in
   if String.eqb (probeOrigin t) "" then o = Rejected else o = Spliced peeked \/ (exists b, o = Drained b) \/ o = Lost) /\
  forall p, (serveInbound (MkTransport (sni t) (listenAddr t) (advertise t) (probeOrigin t) (realityKey t) (replay t) (splice t) p) c ex now).1
    = (serveInbound t c ex now).1.
Proof.
  pose proof (peek_loses_nothing (in_bytes c)) as Hp. destruct (peekClientHello (in_bytes c)) as [[peeked hello] rest] eqn:Hpeek.
  intros Hauth. split; [done|].
  assert (forall t1, probeOrigin t1 = probeOrigin t -> match hello with Some h => (authenticated t1 h now).1 = false | None => True end ->
    serveInbound t1 c ex now = hand_on (match hello with Some h => (authenticated t1 h now).2 | None => t1 end) c ex (Spliced peeked) now) as Hserve.
  { intros t1 _ Ha. unfold serveInbound. rewrite Hpeek. destruct hello as [h|]; [|done].
    destruct (authenticated t1 h now) as [ok t2]. cbn in Ha. by subst ok. }
  split.
  - rewrite Hserve by done. set (t1 := match hello with Some h => _ | None => t end).
    assert (probeOrigin t1 = probeOrigin t) as Ho by (unfold t1; destruct hello; [apply authenticated_keeps|done]).
    destruct (hand_on t1 c ex (Spliced peeked) now) as [o t2] eqn:Hh. cbn. apply hand_on_cases in Hh. rewrite Ho in Hh.
    destruct (String.eqb_spec (probeOrigin t) ""); naive_solver.
  - intros p. set (t0 := MkTransport _ _ _ _ _ _ _ p).
    assert (forall h, (authenticated t0 h now).1 = (authenticated t h now).1) as Hsame.
    { intros h. unfold authenticated. cbn. repeat case_match; done. }
    rewrite !Hserve; try done; [|destruct hello; [by rewrite Hsame|done]].
    destruct hello as [h|]; unfold hand_on.
    + destruct (authenticated_keeps t0 h now) as (K1 & K2 & _), (authenticated_keeps t h now) as (K3 & K4 & _).
      rewrite K1, K2, K3, K4. cbn. destruct (String.eqb _ _); [done|]. destruct (admitSplice _ _ _ _) as [ok g].
      by destruct (negb ok), (negb (origin_up c)), (negb (origin_takes c)).
    + cbn. destruct (String.eqb _ _); [done|]. destruct (admitSplice _ _ _ _) as [ok g].
      by destruct (negb ok), (negb (origin_up c)), (negb (origin_takes c)).
Qed.

(** C21: Only a connection whose ClientHello carries a seal under the exit's key, of a time
    within a window of the exit's own, and whose session id was not taken within the last
    window, and which names a session's token inside, enters a session, and that one; and
    the exit remembers the session id from then on, with exactly those it had taken within
    a window. *)
Theorem attached_is_authenticated t c ex now s label t' :
  serveInbound t c ex now = (Attached s label, t') ->
  exists peeked h rest share secret ts inner consumed tok,
    peekClientHello (in_bytes c) = (peeked, Some h, rest) /\ x25519 h = Some share /\ DH (realityKey t) share = Some secret /\
    realityOpenSessionID secret (random h) (sessionID h) = Some ts /\ ts - realityAuthWindow <= now <= ts + realityAuthWindow /\
    (forall old, seen (replay t) !! string_of (sessionID h) = Some old -> old + realityAuthWindow < now) /\
    (forall k old, seen (replay t') !! k = Some old <->
       if decide (k = string_of (sessionID h)) then old = now else seen (replay t) !! k = Some old /\ now <= old + realityAuthWindow) /\
    tls c (in_bytes c) = Some inner /\ readInnerHandshake inner = (consumed, Some (tok, label)) /\ pending t !! tok = Some s.
Proof.
  unfold serveInbound. pose proof (peek_loses_nothing (in_bytes c)) as Hp.
  destruct (peekClientHello (in_bytes c)) as [[peeked hello] rest]. rewrite Hp.
  assert (forall t1 made, probeOrigin t1 = probeOrigin t -> made <> Attached s label -> hand_on t1 c ex made now <> (Attached s label, t')) as Hno.
  { intros t1 made _ Hm Hh. apply hand_on_cases in Hh. naive_solver. }
  destruct hello as [h|]; [|intros Hh; by apply Hno in Hh].
  destruct (authenticated_keeps t h now) as (Ho & _ & Hpend).
  destruct (authenticated t h now) as [ok t1] eqn:Ha. cbn in Ho, Hpend. destruct ok; cbn [negb]; [|intros Hh; by apply Hno in Hh].
  apply authenticated_sound in Ha as (share & secret & ts & ? & ? & ? & ? & -> & [Hnew Hrem]%admit_taken).
  destruct (tls c (in_bytes c)) as [inner|]; [|done].
  destruct (readInnerHandshake inner) as [consumed [[tok label']|]] eqn:Hr; [|intros Hh; by apply Hno in Hh].
  cbn [set_replay pending] in *. destruct (pending t !! tok) as [s'|] eqn:Hs; [|intros Hh; by apply Hno in Hh].
  destruct (ack_written c); intros [= <- <- <-]. by exists peeked, h, rest, share, secret, ts, inner, consumed, tok.
Qed.

(** C22: A client of ours gets in: with the answer the exit gave it, a clock within a window of
    the exit's, and a session id the exit has not seen, the connection on which it sends
    its ClientHello, with the sealed session id and its own key share, and then the inner
    handshake, enters the session the answer was for, under the label it asked for. *)
Theorem honest_client_gets_in t bound token s label eph rnd tc te sid inner body c ex :
  List.length token = realityTokenLen -> pending t !! hex_EncodeToString token = Some s ->
  - 2 ^ 63 <= Unix tc < 2 ^ 63 -> of_Unix (Unix tc) - realityAuthWindow <= te <= of_Unix (Unix tc) + realityAuthWindow ->
  dialInner (answer_of t bound token) label eph rnd tc = Ok (sid, inner) ->
  seen (replay t) !! string_of sid = None ->
  hello_body body (MkHello rnd sid (Some (PublicBytes eph))) -> 4 <= Z.of_nat (List.length body) <= tlsMaxRecordLen ->
  (exists rest, in_bytes c = record_of body ++ rest) -> (exists rest, tls c (in_bytes c) = Some (inner ++ rest)) -> ack_written c = true ->
  (serveInbound t c ex te).1 = Attached s label.
Proof.
  intros Htok Hs Hu Hte Hd Hnew Hb Hbl [rest Hin] [more Htls] Hack.
  unfold dialInner, answer_of in Hd. cbn [ra_Token ra_Addr ra_Pub] in Hd. rewrite !hex_roundtrip in Hd. inv_result. simplify_eq.
  match goal with H : DH eph _ = Some ?x |- _ => rename x into secret; rename H into Hdh end. rewrite DH_shared in Hdh.
  match goal with H : writeInnerHandshake _ _ = Some _ |- _ => rename H into Hw end.
  destruct (seal_opens secret rnd tc Hu) as [Hopen Hlen].
  set (h := MkHello rnd (realitySealSessionID secret rnd tc) (Some (PublicBytes eph))) in *.
  assert (authenticated t h te = (true, set_replay (admit_ (replay t) (sessionID h) (of_Unix (Unix tc)) te).2 t)) as Hauth.
  { unfold authenticated. cbn [x25519 sessionID random h]. rewrite Hlen, Nat.eqb_refl. cbn [negb]. rewrite Hdh. cbn [mbind option_bind]. rewrite Hopen.
    pose proof (admit_fresh (replay t) (sessionID h) (of_Unix (Unix tc)) te Hnew Hte) as Ha. cbn [sessionID h] in Ha.
    destruct (admit_ _ _ _ _) as [ok g]. cbn in Ha. by subst ok. }
  unfold serveInbound. rewrite Hin, (peek_reads body h rest Hb Hbl), Hauth. cbn [negb]. rewrite <-Hin, Htls.
  match type of Hw with writeInnerHandshake ?k _ = _ => rewrite (inner_handshake_round_trip k label inner more Htok Hw) end. cbn [set_replay pending]. by rewrite Hs, Hack.
Qed.

(** ** The gate *)

Definition holds (o : Outcome) : Z := match o with Spliced _ | Bridged _ | Drained true => 1 | _ => 0 end.

Lemma gate_admit_counts ip now g :
  maxConcurrent (gate_admit ip now g).2 = maxConcurrent g /\
  concurrent (gate_admit ip now g).2 = concurrent g + (if (gate_admit ip now g).1 then 1 else 0) /\
  ((gate_admit ip now g).1 = true -> concurrent g < maxConcurrent g).
Proof.
  unfold gate_admit. cbv zeta.
  assert (maxConcurrent (sweep now g) = maxConcurrent g /\ concurrent (sweep now g) = concurrent g) as [Hm Hc]
    by (unfold sweep; by destruct (_ <? _)).
  rewrite Hm, Hc. destruct (Z.leb_spec (maxConcurrent g) (concurrent g)); cbn; [rewrite Hm, Hc; split_and!; [done|lia|done]|].
  destruct (AllowN _ now) as [[] l]; cbn; split_and!; try done; lia.
Qed.

(** What serving a connection does to the gate [g] it started with. *)
Definition accounted (g : spliceGate) (ex : bool) (o : Outcome) (t : realityTransport) : Prop :=
  exists g', splice t = Some g' /\ maxConcurrent g' = maxConcurrent g /\ concurrent g' = concurrent g + holds o /\
    concurrent g' <= maxConcurrent g' /\ (ex = true -> holds o = 0) /\
    concurrent <$> splice (ended o t) = Some (concurrent g).

Lemma accounted_none g ex o t :
  holds o = 0 -> concurrent g <= maxConcurrent g ->
  (exists g', splice t = Some g' /\ maxConcurrent g' = maxConcurrent g /\ concurrent g' = concurrent g) -> accounted g ex o t.
Proof.
  intros Ho Hle (g' & Hg & Hm & Hc). exists g'. rewrite Ho. split_and!; try done; try lia.
  destruct o as [|[]| | | |]; try done; cbn; by rewrite Hg, <-Hc.
Qed.

Lemma hand_on_accounted t c ex made now g :
  splice t = Some g -> concurrent g <= maxConcurrent g -> (exists b, made = Spliced b \/ made = Bridged b) ->
  accounted g ex (hand_on t c ex made now).1 (hand_on t c ex made now).2.
Proof.
  intros Hg Hle Hmade. unfold hand_on, admitSplice. rewrite Hg.
  destruct (String.eqb _ _); [by apply accounted_none; [| |exists g]|]. destruct ex; [by apply accounted_none; [| |exists g]|].
  destruct (gate_admit_counts (in_ip c) now g) as (Hm & Hc & Hlt). destruct (gate_admit (in_ip c) now g) as [ok g1]. cbn in Hm, Hc, Hlt.
  destruct ok; cbn [negb]; [specialize (Hlt eq_refl)|apply accounted_none; [done..|]; exists g1; cbn; split_and!; [done..|lia]].
  assert (forall o, holds o = 1 -> ended o (set_splice (Some g1) t) = set_splice (Some (release g1)) t ->
    accounted g false o (set_splice (Some g1) t)) as Hheld.
  { intros o Ho He. exists g1. rewrite He, Ho. cbn. split_and!; try done; try lia. f_equal. lia. }
  destruct (negb (origin_up c)); [by apply Hheld|].
  destruct (negb (origin_takes c)); [apply accounted_none; [done..|]; exists (release g1); cbn; split_and!; [done..|lia]|].
  destruct Hmade as [b [-> | ->]]; by apply Hheld.
Qed.

(** With declared limits, a connection that was let through holds a place of the gate, and
    gives it back when it ends; never are more held than the gate's maximum; and once the
    quota is spent no connection is handed on to the site. *)
Theorem gate_is_accounted t c ex now g :
  splice t = Some g -> concurrent g <= maxConcurrent g ->
  accounted g ex (serveInbound t c ex now).1 (serveInbound t c ex now).2.
Proof.
  intros Hg Hle. unfold serveInbound. destruct (peekClientHello _) as [[peeked hello] rest].
  assert (splice (match hello with Some h => authenticated t h now | None => (false, t) end).2 = Some g) as Hg1
    by (destruct hello as [h|]; [by destruct (authenticated_keeps t h now) as (_ & -> & _)|done]).
  destruct (match hello with Some h => authenticated t h now | None => (false, t) end) as [ok t1]. cbn in Hg1.
  assert (forall o, holds o = 0 -> accounted g ex o t1) as Hsame by (intros o Ho; apply accounted_none; [done..|by exists g]).
  destruct (negb ok); [apply hand_on_accounted; [done..|by exists peeked; left]|]. destruct (tls c _) as [inner|]; [|by apply Hsame].
  destruct (readInnerHandshake inner) as [consumed [[tok label]|]]; [|apply hand_on_accounted; [done..|by exists consumed; right]].
  destruct (pending t1 !! tok) as [s|]; [|apply hand_on_accounted; [done..|by exists consumed; right]].
  destruct (ack_written c); by apply Hsame.
Qed.
End Serving.

(** ** Witnesses *)

Module Demo.
#[export] Instance toy_cryptobyte : Cryptobyte := {
  ReadUint n s := if (n <=? List.length s)%nat then Some (be_value (firstn n s), skipn n s) else None;
  ReadBytes n s := if (n <=? List.length s)%nat then Some (firstn n s, skipn n s) else None;
  ReadPrefixed n s :=
    if (n <=? List.length s)%nat then
      let k := Z.to_nat (be_value (firstn n s)) in
      if (k <=? List.length (skipn n s))%nat then Some (firstn k (skipn n s), skipn k (skipn n s)) else None
    else None;
}.
Lemma split_front n (s b r : bytes) : (n <= List.length s)%nat /\ (firstn n s, skipn n s) = (b, r) <-> s = b ++ r /\ List.length b = n.
Proof.
  split.
  - intros [Hl [= <- <-]]. rewrite take_drop, length_take. split; [done|lia].
  - intros [-> <-]. rewrite take_app_length, drop_app_length, length_app. split; [lia|done].
Qed.
#[export] Instance toy_cryptobyte_laws : CryptobyteLaws.
Proof.
  split; intros n s; cbn [ReadUint ReadBytes ReadPrefixed toy_cryptobyte].
  - intros v r. destruct (Nat.leb_spec n (List.length s)) as [Hl|Hl].
    + destruct (proj1 (split_front n s (firstn n s) (skipn n s)) (conj Hl eq_refl)) as [Hs Hn]. split.
      * intros [= <- <-]. pose proof (be_value_range (firstn n s)) as Hr. rewrite Hn in Hr. split; [|done].
        rewrite <-Hn at 1. by rewrite be_bytes_value, take_drop.
      * intros [-> Hv]. rewrite take_app_length', drop_app_length' by (by rewrite be_bytes_length).
        by rewrite be_value_bytes, Z.mod_small.
    + split; [done|]. intros [-> _]. rewrite length_app, be_bytes_length in Hl. lia.
  - intros b r. rewrite <-split_front. destruct (Nat.leb_spec n (List.length s)); split; intros Hx; try done; [split; [done|by injection Hx as <- <-]|..]; [by destruct Hx as [_ [= -> ->]]|]. lia.
  - intros b r. destruct (Nat.leb_spec n (List.length s)) as [Hl|Hl].
    + destruct (proj1 (split_front n s (firstn n s) (skipn n s)) (conj Hl eq_refl)) as [Hs Hn].
      pose proof (be_value_range (firstn n s)) as Hr. rewrite Hn in Hr. cbv zeta. split.
      * destruct (Nat.leb_spec (Z.to_nat (be_value (firstn n s))) (List.length (skipn n s))) as [Hk|]; [|done]. intros [= <- <-].
        unfold prefixed, fits. rewrite length_take, Nat.min_l, Z2Nat.id by lia. split; [|lia].
        rewrite <-app_assoc, take_drop. rewrite <-Hn at 1. by rewrite be_bytes_value, take_drop.
      * intros [-> Hf]. unfold prefixed, fits in *. rewrite <-app_assoc. rewrite take_app_length', drop_app_length' by (by rewrite be_bytes_length).
        rewrite be_value_bytes, Z.mod_small by lia. rewrite Nat2Z.id, take_app_length, drop_app_length.
        by rewrite (proj2 (Nat.leb_le _ _)) by (rewrite length_app; lia).
    + split; [done|]. intros [-> _]. unfold prefixed in Hl. rewrite !length_app, be_bytes_length in Hl. lia.
Qed.

(** A key is a byte; a seal carries a digest of what it was made with. *)
#[export] Instance toy_ecdh : ECDH := {
  DHKey := ascii;
  PublicBytes k := repeat k 32;
  DH a b := match b with c :: _ => Some [xor_byte a c] | [] => None end;
}.
Lemma xor_byte_comm a b : xor_byte a b = xor_byte b a.
Proof. unfold xor_byte. by rewrite Z.lxor_comm. Qed.
#[export] Instance toy_ecdh_laws : ECDHLaws.
Proof. split; [|done]. intros a b. cbn. by rewrite xor_byte_comm. Qed.
Definition tag (k n a : bytes) : bytes := firstn 16 (SHA256.sum (k ++ n ++ a)).
#[export] Instance toy_gcm : GCM := {
  Seal k n p a := tag k n a ++ p;
  Open k n c a := if bool_decide (firstn 16 c = tag k n a) then Some (skipn 16 c) else None;
}.
Lemma tag_length k n a : List.length (tag k n a) = 16%nat.
Proof. unfold tag. by rewrite length_take, SHA256.sum_length. Qed.
#[export] Instance toy_gcm_laws : GCMLaws.
Proof.
  split; intros k n p a; cbn [Seal Open toy_gcm].
  - rewrite take_app_length', drop_app_length' by by rewrite tag_length. by rewrite bool_decide_true.
  - rewrite length_app, tag_length. lia.
Qed.
#[export] Instance toy_bucket : TokenBucket := {
  Limiter := nat; NewLimiter := 16%nat;
  AllowN n _ := match n with S n => (true, n) | O => (false, O) end;
}.
End Demo.
Import Demo.

(** A guard that took a session id refuses it within the window; when the client's clock
    was a window ahead, it takes the same id again a second after. *)
Example replayed_ahead_of_the_clock :
  let sid := repeat (byte_of 1) 32 in let ts := (1000 + 90) * Second in
  (admits newRealityReplayGuard [(sid, ts, 1000 * Second); (sid, ts, 1090 * Second); (sid, ts, 1091 * Second); (sid, ts, 1092 * Second)]).1
  = [true; false; true; false].
Proof. vm_compute; reflexivity. Qed.

Definition demo_token : bytes := repeat (byte_of 7) 16.
Definition demo_random : bytes := repeat (byte_of 3) 32.
Definition demo_now : Time := 1000 * Second.
Definition demo_site : realityTransport :=
  newRealityTransport (MkConfig "" "" "" "203.0.113.7:443" "") (byte_of 5) (Some newSpliceGate).
Definition demo_exit : realityTransport :=
  MkTransport (sni demo_site) (listenAddr demo_site) (advertise demo_site) (probeOrigin demo_site) (realityKey demo_site)
    (replay demo_site) (splice demo_site) {[ hex_EncodeToString demo_token := 4%nat ]}.
Definition demo_hello (sid : bytes) (share : bytes) : bytes :=
  be_bytes 1 tlsMsgClientHello ++ prefixed 3 (be_bytes 2 0x0303 ++ demo_random ++ prefixed 1 sid ++ prefixed 2 (be_bytes 2 0x1301) ++
    prefixed 1 (be_bytes 1 0) ++ prefixed 2 (items [(0, []); (tlsExtKeyShare, prefixed 2 (items [(0x11ec, be_bytes 4 1); (tlsGroupX25519, share)]))])).
Definition demo_dial : result DialError (bytes * bytes) :=
  dialInner (answer_of demo_exit "" demo_token) ctrlLabel (byte_of 9) demo_random demo_now.
Definition demo_sid : bytes := match demo_dial with Ok (sid, _) => sid | Err _ => [] end.
Definition demo_inner : bytes := match demo_dial with Ok (_, inner) => inner | Err _ => [] end.
Definition demo_body : bytes := demo_hello demo_sid (PublicBytes (byte_of 9)).
Definition demo_client : Inbound :=
  MkInbound (record_of demo_body) "198.51.100.4" (fun _ => Some demo_inner) true true true.
Definition demo_probe : Inbound :=
  MkInbound (record_of (demo_hello demo_random (PublicBytes (byte_of 9)))) "198.51.100.4" (fun _ => None) true true true.

Lemma demo_body_is_hello : hello_body demo_body (MkHello demo_random demo_sid (Some (PublicBytes (byte_of 9)))).
Proof. apply parse_exact. vm_compute; reflexivity. Qed.

Lemma parseClientHello_exact_witness :
  parseClientHello (firstn 60 demo_body) <> Some (MkHello demo_random demo_sid None) /\
  (parseClientHello demo_body = Some (MkHello demo_random demo_sid (Some (PublicBytes (byte_of 9)))) <->
   hello_body demo_body (MkHello demo_random demo_sid (Some (PublicBytes (byte_of 9))))).
Proof. split; [by vm_compute|]. apply parseClientHello_exact. Defined.

Lemma replay_needs_a_clock_ahead_witness :
  let sid := [byte_of 1] in let ts := 90 * Second in
  0 < ts /\ 0 + realityAuthWindow < 91 * Second - 1 * Second + 1 <= ts + realityAuthWindow.
Proof.
  intros sid ts.
  destruct (replay_needs_a_clock_ahead [(sid, ts, 0); (sid, ts, 90 * Second + 1)] 0 1 sid ts 0 (90 * Second + 1)) as (H1 & H2 & _).
  - intros [|[|x]] [|[|y]] a b Hxy Ha Hb; try lia; try discriminate Hb. vm_compute in Ha, Hb. injection Ha as <-. injection Hb as <-. by vm_compute.
  - lia.
  - reflexivity.
  - reflexivity.
  - vm_compute; reflexivity.
  - vm_compute; reflexivity.
  - split; [exact H1|]. by vm_compute in H2 |- *.
Defined.

Lemma probe_sees_the_site_witness :
  (serveInbound demo_exit demo_probe false demo_now).1 = Spliced (in_bytes demo_probe).
Proof.
  assert ((peekClientHello (in_bytes demo_probe)) = (in_bytes demo_probe, Some (MkHello demo_random demo_random (Some (PublicBytes (byte_of 9)))), [])) as Hp
    by (vm_compute; reflexivity).
  assert ((authenticated demo_exit (MkHello demo_random demo_random (Some (PublicBytes (byte_of 9)))) demo_now).1 = false) as Ha
    by (vm_compute; reflexivity).
  pose proof (probe_sees_the_site demo_exit demo_probe false demo_now) as Hthm. rewrite Hp in Hthm.
  destruct (Hthm Ha) as (_ & Ho & _). assert (String.eqb (probeOrigin demo_exit) "" = false) as Hon by (vm_compute; reflexivity).
  rewrite Hon in Ho. destruct Ho as [Ho|[Ho|Ho]]; [exact Ho|vm_compute in Ho; destruct Ho as [b Ho]; discriminate Ho|vm_compute in Ho; discriminate Ho].
Defined.

Lemma honest_client_gets_in_witness :
  (serveInbound demo_exit demo_client false (demo_now + 30 * Second)).1 = Attached 4%nat ctrlLabel.
Proof.
  apply (honest_client_gets_in demo_exit "" demo_token 4%nat ctrlLabel (byte_of 9) demo_random demo_now (demo_now + 30 * Second)
    demo_sid demo_inner demo_body demo_client false).
  - reflexivity.
  - vm_compute; reflexivity.
  - by vm_compute.
  - by vm_compute.
  - vm_compute; reflexivity.
  - vm_compute; reflexivity.
  - exact demo_body_is_hello.
  - by vm_compute.
  - exists []. by rewrite app_nil_r.
  - exists []. cbn [tls demo_client]. by rewrite app_nil_r.
  - reflexivity.
Defined.

Lemma attached_is_authenticated_witness :
  exists tok, pending demo_exit !! tok = Some 4%nat.
Proof.
  destruct (attached_is_authenticated demo_exit demo_client false demo_now 4%nat ctrlLabel (serveInbound demo_exit demo_client false demo_now).2)
    as (peeked & h & rest & share & secret & ts & inner & consumed & tok & H).
  - assert ((serveInbound demo_exit demo_client false demo_now).1 = Attached 4%nat ctrlLabel) as He by (vm_compute; reflexivity).
    destruct (serveInbound demo_exit demo_client false demo_now) as [o t']. cbn in He |- *. by rewrite He.
  - exists tok. apply H.
Defined.

Lemma gate_is_accounted_witness :
  exists g, splice (serveInbound demo_exit demo_probe false demo_now).2 = Some g /\ concurrent g = 1.
Proof.
  pose proof (gate_is_accounted demo_exit demo_probe false demo_now newSpliceGate eq_refl ltac:(by vm_compute)) as Hthm.
  assert ((serveInbound demo_exit demo_probe false demo_now).1 = Spliced (in_bytes demo_probe)) as Ho by (vm_compute; reflexivity).
  rewrite Ho in Hthm. destruct Hthm as (g & Hg & _ & Hc & _). exists g. split; [exact Hg|]. by rewrite Hc.
Defined.
