(* ===== verification/Rendezvous.v ===== *)
(** * The shaped rendezvous: [cmd/coordinator/rendezvous.go], [core/rendezvous], [core/rendezvous_client.go]

    The coordinator's one socket carries STUN checks, DTLS and bare JSON. Here: how a
    datagram is told apart, the table of DTLS associations with the goroutine that serves
    each, its limit and its sweep, and in which shape a reply leaves; with the packet loop
    and [send] of [main.go], composed with the handlers of [Coordinator], and what a client's
    link does with a datagram. The DTLS conversation is a library: its handshake ends well or
    not and its reads give messages, as steps that may come at any time. *)

From S2P Require Import ASN GeoIP.
From S2P Require Import Prelude GoStrings Crypto Net Stun Admission DeviceCred Estimator Rating Coldstart.
From S2P Require Import CoordState Challenges Geo Assign Coordinator.
Local Open Scope Z_scope.

(** ** Telling datagrams apart *)

Definition dtlsRecordVersionMajor : Z := 0xfe.
Definition dtlsRecordHeaderSize : nat := 13.
Definition handshakeRecord : Z := 22.
Definition stunHeaderSize : nat := 20.
Definition stunMagicCookie : Z := 0x2112A442.
Definition stunBindingRequest : Z := 0x0001.

Definition at_ (raw : bytes) (i : nat) : Z := match raw !! i with Some c => octet c | None => 0 end.

Definition looksLikeDTLS (raw : bytes) : bool :=
  if (List.length raw <? dtlsRecordHeaderSize)%nat then false
  else if negb (bool_decide (at_ raw 0 ∈ [20; 21; 22; 23; 25])) then false
  else (at_ raw 1 =? dtlsRecordVersionMajor) && ((at_ raw 2 =? 0xff) || (at_ raw 2 =? 0xfd)).

Definition looksLikeSTUN (raw : bytes) : bool :=
  if (List.length raw <? stunHeaderSize)%nat then false
  else if negb (uint_at raw 0 2 =? stunBindingRequest) then false
  else if negb (uint_at raw 4 8 =? stunMagicCookie) then false
  else (Z.of_nat stunHeaderSize + uint_at raw 2 4 =? Z.of_nat (List.length raw)).

(** [src.AddrPort()], the address unmapped. *)
Definition AddrPort_of (src : UDPAddr) : AddrPort := MkAddrPort (Unmap <$> AddrFromSlice (addr_IP src)) (addr_Port src).

(** ** Associations *)

Definition dtlsAssocIdle : Duration := 2 * Minute.
Definition maxDTLSAssocs : Z := 4096.
Definition dtlsAssocSweep : Duration := 30 * Second.
Definition dtlsAssocQueue : nat := 16.

(** [done] is whether [a.done] is closed; [conn] whether the handshake has completed. *)
Record dtlsAssoc := MkAssoc { raddr : UDPAddr; in_ : list bytes; done_ : bool; conn : bool; a_lastSeen : Time }.
(** Where the goroutine that serves an association is: in the handshake, reading, or about
    to drop it. *)
Inductive stage := Handshaking | Reading | Dropping.
#[export] Instance stage_eq_dec : EqDecision stage.
Proof. solve_decision. Defined.

(** The multiplexer: the table by source, the associations by name, the goroutines by the
    association each serves. [capacity] is zero for the default. *)
Record rendezvousMux := MkMux {
  capacity : Z; assocs : gmap string nat; lastSweep : Time;
  heap : gmap nat dtlsAssoc; serving : gmap nat stage; next : nat;
}.
Definition newRendezvousMux : rendezvousMux := MkMux 0 ∅ time_zero ∅ ∅ 0.

Definition cap (m : rendezvousMux) : Z := if 0 <? capacity m then capacity m else maxDTLSAssocs.

Definition set_assocs (x : gmap string nat) (m : rendezvousMux) : rendezvousMux :=
  MkMux (capacity m) x (lastSweep m) (heap m) (serving m) (next m).
Definition set_heap (x : gmap nat dtlsAssoc) (m : rendezvousMux) : rendezvousMux :=
  MkMux (capacity m) (assocs m) (lastSweep m) x (serving m) (next m).
Definition set_serving (x : gmap nat stage) (m : rendezvousMux) : rendezvousMux :=
  MkMux (capacity m) (assocs m) (lastSweep m) (heap m) x (next m).
Definition set_lastSweep (t : Time) (m : rendezvousMux) : rendezvousMux :=
  MkMux (capacity m) (assocs m) t (heap m) (serving m) (next m).

Definition seen_at (now : Time) (a : dtlsAssoc) : dtlsAssoc := MkAssoc (raddr a) (in_ a) (done_ a) (conn a) now.
Definition close (a : dtlsAssoc) : dtlsAssoc := MkAssoc (raddr a) (in_ a) true (conn a) (a_lastSeen a).
Definition connected (a : dtlsAssoc) : dtlsAssoc := MkAssoc (raddr a) (in_ a) (done_ a) true (a_lastSeen a).
(** [deliver]: a datagram that finds the queue full is dropped; so is one for an
    association that is finished, where Go may also queue it for nobody to read. *)
Definition deliver (raw : bytes) (a : dtlsAssoc) : dtlsAssoc :=
  if done_ a || (dtlsAssocQueue <=? List.length (in_ a))%nat then a
  else MkAssoc (raddr a) (in_ a ++ [raw]) (done_ a) (conn a) (a_lastSeen a).

(** [sweepLocked]: whether an entry goes. An association that goes for being idle is closed. *)
Definition goes (now : Time) (m : rendezvousMux) (a : nat) : bool :=
  match heap m !! a with
  | Some x => done_ x || (dtlsAssocIdle <? time_Sub now (a_lastSeen x))
  | None => false
  end.
Definition sweepLocked (now : Time) (m : rendezvousMux) : rendezvousMux :=
  let dead : gset nat := list_to_set ((filter (fun kv => goes now m kv.2 = true) (map_to_list (assocs m))).*2) in
  let kept := filter (fun kv => goes now m kv.2 = false) (assocs m) in
  set_heap (map_imap (fun a x => Some (if bool_decide (a ∈ dead) then close x else x)) (heap m)) (set_assocs kept (set_lastSweep now m)).

(** [assocFor]: the association of a source, new or not. *)
Definition assocFor (raw : bytes) (src : UDPAddr) (now : Time) (m : rendezvousMux) : option (nat * bool) * rendezvousMux :=
  let key := UDPAddr_String src in
  match assocs m !! key with
  | Some a => (Some (a, false), set_heap (alter (seen_at now) a (heap m)) m)
  | None =>
      if negb (at_ raw 0 =? handshakeRecord) then (None, m)
      else
        let m := if dtlsAssocSweep <? time_Sub now (lastSweep m) then sweepLocked now m else m in
        if cap m <=? Z.of_nat (size (assocs m)) then (None, m)
        else
          (Some (next m, true),
           MkMux (capacity m) (<[key := next m]> (assocs m)) (lastSweep m)
             (<[next m := MkAssoc src [] false false now]> (heap m)) (serving m) (S (next m)))
  end.

(** [route], once a datagram looks like DTLS: a new association gets its goroutine. *)
Definition route (raw : bytes) (src : UDPAddr) (now : Time) (m : rendezvousMux) : rendezvousMux :=
  match assocFor raw src now m with
  | (None, m) => m
  | (Some (a, fresh), m) =>
      let m := if fresh then set_serving (<[a := Handshaking]> (serving m)) m else m in
      set_heap (alter (deliver raw) a (heap m)) m
  end.

(** [drop]: the entry goes only if it is this association's. *)
Definition drop_ (a : nat) (m : rendezvousMux) : rendezvousMux :=
  match heap m !! a with
  | None => m
  | Some x =>
      let key := UDPAddr_String (raddr x) in
      let m := set_heap (<[a := close x]> (heap m)) m in
      if bool_decide (assocs m !! key = Some a) then set_assocs (delete key (assocs m)) m else m
  end.

(** [replyTo]: the association a reply to this address is written into. *)
Definition replyTo (m : rendezvousMux) (to : UDPAddr) : option nat :=
  a ← assocs m !! UDPAddr_String to;
  x ← heap m !! a;
  if conn x then Some a else None.

(** ** Steps of the goroutines *)

(** A datagram that looks like DTLS; the outcome of a handshake; a message read from an
    association, or a failed read; the close of the DTLS connection, which closes the
    association under it; the deferred drop; a sweep. *)
Inductive mux_label :=
| MDatagram (raw : bytes) (src : UDPAddr) (now : Time)
| MHandshake (a : nat) (ok : bool) | MRead (a : nat) (now : Time) | MReadFails (a : nat) | MClose (a : nat) | MDrop (a : nat)
| MSweep (now : Time).

Definition mux_step (m : rendezvousMux) (l : mux_label) : rendezvousMux :=
  match l with
  | MDatagram raw src now => route raw src now m
  | MHandshake a ok =>
      if bool_decide (serving m !! a = Some Handshaking) then
        if ok then set_serving (<[a := Reading]> (serving m)) (set_heap (alter connected a (heap m)) m)
        else set_serving (<[a := Dropping]> (serving m)) m
      else m
  | MRead a now => if bool_decide (serving m !! a = Some Reading) then set_heap (alter (seen_at now) a (heap m)) m else m
  | MReadFails a => if bool_decide (serving m !! a = Some Reading) then set_serving (<[a := Dropping]> (serving m)) m else m
  | MClose a => if bool_decide (serving m !! a = Some Dropping) then set_heap (alter close a (heap m)) m else m
  | MDrop a => if bool_decide (serving m !! a = Some Dropping) then set_serving (delete a (serving m)) (drop_ a m) else m
  | MSweep now => sweepLocked now m
  end.
Definition mux_run (l : list mux_label) (m : rendezvousMux) : rendezvousMux := foldl mux_step m l.

(** ** The socket and the handlers *)

(** The shape of a reply. *)
Inductive Shape := Shaped (a : nat) | Clear.
Definition shape_of (m : rendezvousMux) (to : UDPAddr) : Shape :=
  match replyTo m to with Some a => Shaped a | None => Clear end.

(** What a datagram is to the packet loop: a STUN check and its answer, DTLS, a message, or
    nothing. *)
Inductive Packet := Check_ (resp : bytes) | Dtls | Message (w : wire) | Junk.
Definition packet_of `{JSON wire} (raw : bytes) (src : UDPAddr) : Packet :=
  match (if looksLikeSTUN raw then BindingResponse raw (AddrPort_of src) else None) with
  | Some resp => Check_ resp
  | None => if looksLikeDTLS raw then Dtls
            else match Unmarshal raw with Some w => Message w | None => Junk end
  end.

Section Socket.
Context `{FloatPlatform} `{Ed25519} `{JSON Credential} `{JSON IssuerCert} `{JSON DeviceCredential} `{JSON wire}.
Context (cfg : Config).

(** [handle], what it sends going out in the shape of each destination. *)
Definition serve (i : Inputs) (m : rendezvousMux) (s : state) (w : wire) (src : UDPAddr) : state * list (UDPAddr * wire * Shape) :=
  let '(s, out) := handle cfg i s w src in (s, (fun o => (o.1, o.2, shape_of m o.1)) <$> out).

(** The loop of [main]: one datagram. *)
Definition receive (i : Inputs) (raw : bytes) (src : UDPAddr) (now : Time) (ms : rendezvousMux * state)
    : (rendezvousMux * state) * list (UDPAddr * wire * Shape) * option bytes :=
  let '(m, s) := ms in
  match packet_of raw src with
  | Check_ resp => ((m, s), [], Some resp)
  | Dtls => ((route raw src now m, s), [], None)
  | Message w => let '(s, out) := serve i m s w src in ((m, s), out, None)
  | Junk => ((m, s), [], None)
  end.

(** [serveAssoc]: a message read from an association. *)
Definition read_message (i : Inputs) (a : nat) (w : wire) (now : Time) (ms : rendezvousMux * state)
    : (rendezvousMux * state) * list (UDPAddr * wire * Shape) :=
  let '(m, s) := ms in
  match serving m !! a, heap m !! a with
  | Some Reading, Some x =>
      let m := mux_step m (MRead a now) in
      let '(s, out) := serve i m s w (raddr x) in ((m, s), out)
  | _, _ => ((m, s), [])
  end.
End Socket.

(** A client's link, on a datagram that arrives while it has an association: a record for
    it, the answer to its check, or a reply in a shape it does not speak. *)
Inductive LinkGets := Record__ | CheckAnswered | Unshaped.
Definition link_gets (raw : bytes) : LinkGets :=
  if looksLikeDTLS raw then Record__ else if LooksLikeBindingSuccess raw then CheckAnswered else Unshaped.

(** ** Datagrams are told apart *)

Lemma looksLikeDTLS_first raw : looksLikeDTLS raw = true -> at_ raw 0 ∈ [20; 21; 22; 23; 25].
Proof. unfold looksLikeDTLS. destruct (_ <? _)%nat; [done|]. case_bool_decide; done. Qed.
Lemma looksLikeSTUN_first raw : looksLikeSTUN raw = true -> at_ raw 0 = 0.
Proof.
  unfold looksLikeSTUN. destruct (Nat.ltb_spec (List.length raw) stunHeaderSize) as [|Hl]; [done|].
  destruct (Z.eqb_spec (uint_at raw 0 2) stunBindingRequest) as [Hu|]; [|done]. intros _. unfold stunHeaderSize in Hl.
  destruct raw as [|c [|d raw]]; cbn in Hl; [lia..|]. unfold uint_at, slice, stunBindingRequest in Hu. cbn in Hu.
  rewrite take_0 in Hu. cbn in Hu. pose proof (octet_range c). pose proof (octet_range d). unfold at_. cbn. lia.
Qed.

(** No datagram is two things: what starts with a byte of a text is neither a check nor a
    record, so it reaches the handlers as it always did; a check is never a record. *)
Theorem datagrams_are_told_apart `{JSON wire} raw src :
  (32 <= at_ raw 0 -> packet_of raw src = match Unmarshal raw with Some w => Message w | None => Junk end) /\
  (looksLikeSTUN raw = true -> looksLikeDTLS raw = false) /\
  (looksLikeDTLS raw = true -> packet_of raw src = Dtls).
Proof.
  assert (looksLikeSTUN raw = true -> looksLikeDTLS raw = false) as Hsd.
  { intros Hs%looksLikeSTUN_first. destruct (looksLikeDTLS raw) eqn:Hd; [|done]. apply looksLikeDTLS_first in Hd.
    rewrite Hs in Hd. set_solver. }
  split; [|split; [done|]].
  - intros Ht. unfold packet_of.
    destruct (looksLikeSTUN raw) eqn:Hs; [apply looksLikeSTUN_first in Hs; lia|].
    destruct (looksLikeDTLS raw) eqn:Hd; [|done]. apply looksLikeDTLS_first in Hd. set_unfold. lia.
  - intros Hd. unfold packet_of. destruct (looksLikeSTUN raw) eqn:Hs; [by rewrite Hsd in Hd|]. by rewrite Hd.
Qed.

(** ** The table *)

(** Every entry is an association of that source with a goroutine serving it; an association
    out of the table that is still served has been closed, so its goroutine ends; one that is
    read from has completed its handshake; and the table stays within its capacity. *)
Record mux_ok (m : rendezvousMux) : Prop := {
  ok_entry k a : assocs m !! k = Some a -> exists x, heap m !! a = Some x /\ k = UDPAddr_String (raddr x) /\ is_Some (serving m !! a);
  ok_served a st : serving m !! a = Some st -> exists x, heap m !! a = Some x /\
                   (assocs m !! UDPAddr_String (raddr x) = Some a \/ done_ x = true) /\ (st = Reading -> conn x = true);
  ok_next a : is_Some (heap m !! a) -> (a < next m)%nat;
  ok_size : Z.of_nat (size (assocs m)) <= cap m;
}.

Definition reachable (capacity : Z) (m : rendezvousMux) : Prop :=
  exists l, m = mux_run l (MkMux capacity ∅ time_zero ∅ ∅ 0).

Lemma goes_dead now m k a :
  assocs m !! k = Some a ->
  (a ∈ (list_to_set ((filter (fun kv => goes now m kv.2 = true) (map_to_list (assocs m))).*2) : gset nat) <-> goes now m a = true).
Proof.
  intros Hk. rewrite elem_of_list_to_set, list_elem_of_fmap. split.
  - intros ([k' a'] & -> & Hin). by apply list_elem_of_filter in Hin as [Hg _].
  - intros Hg. exists (k, a). split; [done|]. apply list_elem_of_filter. split; [done|]. by apply elem_of_map_to_list.
Qed.

Lemma sweep_heap now m a x :
  heap (sweepLocked now m) !! a = Some x <->
  exists x0, heap m !! a = Some x0 /\
    x = (if bool_decide (a ∈ (list_to_set ((filter (fun kv => goes now m kv.2 = true) (map_to_list (assocs m))).*2) : gset nat)) then close x0 else x0).
Proof.
  unfold sweepLocked. cbv zeta. cbn [set_heap heap]. rewrite map_lookup_imap. destruct (heap m !! a) as [x0|]; cbn; naive_solver.
Qed.
Lemma sweep_assocs now m k a : assocs (sweepLocked now m) !! k = Some a <-> assocs m !! k = Some a /\ goes now m a = false.
Proof. unfold sweepLocked. cbv zeta. cbn [set_heap set_assocs assocs]. by rewrite map_lookup_filter_Some. Qed.
Lemma sweep_kept now m : capacity (sweepLocked now m) = capacity m /\ serving (sweepLocked now m) = serving m /\ next (sweepLocked now m) = next m.
Proof. done. Qed.
Lemma sweep_size now m : (size (assocs (sweepLocked now m)) <= size (assocs m))%nat.
Proof. unfold sweepLocked. cbv zeta. cbn [set_heap set_assocs assocs]. apply map_size_filter. Qed.

Lemma if_close_same (b : bool) x : raddr (if b then close x else x) = raddr x /\ conn (if b then close x else x) = conn x.
Proof. by destruct b. Qed.

Lemma sweep_ok now m : mux_ok m -> mux_ok (sweepLocked now m).
Proof.
  intros [He Hs Hn Hz]. destruct (sweep_kept now m) as (Hcap & Hser & Hnx). split; rewrite ?Hser, ?Hnx.
  - intros k a [Hk _]%sweep_assocs. destruct (He k a Hk) as (x & Hx & -> & Hv). eexists. split; [apply sweep_heap; by exists x|].
    by rewrite (proj1 (if_close_same _ x)).
  - intros a st Hst. destruct (Hs a st Hst) as (x & Hx & Hin & Hc). eexists. split; [apply sweep_heap; by exists x|].
    destruct (if_close_same (bool_decide (a ∈ (list_to_set ((filter (fun kv => goes now m kv.2 = true) (map_to_list (assocs m))).*2) : gset nat))) x) as [-> ->].
    split; [|done]. destruct Hin as [Hin|Hd]; [|right; by destruct (bool_decide _)].
    destruct (goes now m a) eqn:Hg; [right|left; by apply sweep_assocs].
    rewrite bool_decide_true by by apply (goes_dead now m _ a Hin). done.
  - intros a [x (x0 & Hx & _)%sweep_heap]. apply Hn. by eexists.
  - unfold cap in *. rewrite Hcap. pose proof (sweep_size now m). lia.
Qed.

(** Changing an association without its source, and not reopening it. *)
Lemma alter_ok f b m :
  (forall x, raddr (f x) = raddr x) -> (forall x, done_ x = true -> done_ (f x) = true) -> (forall x, conn x = true -> conn (f x) = true) ->
  mux_ok m -> mux_ok (set_heap (alter f b (heap m)) m).
Proof.
  intros Hr Hd Hc [He Hs Hn Hz]. split; cbn [set_heap heap assocs serving next].
  - intros k a Hk. destruct (He k a Hk) as (x & Hx & -> & Hv). destruct (decide (a = b)) as [->|].
    + exists (f x). by rewrite lookup_alter_eq, Hx, Hr.
    + exists x. by rewrite lookup_alter_ne.
  - intros a st Hst. destruct (Hs a st Hst) as (x & Hx & Hin & Hcx). destruct (decide (a = b)) as [->|].
    + exists (f x). rewrite lookup_alter_eq, Hx, Hr. naive_solver.
    + exists x. by rewrite lookup_alter_ne.
  - intros a Ha. apply Hn. destruct (decide (a = b)) as [->|]; [|by rewrite lookup_alter_ne in Ha].
    rewrite lookup_alter_eq in Ha. destruct Ha as [x Hx]. destruct (heap m !! b); [by eexists|done].
  - apply Hz.
Qed.

Lemma stage_ok a st m : is_Some (serving m !! a) -> (st = Reading -> exists x, heap m !! a = Some x /\ conn x = true) ->
  mux_ok m -> mux_ok (set_serving (<[a := st]> (serving m)) m).
Proof.
  intros [st0 Hst0] Hrd [He Hs Hn Hz]. split; cbn [set_serving heap assocs serving next]; try done.
  - intros k b Hk. destruct (He k b Hk) as (x & Hx & -> & Hv). exists x. split_and!; try done.
    destruct (decide (b = a)) as [->|]; [by rewrite lookup_insert_eq|by rewrite lookup_insert_ne].
  - intros b st' Hb. destruct (decide (b = a)) as [->|]; [|rewrite lookup_insert_ne in Hb by done; by apply Hs].
    rewrite lookup_insert_eq in Hb. injection Hb as <-. destruct (Hs a st0 Hst0) as (x & Hx & Hin & _). exists x. split_and!; try done.
    intros Hr. destruct (Hrd Hr) as (x' & Hx' & Hc). congruence.
Qed.

Lemma deliver_same raw x : raddr (deliver raw x) = raddr x /\ done_ (deliver raw x) = done_ x /\ conn (deliver raw x) = conn x.
Proof. unfold deliver. by destruct (_ || _). Qed.

Lemma route_ok raw src now m : mux_ok m -> mux_ok (route raw src now m).
Proof.
  intros Hok. unfold route, assocFor. cbv zeta. destruct (assocs m !! UDPAddr_String src) as [a|] eqn:Hk.
  - apply alter_ok; [intros x; apply deliver_same|intros x; by rewrite (proj1 (proj2 (deliver_same raw x)))|
      intros x; by rewrite (proj2 (proj2 (deliver_same raw x)))|]. by apply alter_ok.
  - destruct (negb _); [done|]. set (m1 := if dtlsAssocSweep <? _ then _ else m).
    assert (mux_ok m1) as Hok1 by (unfold m1; destruct (_ <? _); [by apply sweep_ok|done]).
    assert (assocs m1 !! UDPAddr_String src = None) as Hk1.
    { unfold m1. destruct (_ <? _); [|done]. destruct (assocs (sweepLocked now m) !! UDPAddr_String src) eqn:Hx; [|done].
      apply sweep_assocs in Hx as [Hx _]. congruence. }
    clearbody m1. clear Hok Hk m. destruct (Z.leb_spec (cap m1) (Z.of_nat (size (assocs m1)))) as [|Hlt]; [done|].
    apply alter_ok; [intros x; apply deliver_same|intros x; by rewrite (proj1 (proj2 (deliver_same raw x)))|
      intros x; by rewrite (proj2 (proj2 (deliver_same raw x)))|].
    destruct Hok1 as [He Hs Hn Hz].
    assert (heap m1 !! next m1 = None) as Hfree.
    { destruct (heap m1 !! next m1) eqn:Hx; [|done]. pose proof (Hn (next m1) (ex_intro _ _ Hx)). lia. }
    assert (serving m1 !! next m1 = None) as Hfree'.
    { destruct (serving m1 !! next m1) as [st|] eqn:Hx; [|done]. destruct (Hs _ _ Hx) as (x & Hx' & _). congruence. }
    split; cbn [set_serving heap assocs serving next].
    + intros k b Hb. destruct (decide (k = UDPAddr_String src)) as [->|Hne].
      * rewrite lookup_insert_eq in Hb. injection Hb as <-. eexists. split; [by rewrite lookup_insert_eq|]. split; [done|]. by rewrite lookup_insert_eq.
      * rewrite lookup_insert_ne in Hb by done. destruct (He k b Hb) as (x & Hx & -> & Hv). exists x.
        assert (b <> next m1) by (intros ->; congruence). by rewrite !lookup_insert_ne.
    + intros b st Hb. destruct (decide (b = next m1)) as [->|Hne].
      * rewrite lookup_insert_eq in Hb. injection Hb as <-. eexists. split; [by rewrite lookup_insert_eq|]. split; [left; by rewrite lookup_insert_eq|done].
      * rewrite lookup_insert_ne in Hb by done. destruct (Hs b st Hb) as (x & Hx & Hin & Hc). exists x. rewrite lookup_insert_ne by done.
        split; [done|]. split; [|done]. destruct Hin as [Hin|Hd]; [left|by right]. rewrite lookup_insert_ne; [done|]. intros Heq. rewrite <-Heq in Hin. congruence.
    + intros b. destruct (decide (b = next m1)) as [->|]; [lia|]. rewrite lookup_insert_ne by done. intros Hb. pose proof (Hn b Hb). lia.
    + unfold cap in *. cbn [set_serving capacity]. rewrite map_size_insert_None by done. lia.
Qed.

Lemma drop_ok a m : serving m !! a = Some Dropping -> mux_ok m -> mux_ok (set_serving (delete a (serving m)) (drop_ a m)).
Proof.
  intros Hst [He Hs Hn Hz]. destruct (Hs a _ Hst) as (x & Hx & Hin & _). unfold drop_. rewrite Hx.
  assert (forall b, b <> a -> forall y, heap m !! b = Some y -> <[a := close x]> (heap m) !! b = Some y) as Hother
    by (intros b Hb y Hy; by rewrite lookup_insert_ne).
  assert (forall b, is_Some (<[a := close x]> (heap m) !! b) -> (b < next m)%nat) as Hnext.
  { intros b. destruct (decide (b = a)) as [->|]; [intros _; apply Hn; by eexists|rewrite lookup_insert_ne by done; apply Hn]. }
  assert (forall b st, delete a (serving m) !! b = Some st -> b <> a /\ serving m !! b = Some st) as Hdel
    by (intros b st; rewrite lookup_delete_Some; naive_solver).
  case_bool_decide as Hk; cbn [set_heap assocs] in Hk; split; cbn [set_serving set_assocs set_heap heap assocs serving next]; try done.
  - intros k b [Hne Hb]%lookup_delete_Some. destruct (He k b Hb) as (y & Hy & -> & Hv).
    assert (b <> a) by (intros ->; congruence). exists y. rewrite lookup_delete_ne by done. split; [by apply Hother|done].
  - intros b st [Hne Hb]%Hdel. destruct (Hs b st Hb) as (y & Hy & Hy' & Hc). exists y. split; [by apply Hother|]. split; [|done].
    destruct Hy' as [Hy'|]; [left|by right]. rewrite lookup_delete_ne; [done|]. intros Heq. rewrite <-Heq in Hy'. congruence.
  - unfold cap in *. cbn [capacity set_serving set_assocs set_heap] in *. rewrite map_size_delete_Some by (by eexists). lia.
  - intros k b Hb. destruct (He k b Hb) as (y & Hy & -> & Hv).
    assert (b <> a) by (intros ->; simplify_eq). exists y. rewrite lookup_delete_ne by done. split; [by apply Hother|done].
  - intros b st [Hne Hb]%Hdel. destruct (Hs b st Hb) as (y & Hy & Hy' & Hc). exists y. split; [by apply Hother|done].
Qed.

Lemma mux_step_ok m l : mux_ok m -> mux_ok (mux_step m l).
Proof.
  intros Hok. destruct l as [raw src now|a ok|a now|a|a|a|now]; cbn [mux_step].
  - by apply route_ok.
  - case_bool_decide as Hst; [|done]. destruct ok; [|by apply stage_ok; [eexists| |]].
    destruct (ok_served _ Hok a _ Hst) as (x & Hx & _).
    apply (stage_ok a Reading (set_heap (alter connected a (heap m)) m)); [by eexists| |by apply alter_ok].
    intros _. exists (connected x). cbn. by rewrite lookup_alter_eq, Hx.
  - case_bool_decide as Hst; [|done]. by apply alter_ok.
  - case_bool_decide as Hst; [|done]. by apply stage_ok; [eexists| |].
  - case_bool_decide as Hst; [|done]. by apply alter_ok.
  - case_bool_decide as Hst; [|done]. by apply drop_ok.
  - by apply sweep_ok.
Qed.

Lemma reachable_ok c m : reachable c m -> mux_ok m.
Proof.
  intros [l ->]. assert (mux_ok (MkMux c ∅ time_zero ∅ ∅ 0)) as H0.
  { split; cbn [heap assocs serving next].
    - intros k a Hk. by rewrite lookup_empty in Hk.
    - intros a st Ha. by rewrite lookup_empty in Ha.
    - intros a Ha. rewrite lookup_empty in Ha. by destruct Ha.
    - rewrite map_size_empty. unfold cap, maxDTLSAssocs. cbn. destruct (Z.ltb_spec 0 c); lia. }
  revert H0. generalize (MkMux c ∅ time_zero ∅ ∅ 0). induction l as [|x l IH]; intros m Hm; [done|]. cbn. apply IH. by apply mux_step_ok.
Qed.

Lemma mux_step_capacity m l : capacity (mux_step m l) = capacity m.
Proof.
  destruct l; cbn [mux_step]; unfold route, assocFor, drop_; repeat case_match; simplify_eq; try done.
  all: repeat match goal with H : context [if ?b then _ else _] |- _ => destruct b end; simplify_eq; done.
Qed.
Lemma reachable_capacity c m : reachable c m -> capacity m = c.
Proof.
  intros [l ->]. assert (capacity (MkMux c ∅ time_zero ∅ ∅ 0) = c) as H0 by done.
  revert H0. generalize (MkMux c ∅ time_zero ∅ ∅ 0). induction l as [|x l IH]; intros m Hm; [done|]. cbn. apply IH. by rewrite mux_step_capacity.
Qed.

Lemma binding_success_first raw : LooksLikeBindingSuccess raw = true -> at_ raw 0 = 1.
Proof.
  unfold LooksLikeBindingSuccess. destruct (Nat.ltb_spec (List.length raw) headerLen) as [|Hl]; [done|].
  destruct (Z.eqb_spec (uint_at raw 0 2) typeBindingSuccess) as [Hu|]; [|done]. intros _. unfold headerLen in Hl.
  destruct raw as [|c [|d raw]]; cbn in Hl; [lia..|]. unfold uint_at, slice, typeBindingSuccess in Hu. cbn in Hu.
  rewrite take_0 in Hu. cbn in Hu. pose proof (octet_range c). pose proof (octet_range d). unfold at_. cbn. lia.
Qed.

(** C24: The table of associations over any run, whatever arrives and however handshakes, reads
    and sweeps come between: it never holds more than its capacity; each entry is an
    association of the source it is found under, and one goroutine serves it; an
    association that is out of the table is closed, so its goroutine ends, and no goroutine
    takes another's entry with it. *)
Theorem table_is_kept capacity m :
  reachable capacity m ->
  Z.of_nat (size (assocs m)) <= (if 0 <? capacity then capacity else maxDTLSAssocs) /\
  (forall k a, assocs m !! k = Some a -> exists x, heap m !! a = Some x /\ k = UDPAddr_String (raddr x) /\ is_Some (serving m !! a)) /\
  (forall a st x, serving m !! a = Some st -> heap m !! a = Some x -> assocs m !! UDPAddr_String (raddr x) = Some a \/ done_ x = true) /\
  (forall a k b, serving m !! a = Some Dropping -> assocs m !! k = Some b -> b <> a -> assocs (mux_step m (MDrop a)) !! k = Some b).
Proof.
  intros Hr. pose proof (reachable_ok _ _ Hr) as Hok. split_and!.
  - pose proof (ok_size _ Hok) as Hz. unfold cap in Hz. by rewrite (reachable_capacity _ _ Hr) in Hz.
  - apply Hok.
  - intros a st x Hst Hx. destruct (ok_served _ Hok a st Hst) as (y & Hy & Hin & _). congruence.
  - intros a k b Hst Hk Hne. cbn. rewrite bool_decide_true by done. unfold drop_. destruct (heap m !! a) as [x|]; [|done].
    case_bool_decide as Hd; [|done]. cbn [set_heap assocs set_serving set_assocs] in *. rewrite lookup_delete_ne; [done|]. intros Heq. congruence.
Qed.

(** What a sweep leaves: exactly the entries that are open and were heard from within the
    idle time; the others are closed. *)
Theorem sweep_is_exact capacity m now :
  reachable capacity m ->
  (forall k a, assocs (sweepLocked now m) !! k = Some a <->
     assocs m !! k = Some a /\ exists x, heap m !! a = Some x /\ done_ x = false /\ time_Sub now (a_lastSeen x) <= dtlsAssocIdle) /\
  (forall k a x, assocs m !! k = Some a -> assocs (sweepLocked now m) !! k = None -> heap (sweepLocked now m) !! a = Some x -> done_ x = true).
Proof.
  intros Hr. pose proof (reachable_ok _ _ Hr) as Hok. split.
  - intros k a. rewrite sweep_assocs. unfold goes. split; intros [Hk Hg]; (split; [done|]).
    + destruct (ok_entry _ Hok k a Hk) as (x & Hx & _). rewrite Hx in Hg. exists x. apply orb_false_iff in Hg as [? ?%Z.ltb_ge]. done.
    + destruct Hg as (x & -> & -> & Hg). cbn. by apply Z.ltb_ge.
  - intros k a x Hk Hgone (x0 & Hx0 & ->)%sweep_heap. destruct (goes now m a) eqn:Hg.
    + rewrite bool_decide_true by by apply (goes_dead now m k a Hk). done.
    + assert (assocs (sweepLocked now m) !! k = Some a) as Hin by by apply sweep_assocs. congruence.
Qed.

(** ** The shape of a reply *)

Section Replies.
Context `{FloatPlatform} `{Ed25519} `{JSON Credential} `{JSON IssuerCert} `{JSON DeviceCredential} `{JSON wire}.
Context (cfg : Config).

(** C25: A message that comes inside an association is answered inside it: while the
    association is in the table under its source, every reply to that source leaves in it. *)
Theorem answered_in_shape capacity i m s a x w now ms' out :
  reachable capacity m -> serving m !! a = Some Reading -> heap m !! a = Some x -> assocs m !! UDPAddr_String (raddr x) = Some a ->
  read_message cfg i a w now (m, s) = (ms', out) ->
  forall to r sh, (to, r, sh) ∈ out -> UDPAddr_String to = UDPAddr_String (raddr x) -> sh = Shaped a.
Proof.
  intros Hr Hst Hx Hin Hread to r sh Hout Hto. pose proof (reachable_ok _ _ Hr) as Hok.
  destruct (ok_served _ Hok a _ Hst) as (x' & Hx' & _ & Hc). assert (x' = x) as -> by congruence. specialize (Hc eq_refl).
  unfold read_message in Hread. rewrite Hst, Hx in Hread. unfold serve in Hread. destruct (handle cfg i s w (raddr x)) as [s' o].
  injection Hread as <- <-. apply list_elem_of_fmap in Hout as ([to' r'] & Heq & _). cbn in Heq. injection Heq as -> -> ->.
  unfold shape_of, replyTo. cbn [mux_step]. rewrite bool_decide_true by done. cbn [set_heap assocs heap]. rewrite Hto, Hin. cbn.
  rewrite lookup_alter_eq, Hx. cbn. by rewrite Hc.
Qed.

(** A peer that has been quiet for longer than the idle time is, after the next sweep,
    written to in the clear, whatever shape it spoke; and a link that speaks the shape does
    not take such a message, whose text begins as every object's does. *)
Theorem quiet_peer_is_written_to_in_clear capacity m now a x to raw :
  reachable capacity m -> assocs m !! UDPAddr_String to = Some a -> heap m !! a = Some x ->
  dtlsAssocIdle < time_Sub now (a_lastSeen x) -> at_ raw 0 = 123 ->
  shape_of (sweepLocked now m) to = Clear /\ link_gets raw = Unshaped.
Proof.
  intros Hr Hin Hx Hidle Hraw. split.
  - unfold shape_of, replyTo. destruct (assocs (sweepLocked now m) !! UDPAddr_String to) as [b|] eqn:Hb; [|done]. exfalso.
    apply sweep_assocs in Hb as [Hb Hg]. assert (b = a) as -> by congruence. unfold goes in Hg. rewrite Hx in Hg.
    apply orb_false_iff in Hg as [_ Hg%Z.ltb_ge]. lia.
  - unfold link_gets. destruct (looksLikeDTLS raw) eqn:Hd.
    + apply looksLikeDTLS_first in Hd. rewrite Hraw in Hd. set_solver.
    + destruct (LooksLikeBindingSuccess raw) eqn:Hs; [|done]. apply binding_success_first in Hs. lia.
Qed.
End Replies.

(** ** A client behind its association *)

Module Demo.
Export Crypto.Toy Estimator.Demo Coordinator.Demo.
#[export] Existing Instance toy_json.
#[export] Instance toy_wire : JSON wire := {
  Marshal _ := bytes_of "{}";
  Unmarshal b := if bool_decide (b = bytes_of "{}") then Some connect else None;
  Decode b := if bool_decide (b = bytes_of "{}") then Some connect else None;
}.
(** A handshake record. *)
Definition hello_record : bytes := byte_of 22 :: byte_of 0xfe :: byte_of 0xfd :: repeat Ascii.zero 10.
Definition up : list mux_label := [MDatagram hello_record client_src Hour; MHandshake 0 true].
Definition mux : rendezvousMux := mux_run up newRendezvousMux.
(** The client connects inside its association and signals; five minutes pass. *)
Definition asked := read_message full_cfg (Coordinator.Demo.at_ 3 "s1") 0 connect (Hour + 3 * Second) (mux, s_ready).
Definition offer : wire :=
  MkWire "offer" "" "" "" "" "" "s1" "" "" "" [] "" [] "sdp" [] "" 0 [] "" "" "" "" "" "" 0 0 0 0 "" None [] "" "" "" "".
Definition signaled_ := read_message full_cfg (Coordinator.Demo.at_ 4 "") 0 offer (Hour + 4 * Second) asked.1.
Definition later : Time := Hour + 5 * Minute.
Definition quiet : rendezvousMux := sweepLocked later signaled_.1.1.
End Demo.
Import Demo.

Lemma mux_reachable : reachable 0 Demo.mux.
Proof. by exists up. Qed.

Lemma datagrams_are_told_apart_witness :
  packet_of (bytes_of "{}") client_src = Message connect /\ packet_of hello_record client_src = Dtls.
Proof.
  split.
  - assert (packet_of (bytes_of "{}") client_src = match Unmarshal (bytes_of "{}") with Some w => Message w | None => Junk end) as Hp;
      [|exact Hp]. apply (datagrams_are_told_apart (bytes_of "{}") client_src). by vm_compute.
  - apply (datagrams_are_told_apart hello_record client_src). by vm_compute.
Defined.

Lemma table_is_kept_witness :
  size (assocs Demo.mux) = 1%nat /\ Z.of_nat (size (assocs Demo.mux)) <= maxDTLSAssocs.
Proof.
  split; [vm_compute; reflexivity|]. exact (proj1 (table_is_kept 0 Demo.mux (ex_intro _ up eq_refl))).
Defined.

Lemma sweep_is_exact_witness :
  assocs (sweepLocked (Hour + Minute) Demo.mux) !! UDPAddr_String client_src = Some 0%nat /\
  assocs (sweepLocked (Hour + 3 * Minute) Demo.mux) !! UDPAddr_String client_src = None.
Proof.
  assert (assocs Demo.mux !! UDPAddr_String client_src = Some 0%nat) as Hin by (vm_compute; reflexivity). split.
  - apply (sweep_is_exact 0 Demo.mux (Hour + Minute) (ex_intro _ up eq_refl)). split; [exact Hin|].
    eexists. split; [vm_compute; reflexivity|]. split; [reflexivity|]. by vm_compute.
  - destruct (assocs (sweepLocked (Hour + 3 * Minute) Demo.mux) !! UDPAddr_String client_src) as [a|] eqn:Ha; [exfalso|reflexivity].
    apply (proj1 (sweep_is_exact 0 Demo.mux (Hour + 3 * Minute) (ex_intro _ up eq_refl))) in Ha as (Ha & x & Hx & _ & Hi).
    assert (a = 0%nat) as -> by congruence. vm_compute in Hx. injection Hx as <-. vm_compute in Hi. by apply Hi.
Defined.

Lemma answered_in_shape_witness :
  (0 < List.length Demo.asked.2)%nat /\ forall to r sh, (to, r, sh) ∈ Demo.asked.2 -> UDPAddr_String to = UDPAddr_String client_src -> sh = Shaped 0.
Proof.
  split; [apply Nat.ltb_lt; vm_compute; reflexivity|].
  assert (serving Demo.mux !! 0%nat = Some Reading) as Hs by (vm_compute; reflexivity).
  destruct (heap Demo.mux !! 0%nat) as [x|] eqn:Hx; [|vm_compute in Hx; discriminate Hx].
  assert (raddr x = client_src) as Hr by (vm_compute in Hx; injection Hx as <-; reflexivity).
  assert (assocs Demo.mux !! UDPAddr_String (raddr x) = Some 0%nat) as Hin by (rewrite Hr; vm_compute; reflexivity).
  assert (read_message full_cfg (Coordinator.Demo.at_ 3 "s1") 0 connect (Hour + 3 * Second) (Demo.mux, s_ready) = (Demo.asked.1, Demo.asked.2)) as Hread
    by apply surjective_pairing.
  rewrite <-Hr.
  exact (answered_in_shape full_cfg 0 (Coordinator.Demo.at_ 3 "s1") Demo.mux s_ready 0 x connect (Hour + 3 * Second) Demo.asked.1 Demo.asked.2
    (ex_intro _ up eq_refl) Hs Hx Hin Hread).
Defined.

Lemma quiet_peer_is_written_to_in_clear_witness :
  shape_of (sweepLocked (Hour + 3 * Minute) Demo.mux) client_src = Clear /\ link_gets (Marshal (msg_reselect "s1")) = Unshaped.
Proof.
  destruct (heap Demo.mux !! 0%nat) as [x|] eqn:Hx; [|vm_compute in Hx; discriminate Hx].
  apply (quiet_peer_is_written_to_in_clear 0 Demo.mux (Hour + 3 * Minute) 0 x client_src (Marshal (msg_reselect "s1")) (ex_intro _ up eq_refl)).
  - by vm_compute.
  - exact Hx.
  - vm_compute in Hx. injection Hx as <-. by vm_compute.
  - by vm_compute.
Defined.

(** A client connects through a relay, inside its association, and then is silent, as
    clients are while their traffic flows. Five minutes later the relay is gone: the notice
    to choose another leaves in the clear, and the client's link does not take it. *)
Example reselect_is_not_heard :
  (fun o => (o.1, o.2, shape_of Demo.quiet o.1)) <$> (sweepTick Demo.signaled_.1.2 Demo.later map_to_list).2
    = [(client_src, msg_reselect "s1", Clear)] /\
  link_gets (Marshal (msg_reselect "s1")) = Unshaped.
Proof. split; vm_compute; reflexivity. Qed.
