(* ===== verification/UDPRelay.v ===== *)
(** * Datagrams through the tunnel: [core/udprelay.go]

    One association of a local program is one flow to one destination: its datagrams are
    taken off the local socket, framed into the stream to the exit, and written to a socket
    there; what comes back goes the other way. Both frames, the loops of the two ends with
    everything that stops them, the accounting and the limits of an exit, and the reaper of
    idle flows. The stream between them delivers a prefix of what was written to it; the
    chain under it is dialed by [ChainDial]. *)

From S2P Require Import Prelude GoStrings Base64 Net.
From S2P Require E2E Accounting Quota.
Local Open Scope Z_scope.

Definition maxUDPDatagram : Z := 65535.
Definition udpIdleTimeout : Duration := 45 * Second.

(** ** The frames of the stream *)

Definition writeUDPFrame (payload : bytes) : option bytes :=
  if maxUDPDatagram <? Z.of_nat (List.length payload) then None
  else Some (be_bytes 2 (Z.of_nat (List.length payload)) ++ payload).

(** From what the stream gives before it ends, into a buffer of [size] bytes. *)
Definition readUDPFrame (r : bytes) (size : Z) : option (bytes * bytes) :=
  if (List.length r <? 2)%nat then None
  else
    let n := be_value (firstn 2 r) in
    if size <? n then None
    else
      let r := skipn 2 r in
      if Z.of_nat (List.length r) <? n then None else Some (firstn (Z.to_nat n) r, skipn (Z.to_nat n) r).

(** ** The frames of the local socket *)

Definition socksUDPHeaderLen : nat := 2 + 1 + 1 + 4 + 2.

Definition decodeSOCKSUDPFrame (b : bytes) : option (bytes * bytes * Z) :=
  let at_ i := match b !! i with Some c => octet c | None => 0 end in
  if (List.length b <? socksUDPHeaderLen)%nat
    || negb (at_ 0%nat =? 0) || negb (at_ 1%nat =? 0) || negb (at_ 2%nat =? 0) || negb (at_ 3%nat =? 1) then None
  else
    Some (skipn socksUDPHeaderLen b, firstn 4 (skipn 4 b), be_value (firstn 2 (skipn 8 b))).

(** [copy] of the four bytes of an IPv4 address; nothing is copied of another. *)
Definition encodeSOCKSUDPFrame (ip : bytes) (port : Z) (payload : bytes) : bytes :=
  repeat Ascii.zero 3 ++ [byte_of 1] ++
  match To4 ip with Some v4 => v4 | None => repeat Ascii.zero 4 end ++ be_bytes 2 port ++ payload.

(** ** The idle reaper *)

Definition reaper_period (idle : Duration) : Duration := idle / 3 + 1.
Definition reaps (idle : Duration) (lastActivity now : Time) : bool := idle <=? time_Sub now lastActivity.

(** ** The exit's end *)

(** What a turn of a loop meets: the clock; whether the tier's pace and the operator's cap
    let it through (they fail only at shutdown); whether the quota's checkpoints are written;
    whether its own write succeeds. *)
Record Turn := MkTurn { now_ : Time; paced : bool; capped : bool; ok0 : bool; ok1 : bool; ok2 : bool; written : bool }.

Abbreviation Meter := (option (Quota.Quota * Quota.File)) (only parsing).

Record exitFlow := MkExitFlow {
  x_open : bool; x_in : bytes; to_dest : list bytes; to_stream : bytes;
  x_ctr : option Accounting.Counter; meter : Meter; x_last : Time;
}.

(** A turn of the loop that reads the stream, of the one that reads the socket (with what
    arrived there), a tick of the reaper, and anything else that closes either end. *)
Inductive exit_label := XFrame (x : Turn) | XDatagram (d : bytes) (x : Turn) | XTick (now : Time) | XClosed.

Section Exit.
Context (offset : Duration).

(** [meterN] *)
Definition meterN (m : Meter) (n : Z) (x : Turn) : bool * Meter :=
  if n <=? 0 then (true, m)
  else
    match m with
    | None => (capped x, None)
    | Some (q, f) =>
        let '(spent, (q, f)) := Quota.Exhausted offset q f (now_ x) (ok0 x) in
        if spent then (false, Some (q, f))
        else (capped x, Some (Quota.AddForwarded offset q n f (now_ x) (ok1 x) (ok2 x)))
    end.

Definition x_stop (e : exitFlow) : exitFlow :=
  MkExitFlow false (x_in e) (to_dest e) (to_stream e) (x_ctr e) (meter e) (x_last e).

(** What both loops do with a datagram of [n] bytes before they write it. *)
Definition moved (n : Z) (x : Turn) (e : exitFlow) : bool * exitFlow :=
  let ctr := (fun c => Accounting.Add c n) <$> x_ctr e in
  if negb (paced x) then (false, MkExitFlow (x_open e) (x_in e) (to_dest e) (to_stream e) ctr (meter e) (now_ x))
  else
    let '(ok, m) := meterN (meter e) n x in
    (ok, MkExitFlow (x_open e) (x_in e) (to_dest e) (to_stream e) ctr m (now_ x)).

(** A turn whose flow is stopped in the middle of it is a turn whose write fails. *)
Definition exit_step (e : exitFlow) (l : exit_label) : exitFlow :=
  if negb (x_open e) then e
  else
    match l with
    | XFrame x =>
        match readUDPFrame (x_in e) maxUDPDatagram with
        | None => x_stop e
        | Some (payload, rest) =>
            let '(ok, e) := moved (Z.of_nat (List.length payload)) x
              (MkExitFlow (x_open e) rest (to_dest e) (to_stream e) (x_ctr e) (meter e) (x_last e)) in
            if ok && written x
            then MkExitFlow (x_open e) (x_in e) (to_dest e ++ [payload]) (to_stream e) (x_ctr e) (meter e) (x_last e)
            else x_stop e
        end
    | XDatagram d x =>
        let d := firstn (Z.to_nat maxUDPDatagram) d in
        let '(ok, e) := moved (Z.of_nat (List.length d)) x e in
        if negb ok then x_stop e
        else
          match writeUDPFrame d with
          | Some b =>
              if written x
              then MkExitFlow (x_open e) (x_in e) (to_dest e) (to_stream e ++ b) (x_ctr e) (meter e) (x_last e)
              else x_stop e
          | None => x_stop e
          end
    | XTick now => if reaps udpIdleTimeout (x_last e) now then x_stop e else e
    | XClosed => x_stop e
    end.
Definition exit_run (l : list exit_label) (e : exitFlow) : exitFlow := foldl exit_step e l.
End Exit.

(** [exitTerminateUDP], once the socket to [target] is there. *)
Definition exitTerminateUDP (stream : bytes) (ctr : option Accounting.Counter) (m : Meter) (now : Time) : exitFlow :=
  MkExitFlow true stream [] [] ctr m now.

(** ** The client's end *)

Record association := MkAssociation {
  a_open : bool; target : string; from : UDPAddr; a_ip : bytes; a_port : Z;
  a_in : bytes; to_exit : bytes; replies : list bytes; a_ctr : Accounting.Counter; a_last : Time;
}.

Definition relay_buffer (b : bytes) : bytes := firstn (Z.to_nat maxUDPDatagram + socksUDPHeaderLen) b.

(** [serveSOCKSUDPAssociate] up to its loops: the first datagram names the destination and
    the peer; [stream] is what the exit will answer; [dialed] and [wrote] are whether the
    channel came up and took the first datagram. *)
Definition serveSOCKSUDPAssociate (first : bytes) (src : UDPAddr) (stream : bytes) (ctr : Accounting.Counter) (now : Time)
    (dialed wrote : bool) : option association :=
  '(payload, ip, port) ← decodeSOCKSUDPFrame (relay_buffer first);
  if negb dialed then None
  else
    b ← writeUDPFrame payload;
    if negb wrote then None
    else Some (MkAssociation true (string_of (JoinHostPort (ip_String ip) (bytes_of (Itoa port)))) src ip port stream b []
                 (Accounting.Add ctr (Z.of_nat (List.length payload))) now).

(** A datagram on the local socket, a frame of the stream, a tick of the reaper, and the end
    of the control connection or of either socket. *)
Inductive assoc_label :=
| ADatagram (b : bytes) (src : UDPAddr) (now : Time) (wrote : bool)
| AFrame (now : Time) (wrote : bool) | ATick (now : Time) | AClosed.

Definition a_stop (a : association) : association :=
  MkAssociation false (target a) (from a) (a_ip a) (a_port a) (a_in a) (to_exit a) (replies a) (a_ctr a) (a_last a).

(** What a datagram of the local socket carries for this flow, if it is its. *)
Definition own (a : association) (b : bytes) (src : UDPAddr) : option bytes :=
  if negb (addr_Port src =? addr_Port (from a)) || negb (IP_Equal (addr_IP src) (addr_IP (from a))) then None
  else
    '(p, dstIP, dstPort) ← decodeSOCKSUDPFrame (relay_buffer b);
    if negb (dstPort =? a_port a) || negb (IP_Equal dstIP (a_ip a)) then None else Some p.

Definition assoc_step (a : association) (l : assoc_label) : association :=
  if negb (a_open a) then a
  else
    match l with
    | ADatagram b src now wrote =>
        match own a b src with
        | None => a
        | Some p =>
            let a := MkAssociation (a_open a) (target a) (from a) (a_ip a) (a_port a) (a_in a) (to_exit a) (replies a)
                       (Accounting.Add (a_ctr a) (Z.of_nat (List.length p))) now in
            match writeUDPFrame p with
            | Some fr => if wrote then MkAssociation (a_open a) (target a) (from a) (a_ip a) (a_port a) (a_in a) (to_exit a ++ fr)
                                         (replies a) (a_ctr a) (a_last a)
                         else a_stop a
            | None => a_stop a
            end
        end
    | AFrame now wrote =>
        match readUDPFrame (a_in a) maxUDPDatagram with
        | None => a_stop a
        | Some (p, rest) =>
            let a := MkAssociation (a_open a) (target a) (from a) (a_ip a) (a_port a) rest (to_exit a) (replies a)
                       (Accounting.Add (a_ctr a) (Z.of_nat (List.length p))) now in
            if wrote then MkAssociation (a_open a) (target a) (from a) (a_ip a) (a_port a) (a_in a) (to_exit a)
                            (replies a ++ [encodeSOCKSUDPFrame (a_ip a) (a_port a) p]) (a_ctr a) (a_last a)
            else a_stop a
        end
    | ATick now => if reaps udpIdleTimeout (a_last a) now then a_stop a else a
    | AClosed => a_stop a
    end.
Definition assoc_run (l : list assoc_label) (a : association) : association := foldl assoc_step a l.

(** ** Frames *)

Lemma read_is_take r : readUDPFrame r maxUDPDatagram = E2E.takeFrame r.
Proof.
  unfold readUDPFrame, E2E.takeFrame. destruct (Nat.ltb_spec (List.length r) 2) as [|Hl]; [done|]. cbv zeta.
  pose proof (be_value_range (firstn 2 r)) as Hr. rewrite length_take, Nat.min_l in Hr by lia. change (256 ^ Z.of_nat 2) with 65536 in Hr.
  rewrite (proj2 (Z.ltb_ge maxUDPDatagram _)) by (unfold maxUDPDatagram; lia).
  rewrite length_drop, drop_drop.
  destruct (Z.ltb_spec (Z.of_nat (List.length r - 2)) (be_value (firstn 2 r))) as [Hlt|Hge].
  - by rewrite (proj2 (Nat.ltb_lt _ _)) by lia.
  - by rewrite (proj2 (Nat.ltb_ge _ _)) by lia.
Qed.
Lemma write_is_frame p b : writeUDPFrame p = Some b <-> Z.of_nat (List.length p) <= maxUDPDatagram /\ b = E2E.frame_of p.
Proof.
  unfold writeUDPFrame, E2E.frame_of. destruct (Z.ltb_spec maxUDPDatagram (Z.of_nat (List.length p))); [split; [done|lia]|].
  split; [intros [= <-]; done|by intros [_ ->]].
Qed.

Definition short (p : bytes) : Prop := Z.of_nat (List.length p) <= maxUDPDatagram.
Definition frames : list bytes -> bytes := E2E.frames.
Lemma frames_cons p ps : frames (p :: ps) = E2E.frame_of p ++ frames ps.
Proof. done. Qed.
Lemma frames_snoc ps p : frames (ps ++ [p]) = frames ps ++ E2E.frame_of p.
Proof. unfold frames, E2E.frames. rewrite fmap_app, List.concat_app. cbn. by rewrite app_nil_r. Qed.

(** What is read of a prefix of some frames is the first of them. *)
Lemma read_prefix_of_frames r ps : Forall short ps -> r `prefix_of` frames ps ->
  match readUDPFrame r maxUDPDatagram with
  | Some (p, rest) => exists ps', ps = p :: ps' /\ rest `prefix_of` frames ps'
  | None => True
  end.
Proof.
  intros Hs [z Hz]. rewrite read_is_take. destruct (E2E.takeFrame r) as [[p rest]|] eqn:Ht; [|done].
  apply (E2E.takeFrame_app r z) in Ht. rewrite <-Hz in Ht. destruct ps as [|q ps']; [done|].
  apply Forall_cons in Hs as [Hq _]. rewrite frames_cons in Ht. rewrite E2E.takeFrame_frame in Ht by exact Hq.
  injection Ht as -> Hr. exists ps'. split; [done|]. by exists z.
Qed.

(** ** The local frames *)

Lemma octet_is c n : octet c = n -> c = byte_of n.
Proof. intros <-. by rewrite byte_of_octet. Qed.

(** What is taken off the local socket is exactly what an encoder of the header would have
    put there: the address, the port and the payload come back, and nothing else is
    accepted. *)
Theorem socks_frame_exact b p ip port :
  decodeSOCKSUDPFrame b = Some (p, ip, port) <->
  List.length ip = 4%nat /\ 0 <= port < 65536 /\ b = encodeSOCKSUDPFrame ip port p.
Proof.
  unfold decodeSOCKSUDPFrame, encodeSOCKSUDPFrame, socksUDPHeaderLen. cbv zeta. split.
  - destruct b as [|b0 [|b1 [|b2 [|b3 [|b4 [|b5 [|b6 [|b7 [|b8 [|b9 b]]]]]]]]]]; try done.
    change ((S (S (S (S (S (S (S (S (S (S (List.length b)))))))))) <? 2 + 1 + 1 + 4 + 2)%nat) with false.
    change ((b0 :: b1 :: b2 :: b3 :: b4 :: b5 :: b6 :: b7 :: b8 :: b9 :: b) !! 0%nat) with (Some b0).
    change ((b0 :: b1 :: b2 :: b3 :: b4 :: b5 :: b6 :: b7 :: b8 :: b9 :: b) !! 1%nat) with (Some b1).
    change ((b0 :: b1 :: b2 :: b3 :: b4 :: b5 :: b6 :: b7 :: b8 :: b9 :: b) !! 2%nat) with (Some b2).
    change ((b0 :: b1 :: b2 :: b3 :: b4 :: b5 :: b6 :: b7 :: b8 :: b9 :: b) !! 3%nat) with (Some b3). cbv beta iota.
    destruct (Z.eqb_spec (octet b0) 0) as [H0|]; [|done]. destruct (Z.eqb_spec (octet b1) 0) as [H1|]; [|done].
    destruct (Z.eqb_spec (octet b2) 0) as [H2|]; [|done]. destruct (Z.eqb_spec (octet b3) 1) as [H3|]; [|done].
    apply octet_is in H0 as ->, H1 as ->, H2 as ->, H3 as ->. cbn [orb negb skipn firstn]. intros [= <- <- <-].
    split; [done|]. split; [apply (be_value_range [b8; b9])|].
    change (be_bytes 2 _) with (be_bytes 2 (be_value [b8; b9])). pose proof (be_bytes_value [b8; b9]) as Hv. cbn [List.length] in Hv. by rewrite Hv, drop_0.
  - intros (Hip & Hport & ->). destruct ip as [|a0 [|a1 [|a2 [|a3 []]]]]; try done. unfold To4. cbn [List.length Nat.eqb].
    assert (exists c d, be_bytes 2 port = [c; d] /\ be_value [c; d] = port) as (c & d & Hcd & Hv).
    { pose proof (be_bytes_length 2 port) as Hl. pose proof (be_value_bytes 2 port) as Hv.
      destruct (be_bytes 2 port) as [|c [|d []]]; try done. exists c, d. split; [done|]. rewrite Hv. change (256 ^ Z.of_nat 2) with 65536. by apply Z.mod_small. }
    rewrite Hcd. cbn [app repeat]. rewrite (proj2 (Nat.ltb_ge _ _)) by (cbn; lia). cbv zeta. change ((_ :: _) !! 0%nat) with (Some Ascii.zero). 
    cbn -[be_value]. by rewrite <-Hv.
Qed.

(** ** What each end passes on *)

Lemma read_frame_inv r p rest : readUDPFrame r maxUDPDatagram = Some (p, rest) -> r = E2E.frame_of p ++ rest /\ short p.
Proof.
  unfold readUDPFrame. destruct (Nat.ltb_spec (List.length r) 2) as [|Hl]; [done|]. cbv zeta.
  pose proof (be_value_range (firstn 2 r)) as Hr. pose proof (be_bytes_value (firstn 2 r)) as Hb.
  rewrite length_take, Nat.min_l in Hr, Hb by lia. change (256 ^ Z.of_nat 2) with 65536 in Hr.
  destruct (_ <? _); [done|]. destruct (Z.ltb_spec (Z.of_nat (List.length (skipn 2 r))) (be_value (firstn 2 r))) as [|Hge]; [done|].
  intros [= <- <-]. unfold E2E.frame_of, short, maxUDPDatagram. rewrite length_take, Nat.min_l by lia. rewrite Z2Nat.id by lia.
  split; [|lia]. by rewrite Hb, <-app_assoc, take_drop, take_drop.
Qed.

Lemma frames_inj ps qs : Forall short ps -> Forall short qs -> frames ps = frames qs -> ps = qs.
Proof.
  revert qs. induction ps as [|p ps IH]; intros [|q qs] Hp Hq He; [done|by rewrite frames_cons in He..|].
  apply Forall_cons in Hp as [Hp Hps], Hq as [Hq Hqs]. rewrite !frames_cons in He.
  pose proof (E2E.takeFrame_frame p (frames ps) Hp) as H1. rewrite He, E2E.takeFrame_frame in H1 by exact Hq.
  injection H1 as -> H1. f_equal. by apply IH.
Qed.
Lemma flow_frames_app ps qs : frames (ps ++ qs) = frames ps ++ frames qs.
Proof. unfold frames, E2E.frames. by rewrite fmap_app, List.concat_app. Qed.

(** The payloads of a run: of the datagrams that the peer at [src] addresses to this
    destination, and of those that arrived at the exit. *)
Definition addressed (src : UDPAddr) (ip : bytes) (port : Z) (l : assoc_label) : option bytes :=
  match l with
  | ADatagram b s _ _ =>
      match decodeSOCKSUDPFrame (relay_buffer b) with
      | Some (p, i, q) =>
          if bool_decide (addr_Port s = addr_Port src /\ IP_Equal (addr_IP s) (addr_IP src) = true /\ i = ip /\ q = port) then Some p else None
      | None => None
      end
  | _ => None
  end.
Definition accepted (a : association) (l : list assoc_label) : list bytes := omap (addressed (from a) (a_ip a) (a_port a)) l.
Definition arrived (l : list exit_label) : list bytes :=
  omap (fun l => match l with XDatagram d _ => Some (firstn (Z.to_nat maxUDPDatagram) d) | _ => None end) l.

Definition octets (ps : list bytes) : Z := foldr (fun p n => Z.of_nat (List.length p) + n) 0 ps.
Lemma octets_app ps qs : octets (ps ++ qs) = octets ps + octets qs.
Proof. unfold octets. induction ps as [|p ps IH]; cbn; [done|]. rewrite IH. lia. Qed.

(** A counter has moved by [n]. *)
Definition counted (c c' : Accounting.Counter) (n : Z) : Prop := wrap64 (Accounting.total c' - Accounting.total c) = wrap64 n.
Lemma counted_add c c' n k : counted c c' n -> counted c (Accounting.Add c' k) (n + k).
Proof.
  unfold counted, Accounting.Add, wrap64. cbn. intros H.
  rewrite <-(Zplus_mod_idemp_l n), <-H, Zplus_mod_idemp_l, <-(Zminus_mod_idemp_l (_ mod _)), Zmod_mod, Zminus_mod_idemp_l. f_equal. lia.
Qed.
Lemma counted_none c : counted c c 0.
Proof. unfold counted. by rewrite Z.sub_diag. Qed.

Lemma decode_short b p ip port : decodeSOCKSUDPFrame (relay_buffer b) = Some (p, ip, port) -> short p.
Proof.
  unfold decodeSOCKSUDPFrame. cbv zeta. destruct (_ || _); [done|]. intros [= <- _ _]. unfold short. rewrite length_drop.
  unfold relay_buffer. rewrite length_take. unfold maxUDPDatagram, socksUDPHeaderLen. lia.
Qed.
Lemma decode_ip b p ip port : decodeSOCKSUDPFrame b = Some (p, ip, port) -> List.length ip = 4%nat.
Proof.
  unfold decodeSOCKSUDPFrame, socksUDPHeaderLen. cbv zeta. destruct (Nat.ltb_spec (List.length b) (2 + 1 + 1 + 4 + 2)); [done|]. cbn [orb].
  destruct (_ || _); [done|]. intros [= _ <- _]. rewrite length_take, length_drop. lia.
Qed.
Lemma own_addressed a b src now wrote : List.length (a_ip a) = 4%nat ->
  own a b src = addressed (from a) (a_ip a) (a_port a) (ADatagram b src now wrote).
Proof.
  intros H4. unfold own, addressed. destruct (decodeSOCKSUDPFrame _) as [[[p i] q]|] eqn:Hd; cbn [mbind option_bind]; [|by destruct (_ || _)].
  apply decode_ip in Hd. assert (IP_Equal i (a_ip a) = bool_decide (i = a_ip a)) as -> by (unfold IP_Equal; by rewrite Hd, H4).
  assert (forall b : bool, b = bool_decide (addr_Port src = addr_Port (from a) /\ IP_Equal (addr_IP src) (addr_IP (from a)) = true /\ i = a_ip a /\ q = a_port a) ->
    (if b then Some p else None) = if bool_decide (addr_Port src = addr_Port (from a) /\ IP_Equal (addr_IP src) (addr_IP (from a)) = true /\ i = a_ip a /\ q = a_port a) then Some p else None) as Hif
    by by intros b0 ->.
  rewrite <-(Hif ((addr_Port src =? addr_Port (from a)) && IP_Equal (addr_IP src) (addr_IP (from a)) && bool_decide (i = a_ip a) && (q =? a_port a))).
  - destruct (_ =? addr_Port _), (IP_Equal _ _), (q =? a_port a), (bool_decide (i = a_ip a)); done.
  - apply eq_iff_eq_true. rewrite !andb_true_iff, !bool_decide_eq_true, !Z.eqb_eq. naive_solver.
Qed.
Lemma addressed_short src ip port l p : addressed src ip port l = Some p -> short p.
Proof.
  unfold addressed. destruct l as [b s now wrote|now wrote|now|]; try done. destruct (decodeSOCKSUDPFrame _) as [[[q i] k]|] eqn:Hd; [|done].
  destruct (bool_decide _); [|done]. intros [= <-]. by apply decode_short in Hd.
Qed.
Lemma accepted_short a l : Forall short (accepted a l).
Proof.
  apply Forall_forall. intros p Hp. apply list_elem_of_omap in Hp as (x & _ & Hx). by apply addressed_short in Hx.
Qed.
Lemma arrived_short l : Forall short (arrived l).
Proof.
  apply Forall_forall. intros p Hp. apply list_elem_of_omap in Hp as (x & _ & Hx). destruct x; try done. injection Hx as <-.
  unfold short. rewrite length_take. unfold maxUDPDatagram. lia.
Qed.

(** One step of the client's end: either it stops, having passed nothing on, or it passes on
    what was the flow's, and reads at most a frame and readdresses it. *)
Definition out_of (a : association) (l : assoc_label) : list bytes := accepted a [l].

Lemma assoc_step_spec a l : a_open a = true -> List.length (a_ip a) = 4%nat -> let a' := assoc_step a l in
  (target a' = target a /\ from a' = from a /\ a_ip a' = a_ip a /\ a_port a' = a_port a) /\
  if a_open a' then
    exists read, a_in a = frames read ++ a_in a' /\ Forall short read /\
      to_exit a' = to_exit a ++ frames (out_of a l) /\ replies a' = replies a ++ (encodeSOCKSUDPFrame (a_ip a) (a_port a) <$> read) /\
      forall c n, counted c (a_ctr a) n -> counted c (a_ctr a') (n + (octets (out_of a l) + octets read))
  else to_exit a' = to_exit a /\ replies a' = replies a.
Proof.
  intros Ho H4. unfold assoc_step, out_of, accepted. cbn [omap list_omap]. rewrite Ho. cbn [negb].
  assert (forall b : association, a_open b = true -> a_in b = a_in a -> to_exit b = to_exit a -> replies b = replies a -> a_ctr b = a_ctr a ->
    if a_open b then exists read, a_in a = frames read ++ a_in b /\ Forall short read /\
      to_exit b = to_exit a ++ frames [] /\ replies b = replies a ++ (encodeSOCKSUDPFrame (a_ip a) (a_port a) <$> read) /\
      (forall c n, counted c (a_ctr a) n -> counted c (a_ctr b) (n + (octets [] + octets read)))
    else to_exit b = to_exit a /\ replies b = replies a) as Hsame.
  { intros b Hb E1 E2 E3 E4. rewrite Hb. exists []. rewrite E1, E2, E3, E4. cbn. rewrite !app_nil_r, Z.add_0_r || rewrite !app_nil_r.
    split_and!; try done. intros c n. by rewrite Z.add_0_r. }
  destruct l as [b src now wrote|now wrote|now|]; cbv beta iota zeta.
  - rewrite <-(own_addressed a b src now wrote H4). destruct (own a b src) as [p|]; [|split; [done|by apply Hsame]].
    destruct (writeUDPFrame p) as [fr|] eqn:Hw; [|done]. apply write_is_frame in Hw as [_ ->]. destruct wrote; [|done].
    split; [done|]. cbn. exists []. cbn. rewrite !app_nil_r. split_and!; try done.
    intros c n Hc. rewrite !Z.add_0_r. by apply counted_add.
  - destruct (readUDPFrame (a_in a) maxUDPDatagram) as [[p rest]|] eqn:Hr; [|done]. apply read_frame_inv in Hr as [Hr Hs].
    destruct wrote; [|done]. split; [done|]. cbn. exists [p]. rewrite Hr. cbn. rewrite !app_nil_r. split_and!; try done; [by constructor|].
    intros c n Hc. rewrite Z.add_0_r. by apply counted_add.
  - destruct (reaps _ _ _); [done|]. split; [done|by apply Hsame].
  - done.
Qed.

Lemma assoc_stopped l a : a_open a = false -> assoc_run l a = a.
Proof. intros Ha. induction l as [|x l IH]; [done|]. cbn. unfold assoc_step. by rewrite Ha. Qed.
Lemma accepted_keeps a a' l : from a' = from a -> a_ip a' = a_ip a -> a_port a' = a_port a -> accepted a' l = accepted a l.
Proof. unfold accepted. by intros -> -> ->. Qed.
Lemma accepted_cons a x l : accepted a (x :: l) = out_of a x ++ accepted a l.
Proof. unfold out_of, accepted. cbn. by destruct (addressed _ _ _ x). Qed.

(** A run of the client's end. *)
Lemma assoc_run_spec l a : a_open a = true -> List.length (a_ip a) = 4%nat -> let a' := assoc_run l a in
  (target a' = target a /\ from a' = from a /\ a_ip a' = a_ip a /\ a_port a' = a_port a) /\
  (exists n, to_exit a' = to_exit a ++ frames (take n (accepted a l))) /\
  (exists read, frames read `prefix_of` a_in a /\ Forall short read /\ replies a' = replies a ++ (encodeSOCKSUDPFrame (a_ip a) (a_port a) <$> read)) /\
  (a_open a' = true -> exists read, a_in a = frames read ++ a_in a' /\ Forall short read /\
     to_exit a' = to_exit a ++ frames (accepted a l) /\ replies a' = replies a ++ (encodeSOCKSUDPFrame (a_ip a) (a_port a) <$> read) /\
     forall c n, counted c (a_ctr a) n -> counted c (a_ctr a') (n + (octets (accepted a l) + octets read))).
Proof.
  revert a. induction l as [|x l IH]; intros a Ho H4; cbn zeta.
  - cbn. split; [done|]. split; [exists 0%nat; by rewrite app_nil_r|]. split; [exists []; split_and!; [apply prefix_nil|done|by rewrite app_nil_r]|].
    intros _. exists []. cbn. rewrite !app_nil_r. split_and!; try done. intros c n. by rewrite Z.add_0_r.
  - change (assoc_run (x :: l) a) with (assoc_run l (assoc_step a x)).
    destruct (assoc_step_spec a x Ho H4) as [(Ht & Hf & Hi & Hp) Hs]. destruct (a_open (assoc_step a x)) eqn:Ho1.
    + destruct Hs as (rd & Hin & Hrs & Hout & Hrep & Hc). assert (List.length (a_ip (assoc_step a x)) = 4%nat) as H41 by by rewrite Hi.
      destruct (IH _ Ho1 H41) as ((Ht' & Hf' & Hi' & Hp') & (n & Hn) & (rd' & Hpre & Hrs' & Hrep') & Hall).
      rewrite Ht in Ht'. rewrite Hf in Hf'. rewrite Hi in Hi'. rewrite Hp in Hp'.
      rewrite (accepted_keeps a) in Hn, Hall by done. rewrite accepted_cons. split; [done|]. split; [|split].
      * exists (List.length (out_of a x) + n)%nat. rewrite Hn, Hout, <-app_assoc, <-flow_frames_app. by rewrite take_app_add.
      * exists (rd ++ rd'). rewrite flow_frames_app, Hin. split; [by apply prefix_app|]. split; [by apply Forall_app|].
        rewrite Hrep', Hrep, Hi, Hp, <-app_assoc. by rewrite fmap_app.
      * intros Ho'. destruct (Hall Ho') as (rd2 & Hin2 & Hrs2 & Hout2 & Hrep2 & Hc2). exists (rd ++ rd2).
        rewrite Hin, Hin2, Hout2, Hout, Hrep2, Hrep, Hi, Hp. rewrite !flow_frames_app, fmap_app, !app_assoc. split_and!; try done; [by apply Forall_app|].
        intros c n0 H0. rewrite !octets_app.
        replace (n0 + _) with (n0 + (octets (out_of a x) + octets rd) + (octets (accepted a l) + octets rd2)) by lia. by apply Hc2, Hc.
    + rewrite assoc_stopped by done. destruct Hs as [Hout Hrep]. split; [done|]. split; [exists 0%nat; by rewrite Hout, app_nil_r|].
      split; [exists []; split_and!; [apply prefix_nil|done|by rewrite Hrep, app_nil_r]|]. intros Ho'. congruence.
Qed.

(** ** The exit *)

Section ExitRun.
Context (offset : Duration).

Lemma moved_spec n x e : let r := moved offset n x e in
  x_open r.2 = x_open e /\ x_in r.2 = x_in e /\ to_dest r.2 = to_dest e /\ to_stream r.2 = to_stream e /\ x_last r.2 = now_ x /\
  x_ctr r.2 = (fun c => Accounting.Add c n) <$> x_ctr e.
Proof. unfold moved. destruct (negb (paced x)); [done|]. destruct (meterN _ _ _ _) as [ok m]. done. Qed.

Definition counted_opt (c c' : option Accounting.Counter) (n : Z) : Prop :=
  match c, c' with Some c, Some c' => counted c c' n | None, None => True | _, _ => False end.
Lemma counted_opt_add c c' n k : counted_opt c c' n -> counted_opt c ((fun c => Accounting.Add c k) <$> c') (n + k).
Proof. destruct c, c'; cbn; try done. apply counted_add. Qed.
Lemma counted_opt_none c : counted_opt c c 0.
Proof. destruct c; cbn; [apply counted_none|done]. Qed.

Lemma exit_step_spec e l : x_open e = true -> let e' := exit_step offset e l in
  if x_open e' then
    exists read, x_in e = frames read ++ x_in e' /\ Forall short read /\ to_dest e' = to_dest e ++ read /\
      to_stream e' = to_stream e ++ frames (arrived [l]) /\
      forall c n, counted_opt c (x_ctr e) n -> counted_opt c (x_ctr e') (n + (octets read + octets (arrived [l])))
  else to_dest e' = to_dest e /\ to_stream e' = to_stream e.
Proof.
  intros Ho. unfold exit_step. rewrite Ho. cbn [negb].
  assert (x_open e = true -> exists read, x_in e = frames read ++ x_in e /\ Forall short read /\ to_dest e = to_dest e ++ read /\
      to_stream e = to_stream e ++ frames [] /\
      forall c n, counted_opt c (x_ctr e) n -> counted_opt c (x_ctr e) (n + (octets read + octets []))) as Hsame.
  { intros _. exists []. cbn. rewrite !app_nil_r. split_and!; try done. intros c n. by rewrite Z.add_0_r. }
  destruct l as [x|d x|now|]; cbv beta iota zeta.
  - destruct (readUDPFrame (x_in e) maxUDPDatagram) as [[p rest]|] eqn:Hr; [|done]. apply read_frame_inv in Hr as [Hr Hs].
    set (e0 := MkExitFlow true rest _ _ _ _ _). destruct (moved_spec (Z.of_nat (List.length p)) x e0) as (M1 & M2 & M3 & M4 & _ & M6).
    destruct (moved offset _ x e0) as [ok e1]. cbn in M1, M2, M3, M4, M6.
    destruct (ok && written x); cbn; [|by rewrite M3, M4]. rewrite M1. exists [p]. rewrite Hr, M2, M3, M4, M6. cbn. rewrite !app_nil_r.
    split_and!; try done; [by constructor|]. intros c n Hc. rewrite !Z.add_0_r. by apply counted_opt_add.
  - change (arrived [XDatagram d x]) with [firstn (Z.to_nat maxUDPDatagram) d]. set (p := firstn _ d).
    assert (short p) as Hs by (unfold short, p; rewrite length_take; unfold maxUDPDatagram; lia).
    destruct (moved_spec (Z.of_nat (List.length p)) x e) as (M1 & M2 & M3 & M4 & _ & M6).
    destruct (moved offset _ x e) as [ok e1]. cbn in M1, M2, M3, M4, M6.
    destruct (negb ok); cbn; [by rewrite M3, M4|].
    destruct (writeUDPFrame p) as [b|] eqn:Hw; cbn; [|by rewrite M3, M4]. apply write_is_frame in Hw as [_ ->].
    destruct (written x); cbn; [|by rewrite M3, M4]. rewrite M1, Ho. exists []. rewrite M2, M3, M4, M6. cbn. rewrite !app_nil_r.
    split_and!; try done. intros c n Hc. rewrite !Z.add_0_r. by apply counted_opt_add.
  - destruct (reaps _ _ _); [done|]. rewrite Ho. by apply Hsame.
  - done.
Qed.

Lemma exit_stopped l e : x_open e = false -> exit_run offset l e = e.
Proof. intros He. induction l as [|x l IH]; [done|]. cbn. unfold exit_step. by rewrite He. Qed.
Lemma arrived_cons x l : arrived (x :: l) = arrived [x] ++ arrived l.
Proof. unfold arrived. cbn. by destruct x. Qed.

Lemma exit_run_spec l e : x_open e = true -> let e' := exit_run offset l e in
  (exists read, frames read `prefix_of` x_in e /\ Forall short read /\ to_dest e' = to_dest e ++ read) /\
  (exists n, to_stream e' = to_stream e ++ frames (take n (arrived l))) /\
  (x_open e' = true -> exists read, x_in e = frames read ++ x_in e' /\ Forall short read /\ to_dest e' = to_dest e ++ read /\
     to_stream e' = to_stream e ++ frames (arrived l) /\
     forall c n, counted_opt c (x_ctr e) n -> counted_opt c (x_ctr e') (n + (octets read + octets (arrived l)))).
Proof.
  revert e. induction l as [|x l IH]; intros e Ho; cbn zeta.
  - cbn. split; [exists []; split_and!; [apply prefix_nil|done|by rewrite app_nil_r]|]. split; [exists 0%nat; by rewrite app_nil_r|].
    intros _. exists []. cbn. rewrite !app_nil_r. split_and!; try done. intros c n. by rewrite Z.add_0_r.
  - change (exit_run offset (x :: l) e) with (exit_run offset l (exit_step offset e x)).
    pose proof (exit_step_spec e x Ho) as Hs. cbv zeta in Hs. destruct (x_open (exit_step offset e x)) eqn:Ho1.
    + destruct Hs as (rd & Hin & Hrs & Hd & Hst & Hc). destruct (IH _ Ho1) as ((rd' & Hpre & Hrs' & Hd') & (n & Hn) & Hall).
      rewrite (arrived_cons x l). split; [|split].
      * exists (rd ++ rd'). rewrite flow_frames_app, Hin, Hd', Hd, app_assoc. split; [by apply prefix_app|]. split; [by apply Forall_app|done].
      * exists (List.length (arrived [x]) + n)%nat. by rewrite Hn, Hst, <-app_assoc, <-flow_frames_app, take_app_add.
      * intros Ho'. destruct (Hall Ho') as (rd2 & Hin2 & Hrs2 & Hd2 & Hst2 & Hc2). exists (rd ++ rd2).
        rewrite Hin, Hin2, Hd2, Hd, Hst2, Hst, !flow_frames_app, !app_assoc. split_and!; try done; [by apply Forall_app|].
        intros c n0 H0. rewrite !octets_app.
        replace (n0 + _) with (n0 + (octets rd + octets (arrived [x])) + (octets rd2 + octets (arrived l))) by lia. by apply Hc2, Hc.
    + rewrite exit_stopped by done. destruct Hs as [Hd Hst]. split; [exists []; split_and!; [apply prefix_nil|done|by rewrite Hd, app_nil_r]|].
      split; [exists 0%nat; by rewrite Hst, app_nil_r|]. intros Ho'. congruence.
Qed.
End ExitRun.

(** Frames that start a stream of frames are the first of them. *)
Lemma frames_prefix ps qs : Forall short ps -> Forall short qs -> frames ps `prefix_of` frames qs -> ps `prefix_of` qs.
Proof.
  revert qs. induction ps as [|p ps IH]; intros qs Hp Hq He; [apply prefix_nil|].
  apply Forall_cons in Hp as [Hp Hps]. pose proof He as Hr. apply (read_prefix_of_frames _ _ Hq) in He.
  rewrite frames_cons, read_is_take, E2E.takeFrame_frame in He by exact Hp. destruct He as (qs' & -> & Hpre).
  apply Forall_cons in Hq as [_ Hq]. apply prefix_cons. by apply IH.
Qed.

Lemma first_datagram first src stream ctr now dialed wrote a :
  serveSOCKSUDPAssociate first src stream ctr now dialed wrote = Some a ->
  exists p, short p /\ List.length (a_ip a) = 4%nat /\ to_exit a = frames [p] /\ a_open a = true /\ a_in a = stream /\ replies a = [] /\ from a = src /\
    decodeSOCKSUDPFrame (relay_buffer first) = Some (p, a_ip a, a_port a) /\
    target a = string_of (JoinHostPort (ip_String (a_ip a)) (bytes_of (Itoa (a_port a)))) /\
    counted ctr (a_ctr a) (octets [p]).
Proof.
  unfold serveSOCKSUDPAssociate. destruct (decodeSOCKSUDPFrame (relay_buffer first)) as [[[p ip] port]|] eqn:Hd; cbn [mbind option_bind]; [|done].
  destruct (negb dialed); [done|]. destruct (writeUDPFrame p) as [b|] eqn:Hw; cbn [mbind option_bind]; [|done]. apply write_is_frame in Hw as [_ ->].
  destruct (negb wrote); [done|]. intros [= <-]. exists p. cbn. rewrite app_nil_r. pose proof (decode_short _ _ _ _ Hd). pose proof (decode_ip _ _ _ _ Hd). split_and!; try done.
  pose proof (counted_add ctr ctr 0 (Z.of_nat (List.length p)) (counted_none ctr)) as Hc. rewrite Z.add_0_l in Hc. unfold octets. cbn [foldr]. by rewrite Z.add_0_r.
Qed.

(** ** The two ends together *)

Section Flow.
Context (offset : Duration).

(** C16: Whatever comes on the local socket, however the two ends are interleaved, fail or are
    closed, and wherever the streams between them break off: what is sent from the exit is a
    prefix of what the peer that opened the flow sent to the flow's one destination, and the
    channel was dialed for that destination; and what the peer receives is a prefix of what
    arrived at the exit, each bearing the destination's address. *)
Theorem flow_is_not_misrouted first src up down ctr now dialed wrote a la le x_ctr m started :
  serveSOCKSUDPAssociate first src down ctr now dialed wrote = Some a ->
  let e := exitTerminateUDP up x_ctr m started in
  up `prefix_of` to_exit (assoc_run la a) -> down `prefix_of` to_stream (exit_run offset le e) ->
  target a = string_of (JoinHostPort (ip_String (a_ip a)) (bytes_of (Itoa (a_port a)))) /\
  (exists p, decodeSOCKSUDPFrame (relay_buffer first) = Some (p, a_ip a, a_port a) /\
     to_dest (exit_run offset le e) `prefix_of` p :: accepted a la) /\
  replies (assoc_run la a) `prefix_of` (encodeSOCKSUDPFrame (a_ip a) (a_port a) <$> arrived le) /\
  from (assoc_run la a) = src.
Proof.
  intros Ha e Hup Hdown. destruct (first_datagram _ _ _ _ _ _ _ _ Ha) as (p & Hshort & H4 & Hout & Ho & Hin & Hrep & Hfrom & Hdec & Htarget & _).
  destruct (assoc_run_spec la a Ho H4) as ((_ & Hf & _) & (n & Hn) & (rd & Hpre & Hrd & Hr) & _).
  destruct (exit_run_spec offset le e eq_refl) as ((rx & Hprex & Hrx & Hd) & (k & Hk) & _).
  split; [done|]. split; [exists p; split; [done|]|split; [|by rewrite Hf]].
  - change (to_dest e) with (@nil bytes) in Hd. rewrite Hd. cbn [app].
    assert (Forall short (p :: accepted a la)) as Hsh by (constructor; [done|apply accepted_short]).
    trans (take (S n) (p :: accepted a la)); [|apply prefix_take]. apply frames_prefix; [done|by apply Forall_take|].
    trans up; [done|]. trans (to_exit (assoc_run la a)); [done|]. rewrite Hn, Hout, <-flow_frames_app. done.
  - rewrite Hr, Hrep. cbn [app]. rewrite Hin in Hpre. change (to_stream e) with (@nil ascii) in Hk. cbn [app] in Hk.
    assert (rd `prefix_of` take k (arrived le)) as [z Hz].
    { apply frames_prefix; [done|apply Forall_take, arrived_short|]. trans down; [done|]. by rewrite <-Hk. }
    pose proof (prefix_take (arrived le) k) as [y Hy]. rewrite Hz in Hy. rewrite Hy, !fmap_app. exists ((encodeSOCKSUDPFrame (a_ip a) (a_port a) <$> z) ++ (encodeSOCKSUDPFrame (a_ip a) (a_port a) <$> y)).
    by rewrite <-app_assoc.
Qed.

(** When neither end has stopped and each has read all the other wrote, every datagram of
    the flow was passed on, in order and once, both ways, and the session's counters at the
    two ends have moved by the same number of bytes: the receipt reconciles. *)
Theorem whole_flow_reconciles first src up down ctr now dialed wrote a la le xctr m started :
  serveSOCKSUDPAssociate first src down ctr now dialed wrote = Some a ->
  let e := exitTerminateUDP up (Some xctr) m started in
  let a' := assoc_run la a in let e' := exit_run offset le e in
  up = to_exit a' -> down = to_stream e' -> a_open a' = true -> x_open e' = true -> a_in a' = [] -> x_in e' = [] ->
  (exists p, decodeSOCKSUDPFrame (relay_buffer first) = Some (p, a_ip a, a_port a) /\ to_dest e' = p :: accepted a la) /\
  replies a' = (encodeSOCKSUDPFrame (a_ip a) (a_port a) <$> arrived le) /\
  exists xctr', x_ctr e' = Some xctr' /\
    wrap64 (Accounting.Counter_Load (a_ctr a') - Accounting.Counter_Load ctr)
    = wrap64 (Accounting.Counter_Load xctr' - Accounting.Counter_Load xctr).
Proof.
  intros Ha e a' e' Hup Hdown Hoa Hoe Hia Hie.
  destruct (first_datagram _ _ _ _ _ _ _ _ Ha) as (p & Hshort & H4 & Hout & Ho & Hin & Hrep & _ & Hdec & _ & Hcount).
  destruct (assoc_run_spec la a Ho H4) as (_ & _ & _ & Hall). destruct (Hall Hoa) as (rd & H1 & Hrd & H2 & H3 & H5). clear Hall.
  destruct (exit_run_spec offset le e eq_refl) as (_ & _ & Hall). destruct (Hall Hoe) as (rx & X1 & Hrx & X2 & X3 & X4). clear Hall.
  fold a' in H1, H2, H3, H5. fold e' in X1, X2, X3, X4. rewrite Hia, app_nil_r in H1. rewrite Hie, app_nil_r in X1.
  change (x_in e) with up in X1. change (to_dest e) with (@nil bytes) in X2. change (to_stream e) with (@nil ascii) in X3. cbn [app] in X2, X3.
  assert (rx = p :: accepted a la) as ->.
  { apply frames_inj; [done|constructor; [done|apply accepted_short]|].
    rewrite <-X1, Hup, H2, Hout, <-flow_frames_app. done. }
  assert (rd = arrived le) as ->.
  { apply frames_inj; [done|apply arrived_short|]. by rewrite <-H1, Hin, Hdown, X3. }
  split; [by exists p|]. split; [by rewrite H3, Hrep|].
  specialize (H5 ctr _ Hcount). specialize (X4 (Some xctr) 0 (counted_opt_none _)). destruct (x_ctr e') as [xctr'|]; [|done].
  exists xctr'. split; [done|]. unfold Accounting.Counter_Load. cbn in X4. unfold counted in H5, X4. rewrite H5, X4. f_equal. unfold octets. cbn. lia.
Qed.
End Flow.

(** ** The reaper ends idle flows, and no others *)

Definition ticks (start : Time) (i : nat) : list exit_label :=
  (fun k => XTick (start + Z.of_nat k * reaper_period udpIdleTimeout)) <$> seq 1 i.

Lemma reaps_spec last now : reaps udpIdleTimeout last now = (last + udpIdleTimeout <=? now).
Proof.
  unfold reaps, time_Sub, udpIdleTimeout, Second, i64min, i64max. apply eq_iff_eq_true. rewrite !Z.leb_le. lia.
Qed.

(** A flow nothing moves on any more stays until the idle time has passed, and is closed
    before a third of it more has. *)
Theorem idle_flow_ends offset e start :
  x_open e = true -> start <= x_last e ->
  (forall i, x_open (exit_run offset (ticks start i) e) = (start + Z.of_nat i * reaper_period udpIdleTimeout <? x_last e + udpIdleTimeout)) /\
  exists i, x_open (exit_run offset (ticks start i) e) = false /\
    start + Z.of_nat i * reaper_period udpIdleTimeout < x_last e + udpIdleTimeout + reaper_period udpIdleTimeout.
Proof.
  intros Ho Hstart. assert (0 < reaper_period udpIdleTimeout) as Hp by by vm_compute.
  assert (forall i, x_last (exit_run offset (ticks start i) e) = x_last e /\
    x_open (exit_run offset (ticks start i) e) = (start + Z.of_nat i * reaper_period udpIdleTimeout <? x_last e + udpIdleTimeout)) as Hall.
  { induction i as [|i [IHl IHo]].
    - cbn. split; [done|]. rewrite Ho. symmetry. apply Z.ltb_lt. unfold udpIdleTimeout, Second. lia.
    - unfold ticks. rewrite seq_S, fmap_app. unfold exit_run. rewrite foldl_app. fold (ticks start i).
      change (foldl (exit_step offset) e (ticks start i)) with (exit_run offset (ticks start i) e).
      set (e1 := exit_run offset (ticks start i) e) in *. cbn [fmap list_fmap foldl]. unfold exit_step.
      destruct (x_open e1) eqn:Hx; cbn [negb].
      + rewrite reaps_spec, IHl. change (1 + i)%nat with (S i).
        destruct (Z.leb_spec (x_last e + udpIdleTimeout) (start + Z.of_nat (S i) * reaper_period udpIdleTimeout)); cbn [x_stop x_last x_open].
        * split; [done|]. symmetry. by apply Z.ltb_ge.
        * rewrite Hx. split; [done|]. symmetry. by apply Z.ltb_lt.
      + rewrite Hx. split; [done|]. symmetry in IHo. apply Z.ltb_ge in IHo. symmetry. apply Z.ltb_ge. lia. }
  split; [intros i; apply Hall|].
  set (P := reaper_period udpIdleTimeout) in *. set (d := x_last e + udpIdleTimeout - start).
  assert (0 < d) by (unfold d, udpIdleTimeout, Second; lia).
  exists (Z.to_nat ((d + P - 1) / P)). destruct (Hall (Z.to_nat ((d + P - 1) / P))) as [_ ->].
  assert (0 <= (d + P - 1) / P) by (apply Z.div_pos; lia). rewrite Z2Nat.id by done.
  pose proof (Z.mul_div_le (d + P - 1) P Hp). pose proof (Z.mul_succ_div_gt (d + P - 1) P Hp). split; [apply Z.ltb_ge; nia|nia].
Qed.

(** ** Witnesses *)

Module Demo.
Definition dns : bytes := [byte_of 8; byte_of 8; byte_of 8; byte_of 8].
Definition peer : UDPAddr := MkUDPAddr [byte_of 127; byte_of 0; byte_of 0; byte_of 1] 5000 "".
Definition other : UDPAddr := MkUDPAddr [byte_of 127; byte_of 0; byte_of 0; byte_of 1] 5001 "".
Definition q1 : bytes := encodeSOCKSUDPFrame dns 443 (bytes_of "hello").
Definition q2 : bytes := encodeSOCKSUDPFrame dns 443 (bytes_of "again").
Definition elsewhere : bytes := encodeSOCKSUDPFrame dns 53 (bytes_of "stray").
Definition down : bytes := E2E.frame_of (bytes_of "welcome").
Definition up : bytes := E2E.frame_of (bytes_of "hello") ++ E2E.frame_of (bytes_of "again").
Definition fine : Turn := MkTurn Second true true true true true true.
Definition la : list assoc_label :=
  [ADatagram elsewhere peer Second true; ADatagram q2 other Second true; ADatagram q2 peer Second true; AFrame Second true; ATick (16 * Second)].
Definition le : list exit_label := [XFrame fine; XDatagram (bytes_of "welcome") fine; XFrame fine; XTick (16 * Second)].
Definition opened : association :=
  MkAssociation true "8.8.8.8:443" peer dns 443 down (E2E.frame_of (bytes_of "hello")) [] (Accounting.Add Accounting.new_Counter 5) 0.
Definition served : exitFlow := exitTerminateUDP up (Some Accounting.new_Counter) None 0.
Lemma opens : serveSOCKSUDPAssociate q1 peer down Accounting.new_Counter 0 true true = Some opened.
Proof. vm_compute; reflexivity. Qed.
End Demo.

Lemma flow_is_not_misrouted_witness :
  to_dest (exit_run 0 Demo.le Demo.served) = [bytes_of "hello"; bytes_of "again"] /\
  exists p, to_dest (exit_run 0 Demo.le Demo.served) `prefix_of` p :: accepted Demo.opened Demo.la.
Proof.
  split; [vm_compute; reflexivity|].
  assert (Demo.up `prefix_of` to_exit (assoc_run Demo.la Demo.opened)) as Hup by (exists []; vm_compute; reflexivity).
  assert (Demo.down `prefix_of` to_stream (exit_run 0 Demo.le Demo.served)) as Hdown by (exists []; vm_compute; reflexivity).
  destruct (flow_is_not_misrouted 0 Demo.q1 Demo.peer Demo.up Demo.down Accounting.new_Counter 0 true true Demo.opened Demo.la Demo.le
    (Some Accounting.new_Counter) None 0 Demo.opens Hup Hdown) as (_ & (p & _ & Hp) & _).
  exists p. exact Hp.
Defined.

Lemma whole_flow_reconciles_witness :
  replies (assoc_run Demo.la Demo.opened) = [encodeSOCKSUDPFrame Demo.dns 443 (bytes_of "welcome")] /\
  exists x, x_ctr (exit_run 0 Demo.le Demo.served) = Some x /\ Accounting.total x = 17.
Proof.
  assert (Demo.up = to_exit (assoc_run Demo.la Demo.opened)) as Hup by (vm_compute; reflexivity).
  assert (Demo.down = to_stream (exit_run 0 Demo.le Demo.served)) as Hdown by (vm_compute; reflexivity).
  assert (a_open (assoc_run Demo.la Demo.opened) = true) as Ha by (vm_compute; reflexivity).
  assert (x_open (exit_run 0 Demo.le Demo.served) = true) as He by (vm_compute; reflexivity).
  assert (a_in (assoc_run Demo.la Demo.opened) = []) as Hia by (vm_compute; reflexivity).
  assert (x_in (exit_run 0 Demo.le Demo.served) = []) as Hie by (vm_compute; reflexivity).
  destruct (whole_flow_reconciles 0 Demo.q1 Demo.peer Demo.up Demo.down Accounting.new_Counter 0 true true Demo.opened Demo.la Demo.le
    Accounting.new_Counter None 0 Demo.opens Hup Hdown Ha He Hia Hie) as (_ & Hr & x & Hx & _).
  split.
  - rewrite Hr. vm_compute; reflexivity.
  - exists x. split; [exact Hx|]. vm_compute in Hx. injection Hx as <-. reflexivity.
Defined.

Lemma idle_flow_ends_witness :
  x_open (exit_run 0 (ticks 0 2) Demo.served) = true /\ exists i, x_open (exit_run 0 (ticks 0 i) Demo.served) = false.
Proof.
  destruct (idle_flow_ends 0 Demo.served 0 eq_refl ltac:(by vm_compute)) as [H1 (i & Hi & _)]. split.
  - rewrite (H1 2%nat). by vm_compute.
  - by exists i.
Defined.
