(* ===== verification/ShapedLink.v ===== *)
(** * The client's end of the shaped rendezvous: [core/rendezvous_client.go]

    One link to a coordinator: the association it holds, minted by the first send and
    replaced when it has gone stale or failed, among the goroutines that send, read, shake
    hands, own the socket and close it. A step is a critical section or a call on the
    association or the socket; the DTLS conversation is a library, so how a handshake, a
    read or a write ends is the step's. Then the link with the coordinator's table of
    [Rendezvous], whose clock of idleness is shorter than this one's. *)

From S2P Require Import ASN GeoIP.
From S2P Require Import Prelude GoStrings Crypto Net Stun Admission DeviceCred Estimator Rating Coldstart.
From S2P Require Import CoordState Challenges Geo Assign Coordinator.
From S2P Require Rendezvous.
Local Open Scope Z_scope.

Definition rendezvousHandshakeBackoff : Duration := 2 * Second.
Definition rendezvousAssocIdle : Duration := 3 * Minute.

(** [done] and [ready] are the closed channels; [conn] and [err] are written before [ready]
    is closed. *)
Record shapedAssoc := MkShaped { done : bool; ready : bool; conn : bool; err : bool }.
Definition newShapedAssoc : shapedAssoc := MkShaped false false false false.

(** Where a goroutine is. A send: [establish] up to its first unlock, what it does with a
    stale association and under the lock again, its wait for the handshake, the write. A
    reader, which calls [Read] again after a message: [await], the wait, the read. Both may [drop] an association, which is a critical
    section and then [closeAssoc]. A handshake: the check, DTLS, the look at [done], the close
    of [ready]. The socket's owner. [Close]. *)
Inductive after := Return | ReadOn (a : nat).
Inductive thread :=
| Establishing | Retiring (a : nat) | Relocking | Waiting (a : nat) | Writing (a : nat)
| Awaiting (last : option nat) | Readying (a : nat) | Reading (a : nat)
| Dropping (a : nat) (k : after) | Retired (a : nat) (k : after)
| Checking (a : nat) | Shaking (a : nat) | Looking (a : nat) | Finishing (a : nat)
| SocketReading
| Closing | ClosingAssoc (a : nat).

(** What goes out: a connectivity check, a handshake record, a message inside. *)
Inductive emission := Check_ (a : nat) | Hello (a : nat) | Inside (a : nat).

Record shapedLink := MkLink {
  cur : option nat; started : bool; closed : bool; failed : option Time; lastUsed : option Time; unshaped : Z;
  heap : gmap nat shapedAssoc; next : nat; threads : gmap nat thread; wire_ : list emission;
}.
Definition newShapedLink : shapedLink := MkLink None false false None None 0 ∅ 0 ∅ [].

Definition set_cur (c : option nat) (l : shapedLink) : shapedLink :=
  MkLink c (started l) (closed l) (failed l) (lastUsed l) (unshaped l) (heap l) (next l) (threads l) (wire_ l).
Definition set_started (l : shapedLink) : shapedLink :=
  MkLink (cur l) true (closed l) (failed l) (lastUsed l) (unshaped l) (heap l) (next l) (threads l) (wire_ l).
Definition set_closed (l : shapedLink) : shapedLink :=
  MkLink (cur l) (started l) true (failed l) (lastUsed l) (unshaped l) (heap l) (next l) (threads l) (wire_ l).
Definition set_failed (t : option Time) (l : shapedLink) : shapedLink :=
  MkLink (cur l) (started l) (closed l) t (lastUsed l) (unshaped l) (heap l) (next l) (threads l) (wire_ l).
Definition used (t : Time) (l : shapedLink) : shapedLink :=
  MkLink (cur l) (started l) (closed l) (failed l) (Some t) (unshaped l) (heap l) (next l) (threads l) (wire_ l).
Definition set_heap (h : gmap nat shapedAssoc) (l : shapedLink) : shapedLink :=
  MkLink (cur l) (started l) (closed l) (failed l) (lastUsed l) (unshaped l) h (next l) (threads l) (wire_ l).
Definition set_threads (t : gmap nat thread) (l : shapedLink) : shapedLink :=
  MkLink (cur l) (started l) (closed l) (failed l) (lastUsed l) (unshaped l) (heap l) (next l) t (wire_ l).
Definition emit (e : emission) (l : shapedLink) : shapedLink :=
  MkLink (cur l) (started l) (closed l) (failed l) (lastUsed l) (unshaped l) (heap l) (next l) (threads l) (wire_ l ++ [e]).
Definition noted (l : shapedLink) : shapedLink :=
  MkLink (cur l) (started l) (closed l) (failed l) (lastUsed l) (unshaped l + 1) (heap l) (next l) (threads l) (wire_ l).

Definition set_done (a : shapedAssoc) : shapedAssoc := MkShaped true (ready a) (conn a) (err a).
Definition set_ready (a : shapedAssoc) : shapedAssoc := MkShaped (done a) true (conn a) (err a).
Definition set_conn (a : shapedAssoc) : shapedAssoc := MkShaped (done a) (ready a) true (err a).
Definition set_err (a : shapedAssoc) : shapedAssoc := MkShaped (done a) (ready a) false true.
Definition change (f : shapedAssoc -> shapedAssoc) (a : nat) (l : shapedLink) : shapedLink := set_heap (alter f a (heap l)) l.

(** A goroutine goes on, or ends; a new one starts. *)
Definition goto (n : nat) (t : thread) (l : shapedLink) : shapedLink := set_threads (<[n := t]> (threads l)) l.
Definition exits (n : nat) (l : shapedLink) : shapedLink := set_threads (delete n (threads l)) l.
Definition go (t : thread) (l : shapedLink) : shapedLink :=
  MkLink (cur l) (started l) (closed l) (failed l) (lastUsed l) (unshaped l) (heap l) (S (next l)) (<[next l := t]> (threads l)) (wire_ l).

(** [establish], with the lock: the current association, or a new one with its handshake. *)
Definition mint (l : shapedLink) : nat * shapedLink :=
  match cur l with
  | Some a => (a, l)
  | None =>
      let a := next l in
      let l := MkLink (Some a) (started l) (closed l) (failed l) (lastUsed l) (unshaped l)
                 (<[a := newShapedAssoc]> (heap l)) (S (next l)) (threads l) (wire_ l) in
      (a, go (Checking a) l)
  end.

Definition stale (l : shapedLink) (now : Time) : bool :=
  match lastUsed l with Some t => rendezvousAssocIdle <? time_Sub now t | None => false end.

(** How a step's call ends: [ok], or refused for its size, or failed. *)
Inductive ending := Fine | TooLong | Fails.

(** A step of goroutine [n]; [None] where it cannot move. A read that gives nothing is no
    step. The socket's owner meets a datagram (in one of three shapes) or the end of the
    socket. *)
Definition thread_step (n : nat) (now : Time) (e : ending) (got : option Rendezvous.LinkGets) (l : shapedLink) : option shapedLink :=
  t ← threads l !! n;
  match t with
  | Establishing =>
      if closed l then Some (exits n l)
      else if match failed l with Some u => now <? u | None => false end then Some (exits n l)
      else
        let l := if started l then l else go SocketReading (set_started l) in
        match cur l with
        | Some a => if stale l now then Some (goto n (Retiring a) (set_cur None l)) else Some (goto n (Waiting a) (used now l))
        | None => let '(a, l) := mint l in Some (goto n (Waiting a) (used now l))
        end
  | Retiring a => Some (goto n Relocking (change set_done a l))
  | Relocking => let '(a, l) := mint l in Some (goto n (Waiting a) (used now l))
  | Waiting a =>
      x ← heap l !! a;
      if negb (ready x) then None
      else if err x then Some (goto n (Dropping a Return) (set_failed (Some (now + rendezvousHandshakeBackoff)) l))
      else Some (goto n (Writing a) (set_failed None l))
  | Writing a =>
      x ← heap l !! a;
      match (if done x then Fails else e) with
      | Fine => Some (exits n (used now (emit (Inside a) l)))
      | TooLong => Some (exits n l)
      | Fails => Some (goto n (Dropping a Return) l)
      end
  | Awaiting last =>
      if closed l then Some (exits n l)
      else
        match cur l with
        | Some a => if bool_decide (last = Some a) then None else Some (goto n (Readying a) l)
        | None => None
        end
  | Readying a =>
      x ← heap l !! a;
      if negb (ready x) then None
      else if err x then Some (goto n (Awaiting (Some a)) l) else Some (goto n (Reading a) l)
  | Reading a =>
      match e with
      | Fails => Some (goto n (Dropping a (ReadOn a)) l)
      | _ => Some (goto n (Awaiting None) (used now l))
      end
  | Dropping a k => Some (goto n (Retired a k) (if bool_decide (cur l = Some a) then set_cur None l else l))
  | Retired a k =>
      let l := change set_done a l in
      match k with
      | Return => Some (exits n l)
      | ReadOn a => if closed l then Some (exits n l) else Some (goto n (Awaiting (Some a)) l)
      end
  | Checking a =>
      x ← heap l !! a;
      if done x then Some (goto n (Finishing a) (change set_err a l))
      else match e with
           | Fine => Some (goto n (Shaking a) (emit (Check_ a) l))
           | _ => Some (goto n (Finishing a) (change set_err a l))
           end
  | Shaking a =>
      x ← heap l !! a;
      if done x then Some (goto n (Finishing a) (change set_err a l))
      else match e with
           | Fine => Some (goto n (Looking a) (change set_conn a (emit (Hello a) l)))
           | _ => Some (goto n (Finishing a) (change set_err a (emit (Hello a) l)))
           end
  | Looking a =>
      x ← heap l !! a;
      Some (goto n (Finishing a) (if done x then change set_err a l else l))
  | Finishing a => Some (exits n (change set_ready a l))
  | SocketReading =>
      match got with
      | Some Rendezvous.Unshaped => Some (match cur l with Some _ => noted l | None => l end)
      | Some _ => Some l
      | None => Some (exits n (match cur l with Some a => change set_done a l | None => l end))
      end
  | Closing =>
      if closed l then Some (exits n l)
      else
        let l := set_closed l in
        match cur l with
        | Some a => Some (goto n (ClosingAssoc a) (set_cur None l))
        | None => Some (exits n l)
        end
  | ClosingAssoc a => Some (exits n (change set_done a l))
  end.

(** A step of the system: a goroutine moves, or a new one enters: a send, a reader, a close. *)
Inductive link_step : shapedLink -> shapedLink -> Prop :=
| step_thread n now e got l l' : thread_step n now e got l = Some l' -> link_step l l'
| step_enter t l : t = Establishing \/ t = Awaiting None \/ t = Closing -> link_step l (go t l).
Definition link_reachable (l : shapedLink) : Prop := rtc link_step newShapedLink l.

(** [live] *)
Definition live (l : shapedLink) : bool :=
  match a ← cur l; heap l !! a with Some x => ready x && negb (err x) && conn x | None => false end.

(** ** The link's invariant *)

(** The association a goroutine is about to close; the one it shakes hands for; those it has
    its hands on. *)
Definition closes (t : thread) : option nat :=
  match t with Retiring a | Retired a _ | ClosingAssoc a => Some a | _ => None end.
Definition shakes (t : thread) : option nat :=
  match t with Checking a | Shaking a | Looking a | Finishing a => Some a | _ => None end.
Definition holds (t : thread) : list nat :=
  match t with
  | Retiring a | Waiting a | Writing a | Readying a | Reading a | Dropping a Return | Retired a Return
  | Checking a | Shaking a | Looking a | Finishing a | ClosingAssoc a => [a]
  | Dropping a (ReadOn b) | Retired a (ReadOn b) => [a; b]
  | _ => []
  end.

Record link_ok (l : shapedLink) : Prop := {
  lk_cur a : cur l = Some a -> is_Some (heap l !! a);
  lk_holds n t a : threads l !! n = Some t -> a ∈ holds t -> is_Some (heap l !! a);
  lk_next n : is_Some (heap l !! n) \/ is_Some (threads l !! n) -> (n < next l)%nat;
  lk_open a x : heap l !! a = Some x -> done x = false -> cur l = Some a \/ exists n t, threads l !! n = Some t /\ closes t = Some a;
  lk_shaken a x : heap l !! a = Some x -> ready x = false -> exists n t, threads l !! n = Some t /\ shakes t = Some a;
}.

(** What a step does to an association that was there: it may close it, end its handshake or
    say how that went; it never reopens one. *)
Definition only_grows (l l' : shapedLink) : Prop :=
  forall a x, heap l !! a = Some x -> exists x', heap l' !! a = Some x' /\ (done x = true -> done x' = true) /\ (ready x = true -> ready x' = true).

Lemma grows_same l l' : heap l' = heap l -> only_grows l l'.
Proof. intros Heq a x Hx. exists x. by rewrite Heq. Qed.
Lemma grows_change f a l l' : heap l' = alter f a (heap l) -> (forall x, done x = true -> done (f x) = true) ->
  (forall x, ready x = true -> ready (f x) = true) -> only_grows l l'.
Proof.
  intros Heq Hd Hr b x Hx. rewrite Heq. destruct (decide (b = a)) as [->|].
  - exists (f x). rewrite lookup_alter_eq, Hx. auto.
  - exists x. by rewrite lookup_alter_ne.
Qed.

(** Replacing the stage of one goroutine, the rest as it was but for one association. *)
Lemma ok_goto n t u a f c l :
  link_ok l -> threads l !! n = Some t ->
  (forall x, done x = true -> done (f x) = true) -> (forall x, ready x = true -> ready (f x) = true) ->
  (forall b, c = Some b -> is_Some (heap l !! b)) ->
  (forall t' b, u = Some t' -> b ∈ holds t' -> is_Some (heap l !! b)) ->
  (forall b x, heap l !! b = Some x -> done (if decide (b = a) then f x else x) = false ->
     cur l = Some b \/ closes t = Some b -> c = Some b \/ exists t', u = Some t' /\ closes t' = Some b) ->
  (forall b x, heap l !! b = Some x -> ready (if decide (b = a) then f x else x) = false ->
     shakes t = Some b -> exists t', u = Some t' /\ shakes t' = Some b) ->
  forall l', cur l' = c -> heap l' = alter f a (heap l) -> next l' = next l ->
    threads l' = (match u with Some t' => <[n := t']> (threads l) | None => delete n (threads l) end) -> link_ok l'.
Proof.
  intros [Hc Hh Hn Ho Hs] Ht Hfd Hfr Hcur Hhold Hopen Hshake l' Ec Eh En Et.
  assert (forall b, is_Some (heap l' !! b) <-> is_Some (heap l !! b)) as Hdom.
  { intros b. rewrite Eh. destruct (decide (b = a)) as [->|]; [by rewrite lookup_alter_eq, fmap_is_Some|by rewrite lookup_alter_ne]. }
  assert (forall b x, heap l' !! b = Some x -> exists x0, heap l !! b = Some x0 /\ x = if decide (b = a) then f x0 else x0) as Hval.
  { intros b x. rewrite Eh. destruct (decide (b = a)) as [->|]; [|rewrite lookup_alter_ne by done; naive_solver].
    rewrite lookup_alter_eq. destruct (heap l !! a) as [x0|]; cbn; [|done]. intros [= <-]. by exists x0. }
  assert (forall m t', threads l' !! m = Some t' -> (m = n /\ u = Some t') \/ (m <> n /\ threads l !! m = Some t')) as Hth.
  { intros m t'. rewrite Et. destruct u as [t0|]; [rewrite lookup_insert_Some; naive_solver|rewrite lookup_delete_Some; naive_solver]. }
  assert (forall m t', m <> n -> threads l !! m = Some t' -> threads l' !! m = Some t') as Hother.
  { intros m t' Hm Hm'. rewrite Et. destruct u; [by rewrite lookup_insert_ne|by rewrite lookup_delete_ne]. }
  assert (forall t', u = Some t' -> threads l' !! n = Some t') as Hself by (intros t' Hu; rewrite Et, Hu; apply lookup_insert_eq).
  split.
  - intros b Hb. apply Hdom. apply Hcur. congruence.
  - intros m t' b Hm Hb. apply Hdom. apply Hth in Hm as [[-> Hu]|[_ Hm]]; [by apply (Hhold t')|by apply (Hh m t')].
  - intros m [Hm|[t' Hm]]; rewrite En; apply Hn; [left; by apply Hdom|right]. apply Hth in Hm as [[-> _]|[_ Hm]]; by eexists.
  - intros b x Hb Hd. apply Hval in Hb as (x0 & Hb & ->). rewrite Ec.
    assert (done x0 = false) as Hd0 by (destruct (decide (b = a)); [|done]; destruct (done x0) eqn:Hx; [by rewrite Hfd in Hd|done]).
    destruct (Ho b x0 Hb Hd0) as [Hb'|(m & t' & Hm & Hcl)].
    + destruct (Hopen b x0 Hb Hd (or_introl Hb')) as [|(t' & Hu & Hcl)]; [by left|right; exists n, t'; split; [by apply Hself|done]].
    + destruct (decide (m = n)) as [->|Hmn]; [|right; exists m, t'; split; [by apply Hother|done]].
      assert (t' = t) as -> by congruence.
      destruct (Hopen b x0 Hb Hd (or_intror Hcl)) as [|(t' & Hu & Hcl')]; [by left|right; exists n, t'; split; [by apply Hself|done]].
  - intros b x Hb Hd. apply Hval in Hb as (x0 & Hb & ->).
    assert (ready x0 = false) as Hd0 by (destruct (decide (b = a)); [|done]; destruct (ready x0) eqn:Hx; [by rewrite Hfr in Hd|done]).
    destruct (Hs b x0 Hb Hd0) as (m & t' & Hm & Hsh).
    destruct (decide (m = n)) as [->|Hmn]; [|exists m, t'; split; [by apply Hother|done]].
    assert (t' = t) as -> by congruence.
    destruct (Hshake b x0 Hb Hd Hsh) as (t' & Hu & Hsh'). exists n, t'. split; [by apply Hself|done].
Qed.

Lemma ok_ext l l' : cur l' = cur l -> heap l' = heap l -> next l' = next l -> threads l' = threads l -> link_ok l -> link_ok l'.
Proof. intros H1 H2 H3 H4 [Hc Hh Hn Ho Hs]. split; rewrite ?H1, ?H2, ?H3, ?H4; assumption. Qed.

(** A goroutine that neither closes nor shakes hands goes on, the rest as it was. *)
Lemma ok_move n t u l l' :
  link_ok l -> threads l !! n = Some t -> closes t = None -> shakes t = None ->
  (forall t' b, u = Some t' -> b ∈ holds t' -> is_Some (heap l !! b)) ->
  cur l' = cur l -> heap l' = heap l -> next l' = next l ->
  threads l' = (match u with Some t' => <[n := t']> (threads l) | None => delete n (threads l) end) -> link_ok l'.
Proof.
  intros Hok Ht Hc Hs Hh E1 E2 E3 E4.
  apply (ok_goto n t u 0 id (cur l) l Hok Ht); try done.
  - intros b. apply (lk_cur _ Hok).
  - intros b x _ _ [Hb|Hb]; [by left|congruence].
  - intros b x _ _ Hb. congruence.
  - rewrite E2. symmetry. by apply alter_id.
Qed.

Lemma ok_go t l : link_ok l -> (forall b, b ∈ holds t -> is_Some (heap l !! b)) -> link_ok (go t l).
Proof.
  intros [Hc Hh Hn Ho Hs] Ht.
  assert (forall m t', threads l !! m = Some t' -> <[next l := t]> (threads l) !! m = Some t') as Hkeep.
  { intros m t' Hm. rewrite lookup_insert_ne; [done|]. intros <-. pose proof (Hn (next l) (or_intror (ex_intro _ _ Hm))). lia. }
  split; cbn [go cur heap next threads]; try done.
  - intros n t' a. rewrite lookup_insert_Some. intros [[<- <-]|[_ Hm]] Ha; [by apply Ht|by apply (Hh n t')].
  - intros n [Hm|[t' Hm]]; [pose proof (Hn n (or_introl Hm)); lia|]. apply lookup_insert_Some in Hm as [[<- _]|[_ Hm]]; [lia|].
    pose proof (Hn n (or_intror (ex_intro _ _ Hm))). lia.
  - intros a x Hx Hd. destruct (Ho a x Hx Hd) as [|(m & t' & Hm & Hcl)]; [by left|right]. exists m, t'. auto.
  - intros a x Hx Hd. destruct (Hs a x Hx Hd) as (m & t' & Hm & Hcl). exists m, t'. auto.
Qed.

Lemma ok_mint l : link_ok l -> let '(a, l') := mint l in
  link_ok l' /\ cur l' = Some a /\ only_grows l l' /\ (forall n t, threads l !! n = Some t -> threads l' !! n = Some t) /\ closed l' = closed l.
Proof.
  intros Hok. unfold mint. destruct (cur l) as [a|] eqn:Hcur; [split_and!; try done; by apply grows_same|].
  pose proof Hok as [Hc Hh Hn Ho Hs]. set (a := next l).
  assert (heap l !! a = None) as Hfree.
  { destruct (heap l !! a) eqn:Hx; [|done]. pose proof (Hn a (or_introl (ex_intro _ _ Hx))). unfold a in *. lia. }
  assert (forall m t', threads l !! m = Some t' -> m <> S a) as Hfresh.
  { intros m t' Hm ->. pose proof (Hn (S a) (or_intror (ex_intro _ _ Hm))). unfold a in *. lia. }
  split; [|split_and!; try done].
  - split; cbn [go cur heap next threads].
    + intros b [= <-]. by rewrite lookup_insert_eq.
    + intros n t b. rewrite lookup_insert_Some. intros [[<- <-]|[_ Hm]] Hb.
      * cbn in Hb. apply list_elem_of_singleton in Hb as ->. by rewrite lookup_insert_eq.
      * destruct (decide (b = a)) as [->|]; [by rewrite lookup_insert_eq|rewrite lookup_insert_ne by done; by apply (Hh n t)].
    + intros n [[x Hm]|[t Hm]]; apply lookup_insert_Some in Hm as [[<- _]|[_ Hm]]; unfold a; try lia;
        [pose proof (Hn n (or_introl (ex_intro _ _ Hm)))|pose proof (Hn n (or_intror (ex_intro _ _ Hm)))]; lia.
    + intros b x. rewrite lookup_insert_Some. intros [[<- _]|[Hb Hx]] Hd; [by left|].
      destruct (Ho b x Hx Hd) as [|(m & t' & Hm & Hcl)]; [congruence|right]. exists m, t'. split; [|done].
      rewrite lookup_insert_ne; [done|]. by apply not_eq_sym, (Hfresh m t').
    + intros b x. rewrite lookup_insert_Some. intros [[<- _]|[Hb Hx]] Hd.
      * exists (S a), (Checking a). by rewrite lookup_insert_eq.
      * destruct (Hs b x Hx Hd) as (m & t' & Hm & Hcl). exists m, t'. split; [|done].
        rewrite lookup_insert_ne; [done|]. by apply not_eq_sym, (Hfresh m t').
  - intros b x Hx. exists x. cbn [go heap]. rewrite lookup_insert_ne; [done|]. intros <-. congruence.
  - intros n t Hm. cbn [go threads]. rewrite lookup_insert_ne; [done|]. by apply not_eq_sym, (Hfresh n t).
Qed.

Ltac one_of H := repeat (apply elem_of_cons in H as [->|H]); try (by apply not_elem_of_nil in H).

Lemma ok_goes n t u l l' :
  link_ok l -> threads l !! n = Some t -> closes t = None -> shakes t = None -> (forall b, b ∈ holds u -> is_Some (heap l !! b)) ->
  cur l' = cur l -> heap l' = heap l -> next l' = next l -> threads l' = threads l -> link_ok (goto n u l').
Proof.
  intros H1 H2 H3 H4 H5 E1 E2 E3 E4. apply (ok_move n t (Some u) l _ H1 H2 H3 H4); try done; [by intros t' b [= <-]; apply H5|].
  cbn. by rewrite E4.
Qed.
Lemma ok_exits n t l l' :
  link_ok l -> threads l !! n = Some t -> closes t = None -> shakes t = None ->
  cur l' = cur l -> heap l' = heap l -> next l' = next l -> threads l' = threads l -> link_ok (exits n l').
Proof. intros H1 H2 H3 H4 E1 E2 E3 E4. apply (ok_move n t None l _ H1 H2 H3 H4); try done. cbn. by rewrite E4. Qed.
Lemma ok_mints n t now l : link_ok l -> threads l !! n = Some t -> closes t = None -> shakes t = None ->
  let '(a, l') := mint l in link_ok (goto n (Waiting a) (used now l')).
Proof.
  intros H1 H2 H3 H4. pose proof (ok_mint l H1) as Hm. destruct (mint l) as [a l2]. destruct Hm as (Hm & Hca & _ & Hkeep & _).
  apply (ok_goes n t _ l2); try done; [by apply Hkeep|]. intros b Hb. one_of Hb. by apply (lk_cur _ Hm).
Qed.

(** The goroutines by what they are: what each does keeps the invariant. *)
Section Steps.
Context (n : nat) (now : Time) (e : ending) (got : option Rendezvous.LinkGets) (l l' : shapedLink) (Hok : link_ok l).

Lemma sending_ok t : threads l !! n = Some t ->
  t = Establishing \/ (exists a, t = Retiring a) \/ t = Relocking \/ (exists a, t = Waiting a) \/ (exists a, t = Writing a) ->
  thread_step n now e got l = Some l' -> link_ok l'.
Proof.
  intros Ht Hcase. unfold thread_step. rewrite Ht. cbn [mbind option_bind].
  pose proof (fun a => lk_holds _ Hok n t a Ht) as Hh. pose proof (lk_cur _ Hok) as Hcur.
  pose proof (fun l0 u H1 H2 l2 => ok_goes n t u l0 l2 H1 H2) as Hgo. pose proof (fun l2 => ok_exits n t l l2 Hok Ht) as Hexit. pose proof (ok_mints n t now) as Hmint.
  destruct Hcase as [-> |[[a ->]|[-> |[[a ->]|[a ->]]]]].
  - destruct (closed l); [intros [= <-]; by apply Hexit|]. destruct (match failed l with Some u => _ | None => _ end); [intros [= <-]; by apply Hexit|].
    set (l1 := if started l then l else _).
    assert (link_ok l1 /\ threads l1 !! n = Some Establishing /\ cur l1 = cur l /\ heap l1 = heap l) as (Hok1 & Ht1 & Hc1 & Hh1).
    { unfold l1. destruct (started l); [done|]. split; [apply ok_go; [by apply (ok_ext l)|by intros b Hb; one_of Hb]|]. cbn. split; [|done].
      rewrite lookup_insert_ne; [done|]. intros <-. pose proof (lk_next _ Hok (next l) (or_intror (ex_intro _ _ Ht))). lia. }
    clearbody l1. destruct (cur l1) as [a|] eqn:Hca.
    + destruct (stale l1 now); intros [= <-].
      * apply (ok_goto n Establishing (Some (Retiring a)) a id None l1 Hok1 Ht1); try done.
        -- intros t' b [= <-] Hb. one_of Hb. by apply (lk_cur _ Hok1).
        -- intros b x Hx Hd [Hb|Hb]; [|done]. right. eexists. split; [done|]. cbn. congruence.
        -- cbn. symmetry. by apply alter_id.
      * apply (Hgo l1 _ Hok1 Ht1); try done. intros b Hb. one_of Hb. by apply (lk_cur _ Hok1).
    + pose proof (Hmint l1 Hok1 Ht1 eq_refl eq_refl) as Hm. destruct (mint l1) as [a l2]. by intros [= <-].
  - intros [= <-]. apply (ok_goto n (Retiring a) (Some Relocking) a set_done (cur l) l Hok Ht); try done.
    + intros t' b [= <-] Hb. one_of Hb.
    + intros b x Hx Hd [Hb|[= <-]]; [by left|]. by rewrite decide_True in Hd.
  - pose proof (Hmint l Hok Ht eq_refl eq_refl) as Hm. destruct (mint l) as [a l2]. by intros [= <-].
  - destruct (heap l !! a) as [x|] eqn:Hx; cbn [mbind option_bind]; [|done]. destruct (negb (ready x)); [done|].
    destruct (err x); intros [= <-]; apply (Hgo l _ Hok Ht); try done; intros b Hb; one_of Hb; by eexists.
  - destruct (heap l !! a) as [x|] eqn:Hx; cbn [mbind option_bind]; [|done].
    destruct (if done x then Fails else e); intros [= <-]; try (by apply Hexit). by apply (Hgo l _ Hok Ht).
Qed.

Lemma reading_ok t : threads l !! n = Some t ->
  (exists last, t = Awaiting last) \/ (exists a, t = Readying a) \/ (exists a, t = Reading a) \/ (exists a k, t = Dropping a k) \/ (exists a k, t = Retired a k) ->
  thread_step n now e got l = Some l' -> link_ok l'.
Proof.
  intros Ht Hcase. unfold thread_step. rewrite Ht. cbn [mbind option_bind].
  pose proof (fun a => lk_holds _ Hok n t a Ht) as Hh. pose proof (lk_cur _ Hok) as Hcur.
  pose proof (fun l0 u H1 H2 l2 => ok_goes n t u l0 l2 H1 H2) as Hgo. pose proof (fun l2 => ok_exits n t l l2 Hok Ht) as Hexit. pose proof (ok_mints n t now) as Hmint.
  destruct Hcase as [[last ->]|[[a ->]|[[a ->]|[(a & k & ->)|(a & k & ->)]]]].
  - destruct (closed l); [intros [= <-]; by apply Hexit|]. destruct (cur l) as [a|] eqn:Hca; [|done]. case_bool_decide; [done|].
    intros [= <-]. apply (Hgo l _ Hok Ht); try done; intros b Hb; one_of Hb; by apply Hcur.
  - destruct (heap l !! a) as [x|] eqn:Hx; cbn [mbind option_bind]; [|done]. destruct (negb (ready x)); [done|].
    destruct (err x); intros [= <-]; apply (Hgo l _ Hok Ht); try done; intros b Hb; one_of Hb; by eexists.
  - destruct e; intros [= <-]; apply (Hgo l _ Hok Ht); try done; intros b Hb; one_of Hb; apply Hh; cbn; set_solver.
  - intros [= <-]. case_bool_decide as Hca.
    + apply (ok_goto n (Dropping a k) (Some (Retired a k)) a id None l Hok Ht); try done.
      * intros t' b [= <-] Hb. apply Hh. by destruct k.
      * intros b x Hx Hd [Hb|Hb]; [|done]. right. eexists. split; [done|]. cbn. congruence.
      * cbn. symmetry. by apply alter_id.
    + apply (Hgo l _ Hok Ht); try done; intros b Hb; apply Hh; by destruct k.
  - assert (forall u, (forall t' b, u = Some t' -> b ∈ holds t' -> is_Some (heap l !! b)) ->
      forall l2, cur l2 = cur l -> heap l2 = alter set_done a (heap l) -> next l2 = next l ->
      threads l2 = (match u with Some t' => <[n := t']> (threads l) | None => delete n (threads l) end) -> link_ok l2) as Hret.
    { intros u Hu. apply (ok_goto n (Retired a k) u a set_done (cur l) l Hok Ht); try done.
      intros b x Hx Hd [Hb|[= <-]]; [by left|]. by rewrite decide_True in Hd. }
    destruct k as [|b]; [intros [= <-]; by apply (Hret None)|]. destruct (closed _); intros [= <-]; [by apply (Hret None)|].
    apply (Hret (Some (Awaiting (Some b)))); try done. intros t' c [= <-] Hb. one_of Hb.
Qed.

Lemma shaking_ok t : threads l !! n = Some t ->
  (exists a, t = Checking a) \/ (exists a, t = Shaking a) \/ (exists a, t = Looking a) \/ (exists a, t = Finishing a) ->
  thread_step n now e got l = Some l' -> link_ok l'.
Proof.
  intros Ht Hcase. unfold thread_step. rewrite Ht. cbn [mbind option_bind].
  pose proof (fun a => lk_holds _ Hok n t a Ht) as Hh. pose proof (lk_cur _ Hok) as Hcur.
  pose proof (fun l0 u H1 H2 l2 => ok_goes n t u l0 l2 H1 H2) as Hgo. pose proof (fun l2 => ok_exits n t l l2 Hok Ht) as Hexit. pose proof (ok_mints n t now) as Hmint.
  destruct Hcase as [[a ->]|[[a ->]|[[a ->]|[a ->]]]].
  - destruct (heap l !! a) as [x|] eqn:Hx; cbn [mbind option_bind]; [|done].
    assert (forall u l2, u = Shaking a \/ u = Finishing a -> cur l2 = cur l -> (heap l2 = heap l \/ heap l2 = alter set_err a (heap l)) -> next l2 = next l ->
      threads l2 = <[n := u]> (threads l) -> link_ok l2) as Hsh.
    { intros u l2 Hu E1 E2 E3 E4. assert (shakes u = Some a /\ holds u = [a] /\ closes u = None) as (S1 & S2 & S3) by (by destruct Hu as [-> | ->]).
      destruct E2 as [E2|E2]; [apply (ok_goto n (Checking a) (Some u) a id (cur l) l Hok Ht)|apply (ok_goto n (Checking a) (Some u) a set_err (cur l) l Hok Ht)]; try done.
      all: try (intros t' b [= <-] Hb; rewrite S2 in Hb; one_of Hb; by eexists).
      all: try (intros b y _ _ [Hb|Hb]; [by left|done]). all: try (intros b y _ _ [= <-]; by exists u).
      rewrite E2. symmetry. by apply alter_id. }
    destruct (done x); [intros [= <-]; apply (Hsh (Finishing a)); auto|]. destruct e; intros [= <-]; [apply (Hsh (Shaking a))|apply (Hsh (Finishing a))..]; auto.
  - destruct (heap l !! a) as [x|] eqn:Hx; cbn [mbind option_bind]; [|done].
    assert (forall u f l2, (u = Looking a /\ f = set_conn) \/ (u = Finishing a /\ f = set_err) -> cur l2 = cur l -> heap l2 = alter f a (heap l) -> next l2 = next l ->
      threads l2 = <[n := u]> (threads l) -> link_ok l2) as Hsh.
    { intros u f l2 Hu E1 E2 E3 E4. assert (shakes u = Some a /\ holds u = [a] /\ closes u = None) as (S1 & S2 & S3) by (by destruct Hu as [[-> _]|[-> _]]).
      apply (ok_goto n (Shaking a) (Some u) a f (cur l) l Hok Ht); try done.
      all: try (intros y; by destruct Hu as [[_ ->]|[_ ->]]).
      all: try (intros t' b [= <-] Hb; rewrite S2 in Hb; one_of Hb; by eexists).
      all: try (intros b y _ _ [Hb|Hb]; [by left|done]). all: try (intros b y _ _ [= <-]; by exists u). }
    destruct (done x); [|destruct e]; intros [= <-]; [apply (Hsh (Finishing a) set_err)|apply (Hsh (Looking a) set_conn)|apply (Hsh (Finishing a) set_err)..]; auto.
  - destruct (heap l !! a) as [x|] eqn:Hx; cbn [mbind option_bind]; [|done]. intros [= <-].
    set (f := if done x then set_err else id).
    apply (ok_goto n (Looking a) (Some (Finishing a)) a f (cur l) l Hok Ht); try done.
    all: try (intros y; unfold f; by destruct (done x)).
    + intros t' b [= <-] Hb. one_of Hb. by eexists.
    + intros b y _ _ [Hb|Hb]; [by left|done].
    + intros b y _ _ [= <-]. by exists (Finishing a).
    + by destruct (done x).
    + unfold f. destruct (done x); cbn; [done|]. symmetry. by apply alter_id.
    + by destruct (done x).
    + by destruct (done x).
  - intros [= <-]. apply (ok_goto n (Finishing a) None a set_ready (cur l) l Hok Ht); try done.
    + intros b x Hx Hd [Hb|Hb]; [by left|done].
    + intros b x Hx Hd [= <-]. by rewrite decide_True in Hd.
Qed.

Lemma closing_ok t : threads l !! n = Some t ->
  t = SocketReading \/ t = Closing \/ (exists a, t = ClosingAssoc a) ->
  thread_step n now e got l = Some l' -> link_ok l'.
Proof.
  intros Ht Hcase. unfold thread_step. rewrite Ht. cbn [mbind option_bind].
  pose proof (fun a => lk_holds _ Hok n t a Ht) as Hh. pose proof (lk_cur _ Hok) as Hcur.
  pose proof (fun l0 u H1 H2 l2 => ok_goes n t u l0 l2 H1 H2) as Hgo. pose proof (fun l2 => ok_exits n t l l2 Hok Ht) as Hexit. pose proof (ok_mints n t now) as Hmint.
  destruct Hcase as [-> |[-> |[a ->]]].
  - destruct got as [[| |]|]; try (intros [= <-]; done).
    + intros [= <-]. destruct (cur l) eqn:Hca; [|done]. by apply (ok_ext l).
    + intros [= <-]. destruct (cur l) as [a|] eqn:Hca; [|by apply Hexit].
      apply (ok_goto n SocketReading None a set_done (Some a) l Hok Ht); try done.
      intros b x Hx Hd [Hb|Hb]; [by left; congruence|done].
  - destruct (closed l); [intros [= <-]; by apply Hexit|]. cbn [set_closed cur]. destruct (cur l) as [a|] eqn:Hca; intros [= <-]; [|apply Hexit; try done; by rewrite Hca].
    apply (ok_goto n Closing (Some (ClosingAssoc a)) a id None l Hok Ht); try done.
    + intros t' b [= <-] Hb. one_of Hb. by apply Hcur.
    + intros b x Hx Hd [Hb|Hb]; [|done]. right. eexists. split; [done|]. cbn. congruence.
    + cbn. symmetry. by apply alter_id.
  - intros [= <-]. apply (ok_goto n (ClosingAssoc a) None a set_done (cur l) l Hok Ht); try done.
    intros b x Hx Hd [Hb|[= <-]]; [by left|]. by rewrite decide_True in Hd.
Qed.

Lemma thread_step_ok : thread_step n now e got l = Some l' -> link_ok l'.
Proof.
  destruct (threads l !! n) as [t|] eqn:Ht; [|unfold thread_step; by rewrite Ht].
  destruct t; first [by eapply sending_ok; eauto 10|by eapply reading_ok; eauto 10|by eapply shaking_ok; eauto 10|by eapply closing_ok; eauto 10].
Qed.
End Steps.

Lemma link_reachable_ok l : link_reachable l -> link_ok l.
Proof.
  intros Hr. unfold link_reachable in Hr. remember newShapedLink as l0 eqn:H0.
  assert (link_ok l0) as Hok0.
  { subst l0. split; cbn.
    - done.
    - intros n t a Hn. by rewrite lookup_empty in Hn.
    - intros n [Hn|Hn]; rewrite lookup_empty in Hn; by destruct Hn.
    - intros a x Hx. by rewrite lookup_empty in Hx.
    - intros a x Hx. by rewrite lookup_empty in Hx. }
  clear H0. induction Hr as [|l l1 l2 Hstep _ IH]; [done|]. apply IH. destruct Hstep as [n now e got l l1 Hs|t l Ht].
  - by apply (thread_step_ok n now e got l).
  - apply ok_go; [done|]. destruct Ht as [->|[-> | ->]]; intros b Hb; one_of Hb.
Qed.

(** C15: Two associations never run for one socket: of two that are not closed, one is no longer
    the link's and a goroutine that retired it is about to close it. *)
Theorem one_association l a b x y :
  link_reachable l -> heap l !! a = Some x -> heap l !! b = Some y -> a <> b -> done x = false -> done y = false ->
  exists c n t, (c = a \/ c = b) /\ cur l <> Some c /\ threads l !! n = Some t /\ closes t = Some c.
Proof.
  intros Hok%link_reachable_ok Ha Hb Hab Hdx Hdy.
  destruct (lk_open _ Hok a x Ha Hdx) as [Hca|(n & t & Hn & Ht)], (lk_open _ Hok b y Hb Hdy) as [Hcb|(m & u & Hm & Hu)]; [congruence|..].
  - exists b, m, u. split; [auto|]. split; [congruence|done].
  - exists a, n, t. split; [auto|]. split; [congruence|done].
  - destruct (decide (cur l = Some a)); [exists b, m, u|exists a, n, t]; (split; [auto|]); (split; [congruence|done]).
Qed.

(** ** A send ends *)

Definition send_rank (t : thread) : option nat :=
  match t with
  | Establishing => Some 7 | Retiring _ => Some 6 | Relocking => Some 5 | Waiting _ => Some 4 | Writing _ => Some 3
  | Dropping _ Return => Some 2 | Retired _ Return => Some 1 | _ => None
  end%nat.
Definition shake_rank (t : thread) : nat :=
  match t with Checking _ => 4 | Shaking _ => 3 | Looking _ => 2 | Finishing _ => 1 | _ => 0 end.

Lemma threads_mint l : let '(a, l') := mint l in heap l' !! a <> None \/ cur l = Some a.
Proof. unfold mint. destruct (cur l); [by right|left]. cbn. by rewrite lookup_insert_eq. Qed.

Lemma shake_moves l m u a : link_ok l -> threads l !! m = Some u -> shakes u = Some a ->
  forall now e, exists l', thread_step m now e None l = Some l' /\
    ((threads l' !! m = None /\ (exists x, heap l' !! a = Some x /\ ready x = true)) \/
     exists u', threads l' !! m = Some u' /\ shakes u' = Some a /\ (shake_rank u' < shake_rank u)%nat).
Proof.
  intros Hok Hm Hu now e. assert (a ∈ holds u) as Hin by (destruct u; try done; injection Hu as ->; cbn; set_solver).
  destruct (lk_holds _ Hok m u a Hm Hin) as [x Hx]. unfold thread_step. rewrite Hm. cbn [mbind option_bind].
  destruct u as [| | | | | | | | | |b|b|b|b| | |]; try done; injection Hu as ->; rewrite ?Hx; cbn [mbind option_bind].
  - destruct (done x); [|destruct e]; (eexists; split; [done|]; right; eexists; split; [apply lookup_insert_eq|]; cbn; split; [done|lia]).
  - destruct (done x); [|destruct e]; (eexists; split; [done|]; right; eexists; split; [apply lookup_insert_eq|]; cbn; split; [done|lia]).
  - eexists. split; [done|]. right. eexists. split; [apply lookup_insert_eq|]. cbn. split; [done|lia].
  - eexists. split; [done|]. left. split; [apply lookup_delete_eq|]. exists (set_ready x). cbn. by rewrite lookup_alter_eq, Hx.
Qed.

(** C32: A send waits for nothing but one handshake, which moves by itself: each step of a send
    brings it nearer its end; the only place where it cannot step is where its association
    is not ready; and then that association's handshake can step, and each step of it, of at
    most four, brings it nearer its end, at which the association is ready. *)
Theorem send_waits_for_one_handshake l n t k :
  link_reachable l -> threads l !! n = Some t -> send_rank t = Some k ->
  (forall now e got l', thread_step n now e got l = Some l' ->
     threads l' !! n = None \/ exists t' k', threads l' !! n = Some t' /\ send_rank t' = Some k' /\ (k' < k)%nat) /\
  ((forall now e, is_Some (thread_step n now e None l)) \/
   exists a m u, t = Waiting a /\ threads l !! m = Some u /\ shakes u = Some a /\ (shake_rank u <= 4)%nat /\
     forall now e, exists l', thread_step m now e None l = Some l' /\
       ((threads l' !! m = None /\ (exists x, heap l' !! a = Some x /\ ready x = true)) \/
        exists u', threads l' !! m = Some u' /\ shakes u' = Some a /\ (shake_rank u' < shake_rank u)%nat)).
Proof.
  intros Hok%link_reachable_ok Hn Hk. pose proof (fun a => lk_holds _ Hok n t a Hn) as Hh.
  assert (forall u j l', send_rank u = Some j -> (j < k)%nat -> threads (goto n u l') !! n = None \/
    exists t' k', threads (goto n u l') !! n = Some t' /\ send_rank t' = Some k' /\ (k' < k)%nat) as Hgo.
  { intros u j l' H1 H2. right. exists u, j. split; [apply lookup_insert_eq|done]. }
  assert (forall l', threads (exits n l') !! n = None) as Hex by (intros l'; apply lookup_delete_eq).
  split.
  - intros now e got l'. unfold thread_step. rewrite Hn. cbn [mbind option_bind].
    destruct t as [|a| |a|a| | | |a [|?]|a [|?]| | | | | | |]; try done; injection Hk as <-.
    + destruct (closed l); [intros [= <-]; by left|]. destruct (match failed l with Some u => _ | None => _ end); [intros [= <-]; by left|].
      set (l1 := if started l then l else _). clearbody l1. destruct (cur l1) as [a|]; [destruct (stale l1 now)|destruct (mint l1) as [a l2]]; intros [= <-]; (eapply Hgo; [done|lia]).
    + intros [= <-]. eapply Hgo; [done|lia].
    + destruct (mint l) as [a l2]. intros [= <-]. eapply Hgo; [done|lia].
    + destruct (heap l !! a) as [x|]; cbn; [|done]. destruct (negb (ready x)); [done|]. destruct (err x); intros [= <-]; (eapply Hgo; [done|lia]).
    + destruct (heap l !! a) as [x|]; cbn; [|done]. destruct (if done x then Fails else e); intros [= <-]; try (by left); (eapply Hgo; [done|lia]).
    + intros [= <-]. eapply Hgo; [done|lia].
    + intros [= <-]. by left.
  - destruct t as [|a| |a|a| | | |a [|?]|a [|?]| | | | | | |]; try done; unfold thread_step; rewrite Hn; cbn [mbind option_bind].
    + left. intros now e. destruct (closed l); [by eexists|]. destruct (match failed l with Some u => _ | None => _ end); [by eexists|].
      set (l1 := if started l then l else _). clearbody l1. destruct (cur l1) as [a|]; [destruct (stale l1 now)|destruct (mint l1) as [a l2]]; by eexists.
    + left. by eexists.
    + left. intros now e. destruct (mint l) as [a l2]. by eexists.
    + destruct (Hh a ltac:(cbn; set_solver)) as [x Hx]. destruct (ready x) eqn:Hr.
      * left. intros now e. rewrite Hx. cbn. rewrite Hr. cbn. destruct (err x); by eexists.
      * right. destruct (lk_shaken _ Hok a x Hx Hr) as (m & u & Hm & Hu). exists a, m, u. split_and!; try done.
        -- destruct u; cbn; lia.
        -- by apply shake_moves.
    + left. intros now e. destruct (Hh a ltac:(cbn; set_solver)) as [x Hx]. rewrite Hx. cbn. destruct (if done x then Fails else e); by eexists.
    + left. by eexists.
    + left. by eexists.
Qed.

(** ** Nothing goes out before the first send *)

Inductive quiet_step : shapedLink -> shapedLink -> Prop :=
| quiet_thread n now e got l l' : thread_step n now e got l = Some l' -> quiet_step l l'
| quiet_enter t l : t = Awaiting None \/ t = Closing -> quiet_step l (go t l).

(** A link that is dialed, read from and closed, but not sent on, puts nothing on the wire
    and starts nothing. *)
Theorem silent_until_sent l :
  rtc quiet_step newShapedLink l -> wire_ l = [] /\ heap l = ∅ /\ cur l = None /\ started l = false.
Proof.
  intros Hr. remember newShapedLink as l0 eqn:H0.
  set (I := fun l => wire_ l = [] /\ heap l = ∅ /\ cur l = None /\ started l = false /\
    forall n t, threads l !! n = Some t -> t = Closing \/ exists o, t = Awaiting o).
  assert (I l0) as HI by (subst l0; unfold I; cbn; split_and!; try done; intros n t Hn; by rewrite lookup_empty in Hn).
  clear H0. assert (I l) as (H1 & H2 & H3 & H4 & _); [|done].
  induction Hr as [|l l1 l2 Hstep _ IH]; [done|]. apply IH. destruct HI as (H1 & H2 & H3 & H4 & H5).
  destruct Hstep as [n now e got l l1 Hs|t l Ht].
  - unfold thread_step in Hs. destruct (threads l !! n) as [t|] eqn:Hn; cbn in Hs; [|done].
    assert (forall m t', delete n (threads l) !! m = Some t' -> t' = Closing \/ exists o, t' = Awaiting o) as Hd
      by (intros m t'; rewrite lookup_delete_Some; intros [_ Hm]; by apply (H5 m)).
    destruct (H5 n t Hn) as [->|[o ->]]; rewrite ?H3 in Hs; cbn in Hs.
    + destruct (closed l); injection Hs as <-; by unfold I.
    + destruct (closed l); [injection Hs as <-; by unfold I|done].
  - unfold I. cbn. split_and!; try done. intros n t'. rewrite lookup_insert_Some. intros [[<- <-]|[_ Hm]]; [|by apply (H5 n)].
    destruct Ht as [->| ->]; eauto.
Qed.

(** ** The two clocks *)

(** A send on a link nobody else uses, and several. *)
Definition three_steps (now : Time) (l : shapedLink) : option shapedLink :=
  let n := next l in
  l ← thread_step n now Fine None (go Establishing l);
  l ← thread_step n now Fine None l;
  thread_step n now Fine None l.
Fixpoint sends (ts : list Time) (l : shapedLink) : option shapedLink :=
  match ts with [] => Some l | t :: ts => l ← three_steps t l; sends ts l end.

(** The link holds an established association, last used at [T]. *)
Definition holding (l : shapedLink) (a : nat) (T : Time) : Prop :=
  cur l = Some a /\ heap l !! a = Some (MkShaped false true true false) /\ closed l = false /\ failed l = None /\ started l = true /\ lastUsed l = Some T.

Fixpoint close_together (T : Time) (ts : list Time) : Prop :=
  match ts with [] => True | t :: ts => t <= T + rendezvousAssocIdle /\ close_together t ts end.

Lemma stale_spec l T now : lastUsed l = Some T -> stale l now = (T + rendezvousAssocIdle <? now).
Proof.
  intros HT. unfold stale. rewrite HT, time_Sub_gt by by vm_compute. apply eq_iff_eq_true. rewrite !Z.ltb_lt. lia.
Qed.

Lemma send_inside l a T now : holding l a T -> now <= T + rendezvousAssocIdle ->
  exists l', three_steps now l = Some l' /\ holding l' a now /\ wire_ l' = wire_ l ++ [Inside a].
Proof.
  intros (Hc & Hh & Hcl & Hf & Hst & Hu) Hnow. assert (forall k, lastUsed k = Some T -> stale k now = false) as Hs
    by (intros k Hk; rewrite (stale_spec k T now Hk); apply Z.ltb_ge; lia).
  destruct l as [cu st cl fa lu un h ne th wi]. cbn in Hc, Hh, Hcl, Hf, Hst, Hu. subst cu cl fa st lu.
  unfold three_steps, thread_step. cbn -[stale]. rewrite lookup_insert_eq. cbn -[stale].
  rewrite Hs by done. cbn.
  rewrite lookup_insert_eq. cbn. rewrite Hh. cbn. rewrite lookup_insert_eq. cbn. rewrite Hh. cbn.
  eexists. split; [done|]. by unfold holding.
Qed.

Lemma sends_inside ts : forall l a T, holding l a T -> close_together T ts ->
  exists l', sends ts l = Some l' /\ cur l' = Some a /\ wire_ l' = wire_ l ++ replicate (List.length ts) (Inside a).
Proof.
  induction ts as [|t ts IH]; intros l a T Hl Hts.
  - exists l. cbn. rewrite app_nil_r. split_and!; try done. apply Hl.
  - destruct Hts as [Ht Hts]. destruct (send_inside l a T t Hl Ht) as (l1 & H1 & Hl1 & Hw). destruct (IH l1 a t Hl1 Hts) as (l2 & H2 & Hc & Hw2).
    exists l2. cbn [sends]. rewrite H1. cbn [mbind option_bind]. split_and!; try done. rewrite Hw2, Hw, <-app_assoc. done.
Qed.

Section Both.
Context `{FloatPlatform} `{Ed25519} `{JSON Credential} `{JSON IssuerCert} `{JSON DeviceCredential} `{JSON wire}.
Context (cfg : Config).

Lemma stray_is_dropped i raw src now m s :
  Rendezvous.assocs m !! UDPAddr_String src = None -> Rendezvous.looksLikeDTLS raw = true -> Rendezvous.at_ raw 0 <> Rendezvous.handshakeRecord ->
  Rendezvous.receive cfg i raw src now (m, s) = ((m, s), [], None).
Proof.
  intros Hm Hd Hr. unfold Rendezvous.receive. rewrite (proj2 (proj2 (Rendezvous.datagrams_are_told_apart raw src)) Hd).
  unfold Rendezvous.route, Rendezvous.assocFor. rewrite Hm. by rewrite (proj2 (Z.eqb_neq _ _) Hr).
Qed.

(** Between the coordinator's clock and the client's own there is a minute in which the
    client still holds an association the coordinator has swept. A client that sends then,
    and goes on sending within three minutes of each time, keeps that association for ever:
    every message leaves inside it, and the coordinator drops every one unread. *)
Theorem short_silence_wedges capacity m src b x sw l a T ts i s :
  Rendezvous.reachable capacity m -> Rendezvous.assocs m !! UDPAddr_String src = Some b -> Rendezvous.heap m !! b = Some x ->
  Rendezvous.a_lastSeen x + Rendezvous.dtlsAssocIdle < sw ->
  holding l a T -> close_together T ts ->
  (exists l', sends ts l = Some l' /\ cur l' = Some a /\ wire_ l' = wire_ l ++ replicate (List.length ts) (Inside a)) /\
  forall raw now, Rendezvous.looksLikeDTLS raw = true -> Rendezvous.at_ raw 0 <> Rendezvous.handshakeRecord ->
    Rendezvous.receive cfg i raw src now (Rendezvous.sweepLocked sw m, s) = ((Rendezvous.sweepLocked sw m, s), [], None).
Proof.
  intros Hm Hb Hx Hsw Hl Hts. split; [by apply (sends_inside ts l a T)|]. intros raw now Hd Hr. apply stray_is_dropped; [|done..].
  destruct (Rendezvous.assocs (Rendezvous.sweepLocked sw m) !! UDPAddr_String src) as [c|] eqn:Hc; [exfalso|done].
  apply Rendezvous.sweep_assocs in Hc as [Hc Hg]. assert (c = b) as -> by congruence. unfold Rendezvous.goes in Hg. rewrite Hx in Hg.
  apply orb_false_iff in Hg as [_ Hg]. rewrite time_Sub_gt, Z.ltb_ge in Hg by by vm_compute. lia.
Qed.

(** After a longer silence the link replaces its association: it closes the one it holds and
    starts another's handshake; and a coordinator that has swept its own, and has room, takes
    the handshake as a new association. *)
Theorem long_silence_recovers l a T now src m hello t :
  link_reachable l -> holding l a T -> T + rendezvousAssocIdle < now ->
  Rendezvous.assocs m !! UDPAddr_String src = None -> Z.of_nat (size (Rendezvous.assocs m)) < Rendezvous.cap m ->
  Rendezvous.at_ hello 0 = Rendezvous.handshakeRecord ->
  (exists l' a', three_steps now l = Some l' /\ cur l' = Some a' /\ a' <> a /\ (exists x, heap l' !! a = Some x /\ done x = true) /\
     (exists n, threads l' !! n = Some (Checking a')) /\ threads l' !! next l = Some (Waiting a')) /\
  is_Some (Rendezvous.assocs (Rendezvous.route hello src t m) !! UDPAddr_String src).
Proof.
  intros Hok%link_reachable_ok (Hc & Hh & Hcl & Hf & Hst & Hu) Hnow Hm Hsz Hhello. split.
  - assert (a < next l)%nat as Ha by (apply (lk_next _ Hok); left; by eexists).
    assert (forall k, lastUsed k = Some T -> stale k now = true) as Hs
    by (intros k Hk; rewrite (stale_spec k T now Hk); apply Z.ltb_lt; lia). clear Hok.
    destruct l as [cu st cl fa lu un h ne th wi]. cbn in Hc, Hh, Hcl, Hf, Hst, Hu, Ha. subst cu cl fa st lu.
    unfold three_steps, thread_step. cbn -[stale]. rewrite lookup_insert_eq. cbn -[stale].
    rewrite Hs by done. cbn.
    rewrite lookup_insert_eq. cbn. rewrite lookup_insert_eq. cbn.
    eexists _, (S ne). split; [done|]. cbn. split; [done|]. split; [lia|]. split; [|split].
    + rewrite lookup_insert_ne by lia. rewrite lookup_alter_eq, Hh. by eexists.
    + exists (S (S ne)). rewrite lookup_insert_ne by lia. by rewrite lookup_insert_eq.
    + by rewrite lookup_insert_eq.
  - unfold Rendezvous.route, Rendezvous.assocFor. cbv zeta. rewrite Hm, Hhello, Z.eqb_refl. cbn [negb].
    set (m1 := if _ <? _ then _ else m).
    assert (Z.of_nat (size (Rendezvous.assocs m1)) < Rendezvous.cap m1) as Hsz1.
    { unfold m1. destruct (_ <? _); [|done]. unfold Rendezvous.cap in *. rewrite (proj1 (Rendezvous.sweep_kept t m)).
      pose proof (Rendezvous.sweep_size t m). lia. }
    rewrite (proj2 (Z.leb_gt _ _) Hsz1). cbn. rewrite lookup_insert_eq. by eexists.
Qed.
End Both.

(** ** Witnesses *)

Inductive link_label := Moves (n : nat) (now : Time) (e : ending) | Enters (t : thread).
Fixpoint link_run (ls : list link_label) (l : shapedLink) : option shapedLink :=
  match ls with
  | [] => Some l
  | Moves n now e :: ls => l ← thread_step n now e None l; link_run ls l
  | Enters t :: ls => link_run ls (go t l)
  end.
Definition enters_ok (x : link_label) : Prop := match x with Enters t => t = Establishing \/ t = Awaiting None \/ t = Closing | _ => True end.
Lemma link_run_reachable ls l0 l : Forall enters_ok ls -> link_run ls l0 = Some l -> rtc link_step l0 l.
Proof.
  revert l0. induction ls as [|[n now e|t] ls IH]; intros l0 Hls; cbn; [by intros [= ->]|..]; apply Forall_cons in Hls as [Ht Hls].
  - destruct (thread_step n now e None l0) as [l1|] eqn:Hs; cbn; [|done]. intros Hr. eapply rtc_l; [by eapply step_thread|by apply IH].
  - intros Hr. eapply rtc_l; [by eapply (step_enter t)|by apply IH].
Qed.

Module Demo.
Export Rendezvous.Demo.
(** A send: it mints association 2, whose handshake is goroutine 3. *)
Definition first_send : list link_label :=
  [Enters Establishing; Moves 0 0 Fine; Moves 3 0 Fine; Moves 3 0 Fine; Moves 3 0 Fine; Moves 3 0 Fine; Moves 0 0 Fine; Moves 0 0 Fine].
Definition link_of (ls : list link_label) : shapedLink := match link_run ls newShapedLink with Some l => l | None => newShapedLink end.
Definition established : shapedLink := link_of first_send.
(** Two sends after a silence: the first retires the association, the second mints another
    before the first has closed it. *)
Definition two_sends : list link_label := first_send ++ [Enters Establishing; Enters Establishing; Moves 4 (4 * Minute) Fine; Moves 5 (4 * Minute) Fine].
Definition racing : shapedLink := link_of two_sends.
Lemma racing_reachable : link_reachable racing.
Proof.
  apply (link_run_reachable two_sends); [|vm_compute; reflexivity].
  unfold two_sends, first_send. cbn [app]. repeat (constructor; [by cbn; auto|]). constructor.
Qed.
Lemma established_reachable : link_reachable established.
Proof.
  apply (link_run_reachable first_send); [|vm_compute; reflexivity].
  unfold first_send. repeat (constructor; [by cbn; auto|]). constructor.
Qed.
Lemma established_holds : holding established 2 0.
Proof. unfold holding. split_and!; vm_compute; reflexivity. Qed.
Definition data_record : bytes := byte_of 23 :: byte_of 0xfe :: byte_of 0xfd :: repeat Ascii.zero 10.
End Demo.
Import Demo.

Lemma one_association_witness :
  exists c n t, (c = 2 \/ c = 6)%nat /\ cur racing <> Some c /\ threads racing !! n = Some t /\ closes t = Some c.
Proof.
  apply (one_association racing 2 6 (MkShaped false true true false) newShapedAssoc racing_reachable);
    [vm_compute; reflexivity|vm_compute; reflexivity|discriminate|reflexivity|reflexivity].
Defined.

Lemma send_waits_for_one_handshake_witness :
  (forall now e, is_Some (thread_step 5 now e None racing)) \/
  exists a m u, Waiting 6 = Waiting a /\ threads racing !! m = Some u /\ shakes u = Some a.
Proof.
  destruct (send_waits_for_one_handshake racing 5 (Waiting 6) 4 racing_reachable ltac:(vm_compute; reflexivity) eq_refl)
    as (_ & [H|(a & m & u & H1 & H2 & H3 & _)]); [by left|right; by exists a, m, u].
Defined.

Lemma silent_until_sent_witness : wire_ (go (Awaiting None) newShapedLink) = [].
Proof.
  assert (rtc quiet_step newShapedLink (go (Awaiting None) newShapedLink)) as Hr by (apply rtc_once, quiet_enter; by left).
  exact (proj1 (silent_until_sent _ Hr)).
Defined.

Lemma short_silence_wedges_witness :
  (exists l', sends [150 * Second; 200 * Second; 5 * Minute] established = Some l' /\ cur l' = Some 2%nat) /\
  Rendezvous.receive full_cfg (Coordinator.Demo.at_ 3 "s1") data_record client_src (Hour + 150 * Second)
    (Rendezvous.sweepLocked (Hour + 130 * Second) mux, s_ready) = ((Rendezvous.sweepLocked (Hour + 130 * Second) mux, s_ready), [], None).
Proof.
  destruct (Rendezvous.heap mux !! 0%nat) as [x|] eqn:Hx; [|vm_compute in Hx; discriminate Hx].
  assert (Rendezvous.assocs mux !! UDPAddr_String client_src = Some 0%nat) as Hb by (vm_compute; reflexivity).
  assert (Rendezvous.a_lastSeen x + Rendezvous.dtlsAssocIdle < Hour + 130 * Second) as Hidle by (vm_compute in Hx; injection Hx as <-; by vm_compute).
  assert (close_together 0 [150 * Second; 200 * Second; 5 * Minute]) as Hc by by vm_compute.
  destruct (short_silence_wedges full_cfg 0 mux client_src 0 x (Hour + 130 * Second) established 2 0 [150 * Second; 200 * Second; 5 * Minute]
    (Coordinator.Demo.at_ 3 "s1") s_ready (ex_intro _ up eq_refl) Hb Hx Hidle established_holds Hc) as [(l' & H1 & H2 & _) H3].
  split; [by exists l'|]. apply (H3 data_record); by vm_compute.
Defined.

Lemma long_silence_recovers_witness :
  (exists l' a', three_steps (4 * Minute) established = Some l' /\ cur l' = Some a' /\ a' <> 2%nat) /\
  is_Some (Rendezvous.assocs (Rendezvous.route hello_record client_src Hour Rendezvous.newRendezvousMux) !! UDPAddr_String client_src).
Proof.
  destruct (long_silence_recovers established 2 0 (4 * Minute) client_src Rendezvous.newRendezvousMux hello_record Hour
    established_reachable established_holds ltac:(by vm_compute) ltac:(by vm_compute) ltac:(by vm_compute) ltac:(by vm_compute))
    as [(l' & a' & H1 & H2 & H3 & _) H4].
  split; [by exists l', a'|exact H4].
Defined.
