(* ===== verification/CoordLink.v ===== *)
(** * A client's link to one coordinator: [core/coordpool.go]

    The link around a socket: sends one at a time, a reader, [close], and [relink], which
    replaces the socket while the reader is blocked on it. A step is a critical section, or a
    call that opens, closes, reads or writes a socket; a socket is a number. The
    association inside is [ShapedLink]. *)

From S2P Require Import Prelude GoStrings.
Local Open Scope Z_scope.

(** Where a goroutine is. [relink]: about to dial, with a new socket, with the old one or the
    new one to close. [close]. A send: about to lock, and with the lock and the socket it
    saw. A reader: about to look, reading, with a failed read to compare. *)
Inductive thread :=
| Dialing | Dialed (c : nat) | Swapped (old : nat) | Refused (c : nat)
| Closing | ClosingConn (c : nat)
| Locking | Writing (c : nat)
| Looking | ReadingOn (c : nat) (g : Z) | Comparing (c : nat) (g : Z).

Record coordLink := MkCoordLink {
  conn : option nat; gen : Z; linkClosed : bool; sendMu : option nat; heardN : Z;
  opened : gset nat; written : list nat; next : nat; threads : gmap nat thread;
}.
(** [dialPool] gives each member its first socket. *)
Definition dialed_link : coordLink := MkCoordLink (Some 0%nat) 0 false None 0 {[ 0%nat ]} [] 1 ∅.

Definition goto (n : nat) (t : thread) (l : coordLink) : coordLink :=
  MkCoordLink (conn l) (gen l) (linkClosed l) (sendMu l) (heardN l) (opened l) (written l) (next l) (<[n := t]> (threads l)).
Definition exits (n : nat) (l : coordLink) : coordLink :=
  MkCoordLink (conn l) (gen l) (linkClosed l) (sendMu l) (heardN l) (opened l) (written l) (next l) (delete n (threads l)).
Definition enters (t : thread) (l : coordLink) : coordLink :=
  MkCoordLink (conn l) (gen l) (linkClosed l) (sendMu l) (heardN l) (opened l) (written l) (S (next l)) (<[next l := t]> (threads l)).
Definition dial (l : coordLink) : coordLink :=
  MkCoordLink (conn l) (gen l) (linkClosed l) (sendMu l) (heardN l) ({[ next l ]} ∪ opened l) (written l) (S (next l)) (threads l).
Definition close_socket (c : nat) (l : coordLink) : coordLink :=
  MkCoordLink (conn l) (gen l) (linkClosed l) (sendMu l) (heardN l) (opened l ∖ {[ c ]}) (written l) (next l) (threads l).
Definition swap (c : nat) (l : coordLink) : coordLink :=
  MkCoordLink (Some c) (gen l + 1) (linkClosed l) (sendMu l) (heardN l) (opened l) (written l) (next l) (threads l).
Definition set_closed (l : coordLink) : coordLink :=
  MkCoordLink (conn l) (gen l) true (sendMu l) (heardN l) (opened l) (written l) (next l) (threads l).
Definition set_mu (m : option nat) (l : coordLink) : coordLink :=
  MkCoordLink (conn l) (gen l) (linkClosed l) m (heardN l) (opened l) (written l) (next l) (threads l).
Definition write_on (c : nat) (l : coordLink) : coordLink :=
  MkCoordLink (conn l) (gen l) (linkClosed l) (sendMu l) (heardN l) (opened l) (written l ++ [c]) (next l) (threads l).
Definition hears (l : coordLink) : coordLink :=
  MkCoordLink (conn l) (gen l) (linkClosed l) (sendMu l) (heardN l + 1) (opened l) (written l) (next l) (threads l).

(** A step of goroutine [n]; [ok] is how the call it makes ends. *)
Definition thread_step (n : nat) (ok : bool) (l : coordLink) : option coordLink :=
  t ← threads l !! n;
  match t with
  | Dialing => if ok then Some (goto n (Dialed (next l)) (dial l)) else Some (exits n l)
  | Dialed c =>
      match sendMu l with
      | Some _ => None
      | None =>
          if linkClosed l then Some (goto n (Refused c) l)
          else Some (match conn l with Some old => goto n (Swapped old) (swap c l) | None => exits n (swap c l) end)
      end
  | Swapped c | Refused c | ClosingConn c => Some (exits n (close_socket c l))
  | Closing =>
      let l := set_closed l in
      Some (match conn l with Some c => goto n (ClosingConn c) l | None => exits n l end)
  | Locking =>
      match sendMu l with
      | Some _ => None
      | None => Some (match conn l with Some c => goto n (Writing c) (set_mu (Some n) l) | None => exits n l end)
      end
  | Writing _ =>
      Some (exits n (set_mu None (match conn l with Some c => if ok then write_on c l else l | None => l end)))
  | Looking => match conn l with Some c => Some (goto n (ReadingOn c (gen l)) l) | None => None end
  | ReadingOn c g =>
      if ok && bool_decide (c ∈ opened l) then Some (goto n Looking (hears l)) else Some (goto n (Comparing c g) l)
  | Comparing c g => if gen l =? g then Some (exits n l) else Some (goto n Looking l)
  end.

Inductive link_step : coordLink -> coordLink -> Prop :=
| step_thread n ok l l' : thread_step n ok l = Some l' -> link_step l l'
| step_enter t l : t ∈ [Dialing; Closing; Locking; Looking] -> link_step l (enters t l).
Definition link_reachable (l : coordLink) : Prop := rtc link_step dialed_link l.

(** ** The invariant *)

(** The socket a goroutine has to close, and the one that is its own. *)
Definition owns (t : thread) : option nat :=
  match t with Dialed c | Swapped c | Refused c | ClosingConn c => Some c | _ => None end.
Definition mine (t : thread) : option nat :=
  match t with Dialed c | Swapped c | Refused c => Some c | _ => None end.

Record link_ok (l : coordLink) : Prop := {
  ok_owned c : c ∈ opened l -> (conn l = Some c /\ linkClosed l = false) \/ exists n t, threads l !! n = Some t /\ owns t = Some c;
  ok_open c : conn l = Some c -> c ∈ opened l \/ linkClosed l = true;
  ok_mine n t c : threads l !! n = Some t -> mine t = Some c -> conn l <> Some c /\ forall m u, threads l !! m = Some u -> mine u = Some c -> m = n;
  ok_dialed n c : threads l !! n = Some (Dialed c) -> c ∈ opened l /\ forall m u, threads l !! m = Some u -> owns u = Some c -> m = n;
  ok_closing n c : threads l !! n = Some (ClosingConn c) -> linkClosed l = true;
  ok_fresh c : (next l <= c)%nat -> c ∉ opened l /\ conn l <> Some c /\ threads l !! c = None /\ forall n t, threads l !! n = Some t -> owns t <> Some c;
  ok_reads n t c g : threads l !! n = Some t -> t = ReadingOn c g \/ t = Comparing c g -> g <= gen l /\ (g = gen l -> conn l = Some c);
  ok_writes n c : threads l !! n = Some (Writing c) -> sendMu l = Some n /\ conn l = Some c;
}.

(** A goroutine goes on ([Some u]) or ends; the link changes as [l'] says. *)
Definition replaces (n : nat) (u : option thread) (l l' : coordLink) : Prop :=
  threads l' = match u with Some t => <[n := t]> (threads l) | None => delete n (threads l) end.
Lemma replaces_other n u l l' m t : replaces n u l l' -> m <> n -> threads l' !! m = Some t <-> threads l !! m = Some t.
Proof. unfold replaces. intros -> Hm. destruct u; [by rewrite lookup_insert_ne|by rewrite lookup_delete_ne]. Qed.
Lemma replaces_self n u l l' : replaces n u l l' -> threads l' !! n = u.
Proof. unfold replaces. intros ->. destruct u; [apply lookup_insert_eq|apply lookup_delete_eq]. Qed.
Lemma replaces_some n u l l' m t : replaces n u l l' -> threads l' !! m = Some t -> (m = n /\ u = Some t) \/ (m <> n /\ threads l !! m = Some t).
Proof.
  intros Hr Hm. destruct (decide (m = n)) as [->|Hne]; [left; split; [done|]; by rewrite (replaces_self _ _ _ _ Hr) in Hm|].
  right. split; [done|]. by apply (replaces_other _ _ _ _ _ _ Hr).
Qed.

(** Steps that leave the sockets alone: the goroutine owns what it owned. *)
Lemma keep_ok n t u l l' :
  link_ok l -> threads l !! n = Some t -> replaces n u l l' ->
  conn l' = conn l -> gen l' = gen l -> opened l' = opened l -> (next l' = next l) ->
  (linkClosed l = true -> linkClosed l' = true) ->
  (linkClosed l' = false -> linkClosed l = false) ->
  (forall c, owns t = Some c -> exists t', u = Some t' /\ owns t' = Some c) ->
  (forall t', u = Some t' -> mine t' = None \/ mine t' = mine t) ->
  (forall t' c, u = Some t' -> owns t' = Some c -> owns t = Some c \/ conn l = Some c) ->
  (forall c, conn l = Some c -> linkClosed l' <> linkClosed l -> exists t', u = Some t' /\ owns t' = Some c) ->
  (forall c, u = Some (ClosingConn c) -> linkClosed l' = true) -> (forall c, u <> Some (Dialed c)) ->
  (forall t' c g, u = Some t' -> t' = ReadingOn c g \/ t' = Comparing c g -> g <= gen l /\ (g = gen l -> conn l = Some c)) ->
  (forall c, u = Some (Writing c) -> sendMu l' = Some n /\ conn l = Some c) ->
  (forall m c, m <> n -> threads l !! m = Some (Writing c) -> sendMu l' = sendMu l) ->
  link_ok l'.
Proof.
  intros [Ho Hp Hm Hdi Hc Hf Hr Hw] Ht Hrep E1 E2 E3 E4 HclT HclF Hown Hmine Hown' Hcl' Hclo Hnd Hrd Hwr Hmu.
  split.
  - intros c. rewrite E1, E3. intros Hin. destruct (Ho c Hin) as [[Hcc Hlc]|(m & t' & Hm' & Hot)].
    + destruct (linkClosed l') eqn:Hlc'; [|by left]. right.
      destruct (Hcl' c Hcc ltac:(congruence)) as (t' & -> & Ht'). exists n, t'. split; [by apply (replaces_self _ _ _ _ Hrep)|done].
    + right. destruct (decide (m = n)) as [->|Hne]; [|exists m, t'; split; [by apply (replaces_other _ _ _ _ _ _ Hrep)|done]].
      assert (t' = t) as -> by congruence. destruct (Hown c Hot) as (t' & -> & Ht'). exists n, t'. split; [by apply (replaces_self _ _ _ _ Hrep)|done].
  - intros c. rewrite E1, E3. intros Hcc. destruct (Hp c Hcc); [by left|right; by apply HclT].
  - intros m t' c Hm' Hmi. rewrite E1.
    assert (forall k v, threads l' !! k = Some v -> mine v = Some c -> exists v0, threads l !! k = Some v0 /\ mine v0 = Some c) as Hback.
    { intros k v Hk Hv. apply (replaces_some _ _ _ _ _ _ Hrep) in Hk as [[-> Hu]|[_ Hk]]; [|by exists v].
      exists t. split; [done|]. destruct (Hmine v Hu) as [|Heq]; congruence. }
    destruct (Hback m t' Hm' Hmi) as (v & Hv & Hvm). destruct (Hm m v c Hv Hvm) as [Hne Huniq]. split; [done|].
    intros k w Hk Hkm. destruct (Hback k w Hk Hkm) as (v2 & Hv2 & Hvm2). by apply (Huniq k v2).
  - intros m c Hm'. rewrite E3. apply (replaces_some _ _ _ _ _ _ Hrep) in Hm' as [[-> Hu]|[Hmn Hm']]; [by apply Hnd in Hu|].
    destruct (Hdi m c Hm') as [Hin Huniq]. split; [done|]. intros k v Hk Hv.
    apply (replaces_some _ _ _ _ _ _ Hrep) in Hk as [[-> Hu]|[_ Hk]]; [|by apply (Huniq k v)].
    destruct (Hown' v c Hu Hv) as [Hx|Hx]; [by apply (Huniq n t)|]. by destruct (Hm m (Dialed c) c Hm' eq_refl).
  - intros m c Hm'. apply (replaces_some _ _ _ _ _ _ Hrep) in Hm' as [[-> Hu]|[_ Hm']]; [by apply (Hclo c)|by apply HclT, (Hc m c)].
  - intros c. rewrite E4, E1, E3. intros Hle. destruct (Hf c Hle) as (F1 & F2 & F3 & F4). split_and!; try done.
    + destruct (decide (c = n)) as [->|Hne]; [congruence|]. destruct (threads l' !! c) eqn:Hx; [|done].
      apply (replaces_other _ _ _ _ _ _ Hrep) in Hx; [congruence|done].
    + intros m t' Hm'. apply (replaces_some _ _ _ _ _ _ Hrep) in Hm' as [[-> Hu]|[_ Hm']]; [|by apply (F4 m)].
      intros Hx. destruct (Hown' t' c Hu Hx) as [Hx'|Hx']; [by apply (F4 n t Ht)|done].
  - intros m t' c g Hm' Hg. rewrite E1, E2. apply (replaces_some _ _ _ _ _ _ Hrep) in Hm' as [[-> Hu]|[_ Hm']]; [by apply (Hrd t')|by apply (Hr m t')].
  - intros m c Hm'. rewrite E1. apply (replaces_some _ _ _ _ _ _ Hrep) in Hm' as [[-> Hu]|[Hne Hm']]; [by apply Hwr|].
    rewrite (Hmu m c Hne Hm'). by apply Hw.
Qed.

(** A goroutine that closes the socket it owns and ends. *)
Lemma close_ok n t c l : link_ok l -> threads l !! n = Some t -> owns t = Some c -> (mine t = Some c \/ t = ClosingConn c) ->
  link_ok (exits n (close_socket c l)).
Proof.
  intros [Ho Hp Hm Hdi Hc Hf Hr Hw] Ht Hown Hkind. split; cbn.
  - intros d [Hd Hne%not_elem_of_singleton]%elem_of_difference. destruct (Ho d Hd) as [|(m & t' & Hm' & Hot)]; [by left|right].
    exists m, t'. split; [|done]. rewrite lookup_delete_ne; [done|]. intros <-. congruence.
  - intros d Hd. destruct (decide (d = c)) as [->|Hne]; [right|].
    + destruct Hkind as [Hmi | ->]; [by destruct (proj1 (Hm n t c Ht Hmi))|by apply (Hc n c)].
    + destruct (Hp d Hd); [left; apply elem_of_difference; split; [done|]; by apply not_elem_of_singleton|by right].
  - intros m t' d [Hne Hm']%lookup_delete_Some Hmi. destruct (Hm m t' d Hm' Hmi) as [? Hu]. split; [done|].
    intros k u [_ Hk]%lookup_delete_Some. by apply Hu.
  - intros m d [Hmn Hm']%lookup_delete_Some. destruct (Hdi m d Hm') as [Hin Huniq]. split.
    + apply elem_of_difference. split; [done|]. apply not_elem_of_singleton. intros ->. by destruct Hmn; apply (Huniq n t).
    + intros k u [_ Hk]%lookup_delete_Some. by apply Huniq.
  - intros m d [_ Hm']%lookup_delete_Some. by apply (Hc m d).
  - intros d Hd. destruct (Hf d Hd) as (F1 & F2 & F3 & F4). split_and!; [set_solver|done| |].
    + destruct (decide (d = n)) as [->|]; [apply lookup_delete_eq|by rewrite lookup_delete_ne].
    + intros m t' [_ Hm']%lookup_delete_Some. by apply (F4 m).
  - intros m t' d g [_ Hm']%lookup_delete_Some. by apply (Hr m t').
  - intros m d [_ Hm']%lookup_delete_Some. by apply Hw.
Qed.

Lemma enters_ok t l : link_ok l -> owns t = None -> (forall c, t <> Writing c) -> (forall c g, t <> ReadingOn c g /\ t <> Comparing c g) -> link_ok (enters t l).
Proof.
  intros [Ho Hp Hm Hdi Hc Hf Hr Hw] Hown Hnw Hnr. destruct (Hf (next l) (le_n _)) as (_ & _ & Hfree & _).
  assert (forall m u, <[next l := t]> (threads l) !! m = Some u -> (u = t) \/ threads l !! m = Some u) as Hin
    by (intros m u; rewrite lookup_insert_Some; naive_solver).
  assert (mine t = None) as Hmine by (by destruct t). split; cbn.
  - intros c Hin'. destruct (Ho c Hin') as [|(m & u & Hu & Hou)]; [by left|right]. exists m, u. split; [|done].
    rewrite lookup_insert_ne; [done|]. intros <-. congruence.
  - done.
  - intros m u c [->|Hu]%Hin Hmi; [congruence|]. destruct (Hm m u c Hu Hmi) as [? Hx]. split; [done|].
    intros k v [->|Hv]%Hin Hvm; [congruence|by apply (Hx k v)].
  - intros m c [<-|Hu]%Hin; [done|]. destruct (Hdi m c Hu) as [Hin' Huniq]. split; [done|]. intros k v [->|Hv]%Hin Hov; [congruence|by apply (Huniq k v)].
  - intros m c [<-|Hu]%Hin; [done|by apply (Hc m c)].
  - intros c Hle. destruct (Hf c) as (F1 & F2 & F3 & F4); [lia|]. split_and!; try done; [by rewrite lookup_insert_ne by lia|].
    intros m u [->|Hu]%Hin; [congruence|by apply (F4 m)].
  - intros m u c g [->|Hu]%Hin Hg; [by destruct (Hnr c g), Hg|by apply (Hr m u)].
  - intros m c [<-|Hu]%Hin; [by destruct (Hnw c)|by apply Hw].
Qed.

Lemma dial_ok n l : link_ok l -> threads l !! n = Some Dialing -> link_ok (goto n (Dialed (next l)) (dial l)).
Proof.
  intros [Ho Hp Hm Hdi Hc Hf Hr Hw] Ht. destruct (Hf (next l) (le_n _)) as (N1 & N2 & N3 & N4).
  assert (forall m u, <[n := Dialed (next l)]> (threads l) !! m = Some u -> (m = n /\ u = Dialed (next l)) \/ (m <> n /\ threads l !! m = Some u)) as Hin
    by (intros m u; rewrite lookup_insert_Some; naive_solver).
  split; cbn.
  - intros c [->%elem_of_singleton|Hc']%elem_of_union; [right; exists n, (Dialed (next l)); by rewrite lookup_insert_eq|].
    destruct (Ho c Hc') as [|(m & u & Hu & Hou)]; [by left|right]. exists m, u. split; [|done]. rewrite lookup_insert_ne; [done|]. intros <-. simplify_eq.
  - intros c Hcc. destruct (Hp c Hcc); [left; set_solver|by right].
  - intros m u c [[-> ->]|[Hne Hu]]%Hin Hmi.
    + injection Hmi as <-. split; [done|]. intros k v [[-> _]|[_ Hv]]%Hin Hvm; [done|]. exfalso. apply (N4 k v Hv). by destruct v.
    + destruct (Hm m u c Hu Hmi) as [? Hx]. split; [done|]. intros k v [[-> ->]|[_ Hv]]%Hin Hvm; [|by apply (Hx k v)].
      injection Hvm as <-. exfalso. apply (N4 m u Hu). by destruct u.
  - intros m c [[-> [= ->]]|[Hmn Hu]]%Hin.
    + split; [set_solver|]. intros k v [[-> _]|[_ Hv]]%Hin Hov; [done|]. by apply (N4 k v Hv) in Hov.
    + destruct (Hdi m c Hu) as [Hin' Huniq]. split; [set_solver|]. intros k v [[-> ->]|[_ Hv]]%Hin Hov; [|by apply (Huniq k v)].
      injection Hov as <-. by destruct (N4 m _ Hu).
  - intros m c [[_ ?]|[_ Hu]]%Hin; [done|by apply (Hc m c)].
  - intros c Hle. destruct (Hf c) as (F1 & F2 & F3 & F4); [lia|]. split_and!; try done.
    + apply not_elem_of_union. split; [apply not_elem_of_singleton; lia|done].
    + destruct (decide (c = n)) as [->|]; [congruence|by rewrite lookup_insert_ne].
    + intros m u [[_ ->]|[_ Hu]]%Hin; [cbn; intros [= ?]; lia|by apply (F4 m)].
  - intros m u c g [[_ ->]|[_ Hu]]%Hin Hg; [by destruct Hg|by apply (Hr m u)].
  - intros m c [[_ ?]|[_ Hu]]%Hin; [done|by apply Hw].
Qed.

Lemma swap_ok n c l : link_ok l -> threads l !! n = Some (Dialed c) -> sendMu l = None -> linkClosed l = false ->
  link_ok (match conn l with Some old => goto n (Swapped old) (swap c l) | None => exits n (swap c l) end).
Proof.
  intros [Ho Hp Hm Hdi Hc Hf Hr Hw] Ht Hmu Hcl. destruct (Hm n (Dialed c) c Ht eq_refl) as [Hne Huniq]. destruct (Hdi n c Ht) as [Hopen Hown].
  set (u := match conn l with Some old => Some (Swapped old) | None => None end).
  set (l' := match conn l with Some old => _ | None => _ end).
  assert (replaces n u l l' /\ conn l' = Some c /\ gen l' = gen l + 1 /\ opened l' = opened l /\ next l' = next l /\ linkClosed l' = linkClosed l)
    as (Hrep & E1 & E2 & E3 & E4 & E5) by (unfold u, l'; by destruct (conn l)).
  assert (forall t', u = Some t' -> exists old, conn l = Some old /\ t' = Swapped old) as Hu
    by (unfold u; destruct (conn l) as [old|]; [intros t' [= <-]; by exists old|done]).
  assert (forall m t', threads l' !! m = Some t' -> (m = n /\ exists old, conn l = Some old /\ t' = Swapped old) \/ (m <> n /\ threads l !! m = Some t')) as Hin.
  { intros m t' Hm'. apply (replaces_some _ _ _ _ _ _ Hrep) in Hm' as [[-> Hx]|[? ?]]; [left; split; [done|by apply Hu]|by right]. }
  clearbody l'. split.
  - intros d. rewrite E1, E3, E5. intros Hd. destruct (decide (d = c)) as [->|Hdc]; [by left|right].
    destruct (Ho d Hd) as [[Hcd _]|(m & t' & Hm' & Hot)].
    + exists n, (Swapped d). split; [|done]. rewrite (replaces_self _ _ _ _ Hrep). unfold u. by rewrite Hcd.
    + exists m, t'. split; [|done]. apply (replaces_other _ _ _ _ _ _ Hrep); [|done]. intros ->. rewrite Ht in Hm'. injection Hm' as <-. cbn in Hot. congruence.
  - intros d. rewrite E1, E3. intros [= <-]. by left.
  - intros m t' d Hm' Hmi. rewrite E1. apply Hin in Hm' as [[-> (old & Hold & ->)]|[Hmn Hm']].
    + cbn in Hmi. injection Hmi as <-. split; [congruence|]. intros k v Hk Hv. apply Hin in Hk as [[-> _]|[_ Hk]]; [done|]. by destruct (Hm k v old Hk Hv).
    + destruct (Hm m t' d Hm' Hmi) as [Hdn Hx]. split.
      * intros [= ->]. apply Hmn. by apply (Huniq m t').
      * intros k v Hk Hv. apply Hin in Hk as [[-> (old & Hold & ->)]|[_ Hk]]; [cbn in Hv; congruence|by apply (Hx k v)].
  - intros m d Hm'. rewrite E3. apply Hin in Hm' as [[-> (old & _ & ?)]|[Hmn Hm']]; [done|]. destruct (Hdi m d Hm') as [Hin' Hx]. split; [done|].
    intros k v Hk Hv. apply Hin in Hk as [[-> (old & Hold & ->)]|[_ Hk]]; [|by apply (Hx k v)]. cbn in Hv. injection Hv as ->. by destruct (Hm m _ d Hm' eq_refl).
  - intros m d Hm'. apply Hin in Hm' as [[-> (old & _ & ?)]|[_ Hm']]; [done|]. rewrite E5. by apply (Hc m d).
  - intros d. rewrite E4, E1, E3. intros Hd. destruct (Hf d Hd) as (F1 & F2 & F3 & F4). split_and!; [done|intros [= ->]; done| |].
    + destruct (decide (d = n)) as [->|Hdn]; [congruence|]. destruct (threads l' !! d) eqn:Hx; [|done].
      apply (replaces_other _ _ _ _ _ _ Hrep) in Hx; [congruence|done].
    + intros m t' Hm'. apply Hin in Hm' as [[-> (old & Hold & ->)]|[_ Hm']]; [cbn; congruence|by apply (F4 m)].
  - intros m t' d g Hm' Hg. rewrite E2. apply Hin in Hm' as [[-> (old & _ & ->)]|[_ Hm']]; [by destruct Hg|].
    destruct (Hr m t' d g Hm' Hg) as [Hgg _]. lia.
  - intros m d Hm'. apply Hin in Hm' as [[-> (old & _ & ?)]|[_ Hm']]; [done|]. destruct (Hw m d Hm'). congruence.
Qed.

Lemma coord_step_ok n ok l l' : link_ok l -> thread_step n ok l = Some l' -> link_ok l'.
Proof.
  intros Hok. unfold thread_step. destruct (threads l !! n) as [t|] eqn:Ht; cbn [mbind option_bind]; [|done].
  pose proof (ok_writes _ Hok) as Hw. pose proof (ok_reads _ Hok n t) as Hr.
  assert (forall u l2, replaces n u l l2 -> conn l2 = conn l -> gen l2 = gen l -> opened l2 = opened l -> next l2 = next l -> linkClosed l2 = linkClosed l ->
    owns t = None -> (forall t', u = Some t' -> owns t' = None) ->
    (forall t' c g, u = Some t' -> t' = ReadingOn c g \/ t' = Comparing c g -> g <= gen l /\ (g = gen l -> conn l = Some c)) ->
    (forall c, u = Some (Writing c) -> sendMu l2 = Some n /\ conn l = Some c) ->
    (forall m c, m <> n -> threads l !! m = Some (Writing c) -> sendMu l2 = sendMu l) -> link_ok l2) as Hkeep.
  { intros u l2 H1 H2 H3 H4 H5 H6 Hot Hou H7 H8 H9. apply (keep_ok n t u l l2 Hok Ht); try done; try congruence.
    - intros t' ->. left. specialize (Hou t' eq_refl). by destruct t'.
    - intros t' c Hu Hx. rewrite (Hou t' Hu) in Hx. done.
    - intros c Hu. by specialize (Hou _ Hu).
    - intros c Hu. by specialize (Hou _ Hu). }
  destruct t as [|c|c|c| |c| |c| |c g|c g].
  - destruct ok; intros [= <-]; [by apply dial_ok|by apply (Hkeep None)].
  - destruct (sendMu l) eqn:Hmu; [done|]. destruct (linkClosed l) eqn:Hcl; intros [= <-]; [|by apply swap_ok].
    apply (keep_ok n (Dialed c) (Some (Refused c)) l _ Hok Ht); try done.
    + intros d [= <-]. by eexists.
    + intros t' [= <-]. by right.
    + intros t' d [= <-] Hd. by left.
    + intros t' d g [= <-] [?|?]; done.
  - intros [= <-]. apply (close_ok n (Swapped c)); auto.
  - intros [= <-]. apply (close_ok n (Refused c)); auto.
  - cbn [set_closed conn]. intros [= <-]. destruct (conn l) as [c|] eqn:Hcc.
    + apply (keep_ok n Closing (Some (ClosingConn c)) l _ Hok Ht); try done.
      * intros t' [= <-]. by left.
      * intros t' d [= <-] [= <-]. by right.
      * intros d Hd _. eexists. split; [done|]. cbn. congruence.
      * intros t' d g [= <-] [?|?]; done.
    + apply (keep_ok n Closing None l _ Hok Ht); try done. intros d Hd. congruence.
  - intros [= <-]. apply (close_ok n (ClosingConn c)); auto.
  - destruct (sendMu l) eqn:Hmu; [done|]. destruct (conn l) as [c|] eqn:Hcc; intros [= <-].
    + apply (Hkeep (Some (Writing c))); try done.
      * by intros t' [= <-].
      * by intros t' d g [= <-] [?|?].
      * by intros d [= <-].
      * intros m d _ Hm. destruct (Hw m d Hm). congruence.
    + by apply (Hkeep None).
  - destruct (Hw n c Ht) as [Hmu Hcc]. rewrite Hcc. intros [= <-]. apply (Hkeep None); try done; try (by destruct ok).
    intros m d Hne Hm. destruct (Hw m d Hm). congruence.
  - destruct (conn l) as [c|] eqn:Hcc; [|done]. intros [= <-]. apply (Hkeep (Some (ReadingOn c (gen l)))); try done.
    + by intros t' [= <-].
    + intros t' d g [= <-] [[= <- <-]|?]; [split; [lia|congruence]|done].
  - destruct (ok && _); intros [= <-].
    + by apply (Hkeep (Some Looking)); try done; [intros t' [= <-]|intros t' d k [= <-] [?|?]].
    + apply (Hkeep (Some (Comparing c g))); try done; [by intros t' [= <-]|].
      intros t' d k Hu Hk. injection Hu as <-. destruct Hk as [?|Hk]; [done|]. injection Hk as <- <-. apply (Hr c g Ht). by left.
  - destruct (gen l =? g); intros [= <-]; [by apply (Hkeep None)|].
    by apply (Hkeep (Some Looking)); try done; [intros t' [= <-]|intros t' d k [= <-] [?|?]].
Qed.

Lemma coord_reachable_ok l : link_reachable l -> link_ok l.
Proof.
  intros Hr. unfold link_reachable in Hr. remember dialed_link as l0 eqn:H0.
  assert (link_ok l0) as Hok0.
  { subst l0. split; cbn.
    - intros c ->%elem_of_singleton. by left.
    - intros c [= <-]. left. set_solver.
    - intros n t c Hn. by rewrite lookup_empty in Hn.
    - intros n c Hn. by rewrite lookup_empty in Hn.
    - intros n c Hn. by rewrite lookup_empty in Hn.
    - intros c Hc. split_and!; [apply not_elem_of_singleton; lia|intros [= <-]; lia|apply lookup_empty|].
      intros n t Hn. by rewrite lookup_empty in Hn.
    - intros n t c g Hn. by rewrite lookup_empty in Hn.
    - intros n c Hn. by rewrite lookup_empty in Hn. }
  clear H0. induction Hr as [|l l1 l2 Hstep _ IH]; [done|]. apply IH. destruct Hstep as [n ok l l1 Hs|t l Ht].
  - by apply (coord_step_ok n ok l).
  - apply enters_ok; [done|..]; repeat (apply elem_of_cons in Ht as [->|Ht]; [done|]); by apply not_elem_of_nil in Ht.
Qed.

(** However rebuilds, sends, reads and closes of a link interleave: a socket that is open is
    the link's, or a goroutine is about to close it or to make it the link's; once the link
    is closed every socket that is open is about to be closed, or waits for a send that will
    let its rebuild find the link closed; and a send writes on the socket it looked at. *)
Theorem no_socket_is_left l c :
  link_reachable l -> c ∈ opened l ->
  ((conn l = Some c /\ linkClosed l = false) \/ exists n t, threads l !! n = Some t /\ owns t = Some c) /\
  (linkClosed l = true -> exists n t, threads l !! n = Some t /\ owns t = Some c /\
     forall ok, sendMu l = None -> exists l', thread_step n ok l = Some l' /\ (c ∉ opened l' \/ threads l' !! n = Some (Refused c))) /\
  (forall n d, threads l !! n = Some (Writing d) -> conn l = Some d).
Proof.
  intros Hok%coord_reachable_ok Hc. split; [by apply ok_owned|]. split; [|intros n d Hn; by apply (ok_writes _ Hok n d)].
  intros Hcl. destruct (ok_owned _ Hok c Hc) as [[_ ?]|(n & t & Hn & Ho)]; [congruence|]. exists n, t. split_and!; try done.
  intros ok Hmu. unfold thread_step. rewrite Hn. cbn [mbind option_bind].
  destruct t; try done; injection Ho as ->; try (eexists; split; [done|]; left; cbn; set_solver).
  rewrite Hmu, Hcl. eexists. split; [done|]. right. apply lookup_insert_eq.
Qed.

(** A reader survives every rebuild of its link: where a read failed because the socket was
    closed under it, it gives up only if the link itself was closed. *)
Theorem reader_survives_relink l n c g ok l' :
  link_reachable l -> threads l !! n = Some (Comparing c g) -> c ∉ opened l ->
  thread_step n ok l = Some l' -> linkClosed l = false -> threads l' !! n = Some Looking.
Proof.
  intros Hok%coord_reachable_ok Hn Hc. unfold thread_step. rewrite Hn. cbn [mbind option_bind].
  destruct (ok_reads _ Hok n _ c g Hn (or_intror eq_refl)) as [_ Hg].
  destruct (Z.eqb_spec (gen l) g) as [Heq|Hne]; intros [= <-] Hcl; [|apply lookup_insert_eq].
  exfalso. destruct (ok_open _ Hok c (Hg (eq_sym Heq))); [done|congruence].
Qed.

(** ** Witnesses *)

Inductive link_label := Moves (n : nat) (ok : bool) | Enters (t : thread).
Fixpoint link_run (ls : list link_label) (l : coordLink) : option coordLink :=
  match ls with
  | [] => Some l
  | Moves n ok :: ls => l ← thread_step n ok l; link_run ls l
  | Enters t :: ls => link_run ls (enters t l)
  end.
Lemma coord_run_reachable ls l0 l :
  Forall (fun x => match x with Enters t => t ∈ [Dialing; Closing; Locking; Looking] | _ => True end) ls ->
  link_run ls l0 = Some l -> rtc link_step l0 l.
Proof.
  revert l0. induction ls as [|[n ok|t] ls IH]; intros l0 Hls; cbn; [by intros [= ->]|..]; apply Forall_cons in Hls as [Ht Hls].
  - destruct (thread_step n ok l0) as [l1|] eqn:Hs; cbn; [|done]. intros Hr. eapply rtc_l; [by eapply step_thread|by apply IH].
  - intros Hr. eapply rtc_l; [by eapply (step_enter t)|by apply IH].
Qed.

Module Demo.
Definition link_of (ls : list link_label) : coordLink := match link_run ls dialed_link with Some l => l | None => dialed_link end.
(** A reader, 1, blocked on socket 0; a rebuild, 2, on socket 3, closes socket 0 under it; the
    read fails. *)
Definition rebuild : list link_label :=
  [Enters Looking; Moves 1 true; Enters Dialing; Moves 2 true; Moves 2 true; Moves 2 true; Moves 1 true].
Definition rebuilt : coordLink := link_of rebuild.
(** A close that overtakes a rebuild: the new socket, 2, is still open. *)
Definition overtake : list link_label := [Enters Dialing; Moves 1 true; Enters Closing; Moves 3 true; Moves 3 true].
Definition overtaken : coordLink := link_of overtake.
Lemma rebuilt_reachable : link_reachable rebuilt.
Proof.
  apply (coord_run_reachable rebuild); [|vm_compute; reflexivity]. unfold rebuild.
  repeat (constructor; [first [done|by apply elem_of_list_In; cbn; auto|set_solver]|]). constructor.
Qed.
Lemma overtaken_reachable : link_reachable overtaken.
Proof.
  apply (coord_run_reachable overtake); [|vm_compute; reflexivity]. unfold overtake.
  repeat (constructor; [first [done|set_solver]|]). constructor.
Qed.
End Demo.
Import Demo.

Lemma no_socket_is_left_witness : exists n t, threads overtaken !! n = Some t /\ owns t = Some 2%nat.
Proof.
  assert (2%nat ∈ opened overtaken) as Hin by (refine (bool_decide_unpack _ _); vm_compute; exact I).
  destruct (no_socket_is_left overtaken 2 overtaken_reachable Hin) as (_ & H & _).
  destruct (H ltac:(vm_compute; reflexivity)) as (n & t & Hn & Ho & _). exists n, t. split; [exact Hn|exact Ho].
Defined.

Lemma reader_survives_relink_witness :
  exists l', thread_step 1 true rebuilt = Some l' /\ threads l' !! 1%nat = Some Looking.
Proof.
  assert (0%nat ∉ opened rebuilt) as Hin by (refine (bool_decide_unpack _ _); vm_compute; exact I).
  destruct (thread_step 1 true rebuilt) as [l'|] eqn:Hs; [|vm_compute in Hs; discriminate Hs]. exists l'. split; [reflexivity|].
  apply (reader_survives_relink rebuilt 1 0 0 true l' rebuilt_reachable); [vm_compute; reflexivity|exact Hin|exact Hs|vm_compute; reflexivity].
Defined.
